(* ===== verification/_CoqProject ===== *)
-Q . S2P
Prelude.v
Common.v
Logger.v
HeapPage.v
HeapPageProofs.v
HeapPageRefine.v
HeapPageTheorems.v
NodeArray.v
LeafNode.v
LeafNodeProofs.v
LeafNodeTheorems.v
InternalNode.v
InternalNodeProofs.v
InternalNodeTheorems.v
DiskManager.v
DiskProofs.v
DiskTheorems.v
Replacer.v
ReplacerTheorems.v
PoolIndex.v
BufferPool.v
BufferPoolProofs.v
BufferPoolOps.v
BufferPoolLifecycle.v
PoolEpochs.v
PoolSteady.v
PoolRefine.v
PoolRefineProofs.v
BufferPoolTheorems.v
PoolThreads.v
PoolTokens.v
PoolShared.v
PoolPieces.v
PoolPins.v
PoolFlushes.v
PoolReclaims.v
PoolLoads.v
PoolCreates.v
PoolRun.v
PoolProgress.v
PoolReach.v
PoolThreadsTheorems.v
PageStore.v
PageStoreLogic.v
PoolStore.v
TableHeap.v
TableHeapSpec.v
TableHeapProofs.v
TableScan.v
TableHeapTheorems.v
TableThreads.v
TableLinear.v
TableShared.v
TableRun.v
TableThreadsTheorems.v
BPlusTree.v
BPlusTreeSpec.v
BPlusTreePath.v
BPlusTreeRead.v
BPlusTreeScan.v
BPlusTreeCheck.v
BPlusTreeWrite.v
BPlusTreeKids.v
BPlusTreeInsert.v
BPlusTreeInsertTop.v
BPlusTreeShape.v
BPlusTreeRebalance.v
BPlusTreePlan.v
BPlusTreeApply.v
BPlusTreeDelete.v
BPlusTreeOpen.v
BPlusTreeTheorems.v
ShellText.v
ShellTextProofs.v
Shell.v
ShellSpec.v
ShellCommands.v
ShellTable.v
ShellSession.v
ShellTheorems.v
