(* ===== verification/Prelude.v ===== *)
(** * kernSQL: a verified model of the storage engine

    kernSQL (src/src) is the storage half of a database: a file of 4096-byte pages, a buffer
    pool over it, two access methods on top, a heap of rows and a B+tree, and a shell that
    drives pool and heap from a terminal.  The layers, from the bottom up, and the files of this
    library that model them:

    - bytes and vocabulary (common/types.hpp, status.hpp, page_header.hpp): Prelude.v (this
      file: integers at their width, little-endian codecs, list surgery, tactics) and Common.v
      ([Status], [Result], [RID], [PageType], [PageHeader], the class [Codec]);
    - the logger (common/logger.hpp, logger.cpp): Logger.v;
    - slotted heap pages (heap/heap_page.hpp, heap_page.cpp): HeapPage.v, with
      HeapPageProofs.v, HeapPageRefine.v and HeapPageTheorems.v;
    - B+tree node pages (indices/b_plus_tree_page.hpp, b_plus_tree_page.cpp): NodeArray.v,
      LeafNode.v, InternalNode.v and their Proofs and Theorems files;
    - the disk manager (storage/disk_manager.hpp, disk_manager.cpp): DiskManager.v,
      DiskProofs.v, DiskTheorems.v;
    - the buffer pool (buffer/): Replacer.v and ReplacerTheorems.v (replacer.hpp), PoolIndex.v
      (freelist.hpp, page_table.hpp), BufferPool.v (frame.hpp, page_guard.hpp, page_guard.cpp,
      buffer_pool_manager.cpp), with BufferPoolProofs.v, BufferPoolOps.v,
      BufferPoolLifecycle.v, PoolEpochs.v, PoolSteady.v, PoolRefine.v, PoolRefineProofs.v and
      BufferPoolTheorems.v;
    - the same pool under several threads: PoolThreads.v (every operation cut into its
      critical sections, threads, schedules), PoolTokens.v and PoolShared.v (what a thread
      holds, the invariant of the shared state), PoolPieces.v, PoolPins.v, PoolFlushes.v,
      PoolReclaims.v, PoolLoads.v, PoolCreates.v (each piece keeps it),
      PoolRun.v, PoolProgress.v, PoolReach.v and PoolThreadsTheorems.v;
    - the interface between the pool and its clients: PageStore.v (the classes [PageStore] of
      operations and [PageStoreLaws] of promises), PageStoreLogic.v (a total-correctness logic
      [wp] for client code, derived from the laws) and PoolStore.v (the pool is an instance);
    - the table heap (heap/table_heap.hpp, table_heap.cpp): TableHeap.v, TableHeapSpec.v,
      TableHeapProofs.v, TableScan.v, TableHeapTheorems.v;
    - the same table under several threads: TableThreads.v (every operation cut at its fetches,
      its loads and stores of atomics and its releases), TableLinear.v (what threads that share
      a table may see: a map whose operations take effect at one moment), TableShared.v (what
      each thread knows at each point, and that each piece keeps it), TableRun.v (the
      simulation, latches, how long a call takes) and TableThreadsTheorems.v;
    - the B+tree (indices/b_plus_tree.hpp, b_plus_tree.cpp): BPlusTree.v; BPlusTreeSpec.v and
      BPlusTreePath.v (trees, trees with a hole); BPlusTreeRead.v, BPlusTreeScan.v,
      BPlusTreeCheck.v (descent, range scan, invariant check); BPlusTreeWrite.v,
      BPlusTreeKids.v, BPlusTreeInsert.v, BPlusTreeInsertTop.v (write path and insertion);
      BPlusTreeShape.v, BPlusTreeRebalance.v, BPlusTreePlan.v, BPlusTreeApply.v,
      BPlusTreeDelete.v (merge, rotation, planning and deletion); BPlusTreeOpen.v;
      BPlusTreeTheorems.v;
    - the shell (shell/main.cpp): ShellText.v (tokens and numbers) with ShellTextProofs.v,
      Shell.v (every command, [Dispatch], [main]), ShellSpec.v (the command
      language: [Dispatch] is [parse] then [perform], and a line for every command),
      ShellCommands.v and ShellTable.v (what each command does), ShellSession.v (what a session
      means to its user) and ShellTheorems.v.

    ** How the code is modelled

    A page, and a page body, is a [list byte]; every field is read and written at the offset
    and width the source uses, and arithmetic on a w-bit type wraps where the source's does.  A
    read-only member is a function of the body, a mutating one returns the new body.  [Status]
    and [std::expected] are a record and a sum; [std::abort], [value()] of an error and a
    thread waiting for a latch it holds itself are [None], so a theorem that a call returns
    [Some] says that none of them happens.

    Assertions.  Those of the B+tree, and those of the node pages it calls (the booleans
    [*_asserts] of LeafNode.v and InternalNode.v, which [asserting] checks at every call), are
    [None] when they fail, in any build.  Those of the pool are [assert_], which is [None] in a
    build without NDEBUG, and a crash of the thread in PoolThreads.v.  Those of a heap page are
    the booleans [Contiguous_asserts], [Get_asserts] and [CheckInvariants]; [heap_run_refines]
    shows that they hold throughout every sequence of operations, and the table heap does not
    repeat them.  The index bounds that FrameAt, the replacer and the shards of the page table
    assert are not checked by the model, where these lookups are total: [pool_ok] and the
    invariant of PoolShared.v say that every frame id in use is in range, and a shard is always
    the one of its page id.

    I/O failures.  The disk manager and the pool are modelled and proved under any schedule of
    them, for one thread and for many, and the table heap under threads meets them too.  The
    laws of [PageStoreLaws] do not have them: a fetch may fail there for want of a frame or for
    a page that is not there, a call may not fail because the file did.  So the contracts of
    the table heap and of the B+tree run by one thread, and of the shell, are about a file that
    answers; what a failing fetch does to a table is in [table_linearizable] and, for an update
    on its own, in [table_update_alone].

    The disk manager's file is a [list byte]; each [pread]/[pwrite] consumes one event of a
    schedule (how many bytes it transfers, EINTR, an error), and the theorems quantify over the
    schedule.  The text of an errno, whether NDEBUG is defined and what an uninitialised array
    holds are parameters ([ErrnoText], [Host]).  The pool is a state-and-failure monad over the record [Pool] of
    frames, free list, page table, replacer and disk, run by one thread, with mutexes and shard
    locks as critical sections that leave no trace and the frame latches as part of the state.
    PoolThreads.v models the same code under any number of threads: [Pc] has the 43 points
    between two critical sections, [exec] runs the next one, [step] moves one thread, wakes a
    sleeper (for no reason, if it likes) or starts a call, and a run is any sequence of such
    moves.  A failed [assert] is [Crashes].  DeletePage's shard lock, the content latches and
    the condition variables block other threads as they do in the code; two pieces that the
    code runs under one mutex without a visible effect in between may be cut apart, which adds
    interleavings and takes none away.  Each atomic is sequentially consistent, each call of
    the disk manager one piece, and a run ends when AllocatePage or DeallocatePage fails on the
    file's own bookkeeping; reads and writes of pages may fail at any time.  Clients keep to
    [allowed]: no page is fetched after it was deleted, or deleted while somebody is still
    looking for it.  The replacer's [Evict] runs
    against an environment that bumps usage counts between any two of its steps.  The table
    heap and the B+tree are client code of the page store: fetch, new, delete, drop, and reads
    and edits through guards.  The shell is client code of the pool and the heap; its standard
    input is the list of its lines, its output the list of what it prints, and [main] is the
    whole program, from the outcome of opening the file to the exit code and the file left.
    TableThreads.v has the table heap under any number of threads, in the same way as the pool:
    [TPc] has the 30 points at which other threads come in, [texec] runs the next piece,
    [tstep] moves one thread.  Its store is atomic pages under latches, which the theorems on
    the pool under threads say the pool is; any fetch and any allocation may fail, with any
    status but kNotFound; a thread is inside one call at a time and may keep one scan open.
    Callers keep to [tallowed]: they name RIDs on pages of the table.

    ** What is proved

    - Pages: every operation of a heap page refines a table of slots, in any sequence from
      [Init], and no assertion fails on the way; its self-check decides, of any bytes, whether
      the accounts of the page add up, which is weaker than being well formed: overlapping
      tuples can pass it ([heap_check_decides]); compaction moves rows and keeps them; leaf and internal nodes are shown byte for byte to hold the entries that an
      ordered insertion, a split, a merge or a rotation leaves, search terminates and finds the
      right index, and the self-check of an internal node decides well-formedness of any bytes.
    - Disk: whole-buffer I/O under short and interrupted transfers; the freelist contract of
      allocation and deallocation under every schedule; a failed call leaves a file that opens
      again; [Open] recovers exactly what was closed and refuses a foreign file.
    - Pool: the invariant [pool_ok] is kept by every operation under every I/O failure; no
      eviction or failed load loses bytes; and the pool refines a map from page ids to bytes
      for every disciplined client, which may choose each call by the answers before it, and
      every schedule of I/O failures ([pool_refines_store]): a call the file fails answers an
      error and changes no page, and the run is followed up to the first failure of the disk
      manager's own bookkeeping.  The simulation is also the proof of the laws of
      [PageStoreLaws].  In a build with assertions a fetch of a page id below -1 does not
      return ([pool_fetch_below_aborts]), so the discipline excludes it.
    - Pool under threads: an invariant that counts what every thread holds (pins, latches,
      frames and pages in hand, loads, unrecorded flushes) is kept by each of the 43 pieces.
      It gives, for every schedule: no assertion fails ([conc_no_crash]); guards exclude each
      other and counts are exact ([conc_exclusive]); the pool is an atomic page store
      ([conc_refines_store]); nobody is stuck except behind a guard ([conc_no_deadlock]);
      nothing leaks ([conc_rest]); two threads are never at the same page of the file at once
      unless both write it from one frame, and never at a page the allocator works on
      ([conc_disk_access]), so that a call of the disk manager may be one piece.
    - Table heap: a table is a map from RIDs to tuples, on every branch of every operation,
      with stale hints and a lagging last page; scans list it ([table_refines_map] and the
      contracts beside it).  An update run on its own replaces its row or, when the fetch that
      should remove the old copy fails, leaves it twice and says so ([table_update_alone]).
    - Table heap under threads: for every schedule and every failure below, calls and answers
      are those of a map in which each operation takes effect at one moment, but for an update
      that moves its row, which takes three: it sees the row, writes the new copy and removes
      the old ([table_linearizable]); a scan passes over no row that
      stays; the chain is whole, one thread at a time extends it and no page is lost
      ([table_conc_pages]); nobody waits for ever except behind an open scan
      ([table_conc_no_deadlock]), and every call ends after a number of pieces linear in the
      length of the chain ([table_conc_terminates]).  The moments between which a moving update lets others in are an error of the code:
      [update_removes_new_row] is a schedule in which it deletes somebody else's row.
    - B+tree: an index is a map from 64-bit keys to RIDs through every split, rotation, merge
      and change of root; insertion and deletion change no page when they refuse; deletion
      frees exactly the pages it no longer needs; range scans are exact; the tree's own
      invariant check accepts every tree reached ([index_refines_map] and the contracts).
    - Shell: a whole run of the program prints, line by line, what the commands mean on
      numbered pages and a map of rows, exits with 0 and leaves every page in the file
      ([shell_session]); the next run finds the table it left ([shell_restart]); what is
      written is read; the parser reads back the line of every command; [tpurge] deletes
      exactly what it matched.  This is the composition of all the layers below but the B+tree,
      which the shell does not use.
    - Logger: a log line arrives whole, in one write ([log_line_whole]).

    Theorems about the table heap and the B+tree are against the laws of the page store, and
    their witnesses run on a buffer pool over a concrete database file.

    ** Bounds and fuel

    [rep cap n m gs s] counts the calls ([n]) a store still answers before page ids (2^31) or
    dirty epochs could run out; a rule [wp cap c] gives the number of calls [c] a client makes,
    so every theorem states how many calls it may use.  Runs of threads have fewer than 2^64
    moves, which is what keeps the epochs from wrapping.  The append loop of the table's [Insert]
    and the page loop of its [Next] take fuel: one more than the pages of the chain is enough.
    The index iterator's [Next] takes fuel: one more than the leaves is enough, and there are
    at most as many leaves as entries plus one.  Descents recurse on the height in the index
    header, binary searches on the width of the interval, and [full_read]/[full_write] on the
    bytes and events left; none of these can run out.  A tree is less than 31 levels high,
    because page ids are 31 bits wide and an internal node has two children or more, so 64
    frames are enough for every index operation; a table needs two.  The shell's loops over a
    table take fuel: one more than its pages and one more than its rows is enough ([fits]).

    ** Not modelled

    - Weak memory: the orders of the atomics are taken as sequentially consistent.
    - Several threads inside the B+tree: the class leaves it to its caller to let in one writer
      or many readers, and is modelled as one thread runs it.  The disk manager's mutex is a
      critical section.  What the pool's threads share after AllocatePage or DeallocatePage
      failed is not followed.
    - The C library below the logger (the time zone, the thread id) and below the shell's
      streams.  Log lines go to standard output too; the output of the shell's theorems is
      what the shell prints, without the log lines in between.
    - In the shell's session theorems: raw reads and writes of the catalog page, raw writes and
      deletions of pages of the open table, ids below -1 in a build with assertions, RIDs of other tables, and opening ids that are not a table's.  The
      commands are modelled on these too; what they do there is not specified. *)

From Stdlib Require Import ZArith Lia.
From Stdlib Require Export Strings.Byte.
From stdpp Require Export prelude list sorting strings pretty.

Open Scope Z_scope.

(** ** Automation *)

(** Integer division and modulus by literals are everywhere in a page format:
    let [lia] see their defining equations. *)
Ltac Zify.zify_post_hook ::= Z.div_mod_to_equations.

Create HintDb kern discriminated.

(** [len l] is the C++ [size()] of a span or vector, as an integer. *)
Abbreviation len l := (Z.of_nat (length l)).

(** Rewrite every length that the library knows, then solve by [lia]. *)
Ltac lens := autorewrite with lens in *.
Ltac llia := autorewrite with lens in *; simpl length in *; lia.

(** Case on every boolean comparison in sight, turning it into arithmetic. *)
Ltac bcase :=
  repeat match goal with
  | |- context [Z.ltb ?a ?b] => destruct (Z.ltb_spec a b)
  | |- context [Z.leb ?a ?b] => destruct (Z.leb_spec a b)
  | |- context [Z.eqb ?a ?b] => destruct (Z.eqb_spec a b)
  | H : context [Z.ltb ?a ?b] |- _ => destruct (Z.ltb_spec a b)
  | H : context [Z.leb ?a ?b] |- _ => destruct (Z.leb_spec a b)
  | H : context [Z.eqb ?a ?b] |- _ => destruct (Z.eqb_spec a b)
  end.

Create Rewrite HintDb lens.
#[export] Hint Rewrite @length_app @length_take @length_drop @length_replicate
  @length_insert @length_fmap @length_nil @length_cons : lens.

(** ** Fixed-width integers

    A value of an unsigned [w]-bit type is a [Z] in [[0, 2^w)]; the conversions
    below are the modular conversions C++ performs on narrowing or overflow. *)
Definition u8 (z : Z) : Z := z mod 2 ^ 8.
Definition u16 (z : Z) : Z := z mod 2 ^ 16.
Definition u32 (z : Z) : Z := z mod 2 ^ 32.
Definition u64 (z : Z) : Z := z mod 2 ^ 64.
Definition s32 (z : Z) : Z := (z + 2 ^ 31) mod 2 ^ 32 - 2 ^ 31.
Definition s64 (z : Z) : Z := (z + 2 ^ 63) mod 2 ^ 64 - 2 ^ 63.

Definition is_u8 (z : Z) : Prop := 0 <= z < 2 ^ 8.
Definition is_u16 (z : Z) : Prop := 0 <= z < 2 ^ 16.
Definition is_u32 (z : Z) : Prop := 0 <= z < 2 ^ 32.
Definition is_u64 (z : Z) : Prop := 0 <= z < 2 ^ 64.
Definition is_s32 (z : Z) : Prop := - 2 ^ 31 <= z < 2 ^ 31.
Definition is_s64 (z : Z) : Prop := - 2 ^ 63 <= z < 2 ^ 63.

Definition INT64_MIN : Z := - 2 ^ 63.
Definition INT64_MAX : Z := 2 ^ 63 - 1.

Ltac unfold_ints :=
  unfold is_u8, is_u16, is_u32, is_u64, is_s32, is_s64,
    u8, u16, u32, u64, s32, s64, INT64_MIN, INT64_MAX in *.

Lemma u16_id z : is_u16 z -> u16 z = z.
Proof. unfold_ints. apply Z.mod_small. Qed.
Lemma u64_id z : is_u64 z -> u64 z = z.
Proof. unfold_ints. apply Z.mod_small. Qed.
Lemma s32_id z : is_s32 z -> s32 z = z.
Proof. unfold_ints. intros. rewrite Z.mod_small; lia. Qed.
Lemma s64_id z : is_s64 z -> s64 z = z.
Proof. unfold_ints. intros. rewrite Z.mod_small; lia. Qed.

#[export] Instance is_u16_dec z : Decision (is_u16 z).
Proof. unfold is_u16. apply _. Defined.
#[export] Instance is_s32_dec z : Decision (is_s32 z).
Proof. unfold is_s32. apply _. Defined.
#[export] Instance is_s64_dec z : Decision (is_s64 z).
Proof. unfold is_s64. apply _. Defined.

(** ** Bytes

    [std::byte] is [Byte.byte]; a buffer is a [list byte]. *)
Abbreviation byte := Byte.byte.

Definition zof (b : byte) : Z := Z.of_N (Byte.to_N b).
Definition byte_of (z : Z) : byte :=
  match Byte.of_N (Z.to_N (z mod 256)) with Some b => b | None => x00 end.

Lemma zof_range b : 0 <= zof b < 256.
Proof. unfold zof. pose proof (Byte.to_N_bounded b). lia. Qed.

Lemma zof_byte_of z : zof (byte_of z) = z mod 256.
Proof.
  unfold zof, byte_of. destruct (Byte.of_N _) as [b|] eqn:E.
  - apply Byte.to_of_N in E. rewrite E. lia.
  - apply Byte.of_N_None_iff in E. lia.
Qed.

Lemma byte_of_zof b : byte_of (zof b) = b.
Proof.
  unfold byte_of. pose proof (zof_range b).
  rewrite Z.mod_small by lia. unfold zof. rewrite N2Z.id, Byte.of_to_N. done.
Qed.

Lemma byte_of_mod z w : z mod 256 = w mod 256 -> byte_of z = byte_of w.
Proof. unfold byte_of. by intros ->. Qed.

#[export] Instance byte_eq_dec : EqDecision byte := Byte.byte_eq_dec.
#[export] Instance byte_inhabited : Inhabited byte := populate x00.

(** ** Host integers in memory

    [std::memcpy] of an [n]-byte integer to and from a byte buffer on the
    little-endian hosts the project targets. *)
Fixpoint le_enc (n : nat) (z : Z) : list byte :=
  match n with
  | O => []
  | S n => byte_of z :: le_enc n (z / 256)
  end.

Fixpoint le_dec (bs : list byte) : Z :=
  match bs with
  | [] => 0
  | b :: bs => zof b + 256 * le_dec bs
  end.

Lemma length_le_enc n z : length (le_enc n z) = n.
Proof. revert z. induction n; simpl; auto. Qed.
#[export] Hint Rewrite length_le_enc : lens.

Lemma pow_byte_S n : 256 ^ Z.of_nat (S n) = 256 * 256 ^ Z.of_nat n.
Proof. rewrite Nat2Z.inj_succ, Z.pow_succ_r; lia. Qed.

Lemma le_dec_range bs : 0 <= le_dec bs < 256 ^ len bs.
Proof.
  induction bs as [|b bs IH]; [done|].
  simpl le_dec. simpl length. rewrite pow_byte_S. pose proof (zof_range b). nia.
Qed.

Lemma le_dec_enc n z : le_dec (le_enc n z) = z mod 256 ^ Z.of_nat n.
Proof.
  revert z. induction n as [|n IH]; intros z; [by rewrite Z.mod_1_r|].
  simpl le_enc. simpl le_dec. rewrite IH, zof_byte_of, pow_byte_S.
  pose proof (Z.pow_pos_nonneg 256 (Z.of_nat n)).
  rewrite Z.rem_mul_r by lia. lia.
Qed.

Lemma le_enc_dec bs : le_enc (length bs) (le_dec bs) = bs.
Proof.
  induction bs as [|b bs IH]; [done|]. simpl.
  pose proof (zof_range b). f_equal.
  - rewrite <- (byte_of_zof b) at 2. apply byte_of_mod.
    rewrite Z.mul_comm, Z.mod_add by lia. done.
  - rewrite Z.mul_comm, Z.div_add by lia. rewrite Z.div_small by lia. apply IH.
Qed.

Lemma le_enc_mod n z : le_enc n (z mod 256 ^ Z.of_nat n) = le_enc n z.
Proof.
  rewrite <- le_dec_enc. pose proof (le_enc_dec (le_enc n z)) as H.
  by rewrite length_le_enc in H.
Qed.

Lemma le_enc_cong n z w :
  z mod 256 ^ Z.of_nat n = w mod 256 ^ Z.of_nat n -> le_enc n z = le_enc n w.
Proof. intros H. by rewrite <- le_enc_mod, H, le_enc_mod. Qed.

(** ** Spans

    [slice off n l] is [l.subspan(off, n)]; [patch off bs l] is the effect of
    [std::memcpy(l.data() + off, bs, len bs)] on the buffer [l]. *)
Definition slice {A} (off n : Z) (l : list A) : list A :=
  take (Z.to_nat n) (drop (Z.to_nat off) l).

Definition patch {A} (off : Z) (bs l : list A) : list A :=
  take (Z.to_nat off) l ++ bs ++ drop (Z.to_nat off + length bs) l.

Definition zeros (n : Z) : list byte := replicate (Z.to_nat n) x00.

#[global] Arguments slice : simpl never.
#[global] Arguments patch : simpl never.
#[global] Arguments zeros : simpl never.

Lemma length_zeros n : length (zeros n) = Z.to_nat n.
Proof. apply length_replicate. Qed.
#[export] Hint Rewrite length_zeros : lens.

Section spans.
Context {A : Type}.
Implicit Types (l bs : list A) (off n : Z) (i : nat).

Lemma length_slice off n l :
  length (slice off n l) = Nat.min (Z.to_nat n) (length l - Z.to_nat off).
Proof. unfold slice. rewrite length_take, length_drop. done. Qed.

Lemma len_slice off n l :
  0 <= off -> 0 <= n -> off + n <= len l -> len (slice off n l) = n.
Proof. intros. rewrite length_slice. lia. Qed.

Lemma len_patch off bs l :
  0 <= off -> off + len bs <= len l -> length (patch off bs l) = length l.
Proof. intros. unfold patch. lens. lia. Qed.

Lemma lookup_slice off n l i :
  slice off n l !! i = if decide (Z.of_nat i < n) then l !! (Z.to_nat off + i)%nat else None.
Proof.
  unfold slice. rewrite lookup_take, lookup_drop. repeat case_decide; done || lia.
Qed.

Lemma lookup_patch off bs l i :
  0 <= off -> off + len bs <= len l ->
  patch off bs l !! i =
    if decide (off <= Z.of_nat i < off + len bs) then bs !! (i - Z.to_nat off)%nat else l !! i.
Proof.
  intros. unfold patch. case_decide.
  - rewrite lookup_app_r by llia. rewrite lookup_app_l by llia.
    f_equal. llia.
  - destruct (decide (Z.of_nat i < off)).
    + rewrite lookup_app_l by llia. apply lookup_take_lt. lia.
    + rewrite lookup_app_r by llia. rewrite lookup_app_r by llia.
      rewrite lookup_drop. f_equal. llia.
Qed.

(** Two buffers that agree on a window have the same subspan there. *)
Lemma slice_ext off n l l' :
  0 <= off ->
  (forall i, off <= Z.of_nat i < off + n -> l !! i = l' !! i) ->
  slice off n l = slice off n l'.
Proof.
  intros Hoff H. apply list_eq. intros i. rewrite !lookup_slice.
  case_decide; [|done]. apply H. lia.
Qed.

Lemma slice_patch_same off n bs l :
  0 <= off -> off + len bs <= len l -> n = len bs -> slice off n (patch off bs l) = bs.
Proof.
  intros ?? ->. apply list_eq. intros i. rewrite lookup_slice, lookup_patch by done.
  case_decide.
  - rewrite decide_True by lia. f_equal. lia.
  - symmetry. apply lookup_ge_None. lia.
Qed.

Lemma slice_patch_disjoint off' n off bs l :
  0 <= off -> off + len bs <= len l -> 0 <= off' ->
  off' + n <= off \/ off + len bs <= off' ->
  slice off' n (patch off bs l) = slice off' n l.
Proof.
  intros. apply slice_ext; [done|]. intros i Hi.
  rewrite lookup_patch by done. by rewrite decide_False by lia.
Qed.

(** A write strictly inside the window commutes with taking the window. *)
Lemma slice_patch_inside off' n off bs l :
  0 <= off' -> off' <= off -> off + len bs <= off' + n -> off' + n <= len l ->
  slice off' n (patch off bs l) = patch (off - off') bs (slice off' n l).
Proof.
  intros. apply list_eq. intros i. rewrite lookup_slice.
  rewrite !lookup_patch by (rewrite ?len_slice by lia; lia).
  rewrite lookup_slice.
  repeat case_decide; try lia; try done. f_equal. lia.
Qed.

Lemma slice_slice off' n' off n l :
  0 <= off' -> 0 <= off -> off' + n' <= n ->
  slice off' n' (slice off n l) = slice (off + off') n' l.
Proof.
  intros. apply list_eq. intros i. rewrite !lookup_slice.
  repeat case_decide; try done; try lia. f_equal. lia.
Qed.

Lemma slice_full n l : n = len l -> slice 0 n l = l.
Proof. intros ->. unfold slice. simpl. apply firstn_all2. lia. Qed.

Lemma slice_app_l off n l l' :
  0 <= off -> off + n <= len l -> slice off n (l ++ l') = slice off n l.
Proof.
  intros. apply slice_ext; [done|]. intros i ?. apply lookup_app_l. lia.
Qed.

Lemma slice_app_r off n l l' :
  len l <= off -> slice off n (l ++ l') = slice (off - len l) n l'.
Proof.
  intros. apply list_eq. intros i. rewrite !lookup_slice. case_decide; [|done].
  rewrite lookup_app_r by lia. f_equal. lia.
Qed.

Lemma patch_app_l off bs l l' :
  0 <= off -> off + len bs <= len l -> patch off bs (l ++ l') = patch off bs l ++ l'.
Proof.
  intros. unfold patch. rewrite take_app_le by lia. rewrite drop_app_le by lia.
  by rewrite <- !app_assoc.
Qed.

Lemma patch_app_r off bs l l' :
  len l <= off -> patch off bs (l ++ l') = l ++ patch (off - len l) bs l'.
Proof.
  intros. unfold patch. rewrite take_app_ge by lia. rewrite drop_app_ge by lia.
  rewrite <- !app_assoc. repeat f_equal; lia.
Qed.

Lemma patch_0 bs l l' : length bs = length l -> patch 0 bs (l ++ l') = bs ++ l'.
Proof. intros H. unfold patch. simpl. by rewrite H, drop_app_length. Qed.

(** Writes to disjoint windows commute. *)
Lemma patch_comm o1 b1 o2 b2 l :
  0 <= o1 -> o1 + len b1 <= len l -> 0 <= o2 -> o2 + len b2 <= len l ->
  o1 + len b1 <= o2 \/ o2 + len b2 <= o1 ->
  patch o1 b1 (patch o2 b2 l) = patch o2 b2 (patch o1 b1 l).
Proof.
  intros. apply list_eq. intros i.
  rewrite !lookup_patch by (rewrite ?len_patch; lia). repeat case_decide; try lia; done.
Qed.

Lemma patch_nil off l : patch off [] l = l.
Proof. unfold patch. simpl. by rewrite Nat.add_0_r, take_drop. Qed.
End spans.

#[export] Hint Rewrite @length_slice : lens.

(** A patch made of zeros is [memset(p, 0, n)]. *)
Definition memset0 (off n : Z) (l : list byte) : list byte := patch off (zeros n) l.

(** [memmove(p + dst, p + src, n)]: the source is read whole before the write. *)
Definition memmove (dst src n : Z) (l : list byte) : list byte := patch dst (slice src n l) l.
#[global] Arguments memmove : simpl never.

(** A buffer cut into consecutive fields: the window of the middle one, and a write that
    replaces it. *)
Lemma slice_mid {A} off n (a b c : list A) :
  off = len a -> n = len b -> slice off n (a ++ b ++ c) = b.
Proof.
  intros -> ->. unfold slice. rewrite !Nat2Z.id, drop_app_length. by rewrite take_app_length.
Qed.

Lemma patch_mid {A} off (a b c d : list A) :
  off = len a -> length b = length c -> patch off b (a ++ c ++ d) = a ++ b ++ d.
Proof.
  intros -> H. unfold patch. rewrite Nat2Z.id, H, take_app_length. do 2 f_equal.
  rewrite <- drop_drop, drop_app_length. apply drop_app_length.
Qed.

Lemma slice_head {A} n (a b : list A) : n = len a -> slice 0 n (a ++ b) = a.
Proof. intros ->. exact (slice_mid 0 _ [] a b eq_refl eq_refl). Qed.

Lemma slice_tail {A} off n (a b : list A) :
  off = len a -> n = len b -> slice off n (a ++ b) = b.
Proof. intros. rewrite <- (app_nil_r b) at 1. by apply slice_mid. Qed.

(** Split [l] at [i]. *)
Lemma take_drop_lookup {A} (l : list A) i x :
  l !! i = Some x -> l = take i l ++ x :: drop (S i) l.
Proof. intros H. symmetry. by apply take_drop_middle. Qed.

Lemma Forall_slice {A} (P : A -> Prop) off n l : Forall P l -> Forall P (slice off n l).
Proof. intros. unfold slice. by apply Forall_take, Forall_drop. Qed.

(** Cutting a sequence at [m] with two spans. *)
Lemma slices_cut {A} m (l : list A) :
  0 <= m <= len l -> slice 0 m l ++ slice m (len l - m) l = l /\
  len (slice 0 m l) = m /\ len (slice m (len l - m) l) = len l - m.
Proof.
  intros. split; [|split; apply len_slice; lia].
  unfold slice. rewrite drop_0, (take_ge (drop _ _)) by (rewrite length_drop; lia).
  apply take_drop.
Qed.

Lemma nth_slice_head {A} m n (l : list A) d :
  0 <= m -> 0 < n -> m < len l -> exists tl, slice m n l = nth (Z.to_nat m) l d :: tl.
Proof.
  intros. destruct (nth_lookup_or_length l (Z.to_nat m) d) as [E|]; [|lia].
  unfold slice. rewrite (drop_S _ _ _ E). destruct (Z.to_nat n) eqn:En; [lia|]. simpl. eauto.
Qed.

Lemma alter_middle {A} (f : A -> A) n (xs : list A) y ys :
  n = len xs -> alter f (Z.to_nat n) (xs ++ y :: ys) = xs ++ f y :: ys.
Proof.
  intros ->. rewrite Nat2Z.id. induction xs as [|x xs IH]; [done|].
  change (x :: alter f (length xs) (xs ++ y :: ys) = x :: xs ++ f y :: ys). by rewrite IH.
Qed.

(** ** Strictly increasing key sequences *)

Abbreviation increasing := (StronglySorted Z.lt).

Lemma increasing_lookup ks i j a b :
  increasing ks -> ks !! i = Some a -> ks !! j = Some b -> (i < j)%nat -> a < b.
Proof.
  intros S. revert i j. induction S as [|k ks S IH F]; intros i j; [done|].
  destruct i as [|i], j as [|j]; simpl; try lia.
  - intros [= ->] Hb _. by apply (Forall_lookup_1 _ _ _ _ F Hb).
  - intros. apply (IH i j); [done|done|lia].
Qed.

(** Comparing neighbours is enough. *)
Lemma increasing_adjacent ks :
  increasing ks <-> forall i a b, ks !! i = Some a -> ks !! S i = Some b -> a < b.
Proof.
  split; [intros Hs i a b Ha Hb; by eapply (increasing_lookup ks i (S i)); eauto|].
  intros H. apply (Sorted_StronglySorted Z.lt).
  induction ks as [|k ks IH]; constructor.
  - apply IH. intros i a b. apply (H (S i)).
  - destruct ks as [|k' ks]; constructor. by apply (H 0%nat).
Qed.

Lemma increasing_insert l1 k l2 :
  increasing (l1 ++ l2) -> (forall x, x ∈ l1 -> x < k) -> (forall x, x ∈ l2 -> k < x) ->
  increasing (l1 ++ k :: l2).
Proof.
  intros S H1 H2. apply StronglySorted_app in S as (S12 & S1 & S2).
  apply StronglySorted_app_2; [|done|].
  - intros x1 x2 Hx1 [->|Hx2]%elem_of_cons; auto.
  - constructor; [done|]. by apply Forall_forall.
Qed.

Lemma increasing_remove l1 k l2 : increasing (l1 ++ k :: l2) -> increasing (l1 ++ l2).
Proof.
  intros S. apply StronglySorted_app in S as (S12 & S1 & S2).
  apply StronglySorted_cons in S2 as [F S2]. apply StronglySorted_app_2; [|done..].
  intros. apply S12; [done|]. by right.
Qed.
