(* ===== verification/Common.v ===== *)
(** * Common vocabulary: src/src/common

    [Status]/[Result] (status.hpp), the scalar types, the page types and [RID]
    (types.hpp), and [PageHeader] with its byte image (page_header.hpp).  The
    interface [Codec] states what every [ReadFrom]/[WriteTo] pair of the code
    base promises, and the component files prove it for their structs. *)

From S2P Require Import Prelude.

(** ** Status and Result (status.hpp) *)

Inductive ErrorCode :=
  | kOk | kNotFound | kCorruption | kIOError | kInvalidArgument | kBufferPoolFull
  | kPageFull | kDuplicateKey | kSerializationConflict | kInternal.

#[export] Instance ErrorCode_eq_dec : EqDecision ErrorCode.
Proof. solve_decision. Defined.

Record Status := mkStatus { code : ErrorCode; message : string }.

#[export] Instance Status_eq_dec : EqDecision Status.
Proof. solve_decision. Defined.

Definition StatusOK : Status := mkStatus kOk "".
Definition IOError (msg : string) : Status := mkStatus kIOError msg.
Definition NotFound (msg : string) : Status := mkStatus kNotFound msg.
Definition Corruption (msg : string) : Status := mkStatus kCorruption msg.
Definition InvalidArgument (msg : string) : Status := mkStatus kInvalidArgument msg.
Definition BufferPoolFull (msg : string) : Status := mkStatus kBufferPoolFull msg.
Definition PageFull (msg : string) : Status := mkStatus kPageFull msg.
Definition DuplicateKey (msg : string) : Status := mkStatus kDuplicateKey msg.
Definition SerializationConflict (msg : string) : Status := mkStatus kSerializationConflict msg.
Definition Internal (msg : string) : Status := mkStatus kInternal msg.

Definition ok (s : Status) : bool := bool_decide (code s = kOk).

(** [std::expected<T, Status>]. *)
Inductive Result (A : Type) :=
  | Ok (a : A)
  | Error (s : Status).
Arguments Ok {A} a.
Arguments Error {A} s.

#[export] Instance Result_eq_dec {A} `{EqDecision A} : EqDecision (Result A).
Proof. solve_decision. Defined.

(** [if (!r.has_value()) return std::unexpected(r.error());] *)
Declare Scope result_scope.
Delimit Scope result_scope with result.
Notation "'let?' x := e 'in' k" :=
  (match e with Ok x => k | Error s => Error s end)
  (at level 10, x pattern, e at level 200, k at level 200) : result_scope.
Open Scope result_scope.

(** ** Scalars, page types and RIDs (types.hpp) *)

Definition INVALID_PAGE : Z := -1.
Definition META_PAGE_ID : Z := 0.
Definition CATALOG_ROOT_PAGE_ID : Z := 1.
Definition PAGE_SIZE : Z := 4096.
Definition PAGE_HEADER_SIZE : Z := 32.
Definition PAGE_BODY_SIZE : Z := PAGE_SIZE - PAGE_HEADER_SIZE.
Definition PAGE_FORMAT_VERSION : Z := 1.

Ltac unfold_consts :=
  unfold PAGE_BODY_SIZE, PAGE_SIZE, PAGE_HEADER_SIZE, INVALID_PAGE, META_PAGE_ID,
    CATALOG_ROOT_PAGE_ID, PAGE_FORMAT_VERSION in *.

Record RID := mkRID { rid_page_id : Z; rid_slot : Z }.

#[export] Instance RID_eq_dec : EqDecision RID.
Proof. solve_decision. Defined.

Definition isValid (r : RID) : bool := negb (rid_page_id r =? INVALID_PAGE).

(** The defaulted [operator<=>]: lexicographic on the members in order. *)
Definition RID_compare (a b : RID) : comparison :=
  match rid_page_id a ?= rid_page_id b with
  | Eq => rid_slot a ?= rid_slot b
  | c => c
  end.

(** An [enum class : uint8_t] object can hold any byte: the enumerators are the
    first nine values, [PT_other] stands for the rest. *)
Inductive PageType :=
  | INVALID | META | INDEX_INTERNAL | INDEX_LEAF | HEAP | ALLOCATED | FREE | CATALOG
  | INDEX_HEADER | PT_other (b : byte).

#[export] Instance PageType_eq_dec : EqDecision PageType.
Proof. solve_decision. Defined.

Definition PageType_to_byte (t : PageType) : byte :=
  match t with
  | INVALID => x00 | META => x01 | INDEX_INTERNAL => x02 | INDEX_LEAF => x03
  | HEAP => x04 | ALLOCATED => x05 | FREE => x06 | CATALOG => x07
  | INDEX_HEADER => x08 | PT_other b => b
  end.

Definition PageType_of_byte (b : byte) : PageType :=
  match b with
  | x00 => INVALID | x01 => META | x02 => INDEX_INTERNAL | x03 => INDEX_LEAF
  | x04 => HEAP | x05 => ALLOCATED | x06 => FREE | x07 => CATALOG
  | x08 => INDEX_HEADER | b => PT_other b
  end.

Definition PageType_wf (t : PageType) : Prop :=
  match t with PT_other b => 9 <= zof b | _ => True end.

Lemma PageType_to_of b : PageType_to_byte (PageType_of_byte b) = b.
Proof. by destruct b. Qed.

Lemma PageType_of_wf b : PageType_wf (PageType_of_byte b).
Proof. destruct b; simpl; try done; vm_compute; done. Qed.

Lemma PageType_of_to t : PageType_wf t -> PageType_of_byte (PageType_to_byte t) = t.
Proof. destruct t as [| | | | | | | | |b]; try done. intros H. destruct b; vm_compute in H; done. Qed.

(** ** The serialisation interface

    Every on-page struct has a fixed size, an encoder and a decoder that are
    inverse on in-range values.  Clients reason about reads and writes of a
    struct inside a page only through these laws. *)
Class Codec (A : Type) := {
  csize : Z;
  cwf : A -> Prop;
  cenc : A -> list byte;
  cdec : list byte -> A
}.
Arguments csize A {_}.

Class CodecLaws (A : Type) `{Codec A} := {
  csize_pos : 0 < csize A;
  cenc_len a : len (cenc a) = csize A;
  cdec_enc a : cwf a -> cdec (cenc a) = a
}.

Section codec.
Context {A : Type} `{CA : Codec A, !CodecLaws A}.
Implicit Types (a : A) (l bs : list byte).

(** A struct read from, and written to, a position of a buffer. *)
Definition get_at (off : Z) l : A := cdec (slice off (csize A) l).
Definition put_at (off : Z) a l : list byte := patch off (cenc a) l.

Lemma length_put_at off a l :
  0 <= off -> off + csize A <= len l -> length (put_at off a l) = length l.
Proof. intros. apply len_patch; rewrite ?cenc_len; done. Qed.

Lemma get_put_at off a l :
  0 <= off -> off + csize A <= len l -> cwf a -> get_at off (put_at off a l) = a.
Proof.
  intros. unfold get_at, put_at. rewrite slice_patch_same by (rewrite ?cenc_len; done).
  by apply cdec_enc.
Qed.

Lemma get_patch_ne off' off bs l :
  0 <= off -> off + len bs <= len l -> 0 <= off' ->
  off' + csize A <= off \/ off + len bs <= off' ->
  get_at off' (patch off bs l) = get_at off' l.
Proof. intros. unfold get_at. by rewrite slice_patch_disjoint. Qed.

Lemma slice_put_ne off' n off a l :
  0 <= off -> off + csize A <= len l -> 0 <= off' ->
  off' + n <= off \/ off + csize A <= off' ->
  slice off' n (put_at off a l) = slice off' n l.
Proof. intros. apply slice_patch_disjoint; rewrite ?cenc_len; done. Qed.
End codec.

Lemma get_put_at_ne {A B} `{CodecLaws A, CodecLaws B} off' off (b : B) l :
  0 <= off -> off + csize B <= len l -> 0 <= off' ->
  off' + csize A <= off \/ off + csize B <= off' ->
  get_at (A:=A) off' (put_at off b l) = get_at off' l.
Proof. intros. apply get_patch_ne; rewrite ?cenc_len; done. Qed.

(** The integer fields of the structs. *)
Definition rd_u (off n : Z) (bs : list byte) : Z := le_dec (slice off n bs).


(** ** PageHeader (page_header.hpp) *)

Record PageHeader := mkPageHeader {
  ph_page_type : PageType;
  ph_flags : Z;
  ph_format_version : Z;
  ph_page_id : Z;
  ph_next_page_id : Z;
  ph_prev_page_id : Z;
  ph_page_lsn : Z;
  ph_checksum : Z;
  ph_reserved : Z
}.

#[export] Instance PageHeader_eq_dec : EqDecision PageHeader.
Proof. solve_decision. Defined.

(** The default member initialisers. *)
Definition PageHeader_default : PageHeader :=
  mkPageHeader FREE 0 PAGE_FORMAT_VERSION INVALID_PAGE INVALID_PAGE INVALID_PAGE 0 0 0.

Definition PageHeader_ReadFrom (bs : list byte) : PageHeader :=
  {| ph_page_type := PageType_of_byte (byte_of (rd_u 0 1 bs));
     ph_flags := rd_u 1 1 bs;
     ph_format_version := rd_u 2 2 bs;
     ph_page_id := s32 (rd_u 4 4 bs);
     ph_next_page_id := s32 (rd_u 8 4 bs);
     ph_prev_page_id := s32 (rd_u 12 4 bs);
     ph_page_lsn := rd_u 16 8 bs;
     ph_checksum := rd_u 24 4 bs;
     ph_reserved := rd_u 28 4 bs |}.

Definition PageHeader_WriteTo (h : PageHeader) : list byte :=
  [PageType_to_byte (ph_page_type h)] ++ le_enc 1 (ph_flags h)
    ++ le_enc 2 (ph_format_version h) ++ le_enc 4 (ph_page_id h)
    ++ le_enc 4 (ph_next_page_id h) ++ le_enc 4 (ph_prev_page_id h)
    ++ le_enc 8 (ph_page_lsn h) ++ le_enc 4 (ph_checksum h) ++ le_enc 4 (ph_reserved h).

Definition PageHeader_wf (h : PageHeader) : Prop :=
  PageType_wf (ph_page_type h) /\ is_u8 (ph_flags h) /\ is_u16 (ph_format_version h) /\
  is_s32 (ph_page_id h) /\ is_s32 (ph_next_page_id h) /\ is_s32 (ph_prev_page_id h) /\
  is_u64 (ph_page_lsn h) /\ is_u32 (ph_checksum h) /\ is_u32 (ph_reserved h).

Create Rewrite HintDb codec.

(** Reading back an encoded integer of each width. *)
Lemma le_dec_enc_u8 z : is_u8 z -> le_dec (le_enc 1 z) = z.
Proof. rewrite le_dec_enc. unfold_ints. lia. Qed.
Lemma le_dec_enc_u16 z : is_u16 z -> le_dec (le_enc 2 z) = z.
Proof. rewrite le_dec_enc. unfold_ints. lia. Qed.
Lemma le_dec_enc_u32 z : is_u32 z -> le_dec (le_enc 4 z) = z.
Proof. rewrite le_dec_enc. unfold_ints. lia. Qed.
Lemma le_dec_enc_u64 z : is_u64 z -> le_dec (le_enc 8 z) = z.
Proof. rewrite le_dec_enc. unfold_ints. lia. Qed.
Lemma le_dec_enc_s32 z : is_s32 z -> s32 (le_dec (le_enc 4 z)) = z.
Proof. rewrite le_dec_enc. unfold_ints. lia. Qed.
Lemma le_dec_enc_s64 z : is_s64 z -> s64 (le_dec (le_enc 8 z)) = z.
Proof. rewrite le_dec_enc. unfold_ints. lia. Qed.

#[export] Hint Rewrite le_dec_enc_u8 le_dec_enc_u16 le_dec_enc_u32 le_dec_enc_u64
  le_dec_enc_s32 le_dec_enc_s64 using assumption : codec.

(** [field o n t e]: the [n] bytes at [o] of the concrete layout [t] are [e]. *)
Ltac field o n t e := change (slice o n t) with e.

Lemma PageHeader_ReadFrom_WriteTo h :
  PageHeader_wf h -> PageHeader_ReadFrom (PageHeader_WriteTo h) = h.
Proof.
  intros (Ht & ? & ? & ? & ? & ? & ? & ? & ?).
  unfold PageHeader_ReadFrom, rd_u. set (t := PageHeader_WriteTo h).
  field 0 1 t [PageType_to_byte (ph_page_type h)].
  field 1 1 t (le_enc 1 (ph_flags h)). field 2 2 t (le_enc 2 (ph_format_version h)).
  field 4 4 t (le_enc 4 (ph_page_id h)). field 8 4 t (le_enc 4 (ph_next_page_id h)).
  field 12 4 t (le_enc 4 (ph_prev_page_id h)). field 16 8 t (le_enc 8 (ph_page_lsn h)).
  field 24 4 t (le_enc 4 (ph_checksum h)). field 28 4 t (le_enc 4 (ph_reserved h)).
  autorewrite with codec. cbn [le_dec]. rewrite Z.add_0_r, byte_of_zof, PageType_of_to by done.
  by destruct h.
Qed.

Lemma PageHeader_len h : len (PageHeader_WriteTo h) = PAGE_HEADER_SIZE.
Proof. reflexivity. Qed.

#[export] Instance PageHeader_codec : Codec PageHeader :=
  { csize := PAGE_HEADER_SIZE; cwf := PageHeader_wf;
    cenc := PageHeader_WriteTo; cdec := PageHeader_ReadFrom }.
#[export] Instance PageHeader_laws : CodecLaws PageHeader.
Proof. split; [done | apply PageHeader_len | apply PageHeader_ReadFrom_WriteTo]. Qed.

Lemma rd_u_range off n bs : 0 <= n -> 0 <= rd_u off n bs < 256 ^ n.
Proof.
  intros. unfold rd_u. pose proof (le_dec_range (slice off n bs)) as R.
  assert (len (slice off n bs) <= n) by (rewrite length_slice; lia).
  pose proof (Z.pow_le_mono_r 256 (len (slice off n bs)) n ltac:(lia) ltac:(lia)). lia.
Qed.

Lemma rd_u16 off bs : is_u16 (rd_u off 2 bs).
Proof. apply (rd_u_range off 2). done. Qed.

Lemma le_enc_rd_u o n bs :
  0 <= o -> 0 <= n -> o + n <= len bs -> le_enc (Z.to_nat n) (rd_u o n bs) = slice o n bs.
Proof.
  intros. replace (Z.to_nat n) with (length (slice o n bs)); [apply le_enc_dec|].
  rewrite length_slice. lia.
Qed.

Lemma le_enc_s32 z : le_enc 4 (s32 z) = le_enc 4 z.
Proof. apply le_enc_cong. unfold_ints. change (256 ^ Z.of_nat 4) with (2 ^ 32). lia. Qed.

Lemma s32_range z : is_s32 (s32 z).
Proof. unfold_ints. lia. Qed.
Lemma s64_range z : is_s64 (s64 z).
Proof. unfold_ints. lia. Qed.

(** Whatever the bytes, what is read is in range: a header built from a page can be
    written back. *)
Lemma PageHeader_ReadFrom_wf bs : PageHeader_wf (PageHeader_ReadFrom bs).
Proof.
  unfold PageHeader_wf, PageHeader_ReadFrom; simpl.
  pose proof (rd_u_range 1 1 bs). pose proof (rd_u_range 2 2 bs).
  pose proof (rd_u_range 16 8 bs). pose proof (rd_u_range 24 4 bs).
  pose proof (rd_u_range 28 4 bs).
  repeat split; try apply s32_range; try apply PageType_of_wf; unfold_ints; lia.
Qed.

(** [memcpy] out and back in reproduces the same 32 bytes: the header owns every bit,
    there is no padding. *)
Lemma PageHeader_WriteTo_ReadFrom bs :
  len bs = PAGE_HEADER_SIZE -> PageHeader_WriteTo (PageHeader_ReadFrom bs) = bs.
Proof.
  intros H. unfold PAGE_HEADER_SIZE in H.
  unfold PageHeader_WriteTo, PageHeader_ReadFrom; cbn [ph_page_type ph_flags
    ph_format_version ph_page_id ph_next_page_id ph_prev_page_id ph_page_lsn ph_checksum
    ph_reserved].
  rewrite PageType_to_of, !le_enc_s32.
  change [byte_of (rd_u 0 1 bs)] with (le_enc (Z.to_nat 1) (rd_u 0 1 bs)).
  change 8%nat with (Z.to_nat 8). change 4%nat with (Z.to_nat 4).
  change 2%nat with (Z.to_nat 2). change (le_enc 1) with (le_enc (Z.to_nat 1)).
  rewrite !le_enc_rd_u by lia.
  do 32 (destruct bs as [|? bs]; [cbn [length] in H; lia|]).
  destruct bs; [done|cbn [length] in H; lia].
Qed.

(** ** The host the engine is compiled for

    Two things the source leaves to the build and the machine, and over which every
    theorem is quantified: whether [NDEBUG] is defined, and the indeterminate bytes an
    uninitialised [std::array] holds. *)
Class Host := {
  ndebug : bool;
  indeterminate : Z -> list byte;
  indeterminate_len n : length (indeterminate n) = Z.to_nat n
}.
#[export] Hint Rewrite @indeterminate_len : lens.

Definition release_host : Host :=
  {| ndebug := true; indeterminate := zeros; indeterminate_len := length_zeros |}.
Definition debug_host : Host :=
  {| ndebug := false; indeterminate n := replicate (Z.to_nat n) xcc;
     indeterminate_len n := length_replicate (Z.to_nat n) xcc |}.
