(* ===== verification/Logger.v ===== *)
(** * Logger: src/src/common/logger.hpp, logger.cpp

    A log line is assembled in a buffer of 1280 bytes on the stack, around a message cut to
    1023 characters, and written to standard output with one call under a mutex.  The clock,
    the time zone and the thread id are the machine's ([Machine]).  The conversions of printf
    are those the source uses; a conversion that does not match its argument is [None]. *)

From Stdlib Require Import Ascii String.
From stdpp Require Import pretty strings.
From S2P Require Import Prelude Common.
Open Scope Z_scope.

(** ** printf *)

Inductive Arg := AInt (z : Z) | AStr (s : string).

Fixpoint spaces (n : nat) : string := match n with O => "" | S n => String " " (spaces n) end.
Fixpoint noughts (n : nat) : string := match n with O => "" | S n => String "0" (noughts n) end.

(** [%0wd] and [%-ws]. *)
Definition zero_pad (w : nat) (z : Z) : string :=
  let digits := pretty (Z.abs z) in
  let sign := if z <? 0 then "-" else "" in
  sign +:+ noughts (w - String.length sign - String.length digits) +:+ digits.
Definition left_justify (w : nat) (s : string) : string := s +:+ spaces (w - String.length s).

Definition char_digit (c : ascii) : nat := nat_of_ascii c - 48.

(** A precision that is negative counts as none. *)
Definition cut (n : Z) (s : string) : string := if n <? 0 then s else String.substring 0 (Z.to_nat n) s.

Definition before (s : string) (r : option string) : option string :=
  match r with Some t => Some (s +:+ t) | None => None end.

Fixpoint format (fmt : string) (args : list Arg) : option string :=
  match fmt with
  | EmptyString => Some ""
  | String "%" (String "d" fmt) => match args with AInt z :: args => before (pretty z) (format fmt args) | _ => None end
  | String "%" (String "s" fmt) => match args with AStr s :: args => before s (format fmt args) | _ => None end
  | String "%" (String "." (String "*" (String "s" fmt))) =>
      match args with AInt n :: AStr s :: args => before (cut n s) (format fmt args) | _ => None end
  | String "%" (String "0" (String w (String "d" fmt))) =>
      match args with AInt z :: args => before (zero_pad (char_digit w) z) (format fmt args) | _ => None end
  | String "%" (String "-" (String w (String "s" fmt))) =>
      match args with AStr s :: args => before (left_justify (char_digit w) s) (format fmt args) | _ => None end
  | String "%" _ => None
  | String c fmt => before (String c "") (format fmt args)
  end.

(** What [snprintf] and [vsnprintf] leave in a buffer of [n] bytes. *)
Definition snprintf (n : nat) (s : string) : string := String.substring 0 (n - 1) s.

(** ** The clock *)

Record Tm := mkTm { tm_year : Z; tm_mon : Z; tm_mday : Z; tm_hour : Z; tm_min : Z; tm_sec : Z }.

Class Machine := { localtime_r : Z -> Tm; gettid : Z }.

(** [strftime(ts, n, "%Y-%m-%d %H:%M:%S", tm)]; [None] when it does not fit, and the buffer is
    indeterminate. *)
Definition strftime (n : nat) (tm : Tm) : option string :=
  match format "%d-%02d-%02d %02d:%02d:%02d"
    [AInt (tm_year tm + 1900); AInt (tm_mon tm + 1); AInt (tm_mday tm); AInt (tm_hour tm); AInt (tm_min tm); AInt (tm_sec tm)] with
  | Some ts => if (String.length ts <? n)%nat then Some ts else None
  | None => None
  end.

(** ** Logging *)

Inductive LogLevel := DEBUG | INFO.

Definition level_tag (level : LogLevel) : string := match level with DEBUG => "DEBUG" | INFO => "INFO" end.

Definition newline : string := String "010" "".

(** Standard output as the list of the writes to it. *)
Definition fputs (s : string) (out : list string) : list string := out ++ [s].

Section logging.
Context {machine : Machine} {host : Host}.

(** The id is asked for once per thread; it never changes. *)
Definition cached_tid : Z := gettid.

(** [now] is the system clock, in nanoseconds since the epoch. *)
Definition log_impl (now : Z) (level : LogLevel) (file : string) (line : Z) (fmt : string) (args : list Arg)
    (out : list string) : option (list string) :=
  let t := Z.quot now 1000000000 in
  let ms := Z.rem (Z.quot now 1000000) 1000 in
  match strftime 32 (localtime_r t), format fmt args with
  | Some ts, Some text =>
      let msg := snprintf 1024 text in
      match format ("%s.%03d [%-5s] [tid %d] %s:%d  %s" +:+ newline)
        [AStr ts; AInt ms; AStr (level_tag level); AInt cached_tid; AStr file; AInt line; AStr msg] with
      | Some full => Some (fputs (snprintf 1280 full) out)
      | None => None
      end
  | _, _ => None
  end.

Definition LOG_INFO (now : Z) := log_impl now INFO.
Definition LOG_DEBUG (now : Z) (file : string) (line : Z) (fmt : string) (args : list Arg) (out : list string) : option (list string) :=
  if ndebug then Some out else log_impl now DEBUG file line fmt args out.
End logging.

(** ** How long things are *)

Lemma length_append s t : String.length (s +:+ t) = (String.length s + String.length t)%nat.
Proof. induction s as [|c s IH]; [done|]. exact (f_equal S IH). Qed.

Lemma substring_all n s : (String.length s <= n)%nat -> String.substring 0 n s = s.
Proof. revert n. induction s as [|c s IH]; intros [|n]; cbn; try done; try lia. intros H. by rewrite IH by lia. Qed.

Lemma length_substring n s : (String.length (String.substring 0 n s) <= n)%nat.
Proof. revert n. induction s as [|c s IH]; intros [|n]; cbn; try lia. specialize (IH n). lia. Qed.

Lemma length_pretty_go k : forall n s, (n < 10 ^ N.of_nat k)%N -> (String.length (pretty_N_go n s) <= k + String.length s)%nat.
Proof.
  induction k as [|k IH]; intros n s H.
  - replace n with 0%N by (cbn in H; lia). by rewrite pretty_N_go_0.
  - destruct (decide (0 < n)%N) as [Hn|Hn]; [|replace n with 0%N by lia; rewrite pretty_N_go_0; lia].
    rewrite pretty_N_go_step by done. etransitivity; [apply IH|cbn; lia].
    apply N.Div0.div_lt_upper_bound. rewrite Nat2N.inj_succ, N.pow_succ_r' in H. lia.
Qed.

Lemma length_pretty_N n k : (0 < k)%nat -> (n < 10 ^ N.of_nat k)%N -> (String.length (pretty n) <= k)%nat.
Proof.
  intros Hk H. unfold pretty, pretty_N. case_decide; [cbn; lia|]. pose proof (length_pretty_go k n "" H) as L. change (String.length "") with 0%nat in L. by rewrite Nat.add_0_r in L.
Qed.

(** A number of [k] digits. *)
Lemma length_pretty z k : (0 < k)%nat -> 0 <= z < 10 ^ Z.of_nat k -> (String.length (pretty z) <= k)%nat.
Proof.
  intros Hk H. destruct z as [|p|p]; [cbn; lia| |lia]. change (pretty (Z.pos p)) with (pretty (N.pos p)).
  apply length_pretty_N; [done|]. assert (Z.of_N (N.pos p) < Z.of_N (10 ^ N.of_nat k)); [|lia].
  rewrite N2Z.inj_pow, nat_N_Z. exact (proj2 H).
Qed.

Lemma length_noughts n : String.length (noughts n) = n.
Proof. induction n; cbn; auto. Qed.

Lemma length_zero_pad w z : 0 <= z < 10 ^ Z.of_nat w -> (0 < w)%nat -> (String.length (zero_pad w z) <= w)%nat.
Proof.
  intros Hz Hw. pose proof (length_pretty z w Hw Hz). unfold zero_pad. rewrite (proj2 (Z.ltb_ge z 0)), Z.abs_eq by lia.
  change ("" +:+ ?s) with s. cbn [String.length]. rewrite length_append, length_noughts. lia.
Qed.

Lemma length_left_justify w s : (String.length s <= w)%nat -> String.length (left_justify w s) = w.
Proof.
  intros H. unfold left_justify. rewrite length_append. assert (E : forall n, String.length (spaces n) = n) by (induction n; cbn; auto).
  rewrite E. lia.
Qed.

(** ** A log line is whole *)

(** A calendar date in the years 0 to 9999. *)
Record tm_ok (tm : Tm) : Prop := {
  to_year : 0 <= tm_year tm + 1900 < 10000;
  to_mon : 0 <= tm_mon tm < 12;
  to_mday : 1 <= tm_mday tm <= 31;
  to_hour : 0 <= tm_hour tm < 24;
  to_min : 0 <= tm_min tm < 60;
  to_sec : 0 <= tm_sec tm <= 60
}.

Lemma strftime_fits tm : tm_ok tm -> exists ts, strftime 32 tm = Some ts /\ (String.length ts <= 19)%nat.
Proof.
  intros [Hy Hm Hd Hh Hi Hs]. unfold strftime. cbn [format]. unfold before.
  match goal with |- context [Some ?s] => set (ts := s) end.
  assert (L : (String.length ts <= 19)%nat).
  { unfold ts. rewrite !length_append. cbn [String.length char_digit nat_of_ascii].
    pose proof (length_pretty (tm_year tm + 1900) 4 ltac:(lia) ltac:(lia)).
    assert (P : forall z, 0 <= z < 100 -> (String.length (zero_pad 2 z) <= 2)%nat) by (intros; apply length_zero_pad; lia).
    pose proof (P (tm_mon tm + 1)). pose proof (P (tm_mday tm)). pose proof (P (tm_hour tm)). pose proof (P (tm_min tm)). pose proof (P (tm_sec tm)).
    change (char_digit "2") with 2%nat. lia. }
  exists ts. split; [|done]. destruct (Nat.ltb_spec (String.length ts) 32); [done|lia].
Qed.

Section whole.
Context {machine : Machine} {host : Host}.

(** C40: A log line arrives whole.  At any time from 1970 to the year 9999, from any source
    file with a name of up to 193 characters, the line written to standard output, in one
    write, is the timestamp, the level in five columns, the thread, the file, the line number
    and the message, with the newline at its end: only a message of more than 1023 characters
    is cut, and neither buffer on the stack overflows. *)
Theorem log_line_whole now level file line fmt args text out :
  0 <= now -> tm_ok (localtime_r (Z.quot now 1000000000)) -> 0 <= cached_tid < 2 ^ 31 -> 0 <= line < 2 ^ 31 ->
  (String.length file <= 193)%nat -> format fmt args = Some text ->
  exists ts, strftime 32 (localtime_r (Z.quot now 1000000000)) = Some ts /\
    let full := ts +:+ "." +:+ zero_pad 3 (Z.rem (Z.quot now 1000000) 1000) +:+ " [" +:+ left_justify 5 (level_tag level) +:+ "] [tid " +:+
      pretty cached_tid +:+ "] " +:+ file +:+ ":" +:+ pretty line +:+ "  " +:+ String.substring 0 1023 text +:+ newline in
    log_impl now level file line fmt args out = Some (out ++ [full]) /\ (String.length full < 1280)%nat.
Proof.
  intros Hn Ht Hi Hl Hf Ef. destruct (strftime_fits _ Ht) as (ts & Et & Lt). exists ts. split; [done|]. intros full.
  assert (L : (String.length full < 1280)%nat).
  { unfold full. rewrite !length_append. cbn [String.length]. rewrite length_left_justify by (destruct level; cbn; lia).
    pose proof (length_zero_pad 3 (Z.rem (Z.quot now 1000000) 1000)
      ltac:(assert (0 <= Z.quot now 1000000) by (apply Z.quot_pos; lia); pose proof (Z.rem_bound_pos (Z.quot now 1000000) 1000); lia) ltac:(lia)).
    pose proof (length_pretty cached_tid 10 ltac:(lia) ltac:(lia)). pose proof (length_pretty line 10 ltac:(lia) ltac:(lia)).
    pose proof (length_substring 1023 text). change (String.length newline) with 1%nat. lia. }
  split; [|done]. unfold log_impl. rewrite Et, Ef. unfold fputs.
  change (format ("%s.%03d [%-5s] [tid %d] %s:%d  %s" +:+ newline) _) with (Some full).
  unfold snprintf. rewrite substring_all by lia. done.
Qed.
End whole.

(** ** A concrete machine *)

Definition demo_machine : Machine := {| localtime_r t := mkTm 126 0 (1 + Z.quot t 86400 mod 28) 12 30 5; gettid := 4711 |}.

Lemma log_line_whole_witness :
  @log_impl demo_machine 1700000000123456789 INFO "disk_manager.cpp" 133 "Opening file %s" [AStr "test.db"] [] =
    Some ["2026-01-20 12:30:05.123 [INFO ] [tid 4711] disk_manager.cpp:133  Opening file test.db" +:+ newline].
Proof.
  assert (T : tm_ok (@localtime_r demo_machine (Z.quot 1700000000123456789 1000000000))) by (split; vm_compute; (split; congruence)).
  assert (I : 0 <= @cached_tid demo_machine < 2 ^ 31) by (cbn; lia).
  assert (F : (String.length "disk_manager.cpp" <= 193)%nat) by (cbn; lia).
  destruct (@log_line_whole demo_machine 1700000000123456789 INFO "disk_manager.cpp" 133 "Opening file %s" [AStr "test.db"] "Opening file test.db" []
    ltac:(lia) T I ltac:(lia) F eq_refl) as (ts & Et & El & _).
  assert (ts = "2026-01-20 12:30:05") as -> by (vm_compute in Et; congruence). exact El.
Defined.
