(* ===== verification/HeapPage.v ===== *)
(** * Slotted heap page: src/src/heap/heap_page.hpp, heap_page.cpp

    The byte-level model of [ConstHeapPage]/[HeapPage].  A page body is a
    [list byte] of [PAGE_BODY_SIZE] bytes; every operation reads and writes it at the
    offsets the source uses.  A read-only member is a function of the body, a mutating
    one returns the new body.  The [assert]s inside the reads are [*_asserts]; the mutators end
    with [assert(CheckInvariants())].  A debug build stops where one of them is false, and
    [heap_run_refines] shows that none is.  Proofs are in HeapPageProofs.v. *)

From S2P Require Import Prelude Common.

Definition HEAP_SUB_HEADER_SIZE : Z := 8.
Definition SLOT_SIZE : Z := 4.
Definition MAX_TUPLE_ON_EMPTY_PAGE : Z := PAGE_BODY_SIZE - HEAP_SUB_HEADER_SIZE - SLOT_SIZE.
Definition MAX_TUPLE_SIZE : Z := 2000.

Record HeapSubHeader := mkHeapSubHeader {
  slot_count : Z;
  tuple_data_start : Z;
  live_count : Z;
  dead_bytes : Z
}.

Definition HeapSubHeader_default : HeapSubHeader := mkHeapSubHeader 0 PAGE_BODY_SIZE 0 0.

Definition HeapSubHeader_ReadFrom (bs : list byte) : HeapSubHeader :=
  mkHeapSubHeader (rd_u 0 2 bs) (rd_u 2 2 bs) (rd_u 4 2 bs) (rd_u 6 2 bs).
Definition HeapSubHeader_WriteTo (h : HeapSubHeader) : list byte :=
  le_enc 2 (slot_count h) ++ le_enc 2 (tuple_data_start h)
    ++ le_enc 2 (live_count h) ++ le_enc 2 (dead_bytes h).
Definition HeapSubHeader_wf (h : HeapSubHeader) : Prop :=
  is_u16 (slot_count h) /\ is_u16 (tuple_data_start h) /\
  is_u16 (live_count h) /\ is_u16 (dead_bytes h).

Record Slot := mkSlot { slot_offset : Z; slot_length : Z }.

Definition IsDead (s : Slot) : bool := slot_offset s =? 0.
Definition Slot_ReadFrom (bs : list byte) : Slot := mkSlot (rd_u 0 2 bs) (rd_u 2 2 bs).
Definition Slot_WriteTo (s : Slot) : list byte :=
  le_enc 2 (slot_offset s) ++ le_enc 2 (slot_length s).
Definition Slot_wf (s : Slot) : Prop := is_u16 (slot_offset s) /\ is_u16 (slot_length s).

Inductive UpdateOutcome := kSamePage | kDoesNotFit.

#[export] Instance UpdateOutcome_eq_dec : EqDecision UpdateOutcome.
Proof. solve_decision. Defined.

(** ** Byte marshalling *)

Definition SlotOffset (slot : Z) : Z := HEAP_SUB_HEADER_SIZE + slot * SLOT_SIZE.

Definition Header (body : list byte) : HeapSubHeader :=
  HeapSubHeader_ReadFrom (slice 0 HEAP_SUB_HEADER_SIZE body).
Definition SlotAt (slot : Z) (body : list byte) : Slot :=
  Slot_ReadFrom (slice (SlotOffset slot) SLOT_SIZE body).
Definition WriteHeader (h : HeapSubHeader) (body : list byte) : list byte :=
  patch 0 (HeapSubHeader_WriteTo h) body.
Definition WriteSlot (slot : Z) (entry : Slot) (body : list byte) : list byte :=
  patch (SlotOffset slot) (Slot_WriteTo entry) body.

(** ** Reads *)

Definition SlotCount (body : list byte) : Z := slot_count (Header body).
Definition LiveCount (body : list byte) : Z := live_count (Header body).

Definition Contiguous (body : list byte) : Z :=
  let h := Header body in
  let slot_array_end := HEAP_SUB_HEADER_SIZE + slot_count h * SLOT_SIZE in
  if tuple_data_start h <? slot_array_end then 0
  else tuple_data_start h - slot_array_end.

Definition Contiguous_asserts (body : list byte) : bool :=
  let h := Header body in
  HEAP_SUB_HEADER_SIZE + slot_count h * SLOT_SIZE <=? tuple_data_start h.

Definition Reclaimable (body : list byte) : Z :=
  Contiguous body + dead_bytes (Header body).

Definition Get (slot_id : Z) (body : list byte) : Result (list byte) :=
  if slot_count (Header body) <=? slot_id then Error (NotFound "slot doesn't exist")
  else
    let slot := SlotAt slot_id body in
    if IsDead slot then Error (NotFound "slot is dead")
    else
      let tuple_end := slot_offset slot + slot_length slot in
      if tuple_end <=? PAGE_BODY_SIZE then Ok (slice (slot_offset slot) (slot_length slot) body)
      else Error (Corruption "tuple not accessible").

Definition Get_asserts (slot_id : Z) (body : list byte) : bool :=
  (slot_count (Header body) <=? slot_id) || IsDead (SlotAt slot_id body) ||
  (slot_offset (SlotAt slot_id body) + slot_length (SlotAt slot_id body) <=? PAGE_BODY_SIZE).

(** The body of the [for] loop of [CheckInvariants], [n] iterations from slot [i]:
    [None] is a failed check, otherwise the two running totals. *)
Fixpoint CheckInvariants_loop (n : nat) (i : Z) (h : HeapSubHeader) (body : list byte)
    (live_slots live_bytes : Z) : option (Z * Z) :=
  match n with
  | O => Some (live_slots, live_bytes)
  | S n =>
      let s := SlotAt i body in
      if IsDead s then
        if negb (slot_length s =? 0) then None
        else CheckInvariants_loop n (i + 1) h body live_slots live_bytes
      else if slot_offset s <? tuple_data_start h then None
      else if PAGE_BODY_SIZE <? slot_offset s + slot_length s then None
      else CheckInvariants_loop n (i + 1) h body (live_slots + 1) (live_bytes + slot_length s)
  end.

Definition CheckInvariants (body : list byte) : bool :=
  let h := Header body in
  let slot_array_end := HEAP_SUB_HEADER_SIZE + slot_count h * SLOT_SIZE in
  if PAGE_BODY_SIZE <? tuple_data_start h then false
  else if tuple_data_start h <? slot_array_end then false
  else
    match CheckInvariants_loop (Z.to_nat (slot_count h)) 0 h body 0 0 with
    | None => false
    | Some (live_slots, live_bytes) =>
        if negb (live_slots =? live_count h) then false
        else if negb (tuple_data_start h + live_bytes + dead_bytes h =? PAGE_BODY_SIZE) then false
        else true
    end.

(** Both overloads of [AsHeapPage]: a view of a page's body, refused unless the page
    header says it is a heap page.  [page] is the whole page the guard pins. *)
Definition AsHeapPage (page : list byte) : Result (list byte) :=
  if decide (ph_page_type (PageHeader_ReadFrom (slice 0 PAGE_HEADER_SIZE page)) <> HEAP) then
    Error (Corruption "page is not a heap page")
  else Ok (slice PAGE_HEADER_SIZE PAGE_BODY_SIZE page).

(** ** Mutations *)

Definition Init (body : list byte) : list byte := WriteHeader HeapSubHeader_default body.

(** The dead-slot search of [Insert]: the first dead slot among [n] slots from [i]. *)
Fixpoint find_dead (n : nat) (i : Z) (body : list byte) : option Z :=
  match n with
  | O => None
  | S n => if IsDead (SlotAt i body) then Some i else find_dead n (i + 1) body
  end.

Definition Insert (tuple : list byte) (body : list byte) : Result Z * list byte :=
  if len tuple =? 0 then
    (Error (InvalidArgument "cannot insert a zero-length tuple"), body)
  else if MAX_TUPLE_SIZE <? len tuple then
    (Error (InvalidArgument "tuple exceeds the maximum tuple size"), body)
  else
    let header := Header body in
    let appended := (slot_count header, len tuple + SLOT_SIZE) in
    let '(slot_id, required) :=
      if live_count header <? slot_count header then
        match find_dead (Z.to_nat (slot_count header)) 0 body with
        | Some i => (i, len tuple)
        | None => appended
        end
      else appended in
    if Contiguous body <? required then
      (Error (PageFull "not enough contiguous space for the tuple"), body)
    else
      let length := u16 (len tuple) in
      let offset := u16 (tuple_data_start header - length) in
      let body := patch offset tuple body in
      let body := WriteSlot slot_id (mkSlot offset length) body in
      let header' :=
        mkHeapSubHeader
          (if slot_id =? slot_count header then u16 (slot_count header + 1) else slot_count header)
          offset (u16 (live_count header + 1)) (dead_bytes header) in
      (Ok slot_id, WriteHeader header' body).

Definition Delete (slot_id : Z) (body : list byte) : Status * list byte :=
  match Get slot_id body with
  | Error s => (s, body)
  | Ok _ =>
      let delete_slot := SlotAt slot_id body in
      let header := Header body in
      let header' :=
        mkHeapSubHeader (slot_count header) (tuple_data_start header)
          (u16 (live_count header - 1)) (u16 (dead_bytes header + slot_length delete_slot)) in
      let body := WriteHeader header' body in
      (StatusOK, WriteSlot slot_id (mkSlot 0 0) body)
  end.

Section with_host.
Context {host : Host}.

(** The slot loop of [Compact], [n] iterations from slot [i]. *)
Fixpoint Compact_loop (n : nat) (i cursor : Z) (scratch body : list byte)
    : Z * list byte * list byte :=
  match n with
  | O => (cursor, scratch, body)
  | S n =>
      let slot := SlotAt i body in
      if IsDead slot then Compact_loop n (i + 1) cursor scratch body
      else
        let cursor := u64 (cursor - slot_length slot) in
        let scratch := patch cursor (slice (slot_offset slot) (slot_length slot) body) scratch in
        let slot := mkSlot (u16 cursor) (slot_length slot) in
        Compact_loop n (i + 1) cursor scratch (WriteSlot i slot body)
  end.

Definition Compact (body : list byte) : list byte :=
  let header := Header body in
  if dead_bytes header =? 0 then body
  else
    let scratch := indeterminate PAGE_BODY_SIZE in
    let freed_from := tuple_data_start header in
    let '(cursor, scratch, body) :=
      Compact_loop (Z.to_nat (slot_count header)) 0 PAGE_BODY_SIZE scratch body in
    let body := patch cursor (slice cursor (PAGE_BODY_SIZE - cursor) scratch) body in
    let header :=
      mkHeapSubHeader (slot_count header) (u16 cursor) (live_count header) 0 in
    let body := WriteHeader header body in
    if ndebug then body
    else patch freed_from (replicate (Z.to_nat (cursor - freed_from)) xdd) body.

Definition Update (slot_id : Z) (tuple body : list byte) : Result UpdateOutcome * list byte :=
  if len tuple =? 0 then
    (Error (InvalidArgument "cannot update to a zero-length tuple"), body)
  else if MAX_TUPLE_SIZE <? len tuple then
    (Error (InvalidArgument "tuple exceeds the maximum tuple size"), body)
  else
    match Get slot_id body with
    | Error s => (Error s, body)
    | Ok _ =>
        let slot := SlotAt slot_id body in
        let header := Header body in
        let contiguous := Contiguous body in
        let new_length := u16 (len tuple) in
        if new_length <=? slot_length slot then
          let body := patch (slot_offset slot) tuple body in
          let header :=
            mkHeapSubHeader (slot_count header) (tuple_data_start header) (live_count header)
              (u16 (dead_bytes header + (slot_length slot - new_length))) in
          let body := WriteHeader header body in
          (Ok kSamePage, WriteSlot slot_id (mkSlot (slot_offset slot) new_length) body)
        else if new_length <=? contiguous then
          let header :=
            mkHeapSubHeader (slot_count header) (u16 (tuple_data_start header - new_length))
              (live_count header) (u16 (dead_bytes header + slot_length slot)) in
          let body := patch (tuple_data_start header) tuple body in
          let body := WriteHeader header body in
          (Ok kSamePage, WriteSlot slot_id (mkSlot (tuple_data_start header) new_length) body)
        else if new_length <=? contiguous + dead_bytes header + slot_length slot then
          let header :=
            mkHeapSubHeader (slot_count header) (tuple_data_start header)
              (u16 (live_count header - 1)) (u16 (dead_bytes header + slot_length slot)) in
          let body := WriteHeader header body in
          let body := WriteSlot slot_id (mkSlot 0 0) body in
          let body := Compact body in
          let header := Header body in
          let header :=
            mkHeapSubHeader (slot_count header) (u16 (tuple_data_start header - new_length))
              (u16 (live_count header + 1)) (dead_bytes header) in
          let body := patch (tuple_data_start header) tuple body in
          let body := WriteHeader header body in
          (Ok kSamePage, WriteSlot slot_id (mkSlot (tuple_data_start header) new_length) body)
        else (Ok kDoesNotFit, body)
    end.
End with_host.

#[global] Arguments Header : simpl never.
#[global] Arguments SlotAt : simpl never.
#[global] Arguments WriteHeader : simpl never.
#[global] Arguments WriteSlot : simpl never.
#[global] Arguments Contiguous : simpl never.
#[global] Arguments Compact : simpl never.
