(* ===== verification/HeapPageProofs.v ===== *)
(** * Correctness of the slotted heap page

    The page layout invariant [wf], the abstraction of a page body to its rows and its
    garbage count, the reference machine on that abstraction, and the refinement of each
    operation of HeapPage.v to it. *)

From S2P Require Import Prelude Common HeapPage.

#[export] Instance HeapSubHeader_codec : Codec HeapSubHeader :=
  { csize := HEAP_SUB_HEADER_SIZE; cwf := HeapSubHeader_wf;
    cenc := HeapSubHeader_WriteTo; cdec := HeapSubHeader_ReadFrom }.
#[export] Instance HeapSubHeader_laws : CodecLaws HeapSubHeader.
Proof.
  split; [done | done |]. intros h (? & ? & ? & ?).
  unfold cdec, cenc; simpl. unfold HeapSubHeader_ReadFrom, rd_u.
  set (t := HeapSubHeader_WriteTo h).
  field 0 2 t (le_enc 2 (slot_count h)). field 2 2 t (le_enc 2 (tuple_data_start h)).
  field 4 2 t (le_enc 2 (live_count h)). field 6 2 t (le_enc 2 (dead_bytes h)).
  autorewrite with codec. by destruct h.
Qed.

#[export] Instance Slot_codec : Codec Slot :=
  { csize := SLOT_SIZE; cwf := Slot_wf; cenc := Slot_WriteTo; cdec := Slot_ReadFrom }.
#[export] Instance Slot_laws : CodecLaws Slot.
Proof.
  split; [done | done |]. intros s (? & ?).
  unfold cdec, cenc; simpl. unfold Slot_ReadFrom, rd_u. set (t := Slot_WriteTo s).
  field 0 2 t (le_enc 2 (slot_offset s)). field 2 2 t (le_enc 2 (slot_length s)).
  autorewrite with codec. by destruct s.
Qed.

Ltac hconsts :=
  unfold SlotOffset, MAX_TUPLE_ON_EMPTY_PAGE, MAX_TUPLE_SIZE, HEAP_SUB_HEADER_SIZE, SLOT_SIZE in *;
  unfold_consts.
Ltac hlia := hconsts; unfold_ints; lia.

(** ** Views of a body *)

Definition slots_n (n : nat) (body : list byte) : list Slot :=
  (fun i => SlotAt (Z.of_nat i) body) <$> seq 0 n.
Definition slots (body : list byte) : list Slot :=
  slots_n (Z.to_nat (slot_count (Header body))) body.

(** The bytes a slot names; a dead slot names none. *)
Definition tuple_of (body : list byte) (s : Slot) : option (list byte) :=
  if IsDead s then None else Some (slice (slot_offset s) (slot_length s) body).

(** The rows of a page: what its RIDs resolve to, by slot index. *)
Definition rows (body : list byte) : list (option (list byte)) := tuple_of body <$> slots body.

Fixpoint num_live (ss : list Slot) : Z :=
  match ss with [] => 0 | s :: ss => (if IsDead s then 0 else 1) + num_live ss end.
Fixpoint live_bytes (ss : list Slot) : Z :=
  match ss with [] => 0 | s :: ss => (if IsDead s then 0 else slot_length s) + live_bytes ss end.

Definition slot_ok (tds : Z) (s : Slot) : Prop :=
  0 <= slot_offset s /\ 0 <= slot_length s /\
  (if IsDead s then slot_length s = 0
   else tds <= slot_offset s /\ slot_offset s + slot_length s <= PAGE_BODY_SIZE).

#[export] Instance slot_ok_dec tds s : Decision (slot_ok tds s).
Proof. unfold slot_ok. destruct (IsDead s); apply _. Defined.

Definition apart (s t : Slot) : Prop :=
  slot_offset s + slot_length s <= slot_offset t \/
  slot_offset t + slot_length t <= slot_offset s.

Definition disjoint_slots (ss : list Slot) : Prop :=
  forall i j s t, ss !! i = Some s -> ss !! j = Some t -> i <> j ->
    IsDead s = false -> IsDead t = false -> apart s t.

(** What [CheckInvariants] tests, on the decoded header and slot array. *)
Record accounted (h : HeapSubHeader) (ss : list Slot) : Prop := {
  acc_count : slot_count h = len ss;
  acc_low : HEAP_SUB_HEADER_SIZE + len ss * SLOT_SIZE <= tuple_data_start h;
  acc_high : tuple_data_start h <= PAGE_BODY_SIZE;
  acc_slots : Forall (slot_ok (tuple_data_start h)) ss;
  acc_live : live_count h = num_live ss;
  acc_dead : 0 <= dead_bytes h;
  acc_bytes : tuple_data_start h + live_bytes ss + dead_bytes h = PAGE_BODY_SIZE
}.

(** The page invariant: the accounting, and tuples that do not overlap. *)
Record wf (body : list byte) : Prop := {
  wf_len : len body = PAGE_BODY_SIZE;
  wf_acc : accounted (Header body) (slots body);
  wf_disj : disjoint_slots (slots body)
}.

(** ** Reading and writing the header and the slots *)

Lemma Header_get body : Header body = get_at 0 body.
Proof. done. Qed.
Lemma SlotAt_get i body : SlotAt i body = get_at (SlotOffset i) body.
Proof. done. Qed.

Lemma Header_range body : HeapSubHeader_wf (Header body).
Proof.
  unfold HeapSubHeader_wf, Header, HeapSubHeader_ReadFrom; simpl.
  eauto using rd_u16.
Qed.

Lemma SlotAt_range i body : Slot_wf (SlotAt i body).
Proof.
  unfold Slot_wf, SlotAt, Slot_ReadFrom; simpl.
  eauto using rd_u16.
Qed.

Lemma length_slots_n n body : length (slots_n n body) = n.
Proof. unfold slots_n. by rewrite length_fmap, length_seq. Qed.
#[export] Hint Rewrite length_slots_n : lens.

Lemma lookup_slots_n n body i :
  slots_n n body !! i = if decide (i < n)%nat then Some (SlotAt (Z.of_nat i) body) else None.
Proof.
  unfold slots_n. rewrite list_lookup_fmap. case_decide.
  - by rewrite lookup_seq_lt.
  - rewrite lookup_seq_ge by lia. done.
Qed.

Lemma slots_n_S n body : slots_n (S n) body = slots_n n body ++ [SlotAt (Z.of_nat n) body].
Proof. unfold slots_n. by rewrite seq_S, fmap_app. Qed.

(** Slots whose entries are not written do not change. *)
Lemma slots_n_ext n body body' :
  (forall i, 0 <= i < Z.of_nat n -> SlotAt i body' = SlotAt i body) ->
  slots_n n body' = slots_n n body.
Proof.
  intros H. apply list_eq. intros i. rewrite !lookup_slots_n. case_decide; [|done].
  by rewrite H by lia.
Qed.

Lemma SlotAt_patch i off bs body :
  0 <= i -> 0 <= off -> off + len bs <= len body ->
  SlotOffset (i + 1) <= off \/ off + len bs <= SlotOffset i ->
  SlotAt i (patch off bs body) = SlotAt i body.
Proof. intros. rewrite !SlotAt_get. apply get_patch_ne; simpl; try done; hlia. Qed.

Lemma SlotAt_WriteSlot i j s body :
  0 <= i -> 0 <= j -> SlotOffset (j + 1) <= len body -> Slot_wf s ->
  SlotAt i (WriteSlot j s body) = if decide (i = j) then s else SlotAt i body.
Proof.
  intros. case_decide as E; [subst|].
  - refine (get_put_at (SlotOffset j) s body _ _ _); simpl; try done; hlia.
  - apply SlotAt_patch; try done; simpl length; hlia.
Qed.

Lemma Header_WriteHeader h body :
  HEAP_SUB_HEADER_SIZE <= len body -> HeapSubHeader_wf h -> Header (WriteHeader h body) = h.
Proof. intros. refine (get_put_at 0 h body _ _ _); simpl; try done; hlia. Qed.

Lemma Header_patch off bs body :
  HEAP_SUB_HEADER_SIZE <= off -> off + len bs <= len body ->
  Header (patch off bs body) = Header body.
Proof. intros. rewrite (Header_get (patch _ _ _)), (Header_get body). apply get_patch_ne; simpl; try done; hlia. Qed.

Lemma Header_WriteSlot i s body :
  0 <= i -> SlotOffset (i + 1) <= len body -> Header (WriteSlot i s body) = Header body.
Proof. intros. apply Header_patch; simpl length; hlia. Qed.

Lemma SlotAt_WriteHeader i h body :
  0 <= i -> HEAP_SUB_HEADER_SIZE <= len body -> SlotAt i (WriteHeader h body) = SlotAt i body.
Proof. intros. apply SlotAt_patch; try done; simpl length; hlia. Qed.

Lemma length_WriteHeader h body :
  HEAP_SUB_HEADER_SIZE <= len body -> length (WriteHeader h body) = length body.
Proof. intros. apply len_patch; simpl length; hlia. Qed.

Lemma length_WriteSlot i s body :
  0 <= i -> SlotOffset (i + 1) <= len body -> length (WriteSlot i s body) = length body.
Proof. intros. apply len_patch; simpl length; hlia. Qed.

Lemma slots_n_WriteHeader n h body :
  HEAP_SUB_HEADER_SIZE <= len body -> slots_n n (WriteHeader h body) = slots_n n body.
Proof. intros. apply slots_n_ext. intros. apply SlotAt_WriteHeader; lia. Qed.

Lemma slots_n_WriteSlot n (i : nat) s body :
  (i < n)%nat -> SlotOffset (Z.of_nat n) <= len body -> Slot_wf s ->
  slots_n n (WriteSlot (Z.of_nat i) s body) = <[i := s]> (slots_n n body).
Proof.
  intros. apply list_eq. intros j. rewrite list_lookup_insert, lookup_slots_n, lookup_slots_n.
  lens. case_decide as Hj; repeat case_decide; try done; try lia.
  - f_equal. rewrite SlotAt_WriteSlot by (done || hlia). by rewrite decide_True by lia.
  - f_equal. rewrite SlotAt_WriteSlot by (done || hlia). by rewrite decide_False by lia.
Qed.

Lemma slots_n_patch n off bs body :
  SlotOffset (Z.of_nat n) <= off -> off + len bs <= len body ->
  slots_n n (patch off bs body) = slots_n n body.
Proof. intros. apply slots_n_ext. intros. apply SlotAt_patch; hlia. Qed.

(** Tuple bytes live above the slot array, so writing slots or the header spares them. *)
Lemma slice_WriteHeader off n h body :
  HEAP_SUB_HEADER_SIZE <= off -> HEAP_SUB_HEADER_SIZE <= len body ->
  slice off n (WriteHeader h body) = slice off n body.
Proof. intros. apply slice_patch_disjoint; simpl length; hlia. Qed.

Lemma slice_WriteSlot off n i s body :
  0 <= i -> SlotOffset (i + 1) <= off -> SlotOffset (i + 1) <= len body ->
  slice off n (WriteSlot i s body) = slice off n body.
Proof. intros. apply slice_patch_disjoint; simpl length; hlia. Qed.

(** From here on the two decoders are used through the lemmas above. *)
#[global] Opaque Header SlotAt.

(** ** Counting over the slot array *)

Definition live1 (s : Slot) : Z := if IsDead s then 0 else 1.
Definition bytes1 (s : Slot) : Z := if IsDead s then 0 else slot_length s.

(** Write position [i] of a sequence, appending when [i] is one past its end: what a
    slot write does to the slot array, and an insert to the rows. *)
Definition place {A} (i : nat) (x : A) (l : list A) : list A :=
  if decide (i < length l)%nat then <[i := x]> l else l ++ [x].

Lemma fmap_place {A B} (f : A -> B) i x l : f <$> place i x l = place i (f x) (f <$> l).
Proof.
  unfold place. rewrite length_fmap. case_decide; [apply list_fmap_insert|by rewrite fmap_app].
Qed.

Lemma length_place {A} i (x : A) l :
  (i <= length l)%nat -> length (place i x l) = Nat.max (length l) (S i).
Proof. intros. unfold place. case_decide; lens; simpl; lia. Qed.

Lemma lookup_place {A} i (x : A) l j :
  (i <= length l)%nat -> place i x l !! j = if decide (i = j) then Some x else l !! j.
Proof.
  intros. unfold place. case_decide; repeat case_decide; subst.
  - by rewrite list_lookup_insert_eq.
  - by rewrite list_lookup_insert_ne.
  - rewrite lookup_app_r, (proj2 (Nat.sub_0_le _ _)) by lia. done.
  - destruct (decide (j < length l)%nat).
    + by rewrite lookup_app_l.
    + rewrite !lookup_ge_None_2; lens; simpl; try lia; done.
Qed.

Section sums.
Variable w : Slot -> Z.
Fixpoint sum_slots (ss : list Slot) : Z :=
  match ss with [] => 0 | s :: ss => w s + sum_slots ss end.

Lemma sum_slots_app ss ss' : sum_slots (ss ++ ss') = sum_slots ss + sum_slots ss'.
Proof. induction ss; simpl; lia. Qed.

Lemma sum_slots_insert ss i s t :
  ss !! i = Some s -> sum_slots (<[i := t]> ss) = sum_slots ss - w s + w t.
Proof.
  revert i. induction ss as [|u ss IH]; intros [|i] H; simpl in *; simplify_eq; [lia|].
  rewrite (IH i) by done. lia.
Qed.

Lemma sum_slots_place ss i t :
  (i <= length ss)%nat ->
  sum_slots (place i t ss) = sum_slots ss + w t - default 0 (w <$> ss !! i).
Proof.
  intros. unfold place. case_decide as Hi.
  - destruct (lookup_lt_is_Some_2 ss i) as [s Hs]; [lia|].
    rewrite (sum_slots_insert _ _ s), Hs by done. simpl. lia.
  - rewrite sum_slots_app, lookup_ge_None_2 by lia. simpl. lia.
Qed.

Lemma sum_slots_lookup ss i s :
  Forall (fun s => 0 <= w s) ss -> ss !! i = Some s -> w s <= sum_slots ss.
Proof.
  intros F. revert i. induction F as [|u ss Hu F IH]; intros [|i] H; simpl in *; simplify_eq.
  - assert (0 <= sum_slots ss); [|lia]. clear -F. induction F; simpl; lia.
  - specialize (IH i H). lia.
Qed.
End sums.

Lemma num_live_sum ss : num_live ss = sum_slots live1 ss.
Proof. induction ss as [|s ss IH]; simpl; [done|]. by rewrite IH. Qed.
Lemma live_bytes_sum ss : live_bytes ss = sum_slots bytes1 ss.
Proof. induction ss as [|s ss IH]; simpl; [done|]. by rewrite IH. Qed.

Lemma num_live_bounds ss : 0 <= num_live ss <= len ss.
Proof. induction ss as [|s ss IH]; simpl; [lia|]. destruct (IsDead s); lia. Qed.

Lemma slot_ok_mono tds tds' s : tds' <= tds -> slot_ok tds s -> slot_ok tds' s.
Proof. unfold slot_ok. intros ? (? & ? & ?). destruct (IsDead s); repeat split; lia. Qed.

Lemma bytes1_nonneg tds ss : Forall (slot_ok tds) ss -> Forall (fun s => 0 <= bytes1 s) ss.
Proof.
  intros F. eapply Forall_impl; [exact F|]. intros s (? & ? & _). unfold bytes1.
  destruct (IsDead s); lia.
Qed.

Lemma live_bytes_nonneg tds ss : Forall (slot_ok tds) ss -> 0 <= live_bytes ss.
Proof.
  intros F%bytes1_nonneg. rewrite live_bytes_sum. induction F; simpl; lia.
Qed.

(** ** Facts every well-formed page gives *)

Lemma lookup_slots body i s :
  slots body !! i = Some s -> s = SlotAt (Z.of_nat i) body /\ Z.of_nat i < slot_count (Header body).
Proof.
  unfold slots. rewrite lookup_slots_n. case_decide; [|done]. intros [= <-]. split; [done|].
  pose proof (Header_range body) as (R & _). hlia.
Qed.

Lemma slots_lookup_Z body i :
  0 <= i < slot_count (Header body) -> slots body !! Z.to_nat i = Some (SlotAt i body).
Proof.
  intros. unfold slots. rewrite lookup_slots_n. rewrite decide_True by lia.
  by rewrite Z2Nat.id by lia.
Qed.

Lemma length_slots body : len (slots body) = slot_count (Header body).
Proof. unfold slots. lens. pose proof (Header_range body) as (R & _). hlia. Qed.

Lemma wf_slot_ok body i s :
  wf body -> slots body !! i = Some s -> slot_ok (tuple_data_start (Header body)) s.
Proof. intros [_ [] _] H. by eapply Forall_lookup_1. Qed.

Lemma wf_slot_end body i :
  wf body -> 0 <= i < slot_count (Header body) ->
  SlotOffset (i + 1) <= tuple_data_start (Header body).
Proof. intros [_ [] _] ?. hlia. Qed.

(** The live slots and the garbage share the tuple region between them. *)
Lemma wf_slot_bytes body i s :
  wf body -> slots body !! i = Some s -> IsDead s = false ->
  slot_length s + dead_bytes (Header body) <= PAGE_BODY_SIZE - tuple_data_start (Header body).
Proof.
  intros [_ [] _] H E. rewrite live_bytes_sum in *.
  pose proof (sum_slots_lookup bytes1 _ _ _ (bytes1_nonneg _ _ acc_slots0) H) as B.
  unfold bytes1 in B at 1. rewrite E in B. lia.
Qed.

Ltac wf_facts H :=
  let A := fresh "A" in
  pose proof (wf_acc _ H) as A;
  pose proof (wf_len _ H);
  destruct A as [?Hcount ?Hlow ?Hhigh ?Hslots ?Hlive ?Hdead ?Hbytes].

(** ** CheckInvariants decides the accounting *)

(** The slots a loop visits, [n] of them from index [i]. *)
Fixpoint slots_from (n : nat) (i : Z) (body : list byte) : list Slot :=
  match n with O => [] | S n => SlotAt i body :: slots_from n (i + 1) body end.

Lemma lookup_slots_from n i body k :
  slots_from n i body !! k =
    if decide (k < n)%nat then Some (SlotAt (i + Z.of_nat k) body) else None.
Proof.
  revert i k. induction n as [|n IH]; intros i k; [rewrite decide_False by lia; done|].
  destruct k as [|k].
  - rewrite decide_True by lia. simpl. by rewrite Z.add_0_r.
  - change (slots_from (S n) i body !! S k) with (slots_from n (i + 1) body !! k).
    rewrite IH. repeat case_decide; try lia; [|done]. do 2 f_equal. lia.
Qed.

Lemma slots_from_0 body : slots_from (Z.to_nat (slot_count (Header body))) 0 body = slots body.
Proof. apply list_eq. intros k. unfold slots. by rewrite lookup_slots_from, lookup_slots_n. Qed.

Lemma length_slots_from n i body : length (slots_from n i body) = n.
Proof. revert i. induction n; simpl; auto. Qed.

Lemma check_loop_spec body h n i ls lb :
  CheckInvariants_loop n i h body ls lb =
    if decide (Forall (slot_ok (tuple_data_start h)) (slots_from n i body))
    then Some (ls + num_live (slots_from n i body), lb + live_bytes (slots_from n i body))
    else None.
Proof.
  revert i ls lb. induction n as [|n IH]; intros i ls lb; [simpl; by rewrite !Z.add_0_r|].
  cbn [CheckInvariants_loop slots_from num_live live_bytes]. rewrite !IH.
  pose proof (SlotAt_range i body) as [R1 R2].
  set (s := SlotAt i body) in *. set (ss := slots_from n (i + 1) body).
  destruct (decide (Forall _ ss)) as [F|F].
  - destruct (decide (Forall _ (s :: ss))) as [F'|F'].
    + apply Forall_cons in F' as [(_ & _ & Hs) _]. destruct (IsDead s).
      * rewrite Hs. simpl. by rewrite !Z.add_0_l.
      * destruct Hs. bcase; try hlia. f_equal. f_equal; lia.
    + rewrite Forall_cons in F'. unfold slot_ok in F' at 1. destruct (IsDead s).
      * bcase; simpl; [|done]. exfalso. apply F'. split; [hlia|done].
      * bcase; try done. exfalso. apply F'. split; [hlia|done].
  - rewrite decide_False by (rewrite Forall_cons; tauto).
    destruct (IsDead s); bcase; done.
Qed.

Lemma CheckInvariants_spec body : CheckInvariants body = true <-> accounted (Header body) (slots body).
Proof.
  unfold CheckInvariants. rewrite check_loop_spec, slots_from_0, !Z.add_0_l.
  pose proof (Header_range body) as (_ & _ & _ & Rd). pose proof (length_slots body) as L.
  split.
  - intros C. destruct (decide (Forall _ _)); bcase; simpl in C; try done. constructor; try hlia.
    done.
  - intros []. rewrite decide_True by done. bcase; simpl; try hlia; done.
Qed.
