(* ===== verification/HeapPageRefine.v ===== *)
(** * The heap page refines an abstract slot table

    [APage] is what a heap page promises its callers: rows addressed by slot index, and
    the amount of garbage a compaction would reclaim.  Every operation of HeapPage.v
    commutes with the abstraction [abs] on well-formed bodies and re-establishes [wf]. *)

From S2P Require Import Prelude Common HeapPage HeapPageProofs.

(** ** The abstract machine *)

Record APage := mkAPage { a_rows : list (option (list byte)); a_dead : Z }.

Fixpoint row_bytes (rs : list (option (list byte))) : Z :=
  match rs with
  | [] => 0
  | Some t :: rs => len t + row_bytes rs
  | None :: rs => row_bytes rs
  end.

Fixpoint first_none {A} (l : list (option A)) : option nat :=
  match l with
  | [] => None
  | None :: _ => Some O
  | Some _ :: l => S <$> first_none l
  end.

(** Bytes between the slot array and the tuple region. *)
Definition a_free (p : APage) : Z :=
  PAGE_BODY_SIZE - HEAP_SUB_HEADER_SIZE - len (a_rows p) * SLOT_SIZE
    - row_bytes (a_rows p) - a_dead p.

Definition a_empty : APage := mkAPage [] 0.

Definition a_Get (i : Z) (p : APage) : Result (list byte) :=
  if len (a_rows p) <=? i then Error (NotFound "slot doesn't exist")
  else match a_rows p !! Z.to_nat i with
       | Some (Some t) => Ok t
       | _ => Error (NotFound "slot is dead")
       end.

Definition a_slot_for (p : APage) : nat := default (length (a_rows p)) (first_none (a_rows p)).

Definition a_Insert (t : list byte) (p : APage) : Result Z * APage :=
  if len t =? 0 then (Error (InvalidArgument "cannot insert a zero-length tuple"), p)
  else if MAX_TUPLE_SIZE <? len t then
    (Error (InvalidArgument "tuple exceeds the maximum tuple size"), p)
  else
    let i := a_slot_for p in
    let required := if decide (i = length (a_rows p)) then len t + SLOT_SIZE else len t in
    if a_free p <? required then
      (Error (PageFull "not enough contiguous space for the tuple"), p)
    else (Ok (Z.of_nat i), mkAPage (place i (Some t) (a_rows p)) (a_dead p)).

Definition a_Delete (i : Z) (p : APage) : Status * APage :=
  match a_Get i p with
  | Error s => (s, p)
  | Ok t => (StatusOK, mkAPage (<[Z.to_nat i := None]> (a_rows p)) (a_dead p + len t))
  end.

(** The garbage after an update: the bytes a shrink orphans, the whole old row when it
    is relocated, nothing when the page had to be compacted. *)
Definition a_Update (i : Z) (t : list byte) (p : APage) : Result UpdateOutcome * APage :=
  if len t =? 0 then (Error (InvalidArgument "cannot update to a zero-length tuple"), p)
  else if MAX_TUPLE_SIZE <? len t then
    (Error (InvalidArgument "tuple exceeds the maximum tuple size"), p)
  else
    match a_Get i p with
    | Error s => (Error s, p)
    | Ok old =>
        let rs := <[Z.to_nat i := Some t]> (a_rows p) in
        if len t <=? len old then (Ok kSamePage, mkAPage rs (a_dead p + (len old - len t)))
        else if len t <=? a_free p then (Ok kSamePage, mkAPage rs (a_dead p + len old))
        else if len t <=? a_free p + a_dead p + len old then (Ok kSamePage, mkAPage rs 0)
        else (Ok kDoesNotFit, p)
    end.

Definition a_Compact (p : APage) : APage := mkAPage (a_rows p) 0.

Definition abs (body : list byte) : APage := mkAPage (rows body) (dead_bytes (Header body)).

(** ** Reads agree *)

Lemma len_tuple_of body s t :
  slot_ok 0 s -> len body = PAGE_BODY_SIZE -> tuple_of body s = Some t -> len t = slot_length s.
Proof.
  unfold tuple_of, slot_ok. intros (? & ? & H) L. destruct (IsDead s); [done|].
  intros [= <-]. apply len_slice; lia.
Qed.

Lemma row_bytes_slots body ss :
  len body = PAGE_BODY_SIZE -> Forall (slot_ok 0) ss ->
  row_bytes (tuple_of body <$> ss) = live_bytes ss.
Proof.
  intros L F. induction F as [|s ss Hs F IH]; [done|]. csimpl.
  destruct (tuple_of body s) as [t|] eqn:E.
  - rewrite (len_tuple_of _ _ _ Hs L E), IH. unfold tuple_of in E. destruct (IsDead s); [done|lia].
  - unfold tuple_of in E. destruct (IsDead s); [lia|done].
Qed.

Lemma wf_slots_ok0 body : wf body -> Forall (slot_ok 0) (slots body).
Proof.
  intros W. wf_facts W. eapply Forall_impl; [exact Hslots|]. intros s.
  apply slot_ok_mono. hlia.
Qed.

Lemma length_rows body : length (rows body) = length (slots body).
Proof. unfold rows. apply length_fmap. Qed.
#[export] Hint Rewrite length_rows : lens.

Lemma Contiguous_abs body : wf body -> Contiguous body = a_free (abs body).
Proof.
  intros W. pose proof (wf_slots_ok0 _ W) as F. wf_facts W.
  unfold Contiguous, a_free, abs; cbn [a_rows a_dead]. unfold rows at 2.
  rewrite row_bytes_slots, length_rows by done. bcase; hlia.
Qed.

Lemma Get_abs i body : wf body -> 0 <= i -> Get i body = a_Get i (abs body).
Proof.
  intros W Hi. unfold Get, a_Get, abs; cbn [a_rows]. rewrite length_rows, length_slots.
  destruct (Z.leb_spec (slot_count (Header body)) i); [done|].
  pose proof (slots_lookup_Z body i) as L.
  unfold rows. rewrite list_lookup_fmap, L by lia. simpl.
  destruct (wf_slot_ok _ _ _ W (L ltac:(lia))) as (? & ? & H').
  unfold tuple_of. destruct (IsDead (SlotAt i body)) eqn:E; [done|].
  destruct (Z.leb_spec (slot_offset (SlotAt i body) + slot_length (SlotAt i body)) PAGE_BODY_SIZE);
    [done|lia].
Qed.

Lemma find_dead_none n i body b :
  find_dead n i body =
    (fun k => i + Z.of_nat k) <$> first_none (tuple_of b <$> slots_from n i body).
Proof.
  revert i. induction n as [|n IH]; intros i; [done|]. csimpl. unfold tuple_of at 1.
  destruct (IsDead (SlotAt i body)); simpl; [f_equal; lia|]. rewrite IH.
  destruct (first_none _); simpl; [f_equal; lia|done].
Qed.

Lemma first_none_live body ss :
  first_none (tuple_of body <$> ss) = None <-> num_live ss = len ss.
Proof.
  induction ss as [|s ss IH]; [done|]. csimpl. pose proof (num_live_bounds ss).
  unfold tuple_of at 1. destruct (IsDead s).
  - split; [done|lia].
  - destruct (first_none _); simpl; split; try done; try lia.
    + intros. assert (num_live ss = len ss) by lia. by apply IH in H1.
    + intros. apply IH in H0. lia.
Qed.

(** The slot [Insert] picks, and the bytes it asks for, on a well-formed page. *)
Lemma first_none_lookup {A} (l : list (option A)) i :
  first_none l = Some i -> l !! i = Some None.
Proof.
  revert i. induction l as [|[x|] l IH]; intros i; simpl; [done| |by intros [= <-]].
  destruct (first_none l) eqn:E; simpl; [|done]. intros [= <-]. by apply IH.
Qed.

Lemma a_slot_for_le p : (a_slot_for p <= length (a_rows p))%nat.
Proof.
  unfold a_slot_for. destruct (first_none _) eqn:E; simpl; [|lia].
  apply first_none_lookup in E. apply lookup_lt_Some in E. lia.
Qed.

Lemma Insert_choice (body t : list byte) :
  wf body ->
  (if live_count (Header body) <? slot_count (Header body) then
     match find_dead (Z.to_nat (slot_count (Header body))) 0 body with
     | Some i => (i, len t)
     | None => (slot_count (Header body), len t + SLOT_SIZE)
     end
   else (slot_count (Header body), len t + SLOT_SIZE))
  = (Z.of_nat (a_slot_for (abs body)),
     if decide (a_slot_for (abs body) = length (slots body)) then len t + SLOT_SIZE else len t).
Proof.
  intros W. wf_facts W. rewrite (find_dead_none _ _ _ body), slots_from_0.
  pose proof (first_none_live body (slots body)) as FN. fold (rows body) in *.
  pose proof (num_live_bounds (slots body)). unfold a_slot_for, abs; cbn [a_rows].
  destruct (first_none (rows body)) as [k|] eqn:E; simpl.
  - apply first_none_lookup, lookup_lt_Some in E. rewrite length_rows in E.
    destruct (Z.ltb_spec (live_count (Header body)) (slot_count (Header body))).
    + by rewrite decide_False by lia.
    + assert (num_live (slots body) = len (slots body)) as C by lia. by apply FN in C.
  - destruct FN as [FN _]. rewrite length_rows, decide_True by done. bcase; f_equal; lia.
Qed.

(** ** A tuple written at the low-water mark

    [Insert] and both growing cases of [Update] end the same way: the tuple goes just
    below [tuple_data_start] and slot [i] (old, dead, or one past the end) names it. *)

Lemma Forall_place {A} (P : A -> Prop) i x l : Forall P l -> P x -> Forall P (place i x l).
Proof.
  intros F H. unfold place. case_decide; [by apply Forall_insert|].
  apply Forall_app; auto.
Qed.

Lemma disjoint_place ss i s tds :
  (i <= length ss)%nat -> disjoint_slots ss -> Forall (slot_ok tds) ss ->
  slot_offset s + slot_length s <= tds -> disjoint_slots (place i s ss).
Proof.
  intros Hi D F Hs j k u v Hj Hk Hne Du Dv.
  rewrite lookup_place in Hj by done. rewrite lookup_place in Hk by done.
  assert (B : forall (q : nat) (r : Slot), ss !! q = Some r -> IsDead r = false -> tds <= slot_offset r).
  { intros q r Hq Hr. eapply Forall_lookup_1 in F as (? & ? & F); [|exact Hq].
    rewrite Hr in F. lia. }
  destruct (decide (i = j)), (decide (i = k)); try congruence; unfold apart.
  - injection Hj as <-. left. pose proof (B _ _ Hk Dv). lia.
  - injection Hk as <-. right. pose proof (B _ _ Hj Du). lia.
  - exact (D j k u v Hj Hk Hne Du Dv).
Qed.

Lemma placed_old_bytes body i : wf body -> 0 <= default 0 (bytes1 <$> slots body !! i).
Proof.
  intros W. destruct (slots body !! i) as [r|] eqn:E; simpl; [|lia].
  destruct (wf_slot_ok _ _ _ W E) as (_ & ? & _). unfold bytes1. destruct (IsDead r); lia.
Qed.

Section placed.
Variables (body body' : list byte) (i : nat) (t : list byte).
Let h := Header body.
Let off := tuple_data_start h - len t.
Let s := mkSlot off (len t).
Hypothesis W : wf body.
Hypothesis Hi : (i <= length (slots body))%nat.
Hypothesis Ht : 0 < len t.
Hypothesis Hroom :
  HEAP_SUB_HEADER_SIZE + Z.of_nat (Nat.max (length (slots body)) (S i)) * SLOT_SIZE <= off.
Hypothesis Hlen : len body' = PAGE_BODY_SIZE.
Hypothesis Hslots' : slots body' = place i s (slots body).
Hypothesis Htds : tuple_data_start (Header body') = off.
Hypothesis Hlive' : live_count (Header body') =
  live_count h + 1 - default 0 (live1 <$> slots body !! i).
Hypothesis Hdead' : dead_bytes (Header body') =
  dead_bytes h + default 0 (bytes1 <$> slots body !! i).
Hypothesis Hkeep : forall o n, tuple_data_start h <= o -> slice o n body' = slice o n body.
Hypothesis Hnew : slice off (len t) body' = t.

Lemma placed_live : IsDead s = false.
Proof. unfold IsDead, s; simpl. bcase; [|done]. hlia. Qed.

Lemma placed_slot_ok : slot_ok off s.
Proof.
  unfold slot_ok. rewrite placed_live. wf_facts W. unfold s, off, h in *; simpl. hlia.
Qed.

Lemma placed_wf : wf body'.
Proof.
  pose proof (placed_old_bytes body i W) as Ho. pose proof placed_live as Hl.
  pose proof (wf_disj _ W) as D. wf_facts W.
  constructor; [done| |].
  - constructor; rewrite ?Htds.
    + symmetry. apply length_slots.
    + rewrite Hslots', length_place by done. exact Hroom.
    + unfold off, h. lia.
    + rewrite Hslots'. apply Forall_place; [|apply placed_slot_ok].
      eapply Forall_impl; [exact Hslots|]. intros r. apply slot_ok_mono. unfold off, h. lia.
    + rewrite Hlive', Hslots', num_live_sum, sum_slots_place by done.
      unfold live1 at 3. rewrite Hl, <- num_live_sum. unfold h. lia.
    + rewrite Hdead'. unfold h. lia.
    + rewrite Hdead', Hslots', live_bytes_sum, sum_slots_place by done.
      unfold bytes1 at 2. rewrite Hl, <- live_bytes_sum. unfold off, h, s; simpl. lia.
  - rewrite Hslots'. eapply disjoint_place; try done. unfold s, off, h; simpl. lia.
Qed.

Lemma placed_rows : rows body' = place i (Some t) (rows body).
Proof.
  unfold rows. rewrite Hslots', fmap_place. f_equal.
  - unfold tuple_of. rewrite placed_live. by f_equal.
  - apply list_fmap_ext. intros j r Hr. destruct (wf_slot_ok _ _ _ W Hr) as (_ & _ & O).
    unfold tuple_of. destruct (IsDead r); [done|]. by rewrite Hkeep by (unfold h; lia).
Qed.
End placed.

(** ** Insert *)

Lemma wf_dims body : wf body ->
  len body = PAGE_BODY_SIZE /\ is_u16 (slot_count (Header body)) /\
  SlotOffset (slot_count (Header body)) <= tuple_data_start (Header body) <= len body.
Proof.
  intros W. pose proof (Header_range body) as (? & _). wf_facts W. repeat split; hlia.
Qed.

Lemma a_slot_for_slot body i :
  wf body -> a_slot_for (abs body) = i ->
  default 0 (live1 <$> slots body !! i) = 0 /\ default 0 (bytes1 <$> slots body !! i) = 0.
Proof.
  intros W <-. unfold a_slot_for, abs; cbn [a_rows].
  destruct (first_none (rows body)) as [k|] eqn:E; simpl.
  - apply first_none_lookup in E. unfold rows in E. rewrite list_lookup_fmap in E.
    destruct (slots body !! k) as [s|]; simpl in *; [|done]. simplify_eq.
    unfold tuple_of, live1, bytes1 in *. by destruct (IsDead s).
  - rewrite lookup_ge_None_2 by (rewrite length_rows; lia). done.
Qed.

(** Writing slot [i], [i] at most one past the end, under a header with the new count. *)
Lemma slots_placed body b1 b2 i s :
  wf body -> (i <= length (slots body))%nat -> length b1 = length body -> Slot_wf s ->
  SlotOffset (Z.of_nat i + 1) <= len body ->
  slots_n (length (slots body)) b1 = slots body ->
  b2 = WriteSlot (Z.of_nat i) s b1 ->
  slots_n (Nat.max (length (slots body)) (S i)) b2 = place i s (slots body).
Proof.
  intros W Hi L Hs Hr Hb ->. pose proof (wf_dims _ W) as (? & ? & ?).
  pose proof (length_slots body). unfold place. case_decide.
  - rewrite Nat.max_l by lia. rewrite slots_n_WriteSlot by (done || hlia). by rewrite Hb.
  - assert (i = length (slots body)) as -> by lia.
    rewrite Nat.max_r by lia. rewrite slots_n_S. rewrite SlotAt_WriteSlot by (done || hlia).
    rewrite decide_True by done. f_equal. rewrite <- Hb at 3. apply slots_n_ext. intros j ?.
    rewrite SlotAt_WriteSlot by (done || hlia). by rewrite decide_False by lia.
Qed.

Lemma wf_live_dead_u16 body :
  wf body -> 0 <= live_count (Header body) <= 1014 /\ 0 <= dead_bytes (Header body) <= 4056.
Proof.
  intros W. pose proof (num_live_bounds (slots body)).
  pose proof (live_bytes_nonneg _ _ (acc_slots _ _ (wf_acc _ W))). wf_facts W. hlia.
Qed.

(** The effect of placing [t] at slot [i], for whichever order the header and the slot
    are written in. *)
Definition put_tuple (i : nat) (t : list byte) (h' : HeapSubHeader) (body : list byte) : list byte :=
  WriteHeader h' (WriteSlot (Z.of_nat i) (mkSlot (tuple_data_start h') (len t))
    (patch (tuple_data_start h') t body)).

Lemma put_tuple_refines body i t :
  wf body -> (i <= length (slots body))%nat -> 0 < len t <= MAX_TUPLE_SIZE ->
  let off := tuple_data_start (Header body) - len t in
  HEAP_SUB_HEADER_SIZE + Z.of_nat (Nat.max (length (slots body)) (S i)) * SLOT_SIZE <= off ->
  let old_live := default 0 (live1 <$> slots body !! i) in
  let old_bytes := default 0 (bytes1 <$> slots body !! i) in
  let h' := mkHeapSubHeader (Z.of_nat (Nat.max (length (slots body)) (S i))) off
              (live_count (Header body) + 1 - old_live)
              (dead_bytes (Header body) + old_bytes) in
  let body' := put_tuple i t h' body in
  wf body' /\ Header body' = h' /\ rows body' = place i (Some t) (rows body).
Proof.
  intros W Hi Ht off Hroom old_live old_bytes h' body'.
  pose proof (wf_dims _ W) as (D1 & D2 & D3). pose proof (wf_live_dead_u16 _ W).
  pose proof (length_slots body) as Ls. pose proof (placed_old_bytes _ i W) as Ho.
  fold old_bytes in Ho.
  assert (Hoff : off = tuple_data_start (Header body) - len t) by done.
  assert (0 <= old_live <= 1 /\ 0 <= live_count (Header body) + 1 - old_live /\
          dead_bytes (Header body) + old_bytes <= 4056) as (? & ? & ?).
  { unfold old_live, old_bytes. destruct (slots body !! i) as [r|] eqn:E; simpl; [|lia].
    unfold live1, bytes1. destruct (IsDead r) eqn:Er; [lia|].
    pose proof (wf_slot_bytes _ _ _ W E Er). wf_facts W.
    pose proof (num_live_bounds (slots body)). split; [lia|]. hlia. }
  assert (Hh : HeapSubHeader_wf h') 
    by (unfold h', HeapSubHeader_wf; cbn [slot_count tuple_data_start live_count dead_bytes]; hlia).
  assert (Hs : Slot_wf (mkSlot off (len t))) by (split; simpl; hlia).
  set (b1 := patch off t body). set (b2 := WriteSlot (Z.of_nat i) (mkSlot off (len t)) b1).
  assert (L1 : length b1 = length body) by (apply len_patch; hlia).
  assert (L2 : length b2 = length body) by (unfold b2; rewrite length_WriteSlot; hlia).
  assert (B : body' = WriteHeader h' b2) by done. clearbody body'.
  assert (L3 : length body' = length body) by (rewrite B, length_WriteHeader; hlia).
  assert (HH : Header body' = h') by (rewrite B; apply Header_WriteHeader; [hlia|done]).
  assert (HS : slots body' = place i (mkSlot off (len t)) (slots body)).
  { unfold slots at 1. rewrite HH. unfold h' at 1. cbn [slot_count]. rewrite Nat2Z.id.
    rewrite B, slots_n_WriteHeader by hlia.
    apply (slots_placed body b1); try done; [hlia|].
    unfold b1. rewrite slots_n_patch by hlia. unfold slots. by lens. }
  assert (HK : forall o n, off <= o -> slice o n body' = slice o n b1).
  { intros o n ?. rewrite B, slice_WriteHeader by hlia. apply slice_WriteSlot; hlia. }
  assert (Hkeep : forall o n, tuple_data_start (Header body) <= o -> slice o n body' = slice o n body).
  { intros o n ?. rewrite HK by lia. apply slice_patch_disjoint; hlia. }
  assert (Hnew : slice off (len t) body' = t).
  { rewrite HK by lia. apply slice_patch_same; hlia. }
  split; [|split; [done|]].
  - eapply (placed_wf body body' i t); rewrite ?HH; try done; lia.
  - eapply (placed_rows body body' i t); rewrite ?HH; try done; lia.
Qed.

(** [Insert] refines the abstract insert on every branch: both argument errors, a full
    page, the reuse of the lowest dead slot, and the append of a new one. *)
Lemma Insert_refines t body :
  wf body ->
  let '(r, body') := Insert t body in
  wf body' /\ (r, abs body') = a_Insert t (abs body).
Proof.
  intros W. unfold Insert, a_Insert. rewrite Insert_choice, Contiguous_abs by done.
  change (length (a_rows (abs body))) with (length (rows body)). rewrite length_rows.
  destruct (Z.eqb_spec (len t) 0); [done|].
  destruct (Z.ltb_spec MAX_TUPLE_SIZE (len t)); [done|].
  pose proof (a_slot_for_le (abs body)) as Hi.
  change (length (a_rows (abs body))) with (length (rows body)) in Hi.
  rewrite length_rows in Hi. remember (a_slot_for (abs body)) as i eqn:Ei.
  destruct (a_slot_for_slot _ _ W (eq_sym Ei)) as [Hol Hob].
  rewrite <- Contiguous_abs by done. set (required := if decide _ then _ else _).
  destruct (Z.ltb_spec (Contiguous body) required) as [|Hfit]; [done|].
  pose proof (wf_dims _ W) as (D1 & D2 & D3). pose proof (wf_live_dead_u16 _ W).
  pose proof (length_slots body) as Ls.
  assert (Hroom : HEAP_SUB_HEADER_SIZE + Z.of_nat (Nat.max (length (slots body)) (S i)) * SLOT_SIZE
                    <= tuple_data_start (Header body) - len t).
  { unfold required, Contiguous in Hfit. case_decide; bcase; hlia. }
  pose proof (put_tuple_refines body i t W Hi ltac:(lia) Hroom) as (W' & HH & HR).
  rewrite Hol, Hob, Z.sub_0_r, Z.add_0_r in W', HH, HR.
  rewrite (u16_id (len t)) by hlia. rewrite (u16_id (_ - _)) by hlia.
  rewrite (u16_id (live_count _ + 1)) by hlia.
  replace (if Z.of_nat i =? _ then _ else _)
    with (Z.of_nat (Nat.max (length (slots body)) (S i))).
  2:{ destruct (Z.eqb_spec (Z.of_nat i) (slot_count (Header body))); rewrite ?u16_id by hlia; lia. }
  split; [exact W'|]. unfold abs at 1. unfold put_tuple in HH, HR; cbn [tuple_data_start] in HH, HR.
  by rewrite HH, HR.
Qed.

(** ** A live slot that keeps its place or dies

    [Delete], the in-place case of [Update] and the kill step of its slow path rewrite
    one live slot without moving the low-water mark: [Some t] overwrites the tuple with
    a shorter one, [None] makes the slot dead. *)

Definition opt_len (t : option (list byte)) : Z := match t with Some t => len t | None => 0 end.
Definition opt_live (t : option (list byte)) : Z := match t with Some _ => 1 | None => 0 end.

Definition shrink (i : nat) (s : Slot) (t : option (list byte)) (body : list byte) : list byte :=
  let h := Header body in
  let h' := mkHeapSubHeader (slot_count h) (tuple_data_start h)
              (live_count h - 1 + opt_live t) (dead_bytes h + (slot_length s - opt_len t)) in
  match t with
  | Some t => WriteSlot (Z.of_nat i) (mkSlot (slot_offset s) (len t))
                (WriteHeader h' (patch (slot_offset s) t body))
  | None => WriteSlot (Z.of_nat i) (mkSlot 0 0) (WriteHeader h' body)
  end.

Section shrink.
Variables (body : list byte) (i : nat) (s : Slot) (t : option (list byte)).
Hypothesis W : wf body.
Hypothesis Hs : slots body !! i = Some s.
Hypothesis Hl : IsDead s = false.
Hypothesis Ht : opt_len t <= slot_length s.
Let h' := mkHeapSubHeader (slot_count (Header body)) (tuple_data_start (Header body))
  (live_count (Header body) - 1 + opt_live t)
  (dead_bytes (Header body) + (slot_length s - opt_len t)).
Let s' := match t with Some t => mkSlot (slot_offset s) (len t) | None => mkSlot 0 0 end.
Let b1 := match t with Some t => patch (slot_offset s) t body | None => body end.

Lemma shrink_bounds :
  len body = PAGE_BODY_SIZE /\ SlotOffset (Z.of_nat i + 1) <= tuple_data_start (Header body) /\
  tuple_data_start (Header body) <= slot_offset s /\ 0 <= slot_length s /\
  slot_offset s + slot_length s <= PAGE_BODY_SIZE /\ 0 <= opt_len t /\ 1 <= live_count (Header body) /\
  SlotOffset (slot_count (Header body)) <= tuple_data_start (Header body).
Proof.
  destruct (wf_slot_ok _ _ _ W Hs) as (? & ? & O). rewrite Hl in O.
  pose proof (lookup_lt_Some _ _ _ Hs). pose proof (wf_dims _ W) as (? & ? & ?).
  pose proof (length_slots body).
  assert (0 <= opt_len t) by (destruct t; simpl; lia).
  wf_facts W. rewrite num_live_sum in Hlive.
  assert (F : Forall (fun s => 0 <= live1 s) (slots body)).
  { apply Forall_forall. intros r _. unfold live1. destruct (IsDead r); lia. }
  pose proof (sum_slots_lookup live1 _ _ _ F Hs) as B. unfold live1 in B at 1. rewrite Hl in B.
  repeat split; try hlia.
Qed.

Lemma shrink_eq : shrink i s t body = WriteSlot (Z.of_nat i) s' (WriteHeader h' b1).
Proof. unfold shrink, h', s', b1. by destruct t. Qed.

Lemma shrink_slot_wf : Slot_wf s' /\ length b1 = length body.
Proof.
  destruct shrink_bounds as (? & ? & ? & ? & ? & ? & ? & ?).
  unfold s', b1, Slot_wf. destruct t; simpl in *; (split; [split; hlia|]).
  - apply len_patch; hlia.
  - done.
Qed.

Lemma shrink_header : Header (shrink i s t body) = h'.
Proof.
  destruct shrink_bounds as (? & ? & ? & ? & ? & ? & ? & ?). destruct shrink_slot_wf.
  pose proof (Header_range body) as (? & ? & ? & ?). pose proof (wf_slot_bytes _ _ _ W Hs Hl).
  rewrite shrink_eq, Header_WriteSlot by (rewrite ?length_WriteHeader; hlia).
  apply Header_WriteHeader; [hlia|].
  unfold HeapSubHeader_wf, h'; cbn [slot_count tuple_data_start live_count dead_bytes].
  assert (0 <= opt_live t <= 1) by (destruct t; simpl; lia). hlia.
Qed.

Lemma shrink_slots : slots (shrink i s t body) = <[i := s']> (slots body).
Proof.
  destruct shrink_bounds as (? & ? & ? & ? & ? & ? & ? & ?). destruct shrink_slot_wf.
  pose proof (lookup_lt_Some _ _ _ Hs). pose proof (length_slots body).
  unfold slots at 1. rewrite shrink_header. cbn [slot_count h'].
  rewrite shrink_eq. rewrite slots_n_WriteSlot by (rewrite ?length_WriteHeader; done || hlia).
  rewrite slots_n_WriteHeader by hlia. f_equal. unfold b1, slots. destruct t; [|done].
  simpl in *. apply slots_n_patch; hlia.
Qed.

Lemma shrink_keeps j r :
  slots body !! j = Some r -> j <> i -> tuple_of (shrink i s t body) r = tuple_of body r.
Proof.
  intros Hr Hne. destruct shrink_bounds as (? & ? & ? & ? & ? & ? & ? & ?).
  destruct shrink_slot_wf. unfold tuple_of. destruct (IsDead r) eqn:Er; [done|].
  destruct (wf_slot_ok _ _ _ W Hr) as (? & ? & O). rewrite Er in O.
  pose proof (wf_disj _ W j i r s Hr Hs Hne Er Hl) as A. unfold apart in A.
  f_equal. rewrite shrink_eq. rewrite slice_WriteSlot by (rewrite ?length_WriteHeader; hlia).
  rewrite slice_WriteHeader by hlia. unfold b1. destruct t; [|done]. simpl in *.
  apply slice_patch_disjoint; try hlia.
Qed.

Lemma shrink_new : tuple_of (shrink i s t body) s' = t.
Proof.
  destruct shrink_bounds as (? & ? & ? & ? & ? & ? & ? & ?). destruct shrink_slot_wf as [_ L].
  unfold tuple_of, s', IsDead. rewrite shrink_eq. unfold b1 in *. destruct t as [u|]; [|done]. simpl in *.
  destruct (Z.eqb_spec (slot_offset s) 0); [hlia|]. f_equal.
  rewrite slice_WriteSlot by (rewrite ?length_WriteHeader; hlia).
  rewrite slice_WriteHeader by hlia. apply slice_patch_same; hlia.
Qed.

Lemma shrink_rows : rows (shrink i s t body) = <[i := t]> (rows body).
Proof.
  unfold rows. rewrite shrink_slots, list_fmap_insert, shrink_new.
  apply list_eq. intros j. destruct (decide (j = i)) as [->|].
  - pose proof (lookup_lt_Some _ _ _ Hs). by rewrite !list_lookup_insert_eq by (lens; lia).
  - rewrite !list_lookup_insert_ne, !list_lookup_fmap by done.
    destruct (slots body !! j) as [r|] eqn:E; [|done]. simpl. f_equal. by eapply shrink_keeps.
Qed.

Lemma shrink_counts :
  live1 s' = opt_live t /\ bytes1 s' = opt_len t /\ slot_ok (tuple_data_start (Header body)) s'.
Proof.
  destruct shrink_bounds as (? & ? & ? & ? & ? & ? & ? & ?).
  unfold live1, bytes1, slot_ok, s', IsDead. destruct t as [u|]; simpl in *; [|done].
  destruct (Z.eqb_spec (slot_offset s) 0); repeat split; try hlia.
Qed.

Lemma shrink_disjoint : disjoint_slots (<[i := s']> (slots body)).
Proof.
  pose proof (wf_disj _ W) as D. intros j k u v Hj Hk Hne Du Dv.
  assert (E : forall q, q <> i -> forall r, <[i := s']> (slots body) !! q = Some r ->
            slots body !! q = Some r) by (intros q ? r; by rewrite list_lookup_insert_ne).
  assert (E' : forall r, <[i := s']> (slots body) !! i = Some r -> IsDead r = false ->
            slot_offset r = slot_offset s /\ slot_length r <= slot_length s).
  { intros r. pose proof (lookup_lt_Some _ _ _ Hs). rewrite list_lookup_insert_eq by done.
    intros [= <-]. unfold s'. by destruct t. }
  unfold disjoint_slots, apart in *.
  destruct (decide (j = i)) as [->|]; [|destruct (decide (k = i)) as [->|]].
  - destruct (E' _ Hj Du). pose proof (D i k s v Hs (E k ltac:(congruence) _ Hk) Hne Hl Dv). lia.
  - destruct (E' _ Hk Dv). pose proof (D j i u s (E j ltac:(done) _ Hj) Hs Hne Du Hl). lia.
  - apply (D j k); auto.
Qed.

Lemma shrink_wf : wf (shrink i s t body).
Proof.
  destruct shrink_bounds as (? & ? & ? & ? & ? & ? & ? & ?). destruct shrink_slot_wf as [_ L].
  destruct shrink_counts as (C1 & C2 & C3). wf_facts W.
  constructor; [|constructor|rewrite shrink_slots; apply shrink_disjoint];
    rewrite ?shrink_header, ?shrink_slots; unfold h';
    cbn [slot_count tuple_data_start live_count dead_bytes].
  - rewrite shrink_eq, length_WriteSlot; rewrite ?length_WriteHeader; hlia.
  - lens. lia.
  - lens. lia.
  - lia.
  - by apply Forall_insert.
  - rewrite num_live_sum, (sum_slots_insert _ _ _ s), C1, <- num_live_sum by done.
    unfold live1. rewrite Hl. lia.
  - lia.
  - rewrite live_bytes_sum, (sum_slots_insert _ _ _ s), C2, <- live_bytes_sum by done.
    unfold bytes1. rewrite Hl. lia.
Qed.
End shrink.

(** ** Delete *)

Lemma Get_live i body t :
  wf body -> 0 <= i -> Get i body = Ok t ->
  slots body !! Z.to_nat i = Some (SlotAt i body) /\ IsDead (SlotAt i body) = false /\
  len t = slot_length (SlotAt i body) /\ t = slice (slot_offset (SlotAt i body)) (len t) body.
Proof.
  intros W Hi. unfold Get. destruct (Z.leb_spec (slot_count (Header body)) i); [done|].
  pose proof (slots_lookup_Z body i ltac:(lia)) as L.
  destruct (wf_slot_ok _ _ _ W L) as (? & ? & O). pose proof (wf_len _ W).
  destruct (IsDead (SlotAt i body)) eqn:E; [done|].
  destruct (Z.leb_spec (slot_offset (SlotAt i body) + slot_length (SlotAt i body)) PAGE_BODY_SIZE);
    [|done]. intros [= <-].
  assert (len (slice (slot_offset (SlotAt i body)) (slot_length (SlotAt i body)) body)
          = slot_length (SlotAt i body)) as -> by (apply len_slice; lia).
  done.
Qed.

(** [Delete] refines the abstract delete: a missing or dead slot is reported and nothing
    changes; a live one becomes a hole whose bytes are counted as garbage. *)
Lemma Delete_refines i body :
  wf body -> 0 <= i ->
  let '(r, body') := Delete i body in
  wf body' /\ (r, abs body') = a_Delete i (abs body).
Proof.
  intros W Hi. unfold Delete, a_Delete. rewrite <- Get_abs by done.
  destruct (Get i body) as [t|e] eqn:E; [|done].
  destruct (Get_live _ _ _ W Hi E) as (Hs & Hl & Ht & _).
  pose proof (shrink_bounds body _ _ None W Hs Hl ltac:(simpl; lia)) as (? & ? & ? & ? & ? & ? & ? & ?).
  pose proof (wf_live_dead_u16 _ W). pose proof (wf_slot_bytes _ _ _ W Hs Hl).
  rewrite !u16_id by hlia.
  pose proof (shrink_wf body _ _ None W Hs Hl ltac:(simpl; lia)) as W'.
  pose proof (shrink_header body _ _ None W Hs Hl ltac:(simpl; lia)) as H'.
  pose proof (shrink_rows body _ _ None W Hs Hl ltac:(simpl; lia)) as R'.
  unfold shrink in W', H', R'. simpl opt_len in *. simpl opt_live in *.
  rewrite Z2Nat.id, Z.add_0_r, Z.sub_0_r in W', H', R' by lia.
  split; [exact W'|]. unfold abs at 1. rewrite H', R'. cbn [dead_bytes]. by rewrite Ht.
Qed.

(** ** Compact *)

(** Where the slot loop of [Compact] puts the live tuples: packed downwards from
    [cursor], in slot order. *)
Fixpoint relocate (cursor : Z) (ss : list Slot) : list Slot :=
  match ss with
  | [] => []
  | s :: ss =>
      if IsDead s then s :: relocate cursor ss
      else mkSlot (cursor - slot_length s) (slot_length s)
             :: relocate (cursor - slot_length s) ss
  end.

Lemma length_relocate c ss : length (relocate c ss) = length ss.
Proof. revert c. induction ss as [|s ss IH]; intros c; simpl; [done|]. destruct (IsDead s); simpl; auto. Qed.
#[export] Hint Rewrite length_relocate : lens.

(** The loop invariant of [Compact], from slot [i] on: [low] bounds the slot array from
    above and the live tuples from below. *)
Lemma Compact_loop_spec low n : forall i c sc b,
  len b = PAGE_BODY_SIZE -> len sc = PAGE_BODY_SIZE -> 0 <= i ->
  SlotOffset (i + Z.of_nat n) <= low ->
  Forall (slot_ok low) (slots_from n i b) ->
  low <= c - live_bytes (slots_from n i b) -> c <= PAGE_BODY_SIZE ->
  let '(c', sc', b') := Compact_loop n i c sc b in
  c' = c - live_bytes (slots_from n i b) /\
  len b' = PAGE_BODY_SIZE /\ len sc' = PAGE_BODY_SIZE /\
  slots_from n i b' = relocate c (slots_from n i b) /\
  Header b' = Header b /\
  (forall j, 0 <= j < i -> SlotAt j b' = SlotAt j b) /\
  (forall o k, low <= o -> slice o k b' = slice o k b) /\
  (forall o k, c <= o -> slice o k sc' = slice o k sc) /\
  (forall j s r, slots_from n i b !! j = Some s -> relocate c (slots_from n i b) !! j = Some r ->
     IsDead s = false ->
     slice (slot_offset r) (slot_length r) sc' = slice (slot_offset s) (slot_length s) b).
Proof.
  induction n as [|n IH]; intros i c sc b Lb Lsc Hi Hlow Hok Hc Hc'.
  { simpl in *. repeat split; try done; lia. }
  cbn [Compact_loop slots_from live_bytes relocate] in *.
  set (s := SlotAt i b) in *. apply Forall_cons in Hok as [(Ho & Hln & Hs) Hok].
  pose proof (live_bytes_nonneg _ _ Hok) as Hlb.
  destruct (IsDead s) eqn:Ed.
  - specialize (IH (i + 1) c sc b Lb Lsc ltac:(lia) ltac:(hlia) Hok ltac:(lia) Hc').
    destruct (Compact_loop n (i + 1) c sc b) as [[c' sc'] b'].
    destruct IH as (-> & L1 & L2 & S1 & HH & Sl & K1 & K2 & T). 
    repeat split; try done; try lia.
    + rewrite S1. f_equal. apply Sl. lia.
    + intros j ?. apply Sl. lia.
    + intros [|j] u r; simpl; [intros [= <-]; congruence|]. apply T.
  - destruct Hs as [Hs1 Hs2].
    rewrite (u64_id (c - slot_length s)) by hlia. rewrite (u16_id (c - slot_length s)) by hlia.
    set (c1 := c - slot_length s) in *. set (s1 := mkSlot c1 (slot_length s)).
    set (sc1 := patch c1 _ sc). set (b1 := WriteSlot i s1 b).
    assert (Hs1wf : Slot_wf s1) by (split; simpl; hlia).
    assert (Lt : len (slice (slot_offset s) (slot_length s) b) = slot_length s)
      by (apply len_slice; lia).
    assert (Lb1 : len b1 = PAGE_BODY_SIZE) by (unfold b1; rewrite length_WriteSlot; hlia).
    assert (Lsc1 : len sc1 = PAGE_BODY_SIZE) by (unfold sc1; rewrite len_patch; hlia).
    assert (E : slots_from n (i + 1) b1 = slots_from n (i + 1) b).
    { apply list_eq. intros k. rewrite !lookup_slots_from. case_decide; [|done]. f_equal.
      unfold b1. rewrite SlotAt_WriteSlot by (done || hlia). by rewrite decide_False by lia. }
    specialize (IH (i + 1) c1 sc1 b1 Lb1 Lsc1 ltac:(lia) ltac:(hlia)).
    rewrite E in IH. specialize (IH Hok ltac:(lia) ltac:(lia)).
    destruct (Compact_loop n (i + 1) c1 sc1 b1) as [[c' sc'] b'].
    destruct IH as (-> & L1 & L2 & S1 & HH & Sl & K1 & K2 & T).
    repeat split; try done; try lia.
    + rewrite S1. f_equal. rewrite Sl by lia. unfold b1.
      rewrite SlotAt_WriteSlot by (done || hlia). by rewrite decide_True.
    + rewrite HH. apply Header_WriteSlot; hlia.
    + intros j ?. rewrite Sl by lia. unfold b1. rewrite SlotAt_WriteSlot by (done || hlia).
      by rewrite decide_False by lia.
    + intros o k ?. rewrite K1 by done. apply slice_WriteSlot; hlia.
    + intros o k ?. rewrite K2 by lia. apply slice_patch_disjoint; hlia.
    + intros [|j] u r; simpl.
      * intros [= <-] [= <-] _. simpl. rewrite K2 by lia. apply slice_patch_same; hlia.
      * intros Hu Hr Hd. rewrite (T _ _ _ Hu Hr Hd).
        apply slice_WriteSlot; try hlia.
        eapply Forall_lookup_1 in Hok as (_ & _ & Ok2); [|exact Hu]. rewrite Hd in Ok2. hlia.
Qed.

Section relocate.
Variable low : Z.
Hypothesis low_pos : 0 < low.

Lemma relocate_live c ss :
  Forall (slot_ok low) ss -> low <= c - live_bytes ss ->
  num_live (relocate c ss) = num_live ss /\ live_bytes (relocate c ss) = live_bytes ss.
Proof.
  intros F. revert c. induction F as [|s ss (? & ? & Hs) F IH]; intros c Hc; simpl in *; [done|].
  pose proof (live_bytes_nonneg _ _ F). destruct (IsDead s) eqn:E; simpl.
  - rewrite E. destruct (IH c) as [-> ->]; [lia|]. done.
  - destruct (IH (c - slot_length s)) as [-> ->]; [lia|]. unfold IsDead; simpl.
    destruct (Z.eqb_spec (c - slot_length s) 0); lia.
Qed.

Lemma relocate_lookup c ss j r :
  Forall (slot_ok low) ss -> low <= c - live_bytes ss -> relocate c ss !! j = Some r ->
  exists s, ss !! j = Some s /\ IsDead r = IsDead s /\ slot_length r = slot_length s /\
    (IsDead s = true -> r = s) /\
    (IsDead s = false -> c - live_bytes ss <= slot_offset r /\ slot_offset r + slot_length r <= c).
Proof.
  intros F. revert c j. induction F as [|s ss (? & ? & Hs) F IH]; intros c j Hc; simpl in *; [done|].
  pose proof (live_bytes_nonneg _ _ F). destruct (IsDead s) eqn:E.
  - destruct j as [|j]; simpl.
    + intros [= <-]. exists s. rewrite E. done.
    + intros Hr. destruct (IH c j ltac:(lia) Hr) as (u & Hu & ? & ? & ? & Hb).
      exists u. repeat split; try done; apply Hb in H5; lia.
  - destruct j as [|j]; simpl.
    + intros [= <-]. exists s. unfold IsDead at 1; simpl.
      destruct (Z.eqb_spec (c - slot_length s) 0); [lia|]. repeat split; try done; try congruence; lia.
    + intros Hr. destruct (IH (c - slot_length s) j ltac:(lia) Hr) as (u & Hu & ? & ? & ? & Hb).
      exists u. repeat split; try done; apply Hb in H5; lia.
Qed.

Lemma relocate_ok c ss :
  Forall (slot_ok low) ss -> low <= c - live_bytes ss -> c <= PAGE_BODY_SIZE ->
  Forall (slot_ok (c - live_bytes ss)) (relocate c ss).
Proof.
  intros F Hc Hc'. apply Forall_lookup_2. intros j r Hr.
  destruct (relocate_lookup _ _ _ _ F Hc Hr) as (s & Hs & E & El & Ed & Hb).
  eapply Forall_lookup_1 in F as (? & ? & Hsl); [|exact Hs].
  unfold slot_ok. rewrite E, El in *. destruct (IsDead s).
  - rewrite (Ed eq_refl). done.
  - destruct (Hb eq_refl). lia.
Qed.

Lemma relocate_disjoint c ss :
  Forall (slot_ok low) ss -> low <= c - live_bytes ss -> disjoint_slots (relocate c ss).
Proof.
  intros F. revert c. induction F as [|s ss (? & ? & Hs) F IH]; intros c Hc; simpl in *.
  { intros [] ? ? ? [=]. }
  pose proof (live_bytes_nonneg _ _ F).
  assert (B : forall c', low <= c' - live_bytes ss -> forall j r, relocate c' ss !! j = Some r ->
            IsDead r = false -> slot_offset r + slot_length r <= c').
  { intros c' ? j r Hr Hd. destruct (relocate_lookup _ _ _ _ F ltac:(eassumption) Hr)
      as (u & _ & E & _ & _ & Hb). rewrite E in Hd. apply Hb in Hd. lia. }
  destruct (IsDead s) eqn:E; intros [|j] [|k] u v Hu Hv Hne Du Dv; simpl in *;
    simplify_eq; try congruence; unfold apart; simpl.
  - apply (IH c ltac:(lia) j k); auto.
  - right. exact (B (c - slot_length s) ltac:(lia) _ _ Hv Dv).
  - left. exact (B (c - slot_length s) ltac:(lia) _ _ Hu Du).
  - apply (IH (c - slot_length s) ltac:(lia) j k); auto.
Qed.
End relocate.

(** What [Compact] does after its slot loop returned [(c, sc, b)]: copy the packed tail
    back, write the header, and poison the freed band in a debug build. *)
Section compact_tail.
Context {host : Host}.
Variables (body : list byte) (c : Z) (sc b : list byte).
Let h := Header body.
Let tds := tuple_data_start h.
Hypothesis W : wf body.
Hypothesis Ec : c = PAGE_BODY_SIZE - live_bytes (slots body).
Hypothesis Lb : len b = PAGE_BODY_SIZE.
Hypothesis Lsc : len sc = PAGE_BODY_SIZE.
Hypothesis Sb : slots_from (Z.to_nat (slot_count h)) 0 b = relocate PAGE_BODY_SIZE (slots body).
Hypothesis T : forall j s r, slots body !! j = Some s ->
  relocate PAGE_BODY_SIZE (slots body) !! j = Some r -> IsDead s = false ->
  slice (slot_offset r) (slot_length r) sc = slice (slot_offset s) (slot_length s) body.
Let h' := mkHeapSubHeader (slot_count h) c (live_count h) 0.
Let tail := slice c (PAGE_BODY_SIZE - c) sc.
Let b2 := WriteHeader h' (patch c tail b).
Let b3 := if ndebug then b2 else patch tds (replicate (Z.to_nat (c - tds)) xdd) b2.

Lemma tail_bounds :
  c = tds + dead_bytes h /\ SlotOffset (slot_count h) <= tds /\ tds <= c <= PAGE_BODY_SIZE /\
  is_u16 (slot_count h) /\ is_u16 (live_count h) /\ 0 <= live_bytes (slots body) /\
  len tail = PAGE_BODY_SIZE - c /\ 0 < tds.
Proof.
  pose proof (wf_dims _ W) as (? & ? & ?). pose proof (wf_live_dead_u16 _ W).
  pose proof (live_bytes_nonneg _ _ (acc_slots _ _ (wf_acc _ W))). wf_facts W.
  unfold tds, h in *. repeat split; try hlia. apply len_slice; hlia.
Qed.

Lemma tail_len2 : len b2 = PAGE_BODY_SIZE.
Proof.
  destruct tail_bounds as (? & ? & ? & ? & ? & ? & ? & ?).
  unfold b2. rewrite length_WriteHeader; rewrite len_patch; hlia.
Qed.

Lemma tail_len : len b3 = PAGE_BODY_SIZE.
Proof.
  destruct tail_bounds as (? & ? & ? & ? & ? & ? & ? & ?). pose proof tail_len2.
  unfold b3. destruct ndebug; [done|]. rewrite len_patch; lens; hlia.
Qed.

Lemma tail_header : Header b3 = h'.
Proof.
  destruct tail_bounds as (? & ? & ? & ? & ? & ? & ? & ?). pose proof tail_len2.
  assert (Header b2 = h').
  { apply Header_WriteHeader; [rewrite len_patch; hlia|].
    unfold HeapSubHeader_wf, h'; simpl; hlia. }
  unfold b3. destruct ndebug; [done|]. rewrite Header_patch by (lens; hlia). done.
Qed.

Lemma tail_slots : slots b3 = relocate PAGE_BODY_SIZE (slots body).
Proof.
  destruct tail_bounds as (? & ? & ? & ? & ? & ? & ? & ?). pose proof tail_len2.
  rewrite <- Sb. unfold slots at 1. rewrite tail_header. cbn [slot_count h'].
  transitivity (slots_n (Z.to_nat (slot_count h)) b2).
  - unfold b3. destruct ndebug; [done|]. apply slots_n_patch; lens; hlia.
  - unfold b2. rewrite slots_n_WriteHeader, slots_n_patch by (rewrite ?len_patch; hlia).
    apply list_eq. intros k. by rewrite lookup_slots_n, lookup_slots_from.
Qed.

(** The packed tail of the scratch buffer is the tuple region of the page. *)
Lemma tail_bytes o k :
  c <= o -> 0 <= k -> o + k <= PAGE_BODY_SIZE -> slice o k b3 = slice o k sc.
Proof.
  destruct tail_bounds as (? & ? & ? & ? & ? & ? & Lt & ?). pose proof tail_len2. intros ???.
  transitivity (slice o k b2).
  - unfold b3. destruct ndebug; [done|]. apply slice_patch_disjoint; lens; hlia.
  - unfold b2. rewrite slice_WriteHeader by (rewrite ?len_patch; hlia).
    replace (slice o k (patch c tail b))
      with (slice (o - c) k (slice c (PAGE_BODY_SIZE - c) (patch c tail b)))
      by (rewrite slice_slice by lia; f_equal; lia).
    rewrite slice_patch_same by hlia. unfold tail. rewrite slice_slice by lia. f_equal. lia.
Qed.

Lemma tail_wf : wf b3.
Proof.
  destruct tail_bounds as (? & ? & ? & ? & ? & ? & Lt & ?). pose proof (wf_acc _ W) as [Acnt Alow Ahigh Aslots Alive Adead Abytes].
  fold h in Acnt, Alow, Ahigh, Aslots, Alive, Adead, Abytes.
  fold tds in Alow, Ahigh, Aslots, Abytes.
  destruct (relocate_live tds ltac:(done) PAGE_BODY_SIZE _ Aslots ltac:(lia)) as [E1 E2].
  constructor; [apply tail_len|constructor|]; rewrite ?tail_header, ?tail_slots; unfold h';
    cbn [slot_count tuple_data_start live_count dead_bytes].
  - lens. lia.
  - lens. lia.
  - lia.
  - rewrite Ec. apply (relocate_ok tds); auto; lia.
  - lia.
  - lia.
  - lia.
  - apply (relocate_disjoint tds); auto. lia.
Qed.

Lemma tail_rows : rows b3 = rows body.
Proof.
  destruct tail_bounds as (? & ? & ? & ? & ? & ? & Lt & ?). pose proof (wf_acc _ W) as [Acnt Alow Ahigh Aslots Alive Adead Abytes].
  fold h in Acnt, Alow, Ahigh, Aslots, Alive, Adead, Abytes.
  fold tds in Alow, Ahigh, Aslots, Abytes.
  unfold rows. rewrite tail_slots. apply list_eq. intros j. rewrite !list_lookup_fmap.
  destruct (relocate PAGE_BODY_SIZE (slots body) !! j) as [r|] eqn:Er; simpl.
  - destruct (relocate_lookup tds ltac:(done) PAGE_BODY_SIZE _ _ _ Aslots ltac:(lia) Er)
      as (s & Es & D1 & D2 & D3 & D4).
    rewrite Es. simpl. unfold tuple_of. rewrite D1. destruct (IsDead s) eqn:Ed; [done|].
    destruct (D4 eq_refl). do 2 f_equal. rewrite <- (T _ _ _ Es Er Ed).
    apply tail_bytes; try lia. rewrite D2. eapply Forall_lookup_1 in Aslots as (_ & ? & _); eauto.
  - apply lookup_ge_None in Er. rewrite length_relocate in Er. by rewrite lookup_ge_None_2.
Qed.
End compact_tail.

(** Compaction in one statement: the invariant is kept, every row is kept at its slot
    index, the garbage is gone and exactly that many bytes moved to the free space. *)
Lemma Compact_spec {host : Host} body :
  wf body ->
  wf (Compact body) /\ rows (Compact body) = rows body /\
  Header (Compact body) =
    mkHeapSubHeader (slot_count (Header body))
      (tuple_data_start (Header body) + dead_bytes (Header body)) (live_count (Header body)) 0.
Proof.
  intros W. unfold Compact. pose proof (wf_dims _ W) as (Lb & Hcnt & Hdims).
  destruct (Z.eqb_spec (dead_bytes (Header body)) 0) as [E0|E0].
  { split; [done|]. split; [done|]. rewrite E0, Z.add_0_r. destruct (Header body); simpl in *; congruence. }
  pose proof (wf_acc _ W) as [Acnt Alow Ahigh Aslots Alive Adead Abytes].
  pose proof (live_bytes_nonneg _ _ Aslots) as Hlb.
  pose proof (Compact_loop_spec (tuple_data_start (Header body)) (Z.to_nat (slot_count (Header body)))
    0 PAGE_BODY_SIZE (indeterminate PAGE_BODY_SIZE) body) as L.
  rewrite slots_from_0 in L. specialize (L Lb ltac:(lens; hlia) ltac:(lia) ltac:(hlia) Aslots
    ltac:(lia) ltac:(lia)).
  destruct (Compact_loop _ _ _ _ _) as [[c sc] b].
  destruct L as (Ec & Lb' & Lsc & S1 & HH & _ & K1 & _ & T).
  rewrite (u16_id c) by hlia.
  split; [by apply tail_wf|]. split; [by apply tail_rows|].
  rewrite tail_header by done. f_equal. lia.
Qed.

(** [Compact] refines the abstract compaction, for every content of the uninitialised
    scratch buffer and in both build modes. *)
Lemma Compact_refines {host : Host} body :
  wf body -> wf (Compact body) /\ abs (Compact body) = a_Compact (abs body).
Proof.
  intros W. destruct (Compact_spec _ W) as (W' & R & H). split; [done|].
  unfold abs, a_Compact; cbn [a_rows]. by rewrite R, H.
Qed.

(** ** Update *)

Lemma WriteSlot_WriteHeader i s h body :
  0 <= i -> SlotOffset (i + 1) <= len body ->
  WriteSlot i s (WriteHeader h body) = WriteHeader h (WriteSlot i s body).
Proof. intros. apply patch_comm; simpl length; hlia. Qed.

Lemma rows_lookup_slot body i s : slots body !! i = Some s -> rows body !! i = Some (tuple_of body s).
Proof. intros H. unfold rows. by rewrite list_lookup_fmap, H. Qed.

(** The common tail of the two growing cases: [t] goes below the low-water mark and slot
    [i], live or just killed, names it. *)
Lemma grow_refines body (i : nat) t r :
  wf body -> slots body !! i = Some r -> 0 < len t <= MAX_TUPLE_SIZE -> len t <= Contiguous body ->
  let h := Header body in
  let h' := mkHeapSubHeader (slot_count h) (u16 (tuple_data_start h - u16 (len t)))
              (live_count h + 1 - live1 r) (dead_bytes h + bytes1 r) in
  let body' := WriteSlot (Z.of_nat i) (mkSlot (tuple_data_start h') (u16 (len t)))
                 (WriteHeader h' (patch (tuple_data_start h') t body)) in
  wf body' /\ Header body' = h' /\ rows body' = <[i := Some t]> (rows body).
Proof.
  intros W Hr Ht Hfit h h' body'. pose proof (lookup_lt_Some _ _ _ Hr) as Hi.
  pose proof (wf_dims _ W) as (D1 & D2 & D3). pose proof (length_slots body) as Ls.
  rewrite Contiguous_abs in Hfit by done. rewrite <- Contiguous_abs in Hfit by done.
  assert (Hroom : HEAP_SUB_HEADER_SIZE + Z.of_nat (Nat.max (length (slots body)) (S i)) * SLOT_SIZE
                    <= tuple_data_start h - len t).
  { unfold Contiguous in Hfit. bcase; unfold h; hlia. }
  pose proof (put_tuple_refines body i t W ltac:(lia) Ht Hroom) as (W' & HH & HR).
  rewrite Hr in W', HH, HR. simpl default in *. rewrite Nat.max_l in W', HH, HR, Hroom by lia.
  rewrite Ls in W', HH, HR. unfold put_tuple in *. cbn [tuple_data_start] in *.
  unfold body', h'. cbn [tuple_data_start]. unfold h in *.
  rewrite (u16_id (len t)) by hlia. rewrite !(u16_id (_ - _)) by hlia.
  rewrite WriteSlot_WriteHeader by (rewrite ?len_patch; hlia).
  split; [done|]. split; [done|]. rewrite HR. unfold place. rewrite length_rows.
  by rewrite decide_True by lia.
Qed.

(** The kill and compaction of the slow path leave slot [i] dead and no garbage. *)
Lemma kill_compact {host : Host} body (i : nat) s :
  wf body -> slots body !! i = Some s -> IsDead s = false ->
  let body' := Compact (shrink i s None body) in
  wf body' /\ rows body' = <[i := None]> (rows body) /\
  Header body' = mkHeapSubHeader (slot_count (Header body))
    (tuple_data_start (Header body) + dead_bytes (Header body) + slot_length s)
    (live_count (Header body) - 1) 0 /\
  (exists r, slots body' !! i = Some r /\ IsDead r = true).
Proof.
  intros W Hs Hl body'. pose proof (shrink_bounds body _ _ None W Hs Hl) as B.
  destruct (wf_slot_ok _ _ _ W Hs) as (_ & ? & _).
  destruct (Compact_spec _ (shrink_wf body i s None W Hs Hl ltac:(simpl; lia))) as (W' & R & H').
  rewrite shrink_rows in R by (done || simpl; lia).
  rewrite shrink_header in H' by (done || simpl; lia). simpl opt_len in *; simpl opt_live in *.
  cbn [slot_count tuple_data_start live_count dead_bytes] in H'.
  split; [done|]. split; [done|]. split; [fold body' in H'; rewrite H'; f_equal; lia|].
  pose proof (lookup_lt_Some _ _ _ Hs) as Hi.
  destruct (lookup_lt_is_Some_2 (slots body') i) as [r Hr].
  { rewrite <- length_rows. fold body' in R. rewrite R. lens. lia. }
  exists r. split; [done|]. apply rows_lookup_slot in Hr. fold body' in R. rewrite R in Hr.
  rewrite list_lookup_insert_eq in Hr by (lens; lia). injection Hr as Hr.
  unfold tuple_of in Hr. by destruct (IsDead r).
Qed.

Section update.
Context {host : Host}.
Variables (i : Z) (t body old : list byte).
Hypothesis W : wf body.
Hypothesis Hi : 0 <= i.
Hypothesis Ht : 0 < len t <= MAX_TUPLE_SIZE.
Hypothesis Hget : Get i body = Ok old.
Let s := SlotAt i body.
Let h := Header body.

Lemma update_facts :
  slots body !! Z.to_nat i = Some s /\ IsDead s = false /\ len old = slot_length s /\
  0 <= slot_length s /\ 0 <= dead_bytes h /\ dead_bytes h + slot_length s <= 4056 /\
  1 <= live_count h <= 1014.
Proof.
  destruct (Get_live _ _ _ W Hi Hget) as (Hs & Hl & Ho & _).
  pose proof (shrink_bounds body _ _ None W Hs Hl) as B. simpl opt_len in B.
  destruct (wf_slot_ok _ _ _ W Hs) as (_ & ? & _). specialize (B ltac:(lia)).
  pose proof (wf_live_dead_u16 _ W). pose proof (wf_slot_bytes _ _ _ W Hs Hl).
  unfold s, h. repeat split; try done; try hlia.
Qed.

Lemma update_in_place :
  len t <= slot_length s ->
  let h' := mkHeapSubHeader (slot_count h) (tuple_data_start h) (live_count h)
              (u16 (dead_bytes h + (slot_length s - len t))) in
  let body' := WriteSlot i (mkSlot (slot_offset s) (len t))
                 (WriteHeader h' (patch (slot_offset s) t body)) in
  wf body' /\ abs body' = mkAPage (<[Z.to_nat i := Some t]> (rows body))
                            (dead_bytes h + (len old - len t)).
Proof.
  intros Hle h' body'. destruct update_facts as (Hs & Hl & Ho & ? & ? & ? & ?).
  pose proof (shrink_wf body _ _ (Some t) W Hs Hl Hle) as W'.
  pose proof (shrink_header body _ _ (Some t) W Hs Hl Hle) as H'.
  pose proof (shrink_rows body _ _ (Some t) W Hs Hl Hle) as R'.
  unfold shrink in W', H', R'. simpl opt_len in *. simpl opt_live in *.
  rewrite Z2Nat.id, Z.sub_add in W', H', R' by lia.
  unfold body', h'. rewrite u16_id by hlia.
  split; [exact W'|]. unfold abs, h, s in *. rewrite H', R'. cbn [dead_bytes]. by rewrite Ho.
Qed.

Lemma update_fast :
  len t <= Contiguous body ->
  let h' := mkHeapSubHeader (slot_count h) (u16 (tuple_data_start h - len t)) (live_count h)
              (u16 (dead_bytes h + slot_length s)) in
  let body' := WriteSlot i (mkSlot (tuple_data_start h') (len t))
                 (WriteHeader h' (patch (tuple_data_start h') t body)) in
  wf body' /\ abs body' = mkAPage (<[Z.to_nat i := Some t]> (rows body)) (dead_bytes h + len old).
Proof.
  intros Hfit h' body'. destruct update_facts as (Hs & Hl & Ho & ? & ? & ? & ?).
  pose proof (grow_refines body _ t _ W Hs Ht Hfit) as (W' & H' & R').
  unfold live1, bytes1 in *. rewrite Hl, Z.add_simpl_r, Z2Nat.id in W', H', R' by lia.
  rewrite (u16_id (len t)) in W', H', R' by hlia.
  unfold body', h'. rewrite (u16_id (_ + _)) by hlia.
  split; [exact W'|]. unfold abs, h, s in *. rewrite H', R'. cbn [dead_bytes]. by rewrite Ho.
Qed.

Lemma update_slow :
  Contiguous body < len t -> len t <= Contiguous body + dead_bytes h + slot_length s ->
  let h1 := mkHeapSubHeader (slot_count h) (tuple_data_start h) (u16 (live_count h - 1))
              (u16 (dead_bytes h + slot_length s)) in
  let b1 := Compact (WriteSlot i (mkSlot 0 0) (WriteHeader h1 body)) in
  let h2 := Header b1 in
  let h' := mkHeapSubHeader (slot_count h2) (u16 (tuple_data_start h2 - len t))
              (u16 (live_count h2 + 1)) (dead_bytes h2) in
  let body' := WriteSlot i (mkSlot (tuple_data_start h') (len t))
                 (WriteHeader h' (patch (tuple_data_start h') t b1)) in
  wf body' /\ abs body' = mkAPage (<[Z.to_nat i := Some t]> (rows body)) 0.
Proof.
  intros Hbig Hfit h1 b1 h2 h' body'. destruct update_facts as (Hs & Hl & Ho & G1 & G2 & G3 & G4).
  assert (E : b1 = Compact (shrink (Z.to_nat i) s None body)).
  { unfold b1, h1, shrink. simpl opt_len; simpl opt_live.
    by rewrite Z2Nat.id, Z.add_0_r, Z.sub_0_r, !u16_id by hlia. }
  clearbody b1. subst b1.
  destruct (kill_compact _ _ _ W Hs Hl) as (W1 & R1 & H1 & r & Hr & Hd).
  set (b1 := Compact _) in *. fold h in H1.
  assert (Hfit' : len t <= Contiguous b1).
  { pose proof (wf_dims _ W) as (? & ? & ?). pose proof (wf_dims _ W1) as (? & ? & ?).
    unfold Contiguous in *. rewrite H1 in *. cbn [slot_count tuple_data_start] in *.
    fold h in Hfit, Hbig. bcase; unfold h in *; hlia. }
  pose proof (grow_refines b1 _ t _ W1 Hr Ht Hfit') as (W' & H' & R').
  unfold live1, bytes1 in *. rewrite Hd, Z.sub_0_r, Z.add_0_r, Z2Nat.id in W', H', R' by lia.
  rewrite (u16_id (len t)) in W', H', R' by hlia.
  assert (El : u16 (live_count h2 + 1) = live_count h2 + 1).
  { apply u16_id. unfold h2. rewrite H1. cbn [live_count]. hlia. }
  unfold body', h'. rewrite El. split; [exact W'|]. unfold abs. unfold h2 in *. rewrite H', R', R1.
  cbn [dead_bytes]. rewrite H1. by rewrite list_insert_insert_eq.
Qed.
End update.

(** [Update] refines the abstract update on all four cases: in place, relocated within
    the page, relocated after a compaction, and a row that does not fit, which leaves the
    page byte for byte as it was. *)
Lemma Update_refines {host : Host} i t body :
  wf body -> 0 <= i ->
  let '(r, body') := Update i t body in
  wf body' /\ (r, abs body') = a_Update i t (abs body) /\ (r <> Ok kSamePage -> body' = body).
Proof.
  intros W Hi. unfold Update, a_Update. rewrite <- Get_abs, <- Contiguous_abs by done.
  destruct (Z.eqb_spec (len t) 0); [done|].
  destruct (Z.ltb_spec MAX_TUPLE_SIZE (len t)); [done|].
  destruct (Get i body) as [old|e] eqn:E; [|done].
  destruct (update_facts i t body old W Hi E) as (Hs & Hl & Ho & _).
  rewrite (u16_id (len t)) by hlia. rewrite Ho.
  change (a_dead (abs body)) with (dead_bytes (Header body)).
  change (a_rows (abs body)) with (rows body).
  destruct (Z.leb_spec (len t) (slot_length (SlotAt i body))) as [C1|C1].
  { destruct (update_in_place i t body old W Hi ltac:(lia) E C1) as [W' ->]. by rewrite Ho. }
  destruct (Z.leb_spec (len t) (Contiguous body)) as [C2|C2].
  { destruct (update_fast i t body old W Hi ltac:(lia) E C2) as [W' ->]. by rewrite Ho. }
  destruct (Z.leb_spec (len t) (Contiguous body + dead_bytes (Header body) +
    slot_length (SlotAt i body))) as [C3|C3]; [|done].
  destruct (update_slow i t body old W Hi ltac:(lia) E C2 C3) as [W' ->]. done.
Qed.
