(* ===== verification/HeapPageTheorems.v ===== *)
(** * What the heap page guarantees its callers

    The claims about HeapPage.v: each operation refines the slot table of
    HeapPageRefine.v on every branch, any sequence of operations from [Init] does, the
    self-check accepts every page so reached, and the frame properties a caller relies on
    (an insert or an update changes the row of one slot and no other). *)

From S2P Require Import Prelude Common HeapPage HeapPageProofs HeapPageRefine.

(** ** Sequences of operations *)

Inductive HeapOp :=
  | OpGet (slot : Z)
  | OpInsert (t : list byte)
  | OpDelete (slot : Z)
  | OpUpdate (slot : Z) (t : list byte)
  | OpCompact.

Inductive HeapOut :=
  | OutGet (r : Result (list byte))
  | OutInsert (r : Result Z)
  | OutDelete (s : Status)
  | OutUpdate (r : Result UpdateOutcome)
  | OutCompact.

(** A slot id is a [uint16_t]. *)
Definition op_wf (o : HeapOp) : Prop :=
  match o with OpGet i | OpDelete i | OpUpdate i _ => is_u16 i | _ => True end.

Section run.
Context {host : Host}.

Definition heap_step (o : HeapOp) (body : list byte) : HeapOut * list byte :=
  match o with
  | OpGet i => (OutGet (Get i body), body)
  | OpInsert t => let '(r, b) := Insert t body in (OutInsert r, b)
  | OpDelete i => let '(r, b) := Delete i body in (OutDelete r, b)
  | OpUpdate i t => let '(r, b) := Update i t body in (OutUpdate r, b)
  | OpCompact => (OutCompact, Compact body)
  end.

Fixpoint heap_run (os : list HeapOp) (body : list byte) : list HeapOut * list byte :=
  match os with
  | [] => ([], body)
  | o :: os =>
      let '(r, body) := heap_step o body in
      let '(rs, body) := heap_run os body in
      (r :: rs, body)
  end.

(** The assertions of a run: those of the reads, and [CheckInvariants] after every mutation,
    refused ones included. *)
Definition step_asserts (o : HeapOp) (body : list byte) : bool :=
  match o with
  | OpGet i => Get_asserts i body
  | _ =>
      let body' := (heap_step o body).2 in
      Contiguous_asserts body && Contiguous_asserts body' && CheckInvariants body'
  end.
Fixpoint run_asserts (os : list HeapOp) (body : list byte) : bool :=
  match os with [] => true | o :: os => step_asserts o body && run_asserts os (heap_step o body).2 end.
End run.

Definition a_step (o : HeapOp) (p : APage) : HeapOut * APage :=
  match o with
  | OpGet i => (OutGet (a_Get i p), p)
  | OpInsert t => let '(r, q) := a_Insert t p in (OutInsert r, q)
  | OpDelete i => let '(r, q) := a_Delete i p in (OutDelete r, q)
  | OpUpdate i t => let '(r, q) := a_Update i t p in (OutUpdate r, q)
  | OpCompact => (OutCompact, a_Compact p)
  end.

Fixpoint a_run (os : list HeapOp) (p : APage) : list HeapOut * APage :=
  match os with
  | [] => ([], p)
  | o :: os =>
      let '(r, p) := a_step o p in
      let '(rs, p) := a_run os p in
      (r :: rs, p)
  end.

(** ** Initialisation *)

Lemma Init_header body : len body = PAGE_BODY_SIZE -> Header (Init body) = HeapSubHeader_default.
Proof.
  intros L. unfold Init. apply Header_WriteHeader; [hlia|]. repeat split; simpl; hlia.
Qed.

Lemma Init_slots body : len body = PAGE_BODY_SIZE -> slots (Init body) = [].
Proof. intros L. unfold slots. by rewrite Init_header. Qed.

Lemma Init_wf body : len body = PAGE_BODY_SIZE -> wf (Init body).
Proof.
  intros L. split.
  - unfold Init. rewrite length_WriteHeader by hlia. done.
  - rewrite Init_header, Init_slots by done. split; simpl; try done; hlia.
  - rewrite Init_slots by done. by intros i j s t Hs.
Qed.

Lemma Init_abs body : len body = PAGE_BODY_SIZE -> abs (Init body) = a_empty.
Proof. intros L. unfold abs, rows. by rewrite Init_header, Init_slots. Qed.

(** ** Steps and runs refine *)

Lemma step_refines {host : Host} o body :
  wf body -> op_wf o ->
  let '(r, body') := heap_step o body in wf body' /\ (r, abs body') = a_step o (abs body).
Proof.
  intros W Ho. destruct o as [i|t|i|i t|]; simpl in *.
  - split; [done|]. rewrite Get_abs; [done | done | unfold_ints; lia].
  - pose proof (Insert_refines t body W) as R. destruct (Insert t body) as [r b].
    destruct R as (W' & E). by rewrite <- E.
  - pose proof (Delete_refines i body W ltac:(unfold_ints; lia)) as R.
    destruct (Delete i body) as [r b]. destruct R as (W' & E). by rewrite <- E.
  - pose proof (Update_refines i t body W ltac:(unfold_ints; lia)) as R.
    destruct (Update i t body) as [r b]. destruct R as (W' & E & _). by rewrite <- E.
  - destruct (Compact_refines body W) as [W' E]. by rewrite E.
Qed.

Lemma run_refines {host : Host} os body :
  wf body -> Forall op_wf os ->
  let '(rs, body') := heap_run os body in wf body' /\ (rs, abs body') = a_run os (abs body).
Proof.
  intros W F. revert body W. induction F as [|o os Ho F IH]; intros body W; [done|]. simpl.
  pose proof (step_refines o body W Ho) as S. destruct (heap_step o body) as [r b].
  destruct S as [W1 S]. specialize (IH b W1). destruct (heap_run os b) as [rs b'].
  destruct IH as [W2 IH]. by rewrite <- S, <- IH.
Qed.

(** A well-formed page fails no assertion. *)
Lemma Contiguous_asserts_wf body : wf body -> Contiguous_asserts body = true.
Proof. intros W. wf_facts W. unfold Contiguous_asserts. apply Z.leb_le. lia. Qed.

Lemma Get_asserts_wf i body : wf body -> 0 <= i -> Get_asserts i body = true.
Proof.
  intros W Hi. unfold Get_asserts. destruct (Z.leb_spec (slot_count (Header body)) i); [done|].
  destruct (wf_slot_ok _ _ _ W (slots_lookup_Z body i ltac:(lia))) as (_ & _ & O).
  destruct (IsDead (SlotAt i body)); [done|]. cbn [orb]. apply Z.leb_le. lia.
Qed.

Lemma run_asserts_wf {host : Host} os body : wf body -> Forall op_wf os -> run_asserts os body = true.
Proof.
  intros W F. revert body W. induction F as [|o os Ho F IH]; intros body W; [done|]. cbn [run_asserts].
  pose proof (step_refines o body W Ho) as S. destruct (heap_step o body) as [r b] eqn:E. destruct S as [W1 _].
  rewrite IH by exact W1. rewrite andb_true_r. unfold step_asserts. rewrite E. cbn [snd].
  rewrite !Contiguous_asserts_wf by done. rewrite (proj2 (CheckInvariants_spec b)) by apply W1.
  destruct o; try done. apply Get_asserts_wf; [done|]. cbn in Ho. unfold_ints. lia.
Qed.

(** ** Frame lemmas on the slot table *)

Lemma a_Get_insert_eq i t p :
  0 <= i < len (a_rows p) -> a_Get i (mkAPage (<[Z.to_nat i := Some t]> (a_rows p)) (a_dead p)) = Ok t.
Proof.
  intros Hi. unfold a_Get; cbn [a_rows]. lens.
  destruct (Z.leb_spec (len (a_rows p)) i); [lia|]. by rewrite list_lookup_insert_eq by lia.
Qed.

Lemma a_Get_rows j p q :
  0 <= j -> len (a_rows p) = len (a_rows q) ->
  a_rows p !! Z.to_nat j = a_rows q !! Z.to_nat j -> a_Get j p = a_Get j q.
Proof. intros ? L E. unfold a_Get. by rewrite L, E. Qed.

Lemma a_Get_Ok i t p : 0 <= i -> a_Get i p = Ok t <-> a_rows p !! Z.to_nat i = Some (Some t).
Proof.
  intros Hi. unfold a_Get. destruct (Z.leb_spec (len (a_rows p)) i).
  - rewrite lookup_ge_None_2 by lia. done.
  - destruct (a_rows p !! Z.to_nat i) as [[u|]|]; split; congruence.
Qed.

Lemma a_Insert_Ok t p i q :
  a_Insert t p = (Ok i, q) ->
  0 <= i <= len (a_rows p) /\ (i < len (a_rows p) -> a_rows p !! Z.to_nat i = Some None) /\
  a_rows q = place (Z.to_nat i) (Some t) (a_rows p).
Proof.
  unfold a_Insert. bcase; try discriminate. intros [= <- <-]. rewrite Nat2Z.id.
  pose proof (a_slot_for_le p). split; [lia|]. split; [|done].
  intros. unfold a_slot_for in *. destruct (first_none (a_rows p)) as [k|] eqn:E; simpl in *; [|lia].
  by apply first_none_lookup in E.
Qed.

Lemma a_Update_same i t p q :
  0 <= i -> a_Update i t p = (Ok kSamePage, q) ->
  0 <= i < len (a_rows p) /\ a_rows q = <[Z.to_nat i := Some t]> (a_rows p).
Proof.
  intros Hi. unfold a_Update. destruct (a_Get i p) as [old|] eqn:E; [|bcase; discriminate].
  apply a_Get_Ok, lookup_lt_Some in E; [|done]. split; [lia|]. revert H.
  bcase; try discriminate; by intros [= <-].
Qed.

Lemma a_Get_place i j x p q :
  0 <= j -> 0 <= i <= len (a_rows p) -> j <> i ->
  a_rows q = place (Z.to_nat i) x (a_rows p) -> a_Get j q = a_Get j p.
Proof.
  intros Hj Hi Hne E. unfold a_Get. rewrite E, length_place, lookup_place by lia.
  rewrite decide_False by lia.
  destruct (Z.leb_spec (len (a_rows p)) j), (Z.leb_spec (Z.of_nat (length (a_rows p) `max` S (Z.to_nat i))) j);
    try done; try lia.
Qed.

Lemma a_Insert_room t p :
  0 < len t <= MAX_TUPLE_SIZE -> len t + SLOT_SIZE <= a_free p ->
  exists i, a_Insert t p = (Ok i, mkAPage (place (Z.to_nat i) (Some t) (a_rows p)) (a_dead p)).
Proof.
  intros Ht Hfit. exists (Z.of_nat (a_slot_for p)). unfold a_Insert. rewrite Nat2Z.id.
  bcase; try hlia; [|done]. case_decide; hlia.
Qed.

(** ** The claims *)

Section claims.
Context {host : Host}.

(** C25: Starting from [Init] on an arbitrary 4064-byte buffer, every sequence of gets,
    inserts, deletes, updates and compactions returns exactly what the slot table returns
    for the same sequence (all error branches included), leaves a page that represents the
    slot table's state, and the page is well formed: live tuples inside the page, disjoint,
    and every byte of the tuple region accounted for as live or dead.  No [assert] of the
    operations fails on the way. *)
Theorem heap_run_refines os body :
  len body = PAGE_BODY_SIZE -> Forall op_wf os ->
  let '(rs, body') := heap_run os (Init body) in
  wf body' /\ (rs, abs body') = a_run os a_empty /\ run_asserts os (Init body) = true.
Proof.
  intros L F. pose proof (run_refines os (Init body) (Init_wf _ L) F) as R. rewrite (Init_abs _ L) in R.
  rewrite run_asserts_wf by (done || by apply Init_wf). destruct (heap_run os (Init body)). by destruct R.
Qed.

(** [Update] on a well-formed page does what the slot table does on all branches:
    argument errors, missing or dead slot, in-place shrink, relocation into free space,
    relocation after a compaction, and [kDoesNotFit]; unless it answers [kSamePage] the page
    is unchanged byte for byte, so a caller that falls back to delete + insert elsewhere
    has lost nothing. *)
Lemma heap_update_refines i t body :
  wf body -> is_u16 i ->
  let '(r, body') := Update i t body in
  wf body' /\ (r, abs body') = a_Update i t (abs body) /\ (r <> Ok kSamePage -> body' = body).
Proof. intros W Hi. apply Update_refines; [done | unfold_ints; lia]. Qed.

(** [Compact] keeps the page well formed and every row at its slot index (no RID is
    invalidated), clears [dead_bytes] and moves [tuple_data_start] up by exactly that
    amount, whatever the uninitialised scratch buffer holds and in debug and release
    builds alike. *)
Lemma heap_compact_preserves_rows body :
  wf body ->
  wf (Compact body) /\ rows (Compact body) = rows body /\
  Header (Compact body) =
    mkHeapSubHeader (slot_count (Header body))
      (tuple_data_start (Header body) + dead_bytes (Header body)) (live_count (Header body)) 0.
Proof. apply Compact_spec. Qed.

(** A tuple that fits in the reclaimable space together with a slot entry can always
    be inserted after a compaction, and is then what its slot reads back. *)
Lemma heap_compact_makes_room t body :
  wf body -> 0 < len t <= MAX_TUPLE_SIZE -> len t + SLOT_SIZE <= Reclaimable body ->
  exists i body', Insert t (Compact body) = (Ok i, body') /\ Get i body' = Ok t.
Proof.
  intros W Ht Hfit. destruct (Compact_refines _ W) as [W1 E1].
  assert (Hroom : len t + SLOT_SIZE <= a_free (abs (Compact body))).
  { rewrite E1. unfold Reclaimable in Hfit. rewrite Contiguous_abs in Hfit by done.
    unfold a_free, a_Compact, abs in *; cbn [a_rows a_dead] in *. lia. }
  destruct (a_Insert_room t _ Ht Hroom) as [i Ei].
  pose proof (Insert_refines t _ W1) as R. rewrite Ei in R.
  destruct (Insert t (Compact body)) as [r b]. destruct R as [W2 [= -> Eb _]].
  exists i, b. split; [done|]. apply a_Insert_Ok in Ei as (Hi & _ & Er).
  rewrite Get_abs by (done || lia). apply a_Get_Ok; [lia|]. unfold abs in *; cbn [a_rows] in *. rewrite Eb.
  rewrite lookup_place by lia. by rewrite decide_True.
Qed.

(** A successful [Insert] takes a slot that held no row, makes it read back the
    inserted bytes, and leaves what every other slot reads back unchanged. *)
Lemma heap_insert_get t body i body' :
  wf body -> Insert t body = (Ok i, body') ->
  Get i body' = Ok t /\ (forall old, Get i body <> Ok old) /\
  (forall j, 0 <= j -> j <> i -> Get j body' = Get j body).
Proof.
  intros W E. pose proof (Insert_refines t _ W) as R. rewrite E in R. destruct R as [W' R].
  symmetry in R. apply a_Insert_Ok in R as (Hi & Hold & Er).
  split; [|split].
  - rewrite Get_abs by (done || lia). apply a_Get_Ok; [lia|]. rewrite Er, lookup_place by lia.
    by rewrite decide_True.
  - intros old Ho. rewrite Get_abs in Ho by (done || lia). apply a_Get_Ok in Ho; [|lia].
    rewrite Hold in Ho; [done|]. apply lookup_lt_Some in Ho. lia.
  - intros j Hj Hne. rewrite !Get_abs by done. eapply a_Get_place; eauto.
Qed.

(** A [kSamePage] update makes its slot read back the new bytes and leaves what every
    other slot reads back unchanged, including when it had to compact the page. *)
Lemma heap_update_get i t body body' :
  wf body -> is_u16 i -> Update i t body = (Ok kSamePage, body') ->
  Get i body' = Ok t /\ (forall j, 0 <= j -> j <> i -> Get j body' = Get j body).
Proof.
  intros W [Hi _] E. pose proof (Update_refines i t _ W Hi) as R. rewrite E in R.
  destruct R as (W' & R & _). symmetry in R. apply a_Update_same in R as (Hb & Er); [|done].
  split.
  - rewrite Get_abs by done. apply a_Get_Ok; [done|]. rewrite Er. by rewrite list_lookup_insert_eq by lia.
  - intros j Hj Hne. rewrite !Get_abs by done. apply a_Get_rows; [done| |].
    + rewrite Er. by lens.
    + rewrite Er. by rewrite list_lookup_insert_ne by lia.
Qed.
End claims.

(** ** Concrete runs *)

Definition blank : list byte := zeros PAGE_BODY_SIZE.
Definition tup (n : Z) (b : byte) : list byte := replicate (Z.to_nat n) b.

(** Two maximum-size tuples on one page, the first deleted, the second shrunk: the next
    large update has to compact. *)
Definition demo_ops : list HeapOp :=
  [OpInsert (tup 2000 x01); OpInsert (tup 2000 x02); OpDelete 0; OpUpdate 1 (tup 10 x03)].

#[local] Existing Instance debug_host.

Definition demo : list byte := snd (heap_run demo_ops (Init blank)).

Lemma demo_ops_wf : Forall op_wf demo_ops.
Proof. repeat constructor; unfold_ints; simpl; lia. Qed.

Lemma demo_wf : wf demo.
Proof.
  pose proof (run_refines demo_ops (Init blank) (Init_wf blank eq_refl) demo_ops_wf) as R.
  unfold demo. destruct (heap_run demo_ops (Init blank)). apply R.
Qed.

(** Witnesses of the claims above, on that page. *)
Lemma heap_run_refines_witness :
  fst (heap_run demo_ops (Init blank)) =
    [OutInsert (Ok 0); OutInsert (Ok 1); OutDelete StatusOK; OutUpdate (Ok kSamePage)] /\
  abs demo = mkAPage [None; Some (tup 10 x03)] 3990.
Proof.
  pose proof (heap_run_refines demo_ops blank eq_refl demo_ops_wf) as R.
  unfold demo. destruct (heap_run demo_ops (Init blank)) as [rs b]. destruct R as (_ & R & _).
  apply (f_equal fst) in R as R1. apply (f_equal snd) in R as R2.
  simpl fst in *. simpl snd in *. rewrite R1, R2. vm_compute. split; reflexivity.
Defined.

(** ** Two tuples at one place *)

(** Two slots that name the same five bytes, with the counters adjusted to match. *)
Definition overlapping : list byte :=
  WriteSlot 0 (mkSlot 4054 5) (WriteSlot 1 (mkSlot 4054 5)
    (WriteHeader (mkHeapSubHeader 2 4054 2 0) blank)).

(** C35: [CheckInvariants] of a heap page checks the accounting, the whole accounting and
    nothing else.  On every page body, garbage included, it accepts exactly when the slot array
    ends before the tuple region and that inside the body, every dead slot is zero, every live
    tuple lies inside the region, and the header's live count and its dead bytes agree with the
    slots.  That does not rule out overlapping tuples, which the comment on the last check
    says fall out of it: two live slots may name the same bytes, when as many bytes of the
    region belong to no tuple and are not counted as dead. *)
Theorem heap_check_decides :
  (forall body, CheckInvariants body = true <-> accounted (Header body) (slots body)) /\
  exists body i j s t, len body = PAGE_BODY_SIZE /\ CheckInvariants body = true /\ i <> j /\
    slots body !! i = Some s /\ slots body !! j = Some t /\ IsDead s = false /\ IsDead t = false /\ ~ apart s t.
Proof.
  split; [exact CheckInvariants_spec|].
  exists overlapping, 0%nat, 1%nat, (mkSlot 4054 5), (mkSlot 4054 5).
  split; [done|]. split; [vm_compute; reflexivity|]. do 5 (split; [vm_compute; congruence|]).
  intros [A|A]; simpl in A; lia.
Qed.
