(* ===== verification/NodeArray.v ===== *)
(** * Fixed-width entry arrays: the common layout of the B+ tree nodes

    src/src/indices/b_plus_tree_page.hpp: the constants, [NodeSubHeader], and the generic
    theory of a node body, an 8-byte sub-header followed by 16-byte entries.  The leaf and
    internal classes share this layout and differ in their entry type, so everything here
    is over a [Codec] of size [NODE_ENTRY_SIZE]. *)

From S2P Require Import Prelude Common.

Definition NODE_SUB_HEADER_SIZE : Z := 8.
Definition NODE_ENTRY_SIZE : Z := 16.
Definition NODE_CAPACITY : Z := u16 ((PAGE_BODY_SIZE - NODE_SUB_HEADER_SIZE) / NODE_ENTRY_SIZE).
Definition NodeEntryOffset (index : Z) : Z := NODE_SUB_HEADER_SIZE + index * NODE_ENTRY_SIZE.
Definition MIN_FANOUT : Z := 3.
Definition LeafMinEntries (leaf_max : Z) : Z := u16 (leaf_max / 2).
Definition InternalMinChildren (internal_max : Z) : Z := u16 ((internal_max + 1) / 2).

Lemma NODE_CAPACITY_eq : NODE_CAPACITY = 253.
Proof. reflexivity. Qed.

Ltac nconsts :=
  change NODE_CAPACITY with 253 in *; 
  unfold NodeEntryOffset, NODE_SUB_HEADER_SIZE, NODE_ENTRY_SIZE, MIN_FANOUT, LeafMinEntries,
    InternalMinChildren in *; unfold_consts.
Ltac nlia := nconsts; unfold_ints; lia.
(** A conjunction of assertions. *)
Ltac asserts := repeat (apply andb_true_intro; split); rewrite ?Z.leb_le, ?Z.ltb_lt, ?Z.eqb_eq; nlia.

(** ** NodeSubHeader *)

Record NodeSubHeader := mkNodeSubHeader { level : Z; count : Z; next_page_id : Z }.

#[export] Instance NodeSubHeader_eq_dec : EqDecision NodeSubHeader.
Proof. solve_decision. Defined.

Definition NodeSubHeader_default : NodeSubHeader := mkNodeSubHeader 0 0 INVALID_PAGE.
Definition NodeSubHeader_ReadFrom (bs : list byte) : NodeSubHeader :=
  mkNodeSubHeader (rd_u 0 2 bs) (rd_u 2 2 bs) (s32 (rd_u 4 4 bs)).
Definition NodeSubHeader_WriteTo (h : NodeSubHeader) : list byte :=
  le_enc 2 (level h) ++ le_enc 2 (count h) ++ le_enc 4 (next_page_id h).
Definition NodeSubHeader_wf (h : NodeSubHeader) : Prop :=
  is_u16 (level h) /\ is_u16 (count h) /\ is_s32 (next_page_id h).

#[export] Instance NodeSubHeader_codec : Codec NodeSubHeader :=
  { csize := NODE_SUB_HEADER_SIZE; cwf := NodeSubHeader_wf;
    cenc := NodeSubHeader_WriteTo; cdec := NodeSubHeader_ReadFrom }.
#[export] Instance NodeSubHeader_laws : CodecLaws NodeSubHeader.
Proof.
  split; [done | done |]. intros h (? & ? & ?).
  unfold cdec, cenc; simpl. unfold NodeSubHeader_ReadFrom, rd_u.
  set (t := NodeSubHeader_WriteTo h).
  field 0 2 t (le_enc 2 (level h)). field 2 2 t (le_enc 2 (count h)).
  field 4 4 t (le_enc 4 (next_page_id h)). autorewrite with codec. by destruct h.
Qed.

(** Reading and writing the sub-header of a body: both classes' [Header()], and the
    [node_sh.WriteTo(body_.first<NODE_SUB_HEADER_SIZE>())] every mutation ends with. *)
Definition Header (body : list byte) : NodeSubHeader :=
  NodeSubHeader_ReadFrom (slice 0 NODE_SUB_HEADER_SIZE body).
Definition WriteHeader (h : NodeSubHeader) (body : list byte) : list byte :=
  patch 0 (NodeSubHeader_WriteTo h) body.
Definition Count (body : list byte) : Z := count (Header body).
Definition Level (body : list byte) : Z := level (Header body).

Definition set_count (n : Z) (h : NodeSubHeader) : NodeSubHeader :=
  mkNodeSubHeader (level h) n (next_page_id h).
Definition set_next (p : Z) (h : NodeSubHeader) : NodeSubHeader :=
  mkNodeSubHeader (level h) (count h) p.

#[global] Arguments Header : simpl never.
#[global] Arguments WriteHeader : simpl never.

(** ** IndexHeader *)

Record IndexHeader := mkIndexHeader {
  root_page_id : Z;
  height : Z;
  leaf_max : Z;
  internal_max : Z;
  ih_reserved : Z
}.

Definition INDEX_HEADER_SIZE : Z := 12.
Definition IndexHeader_default : IndexHeader :=
  mkIndexHeader INVALID_PAGE 0 NODE_CAPACITY NODE_CAPACITY 0.
Definition IndexHeader_dec (bs : list byte) : IndexHeader :=
  mkIndexHeader (s32 (rd_u 0 4 bs)) (rd_u 4 2 bs) (rd_u 6 2 bs) (rd_u 8 2 bs) (rd_u 10 2 bs).
Definition IndexHeader_enc (h : IndexHeader) : list byte :=
  le_enc 4 (root_page_id h) ++ le_enc 2 (height h) ++ le_enc 2 (leaf_max h)
    ++ le_enc 2 (internal_max h) ++ le_enc 2 (ih_reserved h).
Definition IndexHeader_wf (h : IndexHeader) : Prop :=
  is_s32 (root_page_id h) /\ is_u16 (height h) /\ is_u16 (leaf_max h) /\
  is_u16 (internal_max h) /\ is_u16 (ih_reserved h).
(** [ReadFrom]/[WriteTo] take the whole page body and use its first 12 bytes. *)
Definition IndexHeader_ReadFrom (body : list byte) : IndexHeader :=
  IndexHeader_dec (slice 0 INDEX_HEADER_SIZE body).
Definition IndexHeader_WriteTo (h : IndexHeader) (body : list byte) : list byte :=
  patch 0 (IndexHeader_enc h) body.

#[export] Instance IndexHeader_codec : Codec IndexHeader :=
  { csize := INDEX_HEADER_SIZE; cwf := IndexHeader_wf;
    cenc := IndexHeader_enc; cdec := IndexHeader_dec }.
#[export] Instance IndexHeader_laws : CodecLaws IndexHeader.
Proof.
  split; [done | done |]. intros h (? & ? & ? & ? & ?).
  unfold cdec, cenc; simpl. unfold IndexHeader_dec, rd_u. set (t := IndexHeader_enc h).
  field 0 4 t (le_enc 4 (root_page_id h)). field 4 2 t (le_enc 2 (height h)).
  field 6 2 t (le_enc 2 (leaf_max h)). field 8 2 t (le_enc 2 (internal_max h)).
  field 10 2 t (le_enc 2 (ih_reserved h)). autorewrite with codec. by destruct h.
Qed.

Lemma IndexHeader_roundtrip h body :
  INDEX_HEADER_SIZE <= len body -> IndexHeader_wf h ->
  IndexHeader_ReadFrom (IndexHeader_WriteTo h body) = h.
Proof. intros. refine (get_put_at 0 h body _ _ _); simpl; try done; lia. Qed.

(** ** Node bodies as a sub-header and a sequence of entries *)

Section layout.
Context {E : Type} `{CE : Codec E, !CodecLaws E}.
Hypothesis entry_size : csize E = NODE_ENTRY_SIZE.
Implicit Types (e : E) (es : list E) (h : NodeSubHeader) (rest body : list byte).

Definition entry_at (index : Z) body : E := cdec (slice (NodeEntryOffset index) NODE_ENTRY_SIZE body).
Definition put_entry (index : Z) e body : list byte := patch (NodeEntryOffset index) (cenc e) body.

Definition enc_all es : list byte := concat (cenc <$> es).
Definition layout h es rest : list byte := cenc h ++ enc_all es ++ rest.

Lemma length_cenc e : length (cenc e) = 16%nat.
Proof. pose proof (cenc_len e) as H. rewrite entry_size in H. nlia. Qed.

Lemma length_enc_all es : len (enc_all es) = NODE_ENTRY_SIZE * len es.
Proof.
  unfold enc_all. induction es as [|e es IH]; [done|]. csimpl. lens.
  rewrite length_cenc. nlia.
Qed.

Lemma enc_all_app es es' : enc_all (es ++ es') = enc_all es ++ enc_all es'.
Proof. unfold enc_all. by rewrite fmap_app, concat_app. Qed.

Lemma enc_all_cons e es : enc_all (e :: es) = cenc e ++ enc_all es.
Proof. done. Qed.

Lemma length_layout h es rest : len (layout h es rest) = NodeEntryOffset (len es) + len rest.
Proof.
  unfold layout. lens. pose proof (length_enc_all es). pose proof (cenc_len h : len (cenc h) = 8). nlia.
Qed.

(** The prefix up to the end of [es]. *)
Lemma length_prefix h es : len (cenc h ++ enc_all es) = NodeEntryOffset (len es).
Proof. pose proof (length_layout h es []) as H. unfold layout in H. rewrite app_nil_r in H. simpl (len []) in H. lia. Qed.

Lemma layout_app h es es' rest : layout h (es ++ es') rest = layout h es (enc_all es' ++ rest).
Proof. unfold layout. by rewrite enc_all_app, <- app_assoc. Qed.

Lemma layout_cons_rest h es e rest : layout h es (cenc e ++ rest) = layout h (es ++ [e]) rest.
Proof. rewrite layout_app. unfold enc_all. simpl. by rewrite app_nil_r. Qed.

Lemma Header_layout h es rest : NodeSubHeader_wf h -> Header (layout h es rest) = h.
Proof.
  intros W. unfold Header, layout.
  rewrite slice_app_l, slice_full by done. exact (cdec_enc h W).
Qed.

Lemma WriteHeader_layout h h' es rest : WriteHeader h' (layout h es rest) = layout h' es rest.
Proof. unfold WriteHeader, layout. by apply patch_0. Qed.

Lemma patch_layout h es bs b rest :
  length bs = length b ->
  patch (NodeEntryOffset (len es)) bs (layout h es (b ++ rest)) = layout h es (bs ++ rest).
Proof.
  intros L. unfold layout. rewrite !(app_assoc (cenc h)).
  apply patch_mid; [symmetry; apply length_prefix|done].
Qed.

Lemma slice_layout h es n b rest :
  n = len b -> slice (NodeEntryOffset (len es)) n (layout h es (b ++ rest)) = b.
Proof.
  intros ->. unfold layout. rewrite (app_assoc (cenc h)).
  apply slice_mid; [symmetry; apply length_prefix|done].
Qed.

Lemma entry_at_layout h es rest i e :
  es !! i = Some e -> cwf e -> entry_at (Z.of_nat i) (layout h es rest) = e.
Proof.
  intros Hi We. unfold entry_at. rewrite (take_drop_lookup _ _ _ Hi), layout_app, enc_all_cons, <- app_assoc.
  apply lookup_lt_Some in Hi.
  replace (Z.of_nat i) with (len (take i es)) by (lens; lia).
  rewrite slice_layout; [by apply cdec_enc|]. rewrite length_cenc. done.
Qed.

Lemma put_entry_layout h es rest i e :
  (i < length es)%nat -> put_entry (Z.of_nat i) e (layout h es rest) = layout h (<[i := e]> es) rest.
Proof.
  intros Hi. destruct (lookup_lt_is_Some_2 es i Hi) as [o Ho]. unfold put_entry.
  rewrite insert_take_drop by done.
  rewrite (take_drop_lookup _ _ _ Ho) at 1. rewrite !layout_app, !enc_all_cons, <- !app_assoc.
  replace (Z.of_nat i) with (len (take i es)) by (lens; lia).
  apply patch_layout. by rewrite !length_cenc.
Qed.

(** Overwriting the first 16 bytes past the entries appends an entry. *)
Lemma put_entry_end h es b rest e :
  length b = 16%nat -> put_entry (len es) e (layout h es (b ++ rest)) = layout h (es ++ [e]) rest.
Proof.
  intros L. unfold put_entry. rewrite patch_layout by by rewrite length_cenc.
  apply layout_cons_rest.
Qed.

(** ** The byte-level operations

    The two classes' [InsertAt], [RemoveAt] and [Assign] are the same code over their own
    entry type; these are that code, and the class files' definitions unfold to them. *)

Definition insert_at (index : Z) e body : list byte :=
  let N := Count body in
  let body := memmove (NodeEntryOffset (u16 (index + 1))) (NodeEntryOffset index)
                ((N - index) * NODE_ENTRY_SIZE) body in
  let body := put_entry index e body in
  let node_sh := Header body in
  WriteHeader (set_count (u16 (count node_sh + 1)) node_sh) body.

Definition remove_at (index : Z) body : list byte :=
  let N := Count body in
  let body := memmove (NodeEntryOffset index) (NodeEntryOffset (u16 (index + 1)))
                ((N - index - 1) * NODE_ENTRY_SIZE) body in
  let body := memset0 (NodeEntryOffset (u16 (N - 1))) NODE_ENTRY_SIZE body in
  let node_sh := Header body in
  WriteHeader (set_count (u16 (count node_sh - 1)) node_sh) body.

(** The loop [for (it = first; ...) entries[it].WriteTo(...)]. *)
Fixpoint write_entries (it : Z) es body : list byte :=
  match es with
  | [] => body
  | e :: es => write_entries (it + 1) es (put_entry (u16 it) e body)
  end.

Definition finish_assign (size : Z) body : list byte :=
  let tail := NodeEntryOffset (u16 size) in
  let body := memset0 tail (NodeEntryOffset NODE_CAPACITY - tail) body in
  let node_sh := Header body in
  WriteHeader (set_count (u16 size) node_sh) body.

(** The copy loops [for (it = first; it < first + n; it++) temp[...] = EntryAt(it)]. *)
Definition read_entries (first n : Z) body : list E := (fun i => entry_at i body) <$> seqZ first n.

(** ** Canonical nodes: every byte past the entries is zero, up to the capacity *)

Definition padding (n : Z) : list byte := zeros (NODE_ENTRY_SIZE * (NODE_CAPACITY - n)).
Definition node h es (tail : list byte) : list byte := layout h es (padding (len es) ++ tail).

Record node_ok h es (tail : list byte) : Prop := {
  nok_header : NodeSubHeader_wf h;
  nok_count : count h = len es;
  nok_cap : len es <= NODE_CAPACITY;
  nok_entries : Forall cwf es;
  nok_tail : len tail = 8
}.

Lemma padding_S n : n < NODE_CAPACITY -> padding n = zeros 16 ++ padding (n + 1).
Proof.
  intros. unfold padding, zeros. rewrite <- replicate_add. f_equal. nlia.
Qed.

Lemma length_padding n : length (padding n) = Z.to_nat (NODE_ENTRY_SIZE * (NODE_CAPACITY - n)).
Proof. apply length_zeros. Qed.

Lemma length_node h es tail : node_ok h es tail -> len (node h es tail) = PAGE_BODY_SIZE.
Proof.
  intros []. unfold node. rewrite length_layout, length_app, length_padding. nlia.
Qed.

Lemma Header_node h es tail : node_ok h es tail -> Header (node h es tail) = h.
Proof. intros []. by apply Header_layout. Qed.

Lemma Count_node h es tail : node_ok h es tail -> Count (node h es tail) = len es.
Proof. intros K. unfold Count. rewrite Header_node by done. apply K. Qed.

Lemma entry_at_node h es tail i e :
  node_ok h es tail -> es !! i = Some e -> entry_at (Z.of_nat i) (node h es tail) = e.
Proof.
  intros K Hi. apply entry_at_layout; [done|]. eapply Forall_lookup_1; [apply K|done].
Qed.

Lemma read_entries_node h es tail (i n : nat) :
  node_ok h es tail -> (i + n <= length es)%nat ->
  read_entries (Z.of_nat i) (Z.of_nat n) (node h es tail) = take n (drop i es).
Proof.
  intros K Hn. unfold read_entries. apply list_eq. intros j.
  rewrite list_lookup_fmap. destruct (decide (j < n)%nat).
  - rewrite lookup_seqZ_lt by lia. rewrite lookup_take_lt, lookup_drop by lia. simpl.
    destruct (lookup_lt_is_Some_2 es (i + j)) as [e He]; [lia|]. rewrite He.
    f_equal. rewrite <- Nat2Z.inj_add. by apply entry_at_node.
  - rewrite lookup_seqZ_ge by lia. rewrite lookup_take_ge by lia. done.
Qed.

Lemma node_ok_set h es es' tail :
  node_ok h es tail -> len es' <= NODE_CAPACITY -> Forall cwf es' ->
  node_ok (set_count (len es') h) es' tail.
Proof.
  intros [[? []] ???] ??. split; try done. repeat split; simpl; try apply H0; nlia.
Qed.

(** ** Exact effect of each operation on a canonical node *)

(** Shift a tail of entries right by one slot. *)
Lemma shift_right h l1 l2 b rest :
  length b = 16%nat ->
  exists x, length x = 16%nat /\
    memmove (NodeEntryOffset (len l1 + 1)) (NodeEntryOffset (len l1)) (len l2 * NODE_ENTRY_SIZE)
      (layout h l1 (enc_all l2 ++ b ++ rest)) = layout h l1 (x ++ enc_all l2 ++ rest).
Proof.
  intros Lb. pose proof (length_enc_all l2) as L2.
  exists (take 16 (enc_all l2 ++ b)). split; [rewrite length_take, length_app; lia|].
  unfold memmove. rewrite slice_layout by nlia.
  rewrite (app_assoc (enc_all l2)), <- (take_drop 16 (enc_all l2 ++ b)) at 1.
  unfold layout. rewrite <- !app_assoc, !(app_assoc (cenc h)), !(app_assoc _ (take 16 _)).
  apply patch_mid.
  - pose proof (length_prefix h l1). rewrite length_app, length_take, !length_app in *. nlia.
  - rewrite length_drop, length_app. lia.
Qed.

(** Shift a tail of entries left by one slot. *)
Lemma shift_left h l1 o l2 rest :
  exists x, length x = 16%nat /\
    memmove (NodeEntryOffset (len l1)) (NodeEntryOffset (len l1 + 1)) (len l2 * NODE_ENTRY_SIZE)
      (layout h l1 (enc_all (o :: l2) ++ rest)) = layout h l1 (enc_all l2 ++ x ++ rest).
Proof.
  pose proof (length_enc_all l2) as L2. pose proof (length_cenc o) as Lo.
  set (k := length (enc_all l2)). exists (drop k (enc_all (o :: l2))).
  split; [rewrite enc_all_cons, length_drop, length_app; lia|].
  assert (Eo : layout h l1 (enc_all (o :: l2) ++ rest) = layout h (l1 ++ [o]) (enc_all l2 ++ rest)).
  { by rewrite enc_all_cons, <- app_assoc, layout_cons_rest. }
  unfold memmove. rewrite Eo at 1.
  replace (len l1 + 1) with (len (l1 ++ [o])) by (lens; simpl; lia).
  rewrite slice_layout by nlia.
  rewrite <- (take_drop k (enc_all (o :: l2))) at 1.
  rewrite <- app_assoc. apply patch_layout.
  rewrite enc_all_cons, length_take, length_app. lia.
Qed.

Lemma insert_at_node h l1 l2 tail e :
  node_ok h (l1 ++ l2) tail -> len (l1 ++ l2) < NODE_CAPACITY ->
  insert_at (len l1) e (node h (l1 ++ l2) tail) =
    node (set_count (len (l1 ++ e :: l2)) h) (l1 ++ e :: l2) tail.
Proof.
  intros K Hc. unfold insert_at; cbv zeta. rewrite Count_node by done.
  set (n := len (l1 ++ l2)) in *. assert (Hn : n = len l1 + len l2) by (unfold n; lens; lia).
  replace (n - len l1) with (len l2) by lia. rewrite (u16_id (len l1 + 1)) by nlia.
  unfold node at 1 2 3. fold n. rewrite padding_S, <- app_assoc, layout_app by done.
  destruct (shift_right h l1 l2 (zeros 16) (padding (n + 1) ++ tail) eq_refl) as (x & Lx & ->).
  rewrite put_entry_end by done. rewrite Header_layout, WriteHeader_layout by apply K.
  rewrite (nok_count _ _ _ K), u16_id by nlia. rewrite <- layout_app, <- app_assoc. simpl app.
  replace (len (l1 ++ e :: l2)) with (n + 1) by (lens; simpl; lia).
  unfold node. do 3 f_equal. lens. simpl. lia.
Qed.

Lemma remove_at_node h l1 o l2 tail :
  node_ok h (l1 ++ o :: l2) tail ->
  remove_at (len l1) (node h (l1 ++ o :: l2) tail) = node (set_count (len (l1 ++ l2)) h) (l1 ++ l2) tail.
Proof.
  intros K. unfold remove_at; cbv zeta. rewrite Count_node by done. pose proof (nok_cap _ _ _ K) as Hc.
  set (n := len (l1 ++ o :: l2)) in *.
  assert (Hn : n = len l1 + len l2 + 1) by (unfold n; lens; simpl; lia).
  replace (n - len l1 - 1) with (len l2) by lia. rewrite (u16_id (len l1 + 1)), (u16_id (n - 1)) by nlia.
  unfold node at 1 2 3. fold n. rewrite layout_app.
  destruct (shift_left h l1 o l2 (padding n ++ tail)) as (x & Lx & ->).
  rewrite <- layout_app. replace (n - 1) with (len (l1 ++ l2)) by (lens; lia).
  unfold memset0. rewrite patch_layout by by rewrite Lx.
  rewrite Header_layout, WriteHeader_layout by apply K.
  rewrite (nok_count _ _ _ K), u16_id by nlia. fold n. replace (n - 1) with (len (l1 ++ l2)) by (lens; lia).
  unfold node. f_equal. rewrite app_assoc. f_equal.
  rewrite (padding_S (len (l1 ++ l2))) by (lens; lia). do 2 f_equal. lens. lia.
Qed.

(** Whatever the body holds, it is a sub-header followed by something. *)
Lemma NodeSubHeader_bytes bs :
  len bs = NODE_SUB_HEADER_SIZE -> NodeSubHeader_WriteTo (NodeSubHeader_ReadFrom bs) = bs.
Proof.
  intros H. unfold NODE_SUB_HEADER_SIZE in H.
  unfold NodeSubHeader_WriteTo, NodeSubHeader_ReadFrom; cbn [level count next_page_id].
  rewrite le_enc_s32. change 4%nat with (Z.to_nat 4). change 2%nat with (Z.to_nat 2).
  rewrite !le_enc_rd_u by lia.
  do 8 (destruct bs as [|? bs]; [cbn [length] in H; lia|]).
  destruct bs; [done|cbn [length] in H; lia].
Qed.

Lemma body_layout body :
  NODE_SUB_HEADER_SIZE <= len body -> body = layout (Header body) [] (drop 8 body).
Proof.
  intros H. unfold layout, Header.
  change (cenc (NodeSubHeader_ReadFrom ?b)) with (NodeSubHeader_WriteTo (NodeSubHeader_ReadFrom b)).
  rewrite NodeSubHeader_bytes by (apply len_slice; nlia).
  symmetry. exact (take_drop 8 body).
Qed.

Lemma Header_wf body : NodeSubHeader_wf (Header body).
Proof.
  unfold Header, NodeSubHeader_ReadFrom. repeat split; simpl;
    first [apply rd_u16 | apply s32_range].
Qed.

Lemma write_entries_layout h l es rest it :
  it = len l -> len l + len es <= NODE_CAPACITY -> NODE_ENTRY_SIZE * len es <= len rest ->
  write_entries it es (layout h l rest) =
    layout h (l ++ es) (drop (Z.to_nat (NODE_ENTRY_SIZE * len es)) rest).
Proof.
  revert l rest it. induction es as [|e es IH]; intros l rest it -> Hc Hr; simpl.
  - by rewrite app_nil_r.
  - simpl length in *. rewrite u16_id by nlia. rewrite <- (take_drop 16 rest) at 1.
    rewrite put_entry_end by (rewrite length_take; nlia).
    rewrite IH by (lens; simpl; nlia). rewrite <- app_assoc, drop_drop. do 2 f_equal. nlia.
Qed.

(** [Assign]'s common part, from any body: the entries, zeros up to the capacity, and the
    sub-header with only its count changed. *)
Lemma finish_assign_layout h es rest :
  NodeSubHeader_wf h -> len es <= NODE_CAPACITY -> len (layout h es rest) = PAGE_BODY_SIZE ->
  finish_assign (len es) (layout h es rest) =
    node (set_count (len es) h) es (drop (Z.to_nat (NODE_ENTRY_SIZE * (NODE_CAPACITY - len es))) rest).
Proof.
  intros W Hc L. unfold finish_assign; cbv zeta. rewrite u16_id by nlia. rewrite length_layout in L.
  set (k := NODE_ENTRY_SIZE * (NODE_CAPACITY - len es)).
  assert (Hk : NodeEntryOffset NODE_CAPACITY - NodeEntryOffset (len es) = k) by (unfold k; nlia).
  assert (0 <= k <= len rest) by (unfold k in *; nlia). rewrite Hk.
  rewrite <- (take_drop (Z.to_nat k) rest) at 1 2. unfold memset0.
  rewrite patch_layout by (rewrite length_zeros, length_take; lia).
  rewrite Header_layout, WriteHeader_layout by done. done.
Qed.

Lemma assign_body es body :
  len body = PAGE_BODY_SIZE -> len es <= NODE_CAPACITY ->
  finish_assign (len es) (write_entries 0 es body) =
    node (set_count (len es) (Header body)) es (drop 4056 body).
Proof.
  intros L Hc. rewrite (body_layout body) at 1 by nlia.
  assert (Lr : len (drop 8 body) = 4056) by (lens; nlia).
  rewrite write_entries_layout by (simpl; nlia). simpl app.
  rewrite finish_assign_layout; [|apply Header_wf|done|].
  - rewrite !drop_drop. do 2 f_equal. nlia.
  - rewrite length_layout. rewrite !length_drop in *. nlia.
Qed.
End layout.

(** ** Binary search

    The loop both classes run, over any test on the index: [p] is the test that moves the
    lower bound past [mid].  The gap shrinks at every turn, so a fuel of [hi - lo] is
    enough. *)
Fixpoint bsearch (fuel : nat) (p : Z -> bool) (lo hi : Z) : Z :=
  match fuel with
  | O => lo
  | S fuel =>
      if lo <? hi then
        let mid := u16 (lo + (hi - lo) / 2) in
        if p mid then bsearch fuel p (u16 (mid + 1)) hi else bsearch fuel p lo mid
      else lo
  end.

Lemma bsearch_spec fuel p lo hi :
  0 <= lo <= hi -> hi < 2 ^ 16 -> hi - lo <= Z.of_nat fuel ->
  (forall i j, lo <= i -> i < j -> j < hi -> p j = true -> p i = true) ->
  let r := bsearch fuel p lo hi in
  lo <= r <= hi /\ (forall i, lo <= i < r -> p i = true) /\ (forall i, r <= i < hi -> p i = false).
Proof.
  revert lo hi. induction fuel as [|fuel IH]; intros lo hi Hl Hw Hf Hm; simpl.
  { repeat split; try intros; lia. }
  destruct (Z.ltb_spec lo hi); [|repeat split; try intros; lia].
  set (mid := lo + (hi - lo) / 2). assert (lo <= mid < hi) by (unfold mid; lia).
  rewrite (u16_id mid) by (unfold_ints; lia). destruct (p mid) eqn:P.
  - rewrite u16_id by (unfold_ints; lia).
    destruct (IH (mid + 1) hi) as (B & T & F); try lia; [intros; apply (Hm i j); lia || done|].
    split; [lia|]. split; [|done]. intros i Hi.
    destruct (decide (i <= mid)) as [Hc|]; [|apply T; lia].
    destruct (decide (i = mid)) as [->|]; [done|]. apply (Hm i mid); lia || done.
  - destruct (IH lo mid) as (B & T & F); try lia; [intros; apply (Hm i j); lia || done|].
    split; [lia|]. split; [done|]. intros i Hi.
    destruct (decide (i < mid)); [apply F; lia|].
    destruct (p i) eqn:Pi; [|done]. destruct (decide (i = mid)) as [->|]; [congruence|].
    rewrite (Hm mid i) in P; lia || done.
Qed.

(** Turns beyond the width of the interval are not taken. *)
Lemma bsearch_enough fuel n p lo hi :
  0 <= lo -> hi < 2 ^ 16 -> hi - lo <= Z.of_nat fuel -> bsearch (fuel + n) p lo hi = bsearch fuel p lo hi.
Proof.
  revert lo hi. induction fuel as [|fuel IH]; intros lo hi Hl Hw Hf.
  - destruct n as [|n]; [done|]. cbn. destruct (Z.ltb_spec lo hi); [lia|done].
  - cbn [bsearch Nat.add]. destruct (Z.ltb_spec lo hi); [|done]. set (mid := lo + (hi - lo) / 2). assert (lo <= mid < hi) by (unfold mid; lia).
    rewrite (u16_id mid) by (unfold_ints; lia). destruct (p mid); [|apply IH; lia]. rewrite u16_id by (unfold_ints; lia). apply IH; lia.
Qed.
