(* ===== verification/LeafNode.v ===== *)
(** * Leaf nodes: [ConstLeafNode]/[LeafNode], [SplitLeaf], [RotateLeaf*], [MergeLeaf]

    src/src/indices/b_plus_tree_page.hpp and b_plus_tree_page.cpp.  A leaf body is a
    [list byte]; a read-only member is a function of it, a mutating one returns the new
    body, and the structural operations take and return both bodies.  The [assert]s an
    operation runs, those of the members it calls included, are its boolean [*_asserts]; the
    tree stops where they are false (BPlusTree.v). *)

From S2P Require Import Prelude Common NodeArray.

Record LeafEntry := mkLeafEntry { key : Z; rid : RID }.

#[export] Instance LeafEntry_eq_dec : EqDecision LeafEntry.
Proof. solve_decision. Defined.

Definition LeafEntry_ReadFrom (bs : list byte) : LeafEntry :=
  mkLeafEntry (s64 (rd_u 0 8 bs)) (mkRID (s32 (rd_u 8 4 bs)) (rd_u 12 2 bs)).

(** Field by field over zeroed bytes: the two padding bytes of [RID] are written as zero. *)
Definition LeafEntry_WriteTo (e : LeafEntry) : list byte :=
  let bytes := memset0 0 NODE_ENTRY_SIZE (zeros NODE_ENTRY_SIZE) in
  let bytes := patch 0 (le_enc 8 (key e)) bytes in
  let bytes := patch 8 (le_enc 4 (rid_page_id (rid e))) bytes in
  patch 12 (le_enc 2 (rid_slot (rid e))) bytes.

Definition LeafEntry_wf (e : LeafEntry) : Prop :=
  is_s64 (key e) /\ is_s32 (rid_page_id (rid e)) /\ is_u16 (rid_slot (rid e)).

#[export] Instance LeafEntry_codec : Codec LeafEntry :=
  { csize := NODE_ENTRY_SIZE; cwf := LeafEntry_wf;
    cenc := LeafEntry_WriteTo; cdec := LeafEntry_ReadFrom }.
#[export] Instance LeafEntry_laws : CodecLaws LeafEntry.
Proof.
  split; [done | done |]. intros e (? & ? & ?).
  unfold cdec, cenc; simpl. unfold LeafEntry_ReadFrom, rd_u. set (t := LeafEntry_WriteTo e).
  field 0 8 t (le_enc 8 (key e)). field 8 4 t (le_enc 4 (rid_page_id (rid e))).
  field 12 2 t (le_enc 2 (rid_slot (rid e))). autorewrite with codec. by destruct e as [? []].
Qed.

(** ** Reads *)

Definition EntryAt (index : Z) (body : list byte) : LeafEntry :=
  LeafEntry_ReadFrom (slice (NodeEntryOffset index) NODE_ENTRY_SIZE body).
Definition KeyAt (index : Z) (body : list byte) : Z := key (EntryAt index body).
Definition EntryAt_asserts (index : Z) (body : list byte) : bool :=
  (index <? Count body) && (index <? NODE_CAPACITY).
Definition NextLeaf (body : list byte) : Z := next_page_id (Header body).

Fixpoint LowerBound_loop (fuel : nat) (k : Z) (body : list byte) (lo hi : Z) : Z :=
  match fuel with
  | O => lo
  | S fuel =>
      if lo <? hi then
        let mid := u16 (lo + (hi - lo) / 2) in
        if KeyAt mid body <? k then LowerBound_loop fuel k body (u16 (mid + 1)) hi
        else LowerBound_loop fuel k body lo mid
      else lo
  end.

Definition LowerBound (k : Z) (body : list byte) : Z :=
  LowerBound_loop (Z.to_nat (Count body)) k body 0 (Count body).

(** The entries the search reads. *)
Fixpoint LowerBound_reads (fuel : nat) (k : Z) (body : list byte) (lo hi : Z) : bool :=
  match fuel with
  | O => true
  | S fuel =>
      if lo <? hi then
        let mid := u16 (lo + (hi - lo) / 2) in
        EntryAt_asserts mid body &&
        if KeyAt mid body <? k then LowerBound_reads fuel k body (u16 (mid + 1)) hi
        else LowerBound_reads fuel k body lo mid
      else true
  end.
Definition LowerBound_asserts (k : Z) (body : list byte) : bool :=
  LowerBound_reads (Z.to_nat (Count body)) k body 0 (Count body).

(** The entry loop of [CheckInvariants], [n] iterations from [i]. *)
Fixpoint CheckInvariants_loop (n : nat) (i : Z) (body : list byte) : bool :=
  match n with
  | O => true
  | S n =>
      let entry := EntryAt i body in
      if negb (isValid (rid entry)) then false
      else if (0 <? i) && (key entry <=? key (EntryAt (u16 (i - 1)) body)) then false
      else CheckInvariants_loop n (i + 1) body
  end.

Definition CheckInvariants (body : list byte) : bool :=
  let header := Header body in
  if NODE_CAPACITY <? count header then false
  else if negb (level header =? 0) then false
  else if negb (next_page_id header =? INVALID_PAGE) && (next_page_id header <=? CATALOG_ROOT_PAGE_ID)
  then false
  else CheckInvariants_loop (Z.to_nat (count header)) 0 body.

(** ** Mutations *)

Definition Init (body : list byte) : list byte :=
  WriteHeader (mkNodeSubHeader 0 0 INVALID_PAGE) body.

Definition SetNextLeaf (next : Z) (body : list byte) : list byte :=
  let node_sh := Header body in
  WriteHeader (mkNodeSubHeader (level node_sh) (count node_sh) next) body.

Definition InsertAt_asserts (index : Z) (body : list byte) : bool :=
  (Count body <? NODE_CAPACITY) && (index <=? Count body).
Definition InsertAt (index : Z) (entry : LeafEntry) (body : list byte) : list byte :=
  let N := Count body in
  let body := memmove (NodeEntryOffset (u16 (index + 1))) (NodeEntryOffset index)
                ((N - index) * NODE_ENTRY_SIZE) body in
  let body := patch (NodeEntryOffset index) (LeafEntry_WriteTo entry) body in
  let node_sh := Header body in
  WriteHeader (mkNodeSubHeader (level node_sh) (u16 (count node_sh + 1)) (next_page_id node_sh)) body.

Definition RemoveAt_asserts (index : Z) (body : list byte) : bool :=
  (Count body <=? NODE_CAPACITY) && (index <? Count body).
Definition RemoveAt (index : Z) (body : list byte) : list byte :=
  let N := Count body in
  let body := memmove (NodeEntryOffset index) (NodeEntryOffset (u16 (index + 1)))
                ((N - index - 1) * NODE_ENTRY_SIZE) body in
  let body := memset0 (NodeEntryOffset (u16 (N - 1))) NODE_ENTRY_SIZE body in
  let node_sh := Header body in
  WriteHeader (mkNodeSubHeader (level node_sh) (u16 (count node_sh - 1)) (next_page_id node_sh)) body.

(** The write loop of [Assign], from index [it]. *)
Fixpoint Assign_loop (it : Z) (entries : list LeafEntry) (body : list byte) : list byte :=
  match entries with
  | [] => body
  | e :: entries =>
      Assign_loop (it + 1) entries (patch (NodeEntryOffset (u16 it)) (LeafEntry_WriteTo e) body)
  end.

Definition Assign (entries : list LeafEntry) (body : list byte) : list byte :=
  let body := Assign_loop 0 entries body in
  let tail := NodeEntryOffset (u16 (len entries)) in
  let body := memset0 tail (NodeEntryOffset NODE_CAPACITY - tail) body in
  let node_sh := Header body in
  WriteHeader (mkNodeSubHeader (level node_sh) (u16 (len entries)) (next_page_id node_sh)) body.

Definition Assign_asserts (n : Z) : bool := n <=? NODE_CAPACITY.

(** ** Two-node operations

    [temp] is the prefix of the scratch array that is filled and then read: the copy loops
    write its cells in order, so it is the sequence of the values they copy. *)

(** [for (it = first; it < first + n; it++) ... = EntryAt(it)] *)
Definition copy_entries (first n : Z) (body : list byte) : list LeafEntry :=
  (fun it => EntryAt it body) <$> seqZ first n.

(** A copy loop over all entries reads index 0 to [Count() - 1]. *)
Definition copy_asserts (body : list byte) : bool := Count body <=? NODE_CAPACITY.

Definition SplitLeaf_asserts (left right : list byte) (index : Z) : bool :=
  let n := Count left in
  let m := (n + 1 + 1) / 2 in
  (1 <=? n) && (n <=? NODE_CAPACITY) && (index <=? n) && (Count right =? 0) && copy_asserts left &&
  Assign_asserts m && Assign_asserts (n + 1 - m).
Definition SplitLeaf (left right : list byte) (right_page_id index : Z) (entry : LeafEntry)
    : Z * list byte * list byte :=
  let n := Count left in
  let temp := copy_entries 0 index left ++ [entry] ++ copy_entries index (n - index) left in
  let total := n + 1 in
  let m := (total + 1) / 2 in
  let right := SetNextLeaf (NextLeaf left) right in
  let left := SetNextLeaf right_page_id left in
  let left := Assign (slice 0 m temp) left in
  let right := Assign (slice m (total - m) temp) right in
  (key (nth (Z.to_nat m) temp entry), left, right).

Definition RotateLeafRight_asserts (left right : list byte) : bool :=
  let n := Count left in
  let m := Count right in
  (2 <=? n) && (m <? NODE_CAPACITY) && copy_asserts left && copy_asserts right &&
  Assign_asserts (n - 1) && Assign_asserts (m + 1).
Definition RotateLeafRight (left right : list byte) : Z * list byte * list byte :=
  let n := Count left in
  let m := Count right in
  let temp := copy_entries 0 n left ++ copy_entries 0 m right in
  let left := Assign (slice 0 (n - 1) temp) left in
  let right := Assign (slice (n - 1) (m + 1) temp) right in
  (key (EntryAt 0 right), left, right).

Definition RotateLeafLeft_asserts (left right : list byte) : bool :=
  let n := Count left in
  let m := Count right in
  (2 <=? m) && (n <? NODE_CAPACITY) && copy_asserts left && copy_asserts right &&
  Assign_asserts (n + 1) && Assign_asserts (m - 1).
Definition RotateLeafLeft (left right : list byte) : Z * list byte * list byte :=
  let n := Count left in
  let m := Count right in
  let temp := copy_entries 0 n left ++ copy_entries 0 m right in
  let left := Assign (slice 0 (n + 1) temp) left in
  let right := Assign (slice (n + 1) (m - 1) temp) right in
  (key (EntryAt 0 right), left, right).

Definition MergeLeaf_asserts (left right : list byte) : bool :=
  let n := Count left in
  let m := Count right in
  (n + m <=? NODE_CAPACITY) && copy_asserts left && copy_asserts right && Assign_asserts (n + m).
(** [right] is not modified; the result is the new [left]. *)
Definition MergeLeaf (left right : list byte) : list byte :=
  let n := Count left in
  let m := Count right in
  let temp := copy_entries 0 n left ++ copy_entries 0 m right in
  let left := Assign (slice 0 (n + m) temp) left in
  SetNextLeaf (NextLeaf right) left.

(** Both overloads of [AsLeaf]. *)
Definition AsLeaf (page : list byte) : Result (list byte) :=
  if decide (ph_page_type (PageHeader_ReadFrom (slice 0 PAGE_HEADER_SIZE page)) <> INDEX_LEAF) then
    Error (Corruption "not a leaf page")
  else Ok (slice PAGE_HEADER_SIZE PAGE_BODY_SIZE page).
