(* ===== verification/LeafNodeProofs.v ===== *)
(** * Leaf nodes: exact effect of every operation

    A leaf in canonical form is [leaf next es tail]: its link, its entries and the eight
    unused bytes at the end of the body, all other bytes being determined.  Every operation
    of LeafNode.v maps canonical leaves to canonical leaves, and the equations below say
    which. *)

From S2P Require Import Prelude Common NodeArray LeafNode.

Definition leaf (next : Z) (es : list LeafEntry) (tail : list byte) : list byte :=
  node (mkNodeSubHeader 0 (len es) next) es tail.

Record leaf_ok (next : Z) (es : list LeafEntry) (tail : list byte) : Prop := {
  lok_next : is_s32 next;
  lok_cap : len es <= NODE_CAPACITY;
  lok_entries : Forall LeafEntry_wf es;
  lok_tail : len tail = 8
}.

Definition keys (es : list LeafEntry) : list Z := key <$> es.

(** What [CheckInvariants] accepts, on a leaf in canonical form. *)
Record leaf_inv (next : Z) (es : list LeafEntry) : Prop := {
  linv_next : next = INVALID_PAGE \/ CATALOG_ROOT_PAGE_ID < next;
  linv_rids : Forall (fun e => isValid (rid e) = true) es;
  linv_keys : increasing (keys es)
}.

Lemma leaf_node_ok next es tail :
  leaf_ok next es tail -> node_ok (mkNodeSubHeader 0 (len es) next) es tail.
Proof.
  intros []. split; try done. repeat split; simpl; try apply lok_next0; nlia.
Qed.

Lemma leaf_ok_entries next es es' tail :
  leaf_ok next es tail -> len es' <= NODE_CAPACITY -> Forall LeafEntry_wf es' ->
  leaf_ok next es' tail.
Proof. by intros [] ??. Qed.

Section leaf_ops.
Variables (next : Z) (tail : list byte).
Implicit Types (es : list LeafEntry) (e : LeafEntry).

Lemma length_leaf es : leaf_ok next es tail -> len (leaf next es tail) = PAGE_BODY_SIZE.
Proof. intros K. by apply length_node, leaf_node_ok. Qed.

Lemma Header_leaf es :
  leaf_ok next es tail -> Header (leaf next es tail) = mkNodeSubHeader 0 (len es) next.
Proof. intros K. by apply Header_node, leaf_node_ok. Qed.

Lemma Count_leaf es : leaf_ok next es tail -> Count (leaf next es tail) = len es.
Proof. intros K. unfold Count. by rewrite Header_leaf. Qed.

Lemma NextLeaf_leaf es : leaf_ok next es tail -> NextLeaf (leaf next es tail) = next.
Proof. intros K. unfold NextLeaf. by rewrite Header_leaf. Qed.

Lemma EntryAt_leaf es i e :
  leaf_ok next es tail -> es !! i = Some e -> EntryAt (Z.of_nat i) (leaf next es tail) = e.
Proof. intros K Hi. exact (entry_at_node eq_refl _ _ _ _ _ (leaf_node_ok _ _ _ K) Hi). Qed.

Lemma copy_entries_leaf es (i n : nat) :
  leaf_ok next es tail -> (i + n <= length es)%nat ->
  copy_entries (Z.of_nat i) (Z.of_nat n) (leaf next es tail) = take n (drop i es).
Proof.
  intros K Hn. exact (read_entries_node eq_refl _ _ _ _ _ (leaf_node_ok _ _ _ K) Hn).
Qed.

Lemma copy_all es n :
  leaf_ok next es tail -> n = len es -> copy_entries 0 n (leaf next es tail) = es.
Proof.
  intros K ->. rewrite (copy_entries_leaf es 0) by (done || lia). by rewrite drop_0, firstn_all.
Qed.

Lemma SetNextLeaf_leaf es p :
  leaf_ok next es tail -> SetNextLeaf p (leaf next es tail) = leaf p es tail.
Proof.
  intros K. unfold SetNextLeaf. rewrite Header_leaf by done. apply WriteHeader_layout.
Qed.

Lemma InsertAt_leaf l1 l2 e :
  leaf_ok next (l1 ++ l2) tail -> len (l1 ++ l2) < NODE_CAPACITY ->
  InsertAt (len l1) e (leaf next (l1 ++ l2) tail) = leaf next (l1 ++ e :: l2) tail.
Proof. intros K Hc. exact (insert_at_node eq_refl _ _ _ _ e (leaf_node_ok _ _ _ K) Hc). Qed.

Lemma RemoveAt_leaf l1 o l2 :
  leaf_ok next (l1 ++ o :: l2) tail ->
  RemoveAt (len l1) (leaf next (l1 ++ o :: l2) tail) = leaf next (l1 ++ l2) tail.
Proof. intros K. exact (remove_at_node eq_refl _ _ _ _ _ (leaf_node_ok _ _ _ K)). Qed.
End leaf_ops.

Lemma Assign_loop_write it es body : Assign_loop it es body = write_entries it es body.
Proof. revert it body. induction es as [|e es IH]; intros it body; simpl; [done|]. apply IH. Qed.

(** [Assign] does not read the old entries: from any 4064-byte body it builds the
    canonical node with the new ones, keeping level and link. *)
Lemma Assign_body es body :
  len body = PAGE_BODY_SIZE -> len es <= NODE_CAPACITY ->
  Assign es body = node (set_count (len es) (Header body)) es (drop 4056 body).
Proof.
  intros L Hc. unfold Assign. rewrite Assign_loop_write.
  exact (assign_body eq_refl _ _ L Hc).
Qed.

Lemma drop_leaf next es tail : leaf_ok next es tail -> drop 4056 (leaf next es tail) = tail.
Proof.
  intros K. pose proof (length_leaf _ _ _ K) as L. destruct K. unfold leaf, node, layout in *.
  rewrite !app_assoc in *. rewrite drop_app_length'; [done|].
  rewrite length_app in L. nlia.
Qed.

Lemma Assign_leaf next es es' tail :
  leaf_ok next es tail -> len es' <= NODE_CAPACITY ->
  Assign es' (leaf next es tail) = leaf next es' tail.
Proof.
  intros K Hc. rewrite Assign_body; [|by apply length_leaf|done].
  rewrite Header_leaf, drop_leaf by done. done.
Qed.

Lemma Init_leaf : Init (zeros PAGE_BODY_SIZE) = leaf INVALID_PAGE [] (zeros 8).
Proof. vm_compute. reflexivity. Qed.

(** ** Search *)

Lemma LowerBound_loop_bsearch fuel k body lo hi :
  LowerBound_loop fuel k body lo hi = bsearch fuel (fun mid => KeyAt mid body <? k) lo hi.
Proof.
  revert lo hi. induction fuel as [|fuel IH]; intros lo hi; simpl; [done|]. by rewrite !IH.
Qed.

Lemma KeyAt_leaf next es tail i k :
  leaf_ok next es tail -> keys es !! i = Some k -> KeyAt (Z.of_nat i) (leaf next es tail) = k.
Proof.
  intros K Hk. unfold keys in Hk. rewrite list_lookup_fmap in Hk.
  destruct (es !! i) as [e|] eqn:He; [|done]. injection Hk as <-.
  unfold KeyAt. by rewrite (EntryAt_leaf _ _ _ _ _ K He).
Qed.

Lemma keys_lookup es (i : Z) : 0 <= i < len es -> exists k, keys es !! Z.to_nat i = Some k.
Proof. intros. apply lookup_lt_is_Some_2. unfold keys. lens. lia. Qed.

(** [LowerBound] cuts the entries into those below [k] and the rest. *)
Lemma LowerBound_leaf next es tail k :
  leaf_ok next es tail -> increasing (keys es) ->
  exists l1 l2, es = l1 ++ l2 /\ LowerBound k (leaf next es tail) = len l1 /\
    Forall (fun e => key e < k) l1 /\ Forall (fun e => k <= key e) l2.
Proof.
  intros K S. unfold LowerBound. rewrite Count_leaf, LowerBound_loop_bsearch by done.
  pose proof (lok_cap _ _ _ K). set (p := fun mid : Z => KeyAt mid (leaf next es tail) <? k).
  assert (P : forall i x, keys es !! i = Some x -> p (Z.of_nat i) = (x <? k)).
  { intros i x Hx. unfold p. by rewrite (KeyAt_leaf _ _ _ _ _ K Hx). }
  destruct (bsearch_spec (Z.to_nat (len es)) p 0 (len es)) as (B & T & F); [nlia.. | |].
  { intros i j Hi Hij Hj Hp. destruct (keys_lookup es i) as [x Hx]; [lia|].
    destruct (keys_lookup es j) as [y Hy]; [lia|].
    pose proof (P _ _ Hx) as Px. pose proof (P _ _ Hy) as Py. rewrite Z2Nat.id in Px, Py by lia.
    pose proof (increasing_lookup _ _ _ _ _ S Hx Hy ltac:(lia)). rewrite Px. rewrite Py in Hp.
    bcase; try done; lia. }
  set (r := bsearch _ _ _ _) in *.
  exists (take (Z.to_nat r) es), (drop (Z.to_nat r) es). split; [by rewrite take_drop|].
  split; [lens; lia|]. split; apply Forall_lookup_2; intros i e He.
  - apply lookup_take_Some in He as [He Hi].
    assert (Hk : keys es !! i = Some (key e)) by (unfold keys; by rewrite list_lookup_fmap, He).
    pose proof (T (Z.of_nat i) ltac:(lia)) as X. rewrite (P _ _ Hk) in X. lia.
  - rewrite lookup_drop in He. pose proof (lookup_lt_Some _ _ _ He).
    assert (Hk : keys es !! (Z.to_nat r + i)%nat = Some (key e))
      by (unfold keys; by rewrite list_lookup_fmap, He).
    pose proof (F (Z.of_nat (Z.to_nat r + i)) ltac:(lia)) as X. rewrite (P _ _ Hk) in X. lia.
Qed.

(** ** The self-check *)

Lemma check_loop_leaf next es tail n (i : nat) :
  leaf_ok next es tail -> (i + n = length es)%nat ->
  CheckInvariants_loop n (Z.of_nat i) (leaf next es tail) = true <->
  (forall j e, (i <= j)%nat -> es !! j = Some e -> isValid (rid e) = true /\
    forall o, (0 < j)%nat -> es !! (j - 1)%nat = Some o -> key o < key e).
Proof.
  intros K. pose proof (lok_cap _ _ _ K). revert i. induction n as [|n IH]; intros i Hn; cbn [CheckInvariants_loop].
  { split; [|done]. intros _ j e Hj He. apply lookup_lt_Some in He. lia. }
  destruct (lookup_lt_is_Some_2 es i) as [e He]; [lia|].
  rewrite (EntryAt_leaf _ _ _ _ _ K He).
  replace (Z.of_nat i + 1) with (Z.of_nat (S i)) by lia.
  assert (Hprev : forall o, (0 < i)%nat -> es !! (i - 1)%nat = Some o ->
    EntryAt (u16 (Z.of_nat i - 1)) (leaf next es tail) = o).
  { intros o H0 Ho. rewrite u16_id by nlia. replace (Z.of_nat i - 1) with (Z.of_nat (i - 1)) by lia.
    by apply (EntryAt_leaf _ _ _ _ _ K). }
  destruct (isValid (rid e)) eqn:V; simpl negb; cbn match;
    [|split; [done|]; intros A; destruct (A i e ltac:(lia) He); congruence].
  destruct ((0 <? Z.of_nat i) && _) eqn:C.
  - split; [done|]. intros A. apply andb_prop in C as [C1 C2].
    destruct (lookup_lt_is_Some_2 es (i - 1)) as [o Ho]; [lia|].
    rewrite (Hprev o) in C2 by (done || lia). destruct (A i e ltac:(lia) He) as [_ A'].
    specialize (A' o ltac:(lia) Ho). lia.
  - rewrite IH by lia. split; intros A j x Hj Hx; [|apply A; [lia|done]].
    destruct (decide (j = i)) as [->|]; [|apply A; [lia|done]].
    rewrite He in Hx. injection Hx as <-. split; [done|]. intros o H0 Ho.
    rewrite (Hprev o) in C by done. apply andb_false_iff in C. lia.
Qed.

(** What the entry loop establishes, as a property of the sequence. *)
Lemma check_loop_meaning es :
  (forall j e, (0 <= j)%nat -> es !! j = Some e -> isValid (rid e) = true /\
    forall o, (0 < j)%nat -> es !! (j - 1)%nat = Some o -> key o < key e) <->
  Forall (fun e => isValid (rid e) = true) es /\ increasing (keys es).
Proof.
  rewrite increasing_adjacent, Forall_lookup. unfold keys. split.
  - intros A. split; [intros j e He; by apply (A j e ltac:(lia))|].
    intros i a b Ha Hb. rewrite list_lookup_fmap in Ha, Hb.
    destruct (es !! i) as [x|] eqn:Hx; [|done]. destruct (es !! S i) as [y|] eqn:Hy; [|done].
    injection Ha as <-. injection Hb as <-. destruct (A (S i) y ltac:(lia) Hy) as [_ A'].
    apply A'; [lia|]. by rewrite Nat.sub_1_r.
  - intros [V I] j e _ He. split; [by apply (V j)|]. intros o H0 Ho.
    apply (I (j - 1)%nat); rewrite list_lookup_fmap; [by rewrite Ho|].
    replace (S (j - 1)) with j by lia. by rewrite He.
Qed.

(** [CheckInvariants] decides [leaf_inv]. *)
Lemma CheckInvariants_leaf next es tail :
  leaf_ok next es tail -> CheckInvariants (leaf next es tail) = true <-> leaf_inv next es.
Proof.
  intros K. unfold CheckInvariants. rewrite Header_leaf by done. cbn [count level next_page_id].
  pose proof (lok_cap _ _ _ K). destruct (Z.ltb_spec NODE_CAPACITY (len es)); [lia|].
  simpl (negb (0 =? 0)). cbn match. rewrite Nat2Z.id.
  pose proof (check_loop_leaf next es tail (length es) 0 K eq_refl) as L.
  rewrite check_loop_meaning in L. simpl Z.of_nat in L.
  destruct (negb _ && _) eqn:N; rewrite ?L.
  - split; [done|]. intros [X _ _]. apply andb_prop in N as [N1 N2]. lia.
  - split; [intros [V I]; split; try done|intros []; done]. apply andb_false_iff in N. lia.
Qed.

(** ** Splits, rotations and merges *)

Lemma SplitLeaf_leaf nl nr l1 l2 e tl tr rpid :
  leaf_ok nl (l1 ++ l2) tl -> leaf_ok nr [] tr -> is_s32 rpid ->
  let temp := l1 ++ e :: l2 in
  let m := (len temp + 1) / 2 in
  SplitLeaf (leaf nl (l1 ++ l2) tl) (leaf nr [] tr) rpid (len l1) e =
    (key (nth (Z.to_nat m) temp e), leaf rpid (slice 0 m temp) tl,
     leaf nl (slice m (len temp - m) temp) tr).
Proof.
  intros K Kr Hr temp m. unfold SplitLeaf. rewrite Count_leaf, NextLeaf_leaf by done.
  replace (len (l1 ++ l2) - len l1) with (len l2) by (lens; lia).
  rewrite (copy_entries_leaf _ _ _ 0), copy_entries_leaf by (done || lens; lia).
  rewrite drop_0, take_app_length, drop_app_length, firstn_all. cbn [app]. fold temp.
  assert (Et : len (l1 ++ l2) + 1 = len temp) by (unfold temp; lens; simpl; lia).
  rewrite Et. fold m. pose proof (lok_cap _ _ _ K).
  rewrite !SetNextLeaf_leaf by done.
  rewrite (Assign_leaf rpid (l1 ++ l2)); [|by destruct K|rewrite length_slice; nlia].
  rewrite (Assign_leaf nl []); [done|by destruct K, Kr|rewrite length_slice; nlia].
Qed.

Section two_leaves.
Variables (nl nr : Z) (xs ys : list LeafEntry) (tl tr : list byte).
Hypothesis Kl : leaf_ok nl xs tl.
Hypothesis Kr : leaf_ok nr ys tr.

Lemma EntryAt_0 next e es tail : leaf_ok next (e :: es) tail -> EntryAt 0 (leaf next (e :: es) tail) = e.
Proof. intros K. exact (EntryAt_leaf _ _ _ 0 _ K eq_refl). Qed.

Lemma temp_two : copy_entries 0 (Count (leaf nl xs tl)) (leaf nl xs tl) ++
  copy_entries 0 (Count (leaf nr ys tr)) (leaf nr ys tr) = xs ++ ys.
Proof. by rewrite !copy_all by (try rewrite Count_leaf; done). Qed.

Lemma RotateLeafRight_leaf xs' x :
  xs = xs' ++ [x] -> len ys < NODE_CAPACITY ->
  RotateLeafRight (leaf nl xs tl) (leaf nr ys tr) = (key x, leaf nl xs' tl, leaf nr (x :: ys) tr).
Proof.
  intros E Hc. unfold RotateLeafRight. rewrite temp_two, !Count_leaf, E, <- !app_assoc by done.
  rewrite slice_head, slice_tail by (lens; simpl; lia).
  pose proof (lok_cap _ _ _ Kl) as Cl. pose proof (lok_entries _ _ _ Kl) as Wl. rewrite E in Cl, Wl.
  rewrite Forall_app in Wl. rewrite length_app in Cl. simpl in Cl.
  rewrite <- E, !Assign_leaf by (done || simpl length; lia). simpl app.
  rewrite EntryAt_0; [done|]. apply (leaf_ok_entries _ ys); [done|simpl length; lia|].
  constructor; [apply Forall_singleton, Wl|apply Kr].
Qed.

Lemma RotateLeafLeft_leaf y y2 ys' :
  ys = y :: y2 :: ys' -> len xs < NODE_CAPACITY ->
  RotateLeafLeft (leaf nl xs tl) (leaf nr ys tr) =
    (key y2, leaf nl (xs ++ [y]) tl, leaf nr (y2 :: ys') tr).
Proof.
  intros E Hc. unfold RotateLeafLeft. rewrite temp_two, !Count_leaf by done.
  replace (xs ++ ys) with ((xs ++ [y]) ++ y2 :: ys') by (by rewrite E, <- app_assoc).
  rewrite slice_head, slice_tail by (rewrite ?E; lens; simpl; lia).
  pose proof (lok_cap _ _ _ Kr) as Cr. pose proof (lok_entries _ _ _ Kr) as Wr. rewrite E in Cr, Wr.
  simpl length in Cr. apply Forall_cons in Wr as [_ Wr].
  rewrite !Assign_leaf by (done || lens; simpl length; lia).
  rewrite EntryAt_0; [done|]. apply (leaf_ok_entries _ ys); [done|simpl length; lia|done].
Qed.

Lemma MergeLeaf_leaf :
  len xs + len ys <= NODE_CAPACITY ->
  MergeLeaf (leaf nl xs tl) (leaf nr ys tr) = leaf nr (xs ++ ys) tl.
Proof.
  intros Hc. unfold MergeLeaf. rewrite temp_two, !Count_leaf by done.
  rewrite slice_full by (lens; lia). rewrite NextLeaf_leaf, Assign_leaf by (done || lens; lia).
  apply SetNextLeaf_leaf. apply (leaf_ok_entries _ xs); [done|lens; lia|].
  apply Forall_app. split; [apply Kl|apply Kr].
Qed.
End two_leaves.

(** ** The assertions hold on the leaves a tree is made of *)

Lemma LowerBound_reads_ok fuel k body lo hi :
  Count body <= NODE_CAPACITY -> 0 <= lo -> hi <= Count body -> LowerBound_reads fuel k body lo hi = true.
Proof.
  intros Hc. revert lo hi. induction fuel as [|fuel IH]; intros lo hi H0 H1; [done|]. cbn [LowerBound_reads].
  destruct (Z.ltb_spec lo hi) as [Hlt|]; [|done]. pose proof (Z.div_mod (hi - lo) 2 ltac:(lia)). pose proof (Z.mod_pos_bound (hi - lo) 2 ltac:(lia)).
  rewrite !u16_id by (unfold is_u16; nlia). assert (A : EntryAt_asserts (lo + (hi - lo) / 2) body = true) by (unfold EntryAt_asserts; nlia).
  rewrite A. cbn [andb]. destruct (_ <? k); apply IH; nlia.
Qed.

Lemma LowerBound_asserts_ok k body : Count body <= NODE_CAPACITY -> LowerBound_asserts k body = true.
Proof. intros Hc. apply LowerBound_reads_ok; lia. Qed.

Section leaf_asserts.
Context (next : Z) (tail : list byte).

Lemma LowerBound_asserts_leaf es k : leaf_ok next es tail -> LowerBound_asserts k (leaf next es tail) = true.
Proof. intros K. apply LowerBound_asserts_ok. rewrite Count_leaf by done. apply K. Qed.

Lemma EntryAt_asserts_leaf es i : leaf_ok next es tail -> i < len es -> EntryAt_asserts i (leaf next es tail) = true.
Proof. intros K Hi. pose proof (lok_cap _ _ _ K). unfold EntryAt_asserts. rewrite Count_leaf by done. asserts. Qed.

(** A read guarded by a comparison with [Count()]. *)
Lemma EntryAt_guarded es i :
  leaf_ok next es tail -> i <= len es ->
  (i =? Count (leaf next es tail)) || EntryAt_asserts i (leaf next es tail) = true /\
  (Count (leaf next es tail) <=? i) || EntryAt_asserts i (leaf next es tail) = true.
Proof.
  intros K Hi. rewrite Count_leaf by done. destruct (Z.eqb_spec i (len es)) as [->|]; [split; [done|]; by rewrite Z.leb_refl|].
  rewrite EntryAt_asserts_leaf, !orb_true_r by (done || lia). done.
Qed.

Lemma InsertAt_asserts_leaf l1 l2 :
  leaf_ok next (l1 ++ l2) tail -> len (l1 ++ l2) < NODE_CAPACITY -> InsertAt_asserts (len l1) (leaf next (l1 ++ l2) tail) = true.
Proof. intros K Hc. unfold InsertAt_asserts. rewrite Count_leaf by done. rewrite length_app in *. asserts. Qed.

Lemma RemoveAt_asserts_leaf l1 e l2 : leaf_ok next (l1 ++ e :: l2) tail -> RemoveAt_asserts (len l1) (leaf next (l1 ++ e :: l2) tail) = true.
Proof. intros K. pose proof (lok_cap _ _ _ K). unfold RemoveAt_asserts. rewrite Count_leaf by done. rewrite length_app in *. cbn [length] in *. asserts. Qed.

Lemma SplitLeaf_asserts_leaf l1 l2 nr tr :
  leaf_ok next (l1 ++ l2) tail -> leaf_ok nr [] tr -> 1 <= len (l1 ++ l2) ->
  SplitLeaf_asserts (leaf next (l1 ++ l2) tail) (leaf nr [] tr) (len l1) = true.
Proof.
  intros K Kr Hn. pose proof (lok_cap _ _ _ K). unfold SplitLeaf_asserts, copy_asserts, Assign_asserts. rewrite !Count_leaf by done.
  rewrite length_app in *. cbn [length] in *. set (n := Z.of_nat (length l1 + length l2)) in *.
  pose proof (Z.div_mod (n + 1 + 1) 2 ltac:(lia)). pose proof (Z.mod_pos_bound (n + 1 + 1) 2 ltac:(lia)). asserts.
Qed.

Lemma RotateLeafRight_asserts_leaf xs ys nr tr :
  leaf_ok next xs tail -> leaf_ok nr ys tr -> 2 <= len xs -> len ys < NODE_CAPACITY ->
  RotateLeafRight_asserts (leaf next xs tail) (leaf nr ys tr) = true.
Proof. intros K Kr H1 H2. pose proof (lok_cap _ _ _ K). unfold RotateLeafRight_asserts, copy_asserts, Assign_asserts. rewrite !Count_leaf by done. asserts. Qed.

Lemma RotateLeafLeft_asserts_leaf xs ys nr tr :
  leaf_ok next xs tail -> leaf_ok nr ys tr -> 2 <= len ys -> len xs < NODE_CAPACITY ->
  RotateLeafLeft_asserts (leaf next xs tail) (leaf nr ys tr) = true.
Proof. intros K Kr H1 H2. pose proof (lok_cap _ _ _ Kr). unfold RotateLeafLeft_asserts, copy_asserts, Assign_asserts. rewrite !Count_leaf by done. asserts. Qed.

Lemma MergeLeaf_asserts_leaf xs ys nr tr :
  leaf_ok next xs tail -> leaf_ok nr ys tr -> len xs + len ys <= NODE_CAPACITY ->
  MergeLeaf_asserts (leaf next xs tail) (leaf nr ys tr) = true.
Proof. intros K Kr Hc. unfold MergeLeaf_asserts, copy_asserts, Assign_asserts. rewrite !Count_leaf by done. asserts. Qed.
End leaf_asserts.
