(* ===== verification/LeafNodeTheorems.v ===== *)
(** * What leaf nodes guarantee the tree

    The claims about LeafNode.v: search, ordered insert and remove, the self-check, and the
    split, rotations and merge that rebalance leaves. *)

From S2P Require Import Prelude Common NodeArray LeafNode LeafNodeProofs.

Lemma keys_app es es' : keys (es ++ es') = keys es ++ keys es'.
Proof. apply fmap_app. Qed.

Lemma elem_of_keys k es : k ∈ keys es <-> exists e, k = key e /\ e ∈ es.
Proof. apply list_elem_of_fmap. Qed.

(** An absent key goes strictly between the two parts [LowerBound] finds. *)
Lemma ordered_insert l1 l2 e :
  increasing (keys (l1 ++ l2)) -> Forall (fun x => key x < key e) l1 ->
  Forall (fun x => key e <= key x) l2 -> key e ∉ keys (l1 ++ l2) ->
  increasing (keys (l1 ++ e :: l2)).
Proof.
  rewrite !keys_app. intros S F1 F2 N. simpl. apply increasing_insert; [done| |].
  - intros k (x & -> & Hx)%elem_of_keys. by apply (proj1 (Forall_forall _ _) F1).
  - intros k (x & -> & Hx)%elem_of_keys.
    pose proof (proj1 (Forall_forall _ _) F2 _ Hx) as Hle. simpl in Hle.
    assert (key e <> key x); [|lia]. intros E. apply N. rewrite E.
    apply elem_of_app. right. apply elem_of_keys. eauto.
Qed.

Lemma leaf_inv_insert next l1 l2 e :
  leaf_inv next (l1 ++ l2) -> isValid (rid e) = true -> increasing (keys (l1 ++ e :: l2)) ->
  leaf_inv next (l1 ++ e :: l2).
Proof.
  intros [N V _] Ve S. split; try done. apply Forall_app in V as [V1 V2].
  apply Forall_app. split; [done|]. by constructor.
Qed.

Lemma leaf_inv_cut next next' l1 l2 :
  leaf_inv next (l1 ++ l2) -> next' = INVALID_PAGE \/ CATALOG_ROOT_PAGE_ID < next' ->
  leaf_inv next' l1 /\ leaf_inv next l2.
Proof.
  intros [N V S] N'. apply Forall_app in V as [V1 V2]. rewrite keys_app in S.
  split; split; try done; [by eapply StronglySorted_app_1_l|by eapply StronglySorted_app_1_r].
Qed.

Lemma keys_cut l1 l2 : increasing (keys (l1 ++ l2)) ->
  forall x y, x ∈ l1 -> y ∈ l2 -> key x < key y.
Proof.
  rewrite keys_app. intros S x y Hx Hy. eapply StronglySorted_app_1_elem_of; [done| |];
    apply elem_of_keys; eauto.
Qed.

(** ** Claims *)

(** Binary search in a leaf with increasing keys terminates within its fuel and returns
    the lower bound: every entry before the result is below the key, every entry from it on
    is not; an absent key that is larger than all gives [Count()]. *)
Lemma leaf_lower_bound next es tail k :
  leaf_ok next es tail -> increasing (keys es) ->
  let r := LowerBound k (leaf next es tail) in
  0 <= r <= Count (leaf next es tail) /\
  forall i e, es !! i = Some e -> Z.of_nat i < r <-> key e < k.
Proof.
  intros K S r. destruct (LowerBound_leaf next es tail k K S) as (l1 & l2 & E & Er & F1 & F2).
  subst r. rewrite Er, Count_leaf, E by done. split; [lens; lia|]. intros i e He.
  apply lookup_app_Some in He as [He|[Hl He]].
  - pose proof (lookup_lt_Some _ _ _ He). pose proof (Forall_lookup_1 _ _ _ _ F1 He). simpl in *. lia.
  - pose proof (Forall_lookup_1 _ _ _ _ F2 He). simpl in *. lia.
Qed.

(** C36: Inserting an absent key at its [LowerBound] gives, byte for byte, the canonical leaf
    with the entry added in key order: [CheckInvariants] holds again, every old entry is
    still there and the new one is. *)
Theorem leaf_insert_ordered next es tail e :
  leaf_ok next es tail -> leaf_inv next es -> LeafEntry_wf e -> isValid (rid e) = true ->
  key e ∉ keys es -> len es < NODE_CAPACITY ->
  let body := leaf next es tail in
  let body' := InsertAt (LowerBound (key e) body) e body in
  exists l1 l2, es = l1 ++ l2 /\ body' = leaf next (l1 ++ e :: l2) tail /\
    leaf_ok next (l1 ++ e :: l2) tail /\ CheckInvariants body' = true.
Proof.
  intros K I We Ve N Hc body body'.
  destruct (LowerBound_leaf next es tail (key e) K (linv_keys _ _ I)) as (l1 & l2 & E & Er & F1 & F2).
  exists l1, l2. split; [done|]. unfold body', body. rewrite Er. subst es.
  rewrite InsertAt_leaf by done. split; [done|].
  assert (K' : leaf_ok next (l1 ++ e :: l2) tail).
  { eapply leaf_ok_entries; [done | lens; simpl; lia |].
    pose proof (lok_entries _ _ _ K) as W. apply Forall_app in W as [W1 W2].
    apply Forall_app. split; [done|]. by constructor. }
  split; [done|]. apply CheckInvariants_leaf; [done|].
  apply leaf_inv_insert; [done..|]. apply ordered_insert; try done. apply I.
Qed.

(** [RemoveAt] deletes exactly one entry, keeps [CheckInvariants], zeroes the vacated
    slot, and undoes [InsertAt] byte for byte. *)
Lemma leaf_remove_undoes_insert next l1 l2 tail e :
  leaf_ok next (l1 ++ l2) tail -> LeafEntry_wf e -> len (l1 ++ l2) < NODE_CAPACITY ->
  let body := leaf next (l1 ++ l2) tail in
  RemoveAt (len l1) (InsertAt (len l1) e body) = body /\
  (leaf_inv next (l1 ++ e :: l2) -> CheckInvariants (RemoveAt (len l1) (InsertAt (len l1) e body)) = true).
Proof.
  intros K We Hc body. unfold body. rewrite InsertAt_leaf, RemoveAt_leaf; try done.
  - split; [done|]. intros [N V S]. apply CheckInvariants_leaf; [done|].
    split; [done| |].
    + apply Forall_app in V as [V1 V2]. apply Forall_cons in V2 as [_ V2]. by apply Forall_app.
    + rewrite keys_app in *. by eapply increasing_remove.
  - eapply leaf_ok_entries; [done | lens; simpl; lia |].
    pose proof (lok_entries _ _ _ K) as W. apply Forall_app in W as [W1 W2].
    apply Forall_app. split; [done|]. by constructor.
Qed.

(** On a leaf in canonical form [CheckInvariants] accepts exactly when the link is none
    or a data page, every RID is valid and the keys are strictly increasing. *)
Lemma leaf_check_decides next es tail :
  leaf_ok next es tail -> CheckInvariants (leaf next es tail) = true <-> leaf_inv next es.
Proof. apply CheckInvariants_leaf. Qed.

(** [Assign] builds the same bytes from any 4064-byte body whatever its old entries or
    count were: two leaves assigned the same entries under the same level and link differ
    in no byte of the entry area, and the old link survives. *)
Lemma leaf_assign_canonical es body :
  len body = PAGE_BODY_SIZE -> len es <= NODE_CAPACITY ->
  let body' := Assign es body in
  body' = node (set_count (len es) (Header body)) es (drop 4056 body) /\
  NextLeaf body' = NextLeaf body /\
  (Forall LeafEntry_wf es -> copy_entries 0 (Count body') body' = es).
Proof.
  intros L Hc body'. unfold body'. rewrite Assign_body by done. split; [done|].
  assert (W : NodeSubHeader_wf (set_count (len es) (Header body))).
  { destruct (Header_wf body) as (A & B & C). split; [done|]. split; [simpl; nlia|done]. }
  unfold NextLeaf, Count, node. rewrite Header_layout by done. split; [done|]. intros We. simpl count.
  assert (K : node_ok (set_count (len es) (Header body)) es (drop 4056 body)).
  { split; try done. lens. nlia. }
  pose proof (read_entries_node eq_refl _ _ _ 0 (length es) K ltac:(lia)) as R.
  rewrite drop_0, firstn_all in R. exact R.
Qed.

(** A leaf split at its capacity conserves the entries: left and right together hold
    the old entries and the new one in key order, left keeps ceil((n+1)/2) of them, the
    separator is right's first key and lies strictly above all of left, the chain reads
    left -> right -> old successor, and both halves pass [CheckInvariants]. *)
Lemma leaf_split_correct nl nr l1 l2 e tl tr rpid :
  leaf_ok nl (l1 ++ l2) tl -> leaf_ok nr [] tr -> is_s32 rpid -> CATALOG_ROOT_PAGE_ID < rpid ->
  LeafEntry_wf e -> leaf_inv nl (l1 ++ e :: l2) -> 1 <= len (l1 ++ l2) ->
  let '(sep, left', right') := SplitLeaf (leaf nl (l1 ++ l2) tl) (leaf nr [] tr) rpid (len l1) e in
  exists xs ys, xs ++ ys = l1 ++ e :: l2 /\ left' = leaf rpid xs tl /\ right' = leaf nl ys tr /\
    Count left' = (len (l1 ++ l2) + 2) / 2 /\ Count right' = (len (l1 ++ l2) + 1) / 2 /\
    head (keys ys) = Some sep /\ (forall x, x ∈ xs -> key x < sep) /\
    CheckInvariants left' = true /\ CheckInvariants right' = true.
Proof.
  intros K Kr Hr Hc We I Hn. rewrite SplitLeaf_leaf by done. set (temp := l1 ++ e :: l2) in *.
  set (m := (len temp + 1) / 2). pose proof (lok_cap _ _ _ K) as Cap.
  assert (Lt : len temp = len (l1 ++ l2) + 1) by (unfold temp; lens; simpl; lia).
  destruct (slices_cut m temp) as (Ecut & Lx & Ly); [lia|].
  destruct (nth_slice_head m (len temp - m) temp e) as [ys' Eh]; [lia..|].
  assert (Wt : Forall LeafEntry_wf temp).
  { pose proof (lok_entries _ _ _ K) as W. apply Forall_app in W as [W1 W2].
    apply Forall_app. split; [done|]. by constructor. }
  set (xs := slice 0 m temp) in *. set (ys := slice m (len temp - m) temp) in *.
  assert (Kx : leaf_ok rpid xs tl) by (destruct K; split; try done; [lia|by apply Forall_slice]).
  assert (Ky : leaf_ok nl ys tr) by (destruct K, Kr; split; try done; [lia|by apply Forall_slice]).
  exists xs, ys. rewrite !Count_leaf by done.
  rewrite <- Ecut in I. destruct (leaf_inv_cut nl rpid xs ys I ltac:(by right)) as [Ix Iy].
  rewrite !CheckInvariants_leaf by done. split_and!; try done; try lia.
  - by rewrite Eh.
  - intros x Hx. eapply keys_cut; [apply I|done|]. rewrite Eh. by left.
Qed.

(** Lending an entry between neighbouring leaves keeps the concatenation of their
    entries, moves exactly one entry, returns right's new first key as the separator (so all
    of left stays below it), keeps the chain links and both self-checks. *)
Lemma leaf_rotations_correct nl nr xs x ys tl tr :
  leaf_ok nl (xs ++ [x]) tl -> leaf_ok nr ys tr -> leaf_inv nl (xs ++ [x]) -> leaf_inv nr ys ->
  increasing (keys (xs ++ x :: ys)) -> ys <> [] -> len (xs ++ [x]) < NODE_CAPACITY ->
  len ys < NODE_CAPACITY ->
  RotateLeafRight (leaf nl (xs ++ [x]) tl) (leaf nr ys tr) =
    (key x, leaf nl xs tl, leaf nr (x :: ys) tr) /\
  RotateLeafLeft (leaf nl xs tl) (leaf nr (x :: ys) tr) =
    (default 0 (head (keys ys)), leaf nl (xs ++ [x]) tl, leaf nr ys tr) /\
  (forall z, z ∈ xs -> key z < key x) /\
  CheckInvariants (leaf nl xs tl) = true /\ CheckInvariants (leaf nr (x :: ys) tr) = true.
Proof.
  intros Kl Kr Il Ir S Hy Hcl Hcr. destruct ys as [|y ys]; [done|].
  pose proof (lok_entries _ _ _ Kl) as Wl. apply Forall_app in Wl as [W1 W2].
  assert (Kx : leaf_ok nl xs tl) by (eapply leaf_ok_entries; [done|rewrite length_app in Hcl; lia|done]).
  assert (Ky : leaf_ok nr (x :: y :: ys) tr).
  { eapply leaf_ok_entries; [done|simpl length in *; lia|]. constructor; [by apply Forall_singleton|apply Kr]. }
  rewrite (RotateLeafRight_leaf nl nr (xs ++ [x]) (y :: ys) tl tr Kl Kr xs x) by done.
  rewrite (RotateLeafLeft_leaf nl nr xs (x :: y :: ys) tl tr Kx Ky x y ys)
    by (done || rewrite length_app in Hcl; lia).
  rewrite !CheckInvariants_leaf by done. destruct Il as [N1 V1 S1], Ir as [N2 V2 S2].
  apply Forall_app in V1 as [V1 Vx]. rewrite keys_app in S1, S. simpl in S.
  repeat split; try done.
  - intros z Hz. rewrite <- keys_app in S1. eapply keys_cut; [done..|]. by left.
  - by eapply StronglySorted_app_1_l.
  - constructor; [by apply (Forall_singleton (fun e => isValid (rid e) = true))|done].
  - by eapply StronglySorted_app_1_r.
Qed.

(** A leaf merge leaves in left all entries of both in order, links left to right's
    successor (right drops out of the chain) and passes [CheckInvariants]. *)
Lemma leaf_merge_correct nl nr xs ys tl tr :
  leaf_ok nl xs tl -> leaf_ok nr ys tr -> leaf_inv nl xs -> leaf_inv nr ys ->
  increasing (keys (xs ++ ys)) -> len xs + len ys <= NODE_CAPACITY ->
  let left' := MergeLeaf (leaf nl xs tl) (leaf nr ys tr) in
  left' = leaf nr (xs ++ ys) tl /\ NextLeaf left' = nr /\ CheckInvariants left' = true.
Proof.
  intros Kl Kr [N1 V1 S1] [N2 V2 S2] S Hc left'. unfold left'. rewrite MergeLeaf_leaf by done.
  assert (K : leaf_ok nr (xs ++ ys) tl).
  { destruct Kl, Kr. split; try done; [lens; lia|by apply Forall_app]. }
  rewrite NextLeaf_leaf, CheckInvariants_leaf by done. repeat split; try done. by apply Forall_app.
Qed.

(** ** Concrete leaves *)

Definition ent (k : Z) : LeafEntry := mkLeafEntry k (mkRID 7 (k mod 100)).
Definition leaf_of (next : Z) (ks : list Z) : list byte := leaf next (ent <$> ks) (zeros 8).

Lemma ent_wf k : is_s64 k -> LeafEntry_wf (ent k).
Proof. intros. split; [done|]. simpl. unfold_ints. lia. Qed.

Ltac leaf_ok_concrete :=
  split; [unfold_ints; lia | vm_compute; congruence
         | repeat (apply Forall_cons; split; [apply ent_wf; unfold_ints; lia|]); apply Forall_nil; done
         | reflexivity].
Ltac increasing_concrete := vm_compute; repeat constructor.
Ltac leaf_inv_concrete :=
  split; [vm_compute; auto | repeat constructor | increasing_concrete].

Lemma leaf_insert_ordered_witness :
  InsertAt (LowerBound 25 (leaf_of 9 [10; 20; 30])) (ent 25) (leaf_of 9 [10; 20; 30]) =
    leaf_of 9 [10; 20; 25; 30] /\
  CheckInvariants (leaf_of 9 [10; 20; 25; 30]) = true.
Proof.
  assert (E : InsertAt (LowerBound 25 (leaf_of 9 [10; 20; 30])) (ent 25) (leaf_of 9 [10; 20; 30]) =
    leaf_of 9 [10; 20; 25; 30]) by (vm_compute; reflexivity).
  split; [exact E|]. rewrite <- E.
  destruct (leaf_insert_ordered 9 (ent <$> [10; 20; 30]) (zeros 8) (ent 25)) as (l1 & l2 & _ & _ & _ & C).
  - leaf_ok_concrete.
  - leaf_inv_concrete.
  - apply ent_wf. unfold_ints. lia.
  - reflexivity.
  - change (25 ∉ [10; 20; 30]). rewrite !elem_of_cons, elem_of_nil. lia.
  - vm_compute. reflexivity.
  - exact C.
Defined.
