(* ===== verification/InternalNode.v ===== *)
(** * Internal nodes: [ConstInternalNode]/[InternalNode], [SplitInternal],
    [RotateInternal*], [MergeInternal], and the index header page

    src/src/indices/b_plus_tree_page.hpp and b_plus_tree_page.cpp.  Entry 0 carries a child
    and no key: its key field holds INT64_MIN.  The [assert]s an operation runs,
    those of the members it calls included, are its boolean [*_asserts]; the tree stops where
    they are false (BPlusTree.v). *)

From S2P Require Import Prelude Common NodeArray.

Record InternalEntry := mkInternalEntry { ikey : Z; child : Z; reserved : Z }.

#[export] Instance InternalEntry_eq_dec : EqDecision InternalEntry.
Proof. solve_decision. Defined.

Definition InternalEntry_default : InternalEntry := mkInternalEntry 0 INVALID_PAGE 0.
Definition set_ikey (k : Z) (e : InternalEntry) : InternalEntry :=
  mkInternalEntry k (child e) (reserved e).

Definition InternalEntry_ReadFrom (bs : list byte) : InternalEntry :=
  mkInternalEntry (s64 (rd_u 0 8 bs)) (s32 (rd_u 8 4 bs)) (rd_u 12 4 bs).
Definition InternalEntry_WriteTo (e : InternalEntry) : list byte :=
  le_enc 8 (ikey e) ++ le_enc 4 (child e) ++ le_enc 4 (reserved e).
Definition InternalEntry_wf (e : InternalEntry) : Prop :=
  is_s64 (ikey e) /\ is_s32 (child e) /\ is_u32 (reserved e).

#[export] Instance InternalEntry_codec : Codec InternalEntry :=
  { csize := NODE_ENTRY_SIZE; cwf := InternalEntry_wf;
    cenc := InternalEntry_WriteTo; cdec := InternalEntry_ReadFrom }.
#[export] Instance InternalEntry_laws : CodecLaws InternalEntry.
Proof.
  split; [done | done |]. intros e (? & ? & ?).
  unfold cdec, cenc; simpl. unfold InternalEntry_ReadFrom, rd_u. set (t := InternalEntry_WriteTo e).
  field 0 8 t (le_enc 8 (ikey e)). field 8 4 t (le_enc 4 (child e)).
  field 12 4 t (le_enc 4 (reserved e)). autorewrite with codec. by destruct e.
Qed.

(** ** Reads *)

Definition EntryAt (index : Z) (body : list byte) : InternalEntry :=
  InternalEntry_ReadFrom (slice (NodeEntryOffset index) NODE_ENTRY_SIZE body).
Definition ChildAt (index : Z) (body : list byte) : Z := child (EntryAt index body).
Definition KeyAt (index : Z) (body : list byte) : Z := ikey (EntryAt index body).
Definition EntryAt_asserts (index : Z) (body : list byte) : bool :=
  (index <? Count body) && (index <? NODE_CAPACITY).
Definition KeyAt_asserts (index : Z) (body : list byte) : bool :=
  (1 <=? index) && (index <? Count body) && EntryAt_asserts index body.

Fixpoint ChildIndexFor_loop (fuel : nat) (k : Z) (body : list byte) (low high : Z) : Z :=
  match fuel with
  | O => low
  | S fuel =>
      if low <? high then
        let mid := u16 (low + (high - low) / 2) in
        if KeyAt mid body <=? k then ChildIndexFor_loop fuel k body (u16 (mid + 1)) high
        else ChildIndexFor_loop fuel k body low mid
      else low
  end.

Definition ChildIndexFor (k : Z) (body : list byte) : Z :=
  let N := Count body in
  let low := ChildIndexFor_loop (Z.to_nat N) k body 1 N in
  u16 (low - 1).

(** The entries the search reads. *)
Fixpoint ChildIndexFor_reads (fuel : nat) (k : Z) (body : list byte) (low high : Z) : bool :=
  match fuel with
  | O => true
  | S fuel =>
      if low <? high then
        let mid := u16 (low + (high - low) / 2) in
        KeyAt_asserts mid body &&
        if KeyAt mid body <=? k then ChildIndexFor_reads fuel k body (u16 (mid + 1)) high
        else ChildIndexFor_reads fuel k body low mid
      else true
  end.
Definition ChildIndexFor_asserts (k : Z) (body : list byte) : bool :=
  ChildIndexFor_reads (Z.to_nat (Count body)) k body 1 (Count body).

(** The entry loop of [CheckInvariants], [n] iterations from [i]. *)
Fixpoint CheckInvariants_loop (n : nat) (i prev : Z) (body : list byte) : bool :=
  match n with
  | O => true
  | S n =>
      let entry := EntryAt i body in
      if (child entry =? INVALID_PAGE) || (child entry <=? CATALOG_ROOT_PAGE_ID) then false
      else if i =? 0 then
        if negb (ikey entry =? INT64_MIN) then false
        else CheckInvariants_loop n (i + 1) prev body
      else if ikey entry <=? prev then false
      else CheckInvariants_loop n (i + 1) (ikey entry) body
  end.

Definition CheckInvariants (body : list byte) : bool :=
  let header := Header body in
  if NODE_CAPACITY <? count header then false
  else if level header <? 1 then false
  else if negb (next_page_id header =? INVALID_PAGE) then false
  else CheckInvariants_loop (Z.to_nat (count header)) 0 INT64_MIN body.

(** ** Mutations *)

Definition Init_asserts (lvl : Z) : bool := 1 <=? lvl.
Definition Init (lvl : Z) (body : list byte) : list byte :=
  WriteHeader (mkNodeSubHeader lvl 0 INVALID_PAGE) body.

Definition InsertAt_asserts (index : Z) (body : list byte) : bool :=
  (Count body <? NODE_CAPACITY) && (1 <=? index) && (index <=? Count body).
Definition InsertAt (index : Z) (entry : InternalEntry) (body : list byte) : list byte :=
  let N := Count body in
  let body := memmove (NodeEntryOffset (u16 (index + 1))) (NodeEntryOffset index)
                ((N - index) * NODE_ENTRY_SIZE) body in
  let body := patch (NodeEntryOffset index) (InternalEntry_WriteTo entry) body in
  let node_sh := Header body in
  WriteHeader (mkNodeSubHeader (level node_sh) (u16 (count node_sh + 1)) (next_page_id node_sh)) body.

Definition RemoveAt_asserts (index : Z) (body : list byte) : bool :=
  (Count body <=? NODE_CAPACITY) && (1 <=? index) && (index <? Count body).
Definition RemoveAt (index : Z) (body : list byte) : list byte :=
  let N := Count body in
  let body := memmove (NodeEntryOffset index) (NodeEntryOffset (u16 (index + 1)))
                ((N - index - 1) * NODE_ENTRY_SIZE) body in
  let body := memset0 (NodeEntryOffset (u16 (N - 1))) NODE_ENTRY_SIZE body in
  let node_sh := Header body in
  WriteHeader (mkNodeSubHeader (level node_sh) (u16 (count node_sh - 1)) (next_page_id node_sh)) body.

Definition SetKeyAt_asserts (index : Z) (body : list byte) : bool :=
  (1 <=? index) && (index <? Count body) && EntryAt_asserts index body.
Definition SetKeyAt (index k : Z) (body : list byte) : list byte :=
  let entry := set_ikey k (EntryAt index body) in
  patch (NodeEntryOffset index) (InternalEntry_WriteTo entry) body.

(** The write loop of [Assign], from index [it]. *)
Fixpoint Assign_loop (it : Z) (entries : list InternalEntry) (body : list byte) : list byte :=
  match entries with
  | [] => body
  | e :: entries =>
      Assign_loop (it + 1) entries (patch (NodeEntryOffset (u16 it)) (InternalEntry_WriteTo e) body)
  end.

Definition Assign_asserts (n : Z) : bool := (1 <=? n) && (n <=? NODE_CAPACITY).
(** [entries] is not empty, by the first assertion. *)
Definition Assign (entries : list InternalEntry) (body : list byte) : list byte :=
  let first := set_ikey INT64_MIN (hd InternalEntry_default entries) in
  let body := patch (NodeEntryOffset 0) (InternalEntry_WriteTo first) body in
  let body := Assign_loop 1 (tl entries) body in
  let tail := NodeEntryOffset (u16 (len entries)) in
  let body := memset0 tail (NodeEntryOffset NODE_CAPACITY - tail) body in
  let node_sh := Header body in
  WriteHeader (mkNodeSubHeader (level node_sh) (u16 (len entries)) (next_page_id node_sh)) body.

(** ** Two-node operations *)

(** [for (it = first; it < first + n; it++) ... = EntryAt(it)] *)
Definition copy_entries (first n : Z) (body : list byte) : list InternalEntry :=
  (fun it => EntryAt it body) <$> seqZ first n.

(** A copy loop over all entries reads index 0 to [Count() - 1]. *)
Definition copy_asserts (body : list byte) : bool := Count body <=? NODE_CAPACITY.

Definition SplitInternal_asserts (left right : list byte) (index : Z) : bool :=
  let n := Count left in
  let m := (n + 1 + 1) / 2 in
  (2 <=? n) && (n <=? NODE_CAPACITY) && (1 <=? index) && (index <=? n) && (Count right =? 0) &&
  (Level right =? Level left) && copy_asserts left && Assign_asserts m && Assign_asserts (n + 1 - m).
Definition SplitInternal (left right : list byte) (index : Z) (entry : InternalEntry)
    : Z * list byte * list byte :=
  let n := Count left in
  let temp := copy_entries 0 index left ++ [entry] ++ copy_entries index (n - index) left in
  let total := n + 1 in
  let m := (total + 1) / 2 in
  let sep := ikey (nth (Z.to_nat m) temp entry) in
  let left := Assign (slice 0 m temp) left in
  let right := Assign (slice m (total - m) temp) right in
  (sep, left, right).

Definition RotateInternalRight_asserts (left right : list byte) : bool :=
  let n := Count left in
  let m := Count right in
  (2 <=? n) && (1 <=? m) && (m <? NODE_CAPACITY) && (Level left =? Level right) &&
  copy_asserts left && copy_asserts right && Assign_asserts (n - 1) && Assign_asserts (m + 1).
Definition RotateInternalRight (left right : list byte) (separator : Z)
    : Z * list byte * list byte :=
  let n := Count left in
  let m := Count right in
  let temp := copy_entries 0 n left ++ copy_entries 0 m right in
  let up := ikey (nth (Z.to_nat (n - 1)) temp InternalEntry_default) in
  let temp := alter (set_ikey separator) (Z.to_nat n) temp in
  let left := Assign (slice 0 (n - 1) temp) left in
  let right := Assign (slice (n - 1) (m + 1) temp) right in
  (up, left, right).

Definition RotateInternalLeft_asserts (left right : list byte) : bool :=
  let n := Count left in
  let m := Count right in
  (2 <=? m) && (1 <=? n) && (n <? NODE_CAPACITY) && (Level left =? Level right) &&
  copy_asserts left && copy_asserts right && Assign_asserts (n + 1) && Assign_asserts (m - 1).
Definition RotateInternalLeft (left right : list byte) (separator : Z)
    : Z * list byte * list byte :=
  let n := Count left in
  let m := Count right in
  let temp := copy_entries 0 n left ++ copy_entries 0 m right in
  let up := ikey (nth (Z.to_nat (n + 1)) temp InternalEntry_default) in
  let temp := alter (set_ikey separator) (Z.to_nat n) temp in
  let left := Assign (slice 0 (n + 1) temp) left in
  let right := Assign (slice (n + 1) (m - 1) temp) right in
  (up, left, right).

Definition MergeInternal_asserts (left right : list byte) : bool :=
  let n := Count left in
  let m := Count right in
  (1 <=? n) && (1 <=? m) && (n + m <=? NODE_CAPACITY) && (Level left =? Level right) &&
  copy_asserts left && copy_asserts right && Assign_asserts (n + m).
(** [right] is not modified; the result is the new [left]. *)
Definition MergeInternal (left right : list byte) (separator : Z) : list byte :=
  let n := Count left in
  let m := Count right in
  let temp := copy_entries 0 n left ++ copy_entries 0 m right in
  let temp := alter (set_ikey separator) (Z.to_nat n) temp in
  Assign (slice 0 (n + m) temp) left.

(** ** Typed access to a page *)

(** Both overloads of [AsInternal]. *)
Definition AsInternal (page : list byte) : Result (list byte) :=
  if decide (ph_page_type (PageHeader_ReadFrom (slice 0 PAGE_HEADER_SIZE page)) <> INDEX_INTERNAL)
  then Error (Corruption "not an internal node page")
  else Ok (slice PAGE_HEADER_SIZE PAGE_BODY_SIZE page).

(** Both overloads of [ReadIndexHeader]. *)
Definition ReadIndexHeader (page : list byte) : Result IndexHeader :=
  if decide (ph_page_type (PageHeader_ReadFrom (slice 0 PAGE_HEADER_SIZE page)) <> INDEX_HEADER)
  then Error (Corruption "not an index header page")
  else Ok (IndexHeader_ReadFrom (slice PAGE_HEADER_SIZE PAGE_BODY_SIZE page)).

Definition WriteIndexHeader (page : list byte) (header : IndexHeader) : Status * list byte :=
  if decide (ph_page_type (PageHeader_ReadFrom (slice 0 PAGE_HEADER_SIZE page)) <> INDEX_HEADER)
  then (Corruption "not an index header page", page)
  else
    (StatusOK,
     patch PAGE_HEADER_SIZE
       (IndexHeader_WriteTo header (slice PAGE_HEADER_SIZE PAGE_BODY_SIZE page)) page).
