(* ===== verification/InternalNodeProofs.v ===== *)
(** * Internal nodes: exact effect of every operation

    An internal node in canonical form is [inode lvl es tail]: its level, its entries and
    the eight unused bytes at the end of the body.  Every operation of InternalNode.v maps
    canonical nodes to canonical nodes, and the equations below say which. *)

From S2P Require Import Prelude Common NodeArray InternalNode.

Definition inode (lvl : Z) (es : list InternalEntry) (tail : list byte) : list byte :=
  node (mkNodeSubHeader lvl (len es) INVALID_PAGE) es tail.

Record inode_ok (lvl : Z) (es : list InternalEntry) (tail : list byte) : Prop := {
  iok_level : is_u16 lvl;
  iok_cap : len es <= NODE_CAPACITY;
  iok_entries : Forall InternalEntry_wf es;
  iok_tail : len tail = 8
}.

Definition ikeys (es : list InternalEntry) : list Z := ikey <$> es.
Definition children (es : list InternalEntry) : list Z := child <$> es.

(** Entry 0's key is the placeholder. *)
Definition canon (es : list InternalEntry) : list InternalEntry :=
  match es with [] => [] | e :: es => set_ikey INT64_MIN e :: es end.

(** What [CheckInvariants] accepts: with the placeholder standing for minus infinity, the
    keys of all entries are strictly increasing. *)
Record inode_inv (lvl : Z) (es : list InternalEntry) : Prop := {
  iinv_level : 1 <= lvl;
  iinv_first : canon es = es;
  iinv_children : Forall (fun e => CATALOG_ROOT_PAGE_ID < child e) es;
  iinv_keys : increasing (ikeys es)
}.

(** Two neighbours and the parent's key between them, as one sequence of bounded children. *)
Definition join (sep : Z) (xs ys : list InternalEntry) : list InternalEntry :=
  xs ++ match ys with [] => [] | y :: ys => set_ikey sep y :: ys end.

Lemma inode_node_ok lvl es tail :
  inode_ok lvl es tail -> node_ok (mkNodeSubHeader lvl (len es) INVALID_PAGE) es tail.
Proof.
  intros []. split; try done. split; [done|]. split; simpl; nlia.
Qed.

Lemma inode_ok_entries lvl es es' tail :
  inode_ok lvl es tail -> len es' <= NODE_CAPACITY -> Forall InternalEntry_wf es' ->
  inode_ok lvl es' tail.
Proof. by intros [] ??. Qed.

Lemma canon_length es : length (canon es) = length es.
Proof. by destruct es. Qed.
#[export] Hint Rewrite canon_length : lens.

Lemma set_ikey_wf k e : is_s64 k -> InternalEntry_wf e -> InternalEntry_wf (set_ikey k e).
Proof. by intros ? (? & ? & ?). Qed.

Lemma INT64_MIN_s64 : is_s64 INT64_MIN.
Proof. unfold_ints. lia. Qed.

Lemma canon_wf es : Forall InternalEntry_wf es -> Forall InternalEntry_wf (canon es).
Proof.
  destruct es as [|e es]; [done|]. cbn [canon]. rewrite !Forall_cons. intros [? ?].
  split; [apply set_ikey_wf; [apply INT64_MIN_s64|done]|done].
Qed.

Section inode_ops.
Variables (lvl : Z) (tail : list byte).
Implicit Types (es : list InternalEntry) (e : InternalEntry).

Lemma length_inode es : inode_ok lvl es tail -> len (inode lvl es tail) = PAGE_BODY_SIZE.
Proof. intros K. by apply length_node, inode_node_ok. Qed.

Lemma Header_inode es :
  inode_ok lvl es tail -> Header (inode lvl es tail) = mkNodeSubHeader lvl (len es) INVALID_PAGE.
Proof. intros K. by apply Header_node, inode_node_ok. Qed.

Lemma Count_inode es : inode_ok lvl es tail -> Count (inode lvl es tail) = len es.
Proof. intros K. unfold Count. by rewrite Header_inode. Qed.

Lemma iEntryAt_inode es i e :
  inode_ok lvl es tail -> es !! i = Some e -> EntryAt (Z.of_nat i) (inode lvl es tail) = e.
Proof. intros K Hi. exact (entry_at_node eq_refl _ _ _ _ _ (inode_node_ok _ _ _ K) Hi). Qed.

Lemma copy_entries_inode es (i n : nat) :
  inode_ok lvl es tail -> (i + n <= length es)%nat ->
  copy_entries (Z.of_nat i) (Z.of_nat n) (inode lvl es tail) = take n (drop i es).
Proof. intros K Hn. exact (read_entries_node eq_refl _ _ _ _ _ (inode_node_ok _ _ _ K) Hn). Qed.

Lemma icopy_all es n :
  inode_ok lvl es tail -> n = len es -> copy_entries 0 n (inode lvl es tail) = es.
Proof.
  intros K ->. rewrite (copy_entries_inode es 0) by (done || lia). by rewrite drop_0, firstn_all.
Qed.

Lemma iInsertAt_inode l1 l2 e :
  inode_ok lvl (l1 ++ l2) tail -> len (l1 ++ l2) < NODE_CAPACITY ->
  InsertAt (len l1) e (inode lvl (l1 ++ l2) tail) = inode lvl (l1 ++ e :: l2) tail.
Proof. intros K Hc. exact (insert_at_node eq_refl _ _ _ _ e (inode_node_ok _ _ _ K) Hc). Qed.

Lemma iRemoveAt_inode l1 o l2 :
  inode_ok lvl (l1 ++ o :: l2) tail ->
  RemoveAt (len l1) (inode lvl (l1 ++ o :: l2) tail) = inode lvl (l1 ++ l2) tail.
Proof. intros K. exact (remove_at_node eq_refl _ _ _ _ _ (inode_node_ok _ _ _ K)). Qed.

Lemma SetKeyAt_inode l1 o l2 k :
  inode_ok lvl (l1 ++ o :: l2) tail ->
  SetKeyAt (len l1) k (inode lvl (l1 ++ o :: l2) tail) = inode lvl (l1 ++ set_ikey k o :: l2) tail.
Proof.
  intros K. unfold SetKeyAt.
  rewrite (iEntryAt_inode _ _ o K) by by rewrite list_lookup_middle.
  pose proof (put_entry_layout eq_refl (mkNodeSubHeader lvl (len (l1 ++ o :: l2)) INVALID_PAGE)
    (l1 ++ o :: l2) (padding (len (l1 ++ o :: l2)) ++ tail) (length l1) (set_ikey k o)
    ltac:(lens; simpl; lia)) as P.
  unfold put_entry in P. unfold inode, node at 1.
  change (InternalEntry_WriteTo ?x) with (cenc x). rewrite P.
  replace (<[length l1:=set_ikey k o]> (l1 ++ o :: l2)) with (l1 ++ set_ikey k o :: l2)
    by by rewrite insert_app_r_alt, Nat.sub_diag by lia.
  unfold node. replace (len (l1 ++ o :: l2)) with (len (l1 ++ set_ikey k o :: l2)) by (lens; simpl; lia).
  done.
Qed.
End inode_ops.

Lemma iAssign_loop_write it es body : Assign_loop it es body = write_entries it es body.
Proof. revert it body. induction es as [|e es IH]; intros it body; simpl; [done|]. apply IH. Qed.

(** [Assign] from any 4064-byte body: the canonical node with the new entries. *)
Lemma iAssign_body es body :
  len body = PAGE_BODY_SIZE -> 1 <= len es -> len es <= NODE_CAPACITY ->
  Assign es body = node (set_count (len es) (Header body)) (canon es) (drop 4056 body).
Proof.
  intros L H1 Hc. unfold Assign. destruct es as [|e es]; [done|]. simpl hd; simpl List.tl.
  rewrite iAssign_loop_write.
  pose proof (assign_body eq_refl (canon (e :: es)) body L ltac:(lens; lia)) as A.
  rewrite canon_length in A. rewrite <- A. done.
Qed.

Lemma drop_inode lvl es tail : inode_ok lvl es tail -> drop 4056 (inode lvl es tail) = tail.
Proof.
  intros K. pose proof (length_inode _ _ _ K) as L. destruct K. unfold inode, node, layout in *.
  rewrite !app_assoc in *. rewrite drop_app_length'; [done|].
  rewrite length_app in L. nlia.
Qed.

Lemma iAssign_inode lvl es es' tail :
  inode_ok lvl es tail -> 1 <= len es' -> len es' <= NODE_CAPACITY ->
  Assign es' (inode lvl es tail) = inode lvl (canon es') tail.
Proof.
  intros K H1 Hc. rewrite iAssign_body; [|by apply length_inode|done..].
  rewrite Header_inode, drop_inode by done. unfold inode. by rewrite canon_length.
Qed.

Lemma Init_inode lvl : is_u16 lvl -> Init lvl (zeros PAGE_BODY_SIZE) = inode lvl [] (zeros 8).
Proof.
  intros. unfold Init. rewrite (body_layout (zeros PAGE_BODY_SIZE)) at 1 by done.
  exact (WriteHeader_layout (E := InternalEntry) _ _ [] _).
Qed.

(** ** Search *)

Lemma ChildIndexFor_loop_bsearch fuel k body low high :
  ChildIndexFor_loop fuel k body low high = bsearch fuel (fun mid => KeyAt mid body <=? k) low high.
Proof.
  revert low high. induction fuel as [|fuel IH]; intros lo hi; simpl; [done|]. by rewrite !IH.
Qed.

Lemma iKeyAt_inode lvl es tail i e :
  inode_ok lvl es tail -> es !! i = Some e -> KeyAt (Z.of_nat i) (inode lvl es tail) = ikey e.
Proof. intros K He. unfold KeyAt. by rewrite (iEntryAt_inode _ _ _ _ _ K He). Qed.

Lemma ikeys_lookup es i e : es !! i = Some e -> ikeys es !! i = Some (ikey e).
Proof. intros H. unfold ikeys. by rewrite list_lookup_fmap, H. Qed.

Lemma lookup_Z {A} (l : list A) (i : Z) : 0 <= i < len l -> exists x, l !! Z.to_nat i = Some x.
Proof. intros. apply lookup_lt_is_Some_2. lia. Qed.

(** [ChildIndexFor] picks the last child whose separator is not above [k]; child 0 when
    there is none. *)
Lemma ChildIndexFor_inode lvl es tail k :
  inode_ok lvl es tail -> increasing (ikeys es) -> es <> [] ->
  exists l1 e l2, es = l1 ++ e :: l2 /\ ChildIndexFor k (inode lvl es tail) = len l1 /\
    (l1 <> [] -> ikey e <= k) /\ Forall (fun x => k < ikey x) l2.
Proof.
  intros K Hs Hne. unfold ChildIndexFor. rewrite Count_inode, ChildIndexFor_loop_bsearch by done.
  pose proof (iok_cap _ _ _ K). assert (1 <= len es) by (destruct es; simpl; [done|lia]).
  set (p := fun mid : Z => KeyAt mid (inode lvl es tail) <=? k).
  assert (P : forall i x, es !! i = Some x -> p (Z.of_nat i) = (ikey x <=? k)).
  { intros i x Hx. unfold p. by rewrite (iKeyAt_inode _ _ _ _ _ K Hx). }
  destruct (bsearch_spec (Z.to_nat (len es)) p 1 (len es)) as (B & T & F); [nlia.. | |].
  { intros i j Hi Hij Hj Hp. destruct (lookup_Z es i) as [x Hx]; [lia|].
    destruct (lookup_Z es j) as [y Hy]; [lia|].
    pose proof (P _ _ Hx) as Px. pose proof (P _ _ Hy) as Py. rewrite Z2Nat.id in Px, Py by lia.
    pose proof (increasing_lookup _ _ _ _ _ Hs (ikeys_lookup _ _ _ Hx) (ikeys_lookup _ _ _ Hy) ltac:(lia)).
    rewrite Px. rewrite Py in Hp. lia. }
  set (r := bsearch _ _ _ _) in *. rewrite u16_id by nlia.
  destruct (lookup_Z es (r - 1)) as [e He]; [lia|].
  exists (take (Z.to_nat (r - 1)) es), e, (drop (S (Z.to_nat (r - 1))) es).
  split; [by apply take_drop_lookup|]. split; [lens; lia|]. split.
  - intros Hn. destruct (decide (r = 1)) as [->|]; [done|].
    pose proof (T (r - 1) ltac:(lia)) as X. rewrite <- (Z2Nat.id (r - 1)), (P _ _ He) in X by lia. lia.
  - apply Forall_lookup_2. intros i x Hx. rewrite lookup_drop in Hx.
    pose proof (lookup_lt_Some _ _ _ Hx).
    pose proof (F (Z.of_nat (S (Z.to_nat (r - 1)) + i)) ltac:(lia)) as X. rewrite (P _ _ Hx) in X. lia.
Qed.

(** ** The self-check *)

(** The loop past entry 0, with [prev] the key before. *)
Lemma icheck_loop lvl l es tail prev :
  inode_ok lvl (l ++ es) tail -> l <> [] ->
  CheckInvariants_loop (length es) (len l) prev (inode lvl (l ++ es) tail) = true <->
  Forall (fun e => CATALOG_ROOT_PAGE_ID < child e) es /\ increasing (prev :: ikeys es).
Proof.
  revert l prev. induction es as [|e es IH]; intros l prev K Hl; cbn [CheckInvariants_loop length].
  { split; [|done]. intros _. repeat constructor. }
  rewrite (iEntryAt_inode _ _ _ _ e K) by by rewrite list_lookup_middle.
  assert (0 < len l) by (destruct l; simpl; [done|lia]).
  destruct (Z.eqb_spec (len l) 0); [lia|].
  replace (len l + 1) with (len (l ++ [e])) by (lens; simpl; lia).
  rewrite (cons_middle e l es), app_assoc in *. rewrite Forall_cons. simpl ikeys.
  rewrite (StronglySorted_cons _ (ikey e :: ikeys es)), Forall_cons.
  destruct ((child e =? INVALID_PAGE) || (child e <=? CATALOG_ROOT_PAGE_ID)) eqn:C.
  { split; [done|]. intros [[? _] _]. apply orb_true_iff in C. unfold_consts. lia. }
  apply orb_false_iff in C. destruct (Z.leb_spec (ikey e) prev).
  { split; [done|]. intros (_ & [? _] & _). lia. }
  rewrite IH by (done || by destruct l). split; intros (A & B).
  - split_and!; try done; [unfold_consts; lia|]. apply StronglySorted_cons in B as [B _].
    eapply Forall_impl; [exact B|]. simpl. lia.
  - by destruct A, B.
Qed.

(** [CheckInvariants] decides [inode_inv]. *)
Lemma iCheckInvariants_inode lvl es tail :
  inode_ok lvl es tail -> CheckInvariants (inode lvl es tail) = true <-> inode_inv lvl es.
Proof.
  intros K. unfold CheckInvariants. rewrite Header_inode by done. cbn [count level next_page_id].
  pose proof (iok_cap _ _ _ K). destruct (Z.ltb_spec NODE_CAPACITY (len es)); [lia|].
  destruct (Z.ltb_spec lvl 1); [split; [done|intros []; lia]|].
  simpl (negb (INVALID_PAGE =? INVALID_PAGE)). cbn match. rewrite Nat2Z.id.
  destruct es as [|e es].
  { split; [|done]. intros _. split; try done. constructor. }
  cbn [CheckInvariants_loop length].
  rewrite (iEntryAt_inode _ _ _ 0 e K eq_refl : EntryAt 0 _ = e).
  change (0 =? 0) with true. cbn match. change (0 + 1) with (len [e]).
  pose proof (icheck_loop lvl [e] es tail INT64_MIN K ltac:(done)) as L. simpl app in L.
  assert (E : canon (e :: es) = e :: es <-> ikey e = INT64_MIN).
  { destruct e. simpl. split; [by intros [= ->]|by intros ->]. }
  destruct ((child e =? INVALID_PAGE) || (child e <=? CATALOG_ROOT_PAGE_ID)) eqn:C.
  { split; [done|]. intros [_ _ [? _]%Forall_cons _]. apply orb_true_iff in C. unfold_consts. lia. }
  apply orb_false_iff in C. destruct (Z.eqb_spec (ikey e) INT64_MIN) as [Ek|Ek]; simpl negb; cbn match.
  - rewrite L. split.
    + intros [A B]. split; [lia|tauto| |simpl; congruence]. constructor; [unfold_consts; lia|done].
    + intros [_ _ [_ A]%Forall_cons B]. simpl in B. by rewrite Ek in B.
  - split; [done|]. intros [_ F _ _]. tauto.
Qed.

(** ** Splits, rotations and merges *)

Lemma SplitInternal_inode lvl l1 l2 e tl ys tr :
  inode_ok lvl (l1 ++ l2) tl -> inode_ok lvl ys tr -> 1 <= len (l1 ++ l2) ->
  let temp := l1 ++ e :: l2 in
  let m := (len temp + 1) / 2 in
  SplitInternal (inode lvl (l1 ++ l2) tl) (inode lvl ys tr) (len l1) e =
    (ikey (nth (Z.to_nat m) temp e), inode lvl (canon (slice 0 m temp)) tl,
     inode lvl (canon (slice m (len temp - m) temp)) tr).
Proof.
  intros K Kr H1 temp m. unfold SplitInternal. rewrite Count_inode by done.
  replace (len (l1 ++ l2) - len l1) with (len l2) by (lens; lia).
  rewrite (copy_entries_inode _ _ _ 0), copy_entries_inode by (done || lens; lia).
  rewrite drop_0, take_app_length, drop_app_length, firstn_all. cbn [app]. fold temp.
  assert (Et : len (l1 ++ l2) + 1 = len temp) by (unfold temp; lens; simpl; lia).
  rewrite Et. fold m. pose proof (iok_cap _ _ _ K).
  destruct (slices_cut m temp) as (_ & Lx & Ly); [lia|].
  rewrite (iAssign_inode lvl (l1 ++ l2)) by (done || lia).
  rewrite (iAssign_inode lvl ys) by (done || lia). done.
Qed.

Section two_inodes.
Variables (lvl : Z) (xs ys : list InternalEntry) (tl tr : list byte) (sep : Z).
Hypothesis Kl : inode_ok lvl xs tl.
Hypothesis Kr : inode_ok lvl ys tr.

Lemma itemp_two y ys' :
  ys = y :: ys' ->
  alter (set_ikey sep) (Z.to_nat (Count (inode lvl xs tl)))
    (copy_entries 0 (Count (inode lvl xs tl)) (inode lvl xs tl) ++
     copy_entries 0 (Count (inode lvl ys tr)) (inode lvl ys tr)) = join sep xs ys.
Proof.
  intros E. rewrite !icopy_all by (try rewrite Count_inode; done).
  rewrite E. apply alter_middle. by rewrite Count_inode.
Qed.

Lemma RotateInternalRight_inode xs' x y ys' :
  xs = xs' ++ [x] -> xs' <> [] -> ys = y :: ys' -> len ys < NODE_CAPACITY ->
  RotateInternalRight (inode lvl xs tl) (inode lvl ys tr) sep =
    (ikey x, inode lvl (canon xs') tl, inode lvl (canon (x :: set_ikey sep y :: ys')) tr).
Proof.
  intros Ex Hx Ey Hc. unfold RotateInternalRight. rewrite (itemp_two _ _ Ey).
  rewrite !icopy_all, !Count_inode by (try rewrite Count_inode; done).
  unfold join. rewrite Ey. pose proof (iok_cap _ _ _ Kl) as Cl.
  replace (nth _ (xs ++ y :: ys') InternalEntry_default) with x.
  2: { rewrite Ex, <- app_assoc, app_nth2 by (lens; simpl; lia).
       replace (_ - _)%nat with 0%nat by (lens; simpl; lia). done. }
  replace (xs ++ set_ikey sep y :: ys') with (xs' ++ x :: set_ikey sep y :: ys')
    by by rewrite Ex, <- app_assoc.
  assert (Lx : len xs = len xs' + 1) by (rewrite Ex; lens; simpl; lia). 
  assert (len xs' <> 0) by (destruct xs'; [done|simpl; lia]).
  rewrite slice_head, slice_tail by (lens; simpl; lia). rewrite <- Ey.
  rewrite !iAssign_inode by (done || rewrite ?Ey in *; simpl length in *; lia). done.
Qed.

Lemma RotateInternalLeft_inode y y2 ys' :
  ys = y :: y2 :: ys' -> len xs < NODE_CAPACITY ->
  RotateInternalLeft (inode lvl xs tl) (inode lvl ys tr) sep =
    (ikey y2, inode lvl (canon (xs ++ [set_ikey sep y])) tl, inode lvl (canon (y2 :: ys')) tr).
Proof.
  intros Ey Hc. unfold RotateInternalLeft. rewrite (itemp_two _ _ Ey).
  rewrite !icopy_all, !Count_inode by (try rewrite Count_inode; done).
  unfold join. rewrite Ey. pose proof (iok_cap _ _ _ Kr) as Cr. rewrite Ey in Cr.
  replace (nth _ (xs ++ y :: y2 :: ys') InternalEntry_default) with y2.
  2: { rewrite app_nth2 by lia. replace (_ - _)%nat with 1%nat by lia. done. }
  rewrite (cons_middle (set_ikey sep y) xs), app_assoc.
  rewrite slice_head, slice_tail by (lens; simpl; lia). rewrite <- Ey.
  rewrite !iAssign_inode by (done || lens; simpl length in *; lia). done.
Qed.

Lemma MergeInternal_inode y ys' :
  ys = y :: ys' -> len xs + len ys <= NODE_CAPACITY ->
  MergeInternal (inode lvl xs tl) (inode lvl ys tr) sep = inode lvl (canon (join sep xs ys)) tl.
Proof.
  intros Ey Hc. unfold MergeInternal. rewrite (itemp_two _ _ Ey), !Count_inode by done.
  assert (Lj : len (join sep xs ys) = len xs + len ys) by (unfold join; rewrite Ey; lens; simpl; lia).
  rewrite slice_full by lia.
  assert (1 <= len ys) by (rewrite Ey; simpl; lia).
  apply iAssign_inode; [done|lia|lia].
Qed.
End two_inodes.

(** ** The assertions hold on the nodes a tree is made of *)

Lemma ChildIndexFor_reads_ok fuel k body low high :
  Count body <= NODE_CAPACITY -> 1 <= low -> high <= Count body -> ChildIndexFor_reads fuel k body low high = true.
Proof.
  intros Hc. revert low high. induction fuel as [|fuel IH]; intros low high H0 H1; [done|]. cbn [ChildIndexFor_reads].
  destruct (Z.ltb_spec low high) as [Hlt|]; [|done]. pose proof (Z.div_mod (high - low) 2 ltac:(lia)). pose proof (Z.mod_pos_bound (high - low) 2 ltac:(lia)).
  rewrite !u16_id by (unfold is_u16; nlia).
  assert (A : KeyAt_asserts (low + (high - low) / 2) body = true) by (unfold KeyAt_asserts, EntryAt_asserts; nlia).
  rewrite A. cbn [andb]. destruct (_ <=? k); apply IH; nlia.
Qed.

Section inode_asserts.
Context (lvl : Z) (tail : list byte).

Lemma Level_inode es : inode_ok lvl es tail -> Level (inode lvl es tail) = lvl.
Proof. intros K. unfold Level. by rewrite Header_inode. Qed.

Lemma ChildIndexFor_asserts_inode es k : inode_ok lvl es tail -> ChildIndexFor_asserts k (inode lvl es tail) = true.
Proof. intros K. pose proof (iok_cap _ _ _ K). apply ChildIndexFor_reads_ok; rewrite ?Count_inode by done; lia. Qed.

Lemma EntryAt_asserts_inode es i : inode_ok lvl es tail -> i < len es -> EntryAt_asserts i (inode lvl es tail) = true.
Proof. intros K Hi. pose proof (iok_cap _ _ _ K). unfold EntryAt_asserts. rewrite Count_inode by done. asserts. Qed.

Lemma KeyAt_asserts_inode es i : inode_ok lvl es tail -> 1 <= i < len es -> KeyAt_asserts i (inode lvl es tail) = true.
Proof. intros K Hi. unfold KeyAt_asserts. rewrite EntryAt_asserts_inode, Count_inode by (done || lia). asserts. Qed.

Lemma SetKeyAt_asserts_inode es i : inode_ok lvl es tail -> 1 <= i < len es -> SetKeyAt_asserts i (inode lvl es tail) = true.
Proof. exact (KeyAt_asserts_inode es i). Qed.

Lemma iInsertAt_asserts_inode l1 l2 :
  inode_ok lvl (l1 ++ l2) tail -> len (l1 ++ l2) < NODE_CAPACITY -> 1 <= len l1 ->
  InsertAt_asserts (len l1) (inode lvl (l1 ++ l2) tail) = true.
Proof. intros K Hc Hl. unfold InsertAt_asserts. rewrite Count_inode by done. rewrite length_app in *. asserts. Qed.

Lemma iRemoveAt_asserts_inode l1 e l2 :
  inode_ok lvl (l1 ++ e :: l2) tail -> 1 <= len l1 -> RemoveAt_asserts (len l1) (inode lvl (l1 ++ e :: l2) tail) = true.
Proof.
  intros K Hl. pose proof (iok_cap _ _ _ K). unfold RemoveAt_asserts. rewrite Count_inode by done. rewrite length_app in *. cbn [length] in *. asserts.
Qed.

Lemma SplitInternal_asserts_inode l1 l2 tr :
  inode_ok lvl (l1 ++ l2) tail -> inode_ok lvl [] tr -> 2 <= len (l1 ++ l2) -> 1 <= len l1 ->
  SplitInternal_asserts (inode lvl (l1 ++ l2) tail) (inode lvl [] tr) (len l1) = true.
Proof.
  intros K Kr Hn Hl. pose proof (iok_cap _ _ _ K). unfold SplitInternal_asserts, copy_asserts, Assign_asserts, Level.
  rewrite !Count_inode, !Header_inode by done. cbn [level]. rewrite length_app in *. cbn [length] in *. set (n := Z.of_nat (length l1 + length l2)) in *.
  pose proof (Z.div_mod (n + 1 + 1) 2 ltac:(lia)). pose proof (Z.mod_pos_bound (n + 1 + 1) 2 ltac:(lia)). asserts.
Qed.

Lemma RotateInternalRight_asserts_inode xs ys tr :
  inode_ok lvl xs tail -> inode_ok lvl ys tr -> 2 <= len xs -> 1 <= len ys < NODE_CAPACITY ->
  RotateInternalRight_asserts (inode lvl xs tail) (inode lvl ys tr) = true.
Proof.
  intros K Kr H1 H2. pose proof (iok_cap _ _ _ K). unfold RotateInternalRight_asserts, copy_asserts, Assign_asserts, Level.
  rewrite !Count_inode, !Header_inode by done. cbn [level]. asserts.
Qed.

Lemma RotateInternalLeft_asserts_inode xs ys tr :
  inode_ok lvl xs tail -> inode_ok lvl ys tr -> 2 <= len ys -> 1 <= len xs < NODE_CAPACITY ->
  RotateInternalLeft_asserts (inode lvl xs tail) (inode lvl ys tr) = true.
Proof.
  intros K Kr H1 H2. pose proof (iok_cap _ _ _ Kr). unfold RotateInternalLeft_asserts, copy_asserts, Assign_asserts, Level.
  rewrite !Count_inode, !Header_inode by done. cbn [level]. asserts.
Qed.

Lemma MergeInternal_asserts_inode xs ys tr :
  inode_ok lvl xs tail -> inode_ok lvl ys tr -> 1 <= len xs -> 1 <= len ys -> len xs + len ys <= NODE_CAPACITY ->
  MergeInternal_asserts (inode lvl xs tail) (inode lvl ys tr) = true.
Proof.
  intros K Kr H1 H2 Hc. unfold MergeInternal_asserts, copy_asserts, Assign_asserts, Level. rewrite !Count_inode, !Header_inode by done. cbn [level]. asserts.
Qed.
End inode_asserts.
