(* ===== verification/InternalNodeTheorems.v ===== *)
(** * What internal nodes guarantee the tree

    The claims about InternalNode.v: routing, the self-check, the parent update after a
    child splits, and the split, rotations and merge, stated on the joined sequence of
    bounded children two neighbours and their separator stand for. *)

From S2P Require Import Prelude Common NodeArray InternalNode InternalNodeProofs.

Lemma ikeys_app es es' : ikeys (es ++ es') = ikeys es ++ ikeys es'.
Proof. apply fmap_app. Qed.

Lemma canon_app xs ys : xs <> [] -> canon (xs ++ ys) = canon xs ++ ys.
Proof. by destruct xs. Qed.

Lemma canon_id xs ys : xs <> [] -> canon (xs ++ ys) = xs ++ ys -> canon xs = xs.
Proof. destruct xs as [|x xs]; [done|]. intros _ [= E]. simpl. by rewrite E. Qed.

Lemma canon_join sep xs ys : join sep xs (canon ys) = join sep xs ys.
Proof. by destruct ys. Qed.

Lemma set_ikey_id e : set_ikey (ikey e) e = e.
Proof. by destruct e. Qed.

Definition children_ok (es : list InternalEntry) : Prop :=
  Forall (fun e => CATALOG_ROOT_PAGE_ID < child e) es.

Lemma canon_children es : children_ok es -> children_ok (canon es).
Proof. destruct es; [done|]. intros [? ?]%Forall_cons. by constructor. Qed.

(** A cut of a legal sequence is legal on the left, and on the right once its first key is
    replaced by the placeholder. *)
Lemma inode_inv_left lvl xs ys : xs <> [] -> inode_inv lvl (xs ++ ys) -> inode_inv lvl xs.
Proof.
  intros Hn [L C V S]. apply Forall_app in V as [V _]. rewrite ikeys_app in S.
  split; try done; [by eapply canon_id|by eapply StronglySorted_app_1_l].
Qed.

Lemma is_s64_min k : is_s64 k -> INT64_MIN <= k.
Proof. unfold_ints. lia. Qed.

Lemma inode_inv_right lvl xs y ys :
  Forall InternalEntry_wf (y :: ys) ->
  inode_inv lvl (xs ++ y :: ys) -> inode_inv lvl (canon (y :: ys)).
Proof.
  intros W [L C V S]. apply Forall_app in V as [_ V]. rewrite ikeys_app in S.
  apply StronglySorted_app_1_r in S. simpl in S. apply StronglySorted_cons in S as [F S].
  split; [done | done | by apply (canon_children (y :: ys)) |].
  simpl. constructor; [done|]. apply Forall_cons in W as [[Wy _] _]. apply is_s64_min in Wy.
  eapply Forall_impl; [exact F|]. simpl. lia.
Qed.

(** Restoring the first key of the right part. *)
Lemma join_cut xs y ys : join (ikey y) xs (canon (y :: ys)) = xs ++ y :: ys.
Proof. rewrite canon_join. unfold join. by rewrite set_ikey_id. Qed.

Lemma increasing_lt_elem xs y ys x :
  increasing (ikeys (xs ++ y :: ys)) -> x ∈ xs -> ikey x < ikey y.
Proof.
  rewrite ikeys_app. intros S Hx. eapply StronglySorted_app_1_elem_of; [done| |by left].
  apply list_elem_of_fmap. eauto.
Qed.

(** ** Claims *)

(** C37: [ChildIndexFor] terminates, as many turns as there are entries being enough on any
    body (more fuel changes nothing), and routes a key to the unique child whose range holds
    it: every separator up to the result is not above the key and every later one is above it,
    child 0 taking the keys below all separators. *)
Theorem inode_child_index lvl es tail k :
  inode_ok lvl es tail -> increasing (ikeys es) -> es <> [] ->
  (forall body n, ChildIndexFor_loop (Z.to_nat (Count body) + n) k body 1 (Count body) =
    ChildIndexFor_loop (Z.to_nat (Count body)) k body 1 (Count body)) /\
  let r := ChildIndexFor k (inode lvl es tail) in
  0 <= r < Count (inode lvl es tail) /\
  forall i e, (1 <= i)%nat -> es !! i = Some e -> Z.of_nat i <= r <-> ikey e <= k.
Proof.
  intros K Hs Hne. split.
  { intros body n. rewrite !ChildIndexFor_loop_bsearch. destruct (Header_wf body) as (_ & Rc & _). unfold is_u16 in Rc.
    unfold Count. apply bsearch_enough; lia. }
  intros r. destruct (ChildIndexFor_inode lvl es tail k K Hs Hne) as (l1 & e & l2 & E & Er & H1 & F2).
  subst r. rewrite Er, Count_inode by done. split; [rewrite E; lens; simpl; lia|].
  intros i x Hi Hx. destruct (decide (i <= length l1)%nat).
  - assert (He : es !! length l1 = Some e) by (rewrite E; by apply list_lookup_middle).
    assert (Hn : l1 <> []) by (intros ->; simpl in *; lia). specialize (H1 Hn).
    destruct (decide (i = length l1)) as [->|].
    + rewrite He in Hx. injection Hx as <-. lia.
    + pose proof (increasing_lookup _ _ _ _ _ Hs (ikeys_lookup _ _ _ Hx) (ikeys_lookup _ _ _ He)
        ltac:(lia)). lia.
  - rewrite E, lookup_app_r in Hx by lia.
    destruct (i - length l1)%nat as [|j] eqn:Ej; [lia|]. simpl in Hx.
    pose proof (Forall_lookup_1 _ _ _ _ F2 Hx). simpl in *. lia.
Qed.

Lemma copy_entries_cons i n body : 0 < n -> copy_entries i n body = EntryAt i body :: copy_entries (i + 1) (n - 1) body.
Proof. intros Hn. unfold copy_entries. by rewrite seqZ_cons by lia. Qed.

(** The entry loop of [CheckInvariants] from an entry behind the first. *)
Lemma check_loop_entries n i prev body :
  1 <= i -> CheckInvariants_loop n i prev body = true <->
  children_ok (copy_entries i (Z.of_nat n) body) /\ increasing (prev :: ikeys (copy_entries i (Z.of_nat n) body)).
Proof.
  revert i prev. induction n as [|n IH]; intros i prev Hi.
  { split; [|done]. intros _. split; constructor; constructor. }
  rewrite copy_entries_cons by lia. replace (Z.of_nat (S n) - 1) with (Z.of_nat n) by lia. cbn [CheckInvariants_loop]. set (e := EntryAt i body).
  specialize (IH (i + 1) (ikey e) ltac:(lia)). set (es := copy_entries (i + 1) (Z.of_nat n) body) in *.
  assert (Cut : increasing (prev :: ikeys (e :: es)) <-> prev < ikey e /\ increasing (ikey e :: ikeys es)).
  { simpl. split.
    - intros [[Lt _]%Forall_cons S]%StronglySorted_cons. done.
    - intros [Lt S]. apply StronglySorted_cons. split; [|done]. apply StronglySorted_cons in S as [F _]. constructor; [done|].
      eapply Forall_impl; [exact F|]. simpl. lia. }
  rewrite Cut. unfold children_ok. rewrite Forall_cons. fold (children_ok es).
  destruct ((child e =? INVALID_PAGE) || (child e <=? CATALOG_ROOT_PAGE_ID)) eqn:Ch.
  { split; [done|]. intros [[Bad _] _]. apply orb_true_iff in Ch. unfold_consts. lia. }
  apply orb_false_iff in Ch as [_ Ch%Z.leb_gt]. destruct (Z.eqb_spec i 0); [lia|].
  destruct (Z.leb_spec (ikey e) prev); [split; [done|lia]|]. rewrite IH. tauto.
Qed.

(** C38: [CheckInvariants] of an internal node decides well-formedness, on every page body,
    garbage included.  It accepts exactly when the count is within the capacity, there is no
    sibling link, the level is at least 1, entry 0 holds the placeholder, every child is a
    data page and the separators are strictly increasing and above INT64_MIN. *)
Theorem inode_check_decides body :
  CheckInvariants body = true <->
  count (Header body) <= NODE_CAPACITY /\ next_page_id (Header body) = INVALID_PAGE /\
  inode_inv (level (Header body)) (copy_entries 0 (Count body) body).
Proof.
  unfold CheckInvariants. change (Count body) with (count (Header body)). pose proof (Header_wf body) as (_ & Rc & _).
  unfold is_u16 in Rc.
  destruct (Z.ltb_spec NODE_CAPACITY (count (Header body))); [split; [done|intros [? _]; lia]|].
  destruct (Z.ltb_spec (level (Header body)) 1); [split; [done|intros (_ & _ & []); lia]|].
  destruct (Z.eqb_spec (next_page_id (Header body)) INVALID_PAGE) as [Hn|Hn]; [|split; [done|by intros (_ & ? & _)]]. simpl negb. cbn match.
  destruct (Z.to_nat (count (Header body))) as [|n] eqn:En.
  { replace (count (Header body)) with 0 by lia. split; [|done]. intros _. split; [lia|]. split; [done|]. split; try done; constructor. }
  rewrite copy_entries_cons by lia. replace (count (Header body) - 1) with (Z.of_nat n) by lia. cbn [CheckInvariants_loop]. set (e := EntryAt 0 body).
  pose proof (check_loop_entries n (0 + 1) INT64_MIN body ltac:(lia)) as L. set (es := copy_entries (0 + 1) (Z.of_nat n) body) in *.
  assert (E : canon (e :: es) = e :: es <-> ikey e = INT64_MIN).
  { destruct e. simpl. split; [by intros [= ->]|by intros ->]. }
  destruct ((child e =? INVALID_PAGE) || (child e <=? CATALOG_ROOT_PAGE_ID)) eqn:C.
  { split; [done|]. intros (_ & _ & [_ _ [? _]%Forall_cons _]). apply orb_true_iff in C. unfold_consts. lia. }
  apply orb_false_iff in C as [_ C%Z.leb_gt]. change (0 =? 0) with true. cbn match.
  destruct (Z.eqb_spec (ikey e) INT64_MIN) as [Ek|Ek]; simpl negb; cbn match.
  - rewrite L. split.
    + intros [A B]. split; [lia|]. split; [done|]. split; [lia|tauto|by constructor|].
      change (increasing (ikey e :: ikeys es)). by rewrite Ek.
    + intros (_ & _ & [_ _ [_ A]%Forall_cons B]). change (increasing (ikey e :: ikeys es)) in B. by rewrite Ek in B.
  - split; [done|]. intros (_ & _ & [_ F _ _]). tauto.
Qed.

(** Linking a new right sibling into the parent: inserting (separator, page) right after
    the child that split, with the separator inside that child's range, keeps
    [CheckInvariants], and removing it again restores the parent byte for byte. *)
Lemma inode_insert_child lvl l1 l2 tail e :
  inode_ok lvl (l1 ++ l2) tail -> inode_inv lvl (l1 ++ l2) -> l1 <> [] ->
  len (l1 ++ l2) < NODE_CAPACITY -> InternalEntry_wf e -> CATALOG_ROOT_PAGE_ID < child e ->
  (forall x, x ∈ l1 -> ikey x < ikey e) -> (forall x, x ∈ l2 -> ikey e < ikey x) ->
  let body := inode lvl (l1 ++ l2) tail in
  CheckInvariants (InsertAt (len l1) e body) = true /\
  RemoveAt (len l1) (InsertAt (len l1) e body) = body.
Proof.
  intros K I Hn Hc We Hch A B body. unfold body. rewrite iInsertAt_inode by done.
  destruct I as [L C V S].
  assert (K' : inode_ok lvl (l1 ++ e :: l2) tail).
  { eapply inode_ok_entries; [done | lens; simpl; lia |].
    pose proof (iok_entries _ _ _ K) as W. apply Forall_app in W as [W1 W2].
    apply Forall_app. split; [done|]. by constructor. }
  split; [|by apply iRemoveAt_inode]. apply iCheckInvariants_inode; [done|]. split; [done| | |].
  - rewrite canon_app by done. f_equal. by eapply canon_id.
  - apply Forall_app in V as [V1 V2]. apply Forall_app. split; [done|]. by constructor.
  - rewrite ikeys_app in *. simpl. apply increasing_insert; [done| |];
      intros k (x & -> & Hx)%list_elem_of_fmap; auto.
Qed.

(** An internal split conserves children and separators: left, the returned separator
    and right, joined, are the old entries with the new one in place; left keeps
    ceil((n+1)/2) children; the separator is in neither half and is strictly above left's
    keys; both halves pass [CheckInvariants]. *)
Lemma inode_split_correct lvl l1 l2 e tl tr :
  inode_ok lvl (l1 ++ l2) tl -> inode_ok lvl [] tr -> InternalEntry_wf e ->
  inode_inv lvl (l1 ++ e :: l2) -> 2 <= len (l1 ++ l2) ->
  let '(sep, left', right') := SplitInternal (inode lvl (l1 ++ l2) tl) (inode lvl [] tr) (len l1) e in
  exists xs ys, left' = inode lvl xs tl /\ right' = inode lvl ys tr /\
    join sep xs ys = l1 ++ e :: l2 /\
    len xs = (len (l1 ++ l2) + 2) / 2 /\ len ys = (len (l1 ++ l2) + 1) / 2 /\
    (forall x, x ∈ xs -> ikey x < sep) /\
    CheckInvariants left' = true /\ CheckInvariants right' = true.
Proof.
  intros K Kr We I Hn. rewrite SplitInternal_inode by (done || lia).
  set (temp := l1 ++ e :: l2) in *. set (m := (len temp + 1) / 2).
  pose proof (iok_cap _ _ _ K) as Cap.
  assert (Lt : len temp = len (l1 ++ l2) + 1) by (unfold temp; lens; simpl; lia).
  destruct (slices_cut m temp) as (Ecut & Lx & Ly); [lia|].
  destruct (nth_slice_head m (len temp - m) temp e) as [ys' Eh]; [lia..|].
  assert (Wt : Forall InternalEntry_wf temp).
  { pose proof (iok_entries _ _ _ K) as W. apply Forall_app in W as [W1 W2].
    apply Forall_app. split; [done|]. by constructor. }
  assert (Wx : Forall InternalEntry_wf (slice 0 m temp)) by by apply Forall_slice.
  assert (Wy : Forall InternalEntry_wf (slice m (len temp - m) temp)) by by apply Forall_slice.
  set (xs := slice 0 m temp) in *. set (sep := ikey _). rewrite Eh in *.
  set (y := nth (Z.to_nat m) temp e) in *. rewrite <- Ecut in I.
  assert (Hx : xs <> []) by (intros E; rewrite E in Lx; simpl in Lx; lia).
  pose proof (inode_inv_left _ _ _ Hx I) as Ix. pose proof (inode_inv_right _ _ _ _ Wy I) as Iy.
  rewrite (iinv_first _ _ Ix). exists xs, (canon (y :: ys')).
  rewrite !iCheckInvariants_inode.
  - split_and!; try done; [by rewrite <- Ecut; apply join_cut|lia|lens; lia|].
    intros x. apply (increasing_lt_elem _ _ ys'), I.
  - apply (inode_ok_entries lvl []); [done|lens; lia|by apply canon_wf].
  - apply (inode_ok_entries lvl (l1 ++ l2)); [done|lia|done].
Qed.

(** Lending a child to the right sibling rotates through the parent: left', the returned
    key and right' join to the same sequence of bounded children as before, one child moved,
    and both nodes pass [CheckInvariants]. *)
Lemma inode_rotate_right_correct lvl xs x ys tl tr sep :
  inode_ok lvl (xs ++ [x]) tl -> inode_ok lvl ys tr -> is_s64 sep -> xs <> [] -> ys <> [] ->
  inode_inv lvl (join sep (xs ++ [x]) ys) -> len ys < NODE_CAPACITY ->
  let '(up, left', right') := RotateInternalRight (inode lvl (xs ++ [x]) tl) (inode lvl ys tr) sep in
  exists ys', left' = inode lvl xs tl /\ right' = inode lvl ys' tr /\ len ys' = len ys + 1 /\
    join up xs ys' = join sep (xs ++ [x]) ys /\
    CheckInvariants left' = true /\ CheckInvariants right' = true.
Proof.
  intros Kl Kr Hs Hx Hy I Hc. destruct ys as [|y ys]; [done|].
  rewrite (RotateInternalRight_inode lvl (xs ++ [x]) (y :: ys) tl tr sep Kl Kr xs x y ys) by done.
  unfold join in I. rewrite <- app_assoc in I. simpl app in I.
  pose proof (inode_inv_left _ _ _ Hx I) as Ix. rewrite (iinv_first _ _ Ix).
  pose proof (iok_entries _ _ _ Kl) as Wl. apply Forall_app in Wl as [W1 W2].
  pose proof (iok_entries _ _ _ Kr) as Wr. apply Forall_cons in Wr as [Wy Wr].
  assert (W : Forall InternalEntry_wf (x :: set_ikey sep y :: ys)).
  { apply Forall_cons. split; [by apply (Forall_singleton InternalEntry_wf)|].
    constructor; [by apply set_ikey_wf|done]. }
  exists (canon (x :: set_ikey sep y :: ys)). rewrite !iCheckInvariants_inode.
  - split_and!; try done; [lens; simpl; lia| |by eapply inode_inv_right].
    unfold join at 2. rewrite <- app_assoc. simpl app. apply join_cut.
  - apply (inode_ok_entries lvl (y :: ys)); [done|simpl length in *; lia|by apply canon_wf].
  - apply (inode_ok_entries lvl (xs ++ [x])); [done| |done].
    pose proof (iok_cap _ _ _ Kl) as C. rewrite length_app in C. lia.
Qed.

(** Lending a child to the left sibling is the mirror image: the joined sequence is
    unchanged, right's first separator goes up, and both nodes pass [CheckInvariants]. *)
Lemma inode_rotate_left_correct lvl xs y y2 ys tl tr sep :
  inode_ok lvl xs tl -> inode_ok lvl (y :: y2 :: ys) tr -> is_s64 sep -> xs <> [] ->
  inode_inv lvl (join sep xs (y :: y2 :: ys)) -> len xs < NODE_CAPACITY ->
  let '(up, left', right') := RotateInternalLeft (inode lvl xs tl) (inode lvl (y :: y2 :: ys) tr) sep in
  exists xs' ys', left' = inode lvl xs' tl /\ right' = inode lvl ys' tr /\ len xs' = len xs + 1 /\
    join up xs' ys' = join sep xs (y :: y2 :: ys) /\
    CheckInvariants left' = true /\ CheckInvariants right' = true.
Proof.
  intros Kl Kr Hs Hx I Hc.
  rewrite (RotateInternalLeft_inode lvl xs _ tl tr sep Kl Kr y y2 ys) by done.
  unfold join in I. rewrite (cons_middle (set_ikey sep y) xs), app_assoc in I.
  assert (Hn : xs ++ [set_ikey sep y] <> []) by by destruct xs.
  pose proof (inode_inv_left _ _ _ Hn I) as Ix. rewrite (iinv_first _ _ Ix).
  pose proof (iok_entries _ _ _ Kr) as Wr. apply Forall_cons in Wr as [Wy Wr].
  exists (xs ++ [set_ikey sep y]), (canon (y2 :: ys)). rewrite !iCheckInvariants_inode.
  - split_and!; try done; [lens; simpl; lia| |by eapply inode_inv_right].
    rewrite join_cut. unfold join. by rewrite <- app_assoc.
  - apply (inode_ok_entries lvl (y :: y2 :: ys)); [done| |by apply canon_wf].
    pose proof (iok_cap _ _ _ Kr) as C. simpl length in *. lia.
  - apply (inode_ok_entries lvl xs); [done|lens; simpl; lia|].
    apply Forall_app. split; [apply Kl|]. apply Forall_singleton. by apply set_ikey_wf.
Qed.

(** An internal merge leaves in left exactly the joined sequence: left's entries, the
    separator brought down over right's first child, then the rest of right. *)
Lemma inode_merge_correct lvl xs ys tl tr sep :
  inode_ok lvl xs tl -> inode_ok lvl ys tr -> is_s64 sep -> xs <> [] -> ys <> [] ->
  inode_inv lvl (join sep xs ys) -> len xs + len ys <= NODE_CAPACITY ->
  let left' := MergeInternal (inode lvl xs tl) (inode lvl ys tr) sep in
  left' = inode lvl (join sep xs ys) tl /\ Count left' = len xs + len ys /\
  children (join sep xs ys) = children xs ++ children ys /\ CheckInvariants left' = true.
Proof.
  intros Kl Kr Hs Hx Hy I Hc left'. destruct ys as [|y ys]; [done|]. unfold left'.
  rewrite (MergeInternal_inode lvl xs (y :: ys) tl tr sep Kl Kr y ys) by done.
  rewrite (iinv_first _ _ I).
  assert (Lj : len (join sep xs (y :: ys)) = len xs + len (y :: ys)) by (unfold join; lens; simpl; lia).
  assert (K : inode_ok lvl (join sep xs (y :: ys)) tl).
  { apply (inode_ok_entries lvl xs); [done|lia|]. unfold join. apply Forall_app.
    split; [apply Kl|]. pose proof (iok_entries _ _ _ Kr) as W. apply Forall_cons in W as [Wy W].
    constructor; [by apply set_ikey_wf|done]. }
  rewrite Count_inode, iCheckInvariants_inode by done. split_and!; try done.
  unfold join, children. by rewrite fmap_app.
Qed.

(** The occupancy floors are consistent for every fanout the tree accepts: splitting a
    full leaf or internal node leaves both halves at or above the floor and within the
    fanout, and merging an underfull node with a sibling at the floor fits in one node. *)
Lemma occupancy_consistent max :
  MIN_FANOUT <= max <= NODE_CAPACITY ->
  LeafMinEntries max <= (max + 1) / 2 /\ (max + 2) / 2 <= max /\
  (LeafMinEntries max - 1) + LeafMinEntries max <= max /\
  2 <= InternalMinChildren max /\ InternalMinChildren max <= (max + 1) / 2 /\
  (InternalMinChildren max - 1) + InternalMinChildren max <= max.
Proof. intros. nlia. Qed.

(** ** Concrete nodes *)

(** Separator [k] over child [100 + k mod 50]; entry 0 with the placeholder. *)
Definition ient (k : Z) : InternalEntry := mkInternalEntry k (100 + k mod 50) 0.
Definition ient0 : InternalEntry := mkInternalEntry INT64_MIN 50 0.
Definition inode_of (ks : list Z) : list byte := inode 1 (ient0 :: (ient <$> ks)) (zeros 8).

Lemma ient_wf k : is_s64 k -> InternalEntry_wf (ient k).
Proof. intros. split; [done|]. simpl. unfold_ints. lia. Qed.
Lemma ient0_wf : InternalEntry_wf ient0.
Proof. unfold InternalEntry_wf, ient0. simpl. unfold_ints. lia. Qed.

Ltac ient_concrete := first [apply ient0_wf | apply ient_wf; unfold_ints; lia].
Ltac inode_ok_concrete :=
  split; [unfold_ints; lia | vm_compute; congruence
         | repeat (apply Forall_cons; split; [ient_concrete|]); apply Forall_nil; done
         | reflexivity].
Ltac inode_inv_concrete :=
  split; [lia | reflexivity | repeat constructor | vm_compute; repeat constructor].

Lemma inode_child_index_witness :
  ChildIndexFor 25 (inode_of [10; 20; 30]) = 2 /\ ChildIndexFor 5 (inode_of [10; 20; 30]) = 0 /\
  (Z.of_nat 1 <= 2 <-> ikey (ient 10) <= 25).
Proof.
  assert (E : ChildIndexFor 25 (inode_of [10; 20; 30]) = 2) by (vm_compute; reflexivity).
  split; [exact E|]. split; [vm_compute; reflexivity|]. rewrite <- E.
  refine (proj2 (proj2 (inode_child_index 1 (ient0 :: (ient <$> [10; 20; 30])) (zeros 8) 25 _ _ _)) 1%nat (ient 10) _ _).
  - inode_ok_concrete.
  - vm_compute. repeat constructor.
  - discriminate.
  - lia.
  - reflexivity.
Defined.
