(* ===== verification/DiskManager.v ===== *)
(** * Disk manager: src/src/storage/disk_manager.hpp, disk_manager.cpp

    The database file is a [list byte].  The operating system's part of every [pread] and
    [pwrite] is an explicit schedule of events, consumed one per call: how many bytes the
    call transfers, an interruption, or an error.  Every theorem is quantified over the
    schedule; a schedule that has run out stands for calls that transfer everything. *)

From S2P Require Import Prelude Common.

(** ** The system calls *)

(** [EvXfer k]: at most [k + 1] bytes move (a non-empty transfer on a regular file moves at
    least one byte unless a read is at end of file).  [EvErr errno]: the call returns -1. *)
Inductive Event := EvXfer (k : nat) | EvErr (errno : Z).

Definition EINTR : Z := 4.

(** [std::system_category().message(err)]. *)
Class ErrnoText := { errno_message : Z -> string }.

(** The effect of writing [bs] at [off]: the file grows, zero filled, when the write
    reaches past its end. *)
Definition file_write (off : Z) (bs file : list byte) : list byte :=
  patch off bs (file ++ zeros (off + len bs - len file)).

(** A successful transfer of [pwrite(fd, buf, n, off)]: how many bytes, and the new file. *)
Definition pwrite (k : nat) (buf : list byte) (off : Z) (file : list byte) : Z * list byte :=
  let n := Z.min (Z.of_nat k + 1) (len buf) in
  (n, file_write off (slice 0 n buf) file).

(** A successful transfer of [pread]: the bytes read, none at or past the end of the file. *)
Definition pread (k : nat) (count off : Z) (file : list byte) : list byte :=
  slice off (Z.min (Z.of_nat k + 1) count) file.

Record Disk := mkDisk {
  file : list byte;
  page_count : Z;
  freelist_head : Z;
  events : list Event
}.

Definition set_file (f : list byte) (evs : list Event) (d : Disk) : Disk :=
  mkDisk f (page_count d) (freelist_head d) evs.
Definition set_page_count (n : Z) (d : Disk) : Disk :=
  mkDisk (file d) n (freelist_head d) (events d).
Definition set_freelist_head (h : Z) (d : Disk) : Disk :=
  mkDisk (file d) (page_count d) h (events d).

Section disk.
Context {errno_text : ErrnoText} {host : Host}.

Definition write_error (off done size err : Z) : Status :=
  IOError ("pwrite at offset " +:+ pretty off +:+ " failed after " +:+ pretty done +:+ " of " +:+
           pretty size +:+ " bytes: " +:+ errno_message err).
Definition read_error (off done size err : Z) : Status :=
  IOError ("pread at offset " +:+ pretty off +:+ " failed after " +:+ pretty done +:+ " of " +:+
           pretty size +:+ " bytes: " +:+ errno_message err).
Definition read_eof (off size done : Z) : Status :=
  Corruption ("unexpected EOF at offset " +:+ pretty off +:+ ": wanted " +:+ pretty size +:+
              " bytes, got " +:+ pretty done).

(** The loop of [full_write], by recursion on the schedule: each turn consumes an event,
    and with no events left one call transfers the rest. *)
Fixpoint full_write_loop (evs : list Event) (off : Z) (buf : list byte) (done : Z)
    (f : list byte) : Status * list byte * list Event :=
  if done <? len buf then
    let rest := slice done (len buf - done) buf in
    match evs with
    | [] => let '(_, f) := pwrite (length rest) rest (off + done) f in (StatusOK, f, [])
    | EvErr err :: evs =>
        if err =? EINTR then full_write_loop evs off buf done f
        else (write_error off done (len buf) err, f, evs)
    | EvXfer k :: evs =>
        let '(n, f) := pwrite k rest (off + done) f in
        full_write_loop evs off buf (done + n) f
    end
  else (StatusOK, f, evs).

Definition full_write (off : Z) (buf : list byte) (d : Disk) : Status * Disk :=
  let '(s, f, evs) := full_write_loop (events d) off buf 0 (file d) in (s, set_file f evs d).

(** The loop of [full_read]; [acc] is what has been stored into the buffer so far. *)
Fixpoint full_read_loop (evs : list Event) (off size : Z) (acc f : list byte)
    : Status * list byte * list Event :=
  if len acc <? size then
    match evs with
    | [] =>
        let got := pread (Z.to_nat size) (size - len acc) (off + len acc) f in
        if len got =? size - len acc then (StatusOK, acc ++ got, [])
        else (read_eof off size (len acc + len got), acc ++ got, [])
    | EvErr err :: evs =>
        if err =? EINTR then full_read_loop evs off size acc f
        else (read_error off (len acc) size err, acc, evs)
    | EvXfer k :: evs =>
        let got := pread k (size - len acc) (off + len acc) f in
        if len got =? 0 then (read_eof off size (len acc), acc, evs)
        else full_read_loop evs off size (acc ++ got) f
    end
  else (StatusOK, acc, evs).

(** The buffer after the call: the bytes read, then what it held beyond them. *)
Definition full_read (off : Z) (buf : list byte) (d : Disk) : Status * list byte * Disk :=
  let '(s, got, evs) := full_read_loop (events d) off (len buf) [] (file d) in
  (s, patch 0 got buf, set_file (file d) evs d).

Definition PageOffset (page_id : Z) : Z := page_id * PAGE_SIZE.

Definition valid_page (page_id : Z) (d : Disk) : bool := (0 <=? page_id) && (page_id <? page_count d).
Definition valid_write_target (page_id : Z) (d : Disk) : bool :=
  (0 <=? page_id) && (page_id <=? page_count d).

Definition validate_page_access (page_id : Z) (d : Disk) : Status :=
  if page_id =? META_PAGE_ID then
    InvalidArgument ("page " +:+ pretty page_id +:+
      " is the reserved meta page and cannot be accessed directly")
  else if negb (valid_page page_id d) then
    InvalidArgument ("invalid page id " +:+ pretty page_id +:+ ", page id < " +:+ pretty (page_count d))
  else StatusOK.

Definition ReadPage (page_id : Z) (out : list byte) (d : Disk) : Status * list byte * Disk :=
  let s := validate_page_access page_id d in
  if negb (ok s) then (s, out, d) else full_read (PageOffset page_id) out d.

Definition WritePage (page_id : Z) (inp : list byte) (d : Disk) : Status * Disk :=
  let s := validate_page_access page_id d in
  if negb (ok s) then (s, d) else full_write (PageOffset page_id) inp d.

Definition read_page_header (page_id : Z) (d : Disk) : Result PageHeader * Disk :=
  if negb (valid_page page_id d) then (Error (InvalidArgument "invalid page"), d)
  else
    let '(s, buf, d) := full_read (PageOffset page_id) (indeterminate PAGE_HEADER_SIZE) d in
    if negb (ok s) then (Error s, d) else (Ok (PageHeader_ReadFrom buf), d).

Definition invalid_write_target (page_id : Z) (d : Disk) : Status :=
  InvalidArgument ("invalid page id " +:+ pretty page_id +:+ " for write, page id <= " +:+
                   pretty (page_count d)).

(** Identity and format version are stamped here, whatever the caller passed. *)
Definition write_page_header (page_id : Z) (header : PageHeader) (d : Disk) : Status * Disk :=
  if negb (valid_write_target page_id d) then (invalid_write_target page_id d, d)
  else
    let stamped :=
      mkPageHeader (ph_page_type header) (ph_flags header) PAGE_FORMAT_VERSION page_id
        (ph_next_page_id header) (ph_prev_page_id header) (ph_page_lsn header)
        (ph_checksum header) (ph_reserved header) in
    let buf := PageHeader_WriteTo stamped in
    full_write (PageOffset page_id) buf d.

Definition write_empty_page (page_id : Z) (d : Disk) : Status * Disk :=
  if negb (valid_write_target page_id d) then (invalid_write_target page_id d, d)
  else full_write (PageOffset page_id) (zeros PAGE_SIZE) d.

(** A default header with its page type and links set. *)
Definition typed_header (t : PageType) (next prev : Z) : PageHeader :=
  mkPageHeader t (ph_flags PageHeader_default) (ph_format_version PageHeader_default)
    (ph_page_id PageHeader_default) next prev (ph_page_lsn PageHeader_default)
    (ph_checksum PageHeader_default) (ph_reserved PageHeader_default).

Definition persist_freelist_head (new_head : Z) (d : Disk) : Status * Disk :=
  write_page_header META_PAGE_ID (typed_header META new_head INVALID_PAGE) d.

Definition AllocatePage (d : Disk) : Result Z * Disk :=
  let allocated_header := typed_header ALLOCATED INVALID_PAGE INVALID_PAGE in
  if negb (freelist_head d =? INVALID_PAGE) then
    let free_page := freelist_head d in
    let '(ph, d) := read_page_header free_page d in
    match ph with
    | Error s => (Error s, d)
    | Ok ph =>
        if decide (ph_page_type ph <> FREE) then
          (Error (Corruption ("page " +:+ pretty free_page +:+
             " on freelist has unexpected page_type")), d)
        else
          let next_free := ph_next_page_id ph in
          let '(meta_status, d) := persist_freelist_head next_free d in
          if negb (ok meta_status) then (Error meta_status, d)
          else
            let '(write_status, d) := write_page_header free_page allocated_header d in
            if negb (ok write_status) then (Error write_status, d)
            else (Ok free_page, set_freelist_head next_free d)
    end
  else
    let new_page := page_count d in
    let '(st, d) := write_empty_page new_page d in
    if negb (ok st) then (Error st, d)
    else
      let '(st, d) := write_page_header new_page allocated_header d in
      if negb (ok st) then (Error st, d)
      else (Ok new_page, set_page_count (new_page + 1) d).

Definition DeallocatePage (page_id : Z) (d : Disk) : Status * Disk :=
  if page_id =? CATALOG_ROOT_PAGE_ID then
    (InvalidArgument ("page " +:+ pretty page_id +:+
       " is the reserved catalog root page and cannot be deallocated"), d)
  else
    let s := validate_page_access page_id d in
    if negb (ok s) then (s, d)
    else
      let '(ph, d) := read_page_header page_id d in
      match ph with
      | Error s => (s, d)
      | Ok ph =>
          if decide (ph_page_type ph = FREE) then (StatusOK, d)
          else
            let free_header := typed_header FREE (freelist_head d) INVALID_PAGE in
            let '(write_status, d) := write_page_header page_id free_header d in
            if negb (ok write_status) then (write_status, d)
            else
              let '(meta_status, d) := persist_freelist_head page_id d in
              if negb (ok meta_status) then (meta_status, d)
              else (StatusOK, set_freelist_head page_id d)
      end.

Definition PageCount (d : Disk) : Z := page_count d.

(** [Sync] changes nothing the model sees; [fsync_ok] is whether the call succeeds. *)
Definition Sync (fsync_ok : bool) (d : Disk) : Status * Disk :=
  if negb fsync_ok then (IOError "failed to flush to disk", d) else (StatusOK, d).

(** The brand-new-file branch of [Open]. *)
Definition Open_new (d : Disk) : Status * Disk :=
  let '(st, d) := write_empty_page META_PAGE_ID d in
  if negb (ok st) then (st, d)
  else
    let '(st, d) := write_page_header META_PAGE_ID (typed_header META INVALID_PAGE INVALID_PAGE) d in
    if negb (ok st) then (st, d)
    else
      let d := set_page_count 1 d in
      let '(st, d) := write_empty_page CATALOG_ROOT_PAGE_ID d in
      if negb (ok st) then (st, d)
      else
        let '(st, d) := write_page_header CATALOG_ROOT_PAGE_ID
                          (typed_header CATALOG INVALID_PAGE INVALID_PAGE) d in
        if negb (ok st) then (st, d)
        else
          let d := set_page_count 2 d in
          persist_freelist_head INVALID_PAGE d.

(** The existing-file branch of [Open]. *)
Definition Open_existing (path : string) (d : Disk) : Status * Disk :=
  let '(meta, d) := read_page_header META_PAGE_ID d in
  match meta with
  | Error s => (s, d)
  | Ok meta =>
      if decide (ph_page_type meta <> META) then
        (Corruption ("the file at path " +:+ path +:+ " is corrupt: missing meta page"), d)
      else
        let '(catalog_page, d) := read_page_header CATALOG_ROOT_PAGE_ID d in
        match catalog_page with
        | Error s => (s, d)
        | Ok catalog_page =>
            if decide (ph_page_type catalog_page <> CATALOG) then
              (Corruption ("the file at path " +:+ path +:+ " is corrupt: missing catalog page"), d)
            else (StatusOK, set_freelist_head (ph_next_page_id meta) d)
        end
  end.

(** [Open]: the status and the manager; on an error the manager is gone and only its [file]
    component, the file left behind, is meaningful.  [open_ok] and [fstat_ok] are the
    outcomes of the two system calls. *)
Definition Open (path : string) (open_ok fstat_ok : bool) (f : list byte) (evs : list Event)
    : Status * Disk :=
  let d0 := mkDisk f 0 INVALID_PAGE evs in
  if negb open_ok then (Internal ("unable to open file at path: " +:+ path), d0)
  else if negb fstat_ok then (Internal ("unable to stat file at path: " +:+ path), d0)
  else
    let file_size := len f in
    if negb (Z.rem file_size PAGE_SIZE =? 0) then
      (Corruption ("the file at path " +:+ path +:+ " is corrupt"), d0)
    else
      let page_count := s32 (file_size / PAGE_SIZE) in
      let dm := set_page_count page_count d0 in
      if page_count =? 0 then Open_new dm
      else if 2 <=? page_count then Open_existing path dm
      else (Corruption "db file is corrputed", dm).
End disk.
