(* ===== verification/DiskProofs.v ===== *)
(** * Disk manager: what one write or read does, and the freelist invariant

    [wrote] summarises a [full_write] under any schedule: all of the buffer or an I/O error
    after a proper prefix.  [disk_ok d l] is the manager's invariant: page 0 is the meta
    page and names the head of the chain of FREE pages [l]. *)

From S2P Require Import Prelude Common DiskManager.

(** ** Files *)

Section file_write.
Implicit Types (f bs : list byte) (off : Z).

Lemma len_file_write off bs f :
  0 <= off <= len f -> len (file_write off bs f) = Z.max (len f) (off + len bs).
Proof. intros. unfold file_write. rewrite len_patch; lens; lia. Qed.

Lemma lookup_file_write off bs f i :
  0 <= off <= len f ->
  file_write off bs f !! i =
    if decide (off <= Z.of_nat i < off + len bs) then bs !! (i - Z.to_nat off)%nat else f !! i.
Proof.
  intros. unfold file_write. rewrite lookup_patch by (lens; lia). case_decide; [done|].
  destruct (decide (i < length f)%nat); [by rewrite lookup_app_l|].
  rewrite !lookup_ge_None_2; lens; lia || done.
Qed.

Lemma slice_file_write_same off n bs f :
  0 <= off <= len f -> n = len bs -> slice off n (file_write off bs f) = bs.
Proof.
  intros ? ->. unfold file_write. apply slice_patch_same; lens; lia.
Qed.

Lemma slice_file_write_ne o n off bs f :
  0 <= off <= len f -> 0 <= o -> o + n <= off \/ off + len bs <= o ->
  slice o n (file_write off bs f) = slice o n f.
Proof.
  intros. apply slice_ext; [done|]. intros i Hi. rewrite lookup_file_write by done.
  by rewrite decide_False by lia.
Qed.

(** Consecutive writes are one write. *)
Lemma file_write_app off a b f :
  0 <= off <= len f ->
  file_write (off + len a) b (file_write off a f) = file_write off (a ++ b) f.
Proof.
  intros. apply list_eq. intros i.
  rewrite (lookup_file_write (off + len a)) by (rewrite len_file_write; lia).
  rewrite !lookup_file_write by done. rewrite !length_app.
  repeat case_decide; try lia; try done.
  - rewrite lookup_app_r by lia. f_equal. lia.
  - rewrite lookup_app_l by lia. done.
Qed.

Lemma file_write_nil off f : 0 <= off <= len f -> file_write off [] f = f.
Proof.
  intros. unfold file_write. rewrite patch_nil. replace (zeros _) with (@nil byte); [apply app_nil_r|].
  unfold zeros. replace (Z.to_nat _) with 0%nat by (simpl; lia). done.
Qed.
End file_write.

(** ** Schedules *)

Definition fault_free (evs : list Event) : Prop :=
  Forall (fun e => match e with EvErr n => n = EINTR | EvXfer _ => True end) evs.

(** No call transfers part of what was asked for: a write happens whole or not at all. *)
Definition whole_transfers (evs : list Event) : Prop :=
  Forall (fun e => match e with EvXfer k => PAGE_SIZE <= Z.of_nat k | EvErr _ => True end) evs.

Lemma Forall_suffix {A} (P : A -> Prop) l l' : l' `suffix_of` l -> Forall P l -> Forall P l'.
Proof. intros [k ->] F. by apply Forall_app in F as [_ F]. Qed.

Section writes.
Context {errno_text : ErrnoText} {host : Host}.

Lemma slice_cut_head done n (buf : list byte) :
  0 <= done -> 0 <= n -> done + n <= len buf ->
  slice 0 done buf ++ slice 0 n (slice done (len buf - done) buf) = slice 0 (done + n) buf.
Proof.
  intros. rewrite slice_slice by lia. rewrite Z.add_0_r.
  unfold slice. rewrite !drop_0, Z2Nat.inj_add by lia. apply take_take_drop.
Qed.

Lemma full_write_loop_spec evs off buf dn f0 :
  0 <= off <= len f0 -> 0 <= dn <= len buf ->
  let '(s, f', evs') := full_write_loop evs off buf dn (file_write off (slice 0 dn buf) f0) in
  evs' `suffix_of` evs /\
  ((s = StatusOK /\ f' = file_write off buf f0) \/
   (code s = kIOError /\ ~ fault_free evs /\
    exists k, dn <= k < len buf /\ f' = file_write off (slice 0 k buf) f0 /\
      (whole_transfers evs -> len buf <= PAGE_SIZE -> k = dn))).
Proof.
  intros Ho. revert dn. induction evs as [|ev evs IH]; intros dn Hd; cbn [full_write_loop];
    (destruct (Z.ltb_spec dn (len buf)); [|
      split; [done|]; left; by rewrite slice_full by lia]).
  - unfold pwrite. set (rest := slice dn _ buf).
    assert (Lr : len rest = len buf - dn) by (apply len_slice; lia).
    split; [done|]. left. split; [done|].
    rewrite Z.min_r by lia. rewrite (slice_full (len rest)) by done.
    replace (off + dn) with (off + len (slice 0 dn buf)) by (rewrite len_slice; lia). rewrite file_write_app by done.
    pose proof (slice_cut_head dn (len rest) buf ltac:(lia) ltac:(lia) ltac:(lia)) as E.
    fold rest in E. rewrite (slice_full (len rest) rest) in E by done. rewrite E. by rewrite slice_full by lia.
  - destruct ev as [k|err].
    + unfold pwrite. set (rest := slice dn _ buf).
      assert (Lr : len rest = len buf - dn) by (apply len_slice; lia).
      set (n := Z.min (Z.of_nat k + 1) (len rest)). assert (0 < n <= len rest) by lia.
      replace (off + dn) with (off + len (slice 0 dn buf)) by (rewrite len_slice; lia). rewrite file_write_app by done.
      unfold rest. rewrite slice_cut_head by lia. specialize (IH (dn + n) ltac:(lia)).
      destruct (full_write_loop _ _ _ _ _) as [[s f'] evs']. destruct IH as [S IH].
      split; [by apply suffix_cons_r|]. destruct IH as [?|(C & NF & j & Hj & Ef & A)]; [by left|].
      right. split; [done|]. split; [intros F; by apply Forall_cons in F as [_ F]|].
      exists j. split; [lia|]. split; [done|]. intros W L. apply Forall_cons in W as [W1 W2].
      specialize (A W2 L). unfold_consts. lia.
    + destruct (Z.eqb_spec err EINTR) as [E|E].
      * specialize (IH dn Hd). destruct (full_write_loop _ _ _ _ _) as [[s f'] evs'].
        destruct IH as [S IH]. split; [by apply suffix_cons_r|].
        destruct IH as [?|(C & NF & j & Hj & Ef & A)]; [by left|]. right. split; [done|].
        split; [intros F; by apply Forall_cons in F as [_ F]|]. exists j. split; [done|].
        split; [done|]. intros W L. apply Forall_cons in W as [_ W]. auto.
      * split; [apply suffix_cons_r; done|]. right. split; [done|].
        split; [by intros [F _]%Forall_cons|]. exists dn. split; [lia|]. done.
Qed.

(** What a write of [buf] at [off] may do to the manager. *)
Record wrote (off : Z) (buf : list byte) (d : Disk) (s : Status) (d' : Disk) : Prop := {
  wr_count : page_count d' = page_count d;
  wr_head : freelist_head d' = freelist_head d;
  wr_events : events d' `suffix_of` events d;
  wr_outcome :
    (s = StatusOK /\ file d' = file_write off buf (file d)) \/
    (code s = kIOError /\ ~ fault_free (events d) /\
     exists k, 0 <= k < len buf /\ file d' = file_write off (slice 0 k buf) (file d) /\
       (whole_transfers (events d) -> len buf <= PAGE_SIZE -> file d' = file d))
}.

Lemma full_write_wrote off buf d :
  0 <= off <= len (file d) ->
  let '(s, d') := full_write off buf d in wrote off buf d s d'.
Proof.
  intros Ho. unfold full_write.
  pose proof (full_write_loop_spec (events d) off buf 0 (file d) Ho ltac:(lia)) as L.
  replace (slice 0 0 buf) with (@nil byte) in L by done. rewrite file_write_nil in L by done.
  destruct (full_write_loop _ _ _ _ _) as [[s f'] evs']. destruct L as [S L].
  split; try done. simpl. destruct L as [L|(C & NF & k & Hk & E & A)]; [by left|].
  right. split; [done|]. split; [done|]. exists k. split; [done|]. split; [done|].
  intros W L. rewrite E, (A W L). replace (slice 0 0 buf) with (@nil byte) by done.
  by apply file_write_nil.
Qed.

Lemma full_read_loop_spec evs off size acc f :
  0 <= off -> len acc <= size -> acc = slice off (len acc) f ->
  let '(s, got, evs') := full_read_loop evs off size acc f in
  evs' `suffix_of` evs /\
  ((s = StatusOK /\ got = slice off size f /\ len got = size) \/
   (ok s = false /\ len got <= size /\ (off + size <= len f -> code s = kIOError /\ ~ fault_free evs))).
Proof.
  intros Ho. revert acc. induction evs as [|ev evs IH]; intros acc La Ea; cbn [full_read_loop];
    (destruct (Z.ltb_spec (len acc) size); [|
      split; [done|]; left; replace size with (len acc) by lia; done]).
  - unfold pread. rewrite Z.min_r by lia. set (got := slice (off + len acc) _ f).
    assert (Lg : length got = Nat.min (Z.to_nat (size - len acc)) (length f - Z.to_nat (off + len acc)))
      by apply length_slice.
    assert (Eg : acc ++ got = slice off (len acc + (size - len acc)) f).
    { unfold got. rewrite Ea at 1. unfold slice. rewrite !Z2Nat.inj_add by lia.
      rewrite <- drop_drop. apply take_take_drop. }
    destruct (Z.eqb_spec (len got) (size - len acc)); split; try done.
    + left. split; [done|]. rewrite Eg. split; [f_equal; lia|]. rewrite <- Eg. lens. lia.
    + right. split; [done|]. split; [lens; lia|]. lia.
  - destruct ev as [k|err].
    + unfold pread. set (n := Z.min _ _). set (got := slice (off + len acc) n f).
      assert (Lg : length got = Nat.min (Z.to_nat n) (length f - Z.to_nat (off + len acc)))
        by apply length_slice.
      destruct (Z.eqb_spec (len got) 0).
      { split; [by apply suffix_cons_r|]. right. split; [done|]. split; [lia|]. lia. }
      assert (Eg : acc ++ got = slice off (len (acc ++ got)) f).
      { replace (slice off (len (acc ++ got)) f) with (slice off (len acc) f ++ slice (off + len acc) (len got) f).
        - rewrite <- Ea. f_equal. unfold got at 1. apply list_eq. intros i. rewrite !lookup_slice.
          repeat case_decide; try done; try lia. apply lookup_ge_None_2. lia.
        - unfold slice. rewrite length_app, Nat2Z.inj_add, !Z2Nat.inj_add by lia.
          rewrite <- drop_drop. apply take_take_drop. }
      specialize (IH (acc ++ got) ltac:(lens; lia) Eg).
      destruct (full_read_loop _ _ _ _ _) as [[s g] evs']. destruct IH as [S IH].
      split; [by apply suffix_cons_r|]. destruct IH as [?|(A & B & C)]; [by left|]. right.
      split; [done|]. split; [done|]. intros L. destruct (C L) as [? NF]. split; [done|].
      intros F. by apply Forall_cons in F as [_ F].
    + destruct (Z.eqb_spec err EINTR).
      * specialize (IH acc La Ea). destruct (full_read_loop _ _ _ _ _) as [[s g] evs'].
        destruct IH as [S IH]. split; [by apply suffix_cons_r|].
        destruct IH as [?|(A & B & C)]; [by left|]. right.
        split; [done|]. split; [done|]. intros L. destruct (C L) as [? NF]. split; [done|].
        intros F. by apply Forall_cons in F as [_ F].
      * split; [by apply suffix_cons_r|]. right. split; [done|]. split; [lia|].
        intros _. split; [done|]. by intros [F _]%Forall_cons.
Qed.

(** What a read of [n] bytes at [off] may return: the manager only loses events. *)
Definition advanced (d d' : Disk) : Prop :=
  exists evs', d' = set_file (file d) evs' d /\ evs' `suffix_of` events d.

Lemma full_read_spec off buf d :
  0 <= off ->
  let '(s, out, d') := full_read off buf d in
  advanced d d' /\
  ((s = StatusOK /\ out = slice off (len buf) (file d)) \/
   (ok s = false /\ (off + len buf <= len (file d) -> code s = kIOError /\ ~ fault_free (events d)))).
Proof.
  intros Ho. unfold full_read.
  pose proof (full_read_loop_spec (events d) off (len buf) [] (file d) Ho ltac:(simpl; lia)
    ltac:(done)) as L.
  destruct (full_read_loop _ _ _ _ _) as [[s got] evs']. destruct L as [S L].
  split; [by exists evs'|]. destruct L as [(-> & -> & Lg)|(A & _ & C)]; [left|right; done].
  split; [done|]. rewrite <- (app_nil_r buf). rewrite patch_0, app_nil_r; [done|].
  rewrite app_nil_r in *. lia.
Qed.

Lemma full_read_length off buf d : 0 <= off -> length (full_read off buf d).1.2 = length buf.
Proof.
  intros Ho. unfold full_read.
  pose proof (full_read_loop_spec (events d) off (len buf) [] (file d) Ho ltac:(simpl; lia)
    ltac:(done)) as L.
  destruct (full_read_loop _ _ _ _ _) as [[s got] evs']. destruct L as [_ L]. simpl.
  apply len_patch; [lia|]. destruct L as [(_ & _ & ?)|(_ & ? & _)]; lia.
Qed.
End writes.

(** ** Page headers on disk *)

Definition hdr (p : Z) (f : list byte) : PageHeader :=
  PageHeader_ReadFrom (slice (PageOffset p) PAGE_HEADER_SIZE f).
Definition page_bytes (p : Z) (f : list byte) : list byte := slice (PageOffset p) PAGE_SIZE f.

Definition stamp (p : Z) (h : PageHeader) : PageHeader :=
  mkPageHeader (ph_page_type h) (ph_flags h) PAGE_FORMAT_VERSION p (ph_next_page_id h)
    (ph_prev_page_id h) (ph_page_lsn h) (ph_checksum h) (ph_reserved h).

Ltac dlia := unfold PageOffset in *; unfold_consts; unfold_ints; lia.

Lemma hdr_write_same p h f :
  0 <= PageOffset p <= len f -> PageHeader_wf h ->
  hdr p (file_write (PageOffset p) (PageHeader_WriteTo h) f) = h.
Proof.
  intros Ho W. unfold hdr. rewrite slice_file_write_same by done. by apply PageHeader_ReadFrom_WriteTo.
Qed.

Lemma page_bytes_write_ne p q bs f :
  0 <= PageOffset p <= len f -> 0 <= q -> p <> q -> len bs <= PAGE_SIZE ->
  page_bytes q (file_write (PageOffset p) bs f) = page_bytes q f.
Proof. intros. apply slice_file_write_ne; [done|dlia|dlia]. Qed.

Lemma page_bytes_write_same p bs f :
  0 <= PageOffset p <= len f -> len bs = PAGE_SIZE ->
  page_bytes p (file_write (PageOffset p) bs f) = bs.
Proof. intros. by apply slice_file_write_same. Qed.

Lemma length_page_bytes p n f :
  0 <= p < n -> n * PAGE_SIZE <= len f -> len (page_bytes p f) = PAGE_SIZE.
Proof. intros. apply len_slice; dlia. Qed.

Lemma hdr_page_bytes p f : 0 <= p -> hdr p f = PageHeader_ReadFrom (slice 0 PAGE_HEADER_SIZE (page_bytes p f)).
Proof. intros. unfold hdr, page_bytes. rewrite slice_slice by dlia. by rewrite Z.add_0_r. Qed.

(** The body of a page whose header is rewritten stays. *)
Lemma body_write_header p h f :
  0 <= p -> 0 <= PageOffset p <= len f ->
  slice (PageOffset p + PAGE_HEADER_SIZE) PAGE_BODY_SIZE (file_write (PageOffset p) (PageHeader_WriteTo h) f) =
  slice (PageOffset p + PAGE_HEADER_SIZE) PAGE_BODY_SIZE f.
Proof. intros. apply slice_file_write_ne; [done|dlia|]. rewrite PageHeader_len. dlia. Qed.

Lemma hdr_write_ne p q bs f :
  0 <= PageOffset p <= len f -> 0 <= q -> p <> q -> len bs <= PAGE_SIZE ->
  hdr q (file_write (PageOffset p) bs f) = hdr q f.
Proof. intros. rewrite !hdr_page_bytes by done. by rewrite page_bytes_write_ne. Qed.

Lemma stamp_wf p h : PageHeader_wf h -> is_s32 p -> PageHeader_wf (stamp p h).
Proof.
  intros (A & B & C & D & E & F & G & H & I) Hp. unfold PageHeader_wf; simpl.
  split_and!; done || dlia.
Qed.

Lemma typed_header_wf t next prev :
  PageType_wf t -> is_s32 next -> is_s32 prev -> PageHeader_wf (typed_header t next prev).
Proof. intros. unfold PageHeader_wf; simpl. split_and!; done || dlia. Qed.

Section headers.
Context {errno_text : ErrnoText} {host : Host}.

Lemma read_page_header_spec p d :
  0 <= p < page_count d -> page_count d * PAGE_SIZE <= len (file d) ->
  let '(r, d') := read_page_header p d in
  advanced d d' /\
  (r = Ok (hdr p (file d)) \/
   (exists s, r = Error s /\ code s = kIOError /\ ~ fault_free (events d))).
Proof.
  intros Hp Hl. unfold read_page_header, valid_page.
  destruct (Z.leb_spec 0 p), (Z.ltb_spec p (page_count d)); try lia. simpl negb. cbn match.
  pose proof (full_read_spec (PageOffset p) (indeterminate PAGE_HEADER_SIZE) d ltac:(dlia)) as R.
  destruct (full_read _ _ _) as [[s out] d']. destruct R as [A R]. rewrite indeterminate_len in R.
  destruct R as [(-> & ->)|(B & C)].
  - simpl. split; [done|]. by left.
  - rewrite B. simpl. split; [done|]. right. exists s. split; [done|]. apply C. dlia.
Qed.

Lemma write_page_header_wrote p h d :
  0 <= p <= page_count d -> PageOffset p <= len (file d) ->
  let '(s, d') := write_page_header p h d in
  wrote (PageOffset p) (PageHeader_WriteTo (stamp p h)) d s d'.
Proof.
  intros Hp Hl. unfold write_page_header, valid_write_target.
  destruct (Z.leb_spec 0 p), (Z.leb_spec p (page_count d)); try lia. simpl negb. cbn match.
  apply full_write_wrote. dlia.
Qed.

Lemma write_empty_page_wrote p d :
  0 <= p <= page_count d -> PageOffset p <= len (file d) ->
  let '(s, d') := write_empty_page p d in wrote (PageOffset p) (zeros PAGE_SIZE) d s d'.
Proof.
  intros Hp Hl. unfold write_empty_page, valid_write_target.
  destruct (Z.leb_spec 0 p), (Z.leb_spec p (page_count d)); try lia. simpl negb. cbn match.
  apply full_write_wrote. dlia.
Qed.
End headers.

(** ** The freelist *)

(** [chain f n p l]: following the links of FREE pages from [p] visits [l] and ends. *)
Inductive chain (f : list byte) (n : Z) : Z -> list Z -> Prop :=
  | chain_nil : chain f n INVALID_PAGE []
  | chain_cons p l :
      2 <= p < n -> ph_page_type (hdr p f) = FREE -> chain f n (ph_next_page_id (hdr p f)) l ->
      chain f n p (p :: l).

Lemma chain_fun f n p l l' : chain f n p l -> chain f n p l' -> l = l'.
Proof.
  intros C. revert l'. induction C as [|p l Hp T C IH]; intros l' C'; inversion C'; subst; try done.
  - unfold_consts; lia.
  - unfold_consts; lia.
  - f_equal. by apply IH.
Qed.

Lemma chain_suffix f n p l1 q l2 : chain f n p (l1 ++ q :: l2) -> chain f n q (q :: l2).
Proof.
  revert p. induction l1 as [|x l1 IH]; intros p C; inversion C; subst; [done|]. by eapply IH.
Qed.

(** A chain that ends visits no page twice. *)
Lemma chain_NoDup f n p l : chain f n p l -> NoDup l.
Proof.
  intros C. induction C as [|p l Hp T C IH]; constructor; [|done].
  intros (l1 & l2 & ->)%list_elem_of_split.
  assert (C' : chain f n p (p :: l1 ++ p :: l2)) by by constructor.
  pose proof (chain_suffix f n p (p :: l1) p l2 C') as C2.
  pose proof (chain_fun _ _ _ _ _ C' C2) as E. apply (f_equal length) in E.
  simpl in E. rewrite length_app in E. simpl in E. lia.
Qed.

Lemma chain_range f n p l q : chain f n p l -> q ∈ l -> 2 <= q < n.
Proof.
  intros C. induction C as [|p l Hp T C IH]; [by intros ?%elem_of_nil|].
  intros [->|?]%elem_of_cons; auto.
Qed.

Lemma chain_free f n p l q : chain f n p l -> q ∈ l -> ph_page_type (hdr q f) = FREE.
Proof.
  intros C. induction C as [|p l Hp T C IH]; [by intros ?%elem_of_nil|].
  intros [->|?]%elem_of_cons; auto.
Qed.

(** A chain depends on the headers of its own pages only. *)
Lemma chain_frame f f' n n' p l :
  chain f n p l -> n <= n' -> (forall q, q ∈ l -> hdr q f' = hdr q f) -> chain f' n' p l.
Proof.
  intros C Hn. induction C as [|p l Hp T C IH]; intros H; constructor.
  - lia.
  - rewrite H by by left. done.
  - rewrite H by by left. apply IH. intros q Hq. apply H. by right.
Qed.

(** ** The manager's invariant *)

(** What the file alone must satisfy: reserved pages in place, and page 0 naming the head of
    a freelist whose pages are all FREE on disk. *)
Record file_ok (f : list byte) (n : Z) (l : list Z) : Prop := {
  fok_count : 2 <= n < 2 ^ 31 - 1;
  fok_len : n * PAGE_SIZE <= len f;
  fok_meta : ph_page_type (hdr META_PAGE_ID f) = META;
  fok_catalog : ph_page_type (hdr CATALOG_ROOT_PAGE_ID f) = CATALOG;
  fok_chain : chain f n (ph_next_page_id (hdr META_PAGE_ID f)) l
}.

Record disk_ok (d : Disk) (l : list Z) : Prop := {
  dok_file : file_ok (file d) (page_count d) l;
  dok_head : ph_next_page_id (hdr META_PAGE_ID (file d)) = freelist_head d
}.

Lemma hdr_next_s32 p f : is_s32 (ph_next_page_id (hdr p f)).
Proof. unfold hdr. apply PageHeader_ReadFrom_wf. Qed.

(** Rewriting the header of a page that is neither reserved nor on the list. *)
Lemma file_ok_write_other p bs f n l :
  file_ok f n l -> 2 <= p <= n -> p ∉ l -> len bs <= PAGE_SIZE ->
  file_ok (file_write (PageOffset p) bs f) n l /\
  hdr META_PAGE_ID (file_write (PageOffset p) bs f) = hdr META_PAGE_ID f.
Proof.
  intros [Hc Hl Hm Hk C] Hp Hn Hb.
  assert (Ho : 0 <= PageOffset p <= len f) by dlia.
  assert (Hm' : hdr META_PAGE_ID (file_write (PageOffset p) bs f) = hdr META_PAGE_ID f)
    by (apply hdr_write_ne; dlia || done).
  split; [|done]. split; try done.
  - rewrite len_file_write by done. lia.
  - by rewrite Hm'.
  - rewrite hdr_write_ne; done || dlia.
  - rewrite Hm'. eapply chain_frame; [done|lia|]. intros q Hq.
    pose proof (chain_range _ _ _ _ _ C Hq).
    apply hdr_write_ne; try done; [lia|]. by intros ->.
Qed.

(** Rewriting page 0 to name another chain. *)
Lemma file_ok_write_meta head f n l l' :
  file_ok f n l -> is_s32 head -> chain f n head l' ->
  let f' := file_write (PageOffset META_PAGE_ID)
              (PageHeader_WriteTo (stamp META_PAGE_ID (typed_header META head INVALID_PAGE))) f in
  file_ok f' n l' /\ ph_next_page_id (hdr META_PAGE_ID f') = head.
Proof.
  intros [Hc Hl Hm Hk C] Hh C' f'.
  assert (Ho : 0 <= PageOffset META_PAGE_ID <= len f) by dlia.
  assert (Hm' : hdr META_PAGE_ID f' = stamp META_PAGE_ID (typed_header META head INVALID_PAGE)).
  { apply hdr_write_same; [done|]. apply stamp_wf; [apply typed_header_wf; done || dlia|dlia]. }
  split; [split|by rewrite Hm']; try done.
  - unfold f'. rewrite len_file_write by done. lia.
  - unfold f'. rewrite hdr_write_ne; done || dlia.
  - rewrite Hm'. simpl. eapply chain_frame; [done|lia|]. intros q Hq.
    pose proof (chain_range _ _ _ _ _ C' Hq). apply hdr_write_ne; try done; dlia.
Qed.

(** ** Calls only consume the schedule *)

Section schedule.
Context {errno_text : ErrnoText} {host : Host}.

Lemma full_write_events off buf d : events (full_write off buf d).2 `suffix_of` events d.
Proof.
  unfold full_write. generalize 0 as dn. generalize (file d) as f. generalize (events d) as evs.
  intros evs. induction evs as [|[k|err] evs IH]; intros f dn; cbn [full_write_loop];
    (destruct (dn <? len buf); [|done]).
  - by destruct (pwrite _ _ _ _).
  - destruct (pwrite _ _ _ _) as [n f']. specialize (IH f' (dn + n)).
    destruct (full_write_loop _ _ _ _ _) as [[s g] e]. by apply suffix_cons_r.
  - destruct (err =? EINTR); [|by apply suffix_cons_r]. specialize (IH f dn).
    destruct (full_write_loop _ _ _ _ _) as [[s g] e]. by apply suffix_cons_r.
Qed.

Lemma full_read_events off buf d : events (full_read off buf d).2 `suffix_of` events d.
Proof.
  unfold full_read. generalize (@nil byte) as acc. generalize (events d) as evs.
  intros evs. induction evs as [|[k|err] evs IH]; intros acc; cbn [full_read_loop];
    (destruct (len acc <? len buf); [|done]).
  - by destruct (_ =? _).
  - destruct (_ =? 0); [by apply suffix_cons_r|]. match goal with |- context [full_read_loop _ _ _ ?a _] => specialize (IH a) end.
    destruct (full_read_loop _ _ _ _ _) as [[s g] e]. by apply suffix_cons_r.
  - destruct (err =? EINTR); [|by apply suffix_cons_r]. specialize (IH acc).
    destruct (full_read_loop _ _ _ _ _) as [[s g] e]. by apply suffix_cons_r.
Qed.

Lemma read_page_header_events p d : events (read_page_header p d).2 `suffix_of` events d.
Proof.
  unfold read_page_header. destruct (negb _); [done|].
  pose proof (full_read_events (PageOffset p) (indeterminate PAGE_HEADER_SIZE) d) as E.
  destruct (full_read _ _ d) as [[s buf] d']. by destruct (negb _).
Qed.

Lemma write_page_header_events p h d : events (write_page_header p h d).2 `suffix_of` events d.
Proof. unfold write_page_header. destruct (negb _); [done|]. apply full_write_events. Qed.

Lemma write_empty_page_events p d : events (write_empty_page p d).2 `suffix_of` events d.
Proof. unfold write_empty_page. destruct (negb _); [done|]. apply full_write_events. Qed.

Lemma AllocatePage_events d : events (AllocatePage d).2 `suffix_of` events d.
Proof.
  unfold AllocatePage, persist_freelist_head. destruct (negb _).
  - pose proof (read_page_header_events (freelist_head d) d) as E1. destruct (read_page_header _ d) as [[ph|s] d1]; [|done].
    destruct (decide _); [done|].
    match goal with |- context [write_page_header META_PAGE_ID ?h d1] => pose proof (write_page_header_events META_PAGE_ID h d1) as E2 end.
    destruct (write_page_header META_PAGE_ID _ d1) as [s2 d2]. destruct (negb _); [by etrans|].
    match goal with |- context [write_page_header ?p ?h d2] => pose proof (write_page_header_events p h d2) as E3 end.
    destruct (write_page_header _ _ d2) as [s3 d3]. destruct (negb _); by do 2 (etrans; [|done]).
  - pose proof (write_empty_page_events (page_count d) d) as E1. destruct (write_empty_page _ d) as [s1 d1].
    destruct (negb _); [done|].
    match goal with |- context [write_page_header ?p ?h d1] => pose proof (write_page_header_events p h d1) as E3 end.
    destruct (write_page_header _ _ d1) as [s3 d3]. destruct (negb _); by etrans.
Qed.

Lemma DeallocatePage_events p d : events (DeallocatePage p d).2 `suffix_of` events d.
Proof.
  unfold DeallocatePage, persist_freelist_head. destruct (_ =? _); [done|]. destruct (negb _); [done|].
  pose proof (read_page_header_events p d) as E1. destruct (read_page_header _ d) as [[ph|s] d1]; [|done].
  destruct (decide _); [done|].
  match goal with |- context [write_page_header p ?h d1] => pose proof (write_page_header_events p h d1) as E2 end.
  destruct (write_page_header p _ d1) as [s2 d2]. destruct (negb _); [by etrans|].
  match goal with |- context [write_page_header ?q ?h d2] => pose proof (write_page_header_events q h d2) as E3 end.
  destruct (write_page_header _ _ d2) as [s3 d3]. destruct (negb _); by do 2 (etrans; [|done]).
Qed.
End schedule.
