(* ===== verification/DiskTheorems.v ===== *)
(** * What the disk manager guarantees

    Whole-buffer transfers under short and interrupted calls, the freelist contract of
    [AllocatePage]/[DeallocatePage] under every schedule, what an I/O error or a crash
    between two writes leaves on disk, and that [Open] recovers it. *)

From S2P Require Import Prelude Common DiskManager DiskProofs.

Lemma not_fault_free_suffix evs evs' :
  evs' `suffix_of` evs -> ~ fault_free evs' -> ~ fault_free evs.
Proof. intros S N F. apply N. by eapply Forall_suffix. Qed.

Section ops.
Context {errno_text : ErrnoText} {host : Host}.

Lemma advanced_ok d d' l : advanced d d' -> disk_ok d l -> disk_ok d' l.
Proof. intros (evs' & -> & _) [F H]. split; done. Qed.

Lemma advanced_same d d' : advanced d d' ->
  file d' = file d /\ page_count d' = page_count d /\ freelist_head d' = freelist_head d /\
  events d' `suffix_of` events d.
Proof. by intros (evs' & -> & S). Qed.

(** The meta write, with the chain it publishes. *)
Lemma persist_spec head d l l' :
  file_ok (file d) (page_count d) l -> is_s32 head -> chain (file d) (page_count d) head l' ->
  let '(s, d') := persist_freelist_head head d in
  page_count d' = page_count d /\ freelist_head d' = freelist_head d /\
  events d' `suffix_of` events d /\
  ((s = StatusOK /\ file_ok (file d') (page_count d) l' /\
    ph_next_page_id (hdr META_PAGE_ID (file d')) = head /\
    (forall q, 1 <= q -> page_bytes q (file d') = page_bytes q (file d)) /\
    len (file d') = len (file d)) \/
   (code s = kIOError /\ ~ fault_free (events d) /\
    (whole_transfers (events d) -> file d' = file d))).
Proof.
  intros F Hh C. unfold persist_freelist_head. pose proof F as [Hc Hl _ _ _].
  pose proof (write_page_header_wrote META_PAGE_ID (typed_header META head INVALID_PAGE) d
    ltac:(dlia) ltac:(dlia)) as W.
  destruct (write_page_header _ _ _) as [s d']. destruct W as [W1 W2 W3 W4].
  split; [done|]. split; [done|]. split; [done|].
  destruct W4 as [[-> E]|(A & B & k & Hk & E & Wt)].
  - left. destruct (file_ok_write_meta head _ _ _ _ F Hh C) as [F' N]. rewrite <- E in F', N.
    split; [done|]. split; [done|]. split; [done|]. split.
    + intros q Hq. rewrite E. apply page_bytes_write_ne; rewrite ?PageHeader_len; dlia.
    + rewrite E, len_file_write by dlia. rewrite PageHeader_len. dlia.
  - right. split; [done|]. split; [done|]. intros Hw. apply Wt; [done|].
    rewrite PageHeader_len. dlia.
Qed.

(** What an operation that failed may have left behind. *)
Definition failed (d : Disk) (l : list Z) (s : Status) (d' : Disk) : Prop :=
  code s = kIOError /\ ~ fault_free (events d) /\
  page_count d' = page_count d /\ freelist_head d' = freelist_head d /\
  (whole_transfers (events d) ->
   exists l', file_ok (file d') (page_count d) l' /\ l' `suffix_of` l /\
     (len (file d') = len (file d) \/
      len (file d') = Z.max (len (file d)) ((page_count d + 1) * PAGE_SIZE))).

Definition allocated (p : Z) : PageHeader := stamp p (typed_header ALLOCATED INVALID_PAGE INVALID_PAGE).

Lemma typed_stamp_wf t next prev p :
  PageType_wf t -> is_s32 next -> is_s32 prev -> is_s32 p -> PageHeader_wf (stamp p (typed_header t next prev)).
Proof. intros. apply stamp_wf; [by apply typed_header_wf|done]. Qed.

(** A header write on a page that is neither reserved nor on the list. *)
Lemma stamp_spec p h d l :
  file_ok (file d) (page_count d) l -> 2 <= p <= page_count d -> PageOffset p <= len (file d) ->
  p ∉ l -> PageHeader_wf h ->
  let '(s, d') := write_page_header p h d in
  page_count d' = page_count d /\ freelist_head d' = freelist_head d /\
  events d' `suffix_of` events d /\
  ((s = StatusOK /\ file_ok (file d') (page_count d) l /\
    hdr META_PAGE_ID (file d') = hdr META_PAGE_ID (file d) /\ hdr p (file d') = stamp p h /\
    (forall q, 0 <= q -> q <> p -> page_bytes q (file d') = page_bytes q (file d)) /\
    len (file d') = Z.max (len (file d)) (PageOffset p + PAGE_HEADER_SIZE)) \/
   (code s = kIOError /\ ~ fault_free (events d) /\
    (whole_transfers (events d) -> file d' = file d))).
Proof.
  intros F Hp Ho Np Wh. pose proof F as [Hc Hl _ _ _].
  pose proof (write_page_header_wrote p h d ltac:(lia) Ho) as W.
  destruct (write_page_header _ _ _) as [s d']. destruct W as [W1 W2 W3 W4].
  split; [done|]. split; [done|]. split; [done|].
  destruct W4 as [[-> E]|(A & B & k & Hk & E & Wt)].
  - left. destruct (file_ok_write_other p (PageHeader_WriteTo (stamp p h)) _ _ _ F Hp Np
      ltac:(rewrite PageHeader_len; dlia)) as [F' M']. rewrite <- E in F', M'.
    split_and!; try done.
    + rewrite E. apply hdr_write_same; [dlia|]. apply stamp_wf; [done|dlia].
    + intros q Hq Hne. rewrite E. apply page_bytes_write_ne; rewrite ?PageHeader_len; done || dlia.
    + rewrite E, len_file_write, PageHeader_len by dlia. done.
  - right. split; [done|]. split; [done|]. intros Hw. apply Wt; [done|].
    rewrite PageHeader_len. dlia.
Qed.

Lemma io_not_ok s : code s = kIOError -> ok s = false.
Proof. unfold ok. by intros ->. Qed.

(** Allocation from a non-empty freelist. *)
Lemma allocate_reuse d p l :
  disk_ok d (p :: l) ->
  let '(r, d') := AllocatePage d in
  match r with
  | Ok q =>
      q = p /\ disk_ok d' l /\ page_count d' = page_count d /\ hdr p (file d') = allocated p /\
      (forall q, 1 <= q -> q <> p -> page_bytes q (file d') = page_bytes q (file d))
  | Error s => failed d (p :: l) s d'
  end.
Proof.
  intros [F Hd]. pose proof F as [Hc Hl _ _ C]. rewrite Hd in C.
  pose proof (chain_NoDup _ _ _ _ C) as ND. inversion C as [|? ? Hp Ht C' E]; subst.
  apply NoDup_cons in ND as [Np _]. unfold AllocatePage. set (p := freelist_head d) in *.
  destruct (Z.eqb_spec p INVALID_PAGE); [unfold_consts; lia|]. simpl negb. cbn match.
  pose proof (read_page_header_spec p d ltac:(lia) Hl) as R.
  destruct (read_page_header p d) as [r d1]. destruct R as [A R].
  apply advanced_same in A as (A1 & A2 & A3 & A4).
  destruct R as [->|(s & -> & Es & NF)].
  2: { split_and!; try done. intros _. exists (p :: l). rewrite A1. split_and!; auto. }
  rewrite decide_False by (intros N; by apply N).
  set (nx := ph_next_page_id (hdr p (file d))) in *. rewrite <- A1, <- A2 in C', F.
  pose proof (persist_spec nx d1 _ l F ltac:(apply hdr_next_s32) C') as P.
  destruct (persist_freelist_head nx d1) as [ms d2]. destruct P as (P1 & P2 & P3 & P4).
  destruct P4 as [(-> & F2 & N2 & Q2 & L2)|(Es & NF & Wt)].
  2: { rewrite io_not_ok by done. simpl.
       split_and!; try done; [by eapply not_fault_free_suffix|congruence|congruence|].
       intros W. exists (p :: l). rewrite Wt, <- A2 by by eapply Forall_suffix.
       rewrite A1 in *. split_and!; auto. }
  simpl negb. cbn match. rewrite <- P1 in F2.
  pose proof (stamp_spec p (typed_header ALLOCATED INVALID_PAGE INVALID_PAGE) d2 l F2 ltac:(lia)
    ltac:(rewrite L2, A1; dlia) Np ltac:(apply typed_header_wf; done || dlia)) as W.
  destruct (write_page_header _ _ d2) as [ws d3]. destruct W as (W1 & W2 & W3 & W4).
  destruct W4 as [(-> & F3 & M3 & H3 & Q3 & L3)|(Es & NF & Wt)].
  - simpl negb. cbn match.
    split_and!; try done; cbn [file page_count freelist_head set_freelist_head].
    + split; cbn [file page_count freelist_head set_freelist_head]; [by rewrite W1|]. by rewrite M3.
    + congruence.
    + intros q Hq Hne. rewrite Q3, Q2, A1 by (done || lia). done.
  - rewrite io_not_ok by done. simpl. split_and!; try done; [|congruence|congruence|].
    + eapply not_fault_free_suffix; [|exact NF]. by etrans.
    + intros Wh. exists l. rewrite Wt by (eapply Forall_suffix; [|exact Wh]; by etrans).
      split; [congruence|]. split; [by exists [p]|]. left. congruence.
Qed.

Lemma file_ok_extend f n : file_ok f n [] -> n + 1 < 2 ^ 31 - 1 -> (n + 1) * PAGE_SIZE <= len f ->
  file_ok f (n + 1) [].
Proof.
  intros [Hc Hl Hm Hk C] Hb L. split; try done; [lia|].
  eapply chain_frame; [exact C|lia|done].
Qed.

(** Allocation with an empty freelist extends the file. *)
Lemma allocate_extend d :
  disk_ok d [] -> page_count d + 1 < 2 ^ 31 - 1 ->
  let '(r, d') := AllocatePage d in
  match r with
  | Ok q =>
      q = page_count d /\ disk_ok d' [] /\ page_count d' = q + 1 /\ hdr q (file d') = allocated q /\
      (forall p, 1 <= p -> p <> q -> page_bytes p (file d') = page_bytes p (file d))
  | Error s => failed d [] s d'
  end.
Proof.
  intros [F Hd] Hb. pose proof F as [Hc Hl _ _ C]. rewrite Hd in C. inversion C as [E|]; subst.
  unfold AllocatePage. rewrite <- E. simpl negb. cbn match. set (n := page_count d) in *.
  pose proof (write_empty_page_wrote n d ltac:(lia) ltac:(dlia)) as W.
  destruct (write_empty_page n d) as [s d1]. destruct W as [W1 W2 W3 W4].
  destruct W4 as [[-> E1]|(Es & NF & k & Hk & E1 & Wt)].
  2: { rewrite io_not_ok by done. simpl. split_and!; try done. intros Wh. exists [].
       rewrite (Wt Wh) by done. split_and!; auto. }
  simpl negb. cbn match. assert (Ho : 0 <= PageOffset n <= len (file d)) by dlia.
  destruct (file_ok_write_other n (zeros PAGE_SIZE) _ _ _ F ltac:(lia) (not_elem_of_nil _)
    ltac:(done)) as [F1 M1]. rewrite <- E1 in F1, M1.
  assert (L1 : (n + 1) * PAGE_SIZE <= len (file d1)).
  { rewrite E1, len_file_write, length_zeros by done. dlia. }
  unfold n in F1. rewrite <- W1 in F1.
  pose proof (stamp_spec n (typed_header ALLOCATED INVALID_PAGE INVALID_PAGE) d1 [] F1 ltac:(lia)
    ltac:(dlia) (not_elem_of_nil _) ltac:(apply typed_header_wf; done || dlia)) as S.
  destruct (write_page_header _ _ d1) as [ws d2]. destruct S as (S1 & S2 & S3 & S4).
  destruct S4 as [(-> & F2 & M2 & H2 & Q2 & L2)|(Es & NF & Wt)].
  - simpl negb. cbn match.
    split_and!; try done; cbn [file page_count freelist_head set_page_count].
    + split; cbn [file page_count freelist_head set_page_count].
      * apply file_ok_extend; [by rewrite W1 in F2|done|lia].
      * rewrite M2, M1, Hd. congruence.
    + intros p Hp Hne. rewrite Q2, E1, page_bytes_write_ne by (done || lia). done.
  - rewrite io_not_ok by done. simpl. split_and!; try done; [|congruence|congruence|].
    + by eapply not_fault_free_suffix.
    + intros Wh. exists []. rewrite Wt by by eapply Forall_suffix.
      split; [by rewrite W1 in F1|]. split; [done|]. right.
      rewrite E1, len_file_write, length_zeros by done. dlia.
Qed.

Lemma dealloc_refused p d :
  p <= 1 \/ page_count d <= p -> 2 <= page_count d ->
  exists m, DeallocatePage p d = (InvalidArgument m, d).
Proof.
  intros Hp Hc. unfold DeallocatePage, validate_page_access, valid_page.
  destruct (Z.eqb_spec p CATALOG_ROOT_PAGE_ID); [by eexists|].
  destruct (Z.eqb_spec p META_PAGE_ID); [by eexists|].
  destruct (Z.leb_spec 0 p), (Z.ltb_spec p (page_count d)); try (by eexists). unfold_consts. lia.
Qed.

(** Deallocation of a page that can be freed. *)
Lemma dealloc_spec p d l :
  disk_ok d l -> 2 <= p < page_count d ->
  let '(s, d') := DeallocatePage p d in
  (s = StatusOK /\ ph_page_type (hdr p (file d)) = FREE /\ advanced d d') \/
  (s = StatusOK /\ ph_page_type (hdr p (file d)) <> FREE /\ (p ∉ l) /\
   disk_ok d' (p :: l) /\ page_count d' = page_count d /\ events d' `suffix_of` events d /\
   (forall q, 1 <= q -> q <> p -> page_bytes q (file d') = page_bytes q (file d))) \/
  failed d l s d'.
Proof.
  intros [F Hd] Hp. pose proof F as [Hc Hl _ _ C]. rewrite Hd in C.
  unfold DeallocatePage, validate_page_access, valid_page.
  destruct (Z.eqb_spec p CATALOG_ROOT_PAGE_ID); [unfold_consts; lia|].
  destruct (Z.eqb_spec p META_PAGE_ID); [unfold_consts; lia|].
  destruct (Z.leb_spec 0 p), (Z.ltb_spec p (page_count d)); try lia. simpl negb. cbn match.
  pose proof (read_page_header_spec p d ltac:(lia) Hl) as R.
  destruct (read_page_header p d) as [r d1]. destruct R as [A R].
  pose proof (advanced_same _ _ A) as (A1 & A2 & A3 & A4).
  destruct R as [->|(s & -> & Es & NF)].
  2: { right; right. split_and!; try done. intros _. exists l. rewrite A1. split_and!; auto. }
  destruct (decide (ph_page_type (hdr p (file d)) = FREE)) as [Hf|Hf]; [by left|].
  assert (Np : p ∉ l) by (intros Hin; by apply Hf, (chain_free _ _ _ _ _ C)).
  rewrite A3. rewrite <- A1, <- A2 in F.
  pose proof (stamp_spec p (typed_header FREE (freelist_head d) INVALID_PAGE) d1 l F ltac:(lia)
    ltac:(rewrite A1; dlia) Np ltac:(apply typed_header_wf;
      [done|rewrite <- Hd; apply hdr_next_s32|dlia])) as W.
  destruct (write_page_header _ _ d1) as [ws d2]. destruct W as (W1 & W2 & W3 & W4).
  destruct W4 as [(-> & F2 & M2 & H2 & Q2 & L2)|(Es & NF & Wt)].
  2: { rewrite io_not_ok by done. simpl. right; right.
       split_and!; try done; [by eapply not_fault_free_suffix|congruence|congruence|].
       intros Wh. exists l. rewrite Wt, <- A2 by by eapply Forall_suffix.
       rewrite A1 in *. split_and!; auto. }
  simpl negb. cbn match. rewrite <- W1 in F2.
  assert (C2 : chain (file d2) (page_count d2) p (p :: l)).
  { constructor; [lia|by rewrite H2|]. rewrite H2. pose proof (fok_chain _ _ _ F2) as X.
    rewrite M2, A1, Hd in X. exact X. }
  pose proof (persist_spec p d2 _ _ F2 ltac:(dlia) C2) as P.
  destruct (persist_freelist_head p d2) as [ms d3]. destruct P as (P1 & P2 & P3 & P4).
  destruct P4 as [(-> & F3 & N3 & Q3 & L3)|(Es & NF & Wt)]; simpl negb; cbn match.
  - right; left. split_and!; try done; cbn [file page_count freelist_head events set_freelist_head];
      [|congruence|by repeat (etrans; [done|])|].
    + split; cbn [file page_count freelist_head set_freelist_head]; [by rewrite P1|done].
    + intros q Hq Hne. rewrite Q3, Q2, A1 by (done || lia). done.
  - rewrite io_not_ok by done. simpl. right; right. split_and!; try done; [|congruence|congruence|].
    + eapply not_fault_free_suffix; [|exact NF]. by etrans.
    + intros Wh. exists l. rewrite Wt by (eapply Forall_suffix; [|exact Wh]; by etrans).
      split; [congruence|]. split; [done|]. left. rewrite L2, A1. dlia.
Qed.

(** ** Opening *)

Lemma open_existing_spec path f n l evs :
  file_ok f n l -> len f = n * PAGE_SIZE ->
  let '(s, d) := Open path true true f evs in
  (s = StatusOK /\ disk_ok d l /\ page_count d = n /\ file d = f /\ events d `suffix_of` evs) \/
  (code s = kIOError /\ ~ fault_free evs /\ file d = f).
Proof.
  intros F L. pose proof F as [Hc _ Hm Hk C]. unfold Open. simpl negb. cbn match.
  rewrite L. rewrite Z.rem_mul by done. simpl (negb (0 =? 0)). cbn match.
  rewrite Z.div_mul, s32_id by dlia. destruct (Z.eqb_spec n 0); [lia|].
  destruct (Z.leb_spec 2 n); [|lia]. unfold Open_existing. set (d := set_page_count n _).
  pose proof (read_page_header_spec META_PAGE_ID d ltac:(simpl; dlia) ltac:(simpl; lia)) as R.
  destruct (read_page_header META_PAGE_ID d) as [r d1]. destruct R as [A R].
  apply advanced_same in A as (A1 & A2 & A3 & A4). simpl in A1, A2, A3, A4.
  destruct R as [->|(s & -> & Es & NF)]; [|by right].
  rewrite decide_False by (intros N; by apply N).
  pose proof (read_page_header_spec CATALOG_ROOT_PAGE_ID d1 ltac:(rewrite A2; dlia) ltac:(rewrite A1, A2; lia)) as R.
  destruct (read_page_header CATALOG_ROOT_PAGE_ID d1) as [r d2]. destruct R as [B R].
  apply advanced_same in B as (B1 & B2 & B3 & B4).
  destruct R as [->|(s & -> & Es & NF)].
  - rewrite decide_False by (rewrite A1; intros N; by apply N). left.
    split_and!; try done; cbn [file page_count freelist_head events set_freelist_head];
      [|congruence|congruence|by etrans].
    split; cbn [file page_count freelist_head events set_freelist_head]; [|by rewrite B1, A1].
    by rewrite B1, B2, A1, A2.
  - right. split; [done|]. split; [|congruence]. by eapply not_fault_free_suffix.
Qed.

Lemma wrote_ok_or off buf d s d' :
  wrote off buf d s d' ->
  (s = StatusOK /\ file d' = file_write off buf (file d) /\ page_count d' = page_count d /\
   freelist_head d' = freelist_head d /\ events d' `suffix_of` events d) \/
  (code s = kIOError /\ ~ fault_free (events d)).
Proof. intros [? ? ? [[-> E]|(A & B & _)]]; [left|right]; done. Qed.

(** The two writes that append a reserved page, followed by the rest [K] of the bootstrap:
    an error ends it, otherwise [K] runs on a file one page longer. *)
Lemma init_page_then p t d (K : Disk -> Status * Disk) (P : Status -> Disk -> Prop) :
  0 <= p < 2 ^ 31 -> page_count d = p -> len (file d) = PageOffset p -> PageType_wf t ->
  let h := typed_header t INVALID_PAGE INVALID_PAGE in
  (forall d', freelist_head d' = freelist_head d -> events d' `suffix_of` events d ->
     len (file d') = PageOffset (p + 1) -> hdr p (file d') = stamp p h ->
     (forall q, 0 <= q < p -> hdr q (file d') = hdr q (file d)) ->
     let '(s, e) := K d' in P s e) ->
  (forall s e, code s = kIOError -> ~ fault_free (events d) -> P s e) ->
  let '(s, e) :=
    let '(st, d) := write_empty_page p d in
    if negb (ok st) then (st, d)
    else let '(st, d) := write_page_header p h d in if negb (ok st) then (st, d) else K d in
  P s e.
Proof.
  intros Hp Hc Hl Ht h Hok Herr.
  pose proof (write_empty_page_wrote p d ltac:(lia) ltac:(lia)) as W.
  destruct (write_empty_page p d) as [s d1].
  apply wrote_ok_or in W as [(-> & F1 & C1 & H1 & E1)|[A B]];
    [|rewrite io_not_ok by done; simpl; by apply Herr].
  simpl negb; cbn match.
  assert (L1 : len (file d1) = PageOffset (p + 1))
    by (rewrite F1, len_file_write, length_zeros by dlia; dlia).
  pose proof (write_page_header_wrote p h d1 ltac:(lia) ltac:(dlia)) as W.
  destruct (write_page_header p h d1) as [s d2].
  apply wrote_ok_or in W as [(-> & F2 & C2 & H2 & E2)|[A B]].
  2: { rewrite io_not_ok by done. simpl. apply Herr; [done|]. by eapply not_fault_free_suffix. }
  simpl negb; cbn match. apply Hok.
  - congruence.
  - by etrans.
  - rewrite F2, len_file_write, PageHeader_len by dlia. dlia.
  - rewrite F2. apply hdr_write_same; [dlia|]. apply typed_stamp_wf; done || dlia.
  - intros q Hq. rewrite F2, F1. rewrite hdr_write_ne by
      (rewrite ?len_file_write, ?length_zeros, ?PageHeader_len; dlia).
    apply hdr_write_ne; rewrite ?length_zeros; dlia.
Qed.

Lemma open_new_spec path evs :
  let '(s, d) := Open path true true [] evs in
  (s = StatusOK /\ disk_ok d [] /\ page_count d = 2 /\ len (file d) = 2 * PAGE_SIZE) \/
  (code s = kIOError /\ ~ fault_free evs).
Proof.
  change (Open path true true [] evs) with (Open_new (mkDisk [] 0 INVALID_PAGE evs)).
  unfold Open_new. set (d0 := mkDisk [] 0 INVALID_PAGE evs).
  apply (init_page_then META_PAGE_ID META d0 _ (fun s d => _ \/ _)); try done; [|by right].
  intros d1 H1 E1 L1 M1 _.
  apply (init_page_then CATALOG_ROOT_PAGE_ID CATALOG (set_page_count 1 d1) _ (fun s d => _ \/ _)); try done.
  2: { intros s e A B. right. split; [done|]. by eapply not_fault_free_suffix. }
  intros d2 H2 E2 L2 M2 Q2. set (d2' := set_page_count 2 d2).
  assert (M0 : hdr META_PAGE_ID (file d2) = stamp META_PAGE_ID (typed_header META INVALID_PAGE INVALID_PAGE)).
  { rewrite Q2 by dlia. exact M1. }
  assert (F : file_ok (file d2') (page_count d2') []).
  { split; cbn [file page_count d2' set_page_count]; [lia|dlia|by rewrite M0|by rewrite M2|].
    rewrite M0. constructor. }
  pose proof (persist_spec INVALID_PAGE d2' [] [] F ltac:(dlia) ltac:(constructor)) as P.
  destruct (persist_freelist_head INVALID_PAGE d2') as [s d3]. destruct P as (P1 & P2 & P3 & P4).
  destruct P4 as [(-> & F3 & N3 & Q3 & L3)|(A & B & _)].
  - left. split; [done|]. split; [|split; [done|]].
    + split; [by rewrite P1|]. rewrite N3, P2. symmetry. etrans; [exact H2|exact H1].
    + rewrite L3. simpl. rewrite L2. dlia.
  - right. split; [done|]. eapply not_fault_free_suffix; [|exact B]. simpl. by etrans.
Qed.

Lemma access_ok p d : 1 <= p < page_count d -> validate_page_access p d = StatusOK.
Proof.
  intros Hp. unfold validate_page_access, valid_page.
  destruct (Z.eqb_spec p META_PAGE_ID); [unfold_consts; lia|].
  destruct (Z.leb_spec 0 p), (Z.ltb_spec p (page_count d)); try lia. done.
Qed.

(** Both ways of allocating. *)
Lemma allocate_spec d l :
  disk_ok d l -> page_count d + 1 < 2 ^ 31 - 1 ->
  let '(r, d') := AllocatePage d in
  match r with
  | Ok p =>
      p = default (page_count d) (head l) /\ 2 <= p < page_count d' /\ (p ∉ tail l) /\
      disk_ok d' (tail l) /\ hdr p (file d') = allocated p /\
      page_count d' = Z.max (page_count d) (p + 1) /\
      (forall q, 1 <= q -> q <> p -> page_bytes q (file d') = page_bytes q (file d))
  | Error s => failed d l s d'
  end /\ (fault_free (events d) -> exists p, r = Ok p).
Proof.
  intros D Hb. pose proof D as [[Hc _ _ _ C] _]. destruct l as [|p l].
  - pose proof (allocate_extend d D Hb) as A. destruct (AllocatePage d) as [[q|s] d'].
    + destruct A as (-> & A2 & A3 & A4 & A5). split; [|by eexists].
      split_and!; try done; try lia. apply not_elem_of_nil.
    + split; [done|]. intros F. destruct A as (_ & N & _). done.
  - pose proof (allocate_reuse d p l D) as A. destruct (AllocatePage d) as [[q|s] d'].
    + destruct A as (-> & A2 & A3 & A4 & A5). split; [|by eexists].
      pose proof (chain_NoDup _ _ _ _ C) as ND. apply NoDup_cons in ND as [ND _].
      pose proof (chain_range _ _ _ _ p C ltac:(by left)).
      split_and!; try done; simpl; try lia. 
    + split; [done|]. intros F. destruct A as (_ & N & _). done.
Qed.

(** ** Claims *)

(** A [full_write] inside the file or at its end, under any sequence of short transfers,
    interruptions and errors, either returns OK having written exactly the buffer at the
    offset and nothing else, or returns an I/O error having written a proper prefix; with no
    error other than EINTR it succeeds. *)
Lemma disk_full_write off buf d :
  0 <= off <= len (file d) ->
  let '(s, d') := full_write off buf d in
  ((s = StatusOK /\ file d' = file_write off buf (file d)) \/
   (code s = kIOError /\ exists k, 0 <= k < len buf /\ file d' = file_write off (slice 0 k buf) (file d))) /\
  (fault_free (events d) -> s = StatusOK).
Proof.
  intros Ho. pose proof (full_write_wrote off buf d Ho) as W.
  destruct (full_write off buf d) as [s d']. destruct W as [_ _ _ [[-> E]|(A & B & k & Hk & E & _)]].
  - split; [by left|done].
  - split; [|done]. right. split; [done|]. by exists k.
Qed.

(** [full_read] returns OK only with exactly the requested bytes of the file; inside the
    file the only failure is an I/O error, and past its end it fails instead of spinning. *)
Lemma disk_full_read off buf d :
  0 <= off ->
  let '(s, out, d') := full_read off buf d in
  file d' = file d /\
  (s = StatusOK -> out = slice off (len buf) (file d) /\ len out = len buf) /\
  (off + len buf <= len (file d) -> s <> StatusOK -> code s = kIOError /\ ~ fault_free (events d)) /\
  (len (file d) < off + len buf -> buf <> [] -> s <> StatusOK).
Proof.
  intros Ho. unfold full_read.
  pose proof (full_read_loop_spec (events d) off (len buf) [] (file d) Ho ltac:(simpl; lia)
    ltac:(done)) as L.
  destruct (full_read_loop _ _ _ _ _) as [[s got] evs']. destruct L as [_ L].
  split; [done|]. destruct L as [(-> & -> & Lg)|(A & _ & C)].
  - assert (E : patch 0 (slice off (len buf) (file d)) buf = slice off (len buf) (file d)).
    { rewrite <- (app_nil_r buf) at 2. rewrite patch_0 by lia. apply app_nil_r. }
    rewrite E. split; [by intros _|]. split; [done|]. intros X Hb _.
    rewrite length_slice in Lg. destruct buf; [done|]. simpl length in *. lia.
  - assert (s <> StatusOK) by (by intros ->). split; [done|]. split; [|done]. intros X _. by apply C.
Qed.

(** What [WritePage] stored is what [ReadPage] returns, whatever short or interrupted
    calls happen in between; no other page's bytes change; and with no I/O error both
    succeed. *)
Lemma disk_read_after_write d l p inp out :
  disk_ok d l -> 1 <= p < page_count d -> len inp = PAGE_SIZE -> len out = PAGE_SIZE ->
  let '(s1, d1) := WritePage p inp d in
  let '(s2, out', d2) := ReadPage p out d1 in
  (s1 = StatusOK -> (s2 = StatusOK -> out' = inp) /\
     forall q, 0 <= q -> q <> p -> page_bytes q (file d1) = page_bytes q (file d)) /\
  (fault_free (events d) -> s1 = StatusOK /\ s2 = StatusOK).
Proof.
  intros [[_ Hl _ _ _] _] Hp Li Lo. unfold WritePage. rewrite access_ok by done. simpl negb; cbn match.
  pose proof (full_write_wrote (PageOffset p) inp d ltac:(dlia)) as W.
  destruct (full_write _ _ d) as [s1 d1]. destruct W as [W1 W2 W3 W4].
  unfold ReadPage. rewrite access_ok by (rewrite W1; done). simpl negb; cbn match.
  pose proof (full_read_spec (PageOffset p) out d1 ltac:(dlia)) as R.
  destruct (full_read _ out d1) as [[s2 out'] d2]. destruct R as [_ R]. split.
  - intros ->. destruct W4 as [[_ E]|(A & _)]; [|done]. split.
    + intros ->. destruct R as [[_ ->]|[A _]]; [|done]. rewrite E. apply slice_file_write_same; dlia.
    + intros q Hq Hne. rewrite E. apply page_bytes_write_ne; done || dlia.
  - intros F. destruct W4 as [[-> E]|(_ & A & _)]; [|done]. split; [done|].
    destruct R as [[-> _]|[_ R]]; [done|]. exfalso. apply R.
    + rewrite E, len_file_write by dlia. dlia.
    + by eapply Forall_suffix.
Qed.

(** C26: [AllocatePage] hands out the head of the freelist, or extends the file by one page
    when the list is empty.  The page is never reserved, never still on the freelist, is
    stamped ALLOCATED with its own id, and no other page but page 0 changes; the manager's
    invariant holds again.  It fails only on an I/O error, leaving its own state as it was. *)
Theorem disk_allocate_contract d l :
  disk_ok d l -> page_count d + 1 < 2 ^ 31 - 1 ->
  let '(r, d') := AllocatePage d in
  match r with
  | Ok p =>
      p = default (page_count d) (head l) /\ 2 <= p < page_count d' /\ (p ∉ tail l) /\
      disk_ok d' (tail l) /\ hdr p (file d') = allocated p /\
      (forall q, 1 <= q -> q <> p -> page_bytes q (file d') = page_bytes q (file d))
  | Error s => failed d l s d'
  end /\ (fault_free (events d) -> exists p, r = Ok p).
Proof.
  intros D Hb. pose proof (allocate_spec d l D Hb) as A. destruct (AllocatePage d) as [[p|s] d']; [|done].
  destruct A as [(A1 & A2 & A3 & A4 & A5 & _ & A6) L]. split; [tauto|done].
Qed.

(** C33: [DeallocatePage] refuses the reserved pages and ids outside the file without touching
    anything, is a no-op on a page already FREE (a double free cannot thread a page onto the
    list twice), and otherwise pushes the page on the freelist, changing no other page but
    page 0; it fails only on an I/O error. *)
Theorem disk_deallocate_contract d l p :
  disk_ok d l ->
  let '(s, d') := DeallocatePage p d in
  if decide (2 <= p < page_count d) then
    (s = StatusOK /\ ph_page_type (hdr p (file d)) = FREE /\ file d' = file d /\ disk_ok d' l) \/
    (s = StatusOK /\ ph_page_type (hdr p (file d)) <> FREE /\ (p ∉ l) /\ disk_ok d' (p :: l) /\
     (forall q, 1 <= q -> q <> p -> page_bytes q (file d') = page_bytes q (file d))) \/
    failed d l s d'
  else code s = kInvalidArgument /\ d' = d.
Proof.
  intros D. destruct (decide _) as [Hp|Hp].
  - pose proof (dealloc_spec p d l D Hp) as S. destruct (DeallocatePage p d) as [s d'].
    destruct S as [(A & B & Ad)|[(A & B & N & D' & _ & _ & Q)|S]].
    + left. split_and!; try done; [by apply advanced_same in Ad as (? & _)|by eapply advanced_ok].
    + right; left. done.
    + right; right. done.
  - destruct (dealloc_refused p d) as [m ->]; [lia| |done]. apply D.
Qed.

(** The freelist is last-in first-out: with no I/O error, the page just freed is the next
    one allocated, and the freelist is then what it was before. *)
Lemma disk_free_then_allocate d l p :
  disk_ok d l -> 2 <= p < page_count d -> ph_page_type (hdr p (file d)) <> FREE ->
  fault_free (events d) ->
  let '(s, d1) := DeallocatePage p d in
  let '(r, d2) := AllocatePage d1 in
  s = StatusOK /\ r = Ok p /\ disk_ok d2 l.
Proof.
  intros D Hp Hf F. pose proof (dealloc_spec p d l D Hp) as S.
  destruct (DeallocatePage p d) as [s d1].
  destruct S as [(_ & A & _)|[(A & B & N & D' & E & Sf & Q)|(_ & A & _)]]; try done.
  pose proof (allocate_reuse d1 p l D') as R. destruct (AllocatePage d1) as [[q|e] d2].
  - destruct R as (-> & R & _). done.
  - destruct R as (_ & R & _). exfalso. by apply R; eapply Forall_suffix.
Qed.

Lemma file_ok_mono f n n' l :
  file_ok f n l -> n <= n' < 2 ^ 31 - 1 -> n' * PAGE_SIZE <= len f -> file_ok f n' l.
Proof.
  intros [Hc Hl Hm Hk C] Hn L. split; try done; [lia|]. eapply chain_frame; [done|lia|done].
Qed.

Lemma failed_reopens path d l s d' evs :
  disk_ok d l -> len (file d) = page_count d * PAGE_SIZE -> page_count d + 1 < 2 ^ 31 - 1 ->
  whole_transfers (events d) -> failed d l s d' -> fault_free evs ->
  let '(s', e) := Open path true true (file d') evs in
  s' = StatusOK /\ exists l', l' `suffix_of` l /\ disk_ok e l'.
Proof.
  intros [[Hc _ _ _ _] _] L Hb W (_ & _ & _ & _ & F) Hf.
  destruct (F W) as (l' & F' & S & Hlen).
  assert (exists n', file_ok (file d') n' l' /\ len (file d') = n' * PAGE_SIZE) as (n' & Fn & Ln).
  { destruct Hlen as [E|E]; rewrite L in E.
    - by exists (page_count d).
    - exists (page_count d + 1). split; [|dlia]. eapply file_ok_mono; [done|lia|dlia]. }
  pose proof (open_existing_spec path _ _ _ evs Fn Ln) as O.
  destruct (Open _ _ _ _ _) as [s' e]. destruct O as [(-> & D' & _)|(_ & N & _)]; [|done].
  split; [done|]. by exists l'.
Qed.

(** C27: A failed allocation or deallocation never corrupts the freelist on disk: if writes
    happen whole or not at all (which is also what a crash between two writes leaves), the
    file left behind opens again, and its freelist is a suffix of the old one, so at worst
    pages leak. *)
Theorem disk_failure_recoverable path d l p evs :
  disk_ok d l -> len (file d) = page_count d * PAGE_SIZE -> page_count d + 1 < 2 ^ 31 - 1 ->
  whole_transfers (events d) -> 2 <= p < page_count d -> fault_free evs ->
  (forall s d', AllocatePage d = (Error s, d') ->
     let '(s', e) := Open path true true (file d') evs in
     s' = StatusOK /\ exists l', l' `suffix_of` l /\ disk_ok e l') /\
  (forall s d', DeallocatePage p d = (s, d') -> s <> StatusOK ->
     let '(s', e) := Open path true true (file d') evs in
     s' = StatusOK /\ exists l', l' `suffix_of` l /\ disk_ok e l').
Proof.
  intros D L Hb W Hp Hf. split.
  - intros s d' E. eapply failed_reopens; try done.
    destruct l as [|q l].
    + pose proof (allocate_extend d D Hb) as A. by rewrite E in A.
    + pose proof (allocate_reuse d q l D) as A. by rewrite E in A.
  - intros s d' E Hs. eapply failed_reopens; try done.
    pose proof (dealloc_spec p d l D Hp) as A. rewrite E in A.
    destruct A as [(-> & _)|[(-> & _)|A]]; done.
Qed.

(** Opening an empty file bootstraps a manager whose invariant holds: META and CATALOG in
    place, an empty freelist and a page count of 2; it can fail only on an I/O error. *)
Lemma disk_open_new path evs :
  let '(s, d) := Open path true true [] evs in
  (s = StatusOK /\ disk_ok d [] /\ page_count d = 2 /\ len (file d) = 2 * PAGE_SIZE) \/
  (code s = kIOError /\ ~ fault_free evs).
Proof. apply open_new_spec. Qed.

(** C34: Closing and reopening loses nothing: on a file with the invariant, [Open] recovers
    the page count and the freelist head and leaves the file alone; it can fail only on an
    I/O error. *)
Theorem disk_open_recovers path d l evs :
  disk_ok d l -> len (file d) = page_count d * PAGE_SIZE ->
  let '(s, e) := Open path true true (file d) evs in
  (s = StatusOK /\ disk_ok e l /\ page_count e = page_count d /\
   freelist_head e = freelist_head d /\ file e = file d) \/
  (code s = kIOError /\ ~ fault_free evs /\ file e = file d).
Proof.
  intros [F Hd] L. pose proof (open_existing_spec path _ _ _ evs F L) as O.
  destruct (Open _ _ _ _ _) as [s e]. destruct O as [(-> & D' & Hc & Ef & _)|?]; [left|by right].
  split_and!; try done. destruct D' as [_ He]. rewrite <- He, Ef. done.
Qed.

(** [Open] refuses a file whose size is not a whole number of pages, a file of one page,
    and a file whose page 0 or page 1 is not the META or CATALOG page, with Corruption. *)
Lemma disk_open_rejects path f n evs :
  fault_free evs -> len f = n * PAGE_SIZE + (len f) mod PAGE_SIZE -> 0 < n < 2 ^ 31 - 1 ->
  (len f) mod PAGE_SIZE <> 0 \/ n = 1 \/
  ph_page_type (hdr META_PAGE_ID f) <> META \/ ph_page_type (hdr CATALOG_ROOT_PAGE_ID f) <> CATALOG ->
  let '(s, d) := Open path true true f evs in code s = kCorruption /\ file d = f.
Proof.
  intros Hf L Hn Hbad. unfold Open. simpl negb; cbn match.
  rewrite Z.rem_mod_nonneg by (unfold_consts; lia).
  destruct (Z.eqb_spec ((len f) mod PAGE_SIZE) 0) as [E|E]; [|done]. simpl negb; cbn match.
  rewrite E, Z.add_0_r in L. rewrite L, Z.div_mul, s32_id by dlia.
  destruct (Z.eqb_spec n 0); [lia|]. destruct (Z.leb_spec 2 n); [|done].
  unfold Open_existing. set (d := set_page_count n _).
  pose proof (read_page_header_spec META_PAGE_ID d ltac:(simpl; dlia) ltac:(simpl; lia)) as R.
  destruct (read_page_header META_PAGE_ID d) as [r d1]. destruct R as [A R].
  apply advanced_same in A as (A1 & A2 & A3 & A4). simpl in A1, A2, A3, A4.
  destruct R as [->|(s & -> & Es & NF)]; [|done]. change (file d) with f.
  destruct (decide _) as [|Hm]; [done|].
  pose proof (read_page_header_spec CATALOG_ROOT_PAGE_ID d1 ltac:(rewrite A2; dlia) ltac:(rewrite A1, A2; lia)) as R.
  destruct (read_page_header CATALOG_ROOT_PAGE_ID d1) as [r d2]. destruct R as [B R].
  apply advanced_same in B as (B1 & B2 & B3 & B4).
  destruct R as [->|(s & -> & Es & NF)].
  - rewrite A1. destruct (decide _) as [|Hk]; [split; [done|congruence]|].
    destruct Hbad as [?|[?|[?|?]]]; try done; lia.
  - exfalso. apply NF. by eapply Forall_suffix.
Qed.
End ops.

(** ** A concrete database file *)

#[local] Existing Instance debug_host.
#[local] Instance errno_text_demo : ErrnoText := {| errno_message n := pretty n |}.

(** Short transfers and an interruption during the bootstrap. *)
Definition boot_events : list Event := [EvXfer 9; EvErr EINTR; EvXfer 4095; EvXfer 0].
Definition db0 : Disk := snd (Open "demo.db" true true [] boot_events).
Definition db1 : Disk := snd (AllocatePage db0).
Definition db2 : Disk := snd (DeallocatePage 2 db1).
(** The same manager with another schedule ahead. *)
Definition facing (evs : list Event) (d : Disk) : Disk := set_file (file d) evs d.

Lemma facing_ok evs d l : disk_ok d l -> disk_ok (facing evs d) l.
Proof. by intros [F H]. Qed.

Lemma db0_ok : disk_ok db0 [].
Proof.
  pose proof (open_new_spec "demo.db" boot_events) as O. unfold db0.
  destruct (Open _ _ _ _ _) as [s d] eqn:E. destruct O as [(_ & D & _)|(C & _)]; [exact D|].
  exfalso. apply (f_equal (fun r => code (fst r))) in E. cbn [fst] in E. rewrite C in E.
  vm_compute in E. discriminate.
Qed.

Lemma db1_ok : disk_ok db1 [] /\ page_count db1 = 3.
Proof.
  pose proof (allocate_extend db0 db0_ok ltac:(vm_compute; reflexivity)) as A. unfold db1.
  destruct (AllocatePage db0) as [r d] eqn:E. destruct r as [q|s].
  - destruct A as (Eq & D & C & _). split; [exact D|]. cbn [snd]. rewrite C, Eq. vm_compute. reflexivity.
  - exfalso. apply (f_equal (fun r => match fst r with Ok _ => true | Error _ => false end)) in E.
    vm_compute in E. discriminate.
Qed.

Lemma db2_ok : disk_ok db2 [2] /\ page_count db2 = 3.
Proof.
  destruct db1_ok as [D1 C1].
  pose proof (dealloc_spec 2 db1 [] D1 ltac:(rewrite C1; lia)) as S. unfold db2.
  destruct (DeallocatePage 2 db1) as [s d] eqn:E.
  destruct S as [(_ & A & _)|[(_ & _ & _ & D & C & _)|(A & _)]].
  - exfalso. vm_compute in A. discriminate.
  - split; [exact D|]. cbn [snd]. congruence.
  - exfalso. apply (f_equal (fun r => code (fst r))) in E. cbn [fst] in E. rewrite A in E.
    vm_compute in E. discriminate.
Qed.

Lemma disk_allocate_contract_witness :
  fst (AllocatePage (facing [] db2)) = Ok 2 /\ fst (AllocatePage (facing [] db1)) = Ok 3 /\
  code (match fst (AllocatePage (facing [EvErr 5] db2)) with Error s => s | Ok _ => StatusOK end) = kIOError.
Proof.
  split; [|split; vm_compute; reflexivity].
  pose proof (disk_allocate_contract (facing [] db2) [2] (facing_ok _ _ _ (proj1 db2_ok))
    ltac:(vm_compute; reflexivity)) as T.
  destruct (AllocatePage (facing [] db2)) as [r d]. destruct T as [T F].
  destruct (F ltac:(constructor)) as [p ->]. destruct T as [-> _]. reflexivity.
Defined.

Lemma disk_deallocate_contract_witness :
  fst (DeallocatePage 2 db1) = StatusOK /\ fst (DeallocatePage 2 db2) = StatusOK /\
  code (fst (DeallocatePage 1 db2)) = kInvalidArgument.
Proof.
  split; [vm_compute; reflexivity|]. split; [vm_compute; reflexivity|].
  pose proof (disk_deallocate_contract db2 [2] 1 (proj1 db2_ok)) as T.
  destruct (DeallocatePage 1 db2) as [s d]. rewrite decide_False in T by lia. apply T.
Defined.

(** The allocation from [db2] that fails at its second write: page 2 leaks, the file opens. *)
Lemma disk_failure_recoverable_witness :
  (exists s d', AllocatePage (facing [EvXfer 4096; EvXfer 4096; EvErr 5] db2) = (Error s, d') /\
     fst (Open "demo.db" true true (file d') []) = StatusOK).
Proof.
  destruct (AllocatePage (facing [EvXfer 4096; EvXfer 4096; EvErr 5] db2)) as [r d'] eqn:E.
  destruct r as [q|s].
  { exfalso. apply (f_equal (fun r => match fst r with Ok _ => true | Error _ => false end)) in E.
    vm_compute in E. discriminate. }
  exists s, d'. split; [reflexivity|].
  destruct (disk_failure_recoverable "demo.db" (facing [EvXfer 4096; EvXfer 4096; EvErr 5] db2) [2] 2 [])
    as [T _].
  - apply facing_ok, db2_ok.
  - vm_compute. reflexivity.
  - vm_compute. reflexivity.
  - repeat constructor; vm_compute; congruence.
  - vm_compute. split; congruence.
  - constructor.
  - specialize (T s d' E). destruct (Open _ _ _ _ _) as [s' e]. apply T.
Defined.

Lemma disk_open_recovers_witness :
  fst (Open "demo.db" true true (file db2) []) = StatusOK /\
  freelist_head (snd (Open "demo.db" true true (file db2) [])) = 2.
Proof.
  split; [vm_compute; reflexivity|].
  pose proof (disk_open_recovers "demo.db" db2 [2] [] (proj1 db2_ok) ltac:(vm_compute; reflexivity)) as T.
  destruct (Open _ _ _ _ _) as [s e]. destruct T as [(_ & _ & _ & H & _)|(_ & N & _)].
  - cbn [snd]. rewrite H. vm_compute. reflexivity.
  - exfalso. apply N. constructor.
Defined.
