(* ===== verification/Replacer.v ===== *)
(** * Clock-sweep replacer: src/src/buffer/replacer.hpp

    [mtx_] makes [SetEvictable] and [Evict] atomic, but [RecordAccess] takes no lock: other
    threads can bump usage counts in the middle of a sweep.  [Evict] is therefore modelled
    against an environment [env] that says which frames are bumped at each of its two
    observable points per scanned frame, and every theorem holds for all environments. *)

From S2P Require Import Prelude Common.

Definition kMaxUsageCount : Z := 3.

Record Replacer := mkReplacer {
  usage_count : list Z;
  evictable : list bool;
  hand : Z;
  evictable_count : Z
}.

Definition new_Replacer (capacity : Z) : Replacer :=
  mkReplacer (replicate (Z.to_nat capacity) 0) (replicate (Z.to_nat capacity) false) 0 0.

Definition usage_at (i : Z) (r : Replacer) : Z := usage_count r !!! Z.to_nat i.
Definition evictable_at (i : Z) (r : Replacer) : bool := evictable r !!! Z.to_nat i.

Definition set_usage (i u : Z) (r : Replacer) : Replacer :=
  mkReplacer (<[Z.to_nat i := u]> (usage_count r)) (evictable r) (hand r) (evictable_count r).
Definition set_hand (h : Z) (r : Replacer) : Replacer :=
  mkReplacer (usage_count r) (evictable r) h (evictable_count r).

(** The compare-exchange loop ends by incrementing the count once, or not at all once it is
    at the cap. *)
Definition RecordAccess (frame_id : Z) (r : Replacer) : Replacer :=
  let old := usage_at frame_id r in
  if old <? kMaxUsageCount then set_usage frame_id (u8 (old + 1)) r else r.

Definition SetEvictable (frame_id : Z) (b : bool) (r : Replacer) : Replacer :=
  if bool_decide (evictable_at frame_id r = b) then r
  else
    mkReplacer (usage_count r) (<[Z.to_nat frame_id := b]> (evictable r)) (hand r)
      (u64 (if b then evictable_count r + 1 else evictable_count r - 1)).

Definition next_hand (r : Replacer) : Replacer := set_hand ((hand r + 1) mod len (usage_count r)) r.

Definition ClaimVictim (r : Replacer) : Z * Replacer :=
  let victim := hand r in
  let r := mkReplacer (usage_count r) (<[Z.to_nat victim := false]> (evictable r)) (hand r)
             (u64 (evictable_count r - 1)) in
  let r := set_usage victim 0 r in
  (victim, next_hand r).

(** What other threads do at a point of the sweep: accesses recorded there, in order. *)
Definition accesses (fs : list Z) (r : Replacer) : Replacer := foldl (fun r f => RecordAccess f r) r fs.

(** The bounded sweep: [n] more frames to scan, [scanned] already scanned.  [None] is the
    end of the [for] loop with no victim.  Other threads act between the membership test
    and the load of the count ([env (2 * scanned)]), and between that load and the
    decrement ([env (2 * scanned + 1)]). *)
Fixpoint Evict_sweep (env : nat -> list Z) (n scanned : nat) (r : Replacer) : option Z * Replacer :=
  match n with
  | O => (None, r)
  | S n =>
      if negb (evictable_at (hand r) r) then Evict_sweep env n (S scanned) (next_hand r)
      else
        let r := accesses (env (2 * scanned)%nat) r in
        if usage_at (hand r) r =? 0 then
          let '(v, r) := ClaimVictim r in (Some v, r)
        else
          let r := accesses (env (2 * scanned + 1)%nat) r in
          let r := set_usage (hand r) (u8 (usage_at (hand r) r - 1)) r in
          Evict_sweep env n (S scanned) (next_hand r)
  end.

(** [while (!evictable_[hand_]) hand_ = (hand_ + 1) % n;] with fuel for one turn. *)
Fixpoint skip_to_evictable (fuel : nat) (r : Replacer) : Replacer :=
  match fuel with
  | O => r
  | S fuel => if evictable_at (hand r) r then r else skip_to_evictable fuel (next_hand r)
  end.

Definition Evict (env : nat -> list Z) (r : Replacer) : option Z * Replacer :=
  if evictable_count r =? 0 then (None, r)
  else
    let n := len (usage_count r) in
    match Evict_sweep env (Z.to_nat ((kMaxUsageCount + 1) * n)) 0 r with
    | (Some v, r) => (Some v, r)
    | (None, r) =>
        let r := skip_to_evictable (Z.to_nat n) r in
        let '(v, r) := ClaimVictim r in (Some v, r)
    end.

Definition EvictableCount (r : Replacer) : Z := evictable_count r.

(** ** Invariant *)

Fixpoint num_true (l : list bool) : Z :=
  match l with [] => 0 | b :: l => (if b then 1 else 0) + num_true l end.

Record replacer_ok (r : Replacer) : Prop := {
  rok_len : length (evictable r) = length (usage_count r);
  rok_cap : 0 < len (usage_count r) < 2 ^ 31;
  rok_hand : 0 <= hand r < len (usage_count r);
  rok_usage : Forall (fun u => 0 <= u <= kMaxUsageCount) (usage_count r);
  rok_count : evictable_count r = num_true (evictable r)
}.

Lemma num_true_bounds (l : list bool) : 0 <= num_true l <= len l.
Proof. induction l as [|[] l IH]; simpl num_true; simpl length; lia. Qed.

Lemma num_true_insert (l : list bool) (i : nat) (b old : bool) :
  l !! i = Some old ->
  num_true (<[i := b]> l) = num_true l - (if old then 1 else 0) + (if b then 1 else 0).
Proof.
  revert i. induction l as [|x l IH]; intros i H; [done|]. destruct i as [|i]; simpl in *.
  - injection H as ->. lia.
  - rewrite (IH i H). lia.
Qed.

Lemma num_true_pos (l : list bool) : 0 < num_true l -> exists i, l !! i = Some true.
Proof.
  induction l as [|[] l IH]; simpl; [lia|by exists 0%nat|].
  intros H. destruct (IH H) as [i Hi]. by exists (S i).
Qed.

Lemma num_true_replicate n : num_true (replicate n false) = 0.
Proof. induction n; simpl; lia. Qed.

Lemma new_Replacer_ok n : 0 < n < 2 ^ 31 -> replacer_ok (new_Replacer n).
Proof.
  intros H. split; simpl; rewrite ?length_replicate; try lia.
  - by apply Forall_replicate.
  - by rewrite num_true_replicate.
Qed.

Section facts.
Implicit Types (r : Replacer) (f : Z).

Definition in_range f r : Prop := 0 <= f < len (usage_count r).

Lemma usage_lookup f r : in_range f r -> usage_count r !! Z.to_nat f = Some (usage_at f r).
Proof. intros H. apply list_lookup_lookup_total_lt. unfold in_range in H. lia. Qed.

Lemma evictable_lookup f r :
  replacer_ok r -> in_range f r -> evictable r !! Z.to_nat f = Some (evictable_at f r).
Proof. intros K H. apply list_lookup_lookup_total_lt. rewrite (rok_len _ K). unfold in_range in H. lia. Qed.

Lemma usage_range f r : replacer_ok r -> in_range f r -> 0 <= usage_at f r <= kMaxUsageCount.
Proof. intros K H. apply (Forall_lookup_1 _ _ _ _ (rok_usage _ K) (usage_lookup _ _ H)). Qed.

Lemma set_usage_ok f u r : replacer_ok r -> 0 <= u <= kMaxUsageCount -> replacer_ok (set_usage f u r).
Proof.
  intros [] Hu. split; simpl; rewrite ?length_insert; try done. by apply Forall_insert.
Qed.

Lemma usage_at_set f g u r :
  in_range f r -> 0 <= g -> usage_at g (set_usage f u r) = if decide (g = f) then u else usage_at g r.
Proof.
  intros [Hf Hl] Hg. unfold usage_at; simpl. case_decide as E.
  - subst. apply list_lookup_total_insert_eq. lia.
  - apply list_lookup_total_insert_ne. lia.
Qed.

Lemma next_hand_ok r : replacer_ok r -> replacer_ok (next_hand r).
Proof.
  intros []. split; try done. simpl. apply Z.mod_pos_bound. lia.
Qed.

Lemma RecordAccess_ok f r : replacer_ok r -> in_range f r -> replacer_ok (RecordAccess f r).
Proof.
  intros K H. unfold RecordAccess. pose proof (usage_range _ _ K H). unfold kMaxUsageCount in *.
  destruct (Z.ltb_spec (usage_at f r) 3); [|done]. apply set_usage_ok; [done|].
  unfold u8, kMaxUsageCount. lia.
Qed.
End facts.
