(* ===== verification/ReplacerTheorems.v ===== *)
(** * What the replacer guarantees the buffer pool

    [Evict] returns a candidate whenever there is one, removes it from the candidate set and
    resets its count, whatever other threads do to the counts meanwhile; with no interference
    it always finds a frame whose count has run down to zero within its bounded sweep. *)

From S2P Require Import Prelude Common Replacer.

(** The parts of the state that only [mtx_] holders change. *)
Definition same_set (r r' : Replacer) : Prop :=
  evictable r' = evictable r /\ evictable_count r' = evictable_count r /\
  length (usage_count r') = length (usage_count r).

#[export] Instance same_set_preorder : PreOrder same_set.
Proof. unfold same_set. split; [done|]. intros a b c (? & ? & ?) (? & ? & ?). split_and!; congruence. Qed.

Lemma same_set_in_range f r r' : same_set r r' -> in_range f r -> in_range f r'.
Proof. intros (_ & _ & E). unfold in_range. by rewrite E. Qed.

Lemma same_set_evictable f r r' : same_set r r' -> evictable_at f r' = evictable_at f r.
Proof. intros (E & _). unfold evictable_at. by rewrite E. Qed.

Lemma RecordAccess_same f r : same_set r (RecordAccess f r) /\ hand (RecordAccess f r) = hand r.
Proof.
  unfold RecordAccess, same_set. destruct (_ <? _); [|done]. simpl. by rewrite length_insert.
Qed.

Lemma accesses_ok fs r :
  replacer_ok r -> Forall (fun f => in_range f r) fs ->
  replacer_ok (accesses fs r) /\ same_set r (accesses fs r) /\ hand (accesses fs r) = hand r.
Proof.
  revert r. induction fs as [|f fs IH]; intros r K F; [done|]. simpl.
  apply Forall_cons in F as [Hf F]. destruct (RecordAccess_same f r) as [S H].
  destruct (IH (RecordAccess f r)) as (K' & S' & H').
  - by apply RecordAccess_ok.
  - eapply Forall_impl; [exact F|]. intros g. by apply same_set_in_range.
  - split; [done|]. split; [by etrans|congruence].
Qed.

Lemma hand_in_range r : replacer_ok r -> in_range (hand r) r.
Proof. intros K. apply K. Qed.

(** One decrement under the hand, by a thread that saw the count above zero: accesses only
    raise it, so it cannot wrap. *)
Lemma accesses_raise fs f r :
  replacer_ok r -> Forall (fun f => in_range f r) fs -> in_range f r ->
  usage_at f r <= usage_at f (accesses fs r).
Proof.
  revert r. induction fs as [|g fs IH]; intros r K F Hf; simpl; [lia|].
  apply Forall_cons in F as [Hg F]. destruct (RecordAccess_same g r) as [S _].
  transitivity (usage_at f (RecordAccess g r)).
  - unfold RecordAccess. pose proof (usage_range _ _ K Hg). unfold kMaxUsageCount in *.
    destruct (Z.ltb_spec (usage_at g r) 3); [|lia].
    rewrite usage_at_set by (done || apply Hf). case_decide; [|lia]. subst. unfold u8. lia.
  - apply IH; [by apply RecordAccess_ok| |by eapply same_set_in_range].
    eapply Forall_impl; [exact F|]. intros x. by apply same_set_in_range.
Qed.

Definition env_ok (env : nat -> list Z) (r : Replacer) : Prop :=
  forall k, Forall (fun f => in_range f r) (env k).

Lemma env_ok_same env r r' : same_set r r' -> env_ok env r -> env_ok env r'.
Proof. intros S E k. eapply Forall_impl; [apply E|]. intros f. by apply same_set_in_range. Qed.

Lemma next_hand_same r : same_set r (next_hand r).
Proof. done. Qed.

(** The decrement step of the sweep. *)
Lemma decrement_ok fs r :
  replacer_ok r -> Forall (fun f => in_range f r) fs -> usage_at (hand r) r <> 0 ->
  let r1 := accesses fs r in
  let r2 := set_usage (hand r1) (u8 (usage_at (hand r1) r1 - 1)) r1 in
  replacer_ok r2 /\ same_set r r2.
Proof.
  intros K F Hu r1 r2. destruct (accesses_ok fs r K F) as (K1 & S1 & H1).
  pose proof (hand_in_range _ K) as Hh. pose proof (usage_range _ _ K Hh).
  pose proof (accesses_raise fs (hand r) r K F Hh) as Hr.
  assert (Hh1 : in_range (hand r) r1) by by eapply same_set_in_range.
  pose proof (usage_range _ _ K1 Hh1). unfold r2, r1 in *. rewrite H1.
  split; [apply set_usage_ok; [done|]; unfold u8, kMaxUsageCount in *; lia|].
  destruct S1 as (A & B & C). unfold same_set; simpl. by rewrite length_insert.
Qed.

(** The state in which the sweep claims its victim. *)
Definition claims (r : Replacer) (v : Z) (r' : Replacer) : Prop :=
  exists r1, replacer_ok r1 /\ same_set r r1 /\ hand r1 = v /\ evictable_at v r = true /\
    ClaimVictim r1 = (v, r').

Lemma claims_same r0 r v r' : same_set r0 r -> claims r v r' -> claims r0 v r'.
Proof.
  intros S (r1 & K & S1 & H & E & C). exists r1. split_and!; try done; [by etrans|].
  by rewrite <- (same_set_evictable _ _ _ S).
Qed.

Lemma sweep_spec env n scanned r :
  replacer_ok r -> env_ok env r ->
  let '(o, r') := Evict_sweep env n scanned r in
  match o with
  | Some v => claims r v r'
  | None => replacer_ok r' /\ same_set r r'
  end.
Proof.
  revert scanned r. induction n as [|n IH]; intros scanned r K E; cbn [Evict_sweep]; [done|].
  destruct (evictable_at (hand r) r) eqn:Ev; simpl negb; cbn match.
  - destruct (accesses_ok _ r K (E (2 * scanned)%nat)) as (K1 & S1 & H1).
    set (r1 := accesses (env (2 * scanned)%nat) r) in *.
    destruct (Z.eqb_spec (usage_at (hand r1) r1) 0) as [Z0|Z0].
    + simpl. exists r1. split_and!; try done. by rewrite H1.
    + destruct (decrement_ok (env (2 * scanned + 1)%nat) r1 K1 (env_ok_same _ _ _ S1 E _) Z0) as [K2 S2].
      set (r2 := set_usage _ _ _) in *. assert (S02 : same_set r r2) by by etrans.
      specialize (IH (S scanned) (next_hand r2) (next_hand_ok _ K2) (env_ok_same _ _ _ S02 E)).
      destruct (Evict_sweep env n _ _) as [[v|] r'].
      * eapply claims_same; [|exact IH]. exact S02.
      * destruct IH as [K' S']. split; [done|]. etrans; [exact S02|exact S'].
  - specialize (IH (S scanned) (next_hand r) (next_hand_ok _ K) (env_ok_same _ _ _ (next_hand_same r) E)).
    destruct (Evict_sweep env n _ _) as [[v|] r'].
    + eapply claims_same; [|exact IH]. done.
    + destruct IH as [K' S']. split; [done|]. etrans; [apply next_hand_same|exact S'].
Qed.

(** ** Distance of the hand from a candidate *)

Definition dist (j : Z) (r : Replacer) : Z := (j - hand r) mod len (usage_count r).

Lemma dist_0 j r : replacer_ok r -> in_range j r -> dist j r = 0 <-> hand r = j.
Proof.
  intros K [H1 H2]. pose proof (rok_hand _ K). unfold dist. split.
  - intros D. destruct (decide (hand r <= j)).
    + rewrite Z.mod_small in D by lia. lia.
    + rewrite <- (Z_mod_plus_full _ 1), Z.mod_small in D by lia. lia.
  - intros ->. rewrite Z.sub_diag. by apply Z.mod_0_l; lia.
Qed.

Lemma dist_next j r :
  replacer_ok r -> in_range j r -> hand r <> j -> dist j (next_hand r) = dist j r - 1.
Proof.
  intros K Hj Hne. pose proof (rok_cap _ K). pose proof (rok_hand _ K). destruct Hj.
  assert (D : dist j r <> 0) by (intros E; apply Hne, dist_0; done).
  unfold dist in *. simpl. set (n := len (usage_count r)) in *.
  rewrite Zminus_mod_idemp_r. replace (j - (hand r + 1)) with ((j - hand r) - 1) by lia.
  rewrite <- Zminus_mod_idemp_l. apply Z.mod_small. pose proof (Z.mod_pos_bound (j - hand r) n). lia.
Qed.

Lemma dist_next_hit j r :
  replacer_ok r -> hand r = j -> dist j (next_hand r) = len (usage_count r) - 1.
Proof.
  intros K <-. pose proof (rok_cap _ K). unfold dist; simpl. set (n := len (usage_count r)) in *.
  rewrite Zminus_mod_idemp_r. replace (hand r - (hand r + 1)) with (-1) by lia.
  rewrite <- (Z_mod_plus_full _ 1). rewrite Z.mod_small; lia.
Qed.

Lemma dist_bound j r : replacer_ok r -> 0 <= dist j r < len (usage_count r).
Proof. intros K. pose proof (rok_cap _ K). apply Z.mod_pos_bound. lia. Qed.

(** The fallback scan reaches a candidate within one turn. *)
Lemma skip_spec fuel j r :
  replacer_ok r -> in_range j r -> evictable_at j r = true -> dist j r < Z.of_nat fuel ->
  let r' := skip_to_evictable fuel r in
  replacer_ok r' /\ same_set r r' /\ evictable_at (hand r') r' = true.
Proof.
  revert r. induction fuel as [|fuel IH]; intros r K Hj Ej D; simpl.
  { pose proof (dist_bound j r K). lia. }
  destruct (evictable_at (hand r) r) eqn:Ev; [done|].
  assert (Hne : hand r <> j) by congruence.
  destruct (IH (next_hand r)) as (A & B & C); try done.
  - by apply next_hand_ok.
  - rewrite dist_next by done. lia.
Qed.

Lemma candidate_exists r :
  replacer_ok r -> evictable_count r <> 0 -> exists j, in_range j r /\ evictable_at j r = true.
Proof.
  intros K Hc. rewrite (rok_count _ K) in Hc. pose proof (num_true_bounds (evictable r)).
  destruct (num_true_pos (evictable r)) as [i Hi]; [lia|]. exists (Z.of_nat i).
  pose proof (lookup_lt_Some _ _ _ Hi) as L. rewrite (rok_len _ K) in L. split; [split; lia|].
  unfold evictable_at. rewrite Nat2Z.id. by apply list_lookup_total_correct.
Qed.

(** ** Claiming a victim *)

Lemma claim_ok r v r' :
  replacer_ok r -> claims r v r' ->
  in_range v r /\ evictable_at v r = true /\ replacer_ok r' /\
  evictable r' = <[Z.to_nat v := false]> (evictable r) /\
  evictable_count r' = evictable_count r - 1 /\ usage_at v r' = 0 /\
  length (usage_count r') = length (usage_count r).
Proof.
  intros K (r1 & K1 & S1 & H1 & E & C). unfold ClaimVictim in C. injection C as Ev Er.
  destruct S1 as (A & B & L). pose proof (rok_hand _ K1) as Hh. rewrite H1, L in Hh.
  assert (Hin : in_range v r) by done.
  pose proof (evictable_lookup _ _ K Hin) as El. rewrite E in El.
  pose proof (rok_count _ K) as Hc. pose proof (num_true_insert _ _ false _ El) as Hi. simpl in Hi.
  pose proof (num_true_bounds (<[Z.to_nat v := false]> (evictable r))) as Hb.
  pose proof (rok_cap _ K) as Cap. rewrite length_insert, (rok_len _ K) in Hb.
  assert (Eu : u64 (evictable_count r1 - 1) = evictable_count r - 1).
  { rewrite B. apply u64_id. unfold is_u64. lia. }
  split; [done|]. split; [done|]. subst r'. rewrite H1.
  cbn [evictable evictable_count usage_count next_hand set_hand set_usage]. rewrite A, Eu.
  split_and!; try done.
  - split; cbn [evictable evictable_count usage_count hand next_hand set_hand set_usage];
      rewrite ?length_insert, ?A; rewrite ?L.
    + by apply K.
    + done.
    + apply Z.mod_pos_bound. lia.
    + apply Forall_insert; [apply K1|unfold kMaxUsageCount; lia].
    + lia.
  - unfold usage_at; simpl. apply list_lookup_total_insert_eq. lia.
  - by rewrite length_insert.
Qed.

Lemma evict_claims env r :
  replacer_ok r -> env_ok env r -> evictable_count r <> 0 ->
  exists v r', Evict env r = (Some v, r') /\ claims r v r'.
Proof.
  intros K E Hc. unfold Evict. destruct (Z.eqb_spec (evictable_count r) 0); [done|].
  pose proof (sweep_spec env (Z.to_nat ((kMaxUsageCount + 1) * len (usage_count r))) 0 r K E) as S.
  destruct (Evict_sweep _ _ _ _) as [[v|] r1]; [by exists v, r1|]. destruct S as [K1 S1].
  destruct (candidate_exists r K Hc) as (j & Hj & Ej).
  destruct (skip_spec (Z.to_nat (len (usage_count r))) j r1) as (K2 & S2 & E2); try done.
  - by eapply same_set_in_range.
  - by rewrite (same_set_evictable _ _ _ S1).
  - pose proof (dist_bound j r1 K1). destruct S1 as (_ & _ & L). rewrite L in *. lia.
  - set (r2 := skip_to_evictable _ r1) in *. assert (S02 : same_set r r2) by by etrans.
    rewrite (same_set_evictable _ _ _ S02) in E2. eexists _, _. split; [done|].
    exists r2. split_and!; done.
Qed.

(** With nobody else touching the counts, the sweep itself finds a victim: each turn takes
    one off the count of candidate [j], which is at most three. *)
Lemma quiet_sweep n scanned j r :
  replacer_ok r -> in_range j r -> evictable_at j r = true ->
  dist j r + usage_at j r * len (usage_count r) < Z.of_nat n ->
  exists v r', Evict_sweep (fun _ => []) n scanned r = (Some v, r').
Proof.
  revert scanned r. induction n as [|n IH]; intros scanned r K Hj Ej D; cbn [Evict_sweep].
  { pose proof (dist_bound j r K). pose proof (usage_range _ _ K Hj). nia. }
  pose proof (rok_cap _ K). pose proof (usage_range _ _ K Hj) as Uj.
  pose proof (hand_in_range _ K) as Hh.
  destruct (evictable_at (hand r) r) eqn:Ev; simpl negb; cbn match.
  - unfold accesses; simpl foldl. destruct (Z.eqb_spec (usage_at (hand r) r) 0) as [|Z0].
    { simpl. by eexists _, _. }
    destruct (decrement_ok [] r K (Forall_nil_2 _) Z0) as [K2 S2]. unfold accesses in K2, S2; simpl in K2, S2.
    set (r2 := set_usage _ _ r) in *.
    assert (Hj2 : in_range j r2) by by eapply same_set_in_range.
    assert (Lr : len (usage_count (next_hand r2)) = len (usage_count r))
      by (destruct S2 as (_ & _ & L); simpl in *; lia).
    apply IH; [by apply next_hand_ok|done|by apply Ej|]. rewrite Lr.
    change (usage_at j (next_hand r2)) with (usage_at j r2). unfold r2.
    rewrite usage_at_set by (done || apply Hj). case_decide as Eh.
    + subst j. rewrite dist_next_hit by done. simpl. rewrite length_insert.
      assert (dist (hand r) r = 0) by by apply dist_0. unfold u8, kMaxUsageCount in *.
      rewrite Z.mod_small by lia. nia.
    + rewrite dist_next by (done || simpl; congruence). change (dist j (set_usage _ _ r)) with
        ((j - hand r) mod len (<[Z.to_nat (hand r) := u8 (usage_at (hand r) r - 1)]> (usage_count r))).
      rewrite length_insert. unfold dist in D. lia.
  - assert (Hne : hand r <> j) by congruence. apply IH; try done; [by apply next_hand_ok|].
    rewrite dist_next by done. change (usage_at j (next_hand r)) with (usage_at j r).
    change (len (usage_count (next_hand r))) with (len (usage_count r)). lia.
Qed.

Lemma SetEvictable_spec f b r :
  replacer_ok r -> in_range f r ->
  replacer_ok (SetEvictable f b r) /\ evictable (SetEvictable f b r) = <[Z.to_nat f := b]> (evictable r) /\
  usage_count (SetEvictable f b r) = usage_count r.
Proof.
  intros K Hf. pose proof (evictable_lookup _ _ K Hf) as El. unfold SetEvictable.
  case_bool_decide as E.
  - split; [done|]. split; [|done]. symmetry. apply list_insert_id. by rewrite El, E.
  - split; [|done]. pose proof (num_true_insert _ _ b _ El) as Hi.
    pose proof (num_true_bounds (<[Z.to_nat f := b]> (evictable r))) as Hb.
    pose proof (rok_count _ K). pose proof (rok_cap _ K). rewrite length_insert, (rok_len _ K) in Hb.
    destruct K as [K1 K2 K3 K4 K5]. split; simpl; rewrite ?length_insert; try done.
    rewrite u64_id; destruct b, (evictable_at f r); try done; unfold is_u64; lia.
Qed.

Lemma Evict_spec env r :
  replacer_ok r -> env_ok env r ->
  match Evict env r with
  | (None, r') => r' = r /\ forall f, in_range f r -> evictable_at f r = false
  | (Some v, r') =>
      in_range v r /\ evictable_at v r = true /\ replacer_ok r' /\
      evictable r' = <[Z.to_nat v := false]> (evictable r) /\
      EvictableCount r' = EvictableCount r - 1 /\ usage_at v r' = 0 /\
      length (usage_count r') = length (usage_count r)
  end.
Proof.
  intros K E. destruct (decide (evictable_count r = 0)) as [Hc|Hc].
  - unfold Evict. rewrite Hc. simpl. split; [done|]. intros f Hf.
    destruct (evictable_at f r) eqn:Ef; [|done]. exfalso.
    pose proof (evictable_lookup _ _ K Hf) as El. rewrite Ef in El.
    pose proof (num_true_insert _ _ false _ El) as Hi. simpl in Hi.
    pose proof (num_true_bounds (<[Z.to_nat f := false]> (evictable r))).
    pose proof (rok_count _ K). lia.
  - destruct (evict_claims env r K E Hc) as (v & r' & -> & C).
    destruct (claim_ok _ _ _ K C) as (A1 & A2 & A3 & A4 & A5 & A6 & A7). done.
Qed.

(** ** Claims *)

(** C39: For every interleaving with other threads' [RecordAccess], [Evict] returns nothing
    exactly when no frame is a candidate; otherwise its victim was a candidate, has left the
    set (so two callers cannot get the same frame), has its count reset, no other frame's
    membership changed, and the candidate count is exact again. *)
Theorem replacer_evict_correct env r :
  replacer_ok r -> env_ok env r ->
  match Evict env r with
  | (None, r') => r' = r /\ forall f, in_range f r -> evictable_at f r = false
  | (Some v, r') =>
      in_range v r /\ evictable_at v r = true /\ replacer_ok r' /\
      evictable r' = <[Z.to_nat v := false]> (evictable r) /\
      EvictableCount r' = EvictableCount r - 1 /\ usage_at v r' = 0
  end.
Proof.
  intros K E. pose proof (Evict_spec env r K E) as S. destruct (Evict env r) as [[v|] r']; [|done].
  destruct S as (A1 & A2 & A3 & A4 & A5 & A6 & _). done.
Qed.

(** The bound of the sweep is enough: while no other thread records an access, the
    [for] loop itself finds a victim and the fallback below it is never reached. *)
Lemma replacer_sweep_bound_suffices r :
  replacer_ok r -> evictable_count r <> 0 ->
  exists v r', Evict_sweep (fun _ => []) (Z.to_nat ((kMaxUsageCount + 1) * len (usage_count r))) 0 r =
    (Some v, r').
Proof.
  intros K Hc. destruct (candidate_exists r K Hc) as (j & Hj & Ej).
  apply (quiet_sweep _ 0 j); try done. pose proof (dist_bound j r K).
  pose proof (usage_range _ _ K Hj). pose proof (rok_cap _ K). unfold kMaxUsageCount in *. nia.
Qed.

(** [SetEvictable] sets exactly one frame's membership, is idempotent, and keeps the
    candidate count exact; [RecordAccess] keeps every count within its cap and touches no
    membership. *)
Lemma replacer_ops_preserve f b r :
  replacer_ok r -> in_range f r ->
  replacer_ok (SetEvictable f b r) /\
  evictable (SetEvictable f b r) = <[Z.to_nat f := b]> (evictable r) /\
  SetEvictable f b (SetEvictable f b r) = SetEvictable f b r /\
  replacer_ok (RecordAccess f r) /\ evictable (RecordAccess f r) = evictable r.
Proof.
  intros K Hf. destruct (SetEvictable_spec f b r K Hf) as (A & B & C).
  split; [done|]. split; [done|]. split.
  - unfold SetEvictable at 1. rewrite bool_decide_true; [done|].
    unfold evictable_at. rewrite B. apply list_lookup_total_insert_eq.
    rewrite (rok_len _ K). destruct Hf. lia.
  - split; [by apply RecordAccess_ok|]. apply RecordAccess_same.
Qed.

(** ** A concrete replacer: frames 0 and 2 are candidates, frame 0 was used twice *)

Definition rep3 : Replacer := SetEvictable 2 true (SetEvictable 0 true (RecordAccess 0 (RecordAccess 0 (new_Replacer 3)))).

Lemma rep3_ok : replacer_ok rep3.
Proof. vm_compute. split; vm_compute; try done. repeat constructor; done. Qed.

Lemma replacer_evict_correct_witness :
  fst (Evict (fun _ => []) rep3) = Some 2 /\ fst (Evict (fun _ => [0; 2]) rep3) = Some 0 /\
  EvictableCount (snd (Evict (fun _ => [0; 2]) rep3)) = EvictableCount rep3 - 1.
Proof.
  assert (E : fst (Evict (fun _ => [0; 2]) rep3) = Some 0) by (vm_compute; reflexivity).
  split; [vm_compute; reflexivity|]. split; [exact E|].
  pose proof (replacer_evict_correct (fun _ => [0; 2]) rep3 rep3_ok
    ltac:(intros k; repeat constructor; vm_compute; congruence)) as T.
  destruct (Evict (fun _ => [0; 2]) rep3) as [[v|] r']; [apply T|discriminate].
Defined.
