(* ===== verification/PoolIndex.v ===== *)
(** * Frame bookkeeping: src/src/buffer/freelist.hpp and page_table.hpp

    The free list is a LIFO stack of frame ids.  The page table is sixteen mutex-guarded
    maps; [FreeList] and [PageTable] are modelled at the granularity of their critical
    sections, and the table is shown to behave as one map. *)

From stdpp Require Import gmap.
From S2P Require Import Prelude Common.

(** ** FreeList *)

(** [lifo_], in vector order: the back is the last element. *)
Abbreviation FreeList := (list Z).

Definition new_FreeList (capacity : Z) : FreeList := seqZ 0 capacity.
Definition Push (frame_id : Z) (l : FreeList) : FreeList := l ++ [frame_id].
Definition TryPop (l : FreeList) : option Z * FreeList :=
  match last l with
  | None => (None, l)
  | Some frame_id => (Some frame_id, take (length l - 1) l)
  end.
Definition FreeList_Size (l : FreeList) : Z := len l.

Lemma TryPop_Push f l : TryPop (Push f l) = (Some f, l).
Proof.
  unfold TryPop, Push. rewrite last_snoc. f_equal. rewrite length_app. simpl.
  rewrite Nat.add_sub. by rewrite take_app_length.
Qed.

Lemma TryPop_Some f l l' : TryPop l = (Some f, l') <-> l = Push f l'.
Proof.
  split; [|intros ->; apply TryPop_Push]. unfold TryPop. destruct (last l) as [x|] eqn:E; [|done].
  intros [= -> <-]. apply last_Some in E as [l0 ->]. unfold Push. f_equal.
  rewrite length_app. simpl. rewrite Nat.add_sub. by rewrite take_app_length.
Qed.

Lemma TryPop_None l : fst (TryPop l) = None <-> l = [].
Proof.
  unfold TryPop. destruct (last l) as [x|] eqn:E; simpl.
  - split; [done|]. by intros ->.
  - by rewrite last_None in E.
Qed.

(** ** PageTable *)

Definition kNumShards : Z := 16.
Definition ShardIndex (page_id : Z) : Z := Z.land (u64 page_id) (kNumShards - 1).

Abbreviation PageTable := (list (gmap Z Z)).
Definition new_PageTable : PageTable := replicate (Z.to_nat kNumShards) ∅.

(** The map behind the guard of [page_id]'s shard. *)
Definition shard (page_id : Z) (t : PageTable) : gmap Z Z := t !!! Z.to_nat (ShardIndex page_id).

Definition Find (page_id : Z) (t : PageTable) : option Z := shard page_id t !! page_id.

(** [None] is [std::abort]: the page is already mapped. *)
Definition Insert (page_id frame_id : Z) (t : PageTable) : option PageTable :=
  match shard page_id t !! page_id with
  | Some _ => None
  | None => Some (<[Z.to_nat (ShardIndex page_id) := <[page_id := frame_id]> (shard page_id t)]> t)
  end.

Definition Erase (page_id : Z) (t : PageTable) : PageTable :=
  <[Z.to_nat (ShardIndex page_id) := delete page_id (shard page_id t)]> t.

Lemma ShardIndex_range p : 0 <= ShardIndex p < kNumShards.
Proof.
  unfold ShardIndex, kNumShards. change (16 - 1) with (Z.ones 4).
  rewrite Z.land_ones by lia. apply Z.mod_pos_bound. lia.
Qed.

(** Sixteen consecutive page ids fall in sixteen different shards. *)
Lemma ShardIndex_mod p : ShardIndex p = p mod 16.
Proof.
  unfold ShardIndex, kNumShards, u64. change (16 - 1) with (Z.ones 4).
  rewrite Z.land_ones by lia. change (2 ^ 4) with 16.
  replace (2 ^ 64) with (16 * 2 ^ 60) by lia. lia.
Qed.

(** The table has its sixteen shards, and each page is in the shard it hashes to. *)
Record table_ok (t : PageTable) : Prop := {
  tok_len : len t = kNumShards;
  tok_home : forall i m p f, t !! i = Some m -> m !! p = Some f -> Z.of_nat i = ShardIndex p
}.

(** The single map the table stands for. *)
Definition represents (t : PageTable) (m : gmap Z Z) : Prop :=
  table_ok t /\ forall p, Find p t = m !! p.

Lemma shard_lookup p t : table_ok t -> t !! Z.to_nat (ShardIndex p) = Some (shard p t).
Proof.
  intros K. apply list_lookup_lookup_total_lt. pose proof (ShardIndex_range p).
  pose proof (tok_len _ K). lia.
Qed.

Lemma Find_insert_shard p q m t :
  table_ok t ->
  Find q (<[Z.to_nat (ShardIndex p) := m]> t) = if decide (ShardIndex q = ShardIndex p) then m !! q else Find q t.
Proof.
  intros K. unfold Find, shard. pose proof (ShardIndex_range p). pose proof (ShardIndex_range q).
  pose proof (tok_len _ K). case_decide as E.
  - rewrite E, list_lookup_total_insert_eq by lia. done.
  - rewrite list_lookup_total_insert_ne by lia. done.
Qed.

Lemma table_ok_update p m t :
  table_ok t -> (forall q f, m !! q = Some f -> ShardIndex q = ShardIndex p) ->
  table_ok (<[Z.to_nat (ShardIndex p) := m]> t).
Proof.
  intros K H. split; [rewrite length_insert; apply K|]. intros i m' q f Hi Hq.
  pose proof (ShardIndex_range p).
  apply list_lookup_insert_Some in Hi as [(<- & <- & _)|(_ & Hi)].
  - rewrite (H q f Hq). lia.
  - by eapply tok_home.
Qed.

Lemma new_PageTable_ok : table_ok new_PageTable.
Proof.
  split; [done|]. intros i m p f Hi Hm. apply lookup_replicate in Hi as [-> _].
  by rewrite lookup_empty in Hm.
Qed.

Lemma shard_home p q f t : table_ok t -> shard p t !! q = Some f -> ShardIndex q = ShardIndex p.
Proof.
  intros K Hq. pose proof (tok_home _ K _ _ _ _ (shard_lookup p t K) Hq).
  pose proof (ShardIndex_range p). lia.
Qed.

Lemma new_PageTable_represents : represents new_PageTable ∅.
Proof.
  split; [apply new_PageTable_ok|]. intros p. unfold Find, shard, new_PageTable.
  pose proof (ShardIndex_range p). rewrite lookup_total_replicate_2; [by rewrite !lookup_empty|].
  unfold kNumShards in *. lia.
Qed.

Lemma Insert_represents p f t m :
  represents t m ->
  match Insert p f t with
  | None => is_Some (m !! p)
  | Some t' => m !! p = None /\ represents t' (<[p := f]> m)
  end.
Proof.
  intros [K R]. unfold Insert. pose proof (R p) as Rp. unfold Find in Rp.
  destruct (shard p t !! p) as [x|] eqn:E; [rewrite <- Rp; eauto|]. split; [done|]. split.
  - apply table_ok_update; [done|]. intros q g. destruct (decide (q = p)) as [->|Hne]; [done|].
    rewrite lookup_insert_ne by done. by apply shard_home.
  - intros q. rewrite Find_insert_shard by done. case_decide as Es.
    + destruct (decide (p = q)) as [->|Hne]; [by rewrite !lookup_insert_eq|].
      rewrite !lookup_insert_ne by done. rewrite <- R. unfold Find, shard. by rewrite Es.
    + rewrite R, lookup_insert_ne; [done|]. by intros ->.
Qed.

Lemma Erase_represents p t m : represents t m -> represents (Erase p t) (delete p m).
Proof.
  intros [K R]. unfold Erase. split.
  - apply table_ok_update; [done|]. intros q g Hq. apply lookup_delete_Some in Hq as [_ Hq].
    by eapply shard_home.
  - intros q. rewrite Find_insert_shard by done. case_decide as Es.
    + destruct (decide (p = q)) as [->|Hne]; [by rewrite !lookup_delete_eq|].
      rewrite !lookup_delete_ne by done. rewrite <- R. unfold Find, shard. by rewrite Es.
    + rewrite R, lookup_delete_ne; [done|]. by intros ->.
Qed.

(** ** Claims *)

(** The sixteen-shard page table behaves as one map from page ids to frames, negative ids
    included: [Find] reads it, [Insert] adds a binding and aborts exactly when the page is
    already mapped (never remapping it), [Erase] removes one binding. *)
Lemma page_table_refines_map p f t m :
  represents t m ->
  Find p t = m !! p /\
  (Insert p f t = None <-> is_Some (m !! p)) /\
  (forall t', Insert p f t = Some t' -> represents t' (<[p := f]> m)) /\
  represents (Erase p t) (delete p m).
Proof.
  intros Rep. pose proof (Insert_represents p f t m Rep) as I. pose proof Rep as [_ R].
  split; [apply R|]. split; [|split].
  - destruct (Insert p f t); [|done]. destruct I as [E _]. split; [done|].
    rewrite E. by intros [? ?].
  - intros t' E. rewrite E in I. apply I.
  - by apply Erase_represents.
Qed.

(** The free list is a stack: [TryPop] undoes [Push], fails exactly on an empty list, and
    a list built for a capacity holds every frame once. *)
Lemma free_list_lifo f l capacity :
  TryPop (Push f l) = (Some f, l) /\ (fst (TryPop l) = None <-> l = []) /\
  NoDup (new_FreeList capacity) /\ (forall g, g ∈ new_FreeList capacity <-> 0 <= g < capacity).
Proof.
  split; [apply TryPop_Push|]. split; [apply TryPop_None|]. split; [apply NoDup_seqZ|].
  intros g. unfold new_FreeList. rewrite elem_of_seqZ. lia.
Qed.
