(* ===== verification/BufferPool.v ===== *)
(** * Buffer pool: src/src/buffer/frame.hpp, page_guard.hpp, page_guard.cpp,
    buffer_pool_manager.hpp, buffer_pool_manager.cpp

    The pool as one thread runs it: every operation is a function of the whole pool state
    (frames, free list, page table, replacer, disk manager), calls composed as in the source.
    A call that would not return in such an execution (waiting for a latch the thread itself
    holds, [std::abort] on a duplicate mapping, or a failing [assert] in a build that has them)
    is [None]; the theorems show where that cannot happen.  [FrameAt] is a total lookup, without
    the source's bounds assertion: [pool_ok] keeps every frame id in range.  Metadata mutexes and shard locks are critical sections of one thread and
    leave no trace. *)

From stdpp Require Import gmap.
From S2P Require Import Prelude Common DiskManager Replacer PoolIndex.

(** ** Frames (frame.hpp) *)

Inductive FrameState := Free | Loading | Resident | Failed.

#[export] Instance FrameState_eq_dec : EqDecision FrameState.
Proof. solve_decision. Defined.

(** [latch_]: how many shared holders, and whether there is an exclusive one. *)
Record Frame := mkFrame {
  data : list byte;
  readers : Z;
  writer : bool;
  dirty_epoch : Z;
  flushed_epoch : Z;
  state : FrameState;
  page_id : Z;
  pin_count : Z
}.

Definition FrameStateName (s : FrameState) : string :=
  match s with Free => "Free" | Loading => "Loading" | Resident => "Resident" | Failed => "Failed" end.

Definition set_data (b : list byte) (f : Frame) : Frame :=
  mkFrame b (readers f) (writer f) (dirty_epoch f) (flushed_epoch f) (state f) (page_id f) (pin_count f).
Definition set_latch (n : Z) (w : bool) (f : Frame) : Frame :=
  mkFrame (data f) n w (dirty_epoch f) (flushed_epoch f) (state f) (page_id f) (pin_count f).
Definition set_epochs (d e : Z) (f : Frame) : Frame :=
  mkFrame (data f) (readers f) (writer f) d e (state f) (page_id f) (pin_count f).
Definition set_meta (s : FrameState) (p n : Z) (f : Frame) : Frame :=
  mkFrame (data f) (readers f) (writer f) (dirty_epoch f) (flushed_epoch f) s p n.
Definition set_pin (n : Z) (f : Frame) : Frame := set_meta (state f) (page_id f) n f.

Definition MarkDirty (f : Frame) : Frame := set_epochs (u64 (dirty_epoch f + 1)) (flushed_epoch f) f.
Definition IsDirty (f : Frame) : bool := flushed_epoch f <? dirty_epoch f.
Definition SampleDirtyEpoch (f : Frame) : Z := dirty_epoch f.
(** The compare-exchange loop raises the epoch to [observed], or leaves a higher one. *)
Definition MarkFlushed (observed : Z) (f : Frame) : Frame :=
  if flushed_epoch f <? observed then set_epochs (dirty_epoch f) observed f else f.
Definition ResetEpochs (f : Frame) : Frame := set_epochs 0 0 f.

(** [AcquireRead]/[AcquireWrite]; [None] is waiting for a holder that is this thread. *)
Definition AcquireRead (f : Frame) : option Frame :=
  if writer f then None else Some (set_latch (readers f + 1) false f).
Definition AcquireWrite (f : Frame) : option Frame :=
  if writer f || (0 <? readers f) then None else Some (set_latch (readers f) true f).
Definition ReleaseRead (f : Frame) : Frame := set_latch (readers f - 1) (writer f) f.
Definition ReleaseWrite (f : Frame) : Frame := set_latch (readers f) false f.

(** ** The pool *)

Record Pool := mkPool {
  frames : list Frame;
  free_list : FreeList;
  page_table : PageTable;
  replacer : Replacer;
  disk : Disk;
  shutdown : bool
}.

#[export] Instance Frame_inhabited : Inhabited Frame :=
  populate (mkFrame (zeros PAGE_SIZE) 0 false 0 0 Free INVALID_PAGE 0).

Definition capacity (P : Pool) : Z := len (frames P).
Definition FrameAt (frame_id : Z) (P : Pool) : Frame := frames P !!! Z.to_nat frame_id.
Definition set_frame (frame_id : Z) (f : Frame) (P : Pool) : Pool :=
  mkPool (<[Z.to_nat frame_id := f]> (frames P)) (free_list P) (page_table P) (replacer P) (disk P) (shutdown P).
Definition set_free_list (l : FreeList) (P : Pool) : Pool :=
  mkPool (frames P) l (page_table P) (replacer P) (disk P) (shutdown P).
Definition set_page_table (t : PageTable) (P : Pool) : Pool :=
  mkPool (frames P) (free_list P) t (replacer P) (disk P) (shutdown P).
Definition set_replacer (r : Replacer) (P : Pool) : Pool :=
  mkPool (frames P) (free_list P) (page_table P) r (disk P) (shutdown P).
Definition set_disk (d : Disk) (P : Pool) : Pool :=
  mkPool (frames P) (free_list P) (page_table P) (replacer P) d (shutdown P).
Definition set_shutdown (b : bool) (P : Pool) : Pool :=
  mkPool (frames P) (free_list P) (page_table P) (replacer P) (disk P) b.

(** The constructor. *)
Definition new_Pool (d : Disk) (n : Z) : Pool :=
  mkPool (replicate (Z.to_nat n) inhabitant) (new_FreeList n) new_PageTable (new_Replacer n) d false.

(** Sequencing calls that may not return. *)
Definition M (A : Type) : Type := Pool -> option (A * Pool).
Definition ret {A} (a : A) : M A := fun P => Some (a, P).
Definition bind {A B} (m : M A) (k : A -> M B) : M B :=
  fun P => match m P with None => None | Some (a, P) => k a P end.
Declare Scope pool_scope.
Delimit Scope pool_scope with pool.
Notation "'let*' x := m 'in' k" := (bind m (fun x => k))
  (at level 10, x pattern, m at level 200, k at level 200) : pool_scope.
Notation "m ';;' k" := (bind m (fun _ => k)) (at level 100, k at level 200, right associativity) : pool_scope.
Open Scope pool_scope.

Definition get : M Pool := fun P => Some (P, P).
Definition modify (g : Pool -> Pool) : M unit := fun P => Some (tt, g P).
Definition stuck {A} : M A := fun _ => None.
(** [FrameAt(id)] read, and updated in place. *)
Definition frame (id : Z) : M Frame := fun P => Some (FrameAt id P, P).
Definition update (id : Z) (g : Frame -> Frame) : M unit :=
  fun P => Some (tt, set_frame id (g (FrameAt id P)) P).
Definition try_update (id : Z) (g : Frame -> option Frame) : M unit :=
  fun P => match g (FrameAt id P) with None => None | Some f => Some (tt, set_frame id f P) end.

Section pool.
Context {errno_text : ErrnoText} {host : Host}.

(** [assert]: compiled out under NDEBUG; otherwise a failing one does not return. *)
Definition assert_ (b : bool) : M unit := fun P => if ndebug || b then Some (tt, P) else None.

Definition on_disk {A} (op : Disk -> A * Disk) : M A :=
  fun P => let '(a, d) := op (disk P) in Some (a, set_disk d P).

Definition FlushFrame (frame_id page_id : Z) : M Status :=
  let* f := frame frame_id in
  if negb (IsDirty f) then ret StatusOK
  else
    try_update frame_id AcquireRead ;;
    let* f := frame frame_id in
    let D := SampleDirtyEpoch f in
    let* st := on_disk (WritePage page_id (data f)) in
    update frame_id ReleaseRead ;;
    if negb (ok st) then ret st
    else
      update frame_id (MarkFlushed D) ;;
      ret st.

Definition UnpinPage (frame_id : Z) : M unit :=
  let* f := frame frame_id in
  assert_ (0 <? pin_count f) ;;
  let evictable := (pin_count f =? 1) && bool_decide (state f = Resident) in
  update frame_id (set_pin (pin_count f - 1)) ;;
  if evictable then modify (fun P => set_replacer (SetEvictable frame_id true (replacer P)) P)
  else ret tt.

Definition FlushPage (page_id : Z) : M Status :=
  let* P := get in
  match Find page_id (page_table P) with
  | None => ret StatusOK
  | Some frame_id =>
      let* f := frame frame_id in
      if bool_decide (state f <> Resident) then ret StatusOK
      else
        update frame_id (set_pin (pin_count f + 1)) ;;
        let* st := FlushFrame frame_id page_id in
        UnpinPage frame_id ;;
        ret st
  end.

(** The loop of [FlushAllPages]: [n] frames from [frame_id], the first error kept. *)
Fixpoint FlushAllPages_loop (n : nat) (frame_id : Z) (st : Status) : M Status :=
  match n with
  | O => ret st
  | S n =>
      let* f := frame frame_id in
      if bool_decide (state f <> Resident) then FlushAllPages_loop n (frame_id + 1) st
      else
        let page_id := page_id f in
        update frame_id (set_pin (pin_count f + 1)) ;;
        let* s := FlushFrame frame_id page_id in
        UnpinPage frame_id ;;
        FlushAllPages_loop n (frame_id + 1) (if ok st && negb (ok s) then s else st)
  end.

Definition FlushAllPages : M Status :=
  let* P := get in FlushAllPages_loop (length (frames P)) 0 StatusOK.

(** No frame pinned, none being loaded: what [Shutdown] asserts. *)
Definition Quiesced (P : Pool) : bool :=
  forallb (fun f => (pin_count f =? 0) && negb (bool_decide (state f = Loading))) (frames P).

Definition Shutdown (fsync_ok : bool) : M Status :=
  let* P := get in
  if shutdown P then ret StatusOK
  else
    modify (set_shutdown true) ;;
    assert_ (Quiesced P) ;;
    let* st := FlushAllPages in
    let* sync := on_disk (Sync fsync_ok) in
    ret (if ok st then sync else st).

(** The destructor; an abort is a call that does not return. *)
Definition Destroy (fsync_ok : bool) : M unit :=
  let* P := get in
  if shutdown P then ret tt
  else
    let* st := Shutdown fsync_ok in
    if negb (ok st) then stuck else ret tt.

Record PoolStats := mkPoolStats {
  st_capacity : Z; free_frames : Z; loading_frames : Z; resident_frames : Z; failed_frames : Z;
  pinned_frames : Z; free_list_size : Z; st_evictable : Z
}.

Definition count_frames (p : Frame -> bool) (fs : list Frame) : Z := len (filter (fun f => p f = true) fs).

Definition GetStats (P : Pool) : PoolStats :=
  {| st_capacity := capacity P;
     free_frames := count_frames (fun f => bool_decide (state f = Free)) (frames P);
     loading_frames := count_frames (fun f => bool_decide (state f = Loading)) (frames P);
     resident_frames := count_frames (fun f => bool_decide (state f = Resident)) (frames P);
     failed_frames := count_frames (fun f => bool_decide (state f = Failed)) (frames P);
     pinned_frames := count_frames (fun f => 0 <? pin_count f) (frames P);
     free_list_size := FreeList_Size (free_list P);
     st_evictable := EvictableCount (replacer P) |}.

(** ** Reclaiming a frame *)

(** Unmap a clean, unpinned frame and make it free stock. *)
Definition vacate (frame_id page_id pins : Z) : M unit :=
  let* P := get in
  assert_ (bool_decide (Find page_id (page_table P) = Some frame_id)) ;;
  modify (fun P => set_page_table (Erase page_id (page_table P)) P) ;;
  update frame_id (fun f => ResetEpochs (set_meta Free INVALID_PAGE pins f)).

(** The loop of [ReclaimFrame]; each turn takes one candidate out of the replacer, so
    [fuel] turns are enough when there are at most that many frames. *)
Fixpoint ReclaimFrame_loop (fuel : nat) : M (Result Z) :=
  match fuel with
  | O => stuck
  | S fuel =>
      let* P := get in
      let '(victim, r) := Evict (fun _ => []) (replacer P) in
      modify (set_replacer r) ;;
      match victim with
      | None => ret (Error (BufferPoolFull "buffer full"))
      | Some victim =>
          let* f := frame victim in
          if bool_decide (state f <> Resident) || negb (pin_count f =? 0) then ReclaimFrame_loop fuel
          else
            let peeked := page_id f in
            if bool_decide (state f <> Resident) || negb (pin_count f =? 0) || negb (page_id f =? peeked)
            then ReclaimFrame_loop fuel
            else if negb (IsDirty f) then
              vacate victim peeked (pin_count f) ;;
              ret (Ok victim)
            else
              update victim (set_pin (pin_count f + 1)) ;;
              let* st := FlushFrame victim peeked in
              if negb (ok st) then
                UnpinPage victim ;;
                ret (Error st)
              else
                let* f := frame victim in
                if bool_decide (state f = Resident) && (page_id f =? peeked) && (pin_count f =? 1)
                   && negb (IsDirty f)
                then
                  vacate victim peeked 0 ;;
                  ret (Ok victim)
                else
                  UnpinPage victim ;;
                  ReclaimFrame_loop fuel
      end
  end.

Definition ReclaimFrame : M (Result Z) :=
  let* P := get in ReclaimFrame_loop (S (length (frames P))).

Definition AcquireFrame : M (Result Z) :=
  let* P := get in
  let '(popped, l) := TryPop (free_list P) in
  modify (set_free_list l) ;;
  match popped with
  | Some frame_id => ret (Ok frame_id)
  | None => ReclaimFrame
  end.

(** The failed-load path.  The wait for the other pins to drain returns at once when the
    loader's own pin is the only one. *)
Definition AbandonLoad (frame_id page_id : Z) : M unit :=
  modify (fun P => set_page_table (Erase page_id (page_table P)) P) ;;
  update frame_id (fun f => set_meta Failed (BufferPool.page_id f) (pin_count f) f) ;;
  let* f := frame frame_id in
  assert_ (1 <=? BufferPool.page_id f) ;;
  if negb (pin_count f =? 1) then stuck
  else
    update frame_id (fun f => ResetEpochs (set_meta Free INVALID_PAGE 0 f)) ;;
    modify (fun P => set_free_list (Push frame_id (free_list P)) P).

(** ** Fetching *)

(** Publish the mapping; [None] from the table is the abort on a duplicate. *)
Definition map_page (page_id frame_id : Z) : M unit :=
  fun P => match Insert page_id frame_id (page_table P) with
           | None => None
           | Some t => Some (tt, set_page_table t P)
           end.

(** One lookup found the page: pin it, then look at its state.  A frame in Loading would put
    the thread to sleep on its own load; one in Free is what the assert excludes. *)
Definition FetchFrame_hit (frame_id : Z) : M (Result Z) :=
  let* f := frame frame_id in
  let from_zero := pin_count f =? 0 in
  update frame_id (set_pin (pin_count f + 1)) ;;
  match state f with
  | Loading => stuck
  | Failed =>
      UnpinPage frame_id ;;
      ret (Error (IOError ("unable to fetch frame " +:+ pretty frame_id)))
  | Free | Resident =>
      assert_ (bool_decide (state f = Resident)) ;;
      modify (fun P => set_replacer (RecordAccess frame_id (replacer P)) P) ;;
      (if from_zero then modify (fun P => set_replacer (SetEvictable frame_id false (replacer P)) P)
       else ret tt) ;;
      ret (Ok frame_id)
  end.

(** The miss path once a frame is in hand and the page is still not mapped. *)
Definition FetchFrame_load (frame_id page_id : Z) : M (Result Z) :=
  map_page page_id frame_id ;;
  update frame_id (fun f => ResetEpochs (set_meta Loading page_id 1 f)) ;;
  let* f := frame frame_id in
  let* (st, bytes) := on_disk (fun d => let '(s, out, d) := ReadPage page_id (data f) d in ((s, out), d)) in
  update frame_id (set_data bytes) ;;
  if negb (ok st) then
    AbandonLoad frame_id page_id ;;
    ret (Error st)
  else
    let header := PageHeader_ReadFrom (slice 0 PAGE_HEADER_SIZE bytes) in
    if bool_decide (ph_page_type header = FREE) || negb (ph_page_id header =? page_id) then
      let bad :=
        if bool_decide (ph_page_type header = FREE)
        then InvalidArgument ("page " +:+ pretty page_id +:+ " is not allocated")
        else Corruption ("page " +:+ pretty page_id +:+ " header claims to be page " +:+
                         pretty (ph_page_id header)) in
      AbandonLoad frame_id page_id ;;
      ret (Error bad)
    else
      update frame_id (fun f => set_meta Resident (BufferPool.page_id f) (pin_count f) f) ;;
      modify (fun P => set_replacer (RecordAccess frame_id (replacer P)) P) ;;
      ret (Ok frame_id).

(** The retry loop of [FetchFrame]: another turn only when the page was mapped while a frame
    was being acquired. *)
Fixpoint FetchFrame_loop (fuel : nat) (page_id : Z) : M (Result Z) :=
  match fuel with
  | O => stuck
  | S fuel =>
      let* P := get in
      match Find page_id (page_table P) with
      | Some frame_id => FetchFrame_hit frame_id
      | None =>
          let* found_frame := AcquireFrame in
          match found_frame with
          | Error s => ret (Error s)
          | Ok frame_id =>
              let* P := get in
              match Find page_id (page_table P) with
              | Some _ =>
                  modify (fun P => set_free_list (Push frame_id (free_list P)) P) ;;
                  FetchFrame_loop fuel page_id
              | None => FetchFrame_load frame_id page_id
              end
          end
      end
  end.

Definition FetchFrame (page_id : Z) : M (Result Z) :=
  if (page_id =? META_PAGE_ID) || (page_id =? INVALID_PAGE) then
    ret (Error (InvalidArgument "invalid page_id"))
  else FetchFrame_loop 2 page_id.

(** ** Guards (page_guard.hpp, page_guard.cpp) *)

(** A guard names its frame and page; a dropped one is inert. *)
Record PageGuard := mkGuard { g_write : bool; g_frame : Z; g_page : Z; g_live : bool }.

Definition FetchPageRead (page_id : Z) : M (Result PageGuard) :=
  let* frame_found := FetchFrame page_id in
  match frame_found with
  | Error s => ret (Error s)
  | Ok frame_id =>
      try_update frame_id AcquireRead ;;
      ret (Ok (mkGuard false frame_id page_id true))
  end.

Definition FetchPageWrite (page_id : Z) : M (Result PageGuard) :=
  let* frame_found := FetchFrame page_id in
  match frame_found with
  | Error s => ret (Error s)
  | Ok frame_id =>
      try_update frame_id AcquireWrite ;;
      ret (Ok (mkGuard true frame_id page_id true))
  end.

(** [Drop] of either guard: dirty bump first for a writer, then the latch, then the pin. *)
Definition Drop (g : PageGuard) : M PageGuard :=
  if negb (g_live g) then ret g
  else
    (if g_write g then
       update (g_frame g) MarkDirty ;;
       update (g_frame g) ReleaseWrite
     else update (g_frame g) ReleaseRead) ;;
    UnpinPage (g_frame g) ;;
    ret (mkGuard (g_write g) (g_frame g) (g_page g) false).

(** The move constructor: the new guard, and the one moved from, which is left inert. *)
Definition GuardMove (other : PageGuard) : PageGuard * PageGuard :=
  (other, mkGuard (g_write other) (g_frame other) (g_page other) false).

(** Move assignment: what the target held is dropped first; [self] is [this == &other]. *)
Definition GuardMoveAssign (self : bool) (this other : PageGuard) : M (PageGuard * PageGuard) :=
  if self then ret (this, other)
  else
    Drop this ;;
    ret (GuardMove other).

(** [Header()] and [Body()] of a guard. *)
Definition GuardHeader (g : PageGuard) (P : Pool) : PageHeader :=
  PageHeader_ReadFrom (slice 0 PAGE_HEADER_SIZE (data (FrameAt (g_frame g) P))).
Definition GuardBody (g : PageGuard) (P : Pool) : list byte :=
  slice PAGE_HEADER_SIZE PAGE_BODY_SIZE (data (FrameAt (g_frame g) P)).

Definition GuardWriteHeader (g : PageGuard) (h : PageHeader) : M unit :=
  update (g_frame g) (fun f => set_data (patch 0 (PageHeader_WriteTo h) (data f)) f).
(** A write of the whole body through [MutableBody()]. *)
Definition GuardSetBody (g : PageGuard) (body : list byte) : M unit :=
  update (g_frame g) (fun f => set_data (patch PAGE_HEADER_SIZE body (data f)) f).

Definition with_type (t : PageType) (h : PageHeader) : PageHeader :=
  mkPageHeader t (ph_flags h) (ph_format_version h) (ph_page_id h) (ph_next_page_id h)
    (ph_prev_page_id h) (ph_page_lsn h) (ph_checksum h) (ph_reserved h).
Definition with_flags (v : Z) (h : PageHeader) : PageHeader :=
  mkPageHeader (ph_page_type h) v (ph_format_version h) (ph_page_id h) (ph_next_page_id h)
    (ph_prev_page_id h) (ph_page_lsn h) (ph_checksum h) (ph_reserved h).
Definition with_next (p : Z) (h : PageHeader) : PageHeader :=
  mkPageHeader (ph_page_type h) (ph_flags h) (ph_format_version h) (ph_page_id h) p
    (ph_prev_page_id h) (ph_page_lsn h) (ph_checksum h) (ph_reserved h).
Definition with_prev (p : Z) (h : PageHeader) : PageHeader :=
  mkPageHeader (ph_page_type h) (ph_flags h) (ph_format_version h) (ph_page_id h)
    (ph_next_page_id h) p (ph_page_lsn h) (ph_checksum h) (ph_reserved h).

Definition SetPageType (g : PageGuard) (t : PageType) : M unit :=
  let* P := get in GuardWriteHeader g (with_type t (GuardHeader g P)).
Definition SetFlags (g : PageGuard) (v : Z) : M unit :=
  let* P := get in GuardWriteHeader g (with_flags v (GuardHeader g P)).
Definition SetNextPageId (g : PageGuard) (next : Z) : M unit :=
  let* P := get in GuardWriteHeader g (with_next next (GuardHeader g P)).
Definition SetPrevPageId (g : PageGuard) (prev : Z) : M unit :=
  let* P := get in GuardWriteHeader g (with_prev prev (GuardHeader g P)).

(** ** Creating and deleting pages *)

(** What [NewPage] puts in the frame: zeros under a header with the page's identity. *)
Definition fresh_page (page_id : Z) : list byte :=
  let header := mkPageHeader ALLOCATED (ph_flags PageHeader_default) (ph_format_version PageHeader_default)
    page_id (ph_next_page_id PageHeader_default) (ph_prev_page_id PageHeader_default)
    (ph_page_lsn PageHeader_default) (ph_checksum PageHeader_default) (ph_reserved PageHeader_default) in
  patch 0 (PageHeader_WriteTo header) (zeros PAGE_SIZE).

Definition NewPage : M (Result PageGuard) :=
  let* frame_found := AcquireFrame in
  match frame_found with
  | Error s => ret (Error s)
  | Ok frame_id =>
      let* page_allocated := on_disk AllocatePage in
      match page_allocated with
      | Error s =>
          modify (fun P => set_free_list (Push frame_id (free_list P)) P) ;;
          ret (Error s)
      | Ok page_id =>
          update frame_id (set_meta Resident page_id 1) ;;
          update frame_id (set_data (fresh_page page_id)) ;;
          update frame_id ResetEpochs ;;
          map_page page_id frame_id ;;
          modify (fun P => set_replacer (RecordAccess frame_id (replacer P)) P) ;;
          try_update frame_id AcquireWrite ;;
          ret (Ok (mkGuard true frame_id page_id true))
      end
  end.

Definition DeletePage (page_id : Z) : M Status :=
  if (page_id =? META_PAGE_ID) || (page_id =? CATALOG_ROOT_PAGE_ID) then
    ret (InvalidArgument ("page " +:+ pretty page_id +:+ " is reserved and cannot be deleted"))
  else
    let* P := get in
    match Find page_id (page_table P) with
    | Some frame_id =>
        let* f := frame frame_id in
        if negb (pin_count f =? 0) then
          ret (InvalidArgument ("page " +:+ pretty page_id +:+ " is pinned (" +:+ pretty (pin_count f) +:+
                 " holders) and cannot be deleted"))
        else
          assert_ (bool_decide (state f = Resident)) ;;
          update frame_id (fun f => ResetEpochs (set_meta Free INVALID_PAGE (pin_count f) f)) ;;
          modify (fun P => set_page_table (Erase page_id (page_table P)) P) ;;
          modify (fun P => set_replacer (SetEvictable frame_id false (replacer P)) P) ;;
          let* st := on_disk (DeallocatePage page_id) in
          modify (fun P => set_free_list (Push frame_id (free_list P)) P) ;;
          ret st
    | None =>
        let* st := on_disk (DeallocatePage page_id) in
        ret st
    end.
End pool.
