(* ===== verification/BufferPoolProofs.v ===== *)
(** * Buffer pool: invariant and preservation

    [pool_ok x l P]: every frame is free stock (on the free list, or the private frame [x]
    some operation holds) or holds one page that the table maps to it; candidates are exactly
    the unpinned resident frames; a clean frame nobody is writing agrees with the disk; the
    disk manager's invariant holds with freelist [l], and no mapped page is on it.
    [content p P] is the page as a client sees it: the frame's bytes, else the disk's. *)

From stdpp Require Import gmap.
From S2P Require Import Prelude Common DiskManager DiskProofs DiskTheorems Replacer ReplacerTheorems.
From S2P Require Import PoolIndex BufferPool.

#[global] Opaque hdr page_bytes file_write PageHeader_WriteTo PageHeader_ReadFrom full_write full_read.

Definition frame_ok (x : option Z) (free : FreeList) (t : PageTable) (r : Replacer) (d : list byte)
    (f : Z) (fr : Frame) : Prop :=
  len (data fr) = PAGE_SIZE /\ 0 <= flushed_epoch fr <= dirty_epoch fr /\ 0 <= readers fr /\
  match state fr with
  | Free =>
      pin_count fr = 0 /\ readers fr = 0 /\ writer fr = false /\ evictable_at f r = false /\
      (f ∈ free <-> x <> Some f)
  | Resident =>
      2 <= page_id fr /\ Find (page_id fr) t = Some f /\ (f ∉ free) /\ x <> Some f /\
      readers fr + (if writer fr then 1 else 0) <= pin_count fr /\
      (evictable_at f r = true <-> pin_count fr = 0) /\
      (IsDirty fr = false -> writer fr = false -> data fr = page_bytes (page_id fr) d)
  | Loading | Failed => False
  end.

Record pool_ok (x : option Z) (l : list Z) (P : Pool) : Prop := {
  pk_cap : 0 < capacity P < 2 ^ 31;
  pk_rep : replacer_ok (replacer P);
  pk_rep_len : length (usage_count (replacer P)) = length (frames P);
  pk_table : table_ok (page_table P);
  pk_nodup : NoDup (free_list P);
  pk_free : forall f, f ∈ free_list P -> 0 <= f < capacity P /\ state (FrameAt f P) = Free;
  pk_private : forall f, x = Some f -> 0 <= f < capacity P /\ state (FrameAt f P) = Free;
  pk_frames : forall f, 0 <= f < capacity P ->
    frame_ok x (free_list P) (page_table P) (replacer P) (file (disk P)) f (FrameAt f P);
  pk_mapped : forall p f, Find p (page_table P) = Some f ->
    0 <= f < capacity P /\ state (FrameAt f P) = Resident /\ page_id (FrameAt f P) = p /\
    (p ∉ l) /\ p < page_count (disk P);
  pk_disk : disk_ok (disk P) l
}.

Definition content (p : Z) (P : Pool) : list byte :=
  match Find p (page_table P) with
  | Some f => data (FrameAt f P)
  | None => page_bytes p (file (disk P))
  end.

(** The pins and the latch of a page; an unmapped one has neither. *)
Definition pins (p : Z) (P : Pool) : Z :=
  match Find p (page_table P) with Some f => pin_count (FrameAt f P) | None => 0 end.
Definition latch (p : Z) (P : Pool) : Z * bool :=
  match Find p (page_table P) with Some f => (readers (FrameAt f P), writer (FrameAt f P)) | None => (0, false) end.

(** What every operation must leave alone: contents, pins and latches of all pages except
    those in [E], the frame of each pinned page, and that a page not resident is not. *)
Record preserves (E : Z -> Prop) (P P' : Pool) : Prop := {
  pv_cap : length (frames P') = length (frames P);
  pv_content : forall p, 2 <= p -> ~ E p -> content p P' = content p P;
  pv_pins : forall p, ~ E p -> pins p P' = pins p P;
  pv_latch : forall p, ~ E p -> latch p P' = latch p P;
  pv_frame : forall p f, ~ E p -> Find p (page_table P) = Some f -> 0 < pins p P -> Find p (page_table P') = Some f;
  pv_unmapped : forall p, ~ E p -> Find p (page_table P) = None -> Find p (page_table P') = None
}.

Definition nothing : Z -> Prop := fun _ => False.

#[export] Instance preserves_preorder E : PreOrder (preserves E).
Proof.
  split.
  - intros P. by split.
  - intros P Q R [A1 A2 A3 A4 A5 A6] [B1 B2 B3 B4 B5 B6]. split.
    + congruence.
    + intros p Hp He. by rewrite B2, A2.
    + intros p He. by rewrite B3, A3.
    + intros p He. by rewrite B4, A4.
    + intros p f He Hf Hp. apply B5; [done|by apply A5|by rewrite A3].
    + auto.
Qed.

Lemma preserves_weaken (E E' : Z -> Prop) P P' : (forall p, E p -> E' p) -> preserves E P P' -> preserves E' P P'.
Proof. intros H [A B C D F G]. split; [done|..]; intros p; [intros Hp|..|intros f|]; intros Np; auto. Qed.

(** ** Frame access *)

Lemma FrameAt_set f g fr P :
  0 <= f < capacity P -> 0 <= g ->
  FrameAt g (set_frame f fr P) = if decide (g = f) then fr else FrameAt g P.
Proof.
  intros Hf Hg. unfold FrameAt, capacity in *; simpl. case_decide as E.
  - subst. apply list_lookup_total_insert_eq. lia.
  - apply list_lookup_total_insert_ne. lia.
Qed.

Lemma FrameAt_same f fr P : 0 <= f < capacity P -> FrameAt f (set_frame f fr P) = fr.
Proof. intros H. rewrite FrameAt_set by lia. by rewrite decide_True. Qed.

Lemma FrameAt_other f g fr P :
  0 <= f < capacity P -> 0 <= g -> g <> f -> FrameAt g (set_frame f fr P) = FrameAt g P.
Proof. intros. rewrite FrameAt_set by lia. by rewrite decide_False. Qed.

Lemma capacity_set f fr P : capacity (set_frame f fr P) = capacity P.
Proof. unfold capacity; simpl. by rewrite length_insert. Qed.

Lemma set_frame_id f P : 0 <= f < capacity P -> set_frame f (FrameAt f P) P = P.
Proof.
  intros H. unfold set_frame, FrameAt, capacity in *. rewrite list_insert_id; [by destruct P|].
  apply list_lookup_lookup_total_lt. lia.
Qed.

Lemma set_frame_twice f a b P : set_frame f a (set_frame f b P) = set_frame f a P.
Proof. unfold set_frame; simpl. by rewrite list_insert_insert_eq. Qed.

Lemma set_epochs_id f : set_epochs (dirty_epoch f) (flushed_epoch f) f = f.
Proof. by destruct f. Qed.

Lemma set_disk_id P : set_disk (disk P) P = P.
Proof. by destruct P. Qed.

(** The frame a page is mapped to, with everything known about it. *)
Lemma mapped_frame x l P p f :
  pool_ok x l P -> Find p (page_table P) = Some f ->
  0 <= f < capacity P /\ state (FrameAt f P) = Resident /\ page_id (FrameAt f P) = p /\
  2 <= p < page_count (disk P) /\ (p ∉ l) /\
  frame_ok x (free_list P) (page_table P) (replacer P) (file (disk P)) f (FrameAt f P).
Proof.
  intros K F. destruct (pk_mapped _ _ _ K p f F) as (A & B & C & D & E).
  pose proof (pk_frames _ _ _ K f A) as Fr.
  assert (2 <= p).
  { destruct Fr as (_ & _ & _ & Fr). rewrite B in Fr. destruct Fr as (Fr & _). lia. }
  split_and!; done || lia.
Qed.

(** Frames other than [f] only depend on their own entries of the shared structures. *)
Lemma frame_ok_ext x free t r d x' free' t' r' d' f fr :
  frame_ok x free t r d f fr ->
  (f ∈ free' <-> f ∈ free) -> (x' = Some f <-> x = Some f) ->
  evictable_at f r' = evictable_at f r ->
  (state fr = Resident -> 2 <= page_id fr -> Find (page_id fr) t = Some f ->
     Find (page_id fr) t' = Some f /\ page_bytes (page_id fr) d' = page_bytes (page_id fr) d) ->
  frame_ok x' free' t' r' d' f fr.
Proof.
  intros (A & B & C & D) Hf Hx Hr Ht. split; [done|]. split; [done|]. split; [done|].
  destruct (state fr); try done.
  - destruct D as (D1 & D2 & D3 & D4 & D5). split_and!; try done; [congruence|]. rewrite Hf, D5. tauto.
  - destruct D as (D1 & D2 & D3 & D4 & D5 & D6 & D7). destruct (Ht eq_refl D1 D2) as [T1 T2].
    split_and!; try done; [by rewrite Hf|by rewrite Hx|by rewrite Hr|by rewrite T2].
Qed.

(** ** Disk writes of a mapped page *)

Section pool.
Context {errno_text : ErrnoText} {host : Host}.

Lemma WritePage_spec d l p bs :
  disk_ok d l -> 2 <= p < page_count d -> p ∉ l -> len bs = PAGE_SIZE ->
  let '(s, d') := WritePage p bs d in
  disk_ok d' l /\ page_count d' = page_count d /\
  (forall q, 0 <= q -> q <> p -> page_bytes q (file d') = page_bytes q (file d)) /\
  (s = StatusOK -> page_bytes p (file d') = bs) /\ (s = StatusOK \/ ok s = false) /\
  events d' `suffix_of` events d /\ (fault_free (events d) -> s = StatusOK).
Proof.
  intros [F Hd] Hp Np L. pose proof F as [Hc Hl _ _ _]. unfold WritePage.
  rewrite access_ok by lia. simpl negb; cbn match.
  pose proof (full_write_wrote (PageOffset p) bs d ltac:(dlia)) as W.
  destruct (full_write _ _ d) as [s d']. destruct W as [W1 W2 W3 W4].
  assert (exists bs', len bs' <= PAGE_SIZE /\ file d' = file_write (PageOffset p) bs' (file d)) as (bs' & Lb & E).
  { destruct W4 as [[_ E]|(_ & _ & k & Hk & E & _)]; [exists bs; split; [lia|done]|].
    exists (slice 0 k bs). split; [rewrite length_slice; lia|done]. }
  destruct (file_ok_write_other p bs' _ _ _ F ltac:(lia) Np Lb) as [F' M']. rewrite <- E in F', M'.
  split; [split; [by rewrite W1|by rewrite M', W2]|]. split; [done|]. split.
  { intros q Hq Hne. rewrite E. apply page_bytes_write_ne; done || dlia. }
  split.
  { intros ->. destruct W4 as [[_ ->]|(A & _)]; [|done]. apply page_bytes_write_same; dlia. }
  split; [destruct W4 as [[-> _]|(A & _)]; [by left|right; by apply io_not_ok]|].
  split; [done|]. intros Ff. destruct W4 as [[-> _]|(_ & N & _)]; done.
Qed.

(** What a flush of page [p] does to the disk. *)
Record flushed_disk (p : Z) (d d' : Disk) (l : list Z) : Prop := {
  fd_ok : disk_ok d' l;
  fd_count : page_count d' = page_count d;
  fd_other : forall q, 0 <= q -> q <> p -> page_bytes q (file d') = page_bytes q (file d);
  fd_events : events d' `suffix_of` events d
}.

Lemma flushed_disk_refl p d l : disk_ok d l -> flushed_disk p d d l.
Proof. intros. by split. Qed.

(** [FlushFrame] writes a dirty page and raises its flushed epoch, touching nothing else. *)
Lemma FlushFrame_spec f p P l :
  0 <= f < capacity P -> disk_ok (disk P) l -> 2 <= p < page_count (disk P) -> p ∉ l ->
  let fr := FrameAt f P in
  len (data fr) = PAGE_SIZE -> (IsDirty fr = true -> writer fr = false) -> 0 <= flushed_epoch fr <= dirty_epoch fr ->
  exists st d' e, FlushFrame f p P = Some (st, set_disk d' (set_frame f (set_epochs (dirty_epoch fr) e fr) P)) /\
    flushed_disk p (disk P) d' l /\ flushed_epoch fr <= e <= dirty_epoch fr /\
    (st = StatusOK \/ ok st = false) /\
    (st = StatusOK -> e = dirty_epoch fr) /\
    (IsDirty fr = false -> d' = disk P /\ st = StatusOK) /\
    (IsDirty fr = true -> e = dirty_epoch fr -> page_bytes p (file d') = data fr) /\
    (fault_free (events (disk P)) -> st = StatusOK).
Proof.
  intros Hf Hd Hp Np fr Ld Hw He. unfold FlushFrame, bind, frame. fold fr. cbv beta iota.
  destruct (IsDirty fr) eqn:Dy; cbn [negb]; cbv beta iota.
  2: { exists StatusOK, (disk P), (flushed_epoch fr). rewrite set_epochs_id. unfold fr in *.
       rewrite set_frame_id, set_disk_id by done. split; [done|].
       split; [by apply flushed_disk_refl|]. split; [lia|]. split; [by left|].
       split; [unfold IsDirty in Dy; lia|]. done. }
  specialize (Hw eq_refl). unfold try_update, AcquireRead. fold fr. rewrite Hw. cbv beta iota.
  rewrite FrameAt_same by done. unfold SampleDirtyEpoch, on_disk.
  cbn [data set_latch dirty_epoch disk set_frame].
  pose proof (WritePage_spec (disk P) l p (data fr) Hd Hp Np Ld) as W.
  destruct (WritePage p (data fr) (disk P)) as [st d']. destruct W as (W1 & W2 & W3 & W4 & W5 & W6 & W7).
  assert (FD : flushed_disk p (disk P) d' l) by by split.
  assert (E : forall e, set_epochs (dirty_epoch fr) e (set_latch (readers fr + 1 - 1) false fr) =
              set_epochs (dirty_epoch fr) e fr).
  { intros e. rewrite Z.add_simpl_r. unfold set_epochs, set_latch; simpl. by rewrite Hw. }
  unfold update. change (FrameAt f (set_disk d' ?Q)) with (FrameAt f Q). rewrite FrameAt_same by done.
  unfold ReleaseRead. cbn [readers writer set_latch data dirty_epoch flushed_epoch state page_id pin_count].
  change (set_frame f ?a (set_disk d' ?Q)) with (set_disk d' (set_frame f a Q)).
  rewrite set_frame_twice. unfold IsDirty in Dy.
  destruct W5 as [->|W5]; [|rewrite W5].
  - change (ok StatusOK) with true. cbn [negb]; cbv beta iota.
    change (FrameAt f (set_disk d' ?Q)) with (FrameAt f Q). rewrite FrameAt_same by done. unfold MarkFlushed. cbn [flushed_epoch dirty_epoch set_latch]. rewrite Dy.
    change (set_frame f ?a (set_disk d' ?Q)) with (set_disk d' (set_frame f a Q)). rewrite set_frame_twice.
    exists StatusOK, d', (dirty_epoch fr). split; [unfold ret; by rewrite <- E|].
    split_and!; try done; try lia; [by left|]. intros _ _. by apply W4.
  - cbn [negb]; cbv beta iota. exists st, d', (flushed_epoch fr). split.
    + unfold ret. rewrite <- E. done.
    + split; [done|]. split; [lia|]. split; [by right|]. split; [by intros ->|]. split; [done|].
      split; [lia|done].
Qed.
End pool.

(** ** Changing one resident frame *)

(** A resident frame's data, latch and pins are kept, its epochs may move, and the disk may
    have received its page: flushing, and pinning around it, preserve everything. *)
Lemma pool_ok_flushed x l P f p r' d' e sh :
  pool_ok x l P -> Find p (page_table P) = Some f ->
  replacer_ok r' -> length (usage_count r') = length (usage_count (replacer P)) ->
  evictable r' = evictable (replacer P) ->
  flushed_disk p (disk P) d' l ->
  let fr := FrameAt f P in
  flushed_epoch fr <= e <= dirty_epoch fr ->
  (IsDirty fr = false -> d' = disk P) ->
  (IsDirty fr = true -> e = dirty_epoch fr -> page_bytes p (file d') = data fr) ->
  let P' := mkPool (<[Z.to_nat f := set_epochs (dirty_epoch fr) e fr]> (frames P)) (free_list P)
              (page_table P) r' d' sh in
  pool_ok x l P' /\ preserves nothing P P'.
Proof.
  intros K F Kr Lr Er FD fr He Hcl Hdy P'.
  destruct (mapped_frame _ _ _ _ _ K F) as (Hf & Hs & Hp & Hp2 & Np & Fr). fold fr in Hs, Hp, Fr.
  assert (FA : forall g, 0 <= g -> FrameAt g P' = if decide (g = f) then set_epochs (dirty_epoch fr) e fr else FrameAt g P).
  { intros g Hg. exact (FrameAt_set f g (set_epochs (dirty_epoch fr) e fr) P Hf Hg). }
  assert (Ev : forall g, evictable_at g r' = evictable_at g (replacer P)).
  { intros g. unfold evictable_at. by rewrite Er. }
  assert (Cap : capacity P' = capacity P) by (unfold capacity, P'; simpl; by rewrite length_insert).
  assert (St : forall g, 0 <= g -> state (FrameAt g P') = state (FrameAt g P) /\
                page_id (FrameAt g P') = page_id (FrameAt g P) /\ data (FrameAt g P') = data (FrameAt g P) /\
                readers (FrameAt g P') = readers (FrameAt g P) /\ writer (FrameAt g P') = writer (FrameAt g P) /\
                pin_count (FrameAt g P') = pin_count (FrameAt g P)).
  { intros g Hg. rewrite FA by done. case_decide; [subst; done|done]. }
  pose proof FD as [D1 D2 D3 D4]. split; [split|split].
  - rewrite Cap. apply K.
  - done.
  - unfold P'; simpl. rewrite length_insert, Lr. apply K.
  - apply K.
  - apply K.
  - intros g Hg. destruct (pk_free _ _ _ K g Hg) as [R S]. rewrite Cap.
    destruct (St g ltac:(lia)) as (-> & _). done.
  - intros g Hg. destruct (pk_private _ _ _ K g Hg) as [R S]. rewrite Cap.
    destruct (St g ltac:(lia)) as (-> & _). done.
  - intros g Hg. rewrite Cap in Hg. rewrite FA by lia. case_decide as E.
    + subst g. destruct Fr as (A & B & C & D). split; [done|]. split; [simpl; lia|]. split; [done|].
      simpl. rewrite Hs in *. destruct D as (X1 & X2 & X3 & X4 & X5 & X6 & X7).
      split_and!; try done; [by rewrite Ev|]. intros Dy Wr. unfold IsDirty in *; simpl in *.
      destruct (Z.ltb_spec (flushed_epoch fr) (dirty_epoch fr)).
      * rewrite Hp. symmetry. apply Hdy; [done|lia].
      * rewrite Hcl by done. by apply X7.
    + eapply frame_ok_ext; [by apply K|done|done|apply Ev|]. intros Rg P2 Fg. split; [done|].
      apply D3; [lia|]. intros Eq. congruence.
  - intros q g Fg. simpl in Fg. rewrite Cap. destruct (pk_mapped _ _ _ K q g Fg) as (A & B & C & D & E).
    destruct (St g ltac:(lia)) as (S1 & S2 & _). rewrite S1, S2. split_and!; try done; try lia. simpl. lia.
  - done.
  - unfold P'; simpl. by rewrite length_insert.
  - intros q Hq _. unfold content; simpl. destruct (Find q (page_table P)) as [g|] eqn:Fg.
    + destruct (pk_mapped _ _ _ K q g Fg) as (A & _). by destruct (St g ltac:(lia)) as (_ & _ & -> & _).
    + apply D3; [lia|]. intros ->. congruence.
  - intros q _. unfold pins; simpl. destruct (Find q (page_table P)) as [g|] eqn:Fg; [|done].
    destruct (pk_mapped _ _ _ K q g Fg) as (A & _). by destruct (St g ltac:(lia)) as (_ & _ & _ & _ & _ & ->).
  - intros q _. unfold latch; simpl. destruct (Find q (page_table P)) as [g|] eqn:Fg; [|done].
    destruct (pk_mapped _ _ _ K q g Fg) as (A & _). by destruct (St g ltac:(lia)) as (_ & _ & _ & -> & -> & _).
  - done.
  - done.
Qed.

(** ** Vacating a frame *)

Lemma Find_Erase p q t : table_ok t -> Find q (Erase p t) = if decide (q = p) then None else Find q t.
Proof.
  intros K. unfold Erase. rewrite Find_insert_shard by done. case_decide as Es.
  - case_decide as E; [subst; by rewrite lookup_delete_eq|]. rewrite lookup_delete_ne by done.
    unfold Find, shard. by rewrite Es.
  - case_decide; [by subst|done].
Qed.

Lemma table_ok_Erase p t : table_ok t -> table_ok (Erase p t).
Proof.
  intros K. apply table_ok_update; [done|]. intros q g Hq. apply lookup_delete_Some in Hq as [_ Hq].
  by eapply shard_home.
Qed.

Lemma evictable_at_insert v g b r r' :
  replacer_ok r -> in_range v r -> 0 <= g -> evictable r' = <[Z.to_nat v := b]> (evictable r) ->
  evictable_at g r' = if decide (g = v) then b else evictable_at g r.
Proof.
  intros K [H1 H2] Hg E. unfold evictable_at. rewrite E. case_decide as Eg.
  - subst. apply list_lookup_total_insert_eq. rewrite (rok_len _ K). lia.
  - apply list_lookup_total_insert_ne. lia.
Qed.

(** Frame [v] gives up page [p]: unmapped, out of the candidate set, free stock in hand. *)
Lemma pool_ok_vacated l l' P v p r' d' fr' sh :
  pool_ok None l P -> Find p (page_table P) = Some v -> pin_count (FrameAt v P) = 0 ->
  replacer_ok r' -> length (usage_count r') = length (usage_count (replacer P)) ->
  evictable r' = <[Z.to_nat v := false]> (evictable (replacer P)) ->
  disk_ok d' l' -> (forall q, q ∈ l' -> q = p \/ q ∈ l) -> page_count (disk P) <= page_count d' ->
  (forall q, 2 <= q -> q <> p -> page_bytes q (file d') = page_bytes q (file (disk P))) ->
  len (data fr') = PAGE_SIZE -> fr' = ResetEpochs (set_meta Free INVALID_PAGE 0 (FrameAt v P)) ->
  let P' := mkPool (<[Z.to_nat v := fr']> (frames P)) (free_list P) (Erase p (page_table P)) r' d' sh in
  pool_ok (Some v) l' P' /\ preserves (eq p) P P' /\ Find p (page_table P') = None.
Proof.
  intros K F Hpin Kr Lr Er Kd Hl Hc Hb Ld Efr P'.
  destruct (mapped_frame _ _ _ _ _ K F) as (Hf & Hs & Hp & Hp2 & Np & Fr).
  destruct Fr as (_ & _ & R0 & Fr). rewrite Hs in Fr. destruct Fr as (X1 & X2 & X3 & X4 & X5 & X6 & X7).
  assert (Hw : writer (FrameAt v P) = false) by (destruct (writer (FrameAt v P)); [lia|done]).
  assert (Hr : readers (FrameAt v P) = 0) by (rewrite Hw in X5; lia).
  assert (FA : forall g, 0 <= g -> FrameAt g P' = if decide (g = v) then fr' else FrameAt g P)
    by (intros g Hg; exact (FrameAt_set v g fr' P Hf Hg)).
  assert (Hv : in_range v (replacer P)).
  { unfold in_range. rewrite (pk_rep_len _ _ _ K). exact Hf. }
  assert (Ev : forall g, 0 <= g -> evictable_at g r' = if decide (g = v) then false else evictable_at g (replacer P))
    by (intros g Hg; apply (evictable_at_insert v g false (replacer P)); done || apply K).
  assert (Cap : capacity P' = capacity P) by (unfold capacity, P'; simpl; by rewrite length_insert).
  assert (Tb : forall q, Find q (page_table P') = if decide (q = p) then None else Find q (page_table P))
    by (intros q; apply Find_Erase, K).
  assert (Gv : forall q g, q <> p -> Find q (page_table P) = Some g -> g <> v).
  { intros q g Hq Fg ->. destruct (pk_mapped _ _ _ K q v Fg) as (_ & _ & E & _). congruence. }
  split; [split|split; [split|]].
  - rewrite Cap. apply K.
  - done.
  - unfold P'; simpl. rewrite length_insert, Lr. apply K.
  - apply table_ok_Erase, K.
  - apply K.
  - intros g Hg. destruct (pk_free _ _ _ K g Hg) as [R S]. rewrite Cap, FA by lia.
    case_decide; [subst; done|done].
  - intros g [= <-]. rewrite Cap, FA, decide_True by lia. by subst fr'.
  - intros g Hg. rewrite Cap in Hg. rewrite FA by lia. case_decide as E.
    + subst g fr'. split; [done|]. split; [done|]. split; [done|]. simpl.
      split; [done|]. split; [done|]. split; [done|]. split; [by rewrite Ev, decide_True by lia|].
      split; [done|by intros []].
    + eapply frame_ok_ext; [by apply K|done|split; congruence|by rewrite Ev, decide_False by lia|].
      intros Rg P2 Fg. assert (page_id (FrameAt g P) <> p) by (intros Eq; congruence).
      split; [by rewrite Tb, decide_False|]. by apply Hb.
  - intros q g. rewrite Tb. case_decide as E; [done|]. intros Fg.
    destruct (pk_mapped _ _ _ K q g Fg) as (A1 & A2 & A3 & A4 & A5). rewrite Cap, FA by lia.
    rewrite decide_False by (by eapply Gv). split_and!; try done; try lia; [|simpl; lia].
    intros Hq. apply Hl in Hq as [?|?]; done.
  - done.
  - unfold P'; simpl. by rewrite length_insert.
  - intros q Hq Ne. unfold content. rewrite Tb, decide_False by congruence.
    destruct (Find q (page_table P)) as [g|] eqn:Fg; [|apply Hb; congruence || done].
    destruct (pk_mapped _ _ _ K q g Fg) as (A & _). rewrite FA, decide_False; [done| |lia].
    eapply (Gv q); congruence.
  - intros q _. unfold pins. rewrite Tb. case_decide as E; [subst q; by rewrite F, Hpin|].
    destruct (Find q (page_table P)) as [g|] eqn:Fg; [|done].
    destruct (pk_mapped _ _ _ K q g Fg) as (A & _). by rewrite FA, decide_False by (lia || eapply (Gv q); done).
  - intros q _. unfold latch. rewrite Tb. case_decide as E; [subst q; by rewrite F, Hr, Hw|].
    destruct (Find q (page_table P)) as [g|] eqn:Fg; [|done].
    destruct (pk_mapped _ _ _ K q g Fg) as (A & _). by rewrite FA, decide_False by (lia || eapply (Gv q); done).
  - intros q g Ne Fg _. by rewrite Tb, decide_False by congruence.
  - intros q Ne Fg. by rewrite Tb, decide_False by congruence.
  - by rewrite Tb, decide_True.
Qed.

(** ** Acquiring a frame *)

Definition acquired (l : list Z) (P : Pool) (r : Result Z) (P' : Pool) : Prop :=
  preserves nothing P P' /\ page_count (disk P') = page_count (disk P) /\
  events (disk P') `suffix_of` events (disk P) /\
  (forall q, Find q (page_table P) = None -> Find q (page_table P') = None) /\
  match r with
  | Ok f => pool_ok (Some f) l P'
  | Error s => pool_ok None l P' /\ ok s = false
  end.

(** Some frame is free, or holds a page nobody has pinned. *)
Definition has_room (P : Pool) : Prop :=
  exists f, 0 <= f < capacity P /\ pin_count (FrameAt f P) = 0.

Lemma env_quiet r : env_ok (fun _ => []) r.
Proof. intros k. constructor. Qed.

Lemma replacer_range x l P f : pool_ok x l P -> in_range f (replacer P) <-> 0 <= f < capacity P.
Proof. intros K. unfold in_range, capacity. by rewrite (pk_rep_len _ _ _ K). Qed.

(** A candidate is an unpinned, unlatched resident frame. *)
Lemma candidate_frame x l P v :
  pool_ok x l P -> 0 <= v < capacity P -> evictable_at v (replacer P) = true ->
  let fr := FrameAt v P in
  state fr = Resident /\ pin_count fr = 0 /\ writer fr = false /\ readers fr = 0 /\
  Find (page_id fr) (page_table P) = Some v /\ len (data fr) = PAGE_SIZE /\
  0 <= flushed_epoch fr <= dirty_epoch fr /\
  (IsDirty fr = false -> data fr = page_bytes (page_id fr) (file (disk P))).
Proof.
  intros K Hv Ev fr. destruct (pk_frames _ _ _ K v Hv) as (A & B & C & D). fold fr in A, B, C, D.
  destruct (state fr); try done.
  - destruct D as (_ & _ & _ & D & _). congruence.
  - destruct D as (D1 & D2 & D3 & D4 & D5 & D6 & D7). apply D6 in Ev.
    assert (Hw : writer fr = false) by (destruct (writer fr); [lia|done]).
    rewrite Hw in D5. split_and!; try done; try lia. intros Dy. by apply D7.
Qed.

Section reclaim.
Context {errno_text : ErrnoText} {host : Host}.

Lemma assert_passes (b : bool) P : ndebug || b = true -> assert_ b P = Some (tt, P).
Proof. unfold assert_. by intros ->. Qed.
Lemma assert_ok (b : bool) P : b = true -> assert_ b P = Some (tt, P).
Proof. intros ->. apply assert_passes, orb_true_r. Qed.

Lemma vacate_eq v p n P :
  0 <= v < capacity P -> Find p (page_table P) = Some v ->
  vacate v p n P = Some (tt, mkPool (<[Z.to_nat v := ResetEpochs (set_meta Free INVALID_PAGE n (FrameAt v P))]> (frames P))
    (free_list P) (Erase p (page_table P)) (replacer P) (disk P) (shutdown P)).
Proof. intros Hv F. unfold vacate, bind, get. by rewrite assert_ok by by rewrite bool_decide_eq_true. Qed.

Lemma UnpinPage_eq f P :
  0 <= f < capacity P -> 0 < pin_count (FrameAt f P) ->
  UnpinPage f P = Some (tt,
    let P' := set_frame f (set_pin (pin_count (FrameAt f P) - 1) (FrameAt f P)) P in
    if (pin_count (FrameAt f P) =? 1) && bool_decide (state (FrameAt f P) = Resident)
    then set_replacer (SetEvictable f true (replacer P)) P' else P').
Proof. intros Hf Hn. unfold UnpinPage, bind, frame, update. rewrite assert_ok by lia. destruct (_ && _); done. Qed.

(** The dirty victim: pinned, written back, then vacated; or kept when the write fails. *)
Lemma reclaim_dirty k l P v r' :
  pool_ok None l P -> 0 <= v < capacity P -> evictable_at v (replacer P) = true ->
  replacer_ok r' -> length (usage_count r') = length (usage_count (replacer P)) ->
  evictable r' = <[Z.to_nat v := false]> (evictable (replacer P)) ->
  let fr := FrameAt v P in
  IsDirty fr = true ->
  exists r P', (update v (set_pin 1) ;;
      let* st := FlushFrame v (page_id fr) in
      if negb (ok st) then UnpinPage v ;; ret (Error st)
      else
        let* f := frame v in
        if bool_decide (state f = Resident) && (page_id f =? page_id fr) && (pin_count f =? 1) && negb (IsDirty f)
        then vacate v (page_id fr) 0 ;; ret (Ok v)
        else UnpinPage v ;; k) (set_replacer r' P) = Some (r, P') /\
    acquired l P r P' /\ (fault_free (events (disk P)) -> r = Ok v).
Proof.
  intros K Hv Ev Kr Lr Er fr Dy.
  destruct (candidate_frame _ _ _ _ K Hv Ev) as (Hs & Hpin & Hw & Hr & Hf & Ld & He & _). fold fr in Hs, Hpin, Hw, Hr, Hf, Ld, He.
  set (p := page_id fr) in *.
  destruct (mapped_frame _ _ _ _ _ K Hf) as (_ & _ & _ & Hp & Np & _).
  unfold bind at 1, update. change (FrameAt v (set_replacer r' P)) with fr. cbv beta iota.
  set (P1 := set_frame v (set_pin 1 fr) (set_replacer r' P)).
  assert (F1 : FrameAt v P1 = set_pin 1 fr) by by apply FrameAt_same.
  destruct (FlushFrame_spec v p P1 l) as (st & d' & e & Eq & FD & Be & St & Se & _ & Dd & Ff);
    rewrite ?F1; try done; [by unfold P1; rewrite capacity_set|apply (pk_disk _ _ _ K)|].
  rewrite F1 in *. unfold bind at 1. rewrite Eq. cbv beta iota. clear Eq.
  set (P2 := set_disk d' _).
  assert (Cv : 0 <= v < capacity P2) by (unfold P2, P1, capacity; simpl; rewrite !length_insert; apply Hv).
  assert (F2 : FrameAt v P2 = set_epochs (dirty_epoch fr) e (set_pin 1 fr)).
  { unfold P2. change (FrameAt v (set_disk d' ?Q)) with (FrameAt v Q).
    apply FrameAt_same. by unfold P1; rewrite capacity_set. }
  assert (Iv : in_range v r') by (unfold in_range; rewrite Lr, (pk_rep_len _ _ _ K); apply Hv).
  destruct FD as [D1 D2 D3 D4]. destruct St as [->|St].
  - change (ok StatusOK) with true. cbn [negb]. cbv beta iota. unfold bind at 1, frame. cbv beta iota.
    rewrite F2. rewrite Se by done. cbn [state page_id pin_count set_epochs set_pin set_meta].
    rewrite bool_decide_true, !Z.eqb_refl by done. unfold IsDirty. cbn [flushed_epoch dirty_epoch set_epochs].
    rewrite Z.ltb_irrefl. cbn [andb negb]. cbv beta iota. unfold bind. rewrite vacate_eq, F2 by done.
    destruct (pool_ok_vacated l l P v p r' d' (ResetEpochs (set_meta Free INVALID_PAGE 0 fr))
      (shutdown P) K Hf Hpin Kr Lr Er D1 ltac:(auto) ltac:(simpl in D2; lia)
      ltac:(intros; apply D3; done || lia) ltac:(done) ltac:(done)) as (K' & Pv & Fn).
    eexists _, _. split; [done|]. split; [|done]. unfold P2, P1. simpl. rewrite !list_insert_insert_eq.
    change (ResetEpochs _) with (ResetEpochs (set_meta Free INVALID_PAGE 0 fr)).
    split; [|split; [done|split; [done|split; [|done]]]].
    + destruct Pv as [V1 V2 V3 V4 V5 V6]. split; [done|..]; intros q; [intros Hq _|intros _|intros _|intros g _ Fg Hg|intros _ Fq].
      2: { destruct (decide (p = q)) as [<-|Hne]; [|by apply V3]. unfold pins. rewrite Fn, Hf. by fold fr. }
      2: { destruct (decide (p = q)) as [<-|Hne]; [|by apply V4]. unfold latch. rewrite Fn, Hf. fold fr. by rewrite Hr, Hw. }
      2: { apply V5; [|done|done]. intros <-. unfold pins in Hg. rewrite Hf in Hg. fold fr in Hg. lia. }
      2: { apply V6; [|done]. intros <-. congruence. }
      destruct (decide (p = q)) as [<-|Hne]; [|by apply V2]. unfold content. rewrite Fn, Hf.
      cbn [disk]. apply Dd; [done|]. by apply Se.
    + intros q Hq. cbn [page_table]. rewrite Find_Erase by apply K. by case_decide.
  - rewrite St. cbn [negb]. cbv beta iota. unfold bind. rewrite UnpinPage_eq, F2 by (done || by rewrite F2).
    cbn [state pin_count set_epochs set_pin set_meta]. rewrite Z.eqb_refl, bool_decide_true by done.
    cbn [andb]. eexists _, _. split; [done|]. split; [|intros N; by apply Ff in N; subst].
    destruct (SetEvictable_spec v true r' Kr Iv) as (S1 & S2 & S3).
    destruct (pool_ok_flushed None l P v p (SetEvictable v true r') d' e (shutdown P) K Hf S1) as [K' Pv];
      rewrite ?S3; try done.
    { rewrite S2, Er, list_insert_insert_eq. apply list_insert_id. rewrite <- Ev.
      apply list_lookup_lookup_total_lt. rewrite (rok_len _ (pk_rep _ _ _ K)), (pk_rep_len _ _ _ K).
      unfold capacity in Hv. lia. }
    { fold fr. by rewrite Dy. }
    unfold P2, P1, set_frame, set_pin; simpl. rewrite !list_insert_insert_eq.
    assert (Ee : set_epochs (dirty_epoch fr) e fr = set_meta (state fr) (page_id fr) 0 (set_epochs (dirty_epoch fr) e (set_pin 1 fr))).
    { unfold set_meta, set_epochs; simpl. by rewrite <- Hpin. }
    fold fr in K', Pv. rewrite Ee in K', Pv.
    split; [exact Pv|]. split; [done|]. split; [done|]. split; [done|]. split; [exact K'|done].
Qed.

Lemma reclaim_spec n l P :
  pool_ok None l P ->
  exists r P', ReclaimFrame_loop (S n) P = Some (r, P') /\ acquired l P r P' /\
    (fault_free (events (disk P)) ->
     (exists f, 0 <= f < capacity P /\ evictable_at f (replacer P) = true) -> exists f, r = Ok f).
Proof.
  intros K. cbn [ReclaimFrame_loop]. unfold bind at 1, get. cbv beta iota.
  pose proof (Evict_spec (fun _ => []) (replacer P) (pk_rep _ _ _ K) (env_quiet _)) as Ev.
  destruct (Evict _ (replacer P)) as [[v|] r'].
  2: { destruct Ev as [-> Ev]. exists (Error (BufferPoolFull "buffer full")), P.
       unfold bind, modify, ret. split; [by destruct P|]. split.
       - split; [reflexivity|]. split; [done|]. split; [done|]. split; [done|]. done.
       - intros _ (f & Hf & E). rewrite Ev in E; [done|]. by apply (replacer_range _ _ _ _ K). }
  destruct Ev as (Hv & Ev & Kr & Er & _ & _ & Lr). apply (replacer_range _ _ _ _ K) in Hv.
  destruct (candidate_frame _ _ _ _ K Hv Ev) as (Hs & Hpin & Hw & Hr & Hf & Ld & He & Hcl).
  set (fr := FrameAt v P) in *. set (p := page_id fr) in *.
  destruct (mapped_frame _ _ _ _ _ K Hf) as (_ & _ & _ & Hp & Np & _).
  unfold bind at 1, modify, bind at 1, frame. cbv beta iota.
  change (FrameAt v (set_replacer r' P)) with fr. fold p.
  rewrite (bool_decide_false (state fr <> Resident)) by (intros N; by apply N).
  rewrite Hpin, Z.eqb_refl. cbn [negb orb]. rewrite Z.eqb_refl. cbn [negb orb]. cbv beta iota.
  destruct (IsDirty fr) eqn:Dy; cbn [negb]; cbv beta iota.
  2: { unfold bind. rewrite vacate_eq by done. change (FrameAt v (set_replacer r' P)) with fr.
       cbn [frames free_list page_table replacer disk shutdown set_replacer].
       destruct (pool_ok_vacated l l P v p r' (disk P) (ResetEpochs (set_meta Free INVALID_PAGE 0 fr))
         (shutdown P) K Hf Hpin Kr Lr Er (pk_disk _ _ _ K) ltac:(auto) ltac:(lia) ltac:(done) ltac:(done)
         ltac:(done)) as (K' & Pv & Fn).
       eexists _, _. split; [done|]. split; [|by eexists]. split; [|split; [done|split; [done|split; [|done]]]].
       - destruct Pv as [V1 V2 V3 V4 V5 V6]. split; [done|..]; intros q; [intros Hq _|intros _|intros _|intros g _ Fg Hg|intros _ Fq].
         2: { destruct (decide (p = q)) as [<-|Hne]; [|by apply V3]. unfold pins. rewrite Fn, Hf. by fold fr. }
         2: { destruct (decide (p = q)) as [<-|Hne]; [|by apply V4]. unfold latch. rewrite Fn, Hf. fold fr. by rewrite Hr, Hw. }
         2: { apply V5; [|done|done]. intros <-. unfold pins in Hg. rewrite Hf in Hg. fold fr in Hg. lia. }
         2: { apply V6; [|done]. intros <-. congruence. }
         destruct (decide (p = q)) as [<-|Hne]; [|by apply V2]. unfold content. rewrite Fn, Hf.
         cbn [disk]. symmetry. by apply Hcl.
       - intros q Hq. cbn [page_table]. rewrite Find_Erase by apply K. by case_decide. }
  destruct (reclaim_dirty (ReclaimFrame_loop n) l P v r' K Hv Ev Kr Lr Er Dy) as (r & P' & Eq & A & Ff).
  exists r, P'. split; [exact Eq|]. split; [done|]. intros F _. exists v. by apply Ff.
Qed.
End reclaim.
