(* ===== verification/BufferPoolOps.v ===== *)
(** * Buffer pool: what each operation does

    Every operation of the pool, run from a state that satisfies [pool_ok], returns in such a
    state again; the lemmas say what happened to the frames, the table and the contents. *)

From stdpp Require Import gmap.
From S2P Require Import Prelude Common DiskManager DiskProofs DiskTheorems Replacer ReplacerTheorems.
From S2P Require Import PoolIndex BufferPool BufferPoolProofs.

(** ** The free list and the frame in hand *)

Lemma elem_of_Push f g l : g ∈ Push f l <-> g ∈ l \/ g = f.
Proof. unfold Push. by rewrite elem_of_app, list_elem_of_singleton. Qed.

Lemma pool_ok_take l P f free :
  pool_ok None l P -> free_list P = Push f free -> pool_ok (Some f) l (set_free_list free P).
Proof.
  intros K E. pose proof (pk_nodup _ _ _ K) as ND. rewrite E in ND. unfold Push in ND.
  apply NoDup_app in ND as (N1 & N2 & _).
  assert (Hf : f ∈ free_list P) by (rewrite E, elem_of_Push; by right).
  assert (Hn : f ∉ free) by (intros H; by apply (N2 f H), list_elem_of_singleton).
  pose proof (pk_free _ _ _ K f Hf) as F. split; try apply K; try done.
  - intros g Hg. apply K. rewrite E, elem_of_Push. by left.
  - by intros g [= <-].
  - intros g Hg. pose proof (pk_frames _ _ _ K g Hg) as G. destruct (decide (g = f)) as [->|Ne].
    + destruct G as (A & B & C & D). split; [done|]. split; [done|]. split; [done|].
      change (FrameAt f (set_free_list free P)) with (FrameAt f P). destruct F as [_ Hs]. rewrite Hs in *.
      destruct D as (D1 & D2 & D3 & D4 & _). split_and!; try done; by intros [].
    + eapply frame_ok_ext; [exact G| |split; congruence|done|done]. rewrite E, elem_of_Push. simpl. tauto.
Qed.

Lemma pool_ok_give l P f :
  pool_ok (Some f) l P -> pool_ok None l (set_free_list (Push f (free_list P)) P).
Proof.
  intros K. destruct (pk_private _ _ _ K f eq_refl) as [Hf Hs].
  assert (Hn : f ∉ free_list P).
  { destruct (pk_frames _ _ _ K f Hf) as (_ & _ & _ & D). rewrite Hs in D. destruct D as (_ & _ & _ & _ & D).
    rewrite D. by intros []. }
  split; try apply K; try done.
  - simpl. unfold Push. apply NoDup_app. split; [apply K|]. split; [|apply NoDup_singleton].
    intros g Hg Hg'. apply list_elem_of_singleton in Hg' as ->. done.
  - intros g Hg. apply elem_of_Push in Hg as [Hg| ->]; [by apply K|done].
  - intros g Hg. pose proof (pk_frames _ _ _ K g Hg) as G. destruct (decide (g = f)) as [->|Ne].
    + destruct G as (A & B & C & D). split; [done|]. split; [done|]. split; [done|].
      change (FrameAt f (set_free_list _ P)) with (FrameAt f P). rewrite Hs in *.
      destruct D as (D1 & D2 & D3 & D4 & _). split_and!; try done. split; [done|]. intros _. apply elem_of_Push. by right.
    + eapply frame_ok_ext; [exact G| |split; congruence|done|done]. simpl. rewrite elem_of_Push. tauto.
Qed.

(** ** A frame in hand takes a page *)

Lemma Insert_spec p f t :
  table_ok t -> Find p t = None ->
  exists t', Insert p f t = Some t' /\ table_ok t' /\
    forall q, Find q t' = if decide (q = p) then Some f else Find q t.
Proof.
  intros K F. unfold Insert. change (shard p t !! p) with (Find p t). rewrite F. eexists. split; [done|]. split.
  - apply table_ok_update; [done|]. intros q g Hq. apply lookup_insert_Some in Hq as [[<- _]|[_ Hq]]; [done|].
    by eapply shard_home.
  - intros q. rewrite Find_insert_shard by done. case_decide as Es.
    + case_decide as E; [subst; by rewrite lookup_insert_eq|]. rewrite lookup_insert_ne by done.
      unfold Find, shard. by rewrite Es.
    + case_decide; [by subst|done].
Qed.

(** The private frame [f] becomes the resident, once-pinned frame of the unmapped page [p]. *)
Lemma pool_ok_claim l l' P f p t' fr' r' d' sh :
  pool_ok (Some f) l P -> Find p (page_table P) = None ->
  table_ok t' -> (forall q, Find q t' = if decide (q = p) then Some f else Find q (page_table P)) ->
  replacer_ok r' -> length (usage_count r') = length (usage_count (replacer P)) ->
  evictable r' = evictable (replacer P) ->
  disk_ok d' l' -> p ∉ l' -> (forall q, q ∈ l' -> q ∈ l) ->
  2 <= p < page_count d' -> page_count (disk P) <= page_count d' ->
  (forall q, 2 <= q -> q <> p -> page_bytes q (file d') = page_bytes q (file (disk P))) ->
  len (data fr') = PAGE_SIZE -> state fr' = Resident -> page_id fr' = p -> pin_count fr' = 1 ->
  0 <= flushed_epoch fr' <= dirty_epoch fr' -> 0 <= readers fr' ->
  readers fr' + (if writer fr' then 1 else 0) <= 1 ->
  (IsDirty fr' = false -> writer fr' = false -> data fr' = page_bytes p (file d')) ->
  let P' := mkPool (<[Z.to_nat f := fr']> (frames P)) (free_list P) t' r' d' sh in
  pool_ok None l' P' /\ preserves (eq p) P P' /\ Find p (page_table P') = Some f /\ FrameAt f P' = fr'.
Proof.
  intros K Fp Kt Ft Kr Lr Er Kd Np Hl Hp Hc Hb Ld Hs Hi Hpin He Hr Hrw Hcl P'.
  destruct (pk_private _ _ _ K f eq_refl) as [Hf Hsf].
  destruct (pk_frames _ _ _ K f Hf) as (_ & _ & _ & Ff). rewrite Hsf in Ff.
  destruct Ff as (_ & _ & _ & Evf & Nf).
  assert (FA : forall g, 0 <= g -> FrameAt g P' = if decide (g = f) then fr' else FrameAt g P)
    by (intros g Hg; exact (FrameAt_set f g fr' P Hf Hg)).
  assert (Ev : forall g, evictable_at g r' = evictable_at g (replacer P)).
  { intros g. unfold evictable_at. by rewrite Er. }
  assert (Cap : capacity P' = capacity P) by (unfold capacity, P'; simpl; by rewrite length_insert).
  assert (Gf : forall q g, Find q (page_table P) = Some g -> 0 <= g < capacity P /\ g <> f /\ q <> p).
  { intros q g Fg. destruct (pk_mapped _ _ _ K q g Fg) as (A & B & _). split_and!; try lia; congruence. }
  split; [split|split; [split|split]].
  - rewrite Cap. apply K.
  - done.
  - unfold P'; simpl. rewrite length_insert, Lr. apply K.
  - done.
  - apply K.
  - intros g Hg. destruct (pk_free _ _ _ K g Hg) as [R S]. rewrite Cap, FA by lia.
    case_decide; [|done]. subst. by apply Nf in Hg.
  - done.
  - intros g Hg. rewrite Cap in Hg. rewrite FA by lia. case_decide as E.
    + subst g. split; [done|]. split; [done|]. split; [done|]. rewrite Hs, Hi, Hpin. split; [lia|].
      split; [simpl; by rewrite Ft, decide_True|]. split; [intros N; by apply Nf in N|].
      split; [done|]. split; [done|]. split; [simpl; rewrite Ev, Evf; done|]. done.
    + eapply frame_ok_ext; [by apply K|done|split; congruence|apply Ev|].
      intros Rg P2 Fg. destruct (Gf _ _ Fg) as (_ & _ & Ne). simpl. rewrite Ft, decide_False by done.
      split; [done|]. by apply Hb.
  - intros q g. simpl. rewrite Ft. case_decide as E.
    + intros [= <-]. subst. rewrite Cap, FA, decide_True by lia. split_and!; try done; lia.
    + intros Fg. destruct (Gf _ _ Fg) as (Rg & Ne & _).
      destruct (pk_mapped _ _ _ K q g Fg) as (_ & A2 & A3 & A4 & A5). rewrite Cap, FA, decide_False by (done || lia).
      split_and!; try done; try lia. intros Hq. by apply A4, Hl.
  - done.
  - unfold P'; simpl. by rewrite length_insert.
  - intros q Hq Ne. unfold content. simpl. rewrite Ft, decide_False by congruence.
    destruct (Find q (page_table P)) as [g|] eqn:Fg; [|apply Hb; done || congruence].
    destruct (Gf _ _ Fg) as (Rg & Nf' & _). by rewrite FA, decide_False by (done || lia).
  - intros q Ne. unfold pins. simpl. rewrite Ft, decide_False by congruence.
    destruct (Find q (page_table P)) as [g|] eqn:Fg; [|done].
    destruct (Gf _ _ Fg) as (Rg & Nf' & _). by rewrite FA, decide_False by (done || lia).
  - intros q Ne. unfold latch. simpl. rewrite Ft, decide_False by congruence.
    destruct (Find q (page_table P)) as [g|] eqn:Fg; [|done].
    destruct (Gf _ _ Fg) as (Rg & Nf' & _). by rewrite FA, decide_False by (done || lia).
  - intros q g Ne Fg _. simpl. by rewrite Ft, decide_False by congruence.
  - intros q Ne Fg. simpl. by rewrite Ft, decide_False by congruence.
  - simpl. by rewrite Ft, decide_True.
  - by rewrite FA, decide_True by lia.
Qed.

(** A resident frame [f] is rewritten in place and stays in order. *)
Lemma pool_ok_set x l P f p fr' r' sh :
  pool_ok x l P -> Find p (page_table P) = Some f ->
  replacer_ok r' -> length (usage_count r') = length (usage_count (replacer P)) ->
  (forall g, 0 <= g -> g <> f -> evictable_at g r' = evictable_at g (replacer P)) ->
  state fr' = Resident -> page_id fr' = p ->
  frame_ok x (free_list P) (page_table P) r' (file (disk P)) f fr' ->
  let P' := mkPool (<[Z.to_nat f := fr']> (frames P)) (free_list P) (page_table P) r' (disk P) sh in
  pool_ok x l P' /\ preserves (eq p) P P' /\ FrameAt f P' = fr'.
Proof.
  intros K F Kr Lr Ev Hs Hi Fo P'. destruct (mapped_frame _ _ _ _ _ K F) as (Hf & Hsf & Hpf & Hp & Np & _).
  assert (FA : forall g, 0 <= g -> FrameAt g P' = if decide (g = f) then fr' else FrameAt g P)
    by (intros g Hg; exact (FrameAt_set f g fr' P Hf Hg)).
  assert (Cap : capacity P' = capacity P) by (unfold capacity, P'; simpl; by rewrite length_insert).
  assert (Gf : forall q g, Find q (page_table P) = Some g -> 0 <= g < capacity P /\ (q <> p -> g <> f)).
  { intros q g Fg. destruct (pk_mapped _ _ _ K q g Fg) as (A & B & C & _). split; [done|]. intros Ne ->. congruence. }
  split; [split|split; [split|]].
  - rewrite Cap. apply K.
  - done.
  - unfold P'; simpl. rewrite length_insert, Lr. apply K.
  - apply K.
  - apply K.
  - intros g Hg. destruct (pk_free _ _ _ K g Hg) as [R S]. rewrite Cap, FA by lia. case_decide; [subst; congruence|done].
  - intros g Hg. destruct (pk_private _ _ _ K g Hg) as [R S]. rewrite Cap, FA by lia. case_decide; [subst; congruence|done].
  - intros g Hg. rewrite Cap in Hg. rewrite FA by lia. case_decide as E; [by subst g|].
    eapply frame_ok_ext; [by apply K|done|done|by apply Ev; lia|done].
  - intros q g Fg. destruct (Gf _ _ Fg) as (Rg & _). destruct (pk_mapped _ _ _ K q g Fg) as (_ & A2 & A3 & A4 & A5).
    rewrite Cap, FA by lia. case_decide; [|by split_and!; try lia]. subst. split_and!; done || lia.
  - apply K.
  - unfold P'; simpl. by rewrite length_insert.
  - intros q Hq Ne. unfold content. simpl. destruct (Find q (page_table P)) as [g|] eqn:Fg; [|done].
    destruct (Gf _ _ Fg) as (Rg & Nf). rewrite FA, decide_False; [done|apply Nf; congruence|lia].
  - intros q Ne. unfold pins. simpl. destruct (Find q (page_table P)) as [g|] eqn:Fg; [|done].
    destruct (Gf _ _ Fg) as (Rg & Nf). rewrite FA, decide_False; [done|apply Nf; congruence|lia].
  - intros q Ne. unfold latch. simpl. destruct (Find q (page_table P)) as [g|] eqn:Fg; [|done].
    destruct (Gf _ _ Fg) as (Rg & Nf). rewrite FA, decide_False; [done|apply Nf; congruence|lia].
  - done.
  - done.
  - by rewrite FA, decide_True by lia.
Qed.

Section ops.
Context {errno_text : ErrnoText} {host : Host}.

(** A frame comes from the free list, else from an eviction; with no disk error there is one
    whenever some frame is not pinned. *)
Lemma AcquireFrame_spec l P :
  pool_ok None l P ->
  exists r P', AcquireFrame P = Some (r, P') /\ acquired l P r P' /\
    (fault_free (events (disk P)) -> has_room P -> exists f, r = Ok f).
Proof.
  intros K. unfold AcquireFrame, bind at 1, get. cbv beta iota.
  destruct (TryPop (free_list P)) as [[f|] free] eqn:E; unfold bind, modify; cbv beta iota.
  - apply TryPop_Some in E. exists (Ok f), (set_free_list free P). split; [done|]. split; [|by eexists].
    split; [by split|]. split; [done|]. split; [done|]. split; [done|]. by apply pool_ok_take.
  - assert (Ef : free = free_list P /\ free_list P = []).
    { pose proof (proj1 (TryPop_None (free_list P))) as H. rewrite E in H. specialize (H eq_refl).
      rewrite H in *. unfold TryPop in E. simpl in E. by simplify_eq. }
    destruct Ef as [-> Ef].
    replace (set_free_list (free_list P) P) with P by (by destruct P).
    destruct (reclaim_spec (length (frames P)) l P K) as (r & P' & Eq & A & L).
    exists r, P'. split; [exact Eq|]. split; [done|]. intros Ff (f & Hf & Hp). apply L; [done|].
    exists f. split; [done|]. destruct (pk_frames _ _ _ K f Hf) as (_ & _ & _ & D).
    destruct (state (FrameAt f P)); try done.
    + destruct D as (_ & _ & _ & _ & D). rewrite Ef in D. assert (f ∈ @nil Z) as N by (by apply D).
      by apply not_elem_of_nil in N.
    + by apply D.
Qed.

(** ** Fetching *)

Lemma ReadPage_spec d l p buf :
  disk_ok d l -> len buf = PAGE_SIZE ->
  let '(s, out, d') := ReadPage p buf d in
  advanced d d' /\ len out = PAGE_SIZE /\
  ((s = StatusOK /\ 1 <= p < page_count d /\ out = page_bytes p (file d)) \/
   (ok s = false /\ (fault_free (events d) -> ~ 1 <= p < page_count d))).
Proof.
  intros [[Hc Hl _ _ _] _] Lb. unfold ReadPage. destruct (decide (1 <= p < page_count d)) as [Hp|Hp].
  - rewrite access_ok by done. simpl negb; cbn match.
    pose proof (full_read_spec (PageOffset p) buf d ltac:(dlia)) as R.
    pose proof (full_read_length (PageOffset p) buf d ltac:(dlia)) as Lr.
    destruct (full_read _ buf d) as [[s out] d']. simpl in Lr. destruct R as [A R].
    split; [done|]. split; [lia|]. destruct R as [[-> ->]|[N R]].
    + left. rewrite Lb. done.
    + right. split; [done|]. intros F. destruct R; [dlia|done].
  - assert (N : ok (validate_page_access p d) = false).
    { unfold validate_page_access, valid_page. destruct (Z.eqb_spec p META_PAGE_ID); [done|].
      destruct (Z.leb_spec 0 p), (Z.ltb_spec p (page_count d)); try done. unfold_consts. lia. }
    rewrite N. cbn [negb]. split; [exists (events d); split; [by destruct d|done]|]. split; [done|]. by right.
Qed.

(** The frame in hand keeps being private while its bytes, and events of the disk, change. *)
Lemma pool_ok_private l P f fr' t' d' sh :
  pool_ok (Some f) l P -> table_ok t' -> (forall q, Find q t' = Find q (page_table P)) ->
  advanced (disk P) d' -> len (data fr') = PAGE_SIZE -> 0 <= flushed_epoch fr' <= dirty_epoch fr' ->
  state fr' = Free -> pin_count fr' = 0 -> readers fr' = 0 -> writer fr' = false ->
  let P' := mkPool (<[Z.to_nat f := fr']> (frames P)) (free_list P) t' (replacer P) d' sh in
  pool_ok (Some f) l P' /\ preserves nothing P P'.
Proof.
  intros K Kt Ft Ad Ld He Hs Hpin Hr Hw P'. destruct (pk_private _ _ _ K f eq_refl) as [Hf Hsf].
  destruct (advanced_same _ _ Ad) as (A1 & A2 & A3 & A4).
  assert (FA : forall g, 0 <= g -> FrameAt g P' = if decide (g = f) then fr' else FrameAt g P)
    by (intros g Hg; exact (FrameAt_set f g fr' P Hf Hg)).
  assert (Cap : capacity P' = capacity P) by (unfold capacity, P'; simpl; by rewrite length_insert).
  assert (Gf : forall q g, Find q (page_table P) = Some g -> FrameAt g P' = FrameAt g P).
  { intros q g Fg. destruct (pk_mapped _ _ _ K q g Fg) as (A & B & _). rewrite FA, decide_False; [done| |lia]. congruence. }
  assert (Pv : forall A (h : Frame -> A) (n : list byte -> A) q,
    match Find q t' with Some g => h (FrameAt g P') | None => n (file d') end =
    match Find q (page_table P) with Some g => h (FrameAt g P) | None => n (file (disk P)) end).
  { intros A h n q. rewrite Ft, A1. destruct (Find q (page_table P)) as [g|] eqn:Fg; [|done]. by rewrite (Gf q). }
  split; [split|split]; try apply K; try done.
  - rewrite Cap. apply K.
  - unfold P'; simpl. rewrite length_insert. apply K.
  - intros g Hg. destruct (pk_free _ _ _ K g Hg). rewrite Cap, FA by lia. by case_decide.
  - intros g [= <-]. rewrite Cap, FA, decide_True by lia. done.
  - intros g Hg. rewrite Cap in Hg. pose proof (pk_frames _ _ _ K g Hg) as G. rewrite FA by lia. case_decide as E.
    + subst. destruct G as (_ & _ & _ & G). rewrite Hsf in G. split; [done|]. split; [done|]. split; [lia|].
      rewrite Hs. by destruct G as (_ & _ & _ & G).
    + eapply frame_ok_ext; [exact G|done|done|done|]. intros _ _ Fg. simpl. by rewrite Ft, A1.
  - intros q g. simpl. rewrite Ft, Cap, A2. intros Fg. rewrite (Gf q) by done. by apply K.
  - by eapply advanced_ok; [|apply K].
  - unfold P'; simpl. by rewrite length_insert.
  - intros q _ _. apply (Pv _ data (page_bytes q)).
  - intros q _. apply (Pv _ pin_count (fun _ => 0)).
  - intros q _. apply (Pv _ (fun fr => (readers fr, writer fr)) (fun _ => (0, false))).
  - intros q g _ Fg _. simpl. by rewrite Ft.
  - intros q _ Fq. simpl. by rewrite Ft.
Qed.

(** The header check a loaded page must pass. *)
Definition loadable (p : Z) (bs : list byte) : Prop :=
  let h := PageHeader_ReadFrom (slice 0 PAGE_HEADER_SIZE bs) in
  ph_page_type h <> FREE /\ ph_page_id h = p.

(** A fetch of [p] pins it once more in some frame holding its content, or changes nothing. *)
Definition fetched (l : list Z) (P : Pool) (p : Z) (r : Result Z) (P' : Pool) : Prop :=
  pool_ok None l P' /\ page_count (disk P') = page_count (disk P) /\
  events (disk P') `suffix_of` events (disk P) /\
  match r with
  | Ok f =>
      preserves (eq p) P P' /\ Find p (page_table P') = Some f /\ content p P' = content p P /\
      pins p P' = pins p P + 1 /\ latch p P' = latch p P /\
      (0 < pins p P -> Find p (page_table P) = Some f) /\
      (Find p (page_table P) = None -> loadable p (content p P))
  | Error s => preserves nothing P P' /\ ok s = false
  end.

Lemma RecordAccess_spec f r :
  replacer_ok r -> in_range f r ->
  replacer_ok (RecordAccess f r) /\ evictable (RecordAccess f r) = evictable r /\
  length (usage_count (RecordAccess f r)) = length (usage_count r).
Proof.
  intros K Hf. destruct (RecordAccess_same f r) as [(A & _ & B) _]. split_and!; try done. by apply RecordAccess_ok.
Qed.

(** The replacer after a hit: [f] is not a candidate, the others as before. *)
Lemma hit_replacer f P l (z : bool) :
  pool_ok None l P -> 0 <= f < capacity P -> (z = false -> evictable_at f (replacer P) = false) ->
  let r1 := RecordAccess f (replacer P) in
  let r' := if z then SetEvictable f false r1 else r1 in
  replacer_ok r' /\ length (usage_count r') = length (usage_count (replacer P)) /\
  evictable_at f r' = false /\
  (forall g, 0 <= g -> g <> f -> evictable_at g r' = evictable_at g (replacer P)).
Proof.
  intros K Hf Hz r1 r'. pose proof (proj2 (replacer_range _ _ _ f K) Hf) as Hr.
  destruct (RecordAccess_spec f (replacer P) (pk_rep _ _ _ K) Hr) as (A & B & C). fold r1 in A, B, C.
  assert (Hr1 : in_range f r1) by (unfold in_range; by rewrite C).
  assert (E1 : forall g, evictable_at g r1 = evictable_at g (replacer P)) by (intros g; unfold evictable_at; by rewrite B).
  unfold r'. destruct z.
  - destruct (SetEvictable_spec f false r1 A Hr1) as (S1 & S2 & S3).
    pose proof (fun g Hg => evictable_at_insert f g false r1 _ A Hr1 Hg S2) as Ei.
    split; [done|]. split; [by rewrite S3|]. split; [by rewrite Ei, decide_True by lia|].
    intros g Hg Ne. by rewrite Ei, decide_False.
  - split; [done|]. split; [done|]. split; [by rewrite E1, Hz|]. intros. by rewrite E1.
Qed.

Lemma FetchFrame_hit_spec l P p f :
  pool_ok None l P -> Find p (page_table P) = Some f ->
  exists P', FetchFrame_hit f P = Some (Ok f, P') /\ fetched l P p (Ok f) P'.
Proof.
  intros K F. destruct (mapped_frame _ _ _ _ _ K F) as (Hf & Hs & Hp & _ & _ & Fo).
  unfold FetchFrame_hit, bind at 1, frame. cbv beta iota. set (fr := FrameAt f P) in *.
  unfold bind at 1, update. fold fr. cbv beta iota. rewrite Hs.
  destruct Fo as (O1 & O2 & O3 & O4). rewrite Hs in O4. destruct O4 as (X1 & X2 & X3 & X4 & X5 & X6 & X7).
  assert (Hpin : 0 <= pin_count fr) by (destruct (writer fr); lia).
  assert (Hz : (pin_count fr =? 0) = false -> evictable_at f (replacer P) = false).
  { intros N. apply not_true_is_false. intros N'. apply X6 in N'. lia. }
  destruct (hit_replacer f P l (pin_count fr =? 0) K Hf Hz) as (R1 & R2 & R3 & R4).
  unfold bind at 1. rewrite assert_ok by by rewrite bool_decide_eq_true.
  set (r' := if pin_count fr =? 0 then _ else _) in *.
  destruct (pool_ok_set None l P f p (set_pin (pin_count fr + 1) fr) r' (shutdown P) K F R1 R2 R4) as (K' & Pv & Fa).
  { done. } { done. }
  { split; [done|]. split; [done|]. split; [done|]. cbn [state set_pin set_meta]. rewrite Hs.
    split_and!; try done; [cbn; destruct (writer fr); lia|]. rewrite R3. cbn. split; [done|lia]. }
  exists (mkPool (<[Z.to_nat f:=set_pin (pin_count fr + 1) fr]> (frames P)) (free_list P)
             (page_table P) r' (disk P) (shutdown P)).
  split; [unfold r', bind, modify, ret; by destruct (pin_count fr =? 0)|].
  split; [done|]. split; [done|]. split; [done|]. split; [done|]. split; [done|].
  unfold content, pins, latch. cbn [page_table]. rewrite F, Fa. done.
Qed.

(** What a client may ask for: not the reserved catalog page, and in a build with assertions no
    id below [INVALID_PAGE], whose load would fail the assert of [AbandonLoad]. *)
Definition fetchable (p : Z) : Prop := p <> CATALOG_ROOT_PAGE_ID /\ ndebug || (INVALID_PAGE <=? p) = true.

Lemma fetchable_page p : INVALID_PAGE <= p -> p <> CATALOG_ROOT_PAGE_ID -> fetchable p.
Proof. intros H N. split; [done|]. apply orb_true_iff. right. lia. Qed.

(** A load in flight: [f] holds what was read for the just published page [p]. *)
Definition loading (f p : Z) (bs : list byte) (t : PageTable) (d : Disk) (P : Pool) : Pool :=
  mkPool (<[Z.to_nat f := mkFrame bs 0 false 0 0 Loading p 1]> (frames P)) (free_list P) t (replacer P) d (shutdown P).

Lemma AbandonLoad_spec l P f p t bs d' :
  pool_ok (Some f) l P -> Find p (page_table P) = None -> table_ok t ->
  (forall q, Find q t = if decide (q = p) then Some f else Find q (page_table P)) ->
  advanced (disk P) d' -> len bs = PAGE_SIZE -> ndebug || (1 <=? p) = true ->
  exists P', AbandonLoad f p (loading f p bs t d' P) = Some (tt, P') /\
    pool_ok None l P' /\ preserves nothing P P' /\ disk P' = d'.
Proof.
  intros K Fp Kt Ft Ad Lb Hp1. destruct (pk_private _ _ _ K f eq_refl) as [Hf _].
  assert (Cf : forall fr P', length (frames P') = length (frames P) -> FrameAt f (set_frame f fr P') = fr).
  { intros fr P' E. apply FrameAt_same. unfold capacity. by rewrite E. }
  unfold AbandonLoad, bind, modify, update, frame, loading. cbv beta iota.
  rewrite Cf by (simpl; by rewrite length_insert).
  assert (E0 : FrameAt f (loading f p bs t d' P) = mkFrame bs 0 false 0 0 Loading p 1).
  { apply (FrameAt_same f _ (set_page_table t (set_disk d' P))). apply Hf. }
  unfold loading in E0. change (FrameAt f (set_page_table ?x ?Q)) with (FrameAt f Q). rewrite E0.
  cbn [pin_count set_meta BufferPool.page_id]. rewrite assert_passes by done. rewrite Z.eqb_refl. cbn [negb]. cbv beta iota.
  rewrite Cf by (simpl; by rewrite length_insert). rewrite set_frame_twice. eexists. split; [done|].
  destruct (pool_ok_private l P f (mkFrame bs 0 false 0 0 Free INVALID_PAGE 0) (Erase p t) d' (shutdown P)) as [K' Pv]; try done.
  { by apply table_ok_Erase. }
  { intros q. rewrite Find_Erase, Ft by done. case_decide; [by subst|done]. }
  unfold set_frame, set_page_table, set_free_list; simpl. rewrite list_insert_insert_eq.
  split; [exact (pool_ok_give _ _ _ K')|]. split; [|done]. etrans; [exact Pv|]. by split.
Qed.

Lemma FetchFrame_load_spec l P f p :
  pool_ok (Some f) l P -> Find p (page_table P) = None -> fetchable p -> p <> META_PAGE_ID -> p <> INVALID_PAGE ->
  exists r P', FetchFrame_load f p P = Some (r, P') /\ fetched l P p r P' /\
    (fault_free (events (disk P)) -> 2 <= p < page_count (disk P) -> loadable p (content p P) -> r = Ok f).
Proof.
  intros K Fp [Np1 Hp0] Np0 Npi.
  assert (Hp1 : ndebug || (1 <=? p) = true) by (destruct ndebug; [done|]; cbn in *; unfold_consts; lia).
  destruct (pk_private _ _ _ K f eq_refl) as [Hf Hsf].
  destruct (pk_frames _ _ _ K f Hf) as (Ld & _ & _ & Fo). rewrite Hsf in Fo. destruct Fo as (_ & Fr & Fw & Fe & _).
  destruct (Insert_spec p f (page_table P) (pk_table _ _ _ K) Fp) as (t & It & Kt & Ft).
  unfold FetchFrame_load, bind at 1, map_page. rewrite It. cbv beta iota.
  unfold bind at 1, update, bind at 1, frame, bind at 1, on_disk. cbv beta iota.
  change (FrameAt f (set_page_table t P)) with (FrameAt f P). set (fr := FrameAt f P) in *.
  rewrite FrameAt_same by done. cbn [data ResetEpochs set_epochs set_meta disk set_frame set_page_table].
  pose proof (ReadPage_spec (disk P) l p (data fr) (pk_disk _ _ _ K) Ld) as R.
  destruct (ReadPage p (data fr) (disk P)) as [[st bs] d']. destruct R as (Ad & Lb & R). cbv beta iota.
  unfold bind at 1. change (FrameAt f (set_disk d' ?Q)) with (FrameAt f Q). rewrite FrameAt_same by done.
  replace (set_frame f _ (set_disk d' _)) with (loading f p bs t d' P).
  2: { unfold loading, set_frame, set_disk, set_page_table, set_data; cbn. by rewrite list_insert_insert_eq, Fr, Fw. }
  destruct (AbandonLoad_spec l P f p t bs d' K Fp Kt Ft Ad Lb Hp1) as (Q & EQ & KQ & PQ & DQ).
  destruct (advanced_same _ _ Ad) as (A1 & A2 & A3 & A4).
  assert (Fe' : forall s, ok s = false -> fetched l P p (Error s) Q) by (intros s Hs; by split_and!; rewrite ?DQ).
  destruct R as [(-> & Hp & ->)|(N & Nf)].
  2: { rewrite N. cbn [negb]. unfold bind. rewrite EQ. eexists _, _. split; [done|]. split; [by apply Fe'|].
       intros F H. exfalso. apply (Nf F). lia. }
  change (ok StatusOK) with true. cbn [negb]. cbv beta iota.
  assert (Ct : content p P = page_bytes p (file (disk P))) by (unfold content; by rewrite Fp).
  set (h := PageHeader_ReadFrom _). destruct (bool_decide (ph_page_type h = FREE) || _) eqn:Bad.
  { unfold bind. rewrite EQ. eexists _, _. split; [done|]. split; [by apply Fe'; case_bool_decide|].
    intros _ _ [L1 L2]. rewrite Ct in L1, L2. fold h in L1, L2. exfalso. apply orb_true_iff in Bad as [Bad|Bad].
    - by apply bool_decide_eq_true in Bad.
    - rewrite L2, Z.eqb_refl in Bad. done. }
  apply orb_false_iff in Bad as [B1 B2]. apply bool_decide_eq_false in B1. apply negb_false_iff, Z.eqb_eq in B2.
  assert (Ef : FrameAt f (loading f p (page_bytes p (file (disk P))) t d' P) =
               mkFrame (page_bytes p (file (disk P))) 0 false 0 0 Loading p 1).
  { apply (FrameAt_same f _ (set_page_table t (set_disk d' P))). apply Hf. }
  unfold bind, modify. rewrite Ef. cbn [set_meta BufferPool.page_id pin_count data readers writer dirty_epoch flushed_epoch].
  set (fr' := mkFrame (page_bytes p (file (disk P))) 0 false 0 0 Resident p 1).
  exists (Ok f), (mkPool (<[Z.to_nat f := fr']> (frames P)) (free_list P) t (RecordAccess f (replacer P)) d' (shutdown P)).
  split; [unfold ret, loading, set_frame, set_replacer; cbn; by rewrite list_insert_insert_eq|]. split; [|done].
  destruct (RecordAccess_spec f (replacer P) (pk_rep _ _ _ K)) as (R1 & R2 & R3); [by apply (replacer_range _ _ _ _ K)|].
  assert (Npl : p ∉ l).
  { intros Hin. apply B1. unfold h. rewrite <- hdr_page_bytes by lia.
    destruct (pk_disk _ _ _ K) as [[_ _ _ _ C] _]. by eapply chain_free. }
  destruct (pool_ok_claim l l P f p t fr' (RecordAccess f (replacer P)) d' (shutdown P) K Fp Kt Ft R1 R3 R2) as (K' & Pv & Ff & Fa); try done; cbn; try lia.
  { by eapply advanced_ok; [|apply K]. } { unfold_consts; lia. } { by rewrite A1. } { by rewrite A1. }
  split; [done|]. split; [done|]. split; [done|]. split; [done|]. split; [done|].
  unfold content, pins, latch. cbn [page_table] in *. rewrite Ff, Fa, Fp. split_and!; try done; lia.
Qed.

(** [FetchFrame] of a page id that may be asked for always returns. *)
Lemma FetchFrame_spec l P p :
  pool_ok None l P -> fetchable p ->
  exists r P', FetchFrame p P = Some (r, P') /\ fetched l P p r P' /\
    (fault_free (events (disk P)) -> 2 <= p < page_count (disk P) ->
     (Find p (page_table P) = None -> has_room P /\ loadable p (content p P)) -> exists f, r = Ok f).
Proof.
  intros K Np1. unfold FetchFrame. destruct ((p =? META_PAGE_ID) || (p =? INVALID_PAGE)) eqn:Bad.
  { eexists _, P. split; [done|]. split; [by split_and!|]. intros _ Hp.
    exfalso. apply orb_true_iff in Bad as [Bad|Bad]; apply Z.eqb_eq in Bad; unfold_consts; lia. }
  apply orb_false_iff in Bad as [Np0%Z.eqb_neq Npi%Z.eqb_neq].
  cbn [FetchFrame_loop]. unfold bind at 1, get. cbv beta iota.
  destruct (Find p (page_table P)) as [f|] eqn:Fp.
  { destruct (FetchFrame_hit_spec l P p f K Fp) as (P' & E & H). eexists _, _. split; [done|]. split; [done|]. by eexists. }
  destruct (AcquireFrame_spec l P K) as (r & P1 & E1 & (Pv & Pc & Ps & Pf & A) & L).
  unfold bind at 1. rewrite E1. cbv beta iota. destruct r as [f|s].
  2: { destruct A as [K1 N]. eexists _, _. split; [done|]. split; [by split_and!|].
       intros F Hp H. destruct (H eq_refl) as [Hr _]. destruct (L F Hr). done. }
  unfold bind at 1, get. cbv beta iota. rewrite (Pf p Fp).
  destruct (FetchFrame_load_spec l P1 f p A (Pf p Fp) Np1 Np0 Npi) as (r & P2 & E2 & (K2 & C2 & S2 & R2) & L2).
  assert (H1 : pins p P1 = 0 /\ pins p P = 0 /\ latch p P1 = latch p P).
  { unfold pins, latch. by rewrite (Pf p Fp), Fp. }
  destruct H1 as (N1 & N0 & La).
  assert (Ct : 2 <= p -> content p P1 = content p P) by (intros; apply (pv_content _ _ _ Pv); [done|by intros []]).
  exists r, P2. split; [done|]. split.
  - split; [done|]. split; [congruence|]. split; [by etrans|]. destruct r as [g|s].
    + destruct R2 as (B1 & B2 & B3 & B4 & B5 & B6 & B7).
      assert (2 <= p) by (apply (mapped_frame _ _ _ _ _ K2 B2)). rewrite <- (Ct H).
      split_and!; try done; try lia; try congruence. 
      * etrans; [|exact B1]. by eapply preserves_weaken; [|exact Pv].
      * intros _. apply B7, Pf, Fp.
    + destruct R2 as [R2 N2]. split; [|done]. etrans; [exact Pv|exact R2].
  - intros F Hp H. destruct (H eq_refl) as [_ Hl]. exists f. apply L2; [by eapply Forall_suffix|lia|].
    by rewrite Ct by lia.
Qed.

(** ** Guards *)

(** The latch of a page never counts more holders than the page has pins. *)
Lemma latch_pins x l P p :
  pool_ok x l P -> 0 <= (latch p P).1 /\ (latch p P).1 + (if (latch p P).2 then 1 else 0) <= pins p P.
Proof.
  intros K. unfold latch, pins. destruct (Find p (page_table P)) as [f|] eqn:F; [|simpl; lia].
  destruct (mapped_frame _ _ _ _ _ K F) as (_ & Hs & _ & _ & _ & (_ & _ & R & D)). rewrite Hs in D.
  by destruct D as (_ & _ & _ & _ & D & _).
Qed.

(** A change of bytes, latch and epochs of a mapped frame. *)
Lemma pool_ok_edit l P f p fr' :
  pool_ok None l P -> Find p (page_table P) = Some f ->
  let fr := FrameAt f P in
  state fr' = state fr -> page_id fr' = page_id fr -> pin_count fr' = pin_count fr ->
  len (data fr') = PAGE_SIZE -> 0 <= flushed_epoch fr' <= dirty_epoch fr' -> 0 <= readers fr' ->
  readers fr' + (if writer fr' then 1 else 0) <= pin_count fr ->
  (IsDirty fr' = false -> writer fr' = false ->
     data fr' = data fr /\ IsDirty fr = false /\ writer fr = false) ->
  pool_ok None l (set_frame f fr' P) /\ preserves (eq p) P (set_frame f fr' P) /\
  FrameAt f (set_frame f fr' P) = fr'.
Proof.
  intros K F fr Hs Hi Hn Ld He Hr Hw Hc. destruct (mapped_frame _ _ _ _ _ K F) as (Hf & Hsf & Hpf & _ & _ & Fo).
  fold fr in Hsf, Hpf, Fo. apply pool_ok_set; try done; try apply K; try congruence.
  destruct Fo as (_ & _ & _ & D). split; [done|]. split; [done|]. split; [done|].
  rewrite Hs, Hi, Hn, Hsf in *. destruct D as (D1 & D2 & D3 & D4 & D5 & D6 & D7).
  split; [done|]. split; [done|]. split; [done|]. split; [done|]. split; [done|]. split; [done|].
  intros A B. destruct (Hc A B) as (-> & C1 & C2). by apply D7.
Qed.

(** Page [p] in frame [f], with its bytes, pins and latch. *)
Definition page_state (p f : Z) (bs : list byte) (n : Z) (h : Z * bool) (P : Pool) : Prop :=
  Find p (page_table P) = Some f /\ content p P = bs /\ pins p P = n /\ latch p P = h.

Lemma page_state_intro p f fr P :
  Find p (page_table P) = Some f -> FrameAt f P = fr ->
  page_state p f (data fr) (pin_count fr) (readers fr, writer fr) P.
Proof. intros F <-. unfold page_state, content, pins, latch. by rewrite F. Qed.

Lemma page_state_inv p f bs n h P :
  page_state p f bs n h P ->
  Find p (page_table P) = Some f /\ data (FrameAt f P) = bs /\ pin_count (FrameAt f P) = n /\
  (readers (FrameAt f P), writer (FrameAt f P)) = h.
Proof. intros (F & A & B & C). unfold content, pins, latch in *. rewrite F in *. done. Qed.

Lemma UnpinPage_spec l P p f bs n h :
  pool_ok None l P -> page_state p f bs n h P -> h.1 + (if h.2 then 1 else 0) <= n - 1 ->
  exists P', UnpinPage f P = Some (tt, P') /\ pool_ok None l P' /\ preserves (eq p) P P' /\
    page_state p f bs (n - 1) h P' /\ disk P' = disk P.
Proof.
  intros K S Hn. destruct (page_state_inv _ _ _ _ _ _ S) as (F & <- & <- & <-). simpl in Hn.
  destruct (mapped_frame _ _ _ _ _ K F) as (Hf & Hs & Hp & _ & _ & Fo). rewrite UnpinPage_eq by (done || destruct Fo as (O1 & O2 & O3 & O4); rewrite Hs in O4; destruct (writer _); lia).
  set (fr := FrameAt f P) in *. rewrite Hs, bool_decide_true, andb_true_r by done. eexists. split; [done|].
  destruct Fo as (O1 & O2 & O3 & O4). rewrite Hs in O4. destruct O4 as (X1 & X2 & X3 & X4 & X5 & X6 & X7).
  pose proof (proj2 (replacer_range _ _ _ f K) Hf) as Hr.
  destruct (SetEvictable_spec f true (replacer P) (pk_rep _ _ _ K) Hr) as (S1 & S2 & S3).
  set (r' := if pin_count fr =? 1 then SetEvictable f true (replacer P) else replacer P).
  assert (R : replacer_ok r' /\ length (usage_count r') = length (usage_count (replacer P)) /\
              (forall g, 0 <= g -> evictable_at g r' = if decide (g = f) then (pin_count fr =? 1) else evictable_at g (replacer P))).
  { unfold r'. destruct (Z.eqb_spec (pin_count fr) 1).
    - split; [done|]. split; [by rewrite S3|]. intros g Hg. apply (evictable_at_insert f g true (replacer P)); done || apply K.
    - split; [apply K|]. split; [done|]. intros g Hg. case_decide; [|done]. subst. apply not_true_is_false. intros N.
      apply X6 in N. destruct (writer fr); lia. }
  destruct R as (R1 & R2 & R3).
  destruct (pool_ok_set None l P f p (set_pin (pin_count fr - 1) fr) r' (shutdown P) K F R1 R2) as (K' & Pv & Fa); try done.
  { intros g Hg Ne. by rewrite R3, decide_False. }
  { split; [done|]. split; [done|]. split; [done|]. cbn [state set_pin set_meta]. rewrite Hs.
    split; [done|]. split; [done|]. split; [done|]. split; [done|]. split; [cbn; lia|]. split; [|done].
    rewrite R3, decide_True by lia. cbn. rewrite Z.eqb_eq. lia. }
  match goal with |- pool_ok _ _ ?Q /\ _ => replace Q with (mkPool (<[Z.to_nat f:=set_pin (pin_count fr - 1) fr]> (frames P))
    (free_list P) (page_table P) r' (disk P) (shutdown P)) by (unfold r'; by destruct (_ =? _)) end.
  split; [done|]. split; [done|]. split; [|done].
  eapply page_state_intro in Fa; [|exact F]. exact Fa.
Qed.

(** A guard that is open on its page: it holds a pin and its side of the latch. *)
Definition open_guard (w : bool) (p f : Z) : PageGuard := mkGuard w f p true.

(** The latch once a guard of this kind is added, or taken away. *)
Definition latched (w : bool) (h : Z * bool) : Z * bool := if w then (h.1, true) else (h.1 + 1, h.2).
Definition unlatched (w : bool) (h : Z * bool) : Z * bool := if w then (h.1, false) else (h.1 - 1, h.2).
(** The latch admits it without waiting. *)
Definition compatible (w : bool) (h : Z * bool) : Prop := if w then h = (0, false) else h.2 = false.

Definition FetchPage (w : bool) (p : Z) : M (Result PageGuard) := if w then FetchPageWrite p else FetchPageRead p.

Definition opened (l : list Z) (P : Pool) (w : bool) (p : Z) (r : Result PageGuard) (P' : Pool) : Prop :=
  pool_ok None l P' /\ page_count (disk P') = page_count (disk P) /\
  events (disk P') `suffix_of` events (disk P) /\
  match r with
  | Ok g => exists f, g = open_guard w p f /\ preserves (eq p) P P' /\
      page_state p f (content p P) (pins p P + 1) (latched w (latch p P)) P' /\
      (0 < pins p P -> Find p (page_table P) = Some f) /\
      (Find p (page_table P) = None -> loadable p (content p P))
  | Error s => preserves nothing P P' /\ ok s = false
  end.

(** A fetch waits only for a latch this thread already holds. *)
Lemma FetchPage_spec l P w p :
  pool_ok None l P -> fetchable p -> compatible w (latch p P) ->
  exists r P', FetchPage w p P = Some (r, P') /\ opened l P w p r P' /\
    (fault_free (events (disk P)) -> 2 <= p < page_count (disk P) ->
     (Find p (page_table P) = None -> has_room P /\ loadable p (content p P)) -> exists g, r = Ok g).
Proof.
  intros K Np Hc. destruct (FetchFrame_spec l P p K Np) as (r & Q & E & (KQ & C & Ev & R) & L).
  assert (EF : FetchPage w p P = match r with
      | Error s => Some (Error s, Q)
      | Ok f => match (if w then AcquireWrite else AcquireRead) (FrameAt f Q) with
                | None => None | Some fr => Some (Ok (open_guard w p f), set_frame f fr Q) end end).
  { destruct w; unfold FetchPage, FetchPageWrite, FetchPageRead, bind at 1; rewrite E; destruct r as [f|s]; try done;
      unfold bind, try_update; [by destruct (AcquireWrite (FrameAt f Q))|by destruct (AcquireRead (FrameAt f Q))]. }
  rewrite EF. destruct r as [f|s].
  2: { eexists _, _. split; [done|]. split; [done|]. intros F Hp H. by destruct (L F Hp H). }
  destruct R as (R1 & R2 & R3 & R4 & R5 & R6 & R7).
  assert (PS : page_state p f (content p P) (pins p P + 1) (latch p P) Q) by done.
  destruct (page_state_inv _ _ _ _ _ _ PS) as (_ & Hd & Hn & Hl). set (fr := FrameAt f Q) in *.
  destruct (latch_pins _ _ _ p K) as [La Lb].
  destruct (mapped_frame _ _ _ _ _ KQ R2) as (_ & Hs & Hi & _ & _ & (O1 & O2 & _)). fold fr in Hs, Hi, O1, O2.
  assert (A : (if w then AcquireWrite else AcquireRead) fr =
              Some (set_latch (latched w (latch p P)).1 (latched w (latch p P)).2 fr)).
  { rewrite <- Hl in Hc |- *. destruct w; simpl in *.
    - injection Hc as H1 H2. unfold AcquireWrite. by rewrite H1, H2.
    - unfold AcquireRead. by rewrite Hc. }
  rewrite A. set (fr' := set_latch _ _ fr). eexists _, _. split; [done|]. split; [|by eexists].
  destruct (pool_ok_edit l Q f p fr' KQ R2) as (K' & Pv & Fa); try done.
  { cbn. unfold latched. destruct w; simpl; lia. }
  { cbn. fold fr. rewrite Hn. unfold latched. destruct w; simpl in *; [rewrite Hc in *; simpl in *; lia|].
    rewrite Hc in *. lia. }
  { cbn. intros B1 B2. split; [done|]. split; [done|]. destruct w; [done|]. simpl in B2, Hc.
    rewrite <- Hl in Hc. done. }
  split; [done|]. split; [done|]. split; [done|]. exists f. split; [done|]. split; [by etrans|]. split; [|done].
  eapply page_state_intro in Fa; [|exact R2]. cbn in Fa. rewrite Hd, Hn in Fa.
  unfold latched in *. by destruct w.
Qed.

(** Dropping an open guard gives back its latch and pin; a writer leaves the page dirty. *)
Lemma Drop_spec l P (w : bool) p f bs n h :
  pool_ok None l P -> page_state p f bs n h P -> 0 < n ->
  (if w then h = (0, true) else 0 < h.1 /\ h.2 = false) ->
  (w = true -> dirty_epoch (FrameAt f P) + 1 < 2 ^ 64) ->
  exists P', Drop (open_guard w p f) P = Some (mkGuard w f p false, P') /\
    pool_ok None l P' /\ preserves (eq p) P P' /\ page_state p f bs (n - 1) (unlatched w h) P' /\ disk P' = disk P.
Proof.
  intros K PS Hn Hh He. destruct (page_state_inv _ _ _ _ _ _ PS) as (F & <- & <- & <-).
  destruct (mapped_frame _ _ _ _ _ K F) as (Hf & Hs & Hi & _ & _ & (O1 & O2 & O3 & O4)).
  rewrite Hs in O4. destruct O4 as (_ & _ & _ & _ & O4 & _). set (fr := FrameAt f P) in *.
  set (fr' := if w then ReleaseWrite (MarkDirty fr) else ReleaseRead fr).
  assert (Dy : w = true -> u64 (dirty_epoch fr + 1) = dirty_epoch fr + 1)
    by (intros W; apply u64_id; specialize (He W); unfold is_u64; lia).
  assert (Hl : unlatched w (readers fr, writer fr) = (readers fr', writer fr') /\ 0 <= readers fr' /\
               readers fr' + (if writer fr' then 1 else 0) <= pin_count fr - 1).
  { unfold fr', unlatched. destruct w; cbn in *; [injection Hh as R W|destruct Hh as [? W]]; rewrite W in *; split_and!; done || lia. }
  destruct Hl as (-> & Hl & Hl').
  destruct (pool_ok_edit l P f p fr' K F) as (K' & Pv & Fa); try done; try (unfold fr'; by destruct w).
  { unfold fr'. destruct w; [|done]. cbn. rewrite Dy by done. lia. }
  { fold fr. lia. }
  { unfold fr'. destruct w; [|done]. unfold IsDirty; cbn. rewrite Dy by done. intros B. lia. }
  assert (PS' : page_state p f (data fr) (pin_count fr) (readers fr', writer fr') (set_frame f fr' P)).
  { eapply page_state_intro in Fa; [|exact F]. unfold fr' in Fa |- *. by destruct w. }
  destruct (UnpinPage_spec l _ p f _ _ _ K' PS') as (P2 & E2 & K2 & Pv2 & PS2' & D2); [simpl; lia|].
  exists P2. split; [|split; [done|]; split; [by etrans|]; done].
  assert (E1 : (if w then update f MarkDirty;; update f ReleaseWrite else update f ReleaseRead) P = Some (tt, set_frame f fr' P)).
  { unfold fr'. destruct w; [|done]. unfold bind, update. fold fr. by rewrite FrameAt_same, set_frame_twice. }
  unfold Drop, open_guard. cbn [g_live g_write g_frame g_page negb]. unfold bind at 1. rewrite E1.
  unfold bind. by rewrite E2.
Qed.
End ops.
