(* ===== verification/BufferPoolLifecycle.v ===== *)
(** * Buffer pool: writing through guards, flushing, creating and deleting pages *)

From stdpp Require Import gmap.
From S2P Require Import Prelude Common DiskManager DiskProofs DiskTheorems Replacer ReplacerTheorems.
From S2P Require Import PoolIndex BufferPool BufferPoolProofs BufferPoolOps.

Section lifecycle.
Context {errno_text : ErrnoText} {host : Host}.

(** ** Writing under the exclusive latch *)

(** Any change of the bytes of a page its guard holds exclusively. *)
Lemma write_bytes_spec l P p f bs n bs' :
  pool_ok None l P -> page_state p f bs n (0, true) P -> len bs' = PAGE_SIZE ->
  let P' := set_frame f (set_data bs' (FrameAt f P)) P in
  pool_ok None l P' /\ preserves (eq p) P P' /\ page_state p f bs' n (0, true) P' /\ disk P' = disk P.
Proof.
  intros K PS L P'. destruct (page_state_inv _ _ _ _ _ _ PS) as (F & _ & <- & [= R W]).
  destruct (mapped_frame _ _ _ _ _ K F) as (Hf & Hs & Hi & _ & _ & (O1 & O2 & O3 & O4)).
  rewrite Hs in O4. destruct O4 as (_ & _ & _ & _ & O4 & _).
  destruct (pool_ok_edit l P f p (set_data bs' (FrameAt f P)) K F) as (K' & Pv & Fa); try done.
  { cbn. rewrite W. done. }
  split; [done|]. split; [done|]. split; [|done].
  eapply page_state_intro in Fa; [|exact F]. cbn in Fa. by rewrite R, W in Fa.
Qed.

(** ** Flushing *)

(** One frame pinned, flushed and unpinned, as [FlushPage] and [FlushAllPages] do it. *)
Definition flush_pinned (f p : Z) : M Status :=
  let* fr := frame f in
  update f (set_pin (pin_count fr + 1)) ;;
  let* st := FlushFrame f p in
  UnpinPage f ;;
  ret st.

(** Only frame [f] changes, and of it only the flushed epoch. *)
Definition flushed (l : list Z) (P : Pool) (f : Z) (st : Status) (P' : Pool) : Prop :=
  pool_ok None l P' /\ preserves nothing P P' /\
  page_count (disk P') = page_count (disk P) /\ events (disk P') `suffix_of` events (disk P) /\
  page_table P' = page_table P /\ shutdown P' = shutdown P /\
  (forall g, 0 <= g -> g <> f -> FrameAt g P' = FrameAt g P) /\
  (exists e, FrameAt f P' = set_epochs (dirty_epoch (FrameAt f P)) e (FrameAt f P)) /\
  (st = StatusOK \/ ok st = false) /\ (st = StatusOK -> IsDirty (FrameAt f P') = false) /\
  (fault_free (events (disk P)) -> st = StatusOK).

(** The replacer is the same before and after the extra pin. *)
Lemma unpin_replacer l P p f :
  pool_ok None l P -> Find p (page_table P) = Some f -> pin_count (FrameAt f P) = 0 ->
  SetEvictable f true (replacer P) = replacer P.
Proof.
  intros K F Hn. destruct (mapped_frame _ _ _ _ _ K F) as (_ & Hs & _ & _ & _ & (_ & _ & _ & D)).
  rewrite Hs in D. destruct D as (_ & _ & _ & _ & _ & D & _). unfold SetEvictable.
  by rewrite bool_decide_true by (by apply D).
Qed.

Lemma flush_pinned_spec l P f p :
  pool_ok None l P -> Find p (page_table P) = Some f ->
  (IsDirty (FrameAt f P) = true -> writer (FrameAt f P) = false) ->
  exists st P', flush_pinned f p P = Some (st, P') /\ flushed l P f st P'.
Proof.
  intros K F Hw. destruct (mapped_frame _ _ _ _ _ K F) as (Hf & Hs & Hi & Hp & Np & (O1 & O2 & O3 & O4)).
  rewrite Hs in O4. destruct O4 as (_ & _ & _ & _ & O4 & _).
  unfold flush_pinned, bind at 1, frame, bind at 1, update. cbv beta iota. set (fr := FrameAt f P) in *.
  set (P1 := set_frame f (set_pin (pin_count fr + 1) fr) P).
  assert (F1 : FrameAt f P1 = set_pin (pin_count fr + 1) fr) by by apply FrameAt_same.
  destruct (FlushFrame_spec f p P1 l) as (st & d' & e & Eq & FD & Be & St & Se & Cl & Dd & Ff);
    rewrite ?F1; try done; [by unfold P1; rewrite capacity_set|apply (pk_disk _ _ _ K)|].
  rewrite F1 in *. unfold bind at 1. rewrite Eq. cbv beta iota. clear Eq. unfold bind at 1.
  set (P2 := set_disk d' _).
  assert (Cf : 0 <= f < capacity P2) by (unfold P2, P1, capacity; simpl; rewrite !length_insert; apply Hf).
  assert (F2 : FrameAt f P2 = set_epochs (dirty_epoch fr) e (set_pin (pin_count fr + 1) fr)).
  { unfold P2. change (FrameAt f (set_disk d' ?Q)) with (FrameAt f Q).
    apply FrameAt_same. by unfold P1; rewrite capacity_set. }
  rewrite UnpinPage_eq, F2 by (done || rewrite F2; cbn; destruct (writer fr); lia). cbv zeta. cbn [state pin_count set_epochs set_pin set_meta].
  rewrite (bool_decide_true (state fr = Resident)), andb_true_r by done.
  set (P' := mkPool (<[Z.to_nat f := set_epochs (dirty_epoch fr) e fr]> (frames P)) (free_list P)
     (page_table P) (replacer P) d' (shutdown P)).
  exists st, P'. split.
  { unfold P', P2, P1, set_frame, set_pin, set_disk, set_replacer; cbn. rewrite !list_insert_insert_eq.
    assert (Ee : set_meta (state fr) (page_id fr) (pin_count fr + 1 - 1) (set_epochs (dirty_epoch fr) e
             (set_meta (state fr) (page_id fr) (pin_count fr + 1) fr)) = set_epochs (dirty_epoch fr) e fr).
    { unfold set_meta, set_epochs; cbn. by rewrite Z.add_simpl_r. }
    destruct (Z.eqb_spec (pin_count fr + 1) 1); cbn; rewrite Ee; [|done].
    by rewrite (unpin_replacer l P p f) by (done || fold fr; lia). }
  destruct (pool_ok_flushed None l P f p (replacer P) d' e (shutdown P) K F) as [K' Pv]; try done; try apply K.
  { intros D. by apply Cl. }
  assert (FA : forall g, 0 <= g -> FrameAt g P' = if decide (g = f) then set_epochs (dirty_epoch fr) e fr else FrameAt g P)
    by (intros g Hg; exact (FrameAt_set f g _ P Hf Hg)).
  destruct FD as [D1 D2 D3 D4]. split; [exact K'|]. split; [exact Pv|].
  split; [done|]. split; [done|]. split; [done|]. split; [done|].
  split; [intros g Hg Ne; by rewrite FA, decide_False|]. rewrite FA, decide_True by lia.
  split; [by eexists|]. split; [done|]. split; [|done].
  intros E. unfold IsDirty; cbn. rewrite (Se E). cbn. lia.
Qed.

(** A flushed page is on disk. *)
Lemma clean_on_disk l P p f :
  pool_ok None l P -> Find p (page_table P) = Some f -> IsDirty (FrameAt f P) = false -> writer (FrameAt f P) = false ->
  page_bytes p (file (disk P)) = content p P.
Proof.
  intros K F D W. destruct (mapped_frame _ _ _ _ _ K F) as (_ & Hs & Hi & _ & _ & (_ & _ & _ & X)).
  rewrite Hs in X. destruct X as (_ & _ & _ & _ & _ & _ & X). unfold content. rewrite F, <- Hi. symmetry. by apply X.
Qed.

(** No dirty page is being written: what a flush would wait for. *)
Definition flushable (P : Pool) (f : Z) : Prop := IsDirty (FrameAt f P) = true -> writer (FrameAt f P) = false.

Lemma FlushPage_spec l P p :
  pool_ok None l P -> (forall f, Find p (page_table P) = Some f -> flushable P f) ->
  exists st P', FlushPage p P = Some (st, P') /\ pool_ok None l P' /\ preserves nothing P P' /\
    page_table P' = page_table P /\ page_count (disk P') = page_count (disk P) /\
    events (disk P') `suffix_of` events (disk P) /\
    (st = StatusOK \/ ok st = false) /\
    (st = StatusOK -> (latch p P).2 = false -> page_bytes p (file (disk P')) = content p P') /\
    (fault_free (events (disk P)) -> st = StatusOK).
Proof.
  intros K Hf. unfold FlushPage, bind at 1, get. cbv beta iota.
  destruct (Find p (page_table P)) as [f|] eqn:F.
  2: { eexists _, P. split; [done|]. split; [done|]. split; [reflexivity|]. split; [done|]. split; [done|]. split; [done|]. split; [by left|]. split; [|done].
       intros _ _. unfold content. by rewrite F. }
  destruct (flush_pinned_spec l P f p K F (Hf f eq_refl)) as (st & P' & E & (K' & Pv & Pc & Ev & Tb & _ & _ & (e & Fe) & So & Cl & Ff)).
  exists st, P'. unfold bind at 1, frame. cbv beta iota.
  destruct (mapped_frame _ _ _ _ _ K F) as (_ & Hs & _). rewrite bool_decide_false by (intros N; by apply N).
  split; [exact E|]. split; [done|]. split; [done|]. split; [done|]. split; [done|]. split; [done|]. split; [done|]. split; [|done].
  intros Hst Hw. eapply clean_on_disk; [done|by rewrite Tb|by apply Cl|]. rewrite Fe. cbn.
  unfold latch in Hw. by rewrite F in Hw.
Qed.

Lemma FlushAllPages_loop_spec n : forall id st l P,
  pool_ok None l P -> 0 <= id -> id + Z.of_nat n = capacity P ->
  (forall f, id <= f < capacity P -> flushable P f) -> (st = StatusOK \/ ok st = false) ->
  exists st' P', FlushAllPages_loop n id st P = Some (st', P') /\
    pool_ok None l P' /\ preserves nothing P P' /\ page_table P' = page_table P /\ shutdown P' = shutdown P /\
    page_count (disk P') = page_count (disk P) /\ events (disk P') `suffix_of` events (disk P) /\
    (forall g, 0 <= g < id -> FrameAt g P' = FrameAt g P) /\
    (st' = StatusOK \/ ok st' = false) /\
    (st' = StatusOK -> st = StatusOK /\
       forall g, id <= g < capacity P -> state (FrameAt g P') = Resident -> IsDirty (FrameAt g P') = false) /\
    (fault_free (events (disk P)) -> st = StatusOK -> st' = StatusOK).
Proof.
  induction n as [|n IH]; intros id st l P K Hid Hn Hfl Hst.
  { exists st, P. cbn [FlushAllPages_loop]. split; [done|]. split; [done|]. split; [reflexivity|].
    split; [done|]. split; [done|]. split; [done|]. split; [done|]. split; [done|]. split; [done|]. split; [|done].
    intros ->. split; [done|lia]. }
  cbn [FlushAllPages_loop]. unfold bind at 1, frame. cbv beta iota.
  destruct (pk_frames _ _ _ K id ltac:(lia)) as (_ & _ & _ & Fo).
  destruct (state (FrameAt id P)) eqn:Hs; try done.
  - rewrite bool_decide_true by done.
    destruct (IH (id + 1) st l P K ltac:(lia) ltac:(lia) ltac:(intros; apply Hfl; lia) Hst)
      as (st' & P' & E & K' & Pv & Tb & Sh & Pc & Ev & Lo & So & Ok' & Ff).
    exists st', P'. split; [done|]. split; [done|]. split; [done|]. split; [done|]. split; [done|]. split; [done|]. split; [done|].
    split; [intros g Hg; apply Lo; lia|]. split; [done|]. split; [|done].
    intros Est. destruct (Ok' Est) as [Es Cl]. split; [done|]. intros g Hg Sg.
    destruct (decide (g = id)) as [->|Ne]; [rewrite Lo in Sg by lia; congruence|apply Cl; [lia|done]].
  - rewrite bool_decide_false by (intros N; by apply N). destruct Fo as (_ & F & _).
    destruct (flush_pinned_spec l P id _ K F (Hfl id ltac:(lia)))
      as (s & P1 & E1 & (K1 & Pv1 & Pc1 & Ev1 & Tb1 & Sh1 & Oth & (e & Fe) & S1 & Cl1 & Ff1)).
    assert (Cap : capacity P1 = capacity P) by (unfold capacity; by rewrite (pv_cap _ _ _ Pv1)).
    set (st1 := if ok st && negb (ok s) then s else st).
    assert (H1 : st1 = StatusOK \/ ok st1 = false) by (unfold st1; destruct S1 as [->|S1], Hst as [->|Hst]; rewrite ?S1, ?Hst; auto).
    assert (H2 : st1 = StatusOK -> st = StatusOK /\ s = StatusOK).
    { unfold st1. destruct S1 as [->|S1], Hst as [->|Hst]; rewrite ?S1, ?Hst; cbn; try done; by intros ->. }
    destruct (IH (id + 1) st1 l P1 K1 ltac:(lia) ltac:(lia)
        ltac:(intros g Hg; unfold flushable; rewrite Oth by lia; apply Hfl; lia) H1)
      as (st' & P' & E & K' & Pv & Tb & Sh & Pc & Ev & Lo & So & Ok' & Ff).
    exists st', P'. split.
    { revert E1. unfold flush_pinned, bind, frame. cbv beta iota.
      destruct (update _ _ P) as [[[] Pa]|]; [|done]. destruct (FlushFrame _ _ Pa) as [[sa Pb]|]; [|done].
      destruct (UnpinPage _ Pb) as [[[] Pd]|]; [|done]. unfold ret. intros [= -> ->]. exact E. }
    split; [done|]. split; [by etrans|]. split; [congruence|]. split; [congruence|]. split; [congruence|]. split; [by etrans|].
    split; [intros g Hg; rewrite Lo, Oth by lia; done|]. split; [done|]. split.
    + intros Est. destruct (Ok' Est) as [Es Cl]. destruct (H2 Es) as [-> ->]. split; [done|]. intros g Hg Sg.
      destruct (decide (g = id)) as [->|Ne]; [rewrite Lo by lia; by apply Cl1|apply Cl; [lia|done]].
    + intros F' ->. apply Ff; [by eapply Forall_suffix|]. unfold st1. by rewrite Ff1.
Qed.

(** After a successful flush of everything the disk holds every page not being written. *)
Lemma FlushAllPages_spec l P :
  pool_ok None l P -> (forall f, 0 <= f < capacity P -> flushable P f) ->
  exists st P', FlushAllPages P = Some (st, P') /\ pool_ok None l P' /\ preserves nothing P P' /\
    shutdown P' = shutdown P /\ page_count (disk P') = page_count (disk P) /\
    events (disk P') `suffix_of` events (disk P) /\ (st = StatusOK \/ ok st = false) /\
    (st = StatusOK -> forall p, 2 <= p -> (latch p P).2 = false -> page_bytes p (file (disk P')) = content p P) /\
    (fault_free (events (disk P)) -> st = StatusOK).
Proof.
  intros K Hf. unfold FlushAllPages, bind, get. cbv beta iota.
  destruct (FlushAllPages_loop_spec (length (frames P)) 0 StatusOK l P K) as (st & P' & E & K' & Pv & Tb & Sh & Pc & Ev & _ & So & Ok' & Ff);
    try done; [by left|].
  exists st, P'. do 7 (split; [done|]). split; [|by intros F; apply Ff].
  intros Est p Hp Hl. destruct (Ok' Est) as [_ Cl]. rewrite <- (pv_content _ _ _ Pv p Hp) by (by intros []).
  destruct (Find p (page_table P')) as [f|] eqn:F; [|by unfold content; rewrite F].
  destruct (mapped_frame _ _ _ _ _ K' F) as (Hf' & Hs & _).
  assert (Cap : capacity P' = capacity P) by (unfold capacity; by rewrite (pv_cap _ _ _ Pv)). rewrite Cap in Hf'.
  eapply clean_on_disk; [done|done|by apply Cl|].
  rewrite <- (pv_latch _ _ _ Pv p) in Hl by (by intros []). unfold latch in Hl. by rewrite F in Hl.
Qed.

(** A move hands the pin over: the guard moved from drops nothing, and a guard that is assigned
    over drops what it held before it takes the other's page. *)
Lemma GuardMove_once g P : Drop (GuardMove g).2 P = Some ((GuardMove g).2, P).
Proof. done. Qed.
Lemma GuardMoveAssign_drops this other P this' P' :
  Drop this P = Some (this', P') -> GuardMoveAssign false this other P = Some (GuardMove other, P').
Proof. intros E. unfold GuardMoveAssign, bind. by rewrite E. Qed.

(** [Shutdown] on a quiescent pool. *)
Lemma Shutdown_spec l P fsync :
  pool_ok None l P -> shutdown P = false -> ndebug || Quiesced P = true -> (forall f, 0 <= f < capacity P -> flushable P f) ->
  exists st P', Shutdown fsync P = Some (st, P') /\ shutdown P' = true /\ pool_ok None l P' /\ preserves nothing P P' /\
    page_count (disk P') = page_count (disk P) /\
    (st = StatusOK -> fsync = true /\
       forall p, 2 <= p -> (latch p P).2 = false -> page_bytes p (file (disk P')) = content p P) /\
    (fault_free (events (disk P)) -> fsync = true -> st = StatusOK) /\
    Shutdown fsync P' = Some (StatusOK, P').
Proof.
  intros K Hs Hq Hf. unfold Shutdown at 1, bind at 1, get. cbv beta iota. rewrite Hs.
  unfold bind at 1, modify. unfold bind at 1, assert_. rewrite Hq. set (P0 := set_shutdown true P).
  assert (K0 : pool_ok None l P0) by (by destruct K).
  destruct (FlushAllPages_spec l P0 K0 Hf) as (st & P' & E & K' & Pv & Sh & Pc & Ev & So & D & Ff).
  unfold bind at 1. rewrite E. unfold bind, on_disk, Sync.
  assert (Pv' : preserves nothing P P') by (etrans; [|exact Pv]; by split).
  assert (Sd : forall x, shutdown P' = true -> Shutdown x P' = Some (StatusOK, P'))
    by (intros x H; unfold Shutdown, bind, get; by rewrite H).
  destruct fsync; cbn [negb]; cbv beta iota; rewrite set_disk_id; eexists _, P'; (split; [done|]).
  - split; [done|]. split; [done|]. split; [done|]. split; [exact Pc|]. split.
    { intros Est. split; [done|]. apply D. destruct So as [->|N]; [done|]. by rewrite N in Est. }
    split; [|by apply Sd]. intros F _. by rewrite Ff.
  - split; [done|]. split; [done|]. split; [done|]. split; [exact Pc|]. split; [|split; [done|by apply Sd]].
    intros Est. destruct So as [->|N]; [done|]. rewrite N in Est. by rewrite Est in N.
Qed.

(** ** Creating a page *)

Lemma fresh_page_spec p : is_s32 p -> len (fresh_page p) = PAGE_SIZE /\ loadable p (fresh_page p).
Proof.
  intros Hp. unfold fresh_page, loadable. set (h := mkPageHeader _ _ _ _ _ _ _ _ _).
  pose proof (PageHeader_len h) as L.
  rewrite len_patch, slice_patch_same, PageHeader_ReadFrom_WriteTo; rewrite ?length_zeros, ?L; try done.
Qed.

(** Everything of the pool but the disk is in order after the disk manager failed. *)
Definition disk_failed (E : Z -> Prop) (l : list Z) (P : Pool) (s : Status) (P' : Pool) : Prop :=
  exists d0, pool_ok None l (set_disk d0 P') /\ preserves E P (set_disk d0 P') /\ failed d0 l s (disk P') /\
    events d0 `suffix_of` events (disk P).

Definition created (l : list Z) (P : Pool) (r : Result PageGuard) (P' : Pool) : Prop :=
  match r with
  | Ok g => exists p f, g = open_guard true p f /\ p = default (page_count (disk P)) (head l) /\
      pool_ok None (tail l) P' /\ preserves (eq p) P P' /\ page_state p f (fresh_page p) 1 (0, true) P' /\
      page_count (disk P') = Z.max (page_count (disk P)) (p + 1)
  | Error s => ok s = false /\
      ((pool_ok None l P' /\ preserves nothing P P' /\ page_count (disk P') = page_count (disk P)) \/
       disk_failed nothing l P s P')
  end.

(** The page [AllocatePage] is about to hand out is not mapped. *)
Lemma next_page_unmapped x l P :
  pool_ok x l P -> Find (default (page_count (disk P)) (head l)) (page_table P) = None.
Proof.
  intros K. destruct (Find _ _) as [f|] eqn:F; [|done].
  destruct (pk_mapped _ _ _ K _ _ F) as (_ & _ & _ & N & B). destruct l; simpl in *; [lia|]. exfalso. apply N. by left.
Qed.

Lemma NewPage_spec l P :
  pool_ok None l P -> page_count (disk P) + 1 < 2 ^ 31 - 1 ->
  exists r P', NewPage P = Some (r, P') /\ created l P r P' /\
    events (disk P') `suffix_of` events (disk P) /\
    (fault_free (events (disk P)) -> has_room P -> exists g, r = Ok g).
Proof.
  intros K Hb. destruct (AcquireFrame_spec l P K) as (r & P1 & E1 & (Pv & Pc & Ps & Pf & A) & L).
  unfold NewPage, bind at 1. rewrite E1. destruct r as [f|s].
  2: { destruct A as [K1 N]. eexists _, _. split; [done|]. split; [split; [done|by left]|]. split; [done|].
       intros F H. by destruct (L F H). }
  unfold bind at 1, on_disk. pose proof (allocate_spec (disk P1) l (pk_disk _ _ _ A) ltac:(lia)) as D.
  pose proof (AllocatePage_events (disk P1)) as Ev. destruct (AllocatePage (disk P1)) as [[p|s] d']; simpl in Ev.
  2: { destruct D as [D Lv]. eexists _, _. split; [done|].
       assert (E : events (disk P) = events (disk P) /\ events d' `suffix_of` events (disk P)) by (split; [done|by etrans]).
       split; [split; [apply io_not_ok, D|]|split; [apply E|]].
       - right. exists (disk P1). split; [|split; [|by split]].
         + replace (set_disk (disk P1) _) with (set_free_list (Push f (free_list P1)) P1) by (by destruct P1). by apply pool_ok_give.
         + etrans; [exact Pv|]. by split.
       - intros F H. destruct Lv; [by eapply Forall_suffix|done]. }
  destruct D as [(D1 & D2 & D3 & D4 & D5 & D6 & D7) _].
  assert (Fp : Find p (page_table P1) = None) by (rewrite D1; by eapply next_page_unmapped).
  destruct (pk_private _ _ _ A f eq_refl) as [Hf Hsf].
  destruct (pk_frames _ _ _ A f Hf) as (_ & _ & _ & Fo). rewrite Hsf in Fo. destruct Fo as (_ & Fr & Fw & _).
  destruct (Insert_spec p f (page_table P1) (pk_table _ _ _ A) Fp) as (t & It & Kt & Ft).
  destruct (RecordAccess_spec f (replacer P1) (pk_rep _ _ _ A)) as (R1 & R2 & R3); [by apply (replacer_range _ _ _ _ A)|].
  destruct (dok_file _ _ D4) as [Hc _ _ _ _].
  destruct (fresh_page_spec p) as [Lf _]; [unfold is_s32; lia|].
  set (fr' := mkFrame (fresh_page p) 0 true 0 0 Resident p 1).
  set (P' := mkPool (<[Z.to_nat f := fr']> (frames P1)) (free_list P1) t (RecordAccess f (replacer P1)) d' (shutdown P1)).
  exists (Ok (open_guard true p f)), P'. split.
  { unfold bind, update, map_page, modify, try_update. change (FrameAt f (set_disk d' P1)) with (FrameAt f P1).
    change (capacity P1) with (capacity (set_disk d' P1)) in Hf.
    rewrite !set_frame_twice, !FrameAt_same; rewrite ?capacity_set; try done.
    cbn [page_table set_frame set_disk]. rewrite It.
    change (FrameAt f (set_replacer ?x (set_page_table ?y ?Q))) with (FrameAt f Q).
    rewrite FrameAt_same by done.
    unfold AcquireWrite. cbn [writer readers ResetEpochs set_epochs set_data set_meta]. rewrite Fr, Fw. cbn [orb]. cbv beta iota.
    unfold P', fr', ret, set_frame, set_replacer, set_page_table, set_disk; cbn. rewrite !list_insert_insert_eq. done. }
  destruct (pool_ok_claim l (tail l) P1 f p t fr' (RecordAccess f (replacer P1)) d' (shutdown P1) A Fp Kt Ft R1 R3 R2)
    as (K' & Pv' & Ff & Fa); try done; cbn; try lia.
  { intros q Hq. destruct l; [done|]. by right. } { intros q Hq Ne. apply D7; [lia|done]. }
  split; [|split; [by etrans|by intros _ _; eexists]].
  exists p, f. split; [done|]. split; [by rewrite <- Pc|]. split; [exact K'|]. split.
  { etrans; [|exact Pv']. by eapply preserves_weaken; [|exact Pv]. }
  split; [exact (page_state_intro p f fr' _ Ff Fa)|]. cbn. lia.
Qed.

(** ** Deleting a page *)

(** The disk gives up an unmapped page [p]. *)
Lemma pool_ok_disk l l' P p d' :
  pool_ok None l P -> Find p (page_table P) = None -> disk_ok d' l' ->
  (forall q, q ∈ l' -> q = p \/ q ∈ l) -> page_count (disk P) <= page_count d' ->
  (forall q, 2 <= q -> q <> p -> page_bytes q (file d') = page_bytes q (file (disk P))) ->
  pool_ok None l' (set_disk d' P) /\ preserves (eq p) P (set_disk d' P).
Proof.
  intros K Fp Kd Hl Hc Hb. split; [split; try apply K; try done|split; try done].
  - intros f Hf. eapply frame_ok_ext; [by apply K|done|done|done|]. intros _ H2 F. split; [done|].
    apply Hb; [done|]. intros E. by rewrite E, Fp in F.
  - intros q f F. destruct (pk_mapped _ _ _ K q f F) as (A & B & C & D & E). split; [done|]. split; [done|].
    split; [done|]. split; [|simpl; lia]. intros Hq. destruct (Hl q Hq) as [->|]; [simpl in F; congruence|done].
  - intros q Hq Ne. unfold content. simpl. destruct (Find q (page_table P)); [done|]. apply Hb; [done|]. congruence.
Qed.

Definition deleted (l : list Z) (P : Pool) (p : Z) (st : Status) (P' : Pool) : Prop :=
  (code st = kInvalidArgument /\ P' = P /\ (p < 2 \/ page_count (disk P) <= p \/ 0 < pins p P)) \/
  (2 <= p < page_count (disk P) /\ pins p P = 0 /\ Find p (page_table P') = None /\
   events (disk P') `suffix_of` events (disk P) /\
   ((st = StatusOK /\ preserves (eq p) P P' /\ page_count (disk P') = page_count (disk P) /\
     ((ph_page_type (hdr p (file (disk P))) = FREE /\ file (disk P') = file (disk P) /\ pool_ok None l P') \/
      (ph_page_type (hdr p (file (disk P))) <> FREE /\ pool_ok None (p :: l) P'))) \/
    disk_failed (eq p) l P st P')).

(** The disk side: refused, already free, freed, or an I/O error. *)
Lemma dealloc_cases p d l :
  disk_ok d l -> 2 <= p < page_count d ->
  let '(st, d') := DeallocatePage p d in
  (st = StatusOK /\ page_count d' = page_count d /\
   (forall q, 2 <= q -> q <> p -> page_bytes q (file d') = page_bytes q (file d)) /\
   ((ph_page_type (hdr p (file d)) = FREE /\ file d' = file d /\ disk_ok d' l) \/
    (ph_page_type (hdr p (file d)) <> FREE /\ disk_ok d' (p :: l)))) \/ failed d l st d'.
Proof.
  intros D Hp. pose proof (dealloc_spec p d l D Hp) as S. destruct (DeallocatePage p d) as [st d'].
  destruct S as [(-> & B & Ad)|[(-> & B & _ & D' & Pc & _ & Q)|S]]; [left|left|by right].
  - destruct (advanced_same _ _ Ad) as (A1 & A2 & _). split; [done|]. split; [done|]. split; [by rewrite A1|].
    left. split; [done|]. split; [done|]. by eapply advanced_ok.
  - split; [done|]. split; [done|]. split; [intros q Hq; apply Q; lia|]. by right.
Qed.

Lemma DeletePage_mapped l P p f :
  pool_ok None l P -> Find p (page_table P) = Some f -> pins p P = 0 ->
  exists st P', DeletePage p P = Some (st, P') /\ deleted l P p st P'.
Proof.
  intros K F Hn. destruct (mapped_frame _ _ _ _ _ K F) as (Hf & Hs & Hi & Hp & Np & Fo).
  assert (Hn' : pin_count (FrameAt f P) = 0) by (unfold pins in Hn; by rewrite F in Hn).
  unfold DeletePage. destruct (Z.eqb_spec p META_PAGE_ID), (Z.eqb_spec p CATALOG_ROOT_PAGE_ID); try (unfold_consts; lia).
  cbn [orb]. unfold bind at 1, get. rewrite F. unfold bind at 1, frame. rewrite Hn'. cbn [negb Z.eqb].
  unfold bind at 1. rewrite assert_ok by by rewrite bool_decide_eq_true.
  unfold bind, update, modify, on_disk. cbn [disk set_replacer set_page_table set_frame]. rewrite Hn'.
  set (fr' := ResetEpochs (set_meta Free INVALID_PAGE 0 (FrameAt f P))).
  pose proof (proj2 (replacer_range _ _ _ f K) Hf) as Hr.
  destruct (SetEvictable_spec f false (replacer P) (pk_rep _ _ _ K) Hr) as (S1 & S2 & S3).
  assert (V : forall l' d', disk_ok d' l' -> (forall q, q ∈ l' -> q = p \/ q ∈ l) -> page_count (disk P) <= page_count d' ->
     (forall q, 2 <= q -> q <> p -> page_bytes q (file d') = page_bytes q (file (disk P))) ->
     let P' := mkPool (<[Z.to_nat f := fr']> (frames P)) (Push f (free_list P)) (Erase p (page_table P))
                 (SetEvictable f false (replacer P)) d' (shutdown P) in
     pool_ok None l' P' /\ preserves (eq p) P P').
  { intros l' d' D1 D2 D3 D4 P'. destruct Fo as (Ld & _).
    destruct (pool_ok_vacated l l' P f p (SetEvictable f false (replacer P)) d' fr' (shutdown P) K F Hn' S1 ltac:(by rewrite S3)
      S2 D1 D2 D3 D4 Ld ltac:(done)) as (K' & Pv & _).
    split; [exact (pool_ok_give _ _ _ K')|]. etrans; [exact Pv|]. by split. }
  pose proof (dealloc_cases p (disk P) l (pk_disk _ _ _ K) Hp) as D. pose proof (DeallocatePage_events p (disk P)) as Ev.
  destruct (DeallocatePage p (disk P)) as [st d'].
  eexists _, _. split; [done|]. right. split; [done|]. split; [done|].
  split; [cbn; rewrite Find_Erase by apply K; by case_decide|]. split; [done|].
  destruct D as [(-> & D1 & D2 & D3)|D]; [left|right].
  - split; [done|]. destruct D3 as [(D3 & D5 & D4)|[D3 D4]].
    + destruct (V l d' D4 ltac:(auto) ltac:(lia) D2) as [K' Pv]. split; [exact Pv|]. split; [done|]. left. done.
    + destruct (V (p :: l) d' D4 ltac:(intros q [->|Hq]%elem_of_cons; auto) ltac:(lia) D2) as [K' Pv].
      split; [exact Pv|]. split; [done|]. right. done.
  - destruct (V l (disk P) (pk_disk _ _ _ K) ltac:(auto) ltac:(lia) ltac:(done)) as [K' Pv]. by exists (disk P).
Qed.

Lemma DeletePage_spec l P p :
  pool_ok None l P -> exists st P', DeletePage p P = Some (st, P') /\ deleted l P p st P'.
Proof.
  intros K. pose proof (latch_pins _ _ _ p K) as [L1 L2].
  assert (0 <= pins p P) by (destruct (latch p P).2; lia).
  destruct (Find p (page_table P)) as [f|] eqn:F.
  - destruct (decide (pins p P = 0)) as [Hn|Hn]; [by eapply DeletePage_mapped|].
    destruct (mapped_frame _ _ _ _ _ K F) as (_ & _ & _ & Hp & _).
    assert (Hn' : pin_count (FrameAt f P) <> 0) by (unfold pins in Hn; by rewrite F in Hn).
    unfold DeletePage. destruct (Z.eqb_spec p META_PAGE_ID), (Z.eqb_spec p CATALOG_ROOT_PAGE_ID); try (unfold_consts; lia).
    cbn [orb]. unfold bind at 1, get. rewrite F. unfold bind at 1, frame. destruct (Z.eqb_spec (pin_count (FrameAt f P)) 0); [done|].
    eexists _, _. split; [done|]. left. split; [done|]. split; [done|]. right; right. lia.
  - unfold DeletePage. destruct ((p =? META_PAGE_ID) || (p =? CATALOG_ROOT_PAGE_ID)) eqn:Rs.
    { eexists _, _. split; [done|]. left. split; [done|]. split; [done|]. left.
      apply orb_true_iff in Rs as [Rs|Rs]; apply Z.eqb_eq in Rs; unfold_consts; lia. }
    unfold bind, get, on_disk. rewrite F. destruct (decide (2 <= p < page_count (disk P))) as [Hp|Hp].
    + pose proof (dealloc_cases p (disk P) l (pk_disk _ _ _ K) Hp) as D.
      pose proof (DeallocatePage_events p (disk P)) as Ev. destruct (DeallocatePage p (disk P)) as [st d'].
      eexists _, _. split; [done|]. right. split; [done|]. split; [unfold pins; by rewrite F|]. split; [done|]. split; [done|].
      destruct D as [(-> & D1 & D2 & D3)|D]; [left|right; exists (disk P)].
      * split; [done|]. destruct D3 as [(D3 & D5 & D4)|[D3 D4]];
          (destruct (pool_ok_disk l _ P p d' K F D4) as [K' Pv]; [| |done|split; [done|]; split; [done|]; auto]); lia || auto.
        intros q [->|Hq]%elem_of_cons; auto.
      * change (set_disk (disk P) (set_disk d' P)) with (set_disk (disk P) P). rewrite set_disk_id. split; [done|]. by split; [reflexivity|].
    + destruct (dealloc_refused p (disk P)) as [m ->]; [lia| |].
      { apply (dok_file _ _ (pk_disk _ _ _ K)). }
      eexists _, _. rewrite set_disk_id. split; [done|]. left. split; [done|]. split; [done|]. lia.
Qed.
End lifecycle.
