(* ===== verification/PoolEpochs.v ===== *)
(** * Buffer pool: dirty epochs only grow when a write guard is dropped

    [keeps m]: running [m] raises no frame's dirty epoch.  A compositional argument over the
    sequencing of calls: every operation but [Drop] keeps the epochs, so [n] drops after the
    pool was created no epoch exceeds [n] and [MarkDirty] cannot wrap. *)

From stdpp Require Import gmap.
From S2P Require Import Prelude Common DiskManager DiskProofs Replacer PoolIndex BufferPool BufferPoolOps.

Definition below (N : Z) (P : Pool) : Prop := Forall (fun fr => dirty_epoch fr <= N) (frames P).

Definition keeps {A} (m : M A) : Prop :=
  forall N P a P', 0 <= N -> below N P -> m P = Some (a, P') -> below N P'.

(** A change of one frame that does not raise its dirty epoch above a bound it met. *)
Definition lowers (g : Frame -> Frame) : Prop :=
  forall N fr, 0 <= N -> dirty_epoch fr <= N -> dirty_epoch (g fr) <= N.

Lemma below_set N f fr P : below N P -> dirty_epoch fr <= N -> below N (set_frame f fr P).
Proof. intros B H. by apply Forall_insert. Qed.

Lemma below_FrameAt N f P : 0 <= N -> below N P -> dirty_epoch (FrameAt f P) <= N.
Proof.
  intros HN B. unfold FrameAt. rewrite list_lookup_total_alt.
  destruct (frames P !! Z.to_nat f) as [fr|] eqn:E; [|done]. by apply (Forall_lookup_1 _ _ _ _ B E).
Qed.

Lemma keeps_bind {A B} (m : M A) (k : A -> M B) : keeps m -> (forall a, keeps (k a)) -> keeps (bind m k).
Proof.
  intros Hm Hk N P b P' HN HP. unfold bind. destruct (m P) as [[a Q]|] eqn:E; [|done].
  apply Hk; [done|]. by eapply Hm.
Qed.

Lemma keeps_ret {A} (a : A) : keeps (ret a).
Proof. by intros N P b P' _ H [= _ <-]. Qed.
Lemma keeps_get : keeps get.
Proof. by intros N P b P' _ H [= _ <-]. Qed.
Lemma keeps_stuck {A} : keeps (@stuck A).
Proof. by intros N P b P' _ H E. Qed.
Lemma keeps_frame f : keeps (frame f).
Proof. by intros N P b P' _ H [= _ <-]. Qed.
Lemma keeps_modify g : (forall P, frames (g P) = frames P) -> keeps (modify g).
Proof. intros Hg N P b P' _ H [= _ <-]. unfold below. by rewrite Hg. Qed.
Lemma keeps_update f g : lowers g -> keeps (update f g).
Proof.
  intros Hg N P b P' HN H [= _ <-]. apply below_set; [done|]. apply Hg; [done|]. by apply below_FrameAt.
Qed.
Lemma keeps_try_update f g :
  (forall fr fr', g fr = Some fr' -> dirty_epoch fr' = dirty_epoch fr) -> keeps (try_update f g).
Proof.
  intros Hg N P b P' HN H. unfold try_update. destruct (g (FrameAt f P)) as [fr|] eqn:E; [|done].
  intros [= _ <-]. apply below_set; [done|]. rewrite (Hg _ _ E). by apply below_FrameAt.
Qed.
Lemma keeps_map_page p f : keeps (map_page p f).
Proof. intros N P b P' _ H. unfold map_page. destruct (Insert _ _ _); [|done]. by intros [= _ <-]. Qed.
Lemma keeps_if {A} (b : bool) (m m' : M A) : keeps m -> keeps m' -> keeps (if b then m else m').
Proof. by destruct b. Qed.

Create HintDb keeps.
#[export] Hint Resolve keeps_ret keeps_get keeps_stuck keeps_frame keeps_map_page : keeps.

(** Walk the calls of a definition; what is left is about single frames. *)
Ltac keeps :=
  repeat match goal with
  | |- keeps (bind _ _) => apply keeps_bind; [|intros ?]
  | |- keeps (if _ then _ else _) => apply keeps_if
  | |- keeps (modify _) => apply keeps_modify; done
  | |- keeps (update _ _) => apply keeps_update; intros ? ? ? ?; cbn; done || lia
  | |- keeps (match ?x with _ => _ end) => destruct x
  | |- keeps (let '(_, _) := ?x in _) => destruct x
  | |- _ => solve [auto with keeps]
  end.

Section epochs.
Context {errno_text : ErrnoText} {host : Host}.

Lemma keeps_assert (b : bool) : keeps (assert_ b).
Proof. intros N P a P' _ H. unfold assert_. destruct (_ || _); [by intros [= _ <-]|done]. Qed.
Lemma keeps_on_disk {A} (op : Disk -> A * Disk) : keeps (on_disk op).
Proof. intros N P b P' _ H. unfold on_disk. destruct (op (disk P)). by intros [= _ <-]. Qed.
Hint Resolve keeps_assert keeps_on_disk : keeps.

Lemma keeps_AcquireRead f : keeps (try_update f AcquireRead).
Proof. apply keeps_try_update. intros fr fr'. unfold AcquireRead. destruct (writer fr); [done|]. by intros [= <-]. Qed.
Lemma keeps_AcquireWrite f : keeps (try_update f AcquireWrite).
Proof. apply keeps_try_update. intros fr fr'. unfold AcquireWrite. destruct (_ || _); [done|]. by intros [= <-]. Qed.
Lemma keeps_MarkFlushed f D : keeps (update f (MarkFlushed D)).
Proof. apply keeps_update. intros N fr _ H. unfold MarkFlushed. by destruct (_ <? _). Qed.
Hint Resolve keeps_AcquireRead keeps_AcquireWrite keeps_MarkFlushed : keeps.

Lemma keeps_UnpinPage f : keeps (UnpinPage f).
Proof. unfold UnpinPage. keeps. Qed.
Lemma keeps_FlushFrame f p : keeps (FlushFrame f p).
Proof. unfold FlushFrame. keeps. Qed.
Hint Resolve keeps_UnpinPage keeps_FlushFrame : keeps.

Lemma keeps_FlushPage p : keeps (FlushPage p).
Proof. unfold FlushPage. keeps. Qed.
Lemma keeps_FlushAllPages : keeps FlushAllPages.
Proof.
  unfold FlushAllPages. apply keeps_bind; [auto with keeps|]. intros P. generalize 0 as id, StatusOK as st.
  induction (length (frames P)) as [|n IH]; intros id st; cbn [FlushAllPages_loop]; [auto with keeps|].
  keeps; apply IH.
Qed.

Lemma keeps_AcquireFrame : keeps AcquireFrame.
Proof.
  assert (R : forall n, keeps (ReclaimFrame_loop n)).
  { induction n as [|n IH]; cbn [ReclaimFrame_loop]; unfold vacate; [auto with keeps|]. keeps; apply IH. }
  unfold AcquireFrame, ReclaimFrame. keeps; apply R.
Qed.
Hint Resolve keeps_AcquireFrame : keeps.

Lemma keeps_FetchFrame p : keeps (FetchFrame p).
Proof. unfold FetchFrame. cbn [FetchFrame_loop]. unfold FetchFrame_hit, FetchFrame_load, AbandonLoad. keeps. Qed.
Hint Resolve keeps_FetchFrame : keeps.

Lemma keeps_FetchPage w p : keeps (FetchPage w p).
Proof. unfold FetchPage, FetchPageRead, FetchPageWrite. keeps. Qed.
Lemma keeps_NewPage : keeps NewPage.
Proof. unfold NewPage. keeps. Qed.
Lemma keeps_DeletePage p : keeps (DeletePage p).
Proof. unfold DeletePage. keeps. Qed.

(** The one operation that dirties a page bumps one epoch by one. *)
Lemma Drop_below g N P r P' :
  0 <= N < 2 ^ 64 - 1 -> below N P -> Forall (fun fr => 0 <= dirty_epoch fr) (frames P) ->
  Drop g P = Some (r, P') -> below (N + 1) P'.
Proof.
  intros HN B Pos. unfold Drop. destruct (g_live g); cbn [negb].
  2: { intros [= _ <-]. eapply Forall_impl; [exact B|]. cbn. lia. }
  assert (K : keeps (UnpinPage (g_frame g) ;; ret (mkGuard (g_write g) (g_frame g) (g_page g) false))) by keeps.
  assert (L : forall Q fr, below (N + 1) Q -> dirty_epoch fr <= N + 1 -> below (N + 1) (set_frame (g_frame g) fr Q)) by (intros; by apply below_set).
  assert (B' : below (N + 1) P) by (eapply Forall_impl; [exact B|]; cbn; lia).
  unfold bind at 1. destruct (g_write g).
  - unfold bind at 1, update. intros E. eapply K; [| |exact E]; [lia|].
    assert (Hd : dirty_epoch (MarkDirty (FrameAt (g_frame g) P)) <= N + 1).
    { cbn. pose proof (below_FrameAt N (g_frame g) P ltac:(lia) B) as H.
      assert (0 <= dirty_epoch (FrameAt (g_frame g) P)).
      { unfold FrameAt. rewrite list_lookup_total_alt. destruct (frames P !! _) as [fr|] eqn:Ef; [|done].
        by apply (Forall_lookup_1 _ _ _ _ Pos Ef). }
      rewrite u64_id by (unfold is_u64; lia). lia. }
    assert (B1 : below (N + 1) (set_frame (g_frame g) (MarkDirty (FrameAt (g_frame g) P)) P)) by by apply L.
    apply L; [done|]. cbn. by apply below_FrameAt; [lia|].
  - unfold update. intros E. eapply K; [| |exact E]; [lia|]. apply L; [done|]. cbn. apply below_FrameAt; [lia|done].
Qed.
End epochs.
