(* ===== verification/PoolSteady.v ===== *)
(** * Buffer pool: what every operation of a client keeps, whatever it does

    A steady pool is on a disk that answers, whose file ends with its last page, has whole
    pages in its frames, and keeps its shutdown flag.  [steadies R m]: running [m] on a steady pool
    leaves a steady pool and an answer of which [R] holds.  Every operation a client can call
    but [Shutdown] has it, by a walk over its calls.  So [Shutdown] will still flush a pool in
    use, and the file it leaves is one [DiskManager::Open] accepts. *)

From stdpp Require Import gmap.
From S2P Require Import Prelude Common DiskManager DiskProofs Replacer PoolIndex BufferPool BufferPoolProofs BufferPoolOps.

(** ** The disk manager *)

Record snug (d : Disk) : Prop := {
  sn_quiet : fault_free (events d);
  sn_count : 2 <= page_count d;
  sn_len : len (file d) = page_count d * PAGE_SIZE
}.

Lemma snug_advanced d d' : advanced d d' -> snug d -> snug d'.
Proof. intros (evs & -> & S) [F C L]. split; cbn; try done. by eapply Forall_suffix. Qed.

(** A write within the pages of the file. *)
Lemma snug_wrote p bs d s d' :
  wrote (PageOffset p) bs d s d' -> snug d -> 0 <= p < page_count d -> len bs <= PAGE_SIZE -> snug d'.
Proof.
  intros [C _ S O] [F C2 L] Hp Lb. split; [by eapply Forall_suffix|lia|]. destruct O as [[_ ->]|(_ & NF & _)]; [|done].
  unfold PageOffset. unfold_consts. rewrite len_file_write; lia.
Qed.

Section disk.
Context {errno_text : ErrnoText} {host : Host}.

Lemma snug_ReadPage p bs d : snug d -> snug (ReadPage p bs d).2 /\ length (ReadPage p bs d).1.2 = length bs.
Proof.
  intros Sn. unfold ReadPage, validate_page_access, valid_page. destruct (_ =? _); [done|].
  destruct (Z.leb_spec 0 p); [|done]. destruct (p <? page_count d); [|done]. cbn.
  pose proof (full_read_spec (PageOffset p) bs d ltac:(unfold PageOffset; unfold_consts; lia)) as R.
  pose proof (full_read_length (PageOffset p) bs d ltac:(unfold PageOffset; unfold_consts; lia)) as Lr.
  destruct (full_read _ _ _) as [[s out] d']. split; [|done]. by eapply snug_advanced; [apply R|].
Qed.

Lemma snug_WritePage p bs d : snug d -> len bs = PAGE_SIZE -> snug (WritePage p bs d).2.
Proof.
  intros Sn Lb. unfold WritePage, validate_page_access, valid_page. destruct (_ =? _); [done|].
  destruct (Z.leb_spec 0 p); [|done]. destruct (Z.ltb_spec p (page_count d)); [|done]. cbn.
  pose proof (full_write_wrote (PageOffset p) bs d) as W. rewrite (sn_len _ Sn) in W. specialize (W ltac:(unfold PageOffset; unfold_consts; lia)).
  destruct (full_write _ _ _) as [s d']. eapply snug_wrote; [exact W|done|lia|lia].
Qed.

Lemma snug_read_header p d : snug d -> snug (read_page_header p d).2 /\ page_count (read_page_header p d).2 = page_count d.
Proof.
  intros Sn. unfold read_page_header, valid_page. destruct (Z.leb_spec 0 p); [|done]. destruct (p <? page_count d); [|done]. cbn.
  pose proof (full_read_spec (PageOffset p) (indeterminate PAGE_HEADER_SIZE) d ltac:(unfold PageOffset; unfold_consts; lia)) as R.
  destruct (full_read _ _ _) as [[s out] d']. destruct R as [Ad _]. assert (C : page_count d' = page_count d) by (by destruct Ad as (? & -> & _)).
  destruct (negb (ok s)); (split; [by eapply snug_advanced|done]).
Qed.

Lemma snug_write_header p h d : snug d -> 0 <= p < page_count d ->
  snug (write_page_header p h d).2 /\ page_count (write_page_header p h d).2 = page_count d.
Proof.
  intros Sn Hp. pose proof (write_page_header_wrote p h d ltac:(lia)) as W. rewrite (sn_len _ Sn) in W.
  specialize (W ltac:(unfold PageOffset; unfold_consts; lia)). destruct (write_page_header _ _ _) as [s d']. split; [|apply W].
  eapply snug_wrote; [exact W|done|lia|]. by rewrite PageHeader_len.
Qed.

(** A header read names a page in range. *)
Lemma read_header_range p d h d' : read_page_header p d = (Ok h, d') -> 0 <= p < page_count d.
Proof. unfold read_page_header, valid_page. destruct (Z.leb_spec 0 p), (Z.ltb_spec p (page_count d)); cbn; done || lia. Qed.

Lemma snug_set_head h d : snug d -> snug (set_freelist_head h d).
Proof. by intros [F C L]. Qed.

Lemma snug_reuse d p : snug d -> 0 <= p < page_count d -> forall h h',
  let '(s, d1) := persist_freelist_head h d in snug d1 /\ snug (write_page_header p h' d1).2.
Proof.
  intros Sn Hp h h'. unfold persist_freelist_head. pose proof (snug_write_header META_PAGE_ID (typed_header META h INVALID_PAGE) d Sn) as S1.
  destruct (write_page_header META_PAGE_ID _ d) as [s d1]. destruct S1 as [S1 C1]; [pose proof (sn_count _ Sn); unfold_consts; lia|]. cbn in *. split; [done|]. apply snug_write_header; [done|lia].
Qed.

(** A page more behind the last one. *)
Lemma snug_extend d h :
  snug d ->
  let '(s, d1) := write_empty_page (page_count d) d in
  ok s = true /\ let '(s2, d2) := write_page_header (page_count d) h d1 in ok s2 = true /\ snug (set_page_count (page_count d + 1) d2).
Proof.
  intros [F C L]. pose proof (write_empty_page_wrote (page_count d) d ltac:(lia) ltac:(rewrite L; unfold PageOffset; lia)) as W.
  destruct (write_empty_page _ d) as [s d1]. destruct W as [C1 _ S1 O1]. destruct O1 as [[-> E1]|(_ & NF & _)]; [|done]. split; [done|].
  assert (L1 : len (file d1) = (page_count d + 1) * PAGE_SIZE).
  { rewrite E1. unfold PageOffset. rewrite len_file_write by (rewrite L; unfold_consts; lia). rewrite length_zeros. unfold_consts. lia. }
  pose proof (write_page_header_wrote (page_count d) h d1 ltac:(lia) ltac:(rewrite L1; unfold PageOffset; unfold_consts; lia)) as W.
  destruct (write_page_header _ h d1) as [s2 d2]. destruct W as [C2 _ S2 O2].
  assert (F1 : fault_free (events d1)) by (by eapply Forall_suffix). destruct O2 as [[-> E2]|(_ & NF & _)]; [|done]. split; [done|].
  split; cbn; [by eapply Forall_suffix|lia|]. rewrite E2. unfold PageOffset. rewrite len_file_write by (rewrite L1; unfold_consts; lia).
  rewrite PageHeader_len, L1. unfold_consts. lia.
Qed.

Lemma snug_AllocatePage d : snug d -> snug (AllocatePage d).2.
Proof.
  intros Sn. unfold AllocatePage. destruct (negb _).
  - pose proof (snug_read_header (freelist_head d) d Sn) as S1.
    destruct (read_page_header (freelist_head d) d) as [[ph|s] d1] eqn:Er; [|apply S1]. cbn in S1. destruct S1 as [S1 C1]. apply read_header_range in Er.
    case_decide; [done|]. pose proof (snug_reuse d1 (freelist_head d) S1 ltac:(lia) (ph_next_page_id ph) (typed_header ALLOCATED INVALID_PAGE INVALID_PAGE)) as S2.
    destruct (persist_freelist_head _ d1) as [s d2]. destruct S2 as [S2 S3]. destruct (negb (ok s)); [done|].
    destruct (write_page_header _ _ d2) as [s' d3]. cbn in S3. destruct (negb (ok s')); [done|]. by apply snug_set_head.
  - pose proof (snug_extend d (typed_header ALLOCATED INVALID_PAGE INVALID_PAGE) Sn) as S1. destruct (write_empty_page _ d) as [s d1]. destruct S1 as [-> S1]. cbn [negb].
    destruct (write_page_header _ _ d1) as [s' d2]. by destruct S1 as [-> S1].
Qed.

Lemma snug_DeallocatePage p d : snug d -> snug (DeallocatePage p d).2.
Proof.
  intros Sn. unfold DeallocatePage. destruct (_ =? _); [done|]. destruct (negb (ok (validate_page_access p d))); [done|].
  pose proof (snug_read_header p d Sn) as S1.
  destruct (read_page_header p d) as [[ph|s] d1] eqn:Er; [|apply S1]. cbn in S1. destruct S1 as [S1 C1]. apply read_header_range in Er. case_decide; [done|].
  pose proof (snug_write_header p (typed_header FREE (freelist_head d1) INVALID_PAGE) d1 S1 ltac:(lia)) as S2.
  destruct (write_page_header p _ d1) as [s d2]. cbn in S2. destruct S2 as [S2 _]. destruct (negb (ok s)); [done|].
  pose proof (snug_write_header META_PAGE_ID (typed_header META p INVALID_PAGE) d2 S2 ltac:(pose proof (sn_count _ S2); unfold_consts; lia)) as S3.
  unfold persist_freelist_head. destruct (write_page_header META_PAGE_ID _ d2) as [s' d3]. cbn in S3. destruct S3 as [S3 _]. destruct (negb (ok s')); [done|]. by apply snug_set_head.
Qed.
End disk.

(** ** The pool *)

Record steady (down : bool) (P : Pool) : Prop := {
  st_down : shutdown P = down;
  st_disk : snug (disk P);
  st_data : Forall (fun f => len (data f) = PAGE_SIZE) (frames P)
}.

Definition steadies {A} (R : A -> Prop) (m : M A) : Prop :=
  forall down P a P', m P = Some (a, P') -> steady down P -> steady down P' /\ R a.

Abbreviation steadily := (steadies (fun _ => True)).

Lemma steadies_bind {A B} R (R' : B -> Prop) (m : M A) k :
  steadies R m -> (forall a, R a -> steadies R' (k a)) -> steadies R' (bind m k).
Proof.
  intros Hm Hk down P b P'. unfold bind. destruct (m P) as [[a Q]|] eqn:E; [|done]. intros E' St.
  destruct (Hm _ _ _ _ E St) as [St' Ra]. by apply (Hk a Ra _ _ _ _ E').
Qed.

Lemma steadies_ret {A} (a : A) : steadily (ret a).
Proof. by intros down P b P' [= _ <-]. Qed.
Lemma steadies_get : steadily get.
Proof. by intros down P b P' [= _ <-]. Qed.
Lemma steadies_stuck {A} : steadily (@stuck A).
Proof. by intros down P b P' E. Qed.
Lemma steadies_frame f : steadies (fun fr => len (data fr) = PAGE_SIZE) (frame f).
Proof.
  intros down P b P' [= <- <-] [O D F]. split; [done|]. unfold FrameAt. rewrite list_lookup_total_alt.
  destruct (frames P !! Z.to_nat f) as [fr|] eqn:E; [by apply (Forall_lookup_1 _ _ _ _ F E)|]. cbn. by rewrite length_zeros.
Qed.

Lemma steady_new d n : snug d -> steady false (new_Pool d n).
Proof. intros Sn. split; [done|done|]. apply Forall_replicate. cbn. by rewrite length_zeros. Qed.

(** A change of something else than frames, disk and flag. *)
Definition elsewhere (g : Pool -> Pool) : Prop :=
  forall P, frames (g P) = frames P /\ disk (g P) = disk P /\ shutdown (g P) = shutdown P.

Lemma steadies_modify g : elsewhere g -> steadily (modify g).
Proof. intros Hg down P b P' [= _ <-] [O D F]. destruct (Hg P) as (E1 & E2 & E3). split; [|done]. split; congruence. Qed.

Lemma steady_set_frame down id fr P : steady down P -> len (data fr) = PAGE_SIZE -> steady down (set_frame id fr P).
Proof. intros [O D F] L. split; cbn; try done. by apply Forall_insert. Qed.

Lemma steadies_update f g : (forall fr, len (data fr) = PAGE_SIZE -> len (data (g fr)) = PAGE_SIZE) -> steadily (update f g).
Proof.
  intros Hg down P b P' [= _ <-] St. split; [|done]. apply steady_set_frame; [done|]. apply Hg. by destruct (steadies_frame f _ P _ _ eq_refl St).
Qed.

Lemma steadies_try_update f g :
  (forall fr fr', g fr = Some fr' -> data fr' = data fr) -> steadily (try_update f g).
Proof.
  intros Hg down P b P'. unfold try_update. destruct (g _) as [fr|] eqn:E; [|done]. intros [= _ <-] St. split; [|done].
  apply steady_set_frame; [done|]. rewrite (Hg _ _ E). by destruct (steadies_frame f _ P _ _ eq_refl St).
Qed.

Lemma steadies_map_page p f : steadily (map_page p f).
Proof. intros down P b P'. unfold map_page. destruct (Insert _ _ _); [|done]. by intros [= _ <-] [O D F]. Qed.

Lemma steadies_on_disk {A} (R : A -> Prop) (op : Disk -> A * Disk) :
  (forall d, snug d -> snug (op d).2 /\ R (op d).1) -> steadies R (on_disk op).
Proof.
  intros Ho down P b P'. unfold on_disk. intros E [O D F]. specialize (Ho _ D). destruct (op (disk P)) as [a d]. injection E as <- <-.
  cbn in Ho. destruct Ho as [Sd Ra]. split; [|done]. by split.
Qed.

Lemma AcquireRead_data fr fr' : AcquireRead fr = Some fr' -> data fr' = data fr.
Proof. unfold AcquireRead. destruct (writer fr); [done|]. by intros [= <-]. Qed.
Lemma AcquireWrite_data fr fr' : AcquireWrite fr = Some fr' -> data fr' = data fr.
Proof. unfold AcquireWrite. destruct (_ || _); [done|]. by intros [= <-]. Qed.

Lemma MarkFlushed_data n fr : len (data fr) = PAGE_SIZE -> len (data (MarkFlushed n fr)) = PAGE_SIZE.
Proof. unfold MarkFlushed. by destruct (_ <? _). Qed.

Create HintDb steady.
#[export] Hint Resolve steadies_ret steadies_get steadies_stuck steadies_map_page AcquireRead_data AcquireWrite_data MarkFlushed_data : steady.

(** Walk the calls of a definition. *)
Ltac steady_step :=
  match goal with
  | |- steadies _ (bind (frame _) _) => eapply steadies_bind; [apply steadies_frame|intros ? ?]
  | |- steadies _ (bind (if _ then _ else _) _) => eapply (steadies_bind (fun _ => True)); [|intros ? _]
  | |- steadies _ (bind _ _) => eapply (steadies_bind (fun _ => True)); [|intros ? _]
  | |- steadies _ (if ?b then _ else _) => destruct b
  | |- steadies _ (modify _) => apply steadies_modify; done
  | |- steadies _ (update _ _) => apply steadies_update; solve [done|auto with steady]
  | |- steadies _ (try_update _ _) => apply steadies_try_update; solve [auto with steady]
  | |- steadies _ (match ?x with _ => _ end) => destruct x
  | |- steadies _ (let '(_, _) := ?x in _) => destruct x
  | |- _ => solve [auto with steady]
  end.

Section pool.
Context {errno_text : ErrnoText} {host : Host}.

Lemma steadies_assert (b : bool) : steadily (assert_ b).
Proof. intros down P a P'. unfold assert_. destruct (_ || _); [by intros [= _ <-]|done]. Qed.
Lemma steadies_write p bs : len bs = PAGE_SIZE -> steadily (on_disk (WritePage p bs)).
Proof. intros L. apply steadies_on_disk. intros d Sn. split; [by apply snug_WritePage|done]. Qed.
Lemma steadies_allocate : steadily (on_disk AllocatePage).
Proof. apply steadies_on_disk. intros d Sn. split; [by apply snug_AllocatePage|done]. Qed.
Lemma steadies_deallocate p : steadily (on_disk (DeallocatePage p)).
Proof. apply steadies_on_disk. intros d Sn. split; [by apply snug_DeallocatePage|done]. Qed.
Hint Resolve steadies_assert steadies_write steadies_allocate steadies_deallocate : steady.

Lemma steadies_UnpinPage f : steadily (UnpinPage f).
Proof. unfold UnpinPage. repeat steady_step. Qed.
Lemma steadies_FlushFrame f p : steadily (FlushFrame f p).
Proof. unfold FlushFrame. repeat steady_step. Qed.
Hint Resolve steadies_UnpinPage steadies_FlushFrame : steady.

Lemma steadies_FlushPage p : steadily (FlushPage p).
Proof. unfold FlushPage. repeat steady_step. Qed.
Lemma steadies_FlushAllPages : steadily FlushAllPages.
Proof.
  unfold FlushAllPages. steady_step; [auto with steady|]. generalize 0 as id, StatusOK as st.
  induction (length (frames a)) as [|n IH]; intros id st; cbn [FlushAllPages_loop]; [auto with steady|].
  repeat (apply IH || steady_step).
Qed.

(** [Shutdown] sets the flag and keeps the rest. *)
Lemma steady_Shutdown fsync P st P' : Shutdown fsync P = Some (st, P') -> steady false P -> steady true P'.
Proof.
  unfold Shutdown. unfold bind at 1. unfold get. cbv beta iota. intros E [O D F]. rewrite O in E. unfold bind at 1, modify in E.
  unfold bind at 1, assert_ in E. destruct (_ || _); [|done]. assert (St : steady true (set_shutdown true P)) by (by split).
  assert (W : steadily (let* st := FlushAllPages in let* sync := on_disk (Sync fsync) in ret (if ok st then sync else st))).
  { steady_step; [apply steadies_FlushAllPages|]. steady_step; [|auto with steady]. apply steadies_on_disk. intros d Sn. unfold Sync. by destruct (negb _). }
  by apply (W _ _ _ _ E St).
Qed.

Lemma steadies_AcquireFrame : steadily AcquireFrame.
Proof.
  assert (R : forall n, steadily (ReclaimFrame_loop n)).
  { induction n as [|n IH]; cbn [ReclaimFrame_loop]; unfold vacate; [auto with steady|]. repeat (apply IH || steady_step). }
  unfold AcquireFrame, ReclaimFrame. repeat (apply R || steady_step).
Qed.
Hint Resolve steadies_AcquireFrame : steady.

Lemma steadies_load f p : steadily (FetchFrame_load f p).
Proof.
  unfold FetchFrame_load, AbandonLoad. do 2 (steady_step; [steady_step|]). steady_step.
  eapply (steadies_bind (fun r => len r.2 = PAGE_SIZE)).
  - apply steadies_on_disk. intros d Sn. pose proof (snug_ReadPage p (data a1) d Sn) as R.
    destruct (ReadPage p (data a1) d) as [[s out] d']. cbn in *. split; [apply R|]. rewrite (proj2 R). done.
  - intros [st bytes] L. cbn in L. steady_step; [by apply steadies_update|]. repeat steady_step.
Qed.
Hint Resolve steadies_load : steady.

Lemma steadies_FetchFrame p : steadily (FetchFrame p).
Proof. unfold FetchFrame. cbn [FetchFrame_loop]. unfold FetchFrame_hit. repeat steady_step. Qed.
Hint Resolve steadies_FetchFrame : steady.

Lemma steadies_FetchPage w p : steadily (FetchPage w p).
Proof. unfold FetchPage, FetchPageRead, FetchPageWrite. repeat steady_step. Qed.
Lemma steadies_NewPage : steadily NewPage.
Proof. unfold NewPage. repeat steady_step. Qed.
Lemma steadies_DeletePage p : steadily (DeletePage p).
Proof. unfold DeletePage. repeat steady_step. Qed.
Lemma steadies_Drop g : steadily (Drop g).
Proof. unfold Drop. repeat steady_step. Qed.
End pool.
