(* ===== verification/PoolRefine.v ===== *)
(** * The buffer pool as a page store

    What the pool promises its clients (the heap file and the B+tree): a finite map from the
    allocated pages to their bytes, guards that read and write them, and errors that leave the
    map alone.  Frames, eviction, write-back, epochs and the page table do not show.
    [exec] runs one client call on the pool; [spec_step] is the store. *)

From stdpp Require Import gmap.
From S2P Require Import Prelude Common DiskManager DiskProofs DiskTheorems Replacer PoolIndex BufferPool.
From S2P Require Import BufferPoolProofs BufferPoolOps BufferPoolLifecycle PoolEpochs.

(** ** Client calls *)

Inductive HeaderEdit :=
  | EType (t : PageType) | EFlags (v : Z) | ENext (p : Z) | EPrev (p : Z).

Definition edit_header (e : HeaderEdit) : PageHeader -> PageHeader :=
  match e with EType t => with_type t | EFlags v => with_flags v | ENext p => with_next p | EPrev p => with_prev p end.

Definition run_edit (g : PageGuard) (e : HeaderEdit) : M unit :=
  match e with EType t => SetPageType g t | EFlags v => SetFlags g v | ENext p => SetNextPageId g p
             | EPrev p => SetPrevPageId g p end.

(** Guards are named by the order in which they were opened. *)
Inductive Op :=
  | OFetch (w : bool) (p : Z)
  | ONew
  | ODelete (p : Z)
  | ORead (i : nat)
  | OSetBody (i : nat) (body : list byte)
  | OEdit (i : nat) (e : HeaderEdit)
  | ODrop (i : nat)
  | OFlush (p : Z)
  | OFlushAll.

Inductive Out :=
  | OutOpen (p : Z)
  | OutError (s : Status)
  | OutPage (h : PageHeader) (body : list byte)
  | OutStatus (s : Status)
  | OutUnit.

Record Client := mkClient { pool : Pool; held : list PageGuard }.

Section exec.
Context {errno_text : ErrnoText} {host : Host}.

Definition opening (m : M (Result PageGuard)) (c : Client) : option (Out * Client) :=
  match m (pool c) with
  | None => None
  | Some (Ok g, P) => Some (OutOpen (g_page g), mkClient P (held c ++ [g]))
  | Some (Error s, P) => Some (OutError s, mkClient P (held c))
  end.

Definition status (m : M Status) (c : Client) : option (Out * Client) :=
  match m (pool c) with None => None | Some (s, P) => Some (OutStatus s, mkClient P (held c)) end.

Definition writing (i : nat) (m : PageGuard -> M unit) (c : Client) : option (Out * Client) :=
  match held c !! i with
  | Some g => match m g (pool c) with None => None | Some (_, P) => Some (OutUnit, mkClient P (held c)) end
  | None => None
  end.

Definition exec (o : Op) (c : Client) : option (Out * Client) :=
  match o with
  | OFetch w p => opening (FetchPage w p) c
  | ONew => opening NewPage c
  | ODelete p => status (DeletePage p) c
  | ORead i =>
      match held c !! i with
      | Some g => Some (OutPage (GuardHeader g (pool c)) (GuardBody g (pool c)), c)
      | None => None
      end
  | OSetBody i body => writing i (fun g => GuardSetBody g body) c
  | OEdit i e => writing i (fun g => run_edit g e) c
  | ODrop i =>
      match held c !! i with
      | Some g => match Drop g (pool c) with
                  | None => None
                  | Some (g, P) => Some (OutUnit, mkClient P (<[i := g]> (held c)))
                  end
      | None => None
      end
  | OFlush p => status (FlushPage p) c
  | OFlushAll => status FlushAllPages c
  end.

(** A client program: it chooses its next call by the answers so far.  [run n] makes its first
    [n] calls and returns them with their answers. *)
Inductive Program :=
  | Stop
  | Call (o : Op) (k : Out -> Program).

Fixpoint run (n : nat) (g : Program) (c : Client) : option (list (Op * Out) * Client) :=
  match n, g with
  | S n, Call o k =>
      match exec o c with
      | None => None
      | Some (out, c) => match run n (k out) c with None => None | Some (tr, c) => Some ((o, out) :: tr, c) end
      end
  | _, _ => Some ([], c)
  end.
End exec.

(** ** The store *)

Record Handle := mkHandle { h_write : bool; h_page : Z; h_live : bool }.
Record Store := mkStore { pages : gmap Z (list byte); opens : list Handle }.

Definition holds (w : bool) (p : Z) (h : Handle) : bool :=
  h_live h && Bool.eqb (h_write h) w && (h_page h =? p).

(** How many guards of kind [w] are open on page [p], and how many in all. *)
Fixpoint holders (w : bool) (p : Z) (os : list Handle) : Z :=
  match os with [] => 0 | h :: os => (if holds w p h then 1 else 0) + holders w p os end.
Definition live (os : list Handle) : Z := len (filter (fun h => h_live h = true) os).

(** What the client must respect: reserved pages are not its own, it asks for no page id below
    [INVALID_PAGE] in a build with assertions, it does not wait for a
    latch it holds itself, and it writes only through open write guards. *)
Definition enabled {host : Host} (s : Store) (o : Op) : Prop :=
  match o with
  | OFetch w p => fetchable p /\ holders true p (opens s) = 0 /\
      (w = true -> holders false p (opens s) = 0)
  | ONew | ODelete _ => True
  | ORead i => exists h, opens s !! i = Some h /\ h_live h = true
  | OSetBody i body => len body = PAGE_BODY_SIZE /\
      exists h, opens s !! i = Some h /\ h_live h = true /\ h_write h = true
  | OEdit i _ => exists h, opens s !! i = Some h /\ h_live h = true /\ h_write h = true
  | ODrop i => exists h, opens s !! i = Some h
  | OFlush p => holders true p (opens s) = 0
  | OFlushAll => forall p, holders true p (opens s) = 0
  end.

Definition page_header (bs : list byte) : PageHeader := PageHeader_ReadFrom (slice 0 PAGE_HEADER_SIZE bs).
Definition page_body (bs : list byte) : list byte := slice PAGE_HEADER_SIZE PAGE_BODY_SIZE bs.
Definition edit_page (e : HeaderEdit) (bs : list byte) : list byte :=
  patch 0 (PageHeader_WriteTo (edit_header e (page_header bs))) bs.

(** [cap] is the number of frames, [io] says whether the file may fail.  A call that meets a
    failing read or write answers an error and the store is as it was: a page that could not be
    loaded, a victim that could not be written back, a flush that did not get through. *)
Inductive spec_step (io : Prop) (cap : Z) (s : Store) : Op -> Out -> Store -> Prop :=
  | sp_fetch w p bs :
      pages s !! p = Some bs ->
      spec_step io cap s (OFetch w p) (OutOpen p) (mkStore (pages s) (opens s ++ [mkHandle w p true]))
  | sp_fetch_error w p e :
      ok e = false -> (forall bs, pages s !! p = Some bs -> loadable p bs -> cap <= live (opens s)) ->
      spec_step io cap s (OFetch w p) (OutError e) s
  | sp_new p :
      2 <= p -> pages s !! p = None ->
      spec_step io cap s ONew (OutOpen p)
        (mkStore (<[p := fresh_page p]> (pages s)) (opens s ++ [mkHandle true p true]))
  | sp_new_full e :
      ok e = false -> cap <= live (opens s) -> spec_step io cap s ONew (OutError e) s
  | sp_delete p :
      holders false p (opens s) = 0 -> holders true p (opens s) = 0 ->
      spec_step io cap s (ODelete p) (OutStatus StatusOK) (mkStore (delete p (pages s)) (opens s))
  | sp_delete_refused p e :
      code e = kInvalidArgument ->
      (pages s !! p = None \/ 0 < holders false p (opens s) + holders true p (opens s)) ->
      spec_step io cap s (ODelete p) (OutStatus e) s
  | sp_read i h bs :
      opens s !! i = Some h -> pages s !! h_page h = Some bs ->
      spec_step io cap s (ORead i) (OutPage (page_header bs) (page_body bs)) s
  | sp_body i body h bs :
      opens s !! i = Some h -> pages s !! h_page h = Some bs ->
      spec_step io cap s (OSetBody i body) OutUnit
        (mkStore (<[h_page h := patch PAGE_HEADER_SIZE body bs]> (pages s)) (opens s))
  | sp_edit i e h bs :
      opens s !! i = Some h -> pages s !! h_page h = Some bs ->
      spec_step io cap s (OEdit i e) OutUnit (mkStore (<[h_page h := edit_page e bs]> (pages s)) (opens s))
  | sp_drop i h :
      opens s !! i = Some h ->
      spec_step io cap s (ODrop i) OutUnit
        (mkStore (pages s) (<[i := mkHandle (h_write h) (h_page h) false]> (opens s)))
  | sp_flush p : spec_step io cap s (OFlush p) (OutStatus StatusOK) s
  | sp_flush_all : spec_step io cap s OFlushAll (OutStatus StatusOK) s
  | sp_fetch_io w p e : io -> ok e = false -> spec_step io cap s (OFetch w p) (OutError e) s
  | sp_new_io e : io -> ok e = false -> spec_step io cap s ONew (OutError e) s
  | sp_flush_io p e : io -> ok e = false -> spec_step io cap s (OFlush p) (OutStatus e) s
  | sp_flush_all_io e : io -> ok e = false -> spec_step io cap s OFlushAll (OutStatus e) s.

Inductive spec_run (io : Prop) (cap : Z) : Store -> list (Op * Out) -> Store -> Prop :=
  | sp_done s : spec_run io cap s [] s
  | sp_more s o out s' tr s'' :
      spec_step io cap s o out s' -> spec_run io cap s' tr s'' -> spec_run io cap s ((o, out) :: tr) s''.

(** A client whose every call is allowed, whatever the store answered before. *)
Fixpoint disciplined {host : Host} (io : Prop) (cap : Z) (g : Program) (s : Store) : Prop :=
  match g with
  | Stop => True
  | Call o k => enabled s o /\ forall out s', spec_step io cap s o out s' -> disciplined io cap (k out) s'
  end.

(** ** Counting guards *)

Lemma holders_app w p a b : holders w p (a ++ b) = holders w p a + holders w p b.
Proof. induction a as [|h a IH]; simpl; lia. Qed.

Lemma holders_nonneg w p os : 0 <= holders w p os.
Proof. induction os as [|h os IH]; simpl; [lia|]. destruct (holds w p h); lia. Qed.

Lemma holders_insert w p os i h h' :
  os !! i = Some h ->
  holders w p (<[i := h']> os) =
    holders w p os - (if holds w p h then 1 else 0) + (if holds w p h' then 1 else 0).
Proof.
  revert i. induction os as [|x os IH]; intros [|i] H; simplify_eq/=; [lia|]. rewrite (IH i H). lia.
Qed.

Lemma holders_pos w p os i h : os !! i = Some h -> holds w p h = true -> 0 < holders w p os.
Proof.
  revert i. induction os as [|x os IH]; intros [|i] H Hh; simplify_eq/=.
  - rewrite Hh. pose proof (holders_nonneg w p os). lia.
  - pose proof (IH i H Hh). destruct (holds w p x); lia.
Qed.

Lemma holders_witness w p os : 0 < holders w p os -> exists i h, os !! i = Some h /\ holds w p h = true.
Proof.
  induction os as [|x os IH]; simpl; [lia|]. destruct (holds w p x) eqn:E; [by exists 0%nat, x|].
  intros H. destruct (IH ltac:(lia)) as (i & h & Hi & Hh). by exists (S i), h.
Qed.

Lemma holds_true w p h : holds w p h = true <-> h_live h = true /\ h_write h = w /\ h_page h = p.
Proof.
  unfold holds. rewrite !andb_true_iff, Bool.eqb_true_iff, Z.eqb_eq. tauto.
Qed.
