(* ===== verification/PoolRefineProofs.v ===== *)
(** * The buffer pool refines the page store: the simulation *)

From stdpp Require Import gmap.
From S2P Require Import Prelude Common DiskManager DiskProofs DiskTheorems Replacer PoolIndex BufferPool.
From S2P Require Import BufferPoolProofs BufferPoolOps BufferPoolLifecycle PoolEpochs PoolRefine.

Definition handle_of (g : PageGuard) : Handle := mkHandle (g_write g) (g_page g) (g_live g).

(** A schedule has a failure or it has none. *)
Lemma fault_free_dec evs : fault_free evs \/ ~ fault_free evs.
Proof.
  induction evs as [|e evs IH]; [left; constructor|]. unfold fault_free in *. rewrite Forall_cons.
  assert (Hd : match e with EvErr n => n = EINTR | EvXfer _ => True end \/
               ~ match e with EvErr n => n = EINTR | EvXfer _ => True end).
  { destruct e as [k|k]; [by left|]. destruct (decide (k = EINTR)); tauto. }
  tauto.
Qed.

Section sim.
Context {io : Prop}.

(** Pages are what the store says; a page the store does not have is free, or its header says
    so and it is not resident; latches and pins are exactly the open guards; [n] more calls
    cannot overflow page ids or epochs.  The file fails only if [io] says it may. *)
Record sim (n : Z) (s : Store) (c : Client) (l : list Z) : Prop := {
  sim_pool : pool_ok None l (pool c);
  sim_quiet : io \/ fault_free (events (disk (pool c)));
  sim_pages : forall p bs, pages s !! p = Some bs ->
    2 <= p < page_count (disk (pool c)) /\ (p ∉ l) /\ content p (pool c) = bs;
  sim_gone : forall p, 2 <= p < page_count (disk (pool c)) -> p ∉ l -> pages s !! p = None ->
    Find p (page_table (pool c)) = None /\ ~ loadable p (content p (pool c));
  sim_opens : opens s = handle_of <$> held c;
  sim_held : forall i g, held c !! i = Some g -> g_live g = true ->
    Find (g_page g) (page_table (pool c)) = Some (g_frame g);
  sim_latch : forall p, latch p (pool c) = (holders false p (opens s), 0 <? holders true p (opens s));
  sim_pins : forall p, pins p (pool c) = holders false p (opens s) + holders true p (opens s);
  sim_excl : forall p, 0 < holders true p (opens s) -> holders true p (opens s) = 1 /\ holders false p (opens s) = 0;
  sim_budget : page_count (disk (pool c)) + n < 2 ^ 31 - 1 /\
    exists N, 0 <= N /\ N + n < 2 ^ 64 - 1 /\ below N (pool c)
}.

Lemma sim_mono n n' s c l : n' <= n -> sim n s c l -> sim n' s c l.
Proof.
  intros Hn S. destruct S as [A1 A2 A3 A4 A5 A6 A7 A8 A9 [B (N & N1 & N2 & N3)]]. split; try done.
  split; [lia|]. exists N. split; [done|]. split; [lia|done].
Qed.

(** The facts about one page that a call on it has to establish. *)
Record page_sim (p : Z) (s : Store) (P : Pool) (gs : list PageGuard) (l : list Z) : Prop := {
  ps_page : forall bs, pages s !! p = Some bs -> 2 <= p < page_count (disk P) /\ (p ∉ l) /\ content p P = bs;
  ps_gone : 2 <= p < page_count (disk P) -> p ∉ l -> pages s !! p = None ->
    Find p (page_table P) = None /\ ~ loadable p (content p P);
  ps_held : forall i g, gs !! i = Some g -> g_live g = true -> g_page g = p -> Find p (page_table P) = Some (g_frame g);
  ps_latch : latch p P = (holders false p (opens s), 0 <? holders true p (opens s));
  ps_pins : pins p P = holders false p (opens s) + holders true p (opens s);
  ps_excl : 0 < holders true p (opens s) -> holders true p (opens s) = 1 /\ holders false p (opens s) = 0
}.

Lemma sim_page n s c l p : sim n s c l -> page_sim p s (pool c) (held c) l.
Proof.
  intros S. destruct S. split; auto. intros i g Hi Hl <-. eauto.
Qed.

(** A live guard is one of the holders of its page. *)
Lemma held_holders n s c l i g :
  sim n s c l -> held c !! i = Some g -> g_live g = true ->
  opens s !! i = Some (handle_of g) /\ 0 < holders (g_write g) (g_page g) (opens s) /\ 0 < pins (g_page g) (pool c).
Proof.
  intros S Hi Hl. assert (Ho : opens s !! i = Some (handle_of g)).
  { rewrite (sim_opens _ _ _ _ S), list_lookup_fmap, Hi. done. }
  assert (H : 0 < holders (g_write g) (g_page g) (opens s)).
  { eapply holders_pos; [done|]. by apply holds_true. }
  split; [done|]. split; [done|]. rewrite (sim_pins _ _ _ _ S).
  pose proof (holders_nonneg true (g_page g) (opens s)). pose proof (holders_nonneg false (g_page g) (opens s)).
  destruct (g_write g); lia.
Qed.

Definition budget (n : Z) (P : Pool) : Prop :=
  page_count (disk P) + n < 2 ^ 31 - 1 /\ exists N, 0 <= N /\ N + n < 2 ^ 64 - 1 /\ below N P.

(** A call that touched only page [p]: the other pages are as they were. *)
Lemma sim_next n n' s c l s' P' gs l' p :
  sim n s c l -> pool_ok None l' P' -> preserves (eq p) (pool c) P' ->
  events (disk P') `suffix_of` events (disk (pool c)) -> budget n' P' ->
  page_count (disk (pool c)) <= page_count (disk P') ->
  (forall q, q <> p -> q < page_count (disk P') -> q < page_count (disk (pool c))) ->
  (forall q, q <> p -> q ∈ l' <-> q ∈ l) ->
  (forall q, q <> p -> pages s' !! q = pages s !! q) ->
  opens s' = handle_of <$> gs ->
  (forall q w, q <> p -> holders w q (opens s') = holders w q (opens s)) ->
  (forall i g, gs !! i = Some g -> g_live g = true -> g_page g <> p -> exists j, held c !! j = Some g) ->
  page_sim p s' P' gs l' ->
  sim n' s' (mkClient P' gs) l'.
Proof.
  intros S K Pv Ev Bd Pc Pc' Hl Hp Ho Hh Hg [A1 A2 A3 A4 A5 A6].
  assert (Ct : forall q, 2 <= q -> q <> p -> content q P' = content q (pool c)) by (intros; by apply (pv_content _ _ _ Pv)).
  split; cbn [pool held].
  - done.
  - destruct (sim_quiet _ _ _ _ S) as [Q|Q]; [by left|right]. by eapply Forall_suffix.
  - intros q bs Hq. destruct (decide (q = p)) as [->|Ne]; [by apply A1|]. rewrite Hp in Hq by done.
    destruct (sim_pages _ _ _ _ S q bs Hq) as (B1 & B2 & B3). split; [lia|]. rewrite Hl, Ct by (done || lia). done.
  - intros q Hq Nl Hn. destruct (decide (q = p)) as [->|Ne]; [by apply A2|]. rewrite Hp in Hn by done. rewrite Hl in Nl by done.
    destruct (sim_gone _ _ _ _ S q ltac:(split; [lia|apply Pc'; [done|lia]]) Nl Hn) as [G1 G2]. rewrite Ct by (done || lia).
    split; [|done]. by apply (pv_unmapped _ _ _ Pv).
  - done.
  - intros i g Hi Hlv. destruct (decide (g_page g = p)) as [E|Ne]; [subst p; by eapply A3|].
    destruct (Hg i g Hi Hlv Ne) as [j Hj]. destruct (held_holders _ _ _ _ _ _ S Hj Hlv) as (_ & _ & H).
    apply (pv_frame _ _ _ Pv); [done|by eapply sim_held|done].
  - intros q. destruct (decide (q = p)) as [->|Ne]; [done|]. rewrite (pv_latch _ _ _ Pv), !Hh by done. apply S.
  - intros q. destruct (decide (q = p)) as [->|Ne]; [done|]. rewrite (pv_pins _ _ _ Pv), !Hh by done. apply S.
  - intros q. destruct (decide (q = p)) as [->|Ne]; [done|]. rewrite !Hh by done. apply S.
  - done.
Qed.

(** A call that changed nothing the client sees. *)
Lemma sim_same n n' s c l P' :
  sim n s c l -> pool_ok None l P' -> preserves nothing (pool c) P' ->
  events (disk P') `suffix_of` events (disk (pool c)) -> budget n' P' ->
  page_count (disk P') = page_count (disk (pool c)) ->
  sim n' s (mkClient P' (held c)) l.
Proof.
  intros S K Pv Ev Bd Pc. eapply (sim_next n n' s c l s P' (held c) l (-1)); try done.
  - by eapply preserves_weaken; [|exact Pv].
  - lia.
  - intros q _ Hq. lia.
  - apply S.
  - eauto.
  - assert (Nn : ~ nothing (-1)) by (by intros []).
    destruct (sim_page _ _ _ _ (-1) S) as [B1 B2 B3 B4 B5 B6]. split; try lia.
    + intros bs H. destruct (B1 bs H) as (B & _). lia.
    + intros i g Hi Hlv Hg. destruct (held_holders _ _ _ _ _ _ S Hi Hlv) as (_ & _ & Hpos). rewrite Hg in Hpos.
      apply (pv_frame _ _ _ Pv); [done|by eapply B3|done].
    + by rewrite (pv_latch _ _ _ Pv).
    + by rewrite (pv_pins _ _ _ Pv).
Qed.

(** Every frame pinned takes at least as many guards as there are frames. *)
Lemma sim_room n s c l : sim n s c l -> live (opens s) < capacity (pool c) -> has_room (pool c).
Proof.
  intros S Hlt. destruct (decide (Exists (fun fr => pin_count fr = 0) (frames (pool c)))) as [E|E].
  - apply Exists_exists in E as (fr & Hin & Hp). apply list_elem_of_lookup in Hin as [i Hi].
    exists (Z.of_nat i). split; [apply lookup_lt_Some in Hi; unfold capacity; lia|].
    unfold FrameAt. rewrite Nat2Z.id. by rewrite (list_lookup_total_correct _ _ _ Hi).
  - exfalso. assert (Hin : forall f, f ∈ seqZ 0 (capacity (pool c)) ->
      f ∈ (g_frame <$> filter (fun g => g_live g = true) (held c))).
    { intros f Hf. apply elem_of_seqZ in Hf.
      assert (Np : pin_count (FrameAt f (pool c)) <> 0).
      { intros N. apply E. apply Exists_exists. exists (FrameAt f (pool c)). split; [|done].
        unfold FrameAt. apply list_elem_of_lookup. exists (Z.to_nat f). apply list_lookup_lookup_total_lt. unfold capacity in *. lia. }
      destruct (pk_frames _ _ _ (sim_pool _ _ _ _ S) f ltac:(lia)) as (_ & _ & R & D).
      destruct (state (FrameAt f (pool c))); try done; [by destruct D|].
      destruct D as (_ & F & _ & _ & D & _). set (p := page_id (FrameAt f (pool c))) in *.
      assert (Hp : 0 < holders false p (opens s) + holders true p (opens s)).
      { rewrite <- (sim_pins _ _ _ _ S). unfold pins. rewrite F. destruct (writer _); lia. }
      assert (Hw : exists w, 0 < holders w p (opens s)).
      { pose proof (holders_nonneg true p (opens s)). destruct (decide (0 < holders false p (opens s))); [by exists false|exists true; lia]. }
      destruct Hw as [w Hw]. destruct (holders_witness _ _ _ Hw) as (i & h & Hi & Hh). apply holds_true in Hh as (H1 & _ & H3).
      rewrite (sim_opens _ _ _ _ S), list_lookup_fmap in Hi. destruct (held c !! i) as [g|] eqn:Eg; [|done].
      injection Hi as <-. cbn in H1, H3. pose proof (sim_held _ _ _ _ S i g Eg H1) as Fg. rewrite H3, F in Fg.
      apply list_elem_of_fmap. exists g. split; [congruence|]. apply list_elem_of_filter. split; [done|]. by eapply list_elem_of_lookup_2. }
    assert (L : forall gs, length (filter (fun h => h_live h = true) (handle_of <$> gs)) = length (filter (fun g => g_live g = true) gs)).
    { induction gs as [|g gs IH]; [done|]. rewrite fmap_cons, !filter_cons. cbn. case_decide; simpl; by rewrite IH. }
    pose proof (submseteq_length _ _ (NoDup_submseteq _ _ (NoDup_seqZ _ _) Hin)) as Hlen.
    rewrite length_fmap, <- L, <- (sim_opens _ _ _ _ S), length_seqZ in Hlen. unfold live, capacity in *. lia.
Qed.

Section steps.
Context {errno_text : ErrnoText} {host : Host}.

(** Calls that keep the epochs use up one unit of the budget. *)
Lemma budget_keeps {A} (m : M A) n s c l a P' :
  sim (n + 1) s c l -> keeps m -> m (pool c) = Some (a, P') ->
  page_count (disk P') <= page_count (disk (pool c)) + 1 -> budget n P'.
Proof.
  intros S K E Pc. destruct (sim_budget _ _ _ _ S) as [B (N & N1 & N2 & N3)]. split; [lia|].
  exists N. split; [done|]. split; [lia|]. by eapply K.
Qed.

Definition step_ok (n : Z) (s : Store) (o : Op) (c : Client) : Prop :=
  exists out c' s' l', exec o c = Some (out, c') /\ capacity (pool c') = capacity (pool c) /\
    spec_step io (capacity (pool c)) s o out s' /\ sim n s' c' l'.

(** The two calls that change the page map on disk may also answer an I/O error of the disk
    manager; what the file then holds is the subject of DiskTheorems.v. *)
Definition gave_up (o : Op) (out : Out) : Prop :=
  io /\ exists st, code st = kIOError /\
    ((o = ONew /\ out = OutError st) \/ exists p, o = ODelete p /\ out = OutStatus st).
Definition step_ends (n : Z) (s : Store) (o : Op) (c : Client) : Prop :=
  step_ok n s o c \/ exists out c', exec o c = Some (out, c') /\ gave_up o out.

Lemma quiet_fails n s c l : sim n s c l -> ~ fault_free (events (disk (pool c))) -> io.
Proof. intros S F. by destruct (sim_quiet _ _ _ _ S). Qed.

Lemma cap_preserved E P P' : preserves E P P' -> capacity P' = capacity P.
Proof. intros Pv. unfold capacity. by rewrite (pv_cap _ _ _ Pv). Qed.

Lemma step_fetch n s c l w p : sim (n + 1) s c l -> enabled s (OFetch w p) -> step_ok n s (OFetch w p) c.
Proof.
  intros S (Np & Hw & Hr). pose proof (sim_page _ _ _ _ p S) as [B1 B2 B3 B4 B5 B6].
  assert (Hc : compatible w (latch p (pool c))).
  { rewrite B4, Hw. unfold compatible. destruct w; [|done]. by rewrite Hr. }
  destruct (FetchPage_spec l (pool c) w p (sim_pool _ _ _ _ S) Np Hc) as (r & P' & E & (K' & Pc & Ev & R) & L).
  assert (Bd : budget n P') by (eapply budget_keeps; [done|apply keeps_FetchPage|done|lia]).
  unfold step_ok, exec, opening. rewrite E. destruct r as [g|e].
  2: { destruct R as [Pv N]. eexists _, _, s, l. split; [done|]. split; [by eapply cap_preserved|]. split.
       - destruct (sim_quiet _ _ _ _ S) as [Hio|Q]; [by apply sp_fetch_io|].
         apply sp_fetch_error; [done|]. intros bs Hp Hl. destruct (B1 bs Hp) as (X1 & X2 & X3).
         destruct (decide (live (opens s) < capacity (pool c))) as [Hlt|]; [|lia].
         destruct L as [g Hg]; [done|done| |done]. intros _. rewrite X3. split; [by eapply sim_room|done].
       - by eapply sim_same. }
  destruct R as (f & -> & Pv & PS & R1 & R2). cbn [g_page open_guard].
  destruct (page_state_inv _ _ _ _ _ _ PS) as (Ff & _). destruct PS as (_ & P1 & P2 & P3).
  destruct (mapped_frame _ _ _ _ _ K' Ff) as (_ & _ & _ & Hp & Nl & _). rewrite Pc in Hp.
  destruct (pages s !! p) as [bs|] eqn:Hpg.
  2: { destruct (B2 Hp Nl eq_refl) as [G1 G2]. by destruct (G2 (R2 G1)). }
  destruct (B1 bs eq_refl) as (_ & _ & X).
  eexists _, _, _, l. split; [done|]. split; [by eapply cap_preserved|]. split; [by eapply sp_fetch|].
  eapply (sim_next _ _ _ _ _ _ _ _ _ p S K' Pv Ev Bd); cbn [pages opens]; try done; try lia.
  - rewrite (sim_opens _ _ _ _ S), fmap_app. done.
  - intros q w' Ne. rewrite holders_app. cbn [holders]. unfold holds; cbn. destruct (Z.eqb_spec p q); [done|]. rewrite !andb_false_r. lia.
  - intros i g Hi Hlv Ne. apply lookup_app_Some in Hi as [Hi|[_ Hi]]; [by eexists|].
    apply list_lookup_singleton_Some in Hi as [_ <-]. done.
  - assert (Hh : forall w', holders w' p (opens s ++ [mkHandle w p true]) = holders w' p (opens s) + if Bool.eqb w w' then 1 else 0).
    { intros w'. rewrite holders_app. cbn [holders]. unfold holds; cbn. rewrite Z.eqb_refl, andb_true_r. lia. }
    split; cbn [pages opens]; rewrite ?Hh.
    + intros bs' Hb. rewrite Pc, P1. split; [done|]. split; [done|]. congruence.
    + intros _ _. by rewrite Hpg.
    + intros i g Hi Hlv Hg. apply lookup_app_Some in Hi as [Hi|[_ Hi]].
      * destruct (held_holders _ _ _ _ _ _ S Hi Hlv) as (_ & _ & Hpos). rewrite Hg in Hpos. specialize (R1 Hpos).
        rewrite (B3 i g Hi Hlv Hg) in R1. congruence.
      * apply list_lookup_singleton_Some in Hi as [_ <-]. done.
    + rewrite P3, B4, Hw. unfold latched. destruct w; cbn; f_equal; lia.
    + rewrite P2, B5. destruct w; cbn; lia.
    + rewrite Hw. destruct w; cbn; [|lia]. rewrite Hr by done. lia.
Qed.

Lemma step_new n s c l : sim (n + 1) s c l -> 0 <= n -> step_ends n s ONew c.
Proof.
  intros S Hn. destruct (sim_budget _ _ _ _ S) as [B _].
  destruct (NewPage_spec l (pool c) (sim_pool _ _ _ _ S) ltac:(lia)) as (r & P' & E & C & Ev & L).
  unfold step_ends, step_ok, exec, opening. rewrite E. destruct r as [g|e].
  2: { destruct C as [N [(K' & Pv & Pc)|(d0 & _ & _ & (Io & F & _) & Ev0)]].
       2: { right. eexists _, _. split; [done|]. split; [|by exists e; split; [|left]].
            eapply quiet_fails; [done|]. intros Q. apply F. by eapply Forall_suffix. }
       left. eexists _, _, s, l. split; [done|]. split; [by eapply cap_preserved|]. split.
       - destruct (sim_quiet _ _ _ _ S) as [Hio|Q]; [by apply sp_new_io|]. apply sp_new_full; [done|]. destruct (decide (live (opens s) < capacity (pool c))) as [Hlt|]; [|lia].
         destruct L as [g Hg]; [done|by eapply sim_room|done].
       - eapply sim_same; try done. eapply budget_keeps; [done|apply keeps_NewPage|done|lia]. }
  destruct C as (p & f & -> & Hp & K' & Pv & PS & Pc). cbn [g_page open_guard].
  pose proof (next_page_unmapped _ _ _ (sim_pool _ _ _ _ S)) as Fp. rewrite <- Hp in Fp.
  pose proof (sim_page _ _ _ _ p S) as [B1 B2 B3 B4 B5 B6].
  destruct (page_state_inv _ _ _ _ _ _ PS) as (Ff & _). destruct PS as (_ & P1 & P2 & P3).
  destruct (mapped_frame _ _ _ _ _ K' Ff) as (_ & _ & _ & Hp2 & Nl & _).
  assert (Hpg : pages s !! p = None).
  { destruct (pages s !! p) as [bs|] eqn:Hpg; [|done]. destruct (B1 bs eq_refl) as (X1 & X2 & _).
    destruct l as [|q l]; simpl in Hp; subst p; [lia|]. exfalso. apply X2. by left. }
  assert (H0 : holders false p (opens s) = 0 /\ holders true p (opens s) = 0).
  { unfold pins in B5. rewrite Fp in B5. pose proof (holders_nonneg false p (opens s)). pose proof (holders_nonneg true p (opens s)). lia. }
  destruct H0 as [H0 H1].
  assert (Hle : p <= page_count (disk (pool c))).
  { destruct l as [|q l]; simpl in Hp; [lia|]. subst p.
    destruct (dok_file _ _ (pk_disk _ _ _ (sim_pool _ _ _ _ S))) as [_ _ _ _ Ch].
    pose proof (chain_range _ _ _ _ q Ch ltac:(by left)). lia. }
  left. eexists _, _, _, (tail l). split; [done|]. split; [by eapply cap_preserved|]. split; [apply sp_new; [lia|done]|].
  eapply (sim_next _ _ _ _ _ _ _ _ _ p S K' Pv Ev); cbn [pages opens]; try done; try lia.
  - eapply budget_keeps; [done|apply keeps_NewPage|done|lia].
  - intros q Ne. destruct l as [|q' l]; [done|]. simpl in Hp |- *. rewrite elem_of_cons. subst p. intuition.
  - intros q Ne. by rewrite lookup_insert_ne.
  - rewrite (sim_opens _ _ _ _ S), fmap_app. done.
  - intros q w' Ne. rewrite holders_app. cbn [holders]. unfold holds; cbn. destruct (Z.eqb_spec p q); [done|]. rewrite !andb_false_r. lia.
  - intros i g Hi Hlv Ne. apply lookup_app_Some in Hi as [Hi|[_ Hi]]; [by eexists|].
    apply list_lookup_singleton_Some in Hi as [_ <-]. done.
  - split; cbn [pages opens]; rewrite ?holders_app; cbn [holders]; unfold holds; cbn; rewrite ?Z.eqb_refl, ?H0, ?H1; try done.
    + intros bs. rewrite lookup_insert_eq. intros [= <-]. done.
    + by rewrite lookup_insert_eq.
    + intros i g Hi Hlv Hg. apply lookup_app_Some in Hi as [Hi|[_ Hi]].
      * rewrite (B3 i g Hi Hlv Hg) in Fp. done.
      * apply list_lookup_singleton_Some in Hi as [_ <-]. done.
Qed.

Lemma step_delete n s c l p : sim (n + 1) s c l -> step_ends n s (ODelete p) c.
Proof.
  intros S. pose proof (sim_page _ _ _ _ p S) as [B1 B2 B3 B4 B5 B6].
  pose proof (holders_nonneg false p (opens s)). pose proof (holders_nonneg true p (opens s)).
  destruct (DeletePage_spec l (pool c) p (sim_pool _ _ _ _ S)) as (st & P' & E & D).
  assert (Bd : page_count (disk P') <= page_count (disk (pool c)) + 1 -> budget n P')
    by (eapply budget_keeps; [done|apply keeps_DeletePage|done]).
  unfold step_ends, step_ok, exec, status. rewrite E.
  destruct D as [(Cd & -> & Rf)|(Hp & Hn & Fn & Ev & [(-> & Pv & Pc & D)|(d0 & _ & _ & (Io & F & _) & Ev0)])].
  - left. eexists _, _, s, l. split; [done|]. split; [done|]. split.
    + apply sp_delete_refused; [done|]. destruct Rf as [Rf|[Rf|Rf]]; [left|left|right; lia];
        (destruct (pages s !! p) as [bs|] eqn:Hpg; [destruct (B1 bs eq_refl); lia|done]).
    + eapply sim_same; try done; [apply S|]. apply Bd. lia.
  - assert (Hd : exists l', pool_ok None l' P' /\ (forall q, q <> p -> q ∈ l' <-> q ∈ l) /\
        ((p ∉ l') -> ~ loadable p (content p P'))).
    { destruct D as [(Hf & Ef & K')|[Hf K']].
      - exists l. split; [done|]. split; [done|]. intros Nl [Ld _]. apply Ld. unfold content in *. rewrite Fn in *.
        rewrite <- hdr_page_bytes by lia. by rewrite Ef.
      - exists (p :: l). split; [done|]. split; [intros q Ne; rewrite elem_of_cons; intuition|]. intros N. exfalso. apply N. by left. }
    destruct Hd as (l' & K' & Hl & Hg). left. eexists _, _, _, l'. split; [done|]. split; [by eapply cap_preserved|].
    split; [apply sp_delete; lia|].
    eapply (sim_next _ _ _ _ _ _ _ _ _ p S K' Pv Ev); cbn [pages opens]; try done; try lia.
    + apply Bd. lia.
    + intros q Ne. by rewrite lookup_delete_ne.
    + apply S.
    + eauto.
    + split; cbn [pages opens]; rewrite ?lookup_delete_eq; try done.
      * intros _ Nl _. auto.
      * intros i g Hi Hlv Hgp. destruct (held_holders _ _ _ _ _ _ S Hi Hlv) as (_ & _ & Hpos). rewrite Hgp in Hpos. lia.
      * replace (latch p P') with (0, false) by (unfold latch; by rewrite Fn). f_equal; lia.
      * unfold pins. rewrite Fn. lia.
  - right. eexists _, _. split; [done|]. split; [|exists st; split; [done|right; by exists p]].
    eapply quiet_fails; [done|]. intros Q. apply F. by eapply Forall_suffix.
Qed.

(** The page behind an open guard. *)
Lemma held_page n s c l i h :
  sim n s c l -> opens s !! i = Some h -> h_live h = true ->
  exists f bs, held c !! i = Some (open_guard (h_write h) (h_page h) f) /\ pages s !! h_page h = Some bs /\
    page_state (h_page h) f bs (holders false (h_page h) (opens s) + holders true (h_page h) (opens s))
      (holders false (h_page h) (opens s), 0 <? holders true (h_page h) (opens s)) (pool c).
Proof.
  intros S Hi Hl. rewrite (sim_opens _ _ _ _ S), list_lookup_fmap in Hi.
  destruct (held c !! i) as [g|] eqn:Eg; [|done]. injection Hi as <-. cbn in Hl |- *.
  pose proof (sim_held _ _ _ _ S i g Eg Hl) as F. exists (g_frame g).
  destruct (mapped_frame _ _ _ _ _ (sim_pool _ _ _ _ S) F) as (_ & _ & _ & Hp & Np & _).
  destruct (pages s !! g_page g) as [bs|] eqn:Hpg.
  2: { destruct (sim_gone _ _ _ _ S _ Hp Np Hpg) as [G _]. congruence. }
  exists bs. split; [destruct g; cbn in *; by subst|]. split; [done|].
  split; [done|]. split; [by apply (sim_pages _ _ _ _ S)|]. split; apply S.
Qed.

Lemma budget_less n P : budget (n + 1) P -> budget n P.
Proof. intros [A (N & B & C & D)]. split; [lia|]. exists N. split; [done|]. split; [lia|done]. Qed.

Lemma step_read n s c l i : sim (n + 1) s c l -> enabled s (ORead i) -> step_ok n s (ORead i) c.
Proof.
  intros S (h & Hi & Hl). destruct (held_page _ _ _ _ _ _ S Hi Hl) as (f & bs & Hg & Hp & PS).
  destruct (page_state_inv _ _ _ _ _ _ PS) as (_ & Hd & _).
  unfold step_ok, exec. rewrite Hg. eexists _, _, s, l. split; [done|]. split; [done|]. split.
  - unfold GuardHeader, GuardBody. cbn [g_frame open_guard]. rewrite Hd. by eapply sp_read.
  - replace c with (mkClient (pool c) (held c)) by (by destruct c). eapply sim_same; try done; [apply S|].
    apply budget_less, S.
Qed.

(** Any rewrite of the bytes through an open write guard. *)
Lemma step_write n s c l i h m g' :
  sim (n + 1) s c l -> opens s !! i = Some h -> h_live h = true -> h_write h = true ->
  (forall f P, m (open_guard true (h_page h) f) P = Some (tt, set_frame f (set_data (g' (data (FrameAt f P))) (FrameAt f P)) P)) ->
  (forall bs, len bs = PAGE_SIZE -> len (g' bs) = PAGE_SIZE) ->
  exists bs c', writing i m c = Some (OutUnit, c') /\ capacity (pool c') = capacity (pool c) /\
    pages s !! h_page h = Some bs /\
    sim n (mkStore (<[h_page h := g' bs]> (pages s)) (opens s)) c' l.
Proof.
  intros S Hi Hl Hw Hm Hg'. destruct (held_page _ _ _ _ _ _ S Hi Hl) as (f & bs & Hg & Hp & PS).
  set (p := h_page h) in *. pose proof (sim_page _ _ _ _ p S) as [B1 B2 B3 B4 B5 B6].
  assert (Hpos : 0 < holders true p (opens s)) by (eapply holders_pos; [done|]; by apply holds_true).
  destruct (B6 Hpos) as [X1 X2]. rewrite X1, X2 in PS.
  destruct (page_state_inv _ _ _ _ _ _ PS) as (F & Hd & _).
  destruct (mapped_frame _ _ _ _ _ (sim_pool _ _ _ _ S) F) as (_ & _ & _ & Hp2 & Np & (Ld & _)). rewrite Hd in Ld.
  destruct (write_bytes_spec l (pool c) p f bs _ (g' bs) (sim_pool _ _ _ _ S) PS (Hg' bs Ld)) as (K' & Pv & PS' & Dk).
  exists bs, (mkClient (set_frame f (set_data (g' bs) (FrameAt f (pool c))) (pool c)) (held c)).
  split; [unfold writing; rewrite Hg, Hw, Hm, Hd; done|]. split; [by eapply cap_preserved|]. split; [done|].
  eapply (sim_next _ _ _ _ _ _ _ _ _ p S K' Pv); cbn [pages opens]; try done.
  - apply budget_less. destruct (sim_budget _ _ _ _ S) as [Bp (N & N1 & N2 & N3)]. split; [done|].
    exists N. split; [done|]. split; [done|]. apply below_set; [done|]. by apply below_FrameAt.
  - intros q Ne. by rewrite lookup_insert_ne.
  - apply S.
  - eauto.
  - destruct PS' as (F' & P1 & P2 & P3). split; cbn [pages opens]; rewrite ?lookup_insert_eq; try done.
    + intros ? [= <-]. split; [done|]. split; [done|]. by rewrite P1.
    + rewrite P3, X1, X2. done.
    + rewrite P2. by rewrite X1, X2.
Qed.

Lemma run_edit_eq g e P :
  run_edit g e P = Some (tt, set_frame (g_frame g) (set_data (edit_page e (data (FrameAt (g_frame g) P))) (FrameAt (g_frame g) P)) P).
Proof. by destruct e. Qed.

Lemma step_body n s c l i body : sim (n + 1) s c l -> enabled s (OSetBody i body) -> step_ok n s (OSetBody i body) c.
Proof.
  intros S (Lb & h & Hi & Hl & Hw).
  destruct (step_write n s c l i h (fun g => GuardSetBody g body) (patch PAGE_HEADER_SIZE body) S Hi Hl Hw)
    as (bs & c' & E & Cp & Hp & S').
  - done.
  - intros bs L. rewrite len_patch; [done|done|]. rewrite Lb, L. done.
  - eexists _, c', _, l. split; [done|]. split; [done|]. split; [by eapply sp_body|done].
Qed.

Lemma step_edit n s c l i e : sim (n + 1) s c l -> enabled s (OEdit i e) -> step_ok n s (OEdit i e) c.
Proof.
  intros S (h & Hi & Hl & Hw).
  destruct (step_write n s c l i h (fun g => run_edit g e) (edit_page e) S Hi Hl Hw) as (bs & c' & E & Cp & Hp & S').
  - intros f P. apply run_edit_eq.
  - intros bs L. unfold edit_page. rewrite len_patch; [done|done|]. rewrite PageHeader_len, L. done.
  - eexists _, c', _, l. split; [done|]. split; [done|]. split; [by eapply sp_edit|done].
Qed.

Lemma step_drop n s c l i : sim (n + 1) s c l -> 0 <= n -> enabled s (ODrop i) -> step_ok n s (ODrop i) c.
Proof.
  intros S Hn (h & Hi). destruct (h_live h) eqn:Hl.
  2: { pose proof Hi as Hi'. rewrite (sim_opens _ _ _ _ S), list_lookup_fmap in Hi'.
       destruct (held c !! i) as [g|] eqn:Eg; [|done]. injection Hi' as <-. cbn in Hl.
       unfold step_ok, exec. rewrite Eg. unfold Drop. rewrite Hl. cbn. eexists _, _, _, l. split; [done|]. split; [done|].
       split; [by eapply sp_drop|]. rewrite (list_insert_id (held c)) by done.
       assert (Eh : mkHandle (h_write (handle_of g)) (h_page (handle_of g)) false = handle_of g)
         by (unfold handle_of; cbn; by rewrite Hl).
       rewrite Eh, (list_insert_id (opens s)) by done. replace (mkStore (pages s) (opens s)) with s by (by destruct s).
       eapply sim_same; try done; [apply S|]. apply budget_less, S. }
  destruct (held_page _ _ _ _ _ _ S Hi Hl) as (f & bs & Hg & Hp & PS).
  set (p := h_page h) in *. set (w := h_write h) in *. pose proof (sim_page _ _ _ _ p S) as [B1 B2 B3 B4 B5 B6].
  assert (Hpos : 0 < holders w p (opens s)) by (eapply holders_pos; [done|]; by apply holds_true).
  pose proof (holders_nonneg false p (opens s)) as N0. pose proof (holders_nonneg true p (opens s)) as N1.
  destruct (sim_budget _ _ _ _ S) as [Bp (N & Q1 & Q2 & Q3)].
  assert (Hex : w = false -> holders true p (opens s) = 0).
  { intros ->. destruct (decide (0 < holders true p (opens s))) as [H|]; [|lia]. destruct (B6 H). lia. }
  destruct (Drop_spec l (pool c) w p f _ _ _ (sim_pool _ _ _ _ S) PS) as (P' & E & K' & Pv & PS' & Dk).
  { destruct w; lia. }
  { destruct w; [destruct (B6 Hpos) as [-> ->]; done|]. cbn. rewrite Hex by done. split; [done|done]. }
  { intros _. pose proof (below_FrameAt N f (pool c) Q1 Q3). lia. }
  assert (Pos : Forall (fun fr => 0 <= dirty_epoch fr) (frames (pool c))).
  { apply Forall_lookup. intros k fr Hk. destruct (pk_frames _ _ _ (sim_pool _ _ _ _ S) (Z.of_nat k)) as (_ & He & _).
    - apply lookup_lt_Some in Hk. unfold capacity. lia.
    - unfold FrameAt in He. rewrite Nat2Z.id, (list_lookup_total_correct _ _ _ Hk) in He. lia. }
  pose proof (Drop_below _ N _ _ _ ltac:(lia) Q3 Pos E) as Bl.
  unfold step_ok, exec. rewrite Hg, E. eexists _, _, _, l. split; [done|]. split; [by eapply cap_preserved|].
  split; [by eapply sp_drop|]. fold p w.
  assert (Hh : forall w' q, holders w' q (<[i:=mkHandle w p false]> (opens s)) =
     holders w' q (opens s) - (if Bool.eqb w w' && (p =? q) then 1 else 0)).
  { intros w' q. rewrite (holders_insert _ _ _ _ h) by done. unfold holds. rewrite Hl. cbn. fold p w. lia. }
  eapply (sim_next _ _ _ _ _ _ _ _ _ p S K' Pv); cbn [pages opens]; try done; rewrite ?Dk; try done.
  - split; [rewrite Dk; lia|]. exists (N + 1). split; [lia|]. split; [lia|done].
  - rewrite (sim_opens _ _ _ _ S), list_fmap_insert. done.
  - intros q w' Ne. rewrite Hh. destruct (Z.eqb_spec p q); [done|]. rewrite andb_false_r. lia.
  - intros j g Hj Hlv Ne. apply list_lookup_insert_Some in Hj as [(_ & <- & _)|(_ & Hj)]; [done|by eexists].
  - destruct PS' as (F' & P1 & P2 & P3). split; cbn [pages opens]; rewrite ?Hh, ?Dk, ?Z.eqb_refl, ?andb_true_r.
    + intros bs' Hb. destruct (B1 bs' Hb) as (X1 & X2 & X3). split; [done|]. split; [done|]. rewrite P1. congruence.
    + intros _ _. by rewrite Hp.
    + intros j g Hj Hlv Hgp. apply list_lookup_insert_Some in Hj as [(_ & <- & _)|(_ & Hj)]; [done|].
      pose proof (B3 j g Hj Hlv Hgp) as F1. destruct (page_state_inv _ _ _ _ _ _ PS) as (F2 & _). congruence.
    + rewrite P3. unfold unlatched. destruct w; cbn; f_equal; lia.
    + rewrite P2. destruct w; cbn; lia.
    + destruct w; cbn; intros H; [destruct (B6 Hpos); lia|]. rewrite Hex in H by done. lia.
Qed.

(** Without write guards on its page a frame can be flushed. *)
Lemma sim_flushable n s c l p f :
  sim n s c l -> Find p (page_table (pool c)) = Some f -> holders true p (opens s) = 0 -> writer (FrameAt f (pool c)) = false.
Proof.
  intros S F H. pose proof (sim_latch _ _ _ _ S p) as L. unfold latch in L. rewrite F, H in L. by injection L.
Qed.

Lemma step_flush n s c l p : sim (n + 1) s c l -> enabled s (OFlush p) -> step_ok n s (OFlush p) c.
Proof.
  intros S Hw. destruct (FlushPage_spec l (pool c) p (sim_pool _ _ _ _ S)) as (st & P' & E & K' & Pv & _ & Pc & Ev & So & _ & Ff).
  { intros f F _. by eapply sim_flushable. }
  unfold step_ok, exec, status. rewrite E. eexists _, _, s, l. split; [done|].
  split; [by eapply cap_preserved|]. split.
  { destruct (sim_quiet _ _ _ _ S) as [Hio|Q]; [|rewrite (Ff Q); apply sp_flush].
    destruct So as [->|N]; [apply sp_flush|by apply sp_flush_io]. } eapply sim_same; try done.
  eapply budget_keeps; [done|apply keeps_FlushPage|done|lia].
Qed.

Lemma step_flush_all n s c l : sim (n + 1) s c l -> enabled s OFlushAll -> step_ok n s OFlushAll c.
Proof.
  intros S Hw. destruct (FlushAllPages_spec l (pool c) (sim_pool _ _ _ _ S)) as (st & P' & E & K' & Pv & _ & Pc & Ev & So & _ & Ff).
  { intros f Hf D. destruct (pk_frames _ _ _ (sim_pool _ _ _ _ S) f Hf) as (_ & _ & _ & X).
    destruct (state (FrameAt f (pool c))); try done; [by destruct X as (_ & _ & X & _)|].
    destruct X as (_ & F & _). eapply sim_flushable; [done|exact F|apply Hw]. }
  unfold step_ok, exec, status. rewrite E. eexists _, _, s, l. split; [done|].
  split; [by eapply cap_preserved|]. split.
  { destruct So as [->|N]; [apply sp_flush_all|]. destruct (sim_quiet _ _ _ _ S) as [Hio|Q]; [by apply sp_flush_all_io|].
    rewrite (Ff Q). apply sp_flush_all. } eapply sim_same; try done.
  eapply budget_keeps; [done|apply keeps_FlushAllPages|done|lia].
Qed.

Lemma exec_simulates n s c l o : sim (n + 1) s c l -> 0 <= n -> enabled s o -> step_ends n s o c.
Proof.
  intros S Hn En. destruct o.
  - left. by eapply step_fetch.
  - by eapply step_new.
  - by eapply step_delete.
  - left. by eapply step_read.
  - left. by eapply step_body.
  - left. by eapply step_edit.
  - left. by eapply step_drop.
  - left. by eapply step_flush.
  - left. by eapply step_flush_all.
Qed.
End steps.
End sim.
