(* ===== verification/BufferPoolTheorems.v ===== *)
(** * What the buffer pool guarantees

    The claims about the buffer pool, with a concrete pool (two frames over a database file
    with one allocated page) on which each of them applies. *)

From stdpp Require Import gmap.
From S2P Require Import Prelude Common DiskManager DiskProofs DiskTheorems Replacer ReplacerTheorems PoolIndex BufferPool.
From S2P Require Import BufferPoolProofs BufferPoolOps BufferPoolLifecycle PoolEpochs PoolSteady PoolRefine PoolRefineProofs.

(** ** A pool just constructed *)

Lemma new_Pool_frame d n f : FrameAt f (new_Pool d n) = inhabitant.
Proof.
  unfold FrameAt, new_Pool; simpl. rewrite list_lookup_total_alt. destruct (_ !! _) as [fr|] eqn:E; [|done].
  by apply lookup_replicate in E as [-> _].
Qed.

Lemma Find_new p : Find p new_PageTable = None.
Proof. destruct new_PageTable_represents as [_ H]. by rewrite H, lookup_empty. Qed.

Lemma new_Pool_ok d l n : disk_ok d l -> 0 < n < 2 ^ 31 -> pool_ok None l (new_Pool d n).
Proof.
  intros D Hn. assert (Cap : capacity (new_Pool d n) = n).
  { unfold capacity, new_Pool; simpl. rewrite length_replicate. lia. }
  split.
  - by rewrite Cap.
  - by apply new_Replacer_ok.
  - simpl. by rewrite !length_replicate.
  - apply new_PageTable_ok.
  - apply NoDup_seqZ.
  - intros f Hf. rewrite Cap, new_Pool_frame. apply elem_of_seqZ in Hf. split; [lia|done].
  - done.
  - intros f Hf. rewrite Cap in Hf. rewrite new_Pool_frame. split; [done|]. split; [done|]. split; [done|].
    simpl. split; [done|]. split; [done|]. split; [done|]. split.
    + unfold evictable_at; simpl. rewrite lookup_total_replicate_2; [done|lia].
    + unfold new_FreeList. rewrite elem_of_seqZ. split; [done|lia].
  - intros p f. simpl. by rewrite Find_new.
  - done.
Qed.

(** The pages a database file holds: those in range and not on the freelist. *)
Definition stored (d : Disk) (l : list Z) : list Z :=
  filter (fun p => p ∉ l) (seqZ 2 (page_count d - 2)).
Definition store_of (d : Disk) (l : list Z) : Store :=
  mkStore (list_to_map ((fun p => (p, page_bytes p (file d))) <$> stored d l)) [].

Lemma store_of_lookup d l p :
  pages (store_of d l) !! p =
    if decide (2 <= p < page_count d /\ p ∉ l) then Some (page_bytes p (file d)) else None.
Proof.
  assert (Hin : p ∈ stored d l <-> 2 <= p < page_count d /\ p ∉ l).
  { unfold stored. rewrite list_elem_of_filter, elem_of_seqZ. split; intros [? ?]; (split; [done || lia|done || lia]). }
  simpl. case_decide as E.
  - apply elem_of_list_to_map_1.
    + rewrite <- list_fmap_compose. simpl. rewrite list_fmap_id. apply NoDup_filter, NoDup_seqZ.
    + apply list_elem_of_fmap. exists p. split; [done|]. by apply Hin.
  - apply not_elem_of_list_to_map_1. rewrite <- list_fmap_compose. simpl. rewrite list_fmap_id. by rewrite Hin.
Qed.

Lemma new_Pool_sim (io : Prop) d l n cap :
  disk_ok d l -> io \/ fault_free (events d) -> 0 < cap < 2 ^ 31 -> 0 <= n -> page_count d + n < 2 ^ 31 - 1 ->
  @sim io n (store_of d l) (mkClient (new_Pool d cap) []) l.
Proof.
  intros D F Hc Hn Hb. split; cbn [pool held].
  - by apply new_Pool_ok.
  - done.
  - intros p bs. rewrite store_of_lookup. case_decide as E; [|done]. intros [= <-].
    split; [apply E|]. split; [apply E|]. unfold content. simpl. by rewrite Find_new.
  - intros p Hp Np. rewrite store_of_lookup. case_decide as E; [done|]. tauto.
  - done.
  - intros i g Hi. by rewrite lookup_nil in Hi.
  - intros p. unfold latch. simpl. by rewrite Find_new.
  - intros p. unfold pins. simpl. by rewrite Find_new.
  - simpl. lia.
  - split; [done|]. pose proof (fok_count _ _ _ (dok_file _ _ D)). exists 0. split; [lia|]. split; [lia|]. apply Forall_replicate. done.
Qed.

(** ** Counting frames *)

Lemma count_cons q fr fs : count_frames q (fr :: fs) = Z.b2z (q fr) + count_frames q fs.
Proof. unfold count_frames. rewrite filter_cons. destruct (q fr); simpl; [|done]. lia. Qed.

Lemma count_add a b r fs :
  Forall (fun fr => Z.b2z (a fr) + Z.b2z (b fr) = Z.b2z (r fr)) fs ->
  count_frames a fs + count_frames b fs = count_frames r fs.
Proof. induction 1 as [|fr fs H _ IH]; [done|]. rewrite !count_cons. lia. Qed.

Lemma count_all fs : count_frames (fun _ => true) fs = len fs.
Proof. induction fs as [|fr fs IH]; [done|]. rewrite count_cons. simpl length. simpl Z.b2z. lia. Qed.

Lemma count_none a fs : Forall (fun fr => a fr = false) fs -> count_frames a fs = 0.
Proof. induction 1 as [|fr fs H _ IH]; [done|]. rewrite count_cons, H. simpl. lia. Qed.

Lemma num_true_count a bs fs : Forall2 (fun b fr => b = a fr) bs fs -> num_true bs = count_frames a fs.
Proof. induction 1 as [|b fr bs fs -> _ IH]; [done|]. rewrite count_cons. simpl. rewrite IH. by destruct (a fr). Qed.

Lemma count_fmap a (g : Z -> Frame) l : count_frames a (g <$> l) = len (filter (fun i => a (g i) = true) l).
Proof.
  induction l as [|i l IH]; [done|]. rewrite fmap_cons, count_cons, filter_cons, IH. destruct (a (g i)); simpl; lia.
Qed.

Lemma frames_fmap P : frames P = (fun f => FrameAt f P) <$> seqZ 0 (capacity P).
Proof.
  apply list_eq. intros i. rewrite list_lookup_fmap. destruct (decide (i < length (frames P))%nat) as [H|H].
  - rewrite lookup_seqZ_lt by (unfold capacity; lia). simpl. unfold FrameAt. rewrite Z.add_0_l, Nat2Z.id.
    by apply list_lookup_lookup_total_lt.
  - rewrite lookup_seqZ_ge by (unfold capacity; lia). simpl. apply lookup_ge_None_2. lia.
Qed.

Lemma Forall_frames (Q : Frame -> Prop) P : (forall f, 0 <= f < capacity P -> Q (FrameAt f P)) -> Forall Q (frames P).
Proof.
  intros H. rewrite frames_fmap. apply Forall_fmap, Forall_forall. intros f Hf. apply elem_of_seqZ in Hf. apply H. lia.
Qed.

(** The statistics of a pool at rest add up: every frame is free or resident, none is stuck
    in Loading or Failed, the free list has exactly the free frames, and the replacer's
    candidates are exactly the resident frames nobody has pinned. *)
Lemma pool_stats_consistent l P :
  pool_ok None l P ->
  let st := GetStats P in
  free_frames st + resident_frames st = st_capacity st /\ loading_frames st = 0 /\ failed_frames st = 0 /\
  free_list_size st = free_frames st /\ st_evictable st + pinned_frames st = resident_frames st.
Proof.
  intros K st. unfold st, GetStats. cbn [free_frames resident_frames st_capacity loading_frames failed_frames
    free_list_size st_evictable pinned_frames].
  assert (Cs : forall f, 0 <= f < capacity P ->
    (state (FrameAt f P) = Free /\ pin_count (FrameAt f P) = 0 /\ (f ∈ free_list P) /\ evictable_at f (replacer P) = false) \/
    (state (FrameAt f P) = Resident /\ 0 <= pin_count (FrameAt f P) /\ (f ∉ free_list P) /\
     evictable_at f (replacer P) = (pin_count (FrameAt f P) =? 0))).
  { intros f Hf. destruct (pk_frames _ _ _ K f Hf) as (_ & _ & R & D). destruct (state (FrameAt f P)); try done.
    - left. destruct D as (D1 & _ & _ & D2 & D3). split_and!; try done. by apply D3.
    - right. destruct D as (_ & _ & D1 & _ & D2 & D3 & _). split; [done|]. split; [destruct (writer _); lia|]. split; [done|].
      apply eq_true_iff_eq. by rewrite Z.eqb_eq. }
  split; [|split; [|split; [|split]]].
  - unfold capacity. rewrite <- count_all. apply count_add, Forall_frames. intros f Hf.
    destruct (Cs f Hf) as [(-> & _)|(-> & _)]; done.
  - apply count_none, Forall_frames. intros f Hf. destruct (Cs f Hf) as [(-> & _)|(-> & _)]; done.
  - apply count_none, Forall_frames. intros f Hf. destruct (Cs f Hf) as [(-> & _)|(-> & _)]; done.
  - rewrite frames_fmap at 1. rewrite count_fmap. unfold FreeList_Size. f_equal. apply Permutation_length, NoDup_Permutation.
    + apply K.
    + apply NoDup_filter, NoDup_seqZ.
    + intros f. rewrite list_elem_of_filter, elem_of_seqZ, bool_decide_eq_true. split.
      * intros Hf. destruct (pk_free _ _ _ K f Hf). split; [done|lia].
      * intros [Hs Hf]. destruct (Cs f ltac:(lia)) as [(_ & _ & H & _)|(H & _)]; [done|congruence].
  - unfold EvictableCount. rewrite (rok_count _ (pk_rep _ _ _ K)).
    rewrite (num_true_count (fun fr => bool_decide (state fr = Resident) && (pin_count fr =? 0)) _ (frames P)).
    + apply count_add, Forall_frames. intros f Hf. destruct (Cs f Hf) as [(-> & -> & _)|(-> & H & _)]; [done|].
      destruct (Z.eqb_spec (pin_count (FrameAt f P)) 0), (Z.ltb_spec 0 (pin_count (FrameAt f P))); done || lia.
    + apply Forall2_same_length_lookup. rewrite (rok_len _ (pk_rep _ _ _ K)), (pk_rep_len _ _ _ K). split; [done|].
      intros i b fr Hb Hfr. pose proof (lookup_lt_Some _ _ _ Hfr) as Hi.
      assert (Ef : FrameAt (Z.of_nat i) P = fr) by (unfold FrameAt; rewrite Nat2Z.id; by apply list_lookup_total_correct).
      assert (Eb : evictable_at (Z.of_nat i) (replacer P) = b) by (unfold evictable_at; rewrite Nat2Z.id; by apply list_lookup_total_correct).
      rewrite <- Ef, <- Eb. destruct (Cs (Z.of_nat i)) as [(-> & _ & _ & ->)|(-> & _ & _ & ->)]; [unfold capacity; lia|done|done].
Qed.

Section claims.
Context {errno_text : ErrnoText} {host : Host}.

Lemma run_simulates (io : Prop) m n g s c l :
  @sim io (Z.of_nat m + n) s c l -> 0 <= n -> disciplined io (capacity (pool c)) g s ->
  exists k tr c' s' l', (k <= m)%nat /\ run k g c = Some (tr, c') /\ capacity (pool c') = capacity (pool c) /\
    spec_run io (capacity (pool c)) s tr s' /\ @sim io n s' c' l' /\
    (k = m \/ exists o out c2, run (S k) g c = Some (tr ++ [(o, out)], c2) /\ @gave_up io o out).
Proof.
  revert g s c l. induction m as [|m IH]; intros g s c l S Hn Hd.
  { exists 0%nat, [], c, s, l. split_and!; try done; [apply sp_done|by left]. }
  destruct g as [|o k].
  { exists (Datatypes.S m), [], c, s, l. split_and!; try done; [apply sp_done| |by left].
    eapply sim_mono; [|done]. lia. }
  destruct Hd as [He Hd].
  destruct (exec_simulates (io := io) (Z.of_nat m + n) s c l o) as [(out & c' & s' & l' & E & Cp & Sp & S')|(out & c' & E & G)]; [|lia|done| |].
  { by replace (Z.of_nat m + n + 1) with (Z.of_nat (Datatypes.S m) + n) by lia. }
  2: { exists 0%nat, [], c, s, l. split_and!; try done; [lia|apply sp_done|eapply sim_mono; [|done]; lia|right].
       exists o, out, c'. split; [cbn [run]; by rewrite E|done]. }
  destruct (IH (k out) s' c' l' S' Hn) as (j & tr & c2 & s2 & l2 & Hj & E2 & Cp2 & Sp2 & S2 & R); [rewrite Cp; by eapply Hd|].
  rewrite Cp in Sp2, Cp2. exists (Datatypes.S j), ((o, out) :: tr), c2, s2, l2.
  split_and!; try done; [lia|cbn [run]; by rewrite E, E2|by econstructor|].
  destruct R as [->|(o' & out' & c3 & E3 & G)]; [by left|right]. exists o', out', c3. split; [|done].
  change (run (Datatypes.S (Datatypes.S j)) (Call o k) c) with
    (match exec o c with None => None | Some (out, c) => match run (Datatypes.S j) (k out) c with None => None | Some (tr, c) => Some ((o, out) :: tr, c) end end).
  by rewrite E, E3.
Qed.

(** C1: The buffer pool is a page store, whatever the file's reads and writes do.  Over any
    consistent database file, with any number of frames and any schedule of I/O failures, the
    first [n] calls of every client program that does not wait on its own latches, leaves the
    catalog page alone and, in a build with assertions, asks for no page id below -1, return: no
    deadlock, no failing assert of [assert_], no abort on a duplicate mapping, no loop without
    end.  Each answer is what a plain map from page ids to bytes would give, whatever was evicted
    and reloaded in between: a read sees the last bytes written, a new page is fresh and not in
    use, and an error leaves every page as it was.  On a file whose schedule has no failure, fetching an allocated page whose
    header is in order fails only when as many guards are open as there are frames; otherwise a
    call that meets a failing read or write may answer an error too, and the run goes on.  It
    ends early only at a [NewPage] or [DeletePage] that returns the disk manager's own kIOError
    from [AllocatePage] or [DeallocatePage]: up to that call everything above holds. *)
Theorem pool_refines_store d l cap n g :
  let io := ~ fault_free (events d) in
  disk_ok d l -> 0 < cap < 2 ^ 31 -> page_count d + Z.of_nat n < 2 ^ 31 - 1 ->
  disciplined io cap g (store_of d l) ->
  exists k tr c s' l', (k <= n)%nat /\ run k g (mkClient (new_Pool d cap) []) = Some (tr, c) /\
    spec_run io cap (store_of d l) tr s' /\ pool_ok None l' (pool c) /\
    (forall p bs, pages s' !! p = Some bs -> content p (pool c) = bs) /\
    (k = n \/ io /\ exists o out c2 st,
       run (S k) g (mkClient (new_Pool d cap) []) = Some (tr ++ [(o, out)], c2) /\ code st = kIOError /\
       ((o = ONew /\ out = OutError st) \/ exists p, o = ODelete p /\ out = OutStatus st)).
Proof.
  intros io D Hc Hb Hd.
  assert (Cap : capacity (new_Pool d cap) = cap) by (unfold capacity; simpl; rewrite length_replicate; lia).
  destruct (run_simulates io n 0 g (store_of d l) (mkClient (new_Pool d cap) []) l)
    as (k & tr & c & s' & l' & Hk & E & _ & Sp & S & R); cbn [pool]; rewrite ?Cap in *; try done.
  { apply new_Pool_sim; try (done || lia). unfold io. destruct (fault_free_dec (events d)); tauto. }
  exists k, tr, c, s', l'. split; [done|]. split; [done|]. split; [cbn [pool] in Sp; by rewrite Cap in Sp|]. split; [apply S|].
  split; [intros p bs Hp; by apply (sim_pages _ _ _ _ S)|].
  destruct R as [->|(o & out & c2 & E2 & Hio & st & Hst & G)]; [by left|right]. split; [done|]. by exists o, out, c2, st.
Qed.

(** C31: A frame is found for every page that needs one while some frame is unpinned, and
    finding it loses nothing: under any schedule of I/O failures a dirty victim is written
    back before its frame is given away, and kept when the write fails.  The contents, pins
    and latches of all pages are as before, and the pool's invariant holds. *)
Theorem pool_acquire_keeps_pages l P :
  pool_ok None l P ->
  exists r P', AcquireFrame P = Some (r, P') /\
    (forall p, 2 <= p -> content p P' = content p P) /\
    (forall p, pins p P' = pins p P /\ latch p P' = latch p P) /\
    match r with
    | Ok f => pool_ok (Some f) l P' /\ state (FrameAt f P') = Free
    | Error s => pool_ok None l P' /\ ok s = false
    end /\
    (fault_free (events (disk P)) -> has_room P -> exists f, r = Ok f).
Proof.
  intros K. destruct (AcquireFrame_spec l P K) as (r & P' & E & (Pv & _ & _ & _ & A) & L). exists r, P'.
  assert (N : forall p, ~ nothing p) by (by intros p []).
  split; [done|]. split; [intros p Hp; by apply (pv_content _ _ _ Pv)|].
  split; [intros p; split; [by apply (pv_pins _ _ _ Pv)|by apply (pv_latch _ _ _ Pv)]|].
  split; [|done]. destruct r as [f|s]; [|done]. split; [done|]. by apply (pk_private _ _ _ A).
Qed.

(** Under any schedule of I/O failures, a fetch of a page whose latch is free returns: either
    a guard on a frame that holds exactly the page's bytes, pinned once more and latched, with
    every other page untouched; or an error that changed nothing.  A page read from disk is
    handed out only when its header is its own and not FREE; and with no I/O failure, a free
    frame and a good header the fetch succeeds. *)
Lemma pool_fetch_contract l P w p :
  pool_ok None l P -> fetchable p -> compatible w (latch p P) ->
  exists r P', (if w then FetchPageWrite p else FetchPageRead p) P = Some (r, P') /\
    pool_ok None l P' /\
    match r with
    | Ok g => exists f, g = mkGuard w f p true /\
        page_state p f (content p P) (pins p P + 1) (latched w (latch p P)) P' /\
        (forall q, 2 <= q -> content q P' = content q P) /\
        (forall q, q <> p -> pins q P' = pins q P /\ latch q P' = latch q P) /\
        (Find p (page_table P) = None -> loadable p (content p P))
    | Error s => ok s = false /\ (forall q, 2 <= q -> content q P' = content q P) /\
        (forall q, pins q P' = pins q P /\ latch q P' = latch q P)
    end /\
    (fault_free (events (disk P)) -> 2 <= p < page_count (disk P) -> has_room P ->
     loadable p (content p P) -> exists g, r = Ok g).
Proof.
  intros K Np Hc. destruct (FetchPage_spec l P w p K Np Hc) as (r & P' & E & (K' & _ & _ & R) & L).
  exists r, P'. split; [by destruct w|]. split; [done|]. split; [|auto]. destruct r as [g|s].
  - destruct R as (f & -> & Pv & PS & _ & Ld). exists f. split; [done|]. split; [done|]. split; [|split; [|done]].
    + intros q Hq. destruct (decide (p = q)) as [<-|Ne]; [apply PS|by apply (pv_content _ _ _ Pv)].
    + intros q Ne. split; [apply (pv_pins _ _ _ Pv)|apply (pv_latch _ _ _ Pv)]; congruence.
  - destruct R as [Pv N]. assert (Nn : forall q, ~ nothing q) by (by intros q []). split; [done|].
    split; [intros q Hq; by apply (pv_content _ _ _ Pv)|]. intros q. split; [by apply (pv_pins _ _ _ Pv)|by apply (pv_latch _ _ _ Pv)].
Qed.

(** In a build with assertions a fetch of a page id below [INVALID_PAGE] does not return once it
    has a frame: the read is refused, and the assert of [AbandonLoad] on the id then fails. *)
Lemma pool_fetch_below_aborts l P w p :
  ndebug = false -> pool_ok None l P -> p < INVALID_PAGE -> fault_free (events (disk P)) -> has_room P ->
  FetchPage w p P = None.
Proof.
  intros Nd K Hp Ff Hr. assert (E : FetchFrame p P = None); [|by destruct w; cbn; unfold FetchPageWrite, FetchPageRead, bind; rewrite E].
  unfold FetchFrame. rewrite (proj2 (orb_false_iff _ _)) by (unfold_consts; lia). cbn [FetchFrame_loop]. unfold bind at 1, get.
  assert (Nm : forall x Q, pool_ok x l Q -> Find p (page_table Q) = None).
  { intros x Q KQ. destruct (Find p (page_table Q)) as [f|] eqn:F; [|done]. destruct (mapped_frame _ _ _ _ _ KQ F) as (_ & _ & _ & H & _). unfold_consts; lia. }
  rewrite (Nm _ _ K). destruct (AcquireFrame_spec l P K) as (r & Q & E & (_ & _ & _ & _ & A) & L). destruct (L Ff Hr) as [f ->].
  unfold bind at 1. rewrite E. unfold bind at 1. rewrite (Nm _ _ A). destruct (pk_private _ _ _ A f eq_refl) as [Hf _].
  destruct (Insert_spec p f (page_table Q) (pk_table _ _ _ A) (Nm _ _ A)) as (t & It & _).
  unfold FetchFrame_load, bind at 1, map_page. rewrite It. unfold bind at 1, update, bind at 1, frame, bind at 1, on_disk.
  rewrite FrameAt_same by done. cbn [disk set_frame set_page_table data ResetEpochs set_epochs set_meta].
  pose proof (ReadPage_spec (disk Q) l p (data (FrameAt f (set_page_table t Q))) (pk_disk _ _ _ A) ltac:(apply (pk_frames _ _ _ A f Hf))) as R.
  destruct (ReadPage p _ (disk Q)) as [[st bs] d']. destruct R as (_ & _ & [(_ & H & _)|[N _]]); [unfold_consts; lia|].
  unfold bind at 1. change (FrameAt f (set_disk d' ?X)) with (FrameAt f X). rewrite FrameAt_same by done. rewrite N. cbn [negb].
  unfold AbandonLoad, bind, modify, update, frame.
  change (FrameAt f (set_page_table ?a ?X)) with (FrameAt f X).
  rewrite !FrameAt_same by (unfold capacity; cbn; rewrite ?length_insert; apply Hf).
  unfold assert_. rewrite Nd. cbn [orb page_id set_meta set_data BufferPool.page_id]. cbn. destruct (Z.leb_spec 1 p); [unfold_consts; lia|done].
Qed.

(** [NewPage] hands out the disk manager's next page, zeroed under a header that carries its
    identity, pinned once and write-latched; no page in use is touched and the duplicate-mapping
    abort cannot happen.  When the disk fails instead, the frame is back on the free list and
    everything but the disk is in order; with no failure and an unpinned frame it succeeds. *)
Lemma pool_new_page l P :
  pool_ok None l P -> page_count (disk P) + 1 < 2 ^ 31 - 1 ->
  exists r P', NewPage P = Some (r, P') /\
    match r with
    | Ok g => exists p f, g = mkGuard true f p true /\ p = default (page_count (disk P)) (head l) /\
        Find p (page_table P) = None /\ pool_ok None (tail l) P' /\
        page_state p f (fresh_page p) 1 (0, true) P' /\ loadable p (fresh_page p) /\
        forall q, 2 <= q -> q <> p -> content q P' = content q P
    | Error s => ok s = false /\
        exists d0, pool_ok None l (set_disk d0 P') /\
          forall q, 2 <= q -> content q (set_disk d0 P') = content q P
    end /\
    (fault_free (events (disk P)) -> has_room P -> exists g, r = Ok g).
Proof.
  intros K Hb. destruct (NewPage_spec l P K Hb) as (r & P' & E & C & _ & L). exists r, P'. split; [done|]. split; [|done].
  assert (Nn : forall q, ~ nothing q) by (by intros q []). destruct r as [g|s].
  - destruct C as (p & f & -> & Hp & K' & Pv & PS & Pc). exists p, f. split; [done|]. split; [done|].
    split; [rewrite Hp; by eapply next_page_unmapped|]. split; [done|]. split; [done|]. split.
    + apply fresh_page_spec. destruct PS as (F & _). destruct (mapped_frame _ _ _ _ _ K' F) as (_ & _ & _ & B & _).
      unfold is_s32. destruct (dok_file _ _ (pk_disk _ _ _ K')) as [B2 _ _ _ _]. lia.
    + intros q Hq Ne. apply (pv_content _ _ _ Pv); [done|congruence].
  - destruct C as [N [(K' & Pv & _)|(d0 & K' & Pv & _)]]; (split; [done|]).
    + exists (disk P'). rewrite set_disk_id. split; [done|]. intros q Hq. by apply (pv_content _ _ _ Pv).
    + exists d0. split; [done|]. intros q Hq. by apply (pv_content _ _ _ Pv).
Qed.

(** [DeletePage] refuses reserved, out-of-range and pinned pages, changing nothing.  An
    unpinned page is dropped from the pool without being written back and, unless its header on
    disk already said FREE, put on the freelist; its frame is free stock again and all other
    pages are untouched. *)
Lemma pool_delete_page l P p :
  pool_ok None l P ->
  exists st P', DeletePage p P = Some (st, P') /\
    ((code st = kInvalidArgument /\ P' = P /\ (p < 2 \/ page_count (disk P) <= p \/ 0 < pins p P)) \/
     (2 <= p < page_count (disk P) /\ pins p P = 0 /\ Find p (page_table P') = None /\
      ((st = StatusOK /\ (forall q, 2 <= q -> q <> p -> content q P' = content q P) /\
        pool_ok None (if decide (ph_page_type (hdr p (file (disk P))) = FREE) then l else p :: l) P') \/
       (exists d0, pool_ok None l (set_disk d0 P') /\ failed d0 l st (disk P'))))).
Proof.
  intros K. destruct (DeletePage_spec l P p K) as (st & P' & E & D). exists st, P'. split; [done|].
  destruct D as [D|(Hp & Hn & F & _ & D)]; [by left|right]. split; [done|]. split; [done|]. split; [done|].
  destruct D as [(-> & Pv & _ & D)|(d0 & K' & _ & Fl & _)]; [left|right; by exists d0].
  split; [done|]. split; [intros q Hq Ne; apply (pv_content _ _ _ Pv); [done|congruence]|].
  destruct D as [(Hf & _ & K')|[Hf K']]; by case_decide.
Qed.

(** C32: [Shutdown] of a pool without half-written pages (in a debug build: a quiescent one)
    returns, and returns OK only when every page's bytes are on disk and synced; an I/O failure
    is reported and loses nothing.  A second call does nothing, and the destructor after it
    neither writes nor aborts. *)
Theorem pool_shutdown_durable l P fsync :
  pool_ok None l P -> shutdown P = false -> ndebug || Quiesced P = true ->
  (forall f, 0 <= f < capacity P -> writer (FrameAt f P) = false) ->
  exists st P', Shutdown fsync P = Some (st, P') /\ pool_ok None l P' /\
    (forall p, 2 <= p -> content p P' = content p P) /\
    (st = StatusOK -> fsync = true /\ forall p, 2 <= p -> page_bytes p (file (disk P')) = content p P) /\
    (fault_free (events (disk P)) -> fsync = true -> st = StatusOK) /\
    Shutdown fsync P' = Some (StatusOK, P') /\ Destroy fsync P' = Some (tt, P').
Proof.
  intros K Hs Hq Hw. destruct (Shutdown_spec l P fsync K Hs Hq) as (st & P' & E & Sd & K' & Pv & _ & D & Ff & S2).
  { intros f Hf _. by apply Hw. }
  exists st, P'. split; [done|]. split; [done|]. split; [intros p Hp; apply (pv_content _ _ _ Pv); [done|by intros []]|].
  split; [|split; [done|split; [done|unfold Destroy, bind, get; by rewrite Sd]]]. intros Hst. destruct (D Hst) as [-> Dp]. split; [done|]. intros p Hp. apply Dp; [done|].
  unfold latch. destruct (Find p (page_table P)) as [f|] eqn:F; [|done].
  destruct (mapped_frame _ _ _ _ _ K F) as (Hf & _). cbn. by apply Hw.
Qed.
End claims.

(** ** A concrete pool *)

#[local] Existing Instance debug_host.
#[local] Instance errno_text_pool : ErrnoText := {| errno_message n := pretty n |}.

#[local] Opaque db1.

Definition demo_disk : Disk := facing [EvXfer 700; EvErr EINTR] db1.
Definition demo_pool : Pool := new_Pool demo_disk 2.

Lemma demo_disk_ok : disk_ok demo_disk [] /\ page_count demo_disk = 3 /\ fault_free (events demo_disk).
Proof.
  destruct db1_ok as [D C]. split; [by apply facing_ok|]. split; [exact C|].
  change (fault_free [EvXfer 700; EvErr EINTR]). by repeat constructor.
Qed.

Lemma demo_disk_snug : snug demo_disk.
Proof. split; [apply demo_disk_ok|vm_compute; congruence|vm_compute; reflexivity]. Qed.

Lemma demo_pool_ok : pool_ok None [] demo_pool.
Proof. apply new_Pool_ok; [apply demo_disk_ok|done]. Qed.

Lemma demo_room : has_room demo_pool.
Proof. exists 0. unfold demo_pool. by rewrite new_Pool_frame. Qed.

Lemma demo_loadable : loadable 2 (page_bytes 2 (file demo_disk)).
Proof. split; vm_compute; congruence. Qed.

Lemma demo_content : content 2 demo_pool = page_bytes 2 (file demo_disk).
Proof. unfold content, demo_pool. simpl. by rewrite Find_new. Qed.

(** A file whose first read fails with EIO, and a client that fetches page 2, tries again when
    that fails, and goes on with the guard it gets. *)
Definition faulty_disk : Disk := facing [EvErr 5] db1.
Definition retry_program : Program :=
  Call (OFetch true 2) (fun out => match out with
    | OutOpen _ => Stop
    | _ => Call (OFetch true 2) (fun out => match out with
        | OutOpen _ => Call (OEdit 0 (ENext 9)) (fun _ => Call (ORead 0) (fun _ => Call (ODrop 0) (fun _ =>
            Call (OFlush 2) (fun _ => Call ONew (fun _ => Stop)))))
        | _ => Stop
        end)
    end).

Lemma retry_disciplined io m : disciplined io 2 retry_program (mkStore m []).
Proof.
  split; [done|]. intros out s1 St1. inversion St1; subst; [done|..];
    (split; [done|]; intros out2 s2 St2; inversion St2; subst; [|done|done];
     split; [by exists (mkHandle true 2 true)|]; intros out3 s3 St3; inversion St3; subst;
     split; [by exists (mkHandle true 2 true)|]; intros out4 s4 St4; inversion St4; subst;
     split; [by exists (mkHandle true 2 true)|]; intros out5 s5 St5; inversion St5; subst;
     split; [simplify_eq/=; done|]; intros out6 s6 St6; by split).
Qed.

(** The retry sees the page: the failed read of the first fetch left nothing behind. *)
Lemma pool_refines_store_witness :
  exists e h body c, run 4 retry_program (mkClient (new_Pool faulty_disk 2) []) =
      Some ([(OFetch true 2, OutError e); (OFetch true 2, OutOpen 2); (OEdit 0 (ENext 9), OutUnit); (ORead 0, OutPage h body)], c) /\
    code e = kIOError /\ ph_next_page_id h = 9 /\
    exists s', spec_run (~ fault_free (events faulty_disk)) 2 (store_of faulty_disk [])
      [(OFetch true 2, OutError e); (OFetch true 2, OutOpen 2); (OEdit 0 (ENext 9), OutUnit); (ORead 0, OutPage h body)] s'.
Proof.
  destruct db1_ok as [D C].
  destruct (pool_refines_store faulty_disk [] 2 4 retry_program (facing_ok _ _ _ D) ltac:(lia) ltac:(vm_compute; reflexivity)
    (retry_disciplined _ _)) as (k & tr & c & s' & l' & Hk & E & Sp & _ & _ & R).
  assert (Hr : exists e h body, option_map fst (run 4 retry_program (mkClient (new_Pool faulty_disk 2) [])) =
    Some [(OFetch true 2, OutError e); (OFetch true 2, OutOpen 2); (OEdit 0 (ENext 9), OutUnit); (ORead 0, OutPage h body)] /\
    code e = kIOError /\ ph_next_page_id h = 9).
  { eexists _, _, _. split; [vm_compute; reflexivity|]. split; reflexivity. }
  destruct Hr as (e & h & body & Hr & He & Hh). destruct R as [->|(_ & o & out & c2 & st & E2 & _ & G)].
  - rewrite E in Hr. injection Hr as ->. exists e, h, body, c. split; [exact E|]. split; [done|]. split; [done|]. by exists s'.
  - exfalso. assert (No : o <> ONew /\ forall p, o <> ODelete p).
    { assert (L : option_map (fun r => last r.1.*1) (run (S k) retry_program (mkClient (new_Pool faulty_disk 2) [])) = Some (Some o)).
      { rewrite E2. cbn [option_map fst]. rewrite fmap_app. change ([(o, out)].*1) with [o]. by rewrite last_snoc. }
      clear - L Hk. destruct k as [|[|[|[|[|k]]]]]; [..|lia]; vm_compute in L; by injection L as <-. }
    destruct No as [N1 N2]. destruct G as [[G _]|(p & G & _)]; [exact (N1 G)|exact (N2 p G)].
Defined.

Lemma pool_acquire_keeps_pages_witness :
  exists f P', AcquireFrame demo_pool = Some (Ok f, P') /\ state (FrameAt f P') = Free /\
    content 2 P' = content 2 demo_pool.
Proof.
  destruct (pool_acquire_keeps_pages [] demo_pool demo_pool_ok) as (r & P' & E & Ct & _ & R & L).
  destruct (L ltac:(apply demo_disk_ok) demo_room) as [f ->]. exists f, P'. split; [exact E|].
  split; [apply R|apply Ct; lia].
Defined.

Lemma pool_shutdown_durable_witness :
  exists P', Shutdown true demo_pool = Some (StatusOK, P') /\
    page_bytes 2 (file (disk P')) = content 2 demo_pool.
Proof.
  destruct (pool_shutdown_durable [] demo_pool true demo_pool_ok ltac:(done) ltac:(vm_compute; reflexivity)) as (st & P' & E & _ & _ & D & Ff & _).
  { intros f _. unfold demo_pool. by rewrite new_Pool_frame. }
  specialize (Ff ltac:(apply demo_disk_ok) eq_refl). subst st. exists P'. split; [exact E|].
  destruct (D eq_refl) as [_ H]. apply H. lia.
Defined.
