(* ===== verification/PoolThreads.v ===== *)
(** * The buffer pool under several threads: src/src/buffer/buffer_pool_manager.cpp,
    page_guard.cpp

    Every operation of the pool cut into the pieces that run without interruption: one
    critical section under the metadata mutex and the shard locks around it, one atomic
    operation on an epoch or on the replacer, one call of the disk manager.  A thread is at a
    program point ([Pc]) and holds guards; [exec] runs one piece.  [DeletePage] keeps its
    shard locked over several pieces, so the pieces that need that shard are blocked
    meanwhile.  A sleeper on a frame's condition variable is woken by [notify_all] or for no
    reason at all.  A failed [assert] and the abort on a duplicate mapping are [Aborts]; the
    bounds asserts of FrameAt and of the replacer are not checked, since these lookups are total
    here and the invariant keeps every frame id in range.  The two loads of IsDirty are one
    piece.  The constructor and Shutdown, which belong to one thread, and GetStats, which
    only reads, are in BufferPool.v. *)

From stdpp Require Import gmap.
From S2P Require Import Prelude Common DiskManager Replacer PoolIndex BufferPool.

(** What a thread wants a frame for, and who called [FlushFrame]. *)
Inductive Need := NeedFetch (w : bool) (p : Z) | NeedNew.
Inductive Caller := InFlushPage | InFlushAll (next : nat) (st : Status) | InReclaim (k : Need).

Inductive Pc :=
| Idle
(** FetchFrame, hit path *)
| Lookup (w : bool) (p : Z)
| Waits (f : Z) (w : bool) (p : Z) (from_zero : bool)
| Refuses (f : Z)
| Touches (f : Z) (w : bool) (p : Z) (from_zero : bool)
| Unevicts (f : Z) (w : bool) (p : Z)
| Latches (f : Z) (w : bool) (p : Z)
(** AcquireFrame and ReclaimFrame *)
| Pops (k : Need)
| Evicts (k : Need)
| Peeks (f : Z) (k : Need)
| Validates (f p : Z) (k : Need)
| Revalidates (f p : Z) (k : Need)
| GivesBack (f : Z) (k : Need) (failed : option Status)
(** FlushFrame, and the unpin that follows it in FlushPage and FlushAllPages *)
| Checks (f p : Z) (r : Caller)
| Shares (f p : Z) (r : Caller)
| Samples (f p : Z) (r : Caller)
| Writes (f p : Z) (r : Caller) (D : Z)
| Unshares (f p : Z) (r : Caller) (D : Z) (st : Status)
| Marks (f p : Z) (r : Caller) (D : Z)
| Unpins (f : Z) (r : Caller) (st : Status)
(** FetchFrame, miss path; AbandonLoad *)
| Publishes (f : Z) (w : bool) (p : Z)
| Reads (f : Z) (w : bool) (p : Z)
| Completes (f : Z) (w : bool) (p : Z)
| Unmaps (f p : Z) (st : Status)
| Declares (f : Z) (st : Status)
| Drains (f : Z) (st : Status)
| Restocks (f : Z) (st : Status)
(** NewPage *)
| Allocates (f : Z)
| Stamps (f p : Z)
| Fills (f p : Z)
| Resets (f p : Z)
| Maps (f p : Z)
| Records (f p : Z)
| Seizes (f p : Z)
(** FlushPage, FlushAllPages *)
| Finds (p : Z)
| Visits (next : nat) (st : Status)
(** DeletePage *)
| Deletes (p : Z)
| Withdraws (f p : Z)
| Deallocates (f : option Z) (p : Z)
| Returns (f p : Z) (st : Status)
(** Drop of a guard *)
| Dirties (g : PageGuard)
| Unlatches (g : PageGuard)
| Leaves (f : Z).

(** What a piece tells the outside: a call returned, a guard was handed out, bytes were
    stored, a page came into being or went away, the disk failed on its own bookkeeping. *)
Inductive Event :=
| Silent
| Returned (st : Status)
| Opened (g : PageGuard)
| Created (g : PageGuard)
| Stored (p : Z) (bs : list byte)
| Removed (p : Z)
| DiskFault (st : Status).

Inductive Outcome :=
| Blocks
| Aborts
| Sleeps
| Goes (P : Pool) (next : Pc) (gs : list PageGuard) (notify : option Z) (ev : Event).

(** [FrameAt(f)] updated in place. *)
Definition upd (f : Z) (g : Frame -> Frame) (P : Pool) : Pool := set_frame f (g (FrameAt f P)) P.
Definition push_free (f : Z) (P : Pool) : Pool := set_free_list (Push f (free_list P)) P.
Definition unmap (p : Z) (P : Pool) : Pool := set_page_table (Erase p (page_table P)) P.
Definition to_free (pins : Z) (f : Frame) : Frame := ResetEpochs (set_meta Free INVALID_PAGE pins f).

(** Where a thread goes with the frame it was after, and when [FlushFrame] returns. *)
Definition acquired_frame (f : Z) (k : Need) : Pc :=
  match k with NeedFetch w p => Publishes f w p | NeedNew => Allocates f end.
Definition after_flush (f p : Z) (r : Caller) (st : Status) : Pc :=
  match r with
  | InReclaim k => if ok st then Revalidates f p k else GivesBack f k (Some st)
  | _ => Unpins f r st
  end.

Section threads.
Context {errno_text : ErrnoText} {host : Host}.

(** [UnpinPage] as one critical section: the sleepers of a failed frame are notified. *)
Definition unpin (f : Z) (P : Pool) (k : Pool -> option Z -> Outcome) : Outcome :=
  let fr := FrameAt f P in
  if pin_count fr <=? 0 then Aborts
  else match UnpinPage f P with
       | None => Aborts
       | Some (_, P) => k P (if bool_decide (state fr = Failed) then Some f else None)
       end.

(** One piece of the operation the thread is in.  [env] is what other threads do to the usage
    counts while [Evict] sweeps. *)
Definition exec (env : nat -> list Z) (c : Pc) (gs : list PageGuard) (P : Pool) : Outcome :=
  let go P c := Goes P c gs None Silent in
  let return_ P st := Goes P Idle gs None (Returned st) in
  match c with
  | Idle => Blocks
  | Lookup w p =>
      match Find p (page_table P) with
      | None => go P (Pops (NeedFetch w p))
      | Some f =>
          let n := pin_count (FrameAt f P) in
          go (upd f (set_pin (n + 1)) P) (Waits f w p (n =? 0))
      end
  | Waits f w p from_zero =>
      match state (FrameAt f P) with
      | Loading => Sleeps
      | Resident => go P (Touches f w p from_zero)
      | Failed => go P (Refuses f)
      | Free => Aborts
      end
  | Refuses f =>
      unpin f P (fun P notify =>
        Goes P Idle gs notify (Returned (IOError ("unable to fetch frame " +:+ pretty f))))
  | Touches f w p from_zero =>
      go (set_replacer (RecordAccess f (replacer P)) P) (if from_zero then Unevicts f w p else Latches f w p)
  | Unevicts f w p => go (set_replacer (SetEvictable f false (replacer P)) P) (Latches f w p)
  | Latches f w p =>
      match (if w then AcquireWrite else AcquireRead) (FrameAt f P) with
      | None => Blocks
      | Some fr => let g := mkGuard w f p true in Goes (set_frame f fr P) Idle (g :: gs) None (Opened g)
      end
  | Pops k =>
      match TryPop (free_list P) with
      | (Some f, l) => go (set_free_list l P) (acquired_frame f k)
      | (None, l) => go (set_free_list l P) (Evicts k)
      end
  | Evicts k =>
      match Evict env (replacer P) with
      | (None, r) => return_ (set_replacer r P) (BufferPoolFull "buffer full")
      | (Some victim, r) => go (set_replacer r P) (Peeks victim k)
      end
  | Peeks f k =>
      let fr := FrameAt f P in
      if bool_decide (state fr <> Resident) || negb (pin_count fr =? 0) then go P (Evicts k)
      else go P (Validates f (page_id fr) k)
  | Validates f p k =>
      let fr := FrameAt f P in
      if bool_decide (state fr <> Resident) || negb (pin_count fr =? 0) || negb (page_id fr =? p)
      then go P (Evicts k)
      else if bool_decide (Find p (page_table P) <> Some f) then Aborts
      else if negb (IsDirty fr) then go (upd f (to_free (pin_count fr)) (unmap p P)) (acquired_frame f k)
      else go (upd f (set_pin (pin_count fr + 1)) P) (Checks f p (InReclaim k))
  | Revalidates f p k =>
      let fr := FrameAt f P in
      if bool_decide (state fr = Resident) && (page_id fr =? p) && (pin_count fr =? 1) && negb (IsDirty fr)
      then
        if bool_decide (Find p (page_table P) <> Some f) then Aborts
        else go (upd f (to_free 0) (unmap p P)) (acquired_frame f k)
      else go P (GivesBack f k None)
  | GivesBack f k failed =>
      unpin f P (fun P notify =>
        match failed with
        | Some st => Goes P Idle gs notify (Returned st)
        | None => Goes P (Evicts k) gs notify Silent
        end)
  | Checks f p r =>
      go P (if IsDirty (FrameAt f P) then Shares f p r else after_flush f p r StatusOK)
  | Shares f p r =>
      match AcquireRead (FrameAt f P) with
      | None => Blocks
      | Some fr => go (set_frame f fr P) (Samples f p r)
      end
  | Samples f p r => go P (Writes f p r (SampleDirtyEpoch (FrameAt f P)))
  | Writes f p r D =>
      let '(st, d) := WritePage p (data (FrameAt f P)) (disk P) in
      go (set_disk d P) (Unshares f p r D st)
  | Unshares f p r D st =>
      go (upd f ReleaseRead P) (if ok st then Marks f p r D else after_flush f p r st)
  | Marks f p r D => go (upd f (MarkFlushed D) P) (after_flush f p r StatusOK)
  | Unpins f r st =>
      unpin f P (fun P notify =>
        match r with
        | InFlushAll next first =>
            Goes P (Visits next (if ok first && negb (ok st) then st else first)) gs notify Silent
        | _ => Goes P Idle gs notify (Returned st)
        end)
  | Publishes f w p =>
      match Find p (page_table P) with
      | Some _ => go (push_free f P) (Lookup w p)
      | None =>
          match Insert p f (page_table P) with
          | None => Aborts
          | Some t =>
              go (upd f (fun fr => ResetEpochs (set_meta Loading p 1 fr)) (set_page_table t P)) (Reads f w p)
          end
      end
  | Reads f w p =>
      let '(st, bytes, d) := ReadPage p (data (FrameAt f P)) (disk P) in
      let P := upd f (set_data bytes) (set_disk d P) in
      if negb (ok st) then go P (Unmaps f p st)
      else
        let header := PageHeader_ReadFrom (slice 0 PAGE_HEADER_SIZE bytes) in
        if bool_decide (ph_page_type header = FREE) || negb (ph_page_id header =? p) then
          go P (Unmaps f p
            (if bool_decide (ph_page_type header = FREE)
             then InvalidArgument ("page " +:+ pretty p +:+ " is not allocated")
             else Corruption ("page " +:+ pretty p +:+ " header claims to be page " +:+ pretty (ph_page_id header))))
        else go P (Completes f w p)
  | Completes f w p =>
      Goes (upd f (fun fr => set_meta Resident (page_id fr) (pin_count fr) fr) P) (Touches f w p false) gs (Some f) Silent
  | Unmaps f p st => go (unmap p P) (Declares f st)
  | Declares f st =>
      if page_id (FrameAt f P) <? 1 then Aborts
      else Goes (upd f (fun fr => set_meta Failed (page_id fr) (pin_count fr) fr) P) (Drains f st) gs (Some f) Silent
  | Drains f st =>
      if pin_count (FrameAt f P) =? 1 then go (upd f (to_free 0) P) (Restocks f st) else Sleeps
  | Restocks f st => return_ (push_free f P) st
  | Allocates f =>
      match AllocatePage (disk P) with
      | (Error st, d) => Goes (set_disk d P) (Restocks f st) gs None (DiskFault st)
      | (Ok p, d) => go (set_disk d P) (Stamps f p)
      end
  | Stamps f p => go (upd f (set_meta Resident p 1) P) (Fills f p)
  | Fills f p => go (upd f (set_data (fresh_page p)) P) (Resets f p)
  | Resets f p => go (upd f ResetEpochs P) (Maps f p)
  | Maps f p =>
      match Insert p f (page_table P) with
      | None => Aborts
      | Some t => go (set_page_table t P) (Records f p)
      end
  | Records f p => go (set_replacer (RecordAccess f (replacer P)) P) (Seizes f p)
  | Seizes f p =>
      match AcquireWrite (FrameAt f P) with
      | None => Blocks
      | Some fr => let g := mkGuard true f p true in Goes (set_frame f fr P) Idle (g :: gs) None (Created g)
      end
  | Finds p =>
      match Find p (page_table P) with
      | None => return_ P StatusOK
      | Some f =>
          let fr := FrameAt f P in
          if bool_decide (state fr <> Resident) then return_ P StatusOK
          else go (upd f (set_pin (pin_count fr + 1)) P) (Checks f p InFlushPage)
      end
  | Visits next st =>
      let f := Z.of_nat next in
      if capacity P <=? f then return_ P st
      else
        let fr := FrameAt f P in
        if bool_decide (state fr <> Resident) then go P (Visits (S next) st)
        else go (upd f (set_pin (pin_count fr + 1)) P) (Checks f (page_id fr) (InFlushAll (S next) st))
  | Deletes p =>
      match Find p (page_table P) with
      | None => Goes P (Deallocates None p) gs None (Removed p)
      | Some f =>
          let fr := FrameAt f P in
          if negb (pin_count fr =? 0) then
            return_ P (InvalidArgument ("page " +:+ pretty p +:+ " is pinned (" +:+ pretty (pin_count fr) +:+
                         " holders) and cannot be deleted"))
          else if bool_decide (state fr <> Resident) then Aborts
          else Goes (unmap p (upd f (to_free (pin_count fr)) P)) (Withdraws f p) gs None (Removed p)
      end
  | Withdraws f p => go (set_replacer (SetEvictable f false (replacer P)) P) (Deallocates (Some f) p)
  | Deallocates f p =>
      let '(st, d) := DeallocatePage p (disk P) in
      Goes (set_disk d P) (match f with Some f => Returns f p st | None => Idle end) gs None
        (if negb (ok st) then DiskFault st else match f with Some _ => Silent | None => Returned st end)
  | Returns f p st => return_ (push_free f P) st
  | Dirties g => go (upd (g_frame g) MarkDirty P) (Unlatches g)
  | Unlatches g => go (upd (g_frame g) (if g_write g then ReleaseWrite else ReleaseRead) P) (Leaves (g_frame g))
  | Leaves f => unpin f P (fun P notify => Goes P Idle gs notify (Returned StatusOK))
  end.

(** ** Calls from above *)

(** What a holder of a write guard can do to the page. *)
Inductive Edit := EditBody (body : list byte) | EditType (t : PageType) | EditFlags (v : Z) | EditNext (p : Z) | EditPrev (p : Z).

Definition edit (g : PageGuard) (e : Edit) : M unit :=
  match e with
  | EditBody body => GuardSetBody g body
  | EditType t => SetPageType g t
  | EditFlags v => SetFlags g v
  | EditNext p => SetNextPageId g p
  | EditPrev p => SetPrevPageId g p
  end.

(** The span a body is written through has the length of the body. *)
Definition edit_fits (e : Edit) : bool :=
  match e with EditBody body => len body =? PAGE_BODY_SIZE | _ => true end.

Inductive Action :=
| CallFetch (w : bool) (p : Z)
| CallNew
| CallFlush (p : Z)
| CallFlushAll
| CallDelete (p : Z)
| CallDrop (i : nat)
| CallEdit (i : nat) (e : Edit).

(** A call up to its first piece; a thread that holds no such guard cannot make it. *)
Definition start (a : Action) (gs : list PageGuard) (P : Pool) : Outcome :=
  match a with
  | CallFetch w p =>
      if (p =? META_PAGE_ID) || (p =? INVALID_PAGE)
      then Goes P Idle gs None (Returned (InvalidArgument "invalid page_id"))
      else Goes P (Lookup w p) gs None Silent
  | CallNew => Goes P (Pops NeedNew) gs None Silent
  | CallFlush p => Goes P (Finds p) gs None Silent
  | CallFlushAll => Goes P (Visits 0 StatusOK) gs None Silent
  | CallDelete p =>
      if (p =? META_PAGE_ID) || (p =? CATALOG_ROOT_PAGE_ID)
      then Goes P Idle gs None
             (Returned (InvalidArgument ("page " +:+ pretty p +:+ " is reserved and cannot be deleted")))
      else Goes P (Deletes p) gs None Silent
  | CallDrop i =>
      match gs !! i with
      | None => Blocks
      | Some g => Goes P (if g_write g then Dirties g else Unlatches g) (delete i gs) None Silent
      end
  | CallEdit i e =>
      match gs !! i with
      | None => Blocks
      | Some g =>
          if negb (g_write g && edit_fits e) then Blocks
          else match edit g e P with
               | None => Aborts
               | Some (_, P) => Goes P Idle gs None (Stored (g_page g) (data (FrameAt (g_frame g) P)))
               end
      end
  end.

(** ** Threads over one pool *)

Record Thread := mkThread { pc : Pc; guards : list PageGuard; asleep : bool }.

(** [alive] are the pages clients may name: created or found on disk, and not deleted. *)
Record Conf := mkConf { pool : Pool; threads : list Thread; alive : gset Z }.

(** The page whose shard the next piece locks, and the one whose shard is locked between
    pieces. *)
Definition shard_needed (c : Pc) : option Z :=
  match c with
  | Lookup _ p | Validates _ p _ | Revalidates _ p _ | Publishes _ _ p | Unmaps _ p _ | Maps _ p
  | Finds p | Deletes p => Some p
  | _ => None
  end.
Definition shard_held (c : Pc) : option Z :=
  match c with Withdraws _ p | Deallocates _ p | Returns _ p _ => Some p | _ => None end.

Definition locks_out (c : Pc) (t : Thread) : bool :=
  match shard_needed c, shard_held (pc t) with
  | Some p, Some q => ShardIndex p =? ShardIndex q
  | _, _ => false
  end.

(** [cv_.notify_all()] of frame [f]. *)
Definition wake (f : Z) (t : Thread) : Thread :=
  match pc t with
  | Waits g _ _ _ | Drains g _ => if g =? f then mkThread (pc t) (guards t) false else t
  | _ => t
  end.
Definition notify_all (o : option Z) (ts : list Thread) : list Thread :=
  match o with None => ts | Some f => wake f <$> ts end.

Definition alive_after (ev : Event) (A : gset Z) : gset Z :=
  match ev with Created g => {[ g_page g ]} ∪ A | Removed p => A ∖ {[ p ]} | _ => A end.

Inductive Move :=
| Run (t : nat) (env : nat -> list Z)
| Call (t : nat) (a : Action)
| Wake (t : nat).

Inductive Step :=
| Disabled
| Crashes
| Next (C : Conf) (ev : Event).

Definition commit (t : nat) (th : Thread) (o : Outcome) (C : Conf) : Step :=
  match o with
  | Blocks => Disabled
  | Aborts => Crashes
  | Sleeps => Next (mkConf (pool C) (<[t := mkThread (pc th) (guards th) true]> (threads C)) (alive C)) Silent
  | Goes P c gs notify ev =>
      Next (mkConf P (notify_all notify (<[t := mkThread c gs false]> (threads C))) (alive_after ev (alive C))) ev
  end.

Definition step (m : Move) (C : Conf) : Step :=
  match m with
  | Run t env =>
      match threads C !! t with
      | None => Disabled
      | Some th =>
          if asleep th || existsb (locks_out (pc th)) (threads C) then Disabled
          else commit t th (exec env (pc th) (guards th) (pool C)) C
      end
  | Call t a =>
      match threads C !! t with
      | None => Disabled
      | Some th =>
          match pc th with Idle => commit t th (start a (guards th) (pool C)) C | _ => Disabled end
      end
  | Wake t =>
      match threads C !! t with
      | None => Disabled
      | Some th =>
          if asleep th
          then Next (mkConf (pool C) (<[t := mkThread (pc th) (guards th) false]> (threads C)) (alive C)) Silent
          else Disabled
      end
  end.

(** ** What the layer above owes the pool *)

(** The page a thread is fetching and does not yet hold, or is about to delete. *)
Definition need_page (k : Need) : option Z := match k with NeedFetch _ p => Some p | NeedNew => None end.
Definition caller_need (r : Caller) : option Z := match r with InReclaim k => need_page k | _ => None end.
Definition fetching (c : Pc) : option Z :=
  match c with
  | Lookup _ p | Publishes _ _ p => Some p
  | Pops k | Evicts k | Peeks _ k | Validates _ _ k | Revalidates _ _ k | GivesBack _ k _ => need_page k
  | Checks _ _ r | Shares _ _ r | Samples _ _ r | Writes _ _ r _ | Unshares _ _ r _ _ | Marks _ _ r _
  | Unpins _ r _ => caller_need r
  | _ => None
  end.
Definition deleting (c : Pc) : option Z := match c with Deletes p => Some p | _ => None end.

Definition involved (p : Z) (t : Thread) : bool :=
  bool_decide (fetching (pc t) = Some p) || bool_decide (deleting (pc t) = Some p).

(** A page is fetched or deleted only while it exists, and not while another thread is
    deleting it; it is not deleted while another thread is still looking for it.  Page ids
    and the environment of a sweep stay in range. *)
Definition allowed (m : Move) (C : Conf) : Prop :=
  page_count (disk (pool C)) + 1 < 2 ^ 31 - 1 /\
  match m with
  | Run _ env => forall k, Forall (fun f => 0 <= f < capacity (pool C)) (env k)
  | Call _ (CallFetch _ p) =>
      p = META_PAGE_ID \/ p = INVALID_PAGE \/
      (p ∈ alive C /\ forall t, t ∈ threads C -> deleting (pc t) <> Some p)
  | Call _ (CallDelete p) =>
      p = META_PAGE_ID \/ p = CATALOG_ROOT_PAGE_ID \/
      (p ∈ alive C /\ forall t, t ∈ threads C -> involved p t = false)
  | _ => True
  end.

(** Runs: the moves are allowed, and the disk manager's own bookkeeping does not fail. *)
Inductive steps : nat -> Conf -> list Event -> Conf -> Prop :=
| steps_none C : steps 0 C [] C
| steps_more n C1 evs C2 m ev C3 :
    steps n C1 evs C2 -> allowed m C2 -> step m C2 = Next C3 ev -> (forall st, ev <> DiskFault st) ->
    steps (S n) C1 (evs ++ [ev]) C3.

Definition fresh_conf (d : Disk) (cap : Z) (workers : nat) (A : gset Z) : Conf :=
  mkConf (new_Pool d cap) (replicate workers (mkThread Idle [] false)) A.
End threads.
