(* ===== verification/PoolTokens.v ===== *)
(** * Tokens of the threads over a pool

    What each program point of [PoolThreads] stands for, as a list of tokens: a pin, a share
    of a latch, a frame in hand, a load or a creation in progress, a page being created or
    deleted, a candidate under inspection.  Counting tokens over all threads and guards
    relates every frame's fields to the threads that use it. *)

From stdpp Require Import gmap.
From S2P Require Import Prelude Common DiskManager Replacer PoolIndex BufferPool PoolThreads.

Inductive Kind :=
| KPin | KRead | KWrite
(** a free frame in hand *)
| KOwn
(** the loader of a frame, the creator of a frame's page *)
| KLoad | KNew
(** a page that is being created or deleted *)
| KPage
(** a candidate taken from the replacer, and one whose page has been peeked *)
| KClaim | KAim (p : Z)
(** a writer that has marked its page dirty and not let go of the latch, a flusher that has
    written the page as of an epoch and not yet recorded it *)
| KBump | KMark (D : Z)
(** the creation of a page in a frame *)
| KMake (p : Z).

Definition kind_eqb (a b : Kind) : bool :=
  match a, b with
  | KPin, KPin | KRead, KRead | KWrite, KWrite | KOwn, KOwn | KLoad, KLoad | KNew, KNew | KPage, KPage
  | KClaim, KClaim | KBump, KBump => true
  | KAim p, KAim q | KMark p, KMark q | KMake p, KMake q => p =? q
  | _, _ => false
  end.

Abbreviation Token := (Kind * Z)%type.

Definition is_token (k : Kind) (x : Z) (t : Token) : Z := if kind_eqb k t.1 && (x =? t.2) then 1 else 0.
Fixpoint occ (k : Kind) (x : Z) (l : list Token) : Z :=
  match l with [] => 0 | t :: l => is_token k x t + occ k x l end.

Definition holds (c : Pc) : list Token :=
  match c with
  | Idle | Lookup _ _ | Pops _ | Evicts _ | Finds _ | Visits _ _ | Deletes _ => []
  | Peeks f _ => [(KClaim, f)]
  | Validates f p _ => [(KAim p, f)]
  | Waits f _ _ _ | Refuses f | Touches f _ _ _ | Unevicts f _ _ | Latches f _ _ | Revalidates f _ _
  | GivesBack f _ _ | Checks f _ _ | Shares f _ _ | Unpins f _ _ | Leaves f => [(KPin, f)]
  | Marks f _ _ D => [(KPin, f); (KMark D, f)]
  | Samples f _ _ | Writes f _ _ _ | Unshares f _ _ _ _ => [(KPin, f); (KRead, f)]
  | Publishes f _ _ | Allocates f | Restocks f _ | Returns f _ _ => [(KOwn, f)]
  | Reads f _ _ | Completes f _ _ | Unmaps f _ _ | Declares f _ | Drains f _ => [(KPin, f); (KLoad, f)]
  | Stamps f p | Withdraws f p | Deallocates (Some f) p => [(KOwn, f); (KPage, p)]
  | Deallocates None p => [(KPage, p)]
  | Fills f p | Resets f p | Maps f p | Records f p | Seizes f p => [(KPin, f); (KNew, f); (KMake p, f); (KPage, p)]
  | Dirties g => [(KPin, g_frame g); (KWrite, g_frame g)]
  | Unlatches g =>
      if g_write g then [(KPin, g_frame g); (KWrite, g_frame g); (KBump, g_frame g)]
      else [(KPin, g_frame g); (KRead, g_frame g)]
  end.

Definition guard_holds (g : PageGuard) : list Token :=
  [(KPin, g_frame g); (if g_write g then KWrite else KRead, g_frame g)].
Definition guards_hold (gs : list PageGuard) : list Token := concat (guard_holds <$> gs).
Definition thread_holds (t : Thread) : list Token := holds (pc t) ++ guards_hold (guards t).

Fixpoint total (k : Kind) (x : Z) (ts : list Thread) : Z :=
  match ts with [] => 0 | t :: ts => occ k x (thread_holds t) + total k x ts end.

(** Tokens of a list added to those counted by [oth]. *)
Definition plus (oth : Kind -> Z -> Z) (l : list Token) : Kind -> Z -> Z := fun k x => oth k x + occ k x l.

(** ** Counting *)

Lemma occ_app k x l l' : occ k x (l ++ l') = occ k x l + occ k x l'.
Proof. induction l as [|t l IH]; simpl; [lia|]. rewrite IH. lia. Qed.

Lemma occ_nonneg k x l : 0 <= occ k x l.
Proof. induction l as [|t l IH]; simpl; [lia|]. unfold is_token. destruct (_ && _); lia. Qed.

Lemma occ_in k x l : (k, x) ∈ l -> 0 < occ k x l.
Proof.
  induction l as [|t l IH]; [by intros H%elem_of_nil|]. rewrite elem_of_cons. pose proof (occ_nonneg k x l) as N. intros [<-|H]; simpl.
  - unfold is_token; simpl. rewrite Z.eqb_refl, andb_true_r. replace (kind_eqb k k) with true; [lia|].
    destruct k; simpl; try done; by rewrite Z.eqb_refl.
  - unfold is_token. specialize (IH H). destruct (_ && _); lia.
Qed.

Lemma guards_hold_app gs gs' : guards_hold (gs ++ gs') = guards_hold gs ++ guards_hold gs'.
Proof. unfold guards_hold. by rewrite fmap_app, concat_app. Qed.

Lemma occ_guards_delete k x gs i g :
  gs !! i = Some g -> occ k x (guards_hold gs) = occ k x (guard_holds g) + occ k x (guards_hold (delete i gs)).
Proof.
  intros H. rewrite <- (take_drop_middle gs i g H) at 1. rewrite delete_take_drop.
  change (g :: ?l) with ([g] ++ l). rewrite !guards_hold_app, !occ_app. change (guards_hold [g]) with (guard_holds g). lia.
Qed.

Lemma total_insert k x ts i t t' :
  ts !! i = Some t ->
  total k x (<[i := t']> ts) = total k x ts - occ k x (thread_holds t) + occ k x (thread_holds t').
Proof.
  revert i. induction ts as [|u ts IH]; intros [|i] H; simpl in *; try done.
  - injection H as ->. lia.
  - rewrite (IH i H). lia.
Qed.

Lemma total_nonneg k x ts : 0 <= total k x ts.
Proof. induction ts as [|t ts IH]; simpl; [lia|]. pose proof (occ_nonneg k x (thread_holds t)). lia. Qed.

(** A thread's tokens are among all, and so are those of a second thread beside it. *)
Lemma total_member k x ts i t : ts !! i = Some t -> occ k x (thread_holds t) <= total k x ts.
Proof.
  revert i. induction ts as [|u ts IH]; intros [|i] H; simpl in *; try done.
  - injection H as ->. pose proof (total_nonneg k x ts). lia.
  - specialize (IH i H). pose proof (occ_nonneg k x (thread_holds u)). lia.
Qed.

Lemma total_members k x ts i j t u :
  ts !! i = Some t -> ts !! j = Some u -> i <> j ->
  occ k x (thread_holds u) <= total k x ts - occ k x (thread_holds t).
Proof.
  intros Hi Hj Hne.
  assert (Hj' : <[i := mkThread Idle [] false]> ts !! j = Some u) by (by rewrite list_lookup_insert_ne).
  pose proof (total_member k x _ _ _ Hj') as M. rewrite (total_insert k x ts i t _ Hi) in M. simpl in M. lia.
Qed.

Lemma total_fmap k x (h : Thread -> Thread) ts :
  (forall t, thread_holds (h t) = thread_holds t) -> total k x (h <$> ts) = total k x ts.
Proof. intros H. induction ts as [|t ts IH]; [done|]. rewrite fmap_cons. cbn [total]. by rewrite H, IH. Qed.

Lemma wake_pc f t : pc (wake f t) = pc t.
Proof. unfold wake. destruct (pc t) eqn:E; try done; by destruct (_ =? f). Qed.
Lemma wake_guards f t : guards (wake f t) = guards t.
Proof. unfold wake. destruct (pc t) eqn:E; try done; by destruct (_ =? f). Qed.
Lemma wake_holds f t : thread_holds (wake f t) = thread_holds t.
Proof. unfold thread_holds. by rewrite wake_pc, wake_guards. Qed.

Lemma total_notify k x o ts : total k x (notify_all o ts) = total k x ts.
Proof. destruct o as [f|]; simpl; [|done]. apply total_fmap. intros t. apply wake_holds. Qed.

(** A latch, a load and a creation are held together with a pin, one per pin, and only a
    writer has marked its page dirty; so is a flush to be recorded; a page is
    created by the thread that has it in hand. *)
Definition covered (cnt : Kind -> Z -> Z) : Prop :=
  forall x, cnt KRead x + cnt KWrite x + cnt KLoad x + cnt KNew x <= cnt KPin x /\ cnt KBump x <= cnt KWrite x /\
    (forall D, cnt (KMark D) x <= cnt KPin x) /\ forall p, cnt (KMake p) x <= cnt KPage p.

Ltac count_tokens :=
  split; [|split; [|split; intros ?]]; cbn; unfold is_token; cbn;
  repeat match goal with |- context [?a =? ?b] => destruct (Z.eqb_spec a b) end; cbn; lia.

Lemma covered_holds c : covered (fun k x => occ k x (holds c)).
Proof. intros x. destruct c; try (destruct f); cbn [holds]; try destruct (g_write _); count_tokens. Qed.

Lemma covered_guard g : covered (fun k x => occ k x (guard_holds g)).
Proof. intros x. unfold guard_holds. destruct (g_write g); count_tokens. Qed.

Lemma covered_guards gs : covered (fun k x => occ k x (guards_hold gs)).
Proof.
  intros x. induction gs as [|g gs IH]; [done|]. change (guards_hold (g :: gs)) with (guard_holds g ++ guards_hold gs).
  destruct (covered_guard g x) as (G1 & G2 & G3 & G4). destruct IH as (I1 & I2 & I3 & I4). cbn beta in *.
  rewrite !occ_app. split; [lia|]. split; [lia|]. split; intros D; [specialize (G3 D); specialize (I3 D)|specialize (G4 D); specialize (I4 D)]; rewrite !occ_app; lia.
Qed.

Lemma covered_total ts : covered (fun k x => total k x ts).
Proof.
  intros x. induction ts as [|t ts IH]; [done|]. cbn [total]. unfold thread_holds.
  destruct (covered_holds (pc t) x) as (A1 & A2 & A3 & A4). destruct (covered_guards (guards t) x) as (B1 & B2 & B3 & B4).
  destruct IH as (I1 & I2 & I3 & I4). cbn beta in *.
  rewrite !occ_app. split; [lia|]. split; [lia|]. split; intros D; [specialize (A3 D); specialize (B3 D); specialize (I3 D)|specialize (A4 D); specialize (B4 D); specialize (I4 D)];
    rewrite !occ_app; lia.
Qed.

(** The tokens of all but one thread's program point: its own guards included. *)
Definition beside (t : Thread) (ts : list Thread) : Kind -> Z -> Z := fun k x => total k x ts - occ k x (holds (pc t)).

Lemma beside_nonneg ts i t k x : ts !! i = Some t -> 0 <= beside t ts k x.
Proof.
  intros H. unfold beside. pose proof (total_member k x _ _ _ H) as M. unfold thread_holds in M. rewrite occ_app in M.
  pose proof (occ_nonneg k x (guards_hold (guards t))). lia.
Qed.

Lemma beside_covered ts i t : ts !! i = Some t -> covered (beside t ts).
Proof.
  intros H x.
  assert (E : forall k x, beside t ts k x = total k x (<[i := mkThread Idle (guards t) false]> ts)).
  { intros k y. rewrite (total_insert _ _ ts i t _ H). unfold beside, thread_holds. rewrite !occ_app. cbn [pc guards holds occ]. lia. }
  destruct (covered_total (<[i := mkThread Idle (guards t) false]> ts) x) as (M1 & M2 & M3 & M4). cbn beta in *.
  rewrite !E. split; [done|]. split; [done|]. split; intros D; rewrite !E; [apply M3|apply M4].
Qed.

(** Other threads' program points, and all guards, count in [beside]. *)
Lemma beside_other ts i t j u k x :
  ts !! i = Some t -> ts !! j = Some u -> i <> j -> occ k x (holds (pc u)) <= beside t ts k x.
Proof.
  intros Hi Hj Hne. unfold beside. pose proof (total_members k x _ _ _ _ _ Hi Hj Hne) as M.
  unfold thread_holds in M. rewrite !occ_app in M.
  pose proof (occ_nonneg k x (guards_hold (guards t))). pose proof (occ_nonneg k x (guards_hold (guards u))). lia.
Qed.

Lemma occ_guards_in k x g gs : g ∈ gs -> occ k x (guard_holds g) <= occ k x (guards_hold gs).
Proof.
  intros [i H]%list_elem_of_lookup. rewrite (occ_guards_delete k x gs i g H). pose proof (occ_nonneg k x (guards_hold (delete i gs))). lia.
Qed.

Lemma beside_guard ts i t j u g k x :
  ts !! i = Some t -> ts !! j = Some u -> g ∈ guards u -> occ k x (guard_holds g) <= beside t ts k x.
Proof.
  intros Hi Hj Hg. pose proof (occ_guards_in k x g _ Hg). destruct (decide (i = j)) as [->|Hne].
  - rewrite Hi in Hj. injection Hj as <-. unfold beside. pose proof (total_member k x _ _ _ Hi) as M.
    unfold thread_holds in M. rewrite occ_app in M. lia.
  - unfold beside. pose proof (total_members k x _ _ _ _ _ Hi Hj Hne) as M. unfold thread_holds in M. rewrite !occ_app in M.
    pose proof (occ_nonneg k x (guards_hold (guards t))). pose proof (occ_nonneg k x (holds (pc u))). lia.
Qed.

(** The counts after a step: only the program point and fresh guards are new. *)
Lemma total_step ts i t c' gs' new b k x :
  ts !! i = Some t -> gs' = new ++ guards t ->
  total k x (<[i := mkThread c' gs' b]> ts) = plus (beside t ts) (holds c' ++ guards_hold new) k x.
Proof.
  intros H ->. rewrite (total_insert k x ts i t _ H). unfold plus, beside, thread_holds. cbn [pc guards].
  rewrite guards_hold_app, !occ_app. lia.
Qed.

Lemma total_here ts t k x : total k x ts = plus (beside t ts) (holds (pc t)) k x.
Proof. unfold plus, beside. lia. Qed.
