(* ===== verification/PoolShared.v ===== *)
(** * The invariant of a pool shared by threads

    [core n cnt P A] relates the pool to the tokens [cnt] its users hold: pin counts and
    latches are exactly the tokens, a free frame is on the free list once or in one thread's
    hand, a resident frame not under creation is the one its page is mapped to, and agrees
    with the disk when clean.  [local] is what a thread knows at each program point, [guar]
    what every piece of one thread leaves true for all the others. *)

From stdpp Require Import gmap.
From S2P Require Import Prelude Common DiskManager DiskProofs DiskTheorems Replacer ReplacerTheorems.
From S2P Require Import PoolIndex BufferPool BufferPoolProofs PoolThreads PoolTokens.

Fixpoint times (x : Z) (l : list Z) : Z :=
  match l with [] => 0 | y :: l => (if x =? y then 1 else 0) + times x l end.

Lemma times_nonneg x l : 0 <= times x l.
Proof. induction l as [|y l IH]; simpl; [lia|]. destruct (x =? y); lia. Qed.

Lemma times_app x l l' : times x (l ++ l') = times x l + times x l'.
Proof. induction l as [|y l IH]; simpl; [lia|]. rewrite IH. lia. Qed.

Lemma times_Push x f l : times x (Push f l) = times x l + (if x =? f then 1 else 0).
Proof. unfold Push. rewrite times_app. simpl. lia. Qed.

Lemma times_in x l : x ∈ l -> 0 < times x l.
Proof.
  induction l as [|y l IH]; [by intros H%elem_of_nil|]. rewrite elem_of_cons. pose proof (times_nonneg x l) as N. simpl.
  intros [<-|H]; [rewrite Z.eqb_refl; lia|]. specialize (IH H). destruct (x =? y); lia.
Qed.

Lemma times_le_1 l : (forall x, times x l <= 1) -> NoDup l.
Proof.
  induction l as [|y l IH]; [constructor|]. intros H. constructor.
  - intros Hin%times_in. specialize (H y). simpl in H. rewrite Z.eqb_refl in H. lia.
  - apply IH. intros x. specialize (H x). simpl in H. destruct (x =? y); lia.
Qed.

Definition in_transit (s : FrameState) : bool := match s with Loading | Failed => true | _ => false end.

(** ** One frame *)

Record frame_inv (n : Z) (cnt : Kind -> Z -> Z) (free : FreeList) (t : PageTable) (candidate : bool)
    (file : list byte) (A : gset Z) (f : Z) (fr : Frame) : Prop := {
  fi_len : len (data fr) = PAGE_SIZE;
  fi_epochs : 0 <= flushed_epoch fr <= dirty_epoch fr /\ dirty_epoch fr <= n;
  fi_pins : pin_count fr = cnt KPin f;
  fi_reads : readers fr = cnt KRead f;
  fi_writes : (if writer fr then 1 else 0) = cnt KWrite f;
  fi_latch : writer fr = true -> readers fr = 0;
  fi_own : cnt KOwn f + times f free = if bool_decide (state fr = Free) then 1 else 0;
  fi_load : cnt KLoad f = if in_transit (state fr) then 1 else 0;
  fi_new : cnt KNew f <= if bool_decide (state fr = Resident) then 1 else 0;
  fi_cold : state fr <> Resident \/ 0 < cnt KNew f -> dirty_epoch fr = 0 /\ readers fr = 0 /\ writer fr = false;
  fi_free : state fr = Free -> pin_count fr = 0;
  fi_page : state fr <> Free -> 2 <= page_id fr;
  fi_home : state fr = Resident -> cnt KNew f = 0 -> Find (page_id fr) t = Some f /\ page_id fr ∈ A;
  fi_clean : state fr = Resident -> cnt KNew f = 0 -> flushed_epoch fr = dirty_epoch fr -> writer fr = false ->
    data fr = page_bytes (page_id fr) file;
  fi_bumped : 0 < cnt KBump f -> flushed_epoch fr < dirty_epoch fr;
  fi_marks : forall D, 0 < cnt (KMark D) f -> 0 <= D <= dirty_epoch fr /\
    (D = dirty_epoch fr -> cnt KBump f = 0 /\
     (state fr = Resident -> cnt KNew f = 0 -> writer fr = false -> data fr = page_bytes (page_id fr) file));
  fi_fresh : state fr = Resident -> 0 < cnt KNew f -> 0 < cnt (KMake (page_id fr)) f;
  fi_candidate : state fr = Resident -> pin_count fr = 0 ->
    candidate = true \/ 0 < cnt KClaim f \/ 0 < cnt (KAim (page_id fr)) f
}.

(** ** The pool *)

Definition frame_at_ok (n : Z) (cnt : Kind -> Z -> Z) (P : Pool) (A : gset Z) (f : Z) : Prop :=
  frame_inv n cnt (free_list P) (page_table P) (evictable_at f (replacer P)) (file (disk P)) A f (FrameAt f P).

(** Every page of the file is known to clients, in one thread's hand, on the freelist, or lost. *)
Record pages_ok (cnt : Kind -> Z -> Z) (d : Disk) (A : gset Z) (l : list Z) : Prop := {
  pg_disk : disk_ok d l;
  pg_one : forall p, cnt KPage p <= 1;
  pg_alive : forall p, p ∈ A -> cnt KPage p = 0 /\ (p ∉ l) /\ 2 <= p < page_count d;
  pg_busy : forall p, 0 < cnt KPage p -> (p ∉ l) /\ 2 <= p < page_count d
}.

Record core (n : Z) (cnt : Kind -> Z -> Z) (P : Pool) (A : gset Z) : Prop := {
  co_cap : 0 < capacity P < 2 ^ 31;
  co_rep : replacer_ok (replacer P);
  co_rep_len : length (usage_count (replacer P)) = length (frames P);
  co_table : table_ok (page_table P);
  co_free : forall f, f ∈ free_list P -> 0 <= f < capacity P;
  co_frames : forall f, 0 <= f < capacity P -> frame_at_ok n cnt P A f;
  co_map : forall p f, Find p (page_table P) = Some f ->
    0 <= f < capacity P /\ page_id (FrameAt f P) = p /\
    (state (FrameAt f P) = Resident \/ state (FrameAt f P) = Loading) /\ (p ∈ A \/ 0 < cnt KPage p);
  co_pages : exists l, pages_ok cnt (disk P) A l
}.

(** ** What a thread knows *)

Definition in_pool (P : Pool) (f : Z) : Prop := 0 <= f < capacity P.
(** A pinned frame that holds page [p], and one whose page is not under creation. *)
Definition pinned_at (P : Pool) (f p : Z) : Prop :=
  in_pool P f /\ state (FrameAt f P) = Resident /\ page_id (FrameAt f P) = p.
Definition resident_at (P : Pool) (A : gset Z) (f p : Z) : Prop := pinned_at P f p /\ p ∈ A.
Definition loading_at (P : Pool) (A : gset Z) (f p : Z) : Prop :=
  in_pool P f /\ state (FrameAt f P) = Loading /\ page_id (FrameAt f P) = p /\
  Find p (page_table P) = Some f /\ p ∈ A.

Definition local (P : Pool) (A : gset Z) (c : Pc) : Prop :=
  match c with
  | Idle | Lookup _ _ | Pops _ | Evicts _ | Finds _ | Visits _ _ | Deletes _ => True
  | Peeks f _ | Validates f _ _ | Publishes f _ _ | Allocates f | Restocks f _ | Returns f _ _ => in_pool P f
  | Waits f _ p _ =>
      in_pool P f /\ state (FrameAt f P) <> Free /\ page_id (FrameAt f P) = p /\
      (state (FrameAt f P) = Resident -> p ∈ A)
  | Refuses f => in_pool P f /\ state (FrameAt f P) = Failed
  | Touches f _ p _ | Unevicts f _ p | Latches f _ p | Shares f p _ | Samples f p _ | Marks f p _ _ => resident_at P A f p
  | Revalidates f p _ | Checks f p _ => pinned_at P f p
  | GivesBack f _ _ | Unpins f _ _ | Leaves f => exists p, pinned_at P f p
  | Writes f p _ D => resident_at P A f p /\ D = dirty_epoch (FrameAt f P)
  | Unshares f p _ D st =>
      resident_at P A f p /\ D = dirty_epoch (FrameAt f P) /\
      (ok st = true -> data (FrameAt f P) = page_bytes p (file (disk P)))
  | Reads f _ p | Unmaps f p _ => loading_at P A f p
  | Completes f _ p => loading_at P A f p /\ data (FrameAt f P) = page_bytes p (file (disk P))
  | Declares f _ =>
      in_pool P f /\ state (FrameAt f P) = Loading /\ (forall q, Find q (page_table P) <> Some f)
  | Drains f _ => in_pool P f /\ state (FrameAt f P) = Failed
  | Stamps f p => in_pool P f /\ Find p (page_table P) = None
  | Fills f p => pinned_at P f p /\ Find p (page_table P) = None
  | Resets f p | Maps f p =>
      pinned_at P f p /\ Find p (page_table P) = None /\ data (FrameAt f P) = fresh_page p
  | Records f p | Seizes f p =>
      pinned_at P f p /\ Find p (page_table P) = Some f /\ data (FrameAt f P) = fresh_page p
  | Withdraws f p => in_pool P f /\ Find p (page_table P) = None
  | Deallocates o p => Find p (page_table P) = None /\ match o with Some f => in_pool P f | None => True end
  | Dirties g => resident_at P A (g_frame g) (g_page g) /\ g_write g = true
  | Unlatches g => resident_at P A (g_frame g) (g_page g)
  end.

Definition guard_ok (P : Pool) (A : gset Z) (g : PageGuard) : Prop :=
  g_live g = true /\ resident_at P A (g_frame g) (g_page g).

(** ** What a client sees *)

Definition frame_view (p : Z) (fr : Frame) (file : list byte) : list byte :=
  match state fr with Resident => data fr | _ => page_bytes p file end.
Definition view (P : Pool) (p : Z) : list byte :=
  match Find p (page_table P) with
  | Some f => frame_view p (FrameAt f P) (file (disk P))
  | None => page_bytes p (file (disk P))
  end.

(** ** What a piece of one thread leaves to the holders of the other tokens *)

Record guar (oth : Kind -> Z -> Z) (P : Pool) (A : gset Z) (P' : Pool) (A' : gset Z) (notify : option Z)
    (ev : Event) : Prop := {
  gu_cap : length (frames P') = length (frames P);
  gu_pin : forall f, 0 <= f < capacity P -> 0 < oth KPin f -> state (FrameAt f P) <> Free ->
    page_id (FrameAt f P') = page_id (FrameAt f P) /\
    (state (FrameAt f P') = state (FrameAt f P) \/
     state (FrameAt f P) = Loading /\ (state (FrameAt f P') = Failed \/
       state (FrameAt f P') = Resident /\ page_id (FrameAt f P) ∈ A'));
  gu_resident : forall f, 0 <= f < capacity P -> 0 < oth KPin f -> state (FrameAt f P) = Resident ->
    page_id (FrameAt f P) ∈ A -> page_id (FrameAt f P) ∈ A';
  gu_read : forall f, 0 <= f < capacity P -> 0 < oth KRead f ->
    data (FrameAt f P') = data (FrameAt f P) /\ dirty_epoch (FrameAt f P') = dirty_epoch (FrameAt f P) /\
    (data (FrameAt f P) = page_bytes (page_id (FrameAt f P)) (file (disk P)) ->
     data (FrameAt f P) = page_bytes (page_id (FrameAt f P)) (file (disk P')));
  gu_load : forall f, 0 <= f < capacity P -> 0 < oth KLoad f ->
    state (FrameAt f P') = state (FrameAt f P) /\ page_id (FrameAt f P') = page_id (FrameAt f P) /\
    data (FrameAt f P') = data (FrameAt f P) /\
    (forall q, Find q (page_table P') = Some f <-> Find q (page_table P) = Some f) /\
    (Find (page_id (FrameAt f P)) (page_table P) = Some f -> page_id (FrameAt f P) ∈ A ->
     page_id (FrameAt f P) ∈ A' /\
     page_bytes (page_id (FrameAt f P)) (file (disk P')) = page_bytes (page_id (FrameAt f P)) (file (disk P)));
  gu_new : forall f, 0 <= f < capacity P -> 0 < oth KNew f -> data (FrameAt f P') = data (FrameAt f P);
  gu_page : forall p, 0 < oth KPage p -> Find p (page_table P') = Find p (page_table P);
  gu_view : forall p, p ∈ A -> p ∈ A' -> (forall bs, ev <> Stored p bs) -> view P' p = view P p;
  gu_sleep : forall f, 0 <= f < capacity P -> notify = Some f \/
    (state (FrameAt f P) = Loading -> state (FrameAt f P') = Loading) /\
    (state (FrameAt f P) = Failed -> 0 < oth KLoad f -> pin_count (FrameAt f P') = pin_count (FrameAt f P))
}.

(** ** What the others know stays true *)

Section stable.
Context {oth : Kind -> Z -> Z} {P P' : Pool} {A A' : gset Z} {notify : option Z} {ev : Event}.
Hypothesis G : guar oth P A P' A' notify ev.

Lemma in_pool_stable f : in_pool P f -> in_pool P' f.
Proof. unfold in_pool, capacity. by rewrite (gu_cap _ _ _ _ _ _ _ G). Qed.

Lemma pinned_stable f p : 0 < oth KPin f -> pinned_at P f p -> pinned_at P' f p.
Proof.
  intros Hp (Hf & Hs & <-). split; [by apply in_pool_stable|].
  destruct (gu_pin _ _ _ _ _ _ _ G f Hf Hp) as [E [S|[S _]]]; [by rewrite Hs|..]; [|congruence].
  by rewrite S, E.
Qed.

Lemma resident_stable f p : 0 < oth KPin f -> resident_at P A f p -> resident_at P' A' f p.
Proof.
  intros Hp [R Ha]. split; [by apply pinned_stable|]. destruct R as (Hf & Hs & <-).
  by apply (gu_resident _ _ _ _ _ _ _ G).
Qed.

Lemma loading_stable f p : 0 < oth KLoad f -> loading_at P A f p -> loading_at P' A' f p.
Proof.
  intros Hl (Hf & Hs & <- & F & Ha). destruct (gu_load _ _ _ _ _ _ _ G f Hf Hl) as (S1 & S2 & _ & S3 & S4).
  split; [by apply in_pool_stable|]. rewrite S1, S2. split_and!; try done; [by apply S3|by apply S4].
Qed.

Lemma new_stable f p :
  0 < oth KPin f -> 0 < oth KNew f -> 0 < oth KPage p -> pinned_at P f p ->
  pinned_at P' f p /\ Find p (page_table P') = Find p (page_table P) /\ data (FrameAt f P') = data (FrameAt f P).
Proof.
  intros H1 H2 H3 R. split; [by apply pinned_stable|]. split; [by apply (gu_page _ _ _ _ _ _ _ G)|].
  apply (gu_new _ _ _ _ _ _ _ G); [apply R|done].
Qed.

Lemma read_stable f p :
  0 < oth KRead f -> pinned_at P f p ->
  dirty_epoch (FrameAt f P') = dirty_epoch (FrameAt f P) /\
  (data (FrameAt f P) = page_bytes p (file (disk P)) -> data (FrameAt f P') = page_bytes p (file (disk P'))).
Proof.
  intros Hr (Hf & Hs & <-). destruct (gu_read _ _ _ _ _ _ _ G f Hf Hr) as (R1 & R2 & R3).
  split; [done|]. intros E. rewrite R1. by apply R3.
Qed.
End stable.

Ltac held_tokens H :=
  repeat match goal with
  | |- 0 < _ ?k ?f => eapply Z.lt_le_trans; [|apply (H k f)]; apply occ_in; cbn; set_solver
  end.

Lemma local_stable {oth P P' A A' notify ev} c :
  guar oth P A P' A' notify ev -> (forall k x, occ k x (holds c) <= oth k x) -> local P A c -> local P' A' c.
Proof.
  intros G H L.
  destruct c; cbn [local] in *; try done; try (by eapply in_pool_stable);
    try (eapply (resident_stable G); [held_tokens H|done]); try (eapply (loading_stable G); [held_tokens H|done]);
    try (eapply (pinned_stable G); [held_tokens H|done]).
  - destruct L as (Hf & Hs & Hp & Ha). split; [by eapply in_pool_stable|].
    destruct (gu_pin _ _ _ _ _ _ _ G f Hf ltac:(held_tokens H) Hs) as [E S]. rewrite E.
    destruct S as [S|[S1 [S|[S S2]]]]; rewrite S; split_and!; try done; [|congruence].
    intros R. rewrite <- Hp. apply (gu_resident _ _ _ _ _ _ _ G); try done; [held_tokens H|]. rewrite Hp. by apply Ha.
  - destruct L as (Hf & Hs). split; [by eapply in_pool_stable|].
    destruct (gu_pin _ _ _ _ _ _ _ G f Hf ltac:(held_tokens H)) as [_ [S|[S _]]]; congruence.
  - destruct L as [q L]. exists q. eapply (pinned_stable G); [held_tokens H|done].
  - destruct L as [L ->]. split; [eapply (resident_stable G); [held_tokens H|done]|]. symmetry.
    eapply (read_stable G); [held_tokens H|apply L].
  - destruct L as (L & -> & Hd). destruct (read_stable G f p ltac:(held_tokens H) ltac:(apply L)) as [E1 E2].
    split; [eapply (resident_stable G); [held_tokens H|done]|]. split; [done|]. auto.
  - destruct L as [q L]. exists q. eapply (pinned_stable G); [held_tokens H|done].
  - destruct L as [L Hd]. split; [eapply (loading_stable G); [held_tokens H|done]|].
    destruct L as (Hf & Hs & <- & F & Ha).
    destruct (gu_load _ _ _ _ _ _ _ G f Hf ltac:(held_tokens H)) as (_ & _ & S2 & _ & S4).
    destruct (S4 F Ha) as [_ S5]. by rewrite S2, S5.
  - destruct L as (Hf & Hs & Hn). destruct (gu_load _ _ _ _ _ _ _ G f Hf ltac:(held_tokens H)) as (S1 & _ & _ & S3 & _).
    split; [by eapply in_pool_stable|]. split; [congruence|]. intros q E%S3. by eapply Hn.
  - destruct L as (Hf & Hs). destruct (gu_load _ _ _ _ _ _ _ G f Hf ltac:(held_tokens H)) as (S1 & _).
    split; [by eapply in_pool_stable|]. congruence.
  - destruct L as (Hf & Hn). split; [by eapply in_pool_stable|].
    rewrite (gu_page _ _ _ _ _ _ _ G); [done|held_tokens H].
  - destruct L as (Hf & Hn). destruct (new_stable G f p) as (N1 & N2 & N3); [held_tokens H..|done|]. by rewrite N2.
  - destruct L as (Hf & Hn & Hd). destruct (new_stable G f p) as (N1 & N2 & N3); [held_tokens H..|done|]. by rewrite N2, N3.
  - destruct L as (Hf & Hn & Hd). destruct (new_stable G f p) as (N1 & N2 & N3); [held_tokens H..|done|]. by rewrite N2, N3.
  - destruct L as (Hf & Hn & Hd). destruct (new_stable G f p) as (N1 & N2 & N3); [held_tokens H..|done|]. by rewrite N2, N3.
  - destruct L as (Hf & Hn & Hd). destruct (new_stable G f p) as (N1 & N2 & N3); [held_tokens H..|done|]. by rewrite N2, N3.
  - destruct L as (Hf & Hn). split; [by eapply in_pool_stable|].
    rewrite (gu_page _ _ _ _ _ _ _ G); [done|held_tokens H].
  - destruct L as (Hn & Hf). split; [rewrite (gu_page _ _ _ _ _ _ _ G); [done|]|].
    + destruct f; held_tokens H.
    + destruct f; [|done]. by eapply in_pool_stable.
  - destruct L as [L Hw]. split; [|done]. eapply (resident_stable G); [held_tokens H|done].
  - cbn [holds] in H. destruct (g_write g); held_tokens H.
  - destruct L as [q L]. exists q. eapply (pinned_stable G); [held_tokens H|done].
Qed.

Lemma guard_stable {oth P P' A A' notify ev} g :
  guar oth P A P' A' notify ev -> (forall k x, occ k x (guard_holds g) <= oth k x) -> guard_ok P A g -> guard_ok P' A' g.
Proof. intros G H [L R]. split; [done|]. eapply (resident_stable G); [held_tokens H|done]. Qed.
