(* ===== verification/PoolPieces.v ===== *)
(** * Pieces of the pool's operations: the rules they are proved by

    A piece that changes one frame (and perhaps the replacer's bit for it) is right when the
    frame's own invariant holds again with the thread's new tokens and the holders of the
    other tokens are left alone ([piece_one]); pieces on the free list, the page table and
    the disk have rules of their own. *)

From stdpp Require Import gmap.
From S2P Require Import Prelude Common DiskManager DiskProofs DiskTheorems Replacer ReplacerTheorems.
From S2P Require Import PoolIndex BufferPool BufferPoolProofs BufferPoolOps PoolThreads PoolTokens PoolShared.

(** What a piece of the thread at [c] must establish; [oth] are all tokens but its own. *)
Record piece (n : Z) (oth : Kind -> Z -> Z) (P : Pool) (A : gset Z) (c : Pc)
    (P' : Pool) (c' : Pc) (new : list PageGuard) (notify : option Z) (ev : Event) : Prop := {
  pi_core : core (n + 1) (plus oth (holds c' ++ guards_hold new)) P' (alive_after ev A);
  pi_local : local P' (alive_after ev A) c';
  pi_guards : Forall (guard_ok P' (alive_after ev A)) new;
  pi_guar : guar oth P A P' (alive_after ev A) notify ev;
  pi_fetching : forall p, fetching c' = Some p -> fetching c = Some p;
  pi_deleting : deleting c' = None;
  pi_event : match ev with
    | Created g => (g_page g ∉ A) /\ view P' (g_page g) = fresh_page (g_page g) /\ new = [g]
    | Stored p bs => p ∈ A /\ view P' p = bs
    | Removed p => p ∈ A /\ deleting c = Some p
    | Opened g => new = [g]
    | _ => True
    end
}.

(** ** Reading tokens off *)

Ltac toks :=
  unfold plus in *; cbn [occ is_token kind_eqb fst snd app holds guards_hold guard_holds fmap list_fmap concat] in *;
  unfold is_token in *; cbn [kind_eqb fst snd andb] in *; rewrite ?Z.eqb_refl in *; cbn [andb] in *; rewrite ?Z.add_0_r in *.

(** ** Frames that are not touched *)

Lemma frame_inv_ext n n' cnt cnt' free free' t t' b file file' A A' f fr :
  frame_inv n cnt free t b file A f fr -> n <= n' ->
  (forall k, k <> KPage -> cnt' k f = cnt k f) -> times f free' = times f free ->
  (state fr = Resident -> cnt KNew f = 0 -> Find (page_id fr) t = Some f -> page_id fr ∈ A ->
     Find (page_id fr) t' = Some f /\ page_id fr ∈ A' /\ page_bytes (page_id fr) file' = page_bytes (page_id fr) file) ->
  frame_inv n' cnt' free' t' b file' A' f fr.
Proof.
  intros [F1 F2 F3 F4 F5 F6 F7 F8 F9 F10 F11 F12 F13 F14 F15 F16 F17 F18] Hn Hc Ht Hd. split; rewrite ?Hc, ?Ht by done; try done.
  - lia.
  - intros S N. destruct (F13 S N) as [F I]. destruct (Hd S N F I) as (? & ? & _). done.
  - intros S N E W. destruct (F13 S N) as [F I]. destruct (Hd S N F I) as (_ & _ & ->). by apply F14.
  - intros D. rewrite ?Hc by done. intros M. destruct (F16 D M) as [M1 M2]. split; [done|]. intros E.
    destruct (M2 E) as [M3 M4]. split; [done|]. intros S N W. destruct (F13 S N) as [F I].
    destruct (Hd S N F I) as (_ & _ & ->). by apply M4.
Qed.

Lemma pages_ok_ext cnt cnt' d A l : (forall p, cnt' KPage p = cnt KPage p) -> pages_ok cnt d A l -> pages_ok cnt' d A l.
Proof. intros E [D1 D2 D3 D4]. split; [done|..]; intros p; rewrite E; auto. Qed.

(** ** One frame changes *)

Record frame_guar (oth : Kind -> Z -> Z) (P : Pool) (A : gset Z) (f : Z) (fr' : Frame) (notify : option Z)
    (ev : Event) : Prop := {
  fg_pin : 0 < oth KPin f -> state (FrameAt f P) <> Free ->
    page_id fr' = page_id (FrameAt f P) /\
    (state fr' = state (FrameAt f P) \/
     state (FrameAt f P) = Loading /\ (state fr' = Failed \/ state fr' = Resident /\ page_id (FrameAt f P) ∈ A));
  fg_read : 0 < oth KRead f -> data fr' = data (FrameAt f P) /\ dirty_epoch fr' = dirty_epoch (FrameAt f P);
  fg_load : 0 < oth KLoad f ->
    state fr' = state (FrameAt f P) /\ page_id fr' = page_id (FrameAt f P) /\ data fr' = data (FrameAt f P);
  fg_new : 0 < oth KNew f -> data fr' = data (FrameAt f P);
  fg_view : forall p, p ∈ A -> Find p (page_table P) = Some f -> (forall bs, ev <> Stored p bs) ->
    frame_view p fr' (file (disk P)) = frame_view p (FrameAt f P) (file (disk P));
  fg_sleep : notify = Some f \/
    (state (FrameAt f P) = Loading -> state fr' = Loading) /\
    (state (FrameAt f P) = Failed -> 0 < oth KLoad f -> pin_count fr' = pin_count (FrameAt f P))
}.

Definition change_one (f : Z) (fr' : Frame) (r' : Replacer) (P : Pool) : Pool := set_replacer r' (set_frame f fr' P).

Lemma change_one_frame f g fr' r' P :
  in_pool P f -> 0 <= g -> FrameAt g (change_one f fr' r' P) = if decide (g = f) then fr' else FrameAt g P.
Proof. intros Hf Hg. exact (FrameAt_set f g fr' P Hf Hg). Qed.

Lemma core_one n n' cnt cnt' P A f fr' r' :
  core n cnt P A -> in_pool P f -> n <= n' ->
  replacer_ok r' -> length (usage_count r') = length (usage_count (replacer P)) ->
  (forall g, 0 <= g -> g <> f -> evictable_at g r' = evictable_at g (replacer P)) ->
  (forall k g, g <> f -> k <> KPage -> cnt' k g = cnt k g) -> (forall p, cnt' KPage p = cnt KPage p) ->
  frame_inv n' cnt' (free_list P) (page_table P) (evictable_at f r') (file (disk P)) A f fr' ->
  (forall q, Find q (page_table P) = Some f -> page_id fr' = q /\ (state fr' = Resident \/ state fr' = Loading)) ->
  core n' cnt' (change_one f fr' r' P) A.
Proof.
  intros [C1 C2 C3 C4 C5 C6 C7 C8] Hf Hn R1 R2 R3 Hc Hp Fi Fm.
  pose proof (capacity_set f fr' P) as Hcap. split; try done.
  - unfold change_one. change (capacity (set_replacer _ ?Q)) with (capacity Q). by rewrite Hcap.
  - cbn. by rewrite length_insert, R2.
  - intros g Hg. unfold change_one. change (capacity (set_replacer _ ?Q)) with (capacity Q). rewrite Hcap. auto.
  - intros g Hg. unfold change_one in Hg. change (capacity (set_replacer _ ?Q)) with (capacity Q) in Hg. rewrite Hcap in Hg.
    unfold frame_at_ok. rewrite change_one_frame by (done || lia). case_decide as E; [by subst|].
    cbn. rewrite R3 by lia. eapply frame_inv_ext; [by apply C6|done|auto|done|done].
  - intros p g F. cbn in F. destruct (C7 p g F) as (G1 & G2 & G3 & G4).
    unfold change_one at 1. change (capacity (set_replacer _ ?Q)) with (capacity Q). rewrite Hcap, Hp. split; [done|].
    rewrite change_one_frame by (done || lia). case_decide as E; [subst g|done].
    destruct (Fm p F) as [M1 M2]. done.
  - destruct C8 as [l C8]. exists l. by eapply pages_ok_ext.
Qed.

Lemma guar_one oth n cnt P A f fr' r' notify ev :
  core n cnt P A -> in_pool P f -> (forall A0 : gset Z, alive_after ev A0 = A0) ->
  frame_guar oth P A f fr' notify ev -> guar oth P A (change_one f fr' r' P) (alive_after ev A) notify ev.
Proof.
  intros C Hf Ha [G1 G2 G3 G4 G5 G6]. rewrite Ha.
  assert (FA : forall g, 0 <= g < capacity P -> FrameAt g (change_one f fr' r' P) = if decide (g = f) then fr' else FrameAt g P)
    by (intros g Hg; apply change_one_frame; [done|lia]).
  split.
  - cbn. apply length_insert.
  - intros g Hg. rewrite FA by done. case_decide; [subst; auto|auto].
  - done.
  - intros g Hg. rewrite FA by done. case_decide; [subst|done]. intros Hr. destruct (G2 Hr). done.
  - intros g Hg. rewrite FA by done. case_decide; [subst|done]. intros Hr. destruct (G3 Hr) as (? & ? & ?). done.
  - intros g Hg. rewrite FA by done. case_decide; [subst|]; done.
  - done.
  - intros p Hp _ Hev. unfold view. cbn [page_table disk change_one set_replacer set_frame].
    destruct (Find p (page_table P)) as [g|] eqn:F; [|done].
    destruct (co_map _ _ _ _ C p g F) as (Hg & _). rewrite FA by done. case_decide; [subst; auto|done].
  - intros g Hg. rewrite FA by done. case_decide; [subst; auto|right; auto].
Qed.

Lemma guar_refl oth P A ev : guar oth P A P A None ev.
Proof. split; try done; intros; auto. Qed.

Section rules.
Context {n : Z} {oth : Kind -> Z -> Z} {P : Pool} {A : gset Z} {c : Pc}.
Hypothesis C : core n (plus oth (holds c)) P A.

(** Nothing but the program point changes. *)
Lemma piece_same c' :
  (forall k x, occ k x (holds c') = occ k x (holds c)) ->
  local P A c' -> (forall p, fetching c' = Some p -> fetching c = Some p) -> deleting c' = None ->
  forall ev, match ev with Silent | Returned _ => True | _ => False end -> piece n oth P A c P c' [] None ev.
Proof.
  intros Hk L Hf Hd ev Hev. assert (Ha : alive_after ev A = A) by by destruct ev.
  split; rewrite ?Ha; try done; [|apply guar_refl|by destruct ev].
  destruct C as [C1 C2 C3 C4 C5 C6 C7 C8].
  assert (E : forall k x, plus oth (holds c' ++ guards_hold []) k x = plus oth (holds c) k x)
    by (intros k x; unfold plus; rewrite app_nil_r; by rewrite Hk).
  split; try done.
  - intros f Hf'. eapply frame_inv_ext; [by apply C6|lia|by intros; apply E|done|done].
  - intros p f F. rewrite E. auto.
  - destruct C8 as [l C8]. exists l. eapply pages_ok_ext; [|exact C8]. intros p. apply E.
Qed.

(** One frame, and the replacer's bit for it. *)
Lemma piece_one f fr' r' c' new notify ev :
  in_pool P f -> (forall A0 : gset Z, alive_after ev A0 = A0) ->
  replacer_ok r' -> length (usage_count r') = length (usage_count (replacer P)) ->
  (forall g, 0 <= g -> g <> f -> evictable_at g r' = evictable_at g (replacer P)) ->
  (forall k g, g <> f -> k <> KPage -> occ k g (holds c' ++ guards_hold new) = occ k g (holds c)) ->
  (forall p, occ KPage p (holds c' ++ guards_hold new) = occ KPage p (holds c)) ->
  frame_inv (n + 1) (plus oth (holds c' ++ guards_hold new)) (free_list P) (page_table P) (evictable_at f r')
    (file (disk P)) A f fr' ->
  (forall q, Find q (page_table P) = Some f -> page_id fr' = q /\ (state fr' = Resident \/ state fr' = Loading)) ->
  frame_guar oth P A f fr' notify ev ->
  local (change_one f fr' r' P) A c' -> Forall (guard_ok (change_one f fr' r' P) A) new ->
  (forall p, fetching c' = Some p -> fetching c = Some p) -> deleting c' = None ->
  match ev with
  | Created _ | Removed _ => False
  | Stored p bs => p ∈ A /\ view (change_one f fr' r' P) p = bs
  | Opened g => new = [g]
  | _ => True
  end ->
  piece n oth P A c (change_one f fr' r' P) c' new notify ev.
Proof.
  intros Hf Ha R1 R2 R3 K1 K2 Fi Fm G L Gs Hfe Hde Hev. split; try done; rewrite ?Ha; try done.
  - eapply core_one; try done; [lia|..].
    + intros k g Hg Hk. unfold plus. by rewrite K1.
    + intros p. unfold plus. by rewrite K2.
  - rewrite <- (Ha A) at 2. by eapply guar_one.
  - by destruct ev.
Qed.
End rules.

(** What [exec] and [start] owe, whatever they answer. *)
Definition post (n : Z) (oth : Kind -> Z -> Z) (P : Pool) (A : gset Z) (c : Pc) (gs : list PageGuard) (o : Outcome) : Prop :=
  match o with
  | Blocks => True
  | Aborts => False
  | Sleeps =>
      match c with
      | Waits f _ _ _ => state (FrameAt f P) = Loading
      | Drains f _ => pin_count (FrameAt f P) <> 1
      | _ => False
      end
  | Goes P' c' gs' notify ev =>
      (forall st, ev <> DiskFault st) -> exists new, gs' = new ++ gs /\ piece n oth P A c P' c' new notify ev
  end.

Lemma set_frame_one f fr' P : set_frame f fr' P = change_one f fr' (replacer P) P.
Proof. done. Qed.
Lemma set_replacer_one f r' P : in_pool P f -> set_replacer r' P = change_one f (FrameAt f P) r' P.
Proof. intros Hf. unfold change_one. by rewrite set_frame_id. Qed.
Lemma pool_one f P : in_pool P f -> P = change_one f (FrameAt f P) (replacer P) P.
Proof. intros Hf. unfold change_one. rewrite set_frame_id by done. by destruct P. Qed.

Lemma change_one_at f fr' r' P : in_pool P f -> FrameAt f (change_one f fr' r' P) = fr'.
Proof. intros Hf. rewrite change_one_frame by (done || apply Hf). by rewrite decide_True. Qed.
Lemma in_pool_change f fr' r' P g : in_pool P g -> in_pool (change_one f fr' r' P) g.
Proof. unfold in_pool. intros H. by change (capacity (change_one f fr' r' P)) with (capacity (set_frame f fr' P)); rewrite capacity_set. Qed.
Lemma pinned_change f fr' r' P p :
  in_pool P f -> state fr' = Resident -> page_id fr' = p -> pinned_at (change_one f fr' r' P) f p.
Proof. intros Hf Hs Hp. split; [by apply in_pool_change|]. by rewrite change_one_at. Qed.

(** The creation of a page is that of the page in hand. *)
Lemma makes oth c f p : covered oth -> plus oth (holds c) (KMake p) f <= plus oth (holds c) KPage p.
Proof. intros Cv. destruct (Cv f) as (_ & _ & _ & M). destruct (covered_holds c f) as (_ & _ & _ & M'). unfold plus. specialize (M p). specialize (M' p). cbn beta in *. lia. Qed.

(** A page clients know is not under creation, and the frame that holds it is its home. *)
Lemma alive_settled n cnt P A f p :
  core n cnt P A -> cnt KNew f >= 0 -> cnt (KMake p) f <= cnt KPage p -> resident_at P A f p -> cnt KNew f = 0 /\ Find p (page_table P) = Some f.
Proof.
  intros C Hn Hm ((Hf & Hs & Hp) & Ha). pose proof (co_frames _ _ _ _ C f Hf) as F.
  assert (E : cnt KNew f = 0).
  { destruct (decide (0 < cnt KNew f)) as [Hk|]; [exfalso|lia]. pose proof (fi_fresh _ _ _ _ _ _ _ _ _ F Hs Hk) as K.
    destruct (co_pages _ _ _ _ C) as [l L]. destruct (pg_alive _ _ _ _ L p Ha) as (Z0 & _). rewrite Hp in K. lia. }
  split; [done|]. rewrite <- Hp. by apply (fi_home _ _ _ _ _ _ _ _ _ F).
Qed.

(** A frame that is not free and has no loader holds the page mapped to it. *)
Lemma map_keep n cnt P A f fr' :
  core n cnt P A ->
  page_id fr' = page_id (FrameAt f P) -> (state fr' = state (FrameAt f P) \/ state fr' = Resident) ->
  forall q, Find q (page_table P) = Some f -> page_id fr' = q /\ (state fr' = Resident \/ state fr' = Loading).
Proof.
  intros C E1 E2 q F. destruct (co_map _ _ _ _ C q f F) as (_ & <- & S & _). split; [done|]. destruct E2 as [->| ->]; auto.
Qed.
