(* ===== verification/PoolPins.v ===== *)
(** * Pieces that pin, unpin, latch and look: no page moves *)

From stdpp Require Import gmap.
From S2P Require Import Prelude Common DiskManager DiskProofs DiskTheorems Replacer ReplacerTheorems.
From S2P Require Import PoolIndex BufferPool BufferPoolProofs BufferPoolOps PoolThreads PoolTokens PoolShared PoolPieces.

(** Everything known of frame [f], with the thread's own tokens counted. *)
Ltac frame_facts C N Cv f Hf :=
  pose proof (co_frames _ _ _ _ C f Hf) as [Flen Fep Fpin Frd Fwr Flat Fown Fload Fnew Fcold Ffree Fpage Fhome Fclean Fbump Fmark Ffresh Fcand];
  pose proof (N KPin f) as NPin; pose proof (N KRead f) as NRd; pose proof (N KWrite f) as NWr; pose proof (N KOwn f) as NOwn;
  pose proof (N KLoad f) as NLd; pose proof (N KNew f) as NNew; pose proof (N KBump f) as NBump; pose proof (Cv f) as (NCov & NBw & NMk & NMake).

Ltac on_frame :=
  unfold to_free, set_pin, ResetEpochs, ReleaseRead, ReleaseWrite, MarkDirty in *;
  cbn [data readers writer dirty_epoch flushed_epoch state page_id pin_count set_meta set_latch set_epochs set_data] in *.

Ltac decide_states :=
  repeat match goal with
  | |- context [bool_decide (?a = ?b)] =>
      first [rewrite (bool_decide_true (a = b)) by congruence | rewrite (bool_decide_false (a = b)) by congruence]
  | H : context [bool_decide (?a = ?b)] |- _ =>
      first [rewrite (bool_decide_true (a = b)) in H by congruence | rewrite (bool_decide_false (a = b)) in H by congruence]
  end.

(** The goals of a frame's invariant that arithmetic or the old invariant settle. *)
Ltac by_frame :=
  on_frame; toks; try done; try lia; try (intuition (done || lia || congruence));
  try match goal with
  | M : forall D : Z, _ -> _ |- forall D : Z, _ -> _ =>
      let D := fresh "D" in let H := fresh in intros D H; specialize (M D H); intuition (done || lia || congruence)
  end.

Ltac other_tokens :=
  let k := fresh "k" in let h := fresh "h" in let Hh := fresh in let Hk := fresh in
  intros k h Hh Hk; toks; repeat match goal with |- context [h =? ?f] => destruct (Z.eqb_spec h f); [done|] end;
  rewrite ?andb_false_r; done.

Section pieces.
Context {errno_text : ErrnoText} {host : Host}.
Context {n : Z} {oth : Kind -> Z -> Z} {P : Pool} {A : gset Z}.
Hypothesis N : forall k x, 0 <= oth k x.
Hypothesis Cv : covered oth.

(** One more pin on a frame that is not free; the thread had no stake in it but, perhaps, as
    a candidate. *)
Lemma piece_pin c c' f p :
  core n (plus oth (holds c)) P A -> in_pool P f -> state (FrameAt f P) = Resident \/ state (FrameAt f P) = Loading ->
  holds c = [] \/ holds c = [(KAim p, f)] -> holds c' = [(KPin, f)] ->
  local (upd f (set_pin (pin_count (FrameAt f P) + 1)) P) A c' ->
  (forall p, fetching c' = Some p -> fetching c = Some p) -> deleting c' = None ->
  piece n oth P A c (upd f (set_pin (pin_count (FrameAt f P) + 1)) P) c' [] None Silent.
Proof.
  intros C Hf Hs Hc Hc' L Hfe Hde. unfold upd in *. rewrite set_frame_one in *. frame_facts C N Cv f Hf. apply (piece_one C); try done.
  - apply C.
  - rewrite Hc'. destruct Hc as [-> | ->]; other_tokens.
  - rewrite Hc'. by destruct Hc as [-> | ->].
  - rewrite Hc'. destruct Hc as [E|E]; rewrite E in *; split; by_frame.
  - apply (map_keep _ _ _ _ _ _ C); auto.
  - destruct Hc as [E|E]; rewrite E in *; split; by_frame.
Qed.

(** [UnpinPage] on a pinned frame. *)
Definition unpinned (f : Z) (P : Pool) : Pool :=
  let fr := FrameAt f P in
  change_one f (set_pin (pin_count fr - 1) fr)
    (if (pin_count fr =? 1) && bool_decide (state fr = Resident) then SetEvictable f true (replacer P) else replacer P) P.

Lemma unpin_eq f Q k :
  in_pool Q f -> 0 < pin_count (FrameAt f Q) ->
  unpin f Q k = k (unpinned f Q) (if bool_decide (state (FrameAt f Q) = Failed) then Some f else None).
Proof.
  intros Hf Hn. unfold unpin, unpinned. destruct (Z.leb_spec (pin_count (FrameAt f Q)) 0); [lia|].
  rewrite UnpinPage_eq by done. cbv zeta. by destruct (_ && _).
Qed.

Lemma in_range_pool cnt f : core n cnt P A -> in_pool P f -> in_range f (replacer P).
Proof. intros C Hf. unfold in_range. rewrite (co_rep_len _ _ _ _ C). apply Hf. Qed.

(** Setting the bit of one frame. *)
Lemma SetEvictable_one cnt f b :
  core n cnt P A -> in_pool P f ->
  let r' := SetEvictable f b (replacer P) in
  replacer_ok r' /\ length (usage_count r') = length (usage_count (replacer P)) /\ evictable_at f r' = b /\
  (forall g, 0 <= g -> g <> f -> evictable_at g r' = evictable_at g (replacer P)).
Proof.
  intros C Hf r'. pose proof (in_range_pool _ _ C Hf) as Hr.
  destruct (SetEvictable_spec f b (replacer P) (co_rep _ _ _ _ C) Hr) as (R1 & R2 & R3). split; [done|].
  split; [unfold r'; by rewrite R3|].
  assert (E : forall g, 0 <= g -> evictable_at g r' = if decide (g = f) then b else evictable_at g (replacer P))
    by (intros g Hg; apply (evictable_at_insert f g b); try done; apply C).
  split; [rewrite E by apply Hf; by rewrite decide_True|]. intros g Hg Ne. rewrite E by done. by rewrite decide_False.
Qed.

Lemma piece_unpin c c' f ev :
  core n (plus oth (holds c)) P A -> in_pool P f ->
  state (FrameAt f P) = Resident \/ state (FrameAt f P) = Failed ->
  holds c = [(KPin, f)] -> holds c' = [] ->
  local (unpinned f P) A c' -> (forall p, fetching c' = Some p -> fetching c = Some p) -> deleting c' = None ->
  match ev with Silent | Returned _ => True | _ => False end ->
  piece n oth P A c (unpinned f P) c' [] (if bool_decide (state (FrameAt f P) = Failed) then Some f else None) ev.
Proof.
  intros C Hf Hs Hc Hc' L Hfe Hde Hev. unfold unpinned in *. frame_facts C N Cv f Hf.
  destruct (SetEvictable_one _ f true C Hf) as (R1 & R2 & R3 & R4).
  set (b := (_ && _) : bool) in *.
  assert (Hb : (if b then evictable_at f (SetEvictable f true (replacer P)) else evictable_at f (replacer P)) =
               evictable_at f (if b then SetEvictable f true (replacer P) else replacer P)) by by destruct b.
  apply (piece_one C); try done.
  - by destruct ev.
  - destruct b; [done|apply C].
  - by destruct b.
  - intros g Hg Ne. destruct b; auto.
  - rewrite Hc, Hc'. other_tokens.
  - by rewrite Hc, Hc'.
  - rewrite Hc, Hc', <- Hb, R3 in *. split; by_frame. intros S E.
    left. unfold b. rewrite S. destruct (Z.eqb_spec (pin_count (FrameAt f P)) 1); [done|lia].
  - apply (map_keep _ _ _ _ _ _ C); auto.
  - rewrite Hc in *. split; by_frame. destruct Hs as [S|S]; [right|left].
    + rewrite S. done.
    + by rewrite bool_decide_true.
  - by destruct ev.
Qed.

Lemma post_Lookup env w p gs :
  core n (plus oth (holds (Lookup w p))) P A -> p ∈ A ->
  post n oth P A (Lookup w p) gs (exec env (Lookup w p) gs P).
Proof.
  intros C Ha. cbn [exec]. destruct (Find p (page_table P)) as [f|] eqn:F; intros _; exists []; (split; [done|]).
  2: by apply (piece_same C).
  destruct (co_map _ _ _ _ C p f F) as (Hf & Hp & Hs & _).
  apply (piece_pin _ _ f p); try done; [by left|].
  unfold upd. rewrite set_frame_one. cbn [local]. rewrite change_one_at by done.
  split; [by apply in_pool_change|]. cbn. split_and!; try done. intros E; destruct Hs; congruence.
Qed.
Lemma post_Waits env f w p z gs :
  core n (plus oth (holds (Waits f w p z))) P A -> local P A (Waits f w p z) ->
  post n oth P A (Waits f w p z) gs (exec env (Waits f w p z) gs P).
Proof.
  intros C (Hf & Hs & Hp & Ha). cbn [exec].
  destruct (state (FrameAt f P)) eqn:S; cbn [post]; try done; intros _; exists []; (split; [done|]); apply (piece_same C); try done.
  split; [by split_and!|auto].
Qed.

Lemma pinned_positive c f : core n (plus oth (holds c)) P A -> in_pool P f -> holds c = [(KPin, f)] -> 0 < pin_count (FrameAt f P).
Proof.
  intros C Hf Hc. rewrite (fi_pins _ _ _ _ _ _ _ _ _ (co_frames _ _ _ _ C f Hf)), Hc. pose proof (N KPin f). toks. lia.
Qed.

Lemma post_Refuses env f gs :
  core n (plus oth (holds (Refuses f))) P A -> local P A (Refuses f) ->
  post n oth P A (Refuses f) gs (exec env (Refuses f) gs P).
Proof.
  intros C (Hf & Hs). cbn [exec]. rewrite unpin_eq; [|done|by eapply pinned_positive]. intros _. exists []. split; [done|].
  by apply piece_unpin; auto.
Qed.

(** Usage counts are advice: changing them changes nothing. *)
Lemma piece_replacer c c' r' :
  core n (plus oth (holds c)) P A -> replacer_ok r' -> length (usage_count r') = length (usage_count (replacer P)) ->
  evictable r' = evictable (replacer P) -> holds c' = holds c ->
  local P A c' -> (forall p, fetching c' = Some p -> fetching c = Some p) -> deleting c' = None ->
  piece n oth P A c (set_replacer r' P) c' [] None Silent.
Proof.
  intros [C1 C2 C3 C4 C5 C6 C7 C8] R1 R2 R3 Hc L Hfe Hde. split; try done.
  - rewrite Hc. cbn [guards_hold]. rewrite app_nil_r. split; try done.
    + cbn. by rewrite R2.
    + intros f Hf. unfold frame_at_ok. cbn. unfold evictable_at. rewrite R3. eapply frame_inv_ext; [by apply C6|lia|done..].
  - split; try done; intros; auto.
Qed.

Lemma post_touch c c' f gs :
  core n (plus oth (holds c)) P A -> in_pool P f -> holds c' = holds c -> local P A c' ->
  (forall p, fetching c' = Some p -> fetching c = Some p) -> deleting c' = None ->
  post n oth P A c gs (Goes (set_replacer (RecordAccess f (replacer P)) P) c' gs None Silent).
Proof.
  intros C Hf Hc L Hfe Hde _. exists []. split; [done|].
  destruct (RecordAccess_spec f (replacer P) (co_rep _ _ _ _ C) (in_range_pool _ _ C Hf)) as (R1 & R2 & R3).
  by apply piece_replacer.
Qed.

Lemma post_Touches env f w p z gs :
  core n (plus oth (holds (Touches f w p z))) P A -> local P A (Touches f w p z) ->
  post n oth P A (Touches f w p z) gs (exec env (Touches f w p z) gs P).
Proof. intros C L. cbn [exec]. apply (post_touch _ _ _ _ C); try (by destruct z). apply L. Qed.

Lemma post_Unevicts env f w p gs :
  core n (plus oth (holds (Unevicts f w p))) P A -> local P A (Unevicts f w p) ->
  post n oth P A (Unevicts f w p) gs (exec env (Unevicts f w p) gs P).
Proof.
  intros C ((Hf & Hs & Hp) & Ha). cbn [exec]. intros _. exists []. split; [done|].
  rewrite (set_replacer_one f) by done. destruct (SetEvictable_one _ f false C Hf) as (R1 & R2 & R3 & R4).
  frame_facts C N Cv f Hf. apply (piece_one C); try done.
  - rewrite R3. split; by_frame.
  - apply (map_keep _ _ _ _ _ _ C); auto.
  - split; by_frame.
  - split; [by apply pinned_change|done].
Qed.

(** Taking a share of a latch, or all of it, on a page clients know. *)
Lemma piece_latch c c' new f p fr' ev :
  core n (plus oth (holds c)) P A -> resident_at P A f p -> holds c = [(KPin, f)] ->
  (AcquireRead (FrameAt f P) = Some fr' /\ holds c' ++ guards_hold new = [(KPin, f); (KRead, f)]) \/
  (AcquireWrite (FrameAt f P) = Some fr' /\ holds c' ++ guards_hold new = [(KPin, f); (KWrite, f)]) ->
  (forall Q, resident_at Q A f p -> local Q A c' /\ Forall (guard_ok Q A) new) ->
  (forall p, fetching c' = Some p -> fetching c = Some p) -> deleting c' = None ->
  match ev with Silent => True | Opened g => new = [g] | _ => False end ->
  piece n oth P A c (set_frame f fr' P) c' new None ev.
Proof.
  intros C ((Hf & Hs & Hp) & Ha) Hc Hl L Hfe Hde Hev. rewrite set_frame_one.
  pose proof (N KNew f) as Nn. destruct (alive_settled _ _ _ _ f p C) as [Hn _]; [rewrite Hc; toks; lia|by apply makes|done|].
  frame_facts C N Cv f Hf.
  assert (X : resident_at (change_one f fr' (replacer P) P) A f p).
  { split; [|done]. destruct Hl as [[E _]|[E _]]; unfold AcquireRead, AcquireWrite in E; [destruct (writer _)|destruct (_ || _)];
      try done; injection E as <-; by apply pinned_change. }
  apply (piece_one C); try done.
  - by destruct ev.
  - apply C.
  - rewrite Hc. destruct Hl as [[_ ->]|[_ ->]]; other_tokens.
  - rewrite Hc. by destruct Hl as [[_ ->]|[_ ->]].
  - rewrite Hc in *. destruct Hl as [[E ->]|[E ->]]; unfold AcquireRead, AcquireWrite in E.
    + destruct (writer (FrameAt f P)) eqn:W; [done|]. injection E as <-. split; by_frame.
    + destruct (writer (FrameAt f P)) eqn:W; [done|]. destruct (Z.ltb_spec 0 (readers (FrameAt f P))); [done|].
      injection E as <-. split; by_frame.
  - destruct Hl as [[E _]|[E _]]; unfold AcquireRead, AcquireWrite in E; [destruct (writer _)|destruct (_ || _)];
      try done; injection E as <-; apply (map_keep _ _ _ _ _ _ C); auto.
  - destruct Hl as [[E _]|[E _]]; unfold AcquireRead, AcquireWrite in E; [destruct (writer _)|destruct (_ || _)];
      try done; injection E as <-; rewrite Hc in *; split; by_frame.
  - by apply L.
  - by apply L.
  - by destruct ev.
Qed.

Lemma post_Latches env f w p gs :
  core n (plus oth (holds (Latches f w p))) P A -> local P A (Latches f w p) ->
  post n oth P A (Latches f w p) gs (exec env (Latches f w p) gs P).
Proof.
  intros C L. cbn [exec]. destruct ((if w then AcquireWrite else AcquireRead) (FrameAt f P)) as [fr'|] eqn:E; [|done].
  intros _. exists [mkGuard w f p true]. split; [done|]. eapply (piece_latch _ _ _ f p); try done.
  - destruct w; [right|left]; done.
  - intros Q R. split; [done|]. constructor; [by split|constructor].
Qed.

Lemma post_Shares env f p r gs :
  core n (plus oth (holds (Shares f p r))) P A -> local P A (Shares f p r) ->
  post n oth P A (Shares f p r) gs (exec env (Shares f p r) gs P).
Proof.
  intros C L. cbn [exec]. destruct (AcquireRead (FrameAt f P)) as [fr'|] eqn:E; [|done].
  intros _. exists []. split; [done|]. eapply (piece_latch _ _ _ f p); try done. by left.
Qed.

Lemma post_Samples env f p r gs :
  core n (plus oth (holds (Samples f p r))) P A -> local P A (Samples f p r) ->
  post n oth P A (Samples f p r) gs (exec env (Samples f p r) gs P).
Proof. intros C L. cbn [exec]. intros _. exists []. split; [done|]. by apply (piece_same C). Qed.

Lemma fetching_after_flush f p r st : fetching (after_flush f p r st) = caller_need r.
Proof. destruct r; cbn; try done. by destruct (ok st). Qed.
Lemma deleting_after_flush f p r st : deleting (after_flush f p r st) = None.
Proof. destruct r; cbn; try done. by destruct (ok st). Qed.
Lemma holds_after_flush f p r st : holds (after_flush f p r st) = [(KPin, f)].
Proof. destruct r; cbn; try done. by destruct (ok st). Qed.
Lemma local_after_flush Q f p r st :
  pinned_at Q f p -> local Q A (after_flush f p r st).
Proof. intros L. destruct r as [|next st'|k]; cbn; eauto. destruct (ok st); cbn; eauto. Qed.
End pieces.
