(* ===== verification/PoolFlushes.v ===== *)
(** * Pieces that flush, drop guards, and look for a victim *)

From stdpp Require Import gmap.
From S2P Require Import Prelude Common DiskManager DiskProofs DiskTheorems Replacer ReplacerTheorems.
From S2P Require Import PoolIndex BufferPool BufferPoolProofs BufferPoolOps PoolThreads PoolTokens PoolShared PoolPieces PoolPins.

Section pieces.
Context {errno_text : ErrnoText} {host : Host}.
Context {n : Z} {oth : Kind -> Z -> Z} {P : Pool} {A : gset Z}.
Hypothesis N : forall k x, 0 <= oth k x.
Hypothesis Cv : covered oth.

Lemma post_Checks env f p r gs :
  core n (plus oth (holds (Checks f p r))) P A -> local P A (Checks f p r) ->
  post n oth P A (Checks f p r) gs (exec env (Checks f p r) gs P).
Proof.
  intros C L. cbn [exec]. intros _. exists []. split; [done|]. pose proof L as (Hf & Hs & Hp). frame_facts C N Cv f Hf.
  unfold IsDirty. destruct (Z.ltb_spec (flushed_epoch (FrameAt f P)) (dirty_epoch (FrameAt f P))); apply (piece_same C); try done.
  - split; [done|]. rewrite <- Hp. apply Fhome; [done|].
    destruct (decide (0 < plus oth (holds (Checks f p r)) KNew f)) as [K|K]; [destruct (Fcold (or_intror K)); lia|toks; lia].
  - by rewrite holds_after_flush.
  - by apply local_after_flush.
  - by rewrite fetching_after_flush.
  - by rewrite deleting_after_flush.
Qed.

Lemma post_Unshares env f p r D st gs :
  core n (plus oth (holds (Unshares f p r D st))) P A -> local P A (Unshares f p r D st) ->
  post n oth P A (Unshares f p r D st) gs (exec env (Unshares f p r D st) gs P).
Proof.
  intros C (((Hf & Hs & Hp) & Ha) & HD & Hd). cbn [exec]. intros _. exists []. split; [done|].
  unfold upd. rewrite set_frame_one. frame_facts C N Cv f Hf.
  assert (W : writer (FrameAt f P) = false) by (destruct (writer (FrameAt f P)) eqn:W; [toks; specialize (Flat eq_refl); lia|done]).
  set (c' := if ok st then Marks f p r D else after_flush f p r st).
  assert (Hc' : holds c' = if ok st then [(KPin, f); (KMark D, f)] else [(KPin, f)])
    by (unfold c'; destruct (ok st); [done|apply holds_after_flush]).
  apply (piece_one C); try done.
  - apply C.
  - rewrite Hc'. destruct (ok st); other_tokens.
  - rewrite Hc'. by destruct (ok st).
  - rewrite Hc'. destruct (ok st); split; on_frame; rewrite ?W in *; by_frame. intros x M.
    destruct (Z.eqb_spec x D) as [E|E].
    + rewrite E. split; [lia|]. intros _. split; [lia|]. intros. rewrite Hp. auto.
    + destruct (Fmark x ltac:(cbn in M; lia)) as [M1 M2]. split; [done|]. intros E'. destruct (M2 E') as [M3 M4]. auto.
  - apply (map_keep _ _ _ _ _ _ C); auto.
  - split; by_frame.
  - unfold c'. destruct (ok st); [split; [by apply pinned_change|done]|apply local_after_flush; by apply pinned_change].
  - unfold c'. destruct (ok st); [done|]. by rewrite fetching_after_flush.
  - unfold c'. destruct (ok st); [done|]. by rewrite deleting_after_flush.
Qed.

Lemma post_Marks env f p r D gs :
  core n (plus oth (holds (Marks f p r D))) P A -> local P A (Marks f p r D) ->
  post n oth P A (Marks f p r D) gs (exec env (Marks f p r D) gs P).
Proof.
  intros C ((Hf & Hs & Hp) & Ha). cbn [exec]. intros _. exists []. split; [done|].
  unfold upd. rewrite set_frame_one. frame_facts C N Cv f Hf. pose proof (N (KMark D) f) as NM.
  destruct (Fmark D ltac:(unfold plus; cbn; unfold is_token; cbn; rewrite !Z.eqb_refl; cbn; lia)) as [M1 M2].
  assert (Fm : forall x, 0 < oth (KMark x) f -> 0 < plus oth (holds (Marks f p r D)) (KMark x) f)
    by (intros x Hx; unfold plus; pose proof (occ_nonneg (KMark x) f (holds (Marks f p r D))); lia).
  assert (Hm : MarkFlushed D (FrameAt f P) =
    set_epochs (dirty_epoch (FrameAt f P)) (Z.max (flushed_epoch (FrameAt f P)) D) (FrameAt f P)).
  { unfold MarkFlushed. destruct (Z.ltb_spec (flushed_epoch (FrameAt f P)) D).
    - by rewrite Z.max_r by lia.
    - rewrite Z.max_l by lia. by rewrite set_epochs_id. }
  rewrite Hm. apply (piece_one C); try done.
  - apply C.
  - rewrite holds_after_flush. other_tokens.
  - by rewrite holds_after_flush.
  - rewrite holds_after_flush. split; on_frame.
    14: { intros S K E W. destruct (decide (D = dirty_epoch (FrameAt f P))) as [Ed|Ed]; [apply (M2 Ed)|apply Fclean]; try done; toks; lia. }
    14: { intros K. destruct (decide (D = dirty_epoch (FrameAt f P))) as [Ed|Ed]; [destruct (M2 Ed)|specialize (Fbump)]; toks; lia. }
    14: { intros x Hx. destruct (Fmark x (Fm x ltac:(toks; lia))) as [X1 X2]. split; [done|]. intros E. destruct (X2 E) as [X3 X4]. split; [toks; lia|].
          intros S K W. apply X4; try done; toks; lia. }
    all: clear M2 Fmark Fm; by_frame.
  - apply (map_keep _ _ _ _ _ _ C); auto.
  - split; by_frame.
  - apply local_after_flush. by apply pinned_change.
  - by rewrite fetching_after_flush.
  - by rewrite deleting_after_flush.
Qed.

(** Unpinning a resident frame, wherever it happens. *)
Lemma post_unpin c c' f p gs ev :
  core n (plus oth (holds c)) P A -> pinned_at P f p -> holds c = [(KPin, f)] -> holds c' = [] ->
  (forall Q, local Q A c') -> (forall p, fetching c' = Some p -> fetching c = Some p) -> deleting c' = None ->
  match ev with Silent | Returned _ => True | _ => False end ->
  post n oth P A c gs (unpin f P (fun P notify => Goes P c' gs notify ev)).
Proof.
  intros C (Hf & Hs & Hp) Hc Hc' L Hfe Hde Hev. rewrite unpin_eq; [|done|by eapply pinned_positive]. intros _. exists [].
  split; [done|]. apply piece_unpin; auto.
Qed.

Lemma post_Unpins env f r st gs :
  core n (plus oth (holds (Unpins f r st))) P A -> local P A (Unpins f r st) ->
  post n oth P A (Unpins f r st) gs (exec env (Unpins f r st) gs P).
Proof. intros C [p L]. cbn [exec]. destruct r; by eapply (post_unpin _ _ _ _ _ _ C L). Qed.

Lemma post_GivesBack env f k o gs :
  core n (plus oth (holds (GivesBack f k o))) P A -> local P A (GivesBack f k o) ->
  post n oth P A (GivesBack f k o) gs (exec env (GivesBack f k o) gs P).
Proof. intros C [p L]. cbn [exec]. destruct o; by eapply (post_unpin _ _ _ _ _ _ C L). Qed.

Lemma post_Leaves env f gs :
  core n (plus oth (holds (Leaves f))) P A -> local P A (Leaves f) ->
  post n oth P A (Leaves f) gs (exec env (Leaves f) gs P).
Proof. intros C [p L]. cbn [exec]. by eapply (post_unpin _ _ _ _ _ _ C L). Qed.

Lemma post_Dirties env g gs :
  core n (plus oth (holds (Dirties g))) P A -> local P A (Dirties g) -> n + 1 < 2 ^ 64 ->
  post n oth P A (Dirties g) gs (exec env (Dirties g) gs P).
Proof.
  intros C (((Hf & Hs & Hp) & Ha) & Hw) Hn. cbn [exec]. intros _. exists []. split; [done|].
  unfold upd. rewrite set_frame_one. frame_facts C N Cv (g_frame g) Hf.
  assert (W : writer (FrameAt (g_frame g) P) = true) by (destruct (writer (FrameAt (g_frame g) P)) eqn:W; [done|toks; lia]).
  assert (Hd : u64 (dirty_epoch (FrameAt (g_frame g) P) + 1) = dirty_epoch (FrameAt (g_frame g) P) + 1)
    by (apply u64_id; unfold is_u64; lia).
  assert (Hh : holds (Unlatches g) = [(KPin, g_frame g); (KWrite, g_frame g); (KBump, g_frame g)]) by (cbn; by rewrite Hw).
  apply (piece_one C); try done.
  - apply C.
  - rewrite Hh. other_tokens.
  - by rewrite Hh.
  - rewrite Hh. split; on_frame; rewrite ?Hd, ?W in *; by_frame.
  - apply (map_keep _ _ _ _ _ _ C); auto.
  - split; on_frame; rewrite ?Hd, ?W in *; by_frame.
  - split; [by apply pinned_change|done].
Qed.

Lemma post_Unlatches env g gs :
  core n (plus oth (holds (Unlatches g))) P A -> local P A (Unlatches g) ->
  post n oth P A (Unlatches g) gs (exec env (Unlatches g) gs P).
Proof.
  intros C ((Hf & Hs & Hp) & Ha). cbn [exec]. intros _. exists []. split; [done|].
  unfold upd. rewrite set_frame_one. frame_facts C N Cv (g_frame g) Hf. set (f := g_frame g) in *.
  assert (Hh : holds (Unlatches g) = if g_write g then [(KPin, f); (KWrite, f); (KBump, f)] else [(KPin, f); (KRead, f)]) by done.
  assert (W : writer (FrameAt f P) = g_write g).
  { rewrite Hh in *. destruct (g_write g), (writer (FrameAt f P)) eqn:W; try done; toks; [lia|specialize (Flat eq_refl); lia]. }
  apply (piece_one C); try done.
  - apply C.
  - rewrite Hh. destruct (g_write g); other_tokens.
  - rewrite Hh. by destruct (g_write g).
  - rewrite Hh in *. destruct (g_write g) eqn:G; split; on_frame; rewrite ?W in *; by_frame.
  - destruct (g_write g); apply (map_keep _ _ _ _ _ _ C); auto.
  - rewrite Hh in *. destruct (g_write g) eqn:G; split; on_frame; rewrite ?W in *; by_frame.
  - exists (g_page g). destruct (g_write g); by apply pinned_change.
Qed.

(** Pinning a resident frame to flush it. *)
Lemma post_pin_to_flush c f r gs :
  core n (plus oth (holds c)) P A -> in_pool P f -> state (FrameAt f P) = Resident -> holds c = [] ->
  (forall p, caller_need r = Some p -> fetching c = Some p) ->
  post n oth P A c gs
    (Goes (upd f (set_pin (pin_count (FrameAt f P) + 1)) P) (Checks f (page_id (FrameAt f P)) r) gs None Silent).
Proof.
  intros C Hf Hs Hc Hr _. exists []. split; [done|]. apply (piece_pin N Cv _ _ f 0); try done; [by left|by left|].
  unfold upd. rewrite set_frame_one. by apply pinned_change.
Qed.

Lemma post_Finds env p gs :
  core n (plus oth (holds (Finds p))) P A -> post n oth P A (Finds p) gs (exec env (Finds p) gs P).
Proof.
  intros C. cbn [exec]. destruct (Find p (page_table P)) as [f|] eqn:F.
  2: { intros _. exists []. split; [done|]. by apply (piece_same C). }
  destruct (co_map _ _ _ _ C p f F) as (Hf & Hp & Hs & _). cbv zeta. case_bool_decide as E.
  - intros _. exists []. split; [done|]. by apply (piece_same C).
  - replace (Checks f p InFlushPage) with (Checks f (page_id (FrameAt f P)) InFlushPage) by by rewrite Hp.
    by apply (post_pin_to_flush _ _ _ _ C).
Qed.

Lemma post_Visits env next st gs :
  core n (plus oth (holds (Visits next st))) P A -> post n oth P A (Visits next st) gs (exec env (Visits next st) gs P).
Proof.
  intros C. cbn [exec]. cbv zeta. destruct (Z.leb_spec (capacity P) (Z.of_nat next)).
  { intros _. exists []. split; [done|]. by apply (piece_same C). }
  case_bool_decide as E.
  - intros _. exists []. split; [done|]. by apply (piece_same C).
  - apply (post_pin_to_flush _ _ _ _ C); try done. unfold in_pool; lia.
Qed.
End pieces.
