(* ===== verification/PoolReclaims.v ===== *)
(** * Pieces that find a victim, vacate a frame, and move frames over the free list *)

From stdpp Require Import gmap.
From S2P Require Import Prelude Common DiskManager DiskProofs DiskTheorems Replacer ReplacerTheorems.
From S2P Require Import PoolIndex BufferPool BufferPoolProofs BufferPoolOps PoolThreads PoolTokens PoolShared PoolPieces PoolPins PoolFlushes.

(** The frame gives up its page: free, unmapped, in this thread's hand. *)
Definition vacated (f p : Z) (P : Pool) : Pool :=
  mkPool (<[Z.to_nat f := to_free 0 (FrameAt f P)]> (frames P)) (free_list P) (Erase p (page_table P)) (replacer P)
    (disk P) (shutdown P).

Section pieces.
Context {errno_text : ErrnoText} {host : Host}.
Context {n : Z} {oth : Kind -> Z -> Z} {P : Pool} {A : gset Z}.
Hypothesis N : forall k x, 0 <= oth k x.
Hypothesis Cv : covered oth.

(** Only this thread, if any, has a pin on a frame whose page is settled. *)
Record vacant (c : Pc) (f p : Z) : Prop := {
  vc_resident : resident_at P A f p;
  vc_tokens : holds c = [(KAim p, f)] \/ holds c = [(KPin, f)] \/ holds c = [];
  vc_pins : oth KPin f = 0
}.

Lemma vacated_frame c f p g :
  vacant c f p -> 0 <= g -> FrameAt g (vacated f p P) = if decide (g = f) then to_free 0 (FrameAt f P) else FrameAt g P.
Proof. intros [((Hf & _) & _) _ _] Hg. exact (FrameAt_set f g (to_free 0 (FrameAt f P)) P Hf Hg). Qed.

Lemma vacant_settled c f p :
  core n (plus oth (holds c)) P A -> vacant c f p -> Find p (page_table P) = Some f /\ oth KNew f = 0 /\ oth KPage p = 0.
Proof.
  intros C [R T Hp]. pose proof (N KNew f) as Nn. pose proof (N KPage p) as Np.
  assert (E : plus oth (holds c) KNew f = oth KNew f /\ plus oth (holds c) KPage p = oth KPage p)
    by (destruct T as [-> |[-> | ->]]; unfold plus; cbn; lia).
  destruct (alive_settled _ _ _ _ f p C) as [E1 E2]; [lia|by apply makes|done|].
  destruct (co_pages _ _ _ _ C) as [l L]. destruct (pg_alive _ _ _ _ L p) as [E3 _]; [apply R|]. split; [done|]. lia.
Qed.

(** The page of a settled frame is not that of another. *)
Lemma other_page c f p g :
  core n (plus oth (holds c)) P A -> vacant c f p -> Find (page_id (FrameAt g P)) (page_table P) = Some g -> g <> f ->
  page_id (FrameAt g P) <> p.
Proof. intros C V F Ne E. destruct (vacant_settled c f p C V) as [F' _]. congruence. Qed.

Lemma core_vacate c c' f p A' :
  core n (plus oth (holds c)) P A -> vacant c f p ->
  (forall k g, k <> KPage -> occ k g (holds c') = occ k g [(KOwn, f)]) ->
  (forall q, q <> p -> occ KPage q (holds c') = occ KPage q (holds c) /\ (q ∈ A' <-> q ∈ A)) ->
  (exists l, pages_ok (plus oth (holds c')) (disk P) A' l) ->
  core (n + 1) (plus oth (holds c')) (vacated f p P) A'.
Proof.
  intros C V K1 K2 Pg. pose proof V as [((Hf & Hs & Hp) & Ha) T H0]. destruct (vacant_settled c f p C V) as (Fp & Hn & Hk).
  pose proof C as [C1 C2 C3 C4 C5 C6 C7 C8].
  assert (Hcap : capacity (vacated f p P) = capacity P) by (unfold capacity; cbn; by rewrite length_insert).
  assert (KP : forall q, q <> p -> plus oth (holds c') KPage q = plus oth (holds c) KPage q)
    by (intros q Hq; unfold plus; by rewrite (proj1 (K2 q Hq))).
  split; try done.
  - by rewrite Hcap.
  - cbn. by rewrite length_insert.
  - by apply table_ok_Erase.
  - intros g Hg. rewrite Hcap. auto.
  - intros g Hg. rewrite Hcap in Hg. unfold frame_at_ok. rewrite (vacated_frame _ _ _ _ V) by lia. cbn. case_decide as E.
    + subst g. frame_facts C N Cv f Hf. assert (K1f := fun k H => K1 k f H).
      assert (X : forall k, k <> KPage -> plus oth (holds c') k f = oth k f + occ k f [(KOwn, f)]) by (intros k Hk'; unfold plus; by rewrite K1f).
      split; rewrite ?X by done; on_frame; try done.
      all: try (destruct T as [T|[T|T]]; rewrite T in *; toks; decide_states; rewrite ?Hs in *; solve [done | lia]).
      * destruct T as [T|[T|T]]; rewrite T in *; toks; (split; [done|]); (split; [lia|]); destruct (writer (FrameAt f P)); done || lia.
      * intros D. rewrite X by done. intros HD. specialize (NMk D). cbn in HD. lia.
    + eapply frame_inv_ext; [by apply C6|lia| |done|].
      * intros k Hk'. unfold plus. rewrite K1 by done. cbn. unfold is_token. cbn.
        destruct (Z.eqb_spec g f); [done|]. rewrite andb_false_r.
        destruct T as [-> |[-> | ->]]; cbn; unfold is_token; cbn; destruct (Z.eqb_spec g f); try done; by rewrite ?andb_false_r.
      * intros S K F I. pose proof (other_page _ _ _ g C V F E) as Ne. rewrite Find_Erase by done. rewrite decide_False by done.
        split; [done|]. split; [by apply K2|done].
  - intros q g F. cbn in F. rewrite Find_Erase in F by done. case_decide as E; [done|]. rewrite Hcap.
    destruct (C7 q g F) as (G1 & G2 & G3 & G4). split; [done|]. rewrite (vacated_frame _ _ _ _ V) by lia.
    rewrite decide_False by congruence. split; [done|]. split; [done|]. rewrite KP by done. destruct G4; [left; by apply K2|by right].
Qed.

Lemma guar_vacate c f p ev :
  core n (plus oth (holds c)) P A -> vacant c f p ->
  (ev = Silent /\ data (FrameAt f P) = page_bytes p (file (disk P))) \/ ev = Removed p ->
  guar oth P A (vacated f p P) (alive_after ev A) None ev.
Proof.
  intros C V Hev. pose proof V as [((Hf & Hs & Hp) & Ha) T H0]. destruct (vacant_settled c f p C V) as (Fp & Hn & Hk).
  pose proof (co_table _ _ _ _ C) as Kt. destruct (Cv f) as (Cv1 & _).
  pose proof (N KRead f). pose proof (N KWrite f). pose proof (N KLoad f). pose proof (N KNew f).
  assert (HA : forall q, q <> p -> q ∈ A -> q ∈ alive_after ev A)
    by (intros q Hq Hi; destruct Hev as [[-> _]| ->]; cbn; [done|apply elem_of_difference; split; [done|by apply not_elem_of_singleton]]).
  assert (FA : forall g, 0 <= g < capacity P -> g <> f -> FrameAt g (vacated f p P) = FrameAt g P)
    by (intros g Hg Ne; rewrite (vacated_frame _ _ _ _ V) by lia; by rewrite decide_False).
  assert (Live : forall g, 0 <= g < capacity P -> g <> f -> 0 < oth KPin g -> state (FrameAt g P) = Resident ->
            page_id (FrameAt g P) ∈ A -> page_id (FrameAt g P) <> p).
  { intros g Hg Ne Hpg S I. eapply (other_page c f); try done.
    apply (alive_settled _ _ _ _ g (page_id (FrameAt g P)) C); [unfold plus; pose proof (N KNew g); pose proof (occ_nonneg KNew g (holds c)); lia|by apply makes|].
    by split_and!. }
  split.
  - cbn. apply length_insert.
  - intros g Hg Hpg S. rewrite FA by (done || intros ->; lia). auto.
  - intros g Hg Hpg S I. apply HA; [|done]. apply Live; try done. intros ->; lia.
  - intros g Hg Hr. rewrite FA by (done || intros ->; lia). done.
  - intros g Hg Hl. assert (Ne : g <> f) by (intros ->; lia). rewrite FA by done. split_and!; try done.
    + intros q. cbn. rewrite Find_Erase by done. case_decide; [|done]. subst. rewrite Fp. split; congruence.
    + intros F I. split; [|done]. apply HA; [|done]. intros E. rewrite E in F. congruence.
  - intros g Hg Hl. rewrite FA by (done || intros ->; lia). done.
  - intros q Hq. cbn. rewrite Find_Erase by done. case_decide; [subst; lia|done].
  - intros q Hq Hq' _. unfold view. cbn [page_table disk vacated]. rewrite Find_Erase by done. case_decide as E.
    + subst q. destruct Hev as [[-> Hd]| ->]; [|cbn in Hq'; by apply elem_of_difference in Hq' as [_ Hq'%not_elem_of_singleton]]. rewrite Fp. unfold frame_view. by rewrite Hs.
    + destruct (Find q (page_table P)) as [g|] eqn:F; [|done]. destruct (co_map _ _ _ _ C q g F) as (Hg & Eg & _).
      rewrite FA; [done|done|]. intros ->. congruence.
  - intros g Hg. right. destruct (decide (g = f)) as [->|Ne]; [rewrite Hs; done|]. by rewrite FA.
Qed.

Lemma vacate_local c f p k : vacant c f p -> local (vacated f p P) A (acquired_frame f k).
Proof.
  intros [((Hf & _) & _) _ _]. assert (in_pool (vacated f p P) f) by (unfold in_pool, capacity; cbn; by rewrite length_insert).
  by destruct k.
Qed.

Lemma piece_vacate c f p k :
  core n (plus oth (holds c)) P A -> vacant c f p -> data (FrameAt f P) = page_bytes p (file (disk P)) ->
  (forall q, need_page k = Some q -> fetching c = Some q) ->
  piece n oth P A c (vacated f p P) (acquired_frame f k) [] None Silent.
Proof.
  intros C V Hd Hk. pose proof V as [_ T _]. assert (Hh : holds (acquired_frame f k) = [(KOwn, f)]) by by destruct k.
  split; try done; cbn [alive_after].
  - cbn [guards_hold]. rewrite app_nil_r. eapply core_vacate; [done|done|..].
    + intros k' g _. by rewrite Hh.
    + intros q _. rewrite Hh. split; [|done]. by destruct T as [-> |[-> | ->]].
    + destruct (co_pages _ _ _ _ C) as [l L]. exists l. eapply pages_ok_ext; [|exact L]. intros q. unfold plus. rewrite Hh.
      by destruct T as [-> |[-> | ->]].
  - by eapply vacate_local.
  - change A with (alive_after Silent A) at 2. eapply guar_vacate; [done|done|by left].
  - intros q. destruct k; cbn; [apply Hk|done].
  - by destruct k.
Qed.

Lemma post_Peeks env f k gs :
  core n (plus oth (holds (Peeks f k))) P A -> local P A (Peeks f k) ->
  post n oth P A (Peeks f k) gs (exec env (Peeks f k) gs P).
Proof.
  intros C Hf. cbn [exec local] in *. cbv zeta. frame_facts C N Cv f Hf.
  assert (X : forall c', holds c' = [] \/ holds c' = [(KAim (page_id (FrameAt f P)), f)] ->
     (holds c' = [] -> state (FrameAt f P) <> Resident \/ pin_count (FrameAt f P) <> 0) -> local P A c' ->
     (forall q, fetching c' = Some q -> need_page k = Some q) -> deleting c' = None ->
     piece n oth P A (Peeks f k) P c' [] None Silent).
  { intros c' Hc Hd L Hfe Hde. rewrite (pool_one f P Hf) at 2. apply (piece_one C); try done.
    - apply C.
    - destruct Hc as [-> | ->]; other_tokens.
    - by destruct Hc as [-> | ->].
    - destruct Hc as [E|E]; rewrite E in *; [specialize (Hd eq_refl)|]; split; by_frame.
      intros S Hn. right; right. pose proof (N (KAim (page_id (FrameAt f P))) f). cbn. lia.
    - apply (map_keep _ _ _ _ _ _ C); auto.
    - split; by_frame.
    - by rewrite <- (pool_one f P Hf). }
  destruct (bool_decide (state (FrameAt f P) <> Resident) || negb (pin_count (FrameAt f P) =? 0)) eqn:E;
    intros _; exists []; (split; [done|]); apply X; try done; [by left| |by right].
  intros _. apply orb_true_iff in E as [E|E]; [left; by apply bool_decide_eq_true in E|right; lia].
Qed.

Lemma clean_data c f p :
  core n (plus oth (holds c)) P A -> vacant c f p -> IsDirty (FrameAt f P) = false -> data (FrameAt f P) = page_bytes p (file (disk P)).
Proof.
  intros C V D. pose proof V as [((Hf & Hs & Hp) & Ha) T H0]. destruct (vacant_settled c f p C V) as (_ & Hn & _).
  destruct (Cv f) as (Cv1 & _). pose proof (N KRead f). pose proof (N KLoad f). pose proof (N KWrite f).
  assert (E : forall k, k = KNew \/ k = KWrite -> plus oth (holds c) k f = oth k f)
    by (intros k Hk; unfold plus; destruct T as [-> |[-> | ->]], Hk as [-> | ->]; cbn; lia).
  frame_facts C N Cv f Hf. rewrite <- Hp. unfold IsDirty in D. apply Z.ltb_ge in D. apply Fclean; [done|rewrite E; auto|lia|].
  rewrite E in Fwr by auto. destruct (writer (FrameAt f P)); [lia|done].
Qed.

Lemma post_Validates env f p k gs :
  core n (plus oth (holds (Validates f p k))) P A -> local P A (Validates f p k) ->
  post n oth P A (Validates f p k) gs (exec env (Validates f p k) gs P).
Proof.
  intros C Hf. cbn [exec local] in *. cbv zeta. frame_facts C N Cv f Hf.
  destruct (bool_decide (state (FrameAt f P) <> Resident) || negb (pin_count (FrameAt f P) =? 0) || negb (page_id (FrameAt f P) =? p)) eqn:E.
  { intros _. exists []. split; [done|]. rewrite (pool_one f P Hf) at 2. apply (piece_one C); try done.
    - apply C.
    - other_tokens.
    - split; by_frame. intros S Hn. rewrite S, Hn in E. cbn in E. destruct (Z.eqb_spec (page_id (FrameAt f P)) p); [done|].
      cbn in Fcand. specialize (Fcand S Hn). rewrite Z.add_0_r in Fcand. done.
    - apply (map_keep _ _ _ _ _ _ C); auto.
    - split; by_frame. }
  apply orb_false_iff in E as [[E1 E2]%orb_false_iff E3]. apply bool_decide_eq_false, dec_stable in E1.
  apply negb_false_iff, Z.eqb_eq in E2. apply negb_false_iff, Z.eqb_eq in E3.
  assert (V : vacant (Validates f p k) f p).
  { split; [split; [done|]|by left|toks; lia]. rewrite <- E3. apply Fhome; [done|]. toks. lia. }
  destruct (vacant_settled _ f p C V) as (Fp & _). rewrite bool_decide_false by (intros H; by apply H).
  destruct (IsDirty (FrameAt f P)) eqn:D; cbn [negb].
  - intros _. exists []. split; [done|]. apply (piece_pin N Cv _ _ f p); auto.
    unfold upd. rewrite set_frame_one. by apply pinned_change.
  - intros _. exists []. split; [done|]. rewrite E2. apply piece_vacate; [done|done|by eapply clean_data|done].
Qed.

Lemma post_Revalidates env f p k gs :
  core n (plus oth (holds (Revalidates f p k))) P A -> local P A (Revalidates f p k) ->
  post n oth P A (Revalidates f p k) gs (exec env (Revalidates f p k) gs P).
Proof.
  intros C L. pose proof L as (Hf & Hs & Hp). cbn [exec]. cbv zeta. destruct (bool_decide (state (FrameAt f P) = Resident) && _ && _ && _) eqn:E.
  - apply andb_true_iff in E as [[[E1 E2]%andb_true_iff E3]%andb_true_iff E4].
    apply Z.eqb_eq in E3. apply negb_true_iff in E4. frame_facts C N Cv f Hf.
    assert (V : vacant (Revalidates f p k) f p).
    { split; [split; [done|]|auto|toks; lia]. rewrite <- Hp. apply Fhome; [done|]. toks. lia. }
    destruct (vacant_settled _ f p C V) as (Fp & _). rewrite bool_decide_false by (intros H; by apply H).
    intros _. exists []. split; [done|]. apply piece_vacate; [done|done|by eapply clean_data|done].
  - intros _. exists []. split; [done|]. apply (piece_same C); try done. by exists p.
Qed.

(** Frames pass between the free list and a thread's hand. *)
Lemma piece_free c c' l' ev :
  core n (plus oth (holds c)) P A ->
  (forall g, occ KOwn g (holds c') + times g l' = occ KOwn g (holds c) + times g (free_list P)) ->
  (forall k g, k <> KOwn -> occ k g (holds c') = occ k g (holds c)) ->
  (forall g, g ∈ l' -> 0 <= g < capacity P) ->
  local P A c' -> (forall p, fetching c' = Some p -> fetching c = Some p) -> deleting c' = None ->
  match ev with Silent | Returned _ => True | _ => False end ->
  piece n oth P A c (set_free_list l' P) c' [] None ev.
Proof.
  intros [C1 C2 C3 C4 C5 C6 C7 C8] Ho Hk Hl L Hfe Hde Hev. assert (Ha : alive_after ev A = A) by by destruct ev.
  assert (E : forall k x, k <> KOwn -> plus oth (holds c' ++ guards_hold []) k x = plus oth (holds c) k x)
    by (intros k x Hk'; unfold plus; rewrite app_nil_r; by rewrite Hk).
  split; rewrite ?Ha; try done.
  - split; try done.
    + intros f Hf. destruct (C6 f Hf) as [F1 F2 F3 F4 F5 F6 F7 F8 F9 F10 F11 F12 F13 F14 F15 F16 F17 F18].
      unfold frame_at_ok. change (FrameAt f (set_free_list l' P)) with (FrameAt f P).
      split; rewrite ?E by done; try done; [lia| |].
      * cbn [guards_hold]. rewrite app_nil_r. cbn [free_list set_free_list]. specialize (Ho f). unfold plus in *. lia.
      * intros D. rewrite E by done. apply F16.
    + intros p f F. rewrite E by done. auto.
    + destruct C8 as [l C8]. exists l. eapply pages_ok_ext; [|exact C8]. intros p. by apply E.
  - split; try done; intros; auto.
  - by destruct ev.
Qed.

Lemma post_Pops env k gs :
  core n (plus oth (holds (Pops k))) P A -> post n oth P A (Pops k) gs (exec env (Pops k) gs P).
Proof.
  intros C. cbn [exec]. destruct (TryPop (free_list P)) as [[f|] l] eqn:E.
  - apply TryPop_Some in E. intros _. exists []. split; [done|].
    assert (Hf : f ∈ free_list P) by (rewrite E; apply elem_of_Push; by right).
    assert (Hh : holds (acquired_frame f k) = [(KOwn, f)]) by by destruct k.
    apply piece_free; try done.
    + intros g. rewrite Hh, E, times_Push. cbn. unfold is_token; cbn. destruct (g =? f); lia.
    + intros k' g Hk. rewrite Hh. cbn. unfold is_token. cbn. by destruct k'.
    + intros g Hg. apply (co_free _ _ _ _ C). rewrite E, elem_of_Push. by left.
    + destruct k; by apply (co_free _ _ _ _ C).
    + by destruct k.
    + by destruct k.
  - assert (l = free_list P) as ->.
    { unfold TryPop in E. destruct (last (free_list P)); [done|]. congruence. }
    intros _. exists []. split; [done|]. apply piece_free; try done. apply C.
Qed.

Lemma piece_push c c' f ev :
  core n (plus oth (holds c)) P A -> in_pool P f -> holds c = [(KOwn, f)] -> holds c' = [] ->
  local P A c' -> (forall p, fetching c' = Some p -> fetching c = Some p) -> deleting c' = None ->
  match ev with Silent | Returned _ => True | _ => False end ->
  piece n oth P A c (push_free f P) c' [] None ev.
Proof.
  intros C Hf Hc Hc' L Hfe Hde Hev. apply piece_free; try done; rewrite ?Hc, ?Hc'.
  - intros g. rewrite times_Push. cbn. unfold is_token; cbn. destruct (g =? f); lia.
  - intros k g Hk. cbn. unfold is_token. cbn. by destruct k.
  - intros g Hg. apply elem_of_Push in Hg as [Hg| ->]; [by apply (co_free _ _ _ _ C)|done].
Qed.

Lemma post_Restocks env f st gs :
  core n (plus oth (holds (Restocks f st))) P A -> local P A (Restocks f st) ->
  post n oth P A (Restocks f st) gs (exec env (Restocks f st) gs P).
Proof. intros C L. cbn [exec]. intros _. exists []. split; [done|]. by apply piece_push. Qed.

Lemma post_Returns env f p st gs :
  core n (plus oth (holds (Returns f p st))) P A -> local P A (Returns f p st) ->
  post n oth P A (Returns f p st) gs (exec env (Returns f p st) gs P).
Proof. intros C L. cbn [exec]. intros _. exists []. split; [done|]. by apply piece_push. Qed.

Lemma post_Evicts env k gs :
  core n (plus oth (holds (Evicts k))) P A -> (forall i, Forall (fun f => 0 <= f < capacity P) (env i)) ->
  post n oth P A (Evicts k) gs (exec env (Evicts k) gs P).
Proof.
  intros C He. cbn [exec].
  assert (Ev : env_ok env (replacer P)) by (intros i; unfold in_range; rewrite (co_rep_len _ _ _ _ C); apply He).
  pose proof (Evict_spec env (replacer P) (co_rep _ _ _ _ C) Ev) as S. destruct (Evict env (replacer P)) as [[v|] r'].
  2: { destruct S as [-> _]. intros _. exists []. split; [done|]. replace (set_replacer (replacer P) P) with P by by destruct P.
       by apply (piece_same C). }
  destruct S as (S1 & S2 & S3 & S4 & _ & _ & S5).
  assert (Hf : in_pool P v) by (unfold in_range in S1; rewrite (co_rep_len _ _ _ _ C) in S1; done).
  assert (Hb : forall g, 0 <= g -> evictable_at g r' = if decide (g = v) then false else evictable_at g (replacer P))
    by (intros g Hg; apply (evictable_at_insert v g false); try done; apply C).
  intros _. exists []. split; [done|]. rewrite (set_replacer_one v) by done. frame_facts C N Cv v Hf.
  apply (piece_one C); try done.
  - intros g Hg Ne. rewrite Hb by done. by rewrite decide_False.
  - other_tokens.
  - split; by_frame. intros _ _. right; left. pose proof (N KClaim v). lia.
  - apply (map_keep _ _ _ _ _ _ C); auto.
  - split; by_frame.
  - by apply in_pool_change.
Qed.
End pieces.
