(* ===== verification/PoolLoads.v ===== *)
(** * Pieces that load a page, give a load up, and write a page back *)

From stdpp Require Import gmap.
From S2P Require Import Prelude Common DiskManager DiskProofs DiskTheorems Replacer ReplacerTheorems.
From S2P Require Import PoolIndex BufferPool BufferPoolProofs BufferPoolOps PoolThreads PoolTokens PoolShared PoolPieces PoolPins PoolReclaims.

(** Page [p] mapped to frame [f], whose fields change too. *)
Definition mapped_to (f : Z) (fr' : Frame) (t' : PageTable) (P : Pool) : Pool := set_frame f fr' (set_page_table t' P).

Section pieces.
Context {errno_text : ErrnoText} {host : Host}.
Context {n : Z} {oth : Kind -> Z -> Z} {P : Pool} {A : gset Z}.
Hypothesis N : forall k x, 0 <= oth k x.
Hypothesis Cv : covered oth.

Lemma core_insert c c' f p fr' t' :
  core n (plus oth (holds c)) P A -> in_pool P f -> Find p (page_table P) = None -> table_ok t' ->
  (forall q, Find q t' = if decide (q = p) then Some f else Find q (page_table P)) ->
  (forall q, Find q (page_table P) <> Some f) ->
  (forall k g, g <> f -> k <> KPage -> occ k g (holds c') = occ k g (holds c)) ->
  (forall q, occ KPage q (holds c') = occ KPage q (holds c)) ->
  frame_inv (n + 1) (plus oth (holds c')) (free_list P) t' (evictable_at f (replacer P)) (file (disk P)) A f fr' ->
  page_id fr' = p -> state fr' = Resident \/ state fr' = Loading -> p ∈ A \/ 0 < plus oth (holds c) KPage p ->
  core (n + 1) (plus oth (holds c')) (mapped_to f fr' t' P) A.
Proof.
  intros [C1 C2 C3 C4 C5 C6 C7 C8] Hf Fp Kt Ft Fn K1 K2 Fi Ep Es Ea.
  assert (Hcap : capacity (mapped_to f fr' t' P) = capacity P) by (unfold capacity; cbn; by rewrite length_insert).
  assert (KP : forall q, plus oth (holds c') KPage q = plus oth (holds c) KPage q) by (intros q; unfold plus; by rewrite K2).
  assert (FA : forall g, 0 <= g -> FrameAt g (mapped_to f fr' t' P) = if decide (g = f) then fr' else FrameAt g P)
    by (intros g Hg; exact (FrameAt_set f g fr' P Hf Hg)).
  split; try done.
  - by rewrite Hcap.
  - cbn. by rewrite length_insert.
  - intros g Hg. rewrite Hcap. auto.
  - intros g Hg. rewrite Hcap in Hg. unfold frame_at_ok. rewrite FA by lia. cbn. case_decide as E; [by subst|].
    eapply frame_inv_ext; [by apply C6|lia| |done|].
    + intros k Hk. unfold plus. by rewrite K1.
    + intros S K F I. rewrite Ft. rewrite decide_False by congruence. done.
  - intros q g F. cbn in F. rewrite Ft in F. rewrite Hcap, KP. case_decide as E.
    + injection F as <-. subst q. rewrite FA, decide_True by (done || apply Hf). done.
    + destruct (C7 q g F) as (G1 & G2 & G3 & G4). rewrite FA by lia. rewrite decide_False; [done|]. intros ->. by eapply Fn.
  - destruct C8 as [l C8]. exists l. eapply pages_ok_ext; [|exact C8]. done.
Qed.

Lemma guar_insert c f p fr' t' :
  core n (plus oth (holds c)) P A -> in_pool P f -> Find p (page_table P) = None ->
  (forall q, Find q t' = if decide (q = p) then Some f else Find q (page_table P)) ->
  (forall q, Find q (page_table P) <> Some f) -> oth KPage p = 0 -> oth KLoad f = 0 ->
  oth KPin f = 0 \/ fr' = FrameAt f P -> (p ∈ A -> state fr' <> Resident) ->
  (state (FrameAt f P) <> Loading) ->
  guar oth P A (mapped_to f fr' t' P) A None Silent.
Proof.
  intros C Hf Fp Ft Fn Kp Kl Kf Hv Hs. destruct (Cv f) as (Cv1 & _).
  pose proof (N KRead f). pose proof (N KWrite f). pose proof (N KNew f).
  assert (FA : forall g, 0 <= g -> FrameAt g (mapped_to f fr' t' P) = if decide (g = f) then fr' else FrameAt g P)
    by (intros g Hg; exact (FrameAt_set f g fr' P Hf Hg)).
  assert (Fk : forall g k, 0 <= g < capacity P -> (k = KPin \/ k = KRead \/ k = KNew) -> 0 < oth k g -> FrameAt g (mapped_to f fr' t' P) = FrameAt g P).
  { intros g k Hg Hk Hpos. rewrite FA by lia. case_decide; [|done]. subst. destruct Kf as [Kf|Kf]; [|done].
    destruct Hk as [->|[->| ->]]; lia. }
  split.
  - cbn. apply length_insert.
  - intros g Hg Hp S. rewrite (Fk g KPin) by auto. auto.
  - done.
  - intros g Hg Hr. rewrite (Fk g KRead) by auto. done.
  - intros g Hg Hl. assert (Ne : g <> f) by (intros ->; lia). rewrite FA, decide_False by (done || lia). split_and!; try done.
    intros q. cbn. rewrite Ft. case_decide; [|done]. subst. rewrite Fp. split; congruence.
  - intros g Hg Hn. rewrite (Fk g KNew) by auto. done.
  - intros q Hq. cbn. rewrite Ft. case_decide; [subst; lia|done].
  - intros q Hq _ _. unfold view. cbn [page_table disk mapped_to set_frame set_page_table]. rewrite Ft. case_decide as E.
    + subst q. rewrite Fp, FA by apply Hf. rewrite decide_True by done. unfold frame_view. specialize (Hv Hq). by destruct (state fr').
    + destruct (Find q (page_table P)) as [g|] eqn:F; [|done]. destruct (co_map _ _ _ _ C q g F) as (Hg & _).
      rewrite FA by lia. rewrite decide_False; [done|]. intros ->. by eapply Fn.
  - intros g Hg. right. rewrite FA by lia. case_decide; [subst g|done]. split; [done|]. intros _ Hl. lia.
Qed.

Lemma free_unmapped cnt f :
  core n cnt P A -> state (FrameAt f P) = Free \/ state (FrameAt f P) = Failed -> forall q, Find q (page_table P) <> Some f.
Proof. intros C Hs q F. destruct (co_map _ _ _ _ C q f F) as (_ & _ & S & _). destruct Hs as [Hs|Hs], S as [S|S]; congruence. Qed.

(** A frame in this thread's hand is free, and nobody else has a stake in it. *)
Lemma own_facts c f :
  core n (plus oth (holds c)) P A -> in_pool P f -> 0 < occ KOwn f (holds c) -> (forall k, k <> KOwn -> k <> KPage -> occ k f (holds c) = 0) ->
  state (FrameAt f P) = Free /\ pin_count (FrameAt f P) = 0 /\ oth KPin f = 0 /\ oth KLoad f = 0 /\ oth KNew f = 0 /\
  oth KRead f = 0 /\ oth KWrite f = 0 /\ oth KOwn f = 0 /\ times f (free_list P) = 0 /\
  readers (FrameAt f P) = 0 /\ writer (FrameAt f P) = false /\ flushed_epoch (FrameAt f P) = 0 /\ dirty_epoch (FrameAt f P) = 0 /\
  occ KOwn f (holds c) = 1.
Proof.
  intros C Hf Ho Hk. frame_facts C N Cv f Hf. pose proof (times_nonneg f (free_list P)). unfold plus in *.
  rewrite (Hk KPin), (Hk KRead), (Hk KWrite), (Hk KLoad), (Hk KNew) in * by done. rewrite ?Z.add_0_r in *.
  destruct (decide (state (FrameAt f P) = Free)) as [S|S]; decide_states; [|lia].
  destruct (Fcold ltac:(left; congruence)) as (E1 & E2 & E3). specialize (Ffree S). split_and!; try done; lia.
Qed.

Lemma post_Publishes env f w p gs :
  core n (plus oth (holds (Publishes f w p))) P A -> local P A (Publishes f w p) -> p ∈ A ->
  post n oth P A (Publishes f w p) gs (exec env (Publishes f w p) gs P).
Proof.
  intros C Hf Ha. cbn [exec local] in *. destruct (Find p (page_table P)) as [g|] eqn:F.
  { intros _. exists []. split; [done|]. by apply piece_push. }
  destruct (Insert_spec p f (page_table P) (co_table _ _ _ _ C) F) as (t' & -> & Kt & Ft).
  destruct (own_facts (Publishes f w p) f C Hf) as (O1 & O2 & O3 & O4 & O5 & O6 & O7 & O8 & O9 & O10 & O11 & O12 & O13 & _).
  { cbn. unfold is_token. cbn. rewrite Z.eqb_refl. cbn. lia. }
  { intros k Hk1 Hk2. cbn. unfold is_token. cbn. by destruct k. }
  destruct (co_pages _ _ _ _ C) as [l L]. destruct (pg_alive _ _ _ _ L p Ha) as (Kp & Np & Hr). unfold plus in Kp; cbn in Kp.
  pose proof (free_unmapped _ f C (or_introl O1)) as Fn.
  intros _. exists []. split; [done|]. unfold upd.
  change (FrameAt f (set_page_table t' P)) with (FrameAt f P).
  change (set_frame f ?fr' (set_page_table t' P)) with (mapped_to f fr' t' P).
  split; try done; cbn [alive_after guards_hold]; rewrite ?app_nil_r.
  - eapply core_insert; try done; [other_tokens| |by right|by left].
    frame_facts C N Cv f Hf. pose proof (Cv f) as (_ & _ & NM & _). split; on_frame; decide_states; cbn [in_transit]; toks; try done; try lia.
    intros D HD. specialize (NM D). lia.
  - assert (FA : FrameAt f (mapped_to f (ResetEpochs (set_meta Loading p 1 (FrameAt f P))) t' P) = ResetEpochs (set_meta Loading p 1 (FrameAt f P)))
      by (apply FrameAt_same; exact Hf).
    split; [unfold in_pool, capacity; cbn; by rewrite length_insert|]. rewrite FA. split_and!; try done. cbn. rewrite Ft. by rewrite decide_True.
  - eapply guar_insert; try done; [lia|by left|congruence].
Qed.

Lemma local_disk Q d' c : file d' = file (disk Q) -> local Q A c -> local (set_disk d' Q) A c.
Proof. intros E L. destruct c; cbn in *; try done; by rewrite E. Qed.

(** A read moves the file position and nothing else. *)
Lemma piece_advanced c P' c' notify d' :
  piece n oth P A c P' c' [] notify Silent -> advanced (disk P') d' -> piece n oth P A c (set_disk d' P') c' [] notify Silent.
Proof.
  intros [[C1 C2 C3 C4 C5 C6 C7 C8] L Gs G Hfe Hde Hev] Ad. destruct (advanced_same _ _ Ad) as (E1 & E2 & E3 & E4).
  split; try done.
  - split; try done.
    + intros f Hf. specialize (C6 f Hf). unfold frame_at_ok in *. cbn [disk set_disk free_list page_table replacer]. by rewrite E1.
    + destruct C8 as [l [D1 D2 D3 D4]]. exists l. split; try done; cbn [disk set_disk].
      * destruct D1 as [D5 D6]. split; [by rewrite E1, E2|by rewrite E1, E3].
      * by rewrite E2.
      * by rewrite E2.
  - by apply local_disk.
  - destruct G as [G1 G2 G3 G4 G5 G6 G7 G8 G9]. split; try done; cbn [disk set_disk]; rewrite ?E1; try done.
    intros q Hq Hq' Hst. rewrite <- (G8 q Hq Hq' Hst). unfold view. cbn [page_table disk set_disk]. by rewrite E1.
Qed.

(** The loader has the only load token of its frame, which carries no latch. *)
Lemma loader_facts c f :
  core n (plus oth (holds c)) P A -> in_pool P f -> holds c = [(KPin, f); (KLoad, f)] ->
  oth KLoad f = 0 /\ oth KNew f = 0 /\ oth KRead f = 0 /\ oth KWrite f = 0 /\ (state (FrameAt f P) = Loading \/ state (FrameAt f P) = Failed).
Proof.
  intros C Hf Hc. frame_facts C N Cv f Hf. rewrite Hc in *. toks.
  destruct (state (FrameAt f P)) eqn:S; cbn [in_transit] in *; decide_states; try lia;
    destruct (Fcold ltac:(left; done)) as (E1 & E2 & E3); rewrite E3 in *; split_and!; try lia; auto.
Qed.

Lemma post_Reads env f w p gs :
  core n (plus oth (holds (Reads f w p))) P A -> local P A (Reads f w p) ->
  post n oth P A (Reads f w p) gs (exec env (Reads f w p) gs P).
Proof.
  intros C L. pose proof L as (Hf & Hs & Hp & F & Ha). destruct (loader_facts _ f C Hf eq_refl) as (O1 & O2 & O3 & O4 & _). cbn [exec].
  frame_facts C N Cv f Hf. destruct (co_pages _ _ _ _ C) as [l Pl].
  pose proof (ReadPage_spec (disk P) l p (data (FrameAt f P)) (pg_disk _ _ _ _ Pl) Flen) as R.
  destruct (ReadPage p (data (FrameAt f P)) (disk P)) as [[st bytes] d']. destruct R as (Ad & Lb & R).
  change (upd f (set_data bytes) (set_disk d' P)) with (set_disk d' (set_frame f (set_data bytes (FrameAt f P)) P)).
  assert (X : forall c', holds c' = [(KPin, f); (KLoad, f)] -> fetching c' = None -> deleting c' = None ->
     local (change_one f (set_data bytes (FrameAt f P)) (replacer P) P) A c' ->
     post n oth P A (Reads f w p) gs (Goes (set_disk d' (set_frame f (set_data bytes (FrameAt f P)) P)) c' gs None Silent)).
  { intros c' Hc Hfe Hde Lc _. exists []. split; [done|]. apply piece_advanced; try done. rewrite set_frame_one.
    apply (piece_one C); try done.
    - apply C.
    - rewrite Hc. other_tokens.
    - by rewrite Hc.
    - rewrite Hc. split; by_frame.
    - apply (map_keep _ _ _ _ _ _ C); auto.
    - split; by_frame. intros q Hq Fq _. unfold frame_view. cbn. by rewrite Hs.
    - by rewrite Hfe. }
  assert (Ll : loading_at (change_one f (set_data bytes (FrameAt f P)) (replacer P) P) A f p).
  { split; [by apply in_pool_change|]. rewrite change_one_at by done. done. }
  destruct R as [(-> & Hr & ->)|[Hst _]]; [|rewrite Hst; cbn [negb]; by apply X].
  cbn [ok negb code StatusOK]. change (negb (ok StatusOK)) with false. cbv iota. destruct (_ || _); apply X; try done.
  split; [done|]. by rewrite change_one_at.
Qed.

Lemma post_Completes env f w p gs :
  core n (plus oth (holds (Completes f w p))) P A -> local P A (Completes f w p) ->
  post n oth P A (Completes f w p) gs (exec env (Completes f w p) gs P).
Proof.
  intros C [(Hf & Hs & Hp & F & Ha) Hd]. destruct (loader_facts _ f C Hf eq_refl) as (O1 & O2 & O3 & O4 & _). cbn [exec].
  intros _. exists []. split; [done|]. unfold upd. rewrite set_frame_one. frame_facts C N Cv f Hf. apply (piece_one C); try done.
  - apply C.
  - other_tokens.
  - destruct (Fcold ltac:(left; congruence)) as (E1 & E2 & E3). rewrite Hs in *.
    split; on_frame; cbn [in_transit] in *; decide_states; toks; try done; try lia; try congruence.
    + intros _. by apply Fpage.
    + intros _ _. by rewrite Hp.
    + intros D HD. destruct (Fmark D HD) as [M1 M2]. split; [done|]. intros E. destruct (M2 E) as [M3 _]. split; [done|]. congruence.
  - apply (map_keep _ _ _ _ _ _ C); auto.
  - split; by_frame. intros q Hq Fq _. unfold frame_view. cbn. rewrite Hs, Hd.
    destruct (co_map _ _ _ _ C q f Fq) as (_ & E & _). f_equal. congruence.
  - split; [by apply pinned_change|done].
Qed.

Lemma post_Declares env f st gs :
  core n (plus oth (holds (Declares f st))) P A -> local P A (Declares f st) ->
  post n oth P A (Declares f st) gs (exec env (Declares f st) gs P).
Proof.
  intros C (Hf & Hs & Hn). destruct (loader_facts _ f C Hf eq_refl) as (O1 & O2 & O3 & O4 & _). cbn [exec].
  frame_facts C N Cv f Hf. destruct (Z.ltb_spec (page_id (FrameAt f P)) 1); [specialize (Fpage ltac:(congruence)); lia|].
  intros _. exists []. split; [done|]. unfold upd. rewrite set_frame_one. apply (piece_one C); try done.
  - apply C.
  - destruct (Fcold ltac:(left; congruence)) as (E1 & E2 & E3). rewrite Hs in *.
    split; on_frame; cbn [in_transit] in *; decide_states; toks; try done; try lia; try congruence.
    + intros _. apply Fpage. done.
    + intros D HD. destruct (Fmark D HD) as [M1 M2]. split; [done|]. intros E. destruct (M2 E) as [M3 _]. done.
  - intros q Fq. by apply Hn in Fq.
  - split; by_frame.
  - split; [by apply in_pool_change|]. by rewrite change_one_at.
Qed.

Lemma post_Drains env f st gs :
  core n (plus oth (holds (Drains f st))) P A -> local P A (Drains f st) ->
  post n oth P A (Drains f st) gs (exec env (Drains f st) gs P).
Proof.
  intros C (Hf & Hs). destruct (loader_facts _ f C Hf eq_refl) as (O1 & O2 & O3 & O4 & _). cbn [exec].
  destruct (Z.eqb_spec (pin_count (FrameAt f P)) 1) as [Hn|Hn]; [|done]. frame_facts C N Cv f Hf.
  pose proof (free_unmapped _ f C (or_intror Hs)) as Fn. destruct (Cv f) as (_ & _ & NM & _).
  intros _. exists []. split; [done|]. unfold upd. rewrite set_frame_one. apply (piece_one C); try done.
  - apply C.
  - other_tokens.
  - destruct (Fcold ltac:(left; congruence)) as (E1 & E2 & E3). rewrite Hs in *.
    split; on_frame; cbn [in_transit] in *; decide_states; toks; try done; try lia; try congruence.
    intros D HD. specialize (NM D). lia.
  - intros q Fq. by apply Fn in Fq.
  - split; by_frame.
  - by apply in_pool_change.
Qed.

Lemma post_Unmaps env f p st gs :
  core n (plus oth (holds (Unmaps f p st))) P A -> local P A (Unmaps f p st) ->
  post n oth P A (Unmaps f p st) gs (exec env (Unmaps f p st) gs P).
Proof.
  intros C (Hf & Hs & Hp & F & Ha). destruct (loader_facts _ f C Hf eq_refl) as (O1 & O2 & O3 & O4 & _). cbn [exec].
  pose proof C as [C1 C2 C3 C4 C5 C6 C7 C8]. destruct C8 as [l L].
  destruct (pg_alive _ _ _ _ L p Ha) as (Kp & _). unfold plus in Kp; cbn in Kp.
  assert (Fe : forall q, Find q (Erase p (page_table P)) = if decide (q = p) then None else Find q (page_table P))
    by (intros q; by apply Find_Erase).
  intros _. exists []. split; [done|]. split; try done; cbn [alive_after guards_hold]; rewrite ?app_nil_r.
  - split; try done.
    + by apply table_ok_Erase.
    + intros g Hg. unfold frame_at_ok. change (FrameAt g (unmap p P)) with (FrameAt g P).
      eapply frame_inv_ext; [by apply C6|lia|done|done|]. intros S K Fg I. split; [|done].
      cbn. rewrite Fe, decide_False; [done|]. intros E. rewrite E in Fg. assert (g = f) by congruence. subst. congruence.
    + intros q g Fq. cbn in Fq. rewrite Fe in Fq. case_decide; [done|]. auto.
    + by exists l.
  - split_and!; try done. intros q. cbn. rewrite Fe. case_decide as E; [done|]. intros Fq. destruct (C7 q f Fq) as (_ & E' & _). congruence.
  - split; try done.
    + intros; auto.
    + intros g Hg Hl. assert (Ne : g <> f) by (intros ->; lia). split_and!; try done. intros q. cbn. rewrite Fe.
      case_decide; [|done]. subst. rewrite F. split; congruence.
    + intros q Hq. cbn. rewrite Fe. case_decide; [|done]. subst. lia.
    + intros q Hq _ _. unfold view. cbn [page_table disk unmap set_page_table]. rewrite Fe. case_decide; [|done]. subst.
      rewrite F. unfold frame_view. by rewrite Hs.
    + intros; auto.
Qed.

(** Writing again what a page already holds changes nothing, however far the write gets. *)
Lemma file_write_prefix off m k f :
  0 <= off -> off + m <= len f -> 0 <= k <= m -> file_write off (slice 0 k (slice off m f)) f = f.
Proof.
  intros Ho Hm Hk. apply list_eq. intros i. rewrite lookup_file_write by lia.
  assert (L : len (slice 0 k (slice off m f)) = k) by (rewrite !length_slice; lia). rewrite L. case_decide as E; [|done].
  rewrite slice_slice, lookup_slice by lia. rewrite decide_True by lia. f_equal. lia.
Qed.

#[local] Transparent page_bytes.
Lemma WritePage_rewrite d l p bs :
  disk_ok d l -> 2 <= p < page_count d -> page_bytes p (file d) = bs ->
  let '(_, d') := WritePage p bs d in page_bytes p (file d') = bs.
Proof.
  intros [F Hd] Hp E. pose proof F as [Hc Hl _ _ _]. unfold WritePage. rewrite access_ok by lia. cbn [ok negb]. change (ok StatusOK) with true. cbn [negb].
  pose proof (full_write_wrote (PageOffset p) bs d ltac:(dlia)) as W. destruct (full_write (PageOffset p) bs d) as [s d'].
  assert (Lb : len bs = PAGE_SIZE) by (rewrite <- E; eapply length_page_bytes; [|exact Hl]; lia).
  destruct (wr_outcome _ _ _ _ _ W) as [[_ ->]|(_ & _ & k & Hk & -> & _)]; [apply page_bytes_write_same; dlia|].
  rewrite <- E. unfold page_bytes at 2. rewrite file_write_prefix; [done|dlia|dlia|lia].
Qed.
#[local] Opaque page_bytes.

(** A frame somebody reads holds a page clients know, and is its home. *)
Lemma reader_home c g :
  core n (plus oth (holds c)) P A -> in_pool P g -> 0 < oth KRead g ->
  state (FrameAt g P) = Resident /\ Find (page_id (FrameAt g P)) (page_table P) = Some g /\ page_id (FrameAt g P) ∈ A.
Proof.
  intros C Hg Hr. frame_facts C N Cv g Hg. pose proof (occ_nonneg KRead g (holds c)). pose proof (occ_nonneg KNew g (holds c)). unfold plus in *.
  destruct (decide (state (FrameAt g P) = Resident)) as [S|S]; [|destruct (Fcold (or_introl S)); lia].
  destruct (decide (0 < oth KNew g + occ KNew g (holds c))) as [K|K]; [destruct (Fcold (or_intror K)); lia|].
  split; [done|]. apply Fhome; [done|lia].
Qed.

Lemma post_Writes env f p r D gs :
  core n (plus oth (holds (Writes f p r D))) P A -> local P A (Writes f p r D) ->
  post n oth P A (Writes f p r D) gs (exec env (Writes f p r D) gs P).
Proof.
  intros C (R & HD). pose proof R as ((Hf & Hs & Hp) & Ha). cbn [exec].
  destruct (alive_settled _ _ _ _ f p C) as [Kn Fp]; [unfold plus; cbn; pose proof (N KNew f); lia|by apply makes|done|].
  pose proof C as [C1 C2 C3 C4 C5 C6 C7 C8]. destruct C8 as [l L]. destruct (pg_alive _ _ _ _ L p Ha) as (Kp & Np & Hr).
  frame_facts C N Cv f Hf.
  pose proof (WritePage_spec (disk P) l p (data (FrameAt f P)) (pg_disk _ _ _ _ L) Hr Np Flen) as W.
  pose proof (WritePage_rewrite (disk P) l p (data (FrameAt f P)) (pg_disk _ _ _ _ L) Hr) as Rw.
  destruct (WritePage p (data (FrameAt f P)) (disk P)) as [st d']. destruct W as (W1 & W2 & W3 & W4 & W5 & _).
  assert (Rw' : data (FrameAt f P) = page_bytes p (file (disk P)) -> data (FrameAt f P) = page_bytes p (file d'))
    by (intros E; symmetry; by apply Rw).
  assert (Ne : forall g, g <> f -> Find (page_id (FrameAt g P)) (page_table P) = Some g -> page_id (FrameAt g P) <> p)
    by (intros g Hg F E; congruence).
  intros _. exists []. split; [done|]. split; try done; cbn [alive_after guards_hold]; rewrite ?app_nil_r.
  - split; try done.
    + intros g Hg. unfold frame_at_ok. change (FrameAt g (set_disk d' P)) with (FrameAt g P). cbn [disk set_disk free_list page_table replacer].
      destruct (decide (g = f)) as [->|Hne].
      * split; try done; [lia|rewrite Hp; intros; apply Rw'; rewrite <- Hp; by apply Fclean|].
        intros D' HD'. destruct (Fmark D' HD') as [M1 M2]. split; [done|]. intros E. destruct (M2 E) as [M3 M4]. split; [done|].
        intros S K Wr. rewrite Hp. apply Rw'. rewrite <- Hp. by apply M4.
      * eapply frame_inv_ext; [by apply C6|lia|done|done|]. intros S K F I. split; [done|]. split; [done|].
        pose proof (fi_page _ _ _ _ _ _ _ _ _ (C6 g Hg) ltac:(congruence)). apply W3; [lia|]. by apply Ne.
    + exists l. destruct L as [L1 L2 L3 L4]. split; try done; cbn [disk set_disk]; by rewrite W2.
  - split_and!; try done. cbn [disk set_disk]. intros Ok. destruct W5 as [-> |W5]; [symmetry; by apply W4|congruence].
  - split; try done; cbn [disk set_disk].
    + intros; auto.
    + intros g Hg Hrd. split; [done|]. split; [done|]. destruct (decide (g = f)) as [->|Hne]; [by rewrite Hp|].
      destruct (reader_home _ g C Hg Hrd) as (S & F & _). intros E. rewrite E at 1. symmetry.
      pose proof (fi_page _ _ _ _ _ _ _ _ _ (C6 g Hg) ltac:(congruence)). apply W3; [lia|]. by apply Ne.
    + intros g Hg Hl. split_and!; try done. intros F I. split; [done|].
      destruct (C7 _ _ F) as (_ & _ & S & _). pose proof (fi_page _ _ _ _ _ _ _ _ _ (C6 g Hg) ltac:(destruct S; congruence)).
      apply W3; [lia|]. apply Ne; [|done]. intros ->. destruct (Cv f) as (X & _). rewrite Hs in Fload. cbn in Fload. toks. lia.
    + intros q Hq _ _. unfold view. cbn [page_table disk set_disk]. destruct (decide (q = p)) as [->|Hne]; [rewrite Fp; unfold frame_view; change (FrameAt f (set_disk d' P)) with (FrameAt f P); by rewrite Hs|].
      destruct (pg_alive _ _ _ _ L q Hq) as (_ & _ & Hq2). rewrite (W3 q) by (done || lia).
      destruct (Find q (page_table P)) as [g|] eqn:F; [|done]. unfold frame_view. change (FrameAt g (set_disk d' P)) with (FrameAt g P). by rewrite (W3 q) by (done || lia).
    + intros; auto.
Qed.
End pieces.
