(* ===== verification/PoolCreates.v ===== *)
(** * Pieces that create and delete pages *)

From stdpp Require Import gmap.
From S2P Require Import Prelude Common DiskManager DiskProofs DiskTheorems Replacer ReplacerTheorems.
From S2P Require Import PoolIndex BufferPool BufferPoolProofs BufferPoolOps PoolThreads PoolTokens PoolShared PoolPieces PoolPins.
From S2P Require Import BufferPoolLifecycle PoolReclaims PoolLoads.

(** The tokens of the thread itself, read off its program point. *)
Ltac own_tokens := cbn; unfold is_token; cbn; rewrite ?Z.eqb_refl; cbn; lia.
Ltac own_only := let k := fresh "k" in intros k ? ?; cbn; unfold is_token; cbn; by destruct k.

Section pieces.
Context {errno_text : ErrnoText} {host : Host}.
Context {n : Z} {oth : Kind -> Z -> Z} {P : Pool} {A : gset Z}.
Hypothesis N : forall k x, 0 <= oth k x.
Hypothesis Cv : covered oth.

(** The disk manager's bookkeeping: pages clients know are left alone. *)
Lemma piece_disk c c' d' l' ev :
  core n (plus oth (holds c)) P A -> (forall k x, k <> KPage -> occ k x (holds c') = occ k x (holds c)) ->
  pages_ok (plus oth (holds c')) d' A l' ->
  (forall q, q ∈ A -> page_bytes q (file d') = page_bytes q (file (disk P))) ->
  (forall q f, Find q (page_table P) = Some f -> q ∈ A \/ 0 < plus oth (holds c') KPage q) ->
  local (set_disk d' P) A c' -> (forall p, fetching c' = Some p -> fetching c = Some p) -> deleting c' = None ->
  match ev with Silent | Returned _ => True | _ => False end ->
  piece n oth P A c (set_disk d' P) c' [] None ev.
Proof.
  intros C Hk Pg Hb Hm L Hfe Hde Hev. pose proof C as [C1 C2 C3 C4 C5 C6 C7 C8]. assert (Ha : alive_after ev A = A) by by destruct ev.
  split; rewrite ?Ha; try done; cbn [guards_hold]; rewrite ?app_nil_r; [| |by destruct ev].
  - split; try done; [| |by exists l'].
    + intros g Hg. unfold frame_at_ok. change (FrameAt g (set_disk d' P)) with (FrameAt g P). cbn [disk set_disk free_list page_table replacer].
      eapply frame_inv_ext; [by apply C6|lia| |done|]; [intros k Hk'; unfold plus; by rewrite Hk|]. auto.
    + intros q g F. destruct (C7 q g F) as (G1 & G2 & G3 & _). split; [exact G1|]. split; [exact G2|]. split; [exact G3|]. by eapply Hm.
  - split; try done; cbn [disk set_disk].
    + intros; auto.
    + intros g Hg Hr. split; [done|]. split; [done|]. destruct (reader_home N Cv _ g C Hg Hr) as (_ & _ & I). by rewrite Hb.
    + intros g Hg Hl. split_and!; try done. intros F I. split; [done|]. by apply Hb.
    + intros q Hq _ _. unfold view. cbn [page_table disk set_disk]. rewrite (Hb q Hq).
      destruct (Find q (page_table P)) as [g|]; [|done]. unfold frame_view. change (FrameAt g (set_disk d' P)) with (FrameAt g P). by rewrite (Hb q Hq).
    + intros; auto.
Qed.

Lemma post_Allocates env f gs :
  core n (plus oth (holds (Allocates f))) P A -> local P A (Allocates f) -> page_count (disk P) + 1 < 2 ^ 31 - 1 ->
  post n oth P A (Allocates f) gs (exec env (Allocates f) gs P).
Proof.
  intros C Hf Hb. cbn [exec]. destruct (co_pages _ _ _ _ C) as [l L]. pose proof L as [L1 L2 L3 L4].
  pose proof (allocate_spec (disk P) l L1 Hb) as S. destruct (AllocatePage (disk P)) as [[p|s] d'].
  2: { intros F. by destruct (F s). }
  destruct S as [(-> & S2 & S3 & S4 & S5 & S6 & S7) _]. set (p := default (page_count (disk P)) (head l)) in *.
  pose proof (dok_file _ _ L1) as [_ _ _ _ Ch].
  assert (Fr : forall q, q ∈ A \/ 0 < plus oth (holds (Allocates f)) KPage q -> q <> p /\ (q ∉ tail l) /\ 2 <= q < page_count (disk P)).
  { intros q Hq. assert (X : (q ∉ l) /\ 2 <= q < page_count (disk P)) by (destruct Hq as [Hq|Hq]; [by apply L3|by apply L4]).
    destruct X as [X1 X2]. split; [|split; [|done]].
    - unfold p. destruct l as [|x l0]; cbn; [lia|]. intros ->. apply X1. by left.
    - intros Hin. apply X1. destruct l; [done|]. by right. }
  assert (Fp : Find p (page_table P) = None).
  { destruct (Find p (page_table P)) as [g|] eqn:F; [|done]. destruct (co_map _ _ _ _ C p g F) as (_ & _ & _ & G). by destruct (Fr p G). }
  assert (K0 : oth KPage p = 0).
  { pose proof (N KPage p). destruct (decide (0 < oth KPage p)); [|lia]. destruct (Fr p); [right; unfold plus; cbn; lia|done]. }
  intros _. exists []. split; [done|]. eapply (piece_disk _ _ _ (tail l)); try done.
  - intros k x Hk. cbn. unfold is_token. cbn. by destruct k; try done; destruct (x =? f).
  - split; [done|..].
    + intros q. unfold plus. cbn. unfold is_token. cbn. specialize (L2 q). unfold plus in L2. cbn in L2. unfold is_token in L2; cbn in L2.
      destruct (Z.eqb_spec q p) as [->|]; lia.
    + intros q Hq. destruct (Fr q (or_introl Hq)) as (X1 & X2 & X3). destruct (L3 q Hq) as (X4 & _). unfold plus in *. cbn in *. unfold is_token in *. cbn in *.
      destruct (Z.eqb_spec q p); [done|]. split; [lia|]. split; [done|]. lia.
    + intros q Hq. destruct (Z.eqb_spec q p) as [->|Ne]; [split; [done|lia]|].
      destruct (Fr q) as (X1 & X2 & X3); [right; unfold plus in *; cbn in *; unfold is_token in *; cbn in *; destruct (Z.eqb_spec q p); [done|lia]|]. split; [done|lia].
  - intros q Hq. destruct (Fr q (or_introl Hq)) as (X1 & _ & X3). apply S7; [lia|done].
  - intros q g F. destruct (co_map _ _ _ _ C q g F) as (_ & _ & _ & [G|G]); [by left|right].
    unfold plus in *. cbn in *. unfold is_token in *. cbn in *. destruct (q =? p); lia.
Qed.

Lemma page_in_hand c p : core n (plus oth (holds c)) P A -> 0 < occ KPage p (holds c) ->
  (p ∉ A) /\ 2 <= p < page_count (disk P) /\ oth KPage p = 0 /\ page_count (disk P) < 2 ^ 31 - 1 /\ occ KPage p (holds c) = 1.
Proof.
  intros C Ho. destruct (co_pages _ _ _ _ C) as [l [L1 L2 L3 L4]]. pose proof (N KPage p). specialize (L2 p). unfold plus in *.
  destruct (L4 p ltac:(lia)) as [_ R]. destruct (dok_file _ _ L1) as [Hc _ _ _ _]. split_and!; try lia.
  intros Hi. destruct (L3 p Hi) as [E _]. lia.
Qed.

Lemma post_Stamps env f p gs :
  core n (plus oth (holds (Stamps f p))) P A -> local P A (Stamps f p) ->
  post n oth P A (Stamps f p) gs (exec env (Stamps f p) gs P).
Proof.
  intros C (Hf & Fp). destruct (own_facts N Cv (Stamps f p) f C Hf) as (O1 & O2 & O3 & O4 & O5 & O6 & O7 & O8 & O9 & O10 & O11 & O12 & O13 & _); [own_tokens|own_only|].
  destruct (page_in_hand (Stamps f p) p C) as (Np & Hr & Kp & Hc & _); [own_tokens|]. cbn [exec].
  intros _. exists []. split; [done|]. unfold upd. rewrite set_frame_one. frame_facts C N Cv f Hf.
  pose proof (free_unmapped _ f C (or_introl O1)) as Fn. pose proof (NMake p) as Nm. pose proof (N (KMake p) f) as Nm'.
  apply (piece_one C); try done.
  - apply C.
  - other_tokens.
  - split; on_frame; decide_states; cbn [in_transit]; toks; try done; try lia.
    intros D HD. specialize (NMk D). lia.
  - intros q Fq. by apply Fn in Fq.
  - split; by_frame.
  - split; [by apply pinned_change|done].
Qed.

(** The creator of a page in a frame: nobody loads, latches or creates there beside it. *)
Lemma creator_facts c f p :
  core n (plus oth (holds c)) P A -> pinned_at P f p -> holds c = [(KPin, f); (KNew, f); (KMake p, f); (KPage, p)] ->
  (p ∉ A) /\ 2 <= p < page_count (disk P) /\ page_count (disk P) < 2 ^ 31 - 1 /\ oth KPage p = 0 /\ oth KNew f = 0 /\ oth KLoad f = 0 /\
  oth KRead f = 0 /\ oth KWrite f = 0 /\ dirty_epoch (FrameAt f P) = 0 /\ readers (FrameAt f P) = 0 /\ writer (FrameAt f P) = false /\
  (forall q, q ∈ A -> Find q (page_table P) <> Some f).
Proof.
  intros C (Hf & Hs & Hp) Hc. destruct (page_in_hand c p C) as (Np & Hr & Kp & Hcn & _); [rewrite Hc; own_tokens|].
  assert (Fq : forall q, q ∈ A -> Find q (page_table P) <> Some f).
  { intros q Hq F. destruct (co_map _ _ _ _ C q f F) as (_ & E & _). congruence. }
  frame_facts C N Cv f Hf. rewrite Hc in *. toks. rewrite Hs in *. cbn [in_transit] in *. decide_states.
  destruct (Fcold ltac:(right; lia)) as (E1 & E2 & E3). rewrite E3 in *. split_and!; try done; lia.
Qed.

(** A step of the creation that changes only the new frame. *)
Lemma piece_creating c c' f p fr' :
  core n (plus oth (holds c)) P A -> pinned_at P f p -> holds c = [(KPin, f); (KNew, f); (KMake p, f); (KPage, p)] ->
  holds c' = holds c -> fetching c' = None -> deleting c' = None ->
  len (data fr') = PAGE_SIZE -> dirty_epoch fr' = 0 -> flushed_epoch fr' = 0 -> state fr' = state (FrameAt f P) ->
  page_id fr' = page_id (FrameAt f P) -> pin_count fr' = pin_count (FrameAt f P) -> readers fr' = readers (FrameAt f P) ->
  writer fr' = writer (FrameAt f P) -> local (set_frame f fr' P) A c' ->
  piece n oth P A c (set_frame f fr' P) c' [] None Silent.
Proof.
  intros C L Hc Hc' Hfe Hde E1 E2 E3 E4 E5 E6 E7 E8 Ll. pose proof L as (Hf & Hs & Hp).
  destruct (creator_facts c f p C L Hc) as (Np & Hr & Hcn & Kp & Kn & Kl & Kr & Kw & D0 & R0 & W0 & Fq).
  rewrite set_frame_one in *. frame_facts C N Cv f Hf. apply (piece_one C); try done.
  - apply C.
  - intros k g _ _. cbn [guards_hold]. by rewrite app_nil_r, Hc'.
  - intros q. cbn [guards_hold]. by rewrite app_nil_r, Hc'.
  - rewrite Hc', Hc in *. cbn [guards_hold]. rewrite app_nil_r. split; rewrite ?E4, ?E5, ?E6, ?E7, ?E8; try done; try (rewrite Hs in *; toks; done || lia).
    intros D HD. destruct (Fmark D HD) as [M1 M2]. rewrite E2. rewrite D0 in *. split; [done|]. intros E. destruct (M2 E) as [M3 _]. split; [done|].
    intros _ K. toks. lia.
  - apply (map_keep _ _ _ _ _ _ C); auto.
  - split; rewrite ?E2, ?E4, ?E5; try lia; auto.
    intros q Hq F. by apply Fq in F.
  - by rewrite Hfe.
Qed.

Lemma post_Fills env f p gs :
  core n (plus oth (holds (Fills f p))) P A -> local P A (Fills f p) ->
  post n oth P A (Fills f p) gs (exec env (Fills f p) gs P).
Proof.
  intros C (L & Fp). pose proof L as (Hf & Hs & Hp).
  destruct (creator_facts _ f p C L eq_refl) as (Np & Hr & Hc & _ & _ & _ & _ & _ & D0 & _).
  destruct (fresh_page_spec p) as [Lf _]; [unfold is_s32; lia|]. pose proof (fi_epochs _ _ _ _ _ _ _ _ _ (co_frames _ _ _ _ C f Hf)) as Fe.
  cbn [exec]. intros _. exists []. split; [done|]. unfold upd. eapply piece_creating; try done; [cbn; lia|].
  rewrite set_frame_one. split; [by apply pinned_change|]. split; [done|]. by rewrite change_one_at.
Qed.

Lemma post_Resets env f p gs :
  core n (plus oth (holds (Resets f p))) P A -> local P A (Resets f p) ->
  post n oth P A (Resets f p) gs (exec env (Resets f p) gs P).
Proof.
  intros C (L & Fp & Hd). pose proof L as (Hf & Hs & Hp).
  pose proof (fi_len _ _ _ _ _ _ _ _ _ (co_frames _ _ _ _ C f Hf)) as Fl.
  cbn [exec]. intros _. exists []. split; [done|]. unfold upd. eapply piece_creating; try done.
  rewrite set_frame_one. split; [by apply pinned_change|]. split; [done|]. by rewrite change_one_at.
Qed.

Lemma post_Maps env f p gs :
  core n (plus oth (holds (Maps f p))) P A -> local P A (Maps f p) ->
  post n oth P A (Maps f p) gs (exec env (Maps f p) gs P).
Proof.
  intros C (L & Fp & Hd). pose proof L as (Hf & Hs & Hp).
  destruct (creator_facts _ f p C L eq_refl) as (Np & Hr & Hcn & Kp & Kn & Kl & Kr & Kw & D0 & R0 & W0 & Fq). cbn [exec].
  destruct (Insert_spec p f (page_table P) (co_table _ _ _ _ C) Fp) as (t' & -> & Kt & Ft).
  assert (Fn : forall q, Find q (page_table P) <> Some f).
  { intros q F. destruct (co_map _ _ _ _ C q f F) as (_ & E & _). congruence. }
  assert (Eq : set_page_table t' P = mapped_to f (FrameAt f P) t' P).
  { unfold mapped_to. symmetry. apply (set_frame_id f (set_page_table t' P)). exact Hf. }
  intros _. exists []. split; [done|]. split; try done; cbn [alive_after guards_hold]; rewrite ?app_nil_r.
  - rewrite Eq. eapply core_insert; try done; [|by left|right; own_tokens || (unfold plus; own_tokens)].
    eapply frame_inv_ext; [apply (co_frames _ _ _ _ C f Hf)|lia|done|done|]. intros _ _ F. by apply Fn in F.
  - split; [exact L|]. split; [|exact Hd]. cbn. rewrite Ft. by rewrite decide_True.
  - rewrite Eq. eapply guar_insert; try done; [by right|congruence].
Qed.

Lemma post_Records env f p gs :
  core n (plus oth (holds (Records f p))) P A -> local P A (Records f p) ->
  post n oth P A (Records f p) gs (exec env (Records f p) gs P).
Proof. intros C L. cbn [exec]. apply (post_touch _ _ _ _ C); try done. apply L. Qed.
End pieces.

(** ** Pieces in which a page appears to clients or goes away *)

Section pieces.
Context {errno_text : ErrnoText} {host : Host}.
Context {n : Z} {oth : Kind -> Z -> Z} {P : Pool} {A : gset Z}.
Hypothesis N : forall k x, 0 <= oth k x.
Hypothesis Cv : covered oth.

(** *** The creator takes the exclusive latch and hands the page out *)

Section seizes.
Context {f p : Z}.
Hypothesis C : core n (plus oth (holds (Seizes f p))) P A.
Hypothesis L : local P A (Seizes f p).

Definition seized : Frame := set_latch 0 true (FrameAt f P).
Definition seizing : PageGuard := mkGuard true f p true.

Lemma seize_pages :
  exists l, pages_ok (plus oth (guards_hold [seizing])) (disk P) ({[p]} ∪ A) l.
Proof.
  destruct (co_pages _ _ _ _ C) as [l [L1 L2 L3 L4]]. exists l.
  destruct (creator_facts N Cv _ f p C (proj1 L) eq_refl) as (Np & Hr & _ & Kp & _).
  assert (E : forall q, plus oth (holds (Seizes f p)) KPage q = oth KPage q + (if q =? p then 1 else 0))
    by (intros q; unfold plus; cbn; unfold is_token; cbn; destruct (q =? p); lia).
  assert (E' : forall q, plus oth (guards_hold [seizing]) KPage q = oth KPage q) by (intros q; unfold plus; cbn; lia).
  split; [done|..]; intros q; rewrite ?E'; specialize (L2 q); specialize (L3 q); specialize (L4 q); rewrite E in *.
  - destruct (q =? p); lia.
  - intros Hq. destruct (Z.eqb_spec q p) as [Eq|Ne]; [rewrite Eq in *; split; [done|]; apply L4; lia|]. rewrite Z.add_0_r in *. apply L3.
    apply elem_of_union in Hq as [Hq%elem_of_singleton|Hq]; done.
  - intros Hq. apply L4. destruct (q =? p); lia.
Qed.

Lemma seize_frame :
  frame_inv (n + 1) (plus oth (guards_hold [seizing])) (free_list P) (page_table P) (evictable_at f (replacer P)) (file (disk P))
    ({[p]} ∪ A) f seized.
Proof.
  destruct L as ((Hf & Hs & Hp) & Fp & Hd). destruct (creator_facts N Cv _ f p C (proj1 L) eq_refl) as (_ & _ & _ & _ & Kn & Kl & Kr & Kw & D0 & R0 & W0 & _).
  frame_facts C N Cv f Hf. unfold seized. change (guards_hold [seizing]) with [(KPin, f); (KWrite, f)]. rewrite Hs in *.
  split; on_frame; rewrite ?Hs; cbn [in_transit] in *; decide_states; toks; try done; try lia.
  - intros [?|?]; [done|lia].
  - intros _ _. rewrite Hp. split; [done|by apply elem_of_union_l, elem_of_singleton].
  - intros D HD. destruct (Fmark D) as [M1 M2]; [lia|]. split; [done|]. intros E. destruct (M2 E) as [M3 _]. done.
Qed.

Lemma seize_core : core (n + 1) (plus oth (guards_hold [seizing])) (change_one f seized (replacer P) P) ({[p]} ∪ A).
Proof.
  destruct L as ((Hf & Hs & Hp) & Fp & Hd). pose proof C as [C1 C2 C3 C4 C5 C6 C7 C8].
  assert (Hcap : capacity (change_one f seized (replacer P) P) = capacity P) by apply (capacity_set f seized P).
  split; try done.
  - by rewrite Hcap.
  - cbn. by rewrite length_insert.
  - intros h Hh. rewrite Hcap. auto.
  - intros h Hh. rewrite Hcap in Hh. unfold frame_at_ok. rewrite change_one_frame by (done || lia).
    cbn [free_list page_table replacer disk change_one set_replacer set_frame]. case_decide as E; [subst h; apply seize_frame|].
    eapply frame_inv_ext; [by apply C6|lia| |done|intros _ _ F I; split; [done|]; split; [by apply elem_of_union_r|done]].
    intros k Hk. unfold plus. cbn. unfold is_token. cbn. destruct (Z.eqb_spec h f); [done|]. rewrite !andb_false_r. by destruct k.
  - intros q h F. cbn in F. rewrite Hcap. destruct (C7 q h F) as (G1 & G2 & G3 & G4). split; [done|].
    rewrite change_one_frame by (done || lia).
    assert (Hq : q ∈ {[p]} ∪ A \/ 0 < plus oth (guards_hold [seizing]) KPage q).
    { destruct G4 as [G4|G4]; [left; by apply elem_of_union_r|]. unfold plus in *. cbn in *. unfold is_token in *. cbn in *.
      destruct (Z.eqb_spec q p); [left; subst; by apply elem_of_union_l, elem_of_singleton|right; lia]. }
    case_decide; [subst h|]; done.
  - apply seize_pages.
Qed.

Lemma seize_guar : guar oth P A (change_one f seized (replacer P) P) ({[p]} ∪ A) None (Created seizing).
Proof.
  destruct L as ((Hf & Hs & Hp) & Fp & Hd).
  destruct (creator_facts N Cv _ f p C (proj1 L) eq_refl) as (_ & _ & _ & _ & Kn & Kl & Kr & Kw & D0 & R0 & W0 & Fq).
  assert (FA : forall h, 0 <= h < capacity P -> FrameAt h (change_one f seized (replacer P) P) = if decide (h = f) then seized else FrameAt h P)
    by (intros h Hh; apply change_one_frame; [done|lia]).
  split.
  - cbn. apply length_insert.
  - intros h Hh Hpi S. rewrite FA by done. case_decide; [subst h|]; auto.
  - intros h Hh _ _ I. by apply elem_of_union_r.
  - intros h Hh Hrd. rewrite FA by done. case_decide; [subst h; lia|done].
  - intros h Hh Hl. rewrite FA by done. case_decide; [subst h; lia|]. split_and!; try done. intros _ I. split; [by apply elem_of_union_r|done].
  - intros h Hh Hn. rewrite FA by done. case_decide; [subst h; lia|done].
  - done.
  - intros q Hq _ _. unfold view. cbn [page_table disk change_one set_replacer set_frame].
    destruct (Find q (page_table P)) as [h|] eqn:F; [|done]. destruct (co_map _ _ _ _ C q h F) as (Hh & _). rewrite FA by done.
    case_decide; [subst h; by apply Fq in F|done].
  - intros h Hh. right. rewrite FA by done. case_decide; [subst h|]; auto.
Qed.
End seizes.

Lemma post_Seizes env f p gs :
  core n (plus oth (holds (Seizes f p))) P A -> local P A (Seizes f p) ->
  post n oth P A (Seizes f p) gs (exec env (Seizes f p) gs P).
Proof.
  intros C L. pose proof L as ((Hf & Hs & Hp) & Fp & Hd).
  destruct (creator_facts N Cv _ f p C (proj1 L) eq_refl) as (Np & _ & _ & _ & _ & _ & _ & _ & _ & R0 & W0 & _). cbn [exec].
  unfold AcquireWrite. rewrite W0, R0. cbn [orb Z.ltb Z.compare]. intros _. exists [@seizing f p]. split; [done|].
  rewrite set_frame_one. change (set_latch 0 true (FrameAt f P)) with (@seized f).
  split; try done; cbn [alive_after g_page seizing app holds].
  - by apply seize_core.
  - constructor; [|constructor]. split; [done|]. split; [by apply pinned_change|]. by apply elem_of_union_l, elem_of_singleton.
  - by apply seize_guar.
  - split; [done|]. split; [|done]. unfold view. cbn [page_table disk change_one set_replacer set_frame]. rewrite Fp.
    rewrite change_one_at by done. unfold frame_view, seized. cbn. by rewrite Hs.
Qed.

(** *** Deleting *)

(** The page leaves the clients' hands for this thread's. *)
Lemma removed_pages c c' p :
  core n (plus oth (holds c)) P A -> p ∈ A -> (forall q, occ KPage q (holds c) = 0) ->
  (forall q, occ KPage q (holds c') = if q =? p then 1 else 0) ->
  exists l, pages_ok (plus oth (holds c')) (disk P) (A ∖ {[p]}) l.
Proof.
  intros C Ha Hc Hc'. destruct (co_pages _ _ _ _ C) as [l [L1 L2 L3 L4]]. exists l. destruct (L3 p Ha) as (Kp & Np & Hr).
  split; [done|..]; intros q; specialize (L2 q); specialize (L3 q); specialize (L4 q); unfold plus in *; rewrite Hc' in *; rewrite !Hc, !Z.add_0_r in *.
  - destruct (Z.eqb_spec q p) as [->|]; lia.
  - intros [Hq Hne%not_elem_of_singleton]%elem_of_difference. destruct (Z.eqb_spec q p); [done|]. rewrite Z.add_0_r. by apply L3.
  - intros Hq. destruct (Z.eqb_spec q p) as [->|]; [done|]. apply L4. lia.
Qed.

Lemma remaining p q : q <> p -> q ∈ A ∖ {[p]} <-> q ∈ A.
Proof. intros Ne. rewrite elem_of_difference, not_elem_of_singleton. tauto. Qed.

Lemma piece_delete_uncached p :
  core n (plus oth (holds (Deletes p))) P A -> p ∈ A -> Find p (page_table P) = None ->
  piece n oth P A (Deletes p) P (Deallocates None p) [] None (Removed p).
Proof.
  intros C Ha Fp. pose proof C as [C1 C2 C3 C4 C5 C6 C7 C8].
  assert (Home : forall q f, Find q (page_table P) = Some f -> q <> p) by (intros q f F ->; congruence).
  assert (K : forall q, q <> p -> plus oth (holds (Deallocates None p)) KPage q = plus oth (holds (Deletes p)) KPage q).
  { intros q Hq. unfold plus. cbn. unfold is_token. cbn. destruct (Z.eqb_spec q p); [done|]. lia. }
  split; try done; cbn [alive_after guards_hold]; rewrite ?app_nil_r.
  - split; try done.
    + intros f Hf. eapply frame_inv_ext; [by apply C6|lia| |done|].
      * intros k Hk. unfold plus. cbn. unfold is_token. cbn. by destruct k.
      * intros _ _ F I. split; [done|]. split; [|done]. apply remaining; [by eapply Home|done].
    + intros q f F. destruct (C7 q f F) as (G1 & G2 & G3 & G4). split_and!; try done; try apply G1. rewrite K, remaining by (by eapply Home). done.
    + apply (removed_pages _ _ _ C Ha); [done|]. intros q. cbn. unfold is_token. cbn. lia.
  - split; try done.
    + intros; auto.
    + intros f Hf Hp S I. apply remaining; [|done]. eapply Home.
      apply (alive_settled _ _ _ _ f (page_id (FrameAt f P)) C); [unfold plus; cbn; pose proof (N KNew f); lia|by apply makes|]. by split_and!.
    + intros f Hf Hl. split_and!; try done. intros F I. split; [|done]. apply remaining; [by eapply Home|done].
    + intros; auto.
Qed.

Lemma post_Deletes env p gs :
  core n (plus oth (holds (Deletes p))) P A -> p ∈ A ->
  post n oth P A (Deletes p) gs (exec env (Deletes p) gs P).
Proof.
  intros C Ha. cbn [exec]. destruct (Find p (page_table P)) as [f|] eqn:F.
  2: { intros _. exists []. split; [done|]. by apply piece_delete_uncached. }
  destruct (co_map _ _ _ _ C p f F) as (Hf & Hp & Hs & _). cbv zeta.
  destruct (Z.eqb_spec (pin_count (FrameAt f P)) 0) as [Hn|Hn]; cbn [negb].
  2: { intros _. exists []. split; [done|]. by apply (piece_same C). }
  frame_facts C N Cv f Hf.
  assert (S : state (FrameAt f P) = Resident) by (destruct Hs as [Hs|Hs]; [done|]; rewrite Hs in *; cbn [in_transit] in *; toks; lia).
  rewrite bool_decide_false by (intros X; by apply X).
  assert (V : vacant (oth := oth) (P := P) (A := A) (Deletes p) f p) by (split; [by split_and!|auto|toks; lia]).
  rewrite Hn. change (unmap p (upd f (to_free 0) P)) with (vacated f p P).
  assert (K : forall k x, k <> KPage -> occ k x (holds (Withdraws f p)) = occ k x [(KOwn, f)])
    by (intros k x Hk; cbn; unfold is_token; cbn; destruct k; done || lia).
  intros _. exists []. split; [done|]. split; try done; cbn [guards_hold]; rewrite ?app_nil_r.
  - cbn [alive_after]. apply (core_vacate N Cv _ _ _ _ _ C V); [done| |].
    + intros q Hq. split; [|by apply remaining]. cbn. unfold is_token. cbn. by destruct (Z.eqb_spec q p).
    + apply (removed_pages _ _ _ C Ha); [done|]. intros q. cbn. unfold is_token. cbn. lia.
  - split; [unfold in_pool, capacity; cbn; by rewrite length_insert|]. cbn. rewrite Find_Erase by apply C. by rewrite decide_True.
  - apply (guar_vacate N Cv _ _ _ _ C V). by right.
Qed.

Lemma post_Withdraws env f p gs :
  core n (plus oth (holds (Withdraws f p))) P A -> local P A (Withdraws f p) ->
  post n oth P A (Withdraws f p) gs (exec env (Withdraws f p) gs P).
Proof.
  intros C (Hf & Fp). destruct (own_facts N Cv (Withdraws f p) f C Hf) as (O1 & _); [own_tokens|own_only|].
  cbn [exec]. intros _. exists []. split; [done|]. rewrite (set_replacer_one f) by done.
  destruct (SetEvictable_one _ f false C Hf) as (R1 & R2 & R3 & R4). frame_facts C N Cv f Hf. apply (piece_one C); try done.
  - rewrite R3. split; by_frame.
  - apply (map_keep _ _ _ _ _ _ C); auto.
  - split; by_frame.
  - split; [done|]. by apply in_pool_change.
Qed.

Lemma post_Deallocates env o p gs :
  core n (plus oth (holds (Deallocates o p))) P A -> local P A (Deallocates o p) ->
  post n oth P A (Deallocates o p) gs (exec env (Deallocates o p) gs P).
Proof.
  intros C (Fp & Ho). destruct (page_in_hand N (Deallocates o p) p C) as (Np & Hr & Kp & Hc & K1); [destruct o; own_tokens|].
  cbn [exec]. destruct (co_pages _ _ _ _ C) as [l L]. pose proof L as [L1 L2 L3 L4].
  pose proof (dealloc_cases p (disk P) l L1 Hr) as S. destruct (DeallocatePage p (disk P)) as [st d'].
  intros Hev. destruct S as [(-> & S1 & S2 & S3)|S].
  2: { rewrite (io_not_ok st) in Hev by apply S. by destruct (Hev st). }
  set (c' := match o with Some f => Returns f p StatusOK | None => Idle end).
  assert (Hl : exists l', disk_ok d' l' /\ (forall q, q ∈ l' -> q = p \/ q ∈ l)).
  { destruct S3 as [(_ & _ & S3)|(_ & S3)]; [exists l; auto|]. exists (p :: l). split; [done|]. intros q [->|]%elem_of_cons; auto. }
  destruct Hl as (l' & D' & Hl).
  assert (K : forall q, q <> p -> plus oth (holds c') KPage q = plus oth (holds (Deallocates o p)) KPage q).
  { intros q Hq. unfold plus, c'. destruct o; cbn; unfold is_token; cbn; destruct (Z.eqb_spec q p); done || lia. }
  assert (K' : plus oth (holds c') KPage p = 0) by (unfold plus, c'; destruct o; cbn; unfold is_token; cbn; lia).
  exists []. split; [done|]. apply (piece_disk N Cv _ _ _ l').
  - done.
  - intros k x Hk. unfold c'. destruct o, k; cbn; unfold is_token; cbn; done || lia.
  - split; [done|..].
    + intros q. destruct (decide (q = p)) as [->|]; [lia|]. by rewrite K.
    + intros q Hq. assert (q <> p) by (by intros ->). rewrite K, S1 by done. destruct (L3 q Hq) as (X1 & X2 & X3). split; [done|]. split; [|done].
      intros [->|Hi]%Hl; done.
    + intros q Hq. assert (Ne : q <> p) by (intros ->; lia). rewrite K in Hq by done. rewrite S1. destruct (L4 q Hq) as (X1 & X2). split; [|done].
      intros [->|Hi]%Hl; done.
  - intros q Hq. destruct (L3 q Hq) as (_ & _ & X). apply S2; [lia|by intros ->].
  - intros q g F. rewrite K by (intros ->; congruence). apply (co_map _ _ _ _ C q g F).
  - unfold c'. destruct o; [exact Ho|done].
  - unfold c'. by destruct o.
  - unfold c'. by destruct o.
  - destruct o; done.
Qed.
End pieces.
