(* ===== verification/PoolRun.v ===== *)
(** * Every move of every thread keeps the shared pool's invariant *)

From stdpp Require Import gmap.
From S2P Require Import Prelude Common DiskManager DiskProofs DiskTheorems Replacer ReplacerTheorems.
From S2P Require Import PoolIndex BufferPool BufferPoolProofs BufferPoolOps PoolThreads PoolTokens PoolShared PoolPieces PoolPins.
From S2P Require Import PoolFlushes PoolReclaims PoolLoads PoolCreates.

(** What a sleeper waits for has not happened yet. *)
Definition sleep_ok (P : Pool) (c : Pc) : Prop :=
  match c with
  | Waits f _ _ _ => state (FrameAt f P) = Loading
  | Drains f _ => pin_count (FrameAt f P) <> 1
  | _ => False
  end.

(** Two threads, one of which is about to delete a page the other is after. *)
Definition clash (c d : Pc) : Prop :=
  exists p, deleting c = Some p /\ (fetching d = Some p \/ deleting d = Some p).

Definition wants (c : Pc) (p : Z) : Prop := fetching c = Some p \/ deleting c = Some p.

Record inv (n : Z) (C : Conf) : Prop := {
  in_core : core n (fun k x => total k x (threads C)) (pool C) (alive C);
  in_local : forall i t, threads C !! i = Some t -> local (pool C) (alive C) (pc t);
  in_guards : forall i t g, threads C !! i = Some t -> g ∈ guards t -> guard_ok (pool C) (alive C) g;
  in_wants : forall i t p, threads C !! i = Some t -> wants (pc t) p -> p ∈ alive C;
  in_alone : forall i j t u, threads C !! i = Some t -> threads C !! j = Some u -> i <> j -> ~ clash (pc t) (pc u);
  in_sleep : forall i t, threads C !! i = Some t -> asleep t = true -> sleep_ok (pool C) (pc t)
}.

Lemma core_ext n n' cnt cnt' P A : core n cnt P A -> n <= n' -> (forall k x, cnt' k x = cnt k x) -> core n' cnt' P A.
Proof.
  intros [C1 C2 C3 C4 C5 C6 C7 C8] Hn E. split; try done.
  - intros f Hf. eapply frame_inv_ext; [by apply C6|lia|by intros; apply E|done|done].
  - intros p f F. rewrite E. auto.
  - destruct C8 as [l C8]. exists l. eapply pages_ok_ext; [|exact C8]. intros p. apply E.
Qed.

Lemma wake_asleep f v : asleep (wake f v) = true -> asleep v = true /\ wake f v = v.
Proof. unfold wake. destruct (pc v); try done; by destruct (_ =? f). Qed.

(** ** A piece of one thread *)

Section piece_step.
Context {n : Z} {C : Conf} {i : nat} {t : Thread} {P' : Pool} {c' : Pc} {new : list PageGuard} {notify : option Z} {ev : Event}.
Hypothesis I : inv n C.
Hypothesis Hi : threads C !! i = Some t.
Hypothesis Pc : piece n (beside t (threads C)) (pool C) (alive C) (pc t) P' c' new notify ev.

Definition stepped : Conf :=
  mkConf P' (notify_all notify (<[i := mkThread c' (new ++ guards t) false]> (threads C))) (alive_after ev (alive C)).

(** A thread after the step: the one that ran, or another, perhaps woken. *)
Lemma stepped_thread j u' :
  threads stepped !! j = Some u' ->
  (j = i /\ pc u' = c' /\ guards u' = new ++ guards t /\ asleep u' = false) \/
  (j <> i /\ exists u, threads C !! j = Some u /\ pc u' = pc u /\ guards u' = guards u /\
     (asleep u' = true -> asleep u = true /\ forall f, notify = Some f -> wake f u = u)).
Proof.
  cbn. set (ts := <[i := mkThread c' (new ++ guards t) false]> (threads C)).
  assert (Hts : forall v, ts !! j = Some v -> (j = i /\ v = mkThread c' (new ++ guards t) false) \/ (j <> i /\ threads C !! j = Some v)).
  { intros v Hv. unfold ts in Hv. apply list_lookup_insert_Some in Hv as [(-> & -> & _)|(Ne & Hv)]; auto. }
  destruct notify as [f|]; cbn.
  - rewrite list_lookup_fmap. destruct (ts !! j) as [v|] eqn:Ev; [|done]. intros [= <-].
    destruct (Hts v eq_refl) as [[-> ->]|[Ne Hv]]; [left|right].
    + rewrite wake_pc, wake_guards. split_and!; try done. unfold wake; cbn. destruct c'; try done; by destruct (_ =? f).
    + split; [done|]. exists v. rewrite wake_pc, wake_guards. split_and!; try done. intros Ha.
      destruct (wake_asleep f v Ha) as [E1 E2]. split; [done|]. by intros ? [= <-].
  - intros Hv. destruct (Hts u' Hv) as [[-> ->]|[Ne Hv']]; [by left|right]. split; [done|]. exists u'. by split_and!.
Qed.

Lemma alive_keeps p : p ∈ alive C -> deleting (pc t) <> Some p -> p ∈ alive_after ev (alive C).
Proof.
  intros Hp Hd. pose proof (pi_event _ _ _ _ _ _ _ _ _ _ Pc) as E. destruct ev; cbn; try done.
  - by apply elem_of_union_r.
  - destruct E as [_ E]. apply elem_of_difference. split; [done|]. apply not_elem_of_singleton. congruence.
Qed.

Lemma inv_piece : inv (n + 1) stepped.
Proof.
  destruct I as [I1 I2 I3 I4 I5 I6]. pose proof Pc as [P1 P2 P3 P4 P5 P6 P7].
  split.
  - eapply core_ext; [exact P1|lia|]. intros k x. cbn. rewrite total_notify. by apply total_step.
  - intros j u' Hu. destruct (stepped_thread j u' Hu) as [(_ & -> & _)|(Ne & u & Hu0 & -> & _)]; [exact P2|].
    eapply local_stable; [exact P4| |by eapply I2]. intros k x. by eapply beside_other.
  - intros j u' g Hu Hg. assert (Old : forall j u, threads C !! j = Some u -> g ∈ guards u -> guard_ok P' (alive_after ev (alive C)) g).
    { intros j0 u0 Hu0 Hg0. eapply guard_stable; [exact P4| |by eapply I3]. intros k x. by eapply beside_guard. }
    destruct (stepped_thread j u' Hu) as [(_ & _ & Eg & _)|(Ne & u & Hu0 & _ & Eg & _)]; rewrite Eg in Hg; [|by eapply Old].
    apply elem_of_app in Hg as [Hg|Hg]; [|by eapply Old]. by apply (proj1 (Forall_forall _ _) P3).
  - intros j u' p Hu Hw. destruct (stepped_thread j u' Hu) as [(_ & Ec & _)|(Ne & u & Hu0 & Ec & _)]; rewrite Ec in Hw.
    + destruct Hw as [Hw|Hw]; [|congruence]. apply P5 in Hw. apply alive_keeps; [eapply I4; [exact Hi|by left]|].
      intros Hd. destruct (pc t); done.
    + apply alive_keeps; [by eapply I4|]. intros Hd. eapply (I5 i j); [exact Hi|exact Hu0|done|]. exists p. by split.
  - intros j k u v Hu Hv Ne (p & Hd & Hw).
    destruct (stepped_thread j u Hu) as [(-> & Ec & _)|(Ne1 & u0 & Hu0 & Ec & _)]; rewrite Ec in Hd; [congruence|].
    destruct (stepped_thread k v Hv) as [(-> & Ec' & _)|(Ne2 & v0 & Hv0 & Ec' & _)]; rewrite Ec' in Hw.
    + destruct Hw as [Hw|Hw]; [|congruence]. eapply (I5 j i); [exact Hu0|exact Hi|done|]. exists p. auto.
    + eapply (I5 j k); [exact Hu0|exact Hv0|done|]. by exists p.
  - intros j u' Hu Ha. destruct (stepped_thread j u' Hu) as [(_ & _ & _ & Es)|(Ne & u & Hu0 & -> & _ & Es)]; [congruence|].
    destruct (Es Ha) as [Hs Hw]. pose proof (I6 j u Hu0 Hs) as S. pose proof (I2 j u Hu0) as Lo. cbn [pool stepped].
    pose proof (fun k x => beside_other _ _ _ _ _ k x Hi Hu0 ltac:(done)) as Tk.
    assert (Nw : forall f, match pc u with Waits g _ _ _ | Drains g _ => g = f | _ => False end -> notify <> Some f).
    { intros f Hf En. specialize (Hw f En). unfold wake in Hw.
      destruct (pc u) eqn:Ep; try done; subst; rewrite Z.eqb_refl in Hw; rewrite <- Hw in Hs; done. }
    destruct (pc u) eqn:Ep; try done; cbn in S, Lo |- *; destruct (gu_sleep _ _ _ _ _ _ _ P4 f) as [En|[G1 G2]]; try apply Lo; try (by exfalso; eapply Nw).
    + by apply G1.
    + rewrite G2; [done|apply Lo|]. eapply Z.lt_le_trans; [|apply (Tk KLoad f)]. apply occ_in. right. left.
Qed.
End piece_step.

(** ** A thread changes, the pool does not *)

Lemma inv_thread n C i t t' :
  inv n C -> threads C !! i = Some t -> (forall k x, occ k x (thread_holds t') = occ k x (thread_holds t)) ->
  local (pool C) (alive C) (pc t') -> (forall g, g ∈ guards t' -> g ∈ guards t) ->
  (forall p, wants (pc t') p -> p ∈ alive C) ->
  (forall j u, threads C !! j = Some u -> j <> i -> ~ clash (pc t') (pc u) /\ ~ clash (pc u) (pc t')) ->
  (asleep t' = true -> sleep_ok (pool C) (pc t')) ->
  inv (n + 1) (mkConf (pool C) (<[i := t']> (threads C)) (alive C)).
Proof.
  intros [I1 I2 I3 I4 I5 I6] Hi Hk L Hg Hw Hc Hs.
  assert (Th : forall j u, <[i := t']> (threads C) !! j = Some u -> (j = i /\ u = t') \/ (j <> i /\ threads C !! j = Some u)).
  { intros j u Hu. apply list_lookup_insert_Some in Hu as [(-> & -> & _)|(Ne & Hu)]; auto. }
  split; cbn.
  - eapply core_ext; [exact I1|lia|]. intros k x. cbn. rewrite (total_insert k x _ i t t' Hi), Hk. lia.
  - intros j u Hu. destruct (Th j u Hu) as [[_ ->]|[_ Hu']]; eauto.
  - intros j u g Hu Hgu. destruct (Th j u Hu) as [[_ ->]|[_ Hu']]; eauto.
  - intros j u p Hu Hwu. destruct (Th j u Hu) as [[_ ->]|[_ Hu']]; eauto.
  - intros j k u v Hu Hv Ne. destruct (Th j u Hu) as [[-> ->]|[Nu Hu']], (Th k v Hv) as [[-> ->]|[Nv Hv']]; try done.
    + by apply (Hc k v).
    + by apply (Hc j u).
    + by apply (I5 j k u v).
  - intros j u Hu. destruct (Th j u Hu) as [[_ ->]|[_ Hu']]; eauto.
Qed.

Lemma inv_doze n C i t b :
  inv n C -> threads C !! i = Some t -> (b = true -> sleep_ok (pool C) (pc t)) ->
  inv (n + 1) (mkConf (pool C) (<[i := mkThread (pc t) (guards t) b]> (threads C)) (alive C)).
Proof.
  intros I Hi Hb. apply (inv_thread _ _ _ t); try done.
  - exact (in_local _ _ I i t Hi).
  - intros p. exact (in_wants _ _ I i t p Hi).
  - intros j u Hu Ne. split; [exact (in_alone _ _ I i j t u Hi Hu ltac:(congruence))|exact (in_alone _ _ I j i u t Hu Hi Ne)].
Qed.

Section moves.
Context {errno_text : ErrnoText} {host : Host}.

(** ** Every program point *)

Lemma exec_ok n oth env c gs P A :
  (forall k x, 0 <= oth k x) -> covered oth -> n + 1 < 2 ^ 64 -> page_count (disk P) + 1 < 2 ^ 31 - 1 ->
  (forall i, Forall (fun f => 0 <= f < capacity P) (env i)) ->
  core n (plus oth (holds c)) P A -> local P A c -> (forall p, wants c p -> p ∈ A) ->
  post n oth P A c gs (exec env c gs P).
Proof.
  intros N Cv Hn Hp He C L W. unfold wants in W. destruct c.
  - done.
  - apply post_Lookup; auto.
  - by apply post_Waits.
  - by apply post_Refuses.
  - by apply post_Touches.
  - by apply post_Unevicts.
  - by apply post_Latches.
  - by apply post_Pops.
  - by apply post_Evicts.
  - by apply post_Peeks.
  - by apply post_Validates.
  - by apply post_Revalidates.
  - by apply post_GivesBack.
  - by apply post_Checks.
  - by apply post_Shares.
  - by apply post_Samples.
  - by apply post_Writes.
  - by apply post_Unshares.
  - by apply post_Marks.
  - by apply post_Unpins.
  - apply post_Publishes; auto.
  - by apply post_Reads.
  - by apply post_Completes.
  - by apply post_Unmaps.
  - by apply post_Declares.
  - by apply post_Drains.
  - by apply post_Restocks.
  - by apply post_Allocates.
  - by apply post_Stamps.
  - by apply post_Fills.
  - by apply post_Resets.
  - by apply post_Maps.
  - by apply post_Records.
  - by apply post_Seizes.
  - by apply post_Finds.
  - by apply post_Visits.
  - apply post_Deletes; auto.
  - by apply post_Withdraws.
  - by apply post_Deallocates.
  - by apply post_Returns.
  - by apply post_Dirties.
  - by apply post_Unlatches.
  - by apply post_Leaves.
Qed.

(** ** Writing through a guard *)

Lemma edit_eq g e P :
  edit_fits e = true -> len (data (FrameAt (g_frame g) P)) = PAGE_SIZE ->
  exists bs, edit g e P = Some (tt, set_frame (g_frame g) (set_data bs (FrameAt (g_frame g) P)) P) /\ len bs = PAGE_SIZE.
Proof.
  intros Hf Hl.
  assert (Hh : forall h, len (patch 0 (PageHeader_WriteTo h) (data (FrameAt (g_frame g) P))) = PAGE_SIZE)
    by (intros h; rewrite len_patch; rewrite ?PageHeader_len, ?Hl; unfold_consts; lia).
  destruct e; (eexists; split; [reflexivity|]); try apply Hh. cbn in Hf. apply Z.eqb_eq in Hf.
  rewrite len_patch; rewrite ?Hf, ?Hl; unfold_consts; lia.
Qed.

(** What the rest of the world holds beside guard [m] of thread [t]. *)
Lemma guard_others C i t m g k x j u :
  threads C !! i = Some t -> guards t !! m = Some g -> threads C !! j = Some u ->
  occ k x (holds (pc u)) <= total k x (threads C) - occ k x (guard_holds g) /\
  forall m' g', guards u !! m' = Some g' -> (j, m') <> (i, m) -> occ k x (guard_holds g') <= total k x (threads C) - occ k x (guard_holds g).
Proof.
  intros Hi Hm Hj. pose proof (occ_guards_delete k x _ _ _ Hm) as Dg. pose proof (occ_nonneg k x (guards_hold (delete m (guards t)))) as Ng.
  destruct (decide (i = j)) as [->|Ne].
  - rewrite Hi in Hj. injection Hj as <-. pose proof (total_member k x _ _ _ Hi) as M. unfold thread_holds in M. rewrite occ_app in M.
    pose proof (occ_nonneg k x (holds (pc t))). split; [lia|]. intros m' g' Hm' Hne.
    assert (Hne' : m <> m') by congruence. assert (Hin : g' ∈ delete m (guards t)).
    { apply list_elem_of_lookup. destruct (decide (m' < m)%nat) as [Hlt|Hge].
      - exists m'. by rewrite list_lookup_delete_lt.
      - exists (pred m'). rewrite list_lookup_delete_ge by lia. by replace (S (pred m')) with m' by lia. }
    pose proof (occ_guards_in k x _ _ Hin). lia.
  - pose proof (total_members k x _ _ _ _ _ Hi Hj Ne) as M. unfold thread_holds in M. rewrite !occ_app in M.
    pose proof (occ_nonneg k x (holds (pc t))). pose proof (occ_nonneg k x (holds (pc u))). pose proof (occ_nonneg k x (guards_hold (guards u))).
    split; [lia|]. intros m' g' Hm' _. pose proof (occ_guards_in k x g' (guards u) ltac:(by eapply list_elem_of_lookup_2)). lia.
Qed.

Section edits.
Context {n : Z} {C : Conf} {i m : nat} {t : Thread} {g : PageGuard}.
Hypothesis I : inv n C.
Hypothesis Hi : threads C !! i = Some t.
Hypothesis Hm : guards t !! m = Some g.
Hypothesis Hw : g_write g = true.

Lemma writer_alone :
  resident_at (pool C) (alive C) (g_frame g) (g_page g) /\ writer (FrameAt (g_frame g) (pool C)) = true /\
  total KRead (g_frame g) (threads C) = 0 /\ total KWrite (g_frame g) (threads C) = 1 /\
  total KLoad (g_frame g) (threads C) = 0 /\ total KNew (g_frame g) (threads C) = 0.
Proof.
  assert (Hg : g ∈ guards t) by (by eapply list_elem_of_lookup_2).
  destruct (in_guards _ _ I i t g Hi Hg) as [_ R]. pose proof R as ((Hf & Hs & Hp) & Ha).
  destruct (guard_others C i t m g KWrite (g_frame g) i t Hi Hm Hi) as [G _].
  assert (Hk : 0 < total KWrite (g_frame g) (threads C)).
  { pose proof (occ_nonneg KWrite (g_frame g) (holds (pc t))). unfold guard_holds in G. rewrite Hw in G. cbn in G. unfold is_token in G. cbn in G.
    rewrite Z.eqb_refl in G. lia. }
  destruct (co_frames _ _ _ _ (in_core _ _ I) _ Hf) as [F1 F2 F3 F4 F5 F6 F7 F8 F9 F10 _ _ _ _ _ _ _ _].
  destruct (writer (FrameAt (g_frame g) (pool C))) eqn:W; [|lia]. rewrite Hs in *. cbn in F8. specialize (F6 eq_refl).
  pose proof (total_nonneg KNew (g_frame g) (threads C)). assert (K0 : total KNew (g_frame g) (threads C) = 0).
  { destruct (decide (0 < total KNew (g_frame g) (threads C))) as [K|]; [destruct (F10 (or_intror K)) as (_ & _ & X); congruence|lia]. }
  split_and!; try done; lia.
Qed.

Context {bs : list byte}.
Hypothesis Hb : len bs = PAGE_SIZE.

Definition edited : Pool := set_frame (g_frame g) (set_data bs (FrameAt (g_frame g) (pool C))) (pool C).

Lemma edit_core : core (n + 1) (fun k x => total k x (threads C)) edited (alive C).
Proof.
  destruct writer_alone as (((Hf & Hs & Hp) & Ha) & W & K1 & K2 & K3 & K4). pose proof (in_core _ _ I) as Co. unfold edited. rewrite set_frame_one.
  apply (core_one n _ _ _ _ _ _ _ _ Co); try done; [lia|apply Co| |by apply (map_keep _ _ _ _ _ _ Co); auto].
  destruct (co_frames _ _ _ _ Co _ Hf) as [F1 F2 F3 F4 F5 F6 F7 F8 F9 F10 F11 F12 F13 F14 F15 F16 F17 F18].
  split; cbn [data readers writer dirty_epoch flushed_epoch state page_id pin_count set_data]; try done; try lia.
  - intros _ _ _ X. congruence.
  - intros D HD. destruct (F16 D HD) as [M1 M2]. split; [done|]. intros E. destruct (M2 E) as [M3 _]. split; [done|]. congruence.
Qed.

Lemma edit_guar :
  guar (fun k x => total k x (threads C) - occ k x (guard_holds g)) (pool C) (alive C) edited (alive C) None (Stored (g_page g) bs).
Proof.
  destruct writer_alone as (((Hf & Hs & Hp) & Ha) & W & K1 & K2 & K3 & K4). unfold edited. rewrite set_frame_one.
  change (alive C) with (alive_after (Stored (g_page g) bs) (alive C)) at 2.
  pose proof (fun k => occ_nonneg k (g_frame g) (guard_holds g)) as Ng.
  eapply guar_one; [exact (in_core _ _ I)|done|done|]. split; cbn [data dirty_epoch state page_id pin_count set_data]; auto.
  - specialize (Ng KRead). lia.
  - specialize (Ng KLoad). lia.
  - specialize (Ng KNew). lia.
  - intros p Hpa F Hne. destruct (co_map _ _ _ _ (in_core _ _ I) p _ F) as (_ & E & _). exfalso. apply (Hne bs). congruence.
Qed.

Lemma inv_edit : inv (n + 1) (mkConf edited (threads C) (alive C)).
Proof.
  pose proof edit_guar as G. pose proof writer_alone as (R & _). pose proof I as [I1 I2 I3 I4 I5 I6]. split; cbn; try done.
  - apply edit_core.
  - intros j u Hu. eapply local_stable; [exact G| |by eapply I2]. intros k x. by apply (guard_others C i t m g k x j u).
  - intros j u g' Hu Hg'. pose proof Hg' as [m' Hm']%list_elem_of_lookup. destruct (decide ((j, m') = (i, m))) as [E|E].
    + injection E as -> ->. rewrite Hi in Hu. injection Hu as <-. rewrite Hm in Hm'. injection Hm' as <-.
      destruct (I3 i t g Hi Hg') as [L _]. split; [done|]. destruct R as ((Hf & Hs & Hp) & Ha). split; [|done].
      unfold edited. rewrite set_frame_one. by apply pinned_change.
    + eapply guard_stable; [exact G| |by eapply I3]. intros k x. by apply (guard_others C i t m g k x j u) with (m' := m').
  - intros j u Hu Hs. pose proof (I6 j u Hu Hs) as S. pose proof (I2 j u Hu) as Lo. destruct R as ((Hf & _) & _).
    assert (E : forall f, in_pool (pool C) f -> state (FrameAt f edited) = state (FrameAt f (pool C)) /\ pin_count (FrameAt f edited) = pin_count (FrameAt f (pool C))).
    { intros f Hf'. unfold edited. rewrite set_frame_one, change_one_frame by (done || apply Hf'). case_decide; [by subst|done]. }
    destruct (pc u); try done; cbn in *; destruct (E f ltac:(apply Lo)) as [E1 E2]; congruence.
Qed.
End edits.

(** ** Every move *)

(** What a move does to the pages clients see. *)
Record effect (C : Conf) (ev : Event) (C' : Conf) : Prop := {
  ef_alive : alive C' = alive_after ev (alive C);
  ef_view : forall p, p ∈ alive C -> p ∈ alive C' -> (forall bs, ev <> Stored p bs) -> view (pool C') p = view (pool C) p;
  ef_event : match ev with
    | Created g => (g_page g ∉ alive C) /\ view (pool C') (g_page g) = fresh_page (g_page g)
    | Stored p bs => p ∈ alive C /\ view (pool C') p = bs
    | Removed p => p ∈ alive C
    | _ => True
    end
}.

Definition move_ok (n : Z) (C : Conf) (s : Step) : Prop :=
  match s with
  | Disabled => True
  | Crashes => False
  | Next C' ev => (forall st, ev <> DiskFault st) -> inv (n + 1) C' /\ effect C ev C'
  end.

Lemma silent_effect C ts ev :
  match ev with Silent | Returned _ => True | _ => False end -> effect C ev (mkConf (pool C) ts (alive C)).
Proof. intros H. split; [by destruct ev|done|by destruct ev]. Qed.

Lemma run_ok n C t env : inv n C -> allowed (Run t env) C -> n + 1 < 2 ^ 64 -> move_ok n C (step (Run t env) C).
Proof.
  intros I [Hp He] Hn. cbn [step]. destruct (threads C !! t) as [th|] eqn:Ht; [|done]. destruct (_ || _); [done|].
  assert (P : post n (beside th (threads C)) (pool C) (alive C) (pc th) (guards th) (exec env (pc th) (guards th) (pool C))).
  { apply exec_ok; try done.
    - intros k x. by eapply beside_nonneg.
    - by eapply beside_covered.
    - eapply core_ext; [exact (in_core _ _ I)|lia|]. intros k x. symmetry. apply total_here.
    - exact (in_local _ _ I t th Ht).
    - intros p. exact (in_wants _ _ I t th p Ht). }
  destruct (exec env (pc th) (guards th) (pool C)) as [| | |P' c' gs' notify ev]; cbn in *; try done.
  - intros _. split; [|by apply silent_effect]. by apply inv_doze.
  - intros Hev. destruct (P Hev) as (new & -> & Pi). split; [exact (inv_piece I Ht Pi)|].
    pose proof Pi as [_ _ _ G _ _ E]. split; [done|apply G|]. destruct ev; cbn in *; try done; tauto.
Qed.

(** A call that only sets the thread on its way. *)
Lemma call_ok n C t th c' ev :
  inv n C -> threads C !! t = Some th -> pc th = Idle -> holds c' = [] -> local (pool C) (alive C) c' ->
  (forall p, wants c' p -> p ∈ alive C /\ forall j u, threads C !! j = Some u ->
     deleting (pc u) <> Some p /\ (deleting c' = Some p -> fetching (pc u) <> Some p)) ->
  match ev with Silent | Returned _ => True | _ => False end ->
  move_ok n C (commit t th (Goes (pool C) c' (guards th) None ev) C).
Proof.
  intros I Ht Hpc Hh L Hw Hev _. assert (Ha : alive_after ev (alive C) = alive C) by by destruct ev. cbn [notify_all]. rewrite Ha.
  split; [|by apply silent_effect]. apply (inv_thread _ _ _ th); try done.
  - intros k x. unfold thread_holds. cbn [pc guards]. by rewrite Hpc, Hh.
  - intros p Hp. by apply Hw.
  - intros j u Hu Ne. split; intros (p & Hd & Hx).
    + destruct (Hw p (or_intror Hd)) as [_ X]. destruct (X j u Hu) as [X1 X2]. destruct Hx as [Hx|Hx]; [by apply X2|by apply X1].
    + destruct (Hw p Hx) as [_ X]. by destruct (X j u Hu).
Qed.

Lemma call_plain n C t th c' ev :
  inv n C -> threads C !! t = Some th -> pc th = Idle -> holds c' = [] -> local (pool C) (alive C) c' ->
  fetching c' = None -> deleting c' = None -> match ev with Silent | Returned _ => True | _ => False end ->
  move_ok n C (commit t th (Goes (pool C) c' (guards th) None ev) C).
Proof. intros I Ht Hpc Hh L Hf Hd Hev. apply call_ok; try done. intros p [E|E]; congruence. Qed.

Lemma edit_ok n C t th m e :
  inv n C -> threads C !! t = Some th -> pc th = Idle -> move_ok n C (commit t th (start (CallEdit m e) (guards th) (pool C)) C).
Proof.
  intros I Ht Hpc. cbn [start]. destruct (guards th !! m) as [g|] eqn:Hm; [|done].
  destruct (g_write g) eqn:Hw; [|done]. destruct (edit_fits e) eqn:He; [|done]. cbn [andb negb].
  destruct (writer_alone I Ht Hm Hw) as (((Hf & Hs & Hp) & Ha) & _).
  destruct (edit_eq g e (pool C)) as (bs & -> & Lb); [done|apply (co_frames _ _ _ _ (in_core _ _ I) _ Hf)|].
  rewrite FrameAt_same by done. cbn [data set_data]. intros _. cbn [notify_all alive_after].
  pose proof (inv_edit I Ht Hm Hw Lb) as I'.
  assert (Eq : <[t := mkThread Idle (guards th) false]> (threads C) = threads C).
  { apply list_insert_id. rewrite Ht. f_equal. pose proof (in_sleep _ _ I t th Ht) as S. destruct th as [c gs b]. cbn in *. subst c.
    destruct b; [by specialize (S eq_refl)|done]. }
  rewrite Eq. split; [exact I'|]. split; cbn [pool alive alive_after].
  - done.
  - apply (edit_guar I Ht Hm Hw).
  - split; [done|]. unfold view. cbn [page_table set_frame].
    assert (F : Find (g_page g) (page_table (pool C)) = Some (g_frame g)).
    { pose proof (co_frames _ _ _ _ (in_core _ _ I) _ Hf) as Fr. rewrite <- Hp. apply (fi_home _ _ _ _ _ _ _ _ _ Fr Hs).
      apply (writer_alone I Ht Hm Hw). }
    rewrite F, FrameAt_same by done. unfold frame_view. cbn. by rewrite Hs.
Qed.

Lemma step_ok n C m : inv n C -> allowed m C -> n + 1 < 2 ^ 64 -> move_ok n C (step m C).
Proof.
  intros I Hm Hn. destruct m as [t env|t a|t]; [by apply run_ok| |].
  2: { cbn [step]. destruct (threads C !! t) as [th|] eqn:Ht; [|done]. destruct (asleep th); [|done].
       intros _. split; [by apply inv_doze|by apply silent_effect]. }
  destruct Hm as [_ Hm]. cbn [step]. destruct (threads C !! t) as [th|] eqn:Ht; [|done]. destruct (pc th) eqn:Hpc; try done.
  assert (El : forall j u, threads C !! j = Some u -> u ∈ threads C) by (intros j u Hu; by eapply list_elem_of_lookup_2).
  destruct a as [w p| |p| |p|i|i e]; cbn [start].
  - destruct (Z.eqb_spec p META_PAGE_ID) as [E1|E1]; cbn [orb]; [by apply call_plain|].
    destruct (Z.eqb_spec p INVALID_PAGE) as [E2|E2]; [by apply call_plain|]. destruct Hm as [Hm|[Hm|[Ha Hd]]]; try done.
    apply call_ok; try done. intros q [[= <-]|Hq]; [|done]. split; [done|]. intros j u Hu. split; [apply Hd; eauto|done].
  - by apply call_plain.
  - by apply call_plain.
  - by apply call_plain.
  - destruct (Z.eqb_spec p META_PAGE_ID) as [E1|E1]; cbn [orb]; [by apply call_plain|].
    destruct (Z.eqb_spec p CATALOG_ROOT_PAGE_ID) as [E2|E2]; [by apply call_plain|]. destruct Hm as [Hm|[Hm|[Ha Hd]]]; try done.
    apply call_ok; try done. intros q [Hq|[= <-]]; [done|]. split; [done|]. intros j u Hu.
    specialize (Hd u (El j u Hu)). unfold involved in Hd. apply orb_false_iff in Hd as [D1%bool_decide_eq_false D2%bool_decide_eq_false]. auto.
  - destruct (guards th !! i) as [g|] eqn:Hg; [|done]. intros _. split; [|by apply silent_effect]. cbn [notify_all alive_after].
    destruct (in_guards _ _ I t th g Ht) as [_ R]; [by eapply list_elem_of_lookup_2|].
    apply (inv_thread _ _ _ th); try done; cbn [pc guards asleep].
    + intros k x. unfold thread_holds. cbn [pc guards]. rewrite Hpc, !occ_app, (occ_guards_delete k x _ _ _ Hg). cbn [holds occ].
      destruct (g_write g) eqn:W; cbn [holds]; rewrite ?W; unfold guard_holds; rewrite ?W; lia.
    + destruct (g_write g) eqn:W; [split; done|exact R].
    + intros g' Hg'. apply list_elem_of_lookup in Hg' as [j Hj]. destruct (decide (j < i)%nat).
      * rewrite list_lookup_delete_lt in Hj by done. by eapply list_elem_of_lookup_2.
      * rewrite list_lookup_delete_ge in Hj by lia. by eapply list_elem_of_lookup_2.
    + intros p Hp. by destruct (g_write g), Hp.
    + intros j u Hu Ne. split; intros (p & Hd & Hx); destruct (g_write g); try done; by destruct Hx.
  - by apply edit_ok.
Qed.
End moves.
