(* ===== verification/PoolProgress.v ===== *)
(** * Threads over a pool do not block each other for ever

    Nobody sleeps through what it waits for, and whoever waits inside the pool waits for a
    thread that can run.  Only a latch held through a guard makes a caller wait for another
    caller. *)

From stdpp Require Import gmap.
From S2P Require Import Prelude Common DiskManager DiskProofs DiskTheorems Replacer ReplacerTheorems.
From S2P Require Import PoolIndex BufferPool BufferPoolProofs BufferPoolOps PoolThreads PoolTokens PoolShared PoolPieces PoolPins PoolCreates PoolRun.

(** ** Who holds a token *)

Lemma occ_pos k x l : 0 < occ k x l -> (k, x) ∈ l.
Proof.
  induction l as [|[k' y] l IH]; simpl; [lia|]. unfold is_token; cbn. destruct (kind_eqb k k' && (x =? y)) eqn:E.
  - intros _. apply andb_true_iff in E as [E1 E2%Z.eqb_eq]. subst y.
    assert (k = k') as ->; [|left]. destruct k, k'; try done; cbn in E1; by apply Z.eqb_eq in E1 as ->.
  - intros H. right. apply IH. lia.
Qed.

Lemma total_pos k x ts :
  0 < total k x ts -> exists i t, ts !! i = Some t /\ ((k, x) ∈ holds (pc t) \/ exists g, g ∈ guards t /\ (k, x) ∈ guard_holds g).
Proof.
  induction ts as [|t ts IH]; cbn [total]; [lia|]. intros H. destruct (decide (0 < occ k x (thread_holds t))) as [Ht|Ht].
  - exists 0%nat, t. split; [done|]. apply occ_pos in Ht. unfold thread_holds, guards_hold in Ht. apply elem_of_app in Ht as [Ht|Ht]; [by left|right].
    apply list_elem_of_In, in_concat in Ht as (l & Hl & Hin). apply list_elem_of_In, list_elem_of_fmap in Hl as (g & -> & Hg).
    exists g. split; [done|]. by apply list_elem_of_In.
  - destruct IH as (i & u & Hu & X); [lia|]. by exists (S i), u.
Qed.

(** The same, beside one thread's program point. *)
Lemma beside_pos k x ts i t :
  ts !! i = Some t -> 0 < beside t ts k x ->
  exists j u, ts !! j = Some u /\ ((j <> i /\ (k, x) ∈ holds (pc u)) \/ exists g, g ∈ guards u /\ (k, x) ∈ guard_holds g).
Proof.
  intros Hi Hb. pose proof (total_pos k x (<[i := mkThread Idle (guards t) false]> ts)) as T.
  rewrite (total_insert k x ts i t _ Hi) in T. unfold beside, thread_holds in *. rewrite !occ_app in T. cbn [pc guards holds occ] in T.
  destruct T as (j & u & Hu & X); [lia|]. apply list_lookup_insert_Some in Hu as [(<- & <- & _)|(Ne & Hu)].
  - exists i, t. split; [done|]. cbn in X. destruct X as [X|X]; [by apply elem_of_nil in X|by right].
  - exists j, u. split; [done|]. destruct X as [X|X]; [left; split; [congruence|done]|by right].
Qed.

(** The tokens of a concrete list. *)
Ltac held X :=
  cbn in X; repeat (apply elem_of_cons in X as [X|X]; [discriminate X || (injection X as X; try subst)|]);
  try (exfalso; exact (not_elem_of_nil _ X)).

Section progress.
Context {errno_text : ErrnoText} {host : Host}.

Definition no_accesses : nat -> list Z := fun _ => [].

(** Thread [i] can run a piece. *)
Definition can_run (C : Conf) (i : nat) : Prop := exists C' ev, step (Run i no_accesses) C = Next C' ev.

(** A thread at a latch that somebody's guard holds. *)
Definition waits_for_guard (C : Conf) (c : Pc) : Prop :=
  exists f, match c with Latches g _ _ | Shares g _ _ => g = f | _ => False end /\
    exists j u g, threads C !! j = Some u /\ g ∈ guards u /\ g_frame g = f.

(** Inside a call, at a latch that is taken. *)
Definition at_latch (c : Pc) : bool := match c with Latches _ _ _ | Shares _ _ _ => true | _ => false end.

Lemma unpin_moves f P k : (forall Q o, k Q o <> Blocks) -> unpin f P k <> Blocks.
Proof. intros H. unfold unpin. destruct (_ <=? 0); [done|]. destruct (UnpinPage f P) as [[? Q]|]; [apply H|done]. Qed.

Lemma seizes_moves n oth f p gs P A :
  (forall k x, 0 <= oth k x) -> covered oth -> core n (plus oth (holds (Seizes f p))) P A -> local P A (Seizes f p) ->
  exec no_accesses (Seizes f p) gs P <> Blocks.
Proof.
  intros N Cv C L. destruct (creator_facts N Cv _ f p C (proj1 L) eq_refl) as (_ & _ & _ & _ & _ & _ & _ & _ & _ & R0 & W0 & _).
  cbn. unfold AcquireWrite. by rewrite R0, W0.
Qed.

(** Away from the latches every piece runs, or puts its thread to sleep. *)
Lemma exec_moves n oth c gs P A :
  (forall k x, 0 <= oth k x) -> covered oth -> core n (plus oth (holds c)) P A -> local P A c ->
  c <> Idle -> at_latch c = false -> exec no_accesses c gs P <> Blocks.
Proof.
  intros N Cv C L Ni Na. destruct c; cbn in Na; try done.
  all: try (by eapply seizes_moves).
  all: cbn; repeat match goal with
       | |- context [match ?x with _ => _ end] => lazymatch x with
         | context [match _ with _ => _ end] => fail
         | _ => destruct x
         end
       end; try done; by apply unpin_moves.
Qed.

Section stuck.
Context {n : Z} {C : Conf}.
Hypothesis I : inv n C.
Hypothesis Hn : n + 1 < 2 ^ 64.
Hypothesis Hp : page_count (disk (pool C)) + 1 < 2 ^ 31 - 1.

Lemma runs_unless_blocked i t :
  threads C !! i = Some t -> asleep t = false -> existsb (locks_out (pc t)) (threads C) = false ->
  exec no_accesses (pc t) (guards t) (pool C) <> Blocks -> can_run C i.
Proof.
  intros Hi Ha Hl M.
  assert (Ok : move_ok n C (step (Run i no_accesses) C)) by (apply step_ok; [done|split; [done|by intros k]|done]).
  unfold can_run. cbn [step] in *. rewrite Hi, Ha, Hl in *. cbn [orb] in *.
  destruct (exec no_accesses (pc t) (guards t) (pool C)); try done; by eexists _, _.
Qed.

(** A thread that is neither asleep, nor locked out of a shard, nor at a latch, can run. *)
Lemma can_run_awake i t :
  threads C !! i = Some t -> asleep t = false -> pc t <> Idle -> at_latch (pc t) = false ->
  (forall j u, threads C !! j = Some u -> locks_out (pc t) u = false) -> can_run C i.
Proof.
  intros Hi Ha Ni Na Hl.
  assert (E : existsb (locks_out (pc t)) (threads C) = false).
  { apply not_true_iff_false. intros (u & Hu & Hx)%existsb_exists. apply list_elem_of_In, list_elem_of_lookup in Hu as [j Hu].
    by rewrite (Hl j u Hu) in Hx. }
  apply (runs_unless_blocked i t Hi Ha E). eapply (exec_moves n (beside t (threads C))); try done.
  - intros k x. by eapply beside_nonneg.
  - by eapply beside_covered.
  - eapply core_ext; [exact (in_core _ _ I)|lia|]. intros k x. symmetry. apply total_here.
  - exact (in_local _ _ I i t Hi).
Qed.

(** A thread between the pieces of DeletePage can run. *)
Lemma shard_holder_runs i t p : threads C !! i = Some t -> shard_held (pc t) = Some p -> can_run C i.
Proof.
  intros Hi Hs. pose proof (in_sleep _ _ I i t Hi) as Sl.
  apply (can_run_awake i t Hi); [|by destruct (pc t)|by destruct (pc t)|].
  - destruct (asleep t); [|done]. specialize (Sl eq_refl). by destruct (pc t).
  - intros j u _. unfold locks_out. by destruct (pc t).
Qed.

(** So a thread that is awake and not at a latch is held up, if at all, by one that can run. *)
Lemma awake_progress i t :
  threads C !! i = Some t -> asleep t = false -> pc t <> Idle -> at_latch (pc t) = false -> exists j, can_run C j.
Proof.
  intros Hi Ha Ni Na. destruct (existsb (locks_out (pc t)) (threads C)) eqn:E.
  - apply existsb_exists in E as (u & Hu & Hx). apply list_elem_of_In, list_elem_of_lookup in Hu as [j Hu]. exists j.
    unfold locks_out in Hx. destruct (shard_needed (pc t)); [|done]. destruct (shard_held (pc u)) eqn:Eh; [|done]. by eapply shard_holder_runs.
  - exists i. apply (can_run_awake i t Hi); try done. intros j u Hu. apply not_true_iff_false. intros Hx.
    apply not_true_iff_false in E. apply E, existsb_exists. exists u. split; [|done]. apply list_elem_of_In. by eapply list_elem_of_lookup_2.
Qed.

Lemma frame_facts_of f : in_pool (pool C) f -> frame_at_ok n (fun k x => total k x (threads C)) (pool C) (alive C) f.
Proof. apply (co_frames _ _ _ _ (in_core _ _ I)). Qed.

(** Only a waiter and the loader sleep. *)
Lemma sleeper t i : threads C !! i = Some t -> asleep t = true ->
  (exists f w p z, pc t = Waits f w p z /\ state (FrameAt f (pool C)) = Loading) \/
  (exists f st, pc t = Drains f st /\ pin_count (FrameAt f (pool C)) <> 1).
Proof.
  intros Hi Ha. pose proof (in_sleep _ _ I i t Hi Ha) as S. destruct (pc t) eqn:E; try done; [left|right]; by eauto 10.
Qed.

(** A frame in transit has a loader, at one of the loader's program points. *)
Lemma loader_exists f :
  in_pool (pool C) f -> state (FrameAt f (pool C)) = Loading ->
  exists j u, threads C !! j = Some u /\ asleep u = false /\ pc u <> Idle /\ at_latch (pc u) = false.
Proof.
  intros Hf Hs. pose proof (fi_load _ _ _ _ _ _ _ _ _ (frame_facts_of f Hf)) as Fl. rewrite Hs in Fl. cbn in Fl.
  destruct (total_pos KLoad f (threads C)) as (j & u & Hu & X); [lia|]. exists j, u. split; [done|].
  pose proof (in_local _ _ I j u Hu) as Lo. pose proof (sleeper u j Hu) as Sl.
  destruct X as [X|(g & _ & X)]; [|unfold guard_holds in X; destruct (g_write g); held X].
  destruct (pc u) eqn:Ep; cbn [holds] in X; try destruct (g_write _); try destruct f0 as [f0|]; held X; (split; [|done]);
    destruct (asleep u) eqn:Ea; try done; destruct (Sl eq_refl) as [(?&?&?&?&E&_)|(?&?&E&_)]; try done.
  destruct Lo. congruence.
Qed.

(** Besides the loader, a failed frame is pinned by its waiters only. *)
Lemma failed_pinners P A c f :
  local P A c -> (KPin, f) ∈ holds c -> state (FrameAt f P) = Failed -> occ KLoad f (holds c) = 0 ->
  (exists w p z, c = Waits f w p z) \/ c = Refuses f.
Proof.
  intros Lo X Hs Ld. destruct c; cbn [holds] in X; try match type of X with context [if ?b then _ else _] => destruct b end;
    try match type of X with context [match ?o with Some _ => _ | None => _ end] => destruct o end; held X; cbn in Lo;
    try (exfalso; unfold resident_at, pinned_at, loading_at in Lo;
         solve [repeat (match goal with H : _ /\ _ |- _ => destruct H | H : exists _, _ |- _ => destruct H end); congruence]);
    try (exfalso; cbn in Ld; unfold is_token in Ld; cbn in Ld; rewrite Z.eqb_refl in Ld; cbn in Ld; lia); eauto.
Qed.

(** A failed frame that is pinned by more than its loader is pinned by a waiter that can leave. *)
Lemma leaver_exists i t f st :
  threads C !! i = Some t -> pc t = Drains f st -> pin_count (FrameAt f (pool C)) <> 1 ->
  exists j u, threads C !! j = Some u /\ asleep u = false /\ pc u <> Idle /\ at_latch (pc u) = false.
Proof.
  intros Hi Ht Hne. pose proof (in_local _ _ I i t Hi) as L. rewrite Ht in L. destruct L as [Hf Hs].
  pose proof (frame_facts_of f Hf) as Fr. pose proof (fi_pins _ _ _ _ _ _ _ _ _ Fr) as Fp. pose proof (fi_load _ _ _ _ _ _ _ _ _ Fr) as Fl.
  cbn beta in Fp, Fl. rewrite Hs in Fl. cbn in Fl. pose proof (beside_nonneg _ _ _ KPin f Hi) as Bn.
  assert (Own : total KPin f (threads C) = beside t (threads C) KPin f + 1)
    by (unfold beside; rewrite Ht; cbn; unfold is_token; cbn; rewrite Z.eqb_refl; lia).
  destruct (beside_pos KPin f _ i t Hi ltac:(lia)) as (j & u & Hu & X). exists j, u. split; [done|].
  pose proof (in_local _ _ I j u Hu) as Lo. destruct X as [[Ne X]|(g & Hg & X)].
  2: { exfalso. destruct (in_guards _ _ I j u g Hu Hg) as [_ ((_ & R & _) & _)]. unfold guard_holds in X. destruct (g_write g); held X; congruence. }
  pose proof (total_members KLoad f _ _ _ _ _ Hi Hu ltac:(congruence)) as Tm. unfold thread_holds in Tm. rewrite !occ_app, Ht in Tm.
  pose proof (occ_nonneg KLoad f (guards_hold (guards t))). pose proof (occ_nonneg KLoad f (guards_hold (guards u))).
  assert (Ld : occ KLoad f (holds (pc u)) = 0).
  { pose proof (occ_nonneg KLoad f (holds (pc u))). cbn in Tm. unfold is_token in Tm. cbn in Tm. rewrite Z.eqb_refl in Tm. cbn in Tm. lia. }
  destruct (failed_pinners _ _ _ _ Lo X Hs Ld) as [(w & p & z & Ep)|Ep]; (split; [|by rewrite Ep]); pose proof (sleeper u j Hu) as Sl;
    destruct (asleep u); try done; destruct (Sl eq_refl) as [(?&?&?&?&E&?)|(?&?&E&_)]; rewrite Ep in E; try done.
  simplify_eq. congruence.
Qed.

(** A latch that is taken is held through a guard, or by a thread that can run. *)
Lemma latch_progress i t f :
  threads C !! i = Some t -> match pc t with Latches g _ _ | Shares g _ _ => g = f | _ => False end ->
  waits_for_guard C (pc t) \/ exists j, can_run C j.
Proof.
  intros Hi Hf. pose proof (in_local _ _ I i t Hi) as Lo. pose proof (sleeper t i Hi) as Sl.
  assert (Hin : in_pool (pool C) f) by (destruct (pc t); try done; cbn in Lo; unfold resident_at, pinned_at in Lo; subst; tauto).
  assert (Ha : asleep t = false).
  { destruct (asleep t); [|done]. destruct (Sl eq_refl) as [(?&?&?&?&E&_)|(?&?&E&_)]; by rewrite E in Hf. }
  pose proof (frame_facts_of f Hin) as Fr.
  destruct (decide (0 < total KRead f (threads C) \/ 0 < total KWrite f (threads C))) as [Hl|Hl].
  - assert (X : exists k j u, (k = KRead \/ k = KWrite) /\ threads C !! j = Some u /\ ((k, f) ∈ holds (pc u) \/ exists g, g ∈ guards u /\ (k, f) ∈ guard_holds g)).
    { destruct Hl as [Hl|Hl]; destruct (total_pos _ _ _ Hl) as (j & u & Hu & X); [exists KRead|exists KWrite]; eauto 8. }
    destruct X as (k & j & u & Hk & Hu & [X|(g & Hg & X)]).
    + right. pose proof (sleeper u j Hu) as Su. apply (awake_progress j u Hu).
      * destruct (asleep u); [|done]. destruct (Su eq_refl) as [(?&?&?&?&E&_)|(?&?&E&_)]; rewrite E in X; destruct Hk; subst; held X.
      * intros E. rewrite E in X. held X.
      * destruct (pc u); try done; destruct Hk; subst; held X.
    + left. exists f. split; [done|]. exists j, u, g. split; [done|]. split; [done|].
      unfold guard_holds in X. destruct (g_write g), Hk; subst; held X; done.
  - right. exists i. pose proof (total_nonneg KRead f (threads C)). pose proof (total_nonneg KWrite f (threads C)).
    assert (R0 : readers (FrameAt f (pool C)) = 0) by (rewrite (fi_reads _ _ _ _ _ _ _ _ _ Fr); lia).
    assert (W0 : writer (FrameAt f (pool C)) = false) by (pose proof (fi_writes _ _ _ _ _ _ _ _ _ Fr); destruct (writer _); [lia|done]).
    assert (Nl : existsb (locks_out (pc t)) (threads C) = false).
    { apply not_true_iff_false. intros (u & _ & Hx)%existsb_exists. unfold locks_out in Hx. by destruct (pc t). }
    assert (M : exec no_accesses (pc t) (guards t) (pool C) <> Blocks).
    { destruct (pc t); try done; cbn; subst; [destruct w|]; unfold AcquireWrite, AcquireRead; by rewrite ?R0, ?W0. }
    by eapply runs_unless_blocked.
Qed.

(** Whoever is inside a call waits for a guard that somebody holds, or some thread can run. *)
Lemma no_deadlock i t :
  threads C !! i = Some t -> pc t <> Idle -> waits_for_guard C (pc t) \/ exists j, can_run C j.
Proof.
  intros Hi Ni. destruct (asleep t) eqn:Ha.
  - right. pose proof (in_local _ _ I i t Hi) as Lo. destruct (sleeper t i Hi Ha) as [(f & w & p & z & E & Hs)|(f & st & E & Hne)].
    + rewrite E in Lo. destruct (loader_exists f (proj1 Lo) Hs) as (j & u & Hu & Hau & Hnu & Hlu). by eapply awake_progress.
    + destruct (leaver_exists i t f st Hi E Hne) as (j & u & Hu & Hau & Hnu & Hlu). by eapply awake_progress.
  - destruct (at_latch (pc t)) eqn:El; [|right; by eapply awake_progress].
    assert (X : exists f, match pc t with Latches g _ _ | Shares g _ _ => g = f | _ => False end) by (destruct (pc t); by eauto).
    destruct X as [f X]. by eapply latch_progress.
Qed.
End stuck.
End progress.
