(* ===== verification/PoolReach.v ===== *)
(** * What threads over one pool reach

    The invariant of PoolRun.v holds from the start and along every run.  The pages that
    clients may name, each with the bytes a guard on it shows, form a store that every move
    changes as its event says. *)

From stdpp Require Import gmap.
From S2P Require Import Prelude Common DiskManager DiskProofs DiskTheorems Replacer ReplacerTheorems.
From S2P Require Import PoolIndex BufferPool BufferPoolProofs BufferPoolOps BufferPoolTheorems PoolThreads PoolTokens PoolShared PoolPieces PoolRun.

(** ** The start *)

(** A consistent file, at least one frame, and clients that know pages of the file only. *)
Record fresh_ok (d : Disk) (l : list Z) (cap : Z) (A : gset Z) : Prop := {
  fr_disk : disk_ok d l;
  fr_cap : 0 < cap < 2 ^ 31;
  fr_alive : forall p, p ∈ A -> (p ∉ l) /\ 2 <= p < page_count d
}.

Lemma total_rest k x ts : Forall (fun t => pc t = Idle /\ guards t = []) ts -> total k x ts = 0.
Proof. induction 1 as [|t ts [Hp Hg] _ IH]; [done|]. cbn [total]. rewrite IH. unfold thread_holds. by rewrite Hp, Hg. Qed.

Lemma total_idle k x workers : total k x (replicate workers (mkThread Idle [] false)) = 0.
Proof. by apply total_rest, Forall_replicate. Qed.

Lemma times_out x l : x ∉ l -> times x l = 0.
Proof.
  induction l as [|y l IH]; [done|]. intros [N1 N2]%not_elem_of_cons. cbn. destruct (Z.eqb_spec x y); [done|]. by rewrite IH.
Qed.

Lemma times_seqZ x n k : times x (seqZ k n) = if (k <=? x) && (x <? k + n) then 1 else 0.
Proof.
  unfold seqZ. remember (Z.to_nat n) as m eqn:E. assert (E' : 0 <= n -> n = Z.of_nat m) by lia.
  assert (E0 : n < 0 -> m = 0%nat) by lia. clear E. destruct (Z.leb_spec 0 n) as [H|H].
  2: { rewrite E0 by done. cbn. destruct (Z.leb_spec k x), (Z.ltb_spec x (k + n)); cbn; lia. }
  rewrite E' by done. clear. revert k. induction m as [|m IH]; intros k.
  { cbn [seq fmap list_fmap times]. destruct (Z.leb_spec k x), (Z.ltb_spec x (k + Z.of_nat 0)); cbn; lia. }
  cbn [seq fmap list_fmap times]. rewrite <- fmap_S_seq. replace ((fun i : nat => Z.of_nat i + k) <$> (S <$> seq 0 m)) with ((fun i : nat => Z.of_nat i + (k + 1)) <$> seq 0 m).
  2: { rewrite <- list_fmap_compose. apply list_fmap_ext. intros i j _. cbn. lia. }
  rewrite IH. destruct (Z.eqb_spec x (Z.of_nat 0 + k)), (Z.leb_spec k x), (Z.leb_spec (k + 1) x), (Z.ltb_spec x (k + Z.of_nat (S m))),
    (Z.ltb_spec x (k + 1 + Z.of_nat m)); cbn; lia.
Qed.

Lemma fresh_inv d l cap workers A : fresh_ok d l cap A -> inv 0 (fresh_conf d cap workers A).
Proof.
  intros [D Hc HA].
  assert (T : forall i t, threads (fresh_conf d cap workers A) !! i = Some t -> t = mkThread Idle [] false)
    by (intros i t [-> _]%lookup_replicate; done).
  assert (Cap : capacity (new_Pool d cap) = cap) by (unfold capacity, new_Pool; cbn [frames]; rewrite length_replicate; lia).
  split.
  2-6: intros *; try by intros ->%T.
  2: by intros ->%T ?%elem_of_nil.
  2: by intros ->%T [|].
  2: by intros ->%T ->%T _ (p & ? & _).
  split; cbn [pool alive fresh_conf].
  - by rewrite Cap.
  - by apply new_Replacer_ok.
  - cbn. by rewrite !length_replicate.
  - apply new_PageTable_ok.
  - intros f Hf. rewrite Cap. apply elem_of_seqZ in Hf. lia.
  - intros f Hf. rewrite Cap in Hf. unfold frame_at_ok. rewrite new_Pool_frame. cbn [threads fresh_conf].
    split; cbn; rewrite ?total_idle; try done; try (by intros [?|?]); try (intros; lia).
    unfold new_FreeList. rewrite times_seqZ, bool_decide_true by done. destruct (Z.leb_spec 0 f), (Z.ltb_spec f (0 + cap)); cbn; lia.
    intros M. rewrite total_idle. lia.
  - intros p f. cbn. by rewrite Find_new.
  - exists l. cbn [disk new_Pool threads fresh_conf]. split; [done|..]; intros p; rewrite !total_idle; try lia.
    intros Hp. split; [done|by apply HA].
Qed.

(** ** Runs *)

Section runs.
Context {errno_text : ErrnoText} {host : Host}.

(** What holds along every run, by induction on its moves. *)
Lemma steps_ind_inv (Q : nat -> list Event -> Conf -> Prop) C0 :
  inv 0 C0 -> Q 0%nat [] C0 ->
  (forall n evs C ev C', inv (Z.of_nat n) C -> Q n evs C -> inv (Z.of_nat (S n)) C' -> effect C ev C' -> Q (S n) (evs ++ [ev]) C') ->
  forall n evs C, steps n C0 evs C -> Z.of_nat n < 2 ^ 64 -> inv (Z.of_nat n) C /\ Q n evs C.
Proof.
  intros I0 Q0 Qs n evs C S. induction S as [|n C0 evs C m ev C' S IH Al St Nf]; intros Hn; [done|].
  destruct (IH I0 Q0 ltac:(lia)) as [I Qn]. pose proof (step_ok _ _ _ I Al ltac:(lia)) as Ok. rewrite St in Ok.
  destruct (Ok Nf) as [I' Ef]. rewrite Nat2Z.inj_succ. unfold Z.succ. split; [done|]. eapply Qs; [exact I|done| |done].
  by rewrite Nat2Z.inj_succ.
Qed.

Lemma steps_inv n d l cap workers A evs C :
  fresh_ok d l cap A -> steps n (fresh_conf d cap workers A) evs C -> Z.of_nat n < 2 ^ 64 -> inv (Z.of_nat n) C.
Proof. intros F S Hn. apply (steps_ind_inv (fun _ _ _ => True) _ (fresh_inv _ _ _ workers _ F) I ltac:(done) n evs C S Hn). Qed.
End runs.

(** ** Guards *)

Lemma total_guard k x ts i t g : ts !! i = Some t -> g ∈ guards t -> occ k x (guard_holds g) <= total k x ts.
Proof.
  intros Hi Hg. pose proof (total_member k x ts i t Hi) as T. pose proof (occ_guards_in k x g _ Hg).
  unfold thread_holds in T. rewrite occ_app in T. pose proof (occ_nonneg k x (holds (pc t))). lia.
Qed.

Lemma guard_latches g : 1 <= occ (if g_write g then KWrite else KRead) (g_frame g) (guard_holds g).
Proof. unfold guard_holds. destruct (g_write g); cbn; unfold is_token; cbn; rewrite Z.eqb_refl; cbn; lia. Qed.

Section guards.
Context {n : Z} {C : Conf}.
Hypothesis I : inv n C.

(** The frame under a guard is the page's home. *)
Lemma guard_home i t g :
  threads C !! i = Some t -> g ∈ guards t ->
  in_pool (pool C) (g_frame g) /\ state (FrameAt (g_frame g) (pool C)) = Resident /\
  page_id (FrameAt (g_frame g) (pool C)) = g_page g /\ Find (g_page g) (page_table (pool C)) = Some (g_frame g) /\
  g_page g ∈ alive C.
Proof.
  intros Hi Hg. destruct (in_guards _ _ I i t g Hi Hg) as [_ ((Hf & Hs & Hp) & Ha)]. do 3 (split; [done|]). split; [|done].
  pose proof (co_frames _ _ _ _ (in_core _ _ I) _ Hf) as Fr. cbn beta in Fr. rewrite <- Hp. apply (fi_home _ _ _ _ _ _ _ _ _ Fr Hs).
  pose proof (total_nonneg KNew (g_frame g) (threads C)). pose proof (fi_cold _ _ _ _ _ _ _ _ _ Fr) as Cold. cbn beta in Cold.
  destruct (Z.eqb_spec (total KNew (g_frame g) (threads C)) 0) as [E|E]; [done|].
  destruct Cold as (_ & R & W); [right; lia|]. pose proof (guard_latches g) as L.
  pose proof (total_guard (if g_write g then KWrite else KRead) (g_frame g) _ _ _ _ Hi Hg).
  pose proof (fi_reads _ _ _ _ _ _ _ _ _ Fr) as Fq. pose proof (fi_writes _ _ _ _ _ _ _ _ _ Fr) as Fw. cbn beta in *.
  rewrite R in Fq. rewrite W in Fw. destruct (g_write g); lia.
Qed.

Lemma guard_view i t g :
  threads C !! i = Some t -> g ∈ guards t -> view (pool C) (g_page g) = data (FrameAt (g_frame g) (pool C)).
Proof.
  intros Hi Hg. destruct (guard_home i t g Hi Hg) as (_ & Hs & _ & F & _). unfold view. rewrite F. unfold frame_view. by rewrite Hs.
Qed.

(** Two different guards are counted twice. *)
Lemma two_guards k x i j t u a b g h :
  threads C !! i = Some t -> threads C !! j = Some u -> guards t !! a = Some g -> guards u !! b = Some h ->
  (i, a) <> (j, b) -> occ k x (guard_holds g) + occ k x (guard_holds h) <= total k x (threads C).
Proof.
  intros Hi Hj Ha Hb Ne. destruct (decide (i = j)) as [->|Hij].
  - assert (t = u) as -> by congruence. assert (a <> b) by congruence.
    pose proof (total_member k x _ _ _ Hj) as T. unfold thread_holds in T. rewrite occ_app in T. pose proof (occ_nonneg k x (holds (pc u))).
    pose proof (occ_guards_delete k x (guards u) a g Ha) as E.
    assert (X : h ∈ delete a (guards u)).
    { apply (list_elem_of_lookup_2 _ (if decide (b < a)%nat then b else pred b)). case_decide; [by rewrite list_lookup_delete_lt|].
      rewrite list_lookup_delete_ge by lia. by replace (S (pred b)) with b by lia. }
    pose proof (occ_guards_in k x h _ X). lia.
  - pose proof (total_members k x _ _ _ _ _ Hi Hj Hij) as T. unfold thread_holds in T. rewrite !occ_app in T.
    pose proof (occ_nonneg k x (holds (pc t))). pose proof (occ_nonneg k x (holds (pc u))).
    pose proof (occ_guards_in k x g _ (list_elem_of_lookup_2 _ _ _ Ha)). pose proof (occ_guards_in k x h _ (list_elem_of_lookup_2 _ _ _ Hb)). lia.
Qed.

(** A writer is alone on its page. *)
Lemma writer_excludes i j t u a b g h :
  threads C !! i = Some t -> threads C !! j = Some u -> guards t !! a = Some g -> guards u !! b = Some h ->
  (i, a) <> (j, b) -> g_page g = g_page h -> g_write g = false /\ g_write h = false.
Proof.
  intros Hi Hj Ha Hb Ne Ep. pose proof (list_elem_of_lookup_2 _ _ _ Ha) as Hg. pose proof (list_elem_of_lookup_2 _ _ _ Hb) as Hh.
  destruct (guard_home i t g Hi Hg) as (Hf & _ & _ & F1 & _). destruct (guard_home j u h Hj Hh) as (_ & _ & _ & F2 & _).
  assert (Ef : g_frame g = g_frame h) by congruence.
  pose proof (co_frames _ _ _ _ (in_core _ _ I) _ Hf) as Fr. cbn beta in Fr.
  pose proof (fi_reads _ _ _ _ _ _ _ _ _ Fr) as Fq. pose proof (fi_writes _ _ _ _ _ _ _ _ _ Fr) as Fw. pose proof (fi_latch _ _ _ _ _ _ _ _ _ Fr) as Fl. cbn beta in *.
  pose proof (two_guards KWrite (g_frame g) _ _ _ _ _ _ _ _ Hi Hj Ha Hb Ne) as TW.
  pose proof (two_guards KRead (g_frame g) _ _ _ _ _ _ _ _ Hi Hj Ha Hb Ne) as TR.
  pose proof (guard_latches g) as Lg. pose proof (guard_latches h) as Lh. rewrite <- Ef in Lh.
  pose proof (occ_nonneg KRead (g_frame g) (guard_holds g)). pose proof (occ_nonneg KRead (g_frame g) (guard_holds h)).
  pose proof (occ_nonneg KWrite (g_frame g) (guard_holds g)). pose proof (occ_nonneg KWrite (g_frame g) (guard_holds h)).
  destruct (writer _); [specialize (Fl eq_refl)|]; destruct (g_write g), (g_write h); try done; lia.
Qed.
End guards.

(** ** The store clients see *)

Definition store (C : Conf) : gmap Z (list byte) := set_to_map (fun p => (p, view (pool C) p)) (alive C).

(** An event as one step of a map from page ids to bytes; [None] when the map has no such step. *)
Definition perform (ev : Event) (m : gmap Z (list byte)) : option (gmap Z (list byte)) :=
  match ev with
  | Created g => match m !! g_page g with None => Some (<[g_page g := fresh_page (g_page g)]> m) | Some _ => None end
  | Stored p bs => match m !! p with Some _ => Some (<[p := bs]> m) | None => None end
  | Removed p => match m !! p with Some _ => Some (delete p m) | None => None end
  | _ => Some m
  end.

Fixpoint replay (evs : list Event) (m : gmap Z (list byte)) : option (gmap Z (list byte)) :=
  match evs with [] => Some m | ev :: evs => match perform ev m with Some m => replay evs m | None => None end end.

Lemma replay_app evs ev m m' m'' :
  replay evs m = Some m' -> perform ev m' = Some m'' -> replay (evs ++ [ev]) m = Some m''.
Proof.
  revert m. induction evs as [|e evs IH]; intros m; cbn; [by intros [= ->] ->|]. destruct (perform e m); [apply IH|done].
Qed.

Lemma store_lookup C p : store C !! p = if decide (p ∈ alive C) then Some (view (pool C) p) else None.
Proof.
  unfold store. case_decide as H.
  - apply lookup_set_to_map; [by intros ? ? _ _ ?|]. by exists p.
  - apply eq_None_not_Some. intros [bs E]. apply lookup_set_to_map in E as (q & Hq & [= -> _]); [done|by intros ? ? _ _ ?].
Qed.

Lemma effect_perform C ev C' : effect C ev C' -> perform ev (store C) = Some (store C').
Proof.
  intros [Ea Ev Ee].
  assert (E : forall q, (forall bs, ev <> Stored q bs) -> q ∈ alive C -> store C' !! q = if decide (q ∈ alive C') then store C !! q else None).
  { intros q Hs Hq. rewrite !store_lookup. case_decide; [|done]. by rewrite decide_True, Ev. }
  destruct ev; cbn in *; try (f_equal; apply map_eq; intros q; destruct (decide (q ∈ alive C)) as [H|H];
    [rewrite E by done; by rewrite decide_True by (by rewrite Ea)|rewrite !store_lookup, !decide_False by (by rewrite ?Ea); done]).
  - destruct Ee as [Hn Hv]. rewrite store_lookup, decide_False by done. f_equal. apply map_eq. intros q.
    destruct (decide (q = g_page g)) as [->|Ne].
    + rewrite lookup_insert_eq, store_lookup, decide_True by (rewrite Ea; apply elem_of_union_l, elem_of_singleton_2; done). by rewrite Hv.
    + rewrite lookup_insert_ne by done. destruct (decide (q ∈ alive C)) as [H|H].
      * rewrite E, decide_True by (done || rewrite Ea; by apply elem_of_union_r). done.
      * rewrite !store_lookup, !decide_False; try done. rewrite Ea, elem_of_union, elem_of_singleton. tauto.
  - destruct Ee as [Hp Hv]. rewrite store_lookup, decide_True by done. f_equal. apply map_eq. intros q.
    destruct (decide (q = p)) as [->|Ne].
    + rewrite lookup_insert_eq, store_lookup, decide_True by (by rewrite Ea). by rewrite Hv.
    + rewrite lookup_insert_ne by done. destruct (decide (q ∈ alive C)) as [H|H].
      * rewrite E, decide_True; try done; [by rewrite Ea|]. intros bs' [=]. congruence.
      * rewrite !store_lookup, !decide_False by (by rewrite ?Ea). done.
  - rewrite store_lookup, decide_True by done. f_equal. apply map_eq. intros q.
    destruct (decide (q = p)) as [->|Ne].
    + rewrite lookup_delete_eq, store_lookup, decide_False; [done|]. rewrite Ea, elem_of_difference, elem_of_singleton. tauto.
    + rewrite lookup_delete_ne by done. destruct (decide (q ∈ alive C)) as [H|H].
      * rewrite E, decide_True; try done. rewrite Ea, elem_of_difference, elem_of_singleton. tauto.
      * rewrite !store_lookup, !decide_False; try done. rewrite Ea, elem_of_difference. tauto.
Qed.

Lemma fresh_store d l cap workers A p :
  fresh_ok d l cap A -> p ∈ A -> store (fresh_conf d cap workers A) !! p = Some (page_bytes p (file d)).
Proof. intros F Hp. rewrite store_lookup, decide_True by done. unfold view. cbn. by rewrite Find_new. Qed.

(** The page a thread is about to transfer or to give back. *)
Definition disk_page (c : Pc) : option Z :=
  match c with Reads _ _ p | Writes _ p _ _ | Deallocates _ p => Some p | _ => None end.

(** ** Frames *)

Section accounts.
Context {n : Z} {C : Conf}.
Hypothesis I : inv n C.

Lemma frame_account f : in_pool (pool C) f -> frame_at_ok n (fun k x => total k x (threads C)) (pool C) (alive C) f.
Proof. apply (co_frames _ _ _ _ (in_core _ _ I)). Qed.

(** A page that clients know is resident in one frame at most, where the table says. *)
Lemma resident_home f :
  in_pool (pool C) f -> state (FrameAt f (pool C)) = Resident -> page_id (FrameAt f (pool C)) ∈ alive C ->
  Find (page_id (FrameAt f (pool C))) (page_table (pool C)) = Some f.
Proof.
  intros Hf Hs Ha. pose proof (frame_account f Hf) as Fr. apply (fi_home _ _ _ _ _ _ _ _ _ Fr Hs). cbn beta.
  pose proof (total_nonneg KNew f (threads C)). destruct (Z.eqb_spec (total KNew f (threads C)) 0) as [E|E]; [done|exfalso].
  pose proof (fi_fresh _ _ _ _ _ _ _ _ _ Fr Hs ltac:(cbn beta; lia)) as Mk. cbn beta in Mk.
  destruct (co_pages _ _ _ _ (in_core _ _ I)) as [l Pg]. destruct (pg_alive _ _ _ _ Pg _ Ha) as [Z0 _].
  destruct (covered_total (threads C) f) as (_ & _ & _ & Cv). specialize (Cv (page_id (FrameAt f (pool C)))). lia.
Qed.

Lemma free_list_once : NoDup (free_list (pool C)).
Proof.
  apply times_le_1. intros f. destruct (decide (f ∈ free_list (pool C))) as [Hf|Hf].
  - pose proof (fi_own _ _ _ _ _ _ _ _ _ (frame_account f (co_free _ _ _ _ (in_core _ _ I) f Hf))) as O. cbn beta in O.
    pose proof (total_nonneg KOwn f (threads C)). destruct (bool_decide _); lia.
  - rewrite times_out by done. lia.
Qed.

(** A frame on the free list holds nothing, and no thread has it in hand. *)
Lemma free_list_idle f :
  f ∈ free_list (pool C) -> in_pool (pool C) f /\ state (FrameAt f (pool C)) = Free /\ pin_count (FrameAt f (pool C)) = 0 /\ total KOwn f (threads C) = 0.
Proof.
  intros Hf. pose proof (co_free _ _ _ _ (in_core _ _ I) f Hf) as Hin. pose proof (frame_account f Hin) as Fr.
  pose proof (fi_own _ _ _ _ _ _ _ _ _ Fr) as O. cbn beta in O. pose proof (total_nonneg KOwn f (threads C)). pose proof (times_in f _ Hf).
  destruct (bool_decide (state (FrameAt f (pool C)) = Free)) eqn:E; [|lia]. apply bool_decide_eq_true in E.
  split; [done|]. split; [done|]. split; [apply (fi_free _ _ _ _ _ _ _ _ _ Fr E)|lia].
Qed.

(** *** The file *)

Lemma member_occ k x i t : threads C !! i = Some t -> occ k x (holds (pc t)) <= total k x (threads C).
Proof.
  intros Hi. pose proof (total_member k x _ _ _ Hi) as T. unfold thread_holds in T. rewrite occ_app in T.
  pose proof (occ_nonneg k x (guards_hold (guards t))). lia.
Qed.

Lemma members_occ k x i j t u :
  threads C !! i = Some t -> threads C !! j = Some u -> i <> j -> occ k x (holds (pc t)) + occ k x (holds (pc u)) <= total k x (threads C).
Proof.
  intros Hi Hj Ne. pose proof (total_members k x _ _ _ _ _ Hi Hj Ne) as T. unfold thread_holds in T. rewrite !occ_app in T.
  pose proof (occ_nonneg k x (guards_hold (guards t))). pose proof (occ_nonneg k x (guards_hold (guards u))). lia.
Qed.

Lemma deallocates_page o p : occ KPage p (holds (Deallocates o p)) = 1.
Proof. destruct o; cbn; unfold is_token; cbn; by rewrite ?andb_true_r, Z.eqb_refl. Qed.

Lemma reads_load f w p : occ KLoad f (holds (Reads f w p)) = 1.
Proof. cbn. unfold is_token; cbn. by rewrite Z.eqb_refl. Qed.

(** A loader and a writer have a page that clients know, in the frame the table maps it to. *)
Lemma transfer_home i t p :
  threads C !! i = Some t -> disk_page (pc t) = Some p ->
  (p ∈ alive C /\ exists f, Find p (page_table (pool C)) = Some f /\
    ((exists w, pc t = Reads f w p /\ state (FrameAt f (pool C)) = Loading) \/
     exists r D, pc t = Writes f p r D /\ state (FrameAt f (pool C)) = Resident)) \/
  (0 < total KPage p (threads C) /\ exists o, pc t = Deallocates o p).
Proof.
  intros Hi Hd. pose proof (in_local _ _ I i t Hi) as Lo. destruct (pc t) eqn:E; try done; cbn in Hd, Lo; injection Hd as ->.
  - left. destruct Lo as (((Hf & Hs & Hp) & Ha) & _). subst p. split; [done|]. exists f. split; [by apply resident_home|]. right. by exists r, D.
  - left. destruct Lo as (_ & Hs & _ & F & Ha). split; [done|]. exists f. split; [done|]. left. by exists w.
  - right. pose proof (member_occ KPage p i t Hi) as M. rewrite E, deallocates_page in M. split; [lia|by exists f].
Qed.

(** At most one thread is at the disk for a page, or several write it from one frame. *)
Lemma transfers_apart i j t u p :
  threads C !! i = Some t -> threads C !! j = Some u -> i <> j -> disk_page (pc t) = Some p -> disk_page (pc u) = Some p ->
  exists f r D r' D', pc t = Writes f p r D /\ pc u = Writes f p r' D'.
Proof.
  intros Hi Hj Ne Di Dj. destruct (co_pages _ _ _ _ (in_core _ _ I)) as [l Pg]. pose proof (pg_one _ _ _ _ Pg p) as One. cbn beta in One.
  assert (Gone : p ∈ alive C -> total KPage p (threads C) = 0) by (intros Ha; by destruct (pg_alive _ _ _ _ Pg p Ha)).
  destruct (transfer_home i t p Hi Di) as [(Ai & f & Fi & Ti)|(Ki & o & Ei)], (transfer_home j u p Hj Dj) as [(Aj & g & Fj & Tj)|(Kj & o' & Ej)];
    try (specialize (Gone Ai); lia); try (specialize (Gone Aj); lia).
  - assert (g = f) as -> by congruence. destruct Ti as [(w & Ei & Si)|(r & D & Ei & Si)], Tj as [(w' & Ej & Sj)|(r' & D' & Ej & Sj)]; try congruence.
    + exfalso. pose proof (members_occ KLoad f i j t u Hi Hj Ne) as M. rewrite Ei, Ej, !reads_load in M.
      pose proof (in_local _ _ I i t Hi) as Lo. rewrite Ei in Lo.
      pose proof (fi_load _ _ _ _ _ _ _ _ _ (frame_account f (proj1 Lo))) as Fl. cbn beta in Fl. rewrite Si in Fl. cbn in Fl. lia.
    + by exists f, r, D, r', D'.
  - pose proof (members_occ KPage p i j t u Hi Hj Ne) as M. rewrite Ei, Ej, !deallocates_page in M. lia.
Qed.

Lemma transfer_stays i t p l :
  pages_ok (fun k x => total k x (threads C)) (disk (pool C)) (alive C) l ->
  threads C !! i = Some t -> disk_page (pc t) = Some p -> (p ∉ l) /\ 2 <= p < page_count (disk (pool C)).
Proof.
  intros Pg Hi Hd. destruct (transfer_home i t p Hi Hd) as [(Ha & _)|(Hk & _)].
  - by destruct (pg_alive _ _ _ _ Pg p Ha).
  - by apply (pg_busy _ _ _ _ Pg p).
Qed.

(** *** When every thread is between calls and holds no guard *)

Hypothesis Rest : Forall (fun t => pc t = Idle /\ guards t = []) (threads C).

Lemma rest_total k x : total k x (threads C) = 0.
Proof. by apply total_rest. Qed.

Lemma rest_frame f :
  in_pool (pool C) f ->
  pin_count (FrameAt f (pool C)) = 0 /\ readers (FrameAt f (pool C)) = 0 /\ writer (FrameAt f (pool C)) = false /\
  (state (FrameAt f (pool C)) = Free /\ f ∈ free_list (pool C) \/
   state (FrameAt f (pool C)) = Resident /\ (f ∉ free_list (pool C)) /\ page_id (FrameAt f (pool C)) ∈ alive C /\
   Find (page_id (FrameAt f (pool C))) (page_table (pool C)) = Some f /\ evictable_at f (replacer (pool C)) = true).
Proof.
  intros Hf. destruct (frame_account f Hf) as [_ _ Pn Rd Wr _ Own Ld _ _ _ _ Hm _ _ _ _ Cd]. cbn beta in *. setoid_rewrite rest_total in Hm.
  rewrite rest_total in *. split; [done|]. split; [done|]. split; [by destruct (writer _)|].
  destruct (state (FrameAt f (pool C))) eqn:Es; try (cbn in Ld; lia).
  - left. split; [done|]. rewrite bool_decide_true in Own by done. destruct (decide (f ∈ free_list (pool C))) as [|Ni]; [done|].
    rewrite times_out in Own by done. lia.
  - right. split; [done|]. destruct (Hm eq_refl eq_refl) as [Fd Ha]. split; [|split; [done|split; [done|]]].
    + intros (_ & E & _)%free_list_idle. congruence.
    + destruct (Cd eq_refl Pn) as [|[X|X]]; [done|lia|rewrite rest_total in X; lia].
Qed.

Lemma rest_quiesced : Quiesced (pool C) = true.
Proof.
  apply forallb_forall. intros fr [i Hi]%list_elem_of_In%list_elem_of_lookup. pose proof (lookup_lt_Some _ _ _ Hi) as L.
  assert (E : FrameAt (Z.of_nat i) (pool C) = fr) by (unfold FrameAt; rewrite Nat2Z.id; by apply list_lookup_total_correct).
  destruct (rest_frame (Z.of_nat i)) as (Pn & _ & _ & X); [unfold in_pool, capacity; lia|]. rewrite E in *. rewrite Pn.
  by destruct X as [[-> _]|[-> _]].
Qed.
End accounts.
