(* ===== verification/PoolThreadsTheorems.v ===== *)
(** * What the buffer pool promises to threads that share it *)

From stdpp Require Import gmap pretty.
From S2P Require Import Prelude Common DiskManager DiskProofs DiskTheorems Replacer ReplacerTheorems.
From S2P Require Import PoolIndex BufferPool BufferPoolProofs BufferPoolOps BufferPoolTheorems PoolThreads PoolTokens PoolShared PoolPieces PoolRun.
From S2P Require Import PoolProgress PoolReach.

(** ** Schedules *)

(** The decision procedure of [allowed], for sweeps nobody interferes with. *)
Definition permitted (m : Move) (C : Conf) : bool :=
  (page_count (disk (pool C)) + 1 <? 2 ^ 31 - 1) &&
  match m with
  | Call _ (CallFetch _ p) =>
      (p =? META_PAGE_ID) || (p =? INVALID_PAGE) ||
      (bool_decide (p ∈ alive C) && forallb (fun t => negb (bool_decide (deleting (pc t) = Some p))) (threads C))
  | Call _ (CallDelete p) =>
      (p =? META_PAGE_ID) || (p =? CATALOG_ROOT_PAGE_ID) ||
      (bool_decide (p ∈ alive C) && forallb (fun t => negb (involved p t)) (threads C))
  | _ => true
  end.

Definition quiet (m : Move) : Prop := match m with Run _ env => env = no_accesses | _ => True end.

Lemma permitted_allowed m C : quiet m -> permitted m C = true -> allowed m C.
Proof.
  intros Q [H1%Z.ltb_lt H2]%andb_true_iff. split; [done|]. destruct m as [t env|t [| | | | | |]|t]; try done.
  - intros k. cbn in Q. rewrite Q. constructor.
  - apply orb_true_iff in H2 as [[H%Z.eqb_eq|H%Z.eqb_eq]%orb_true_iff|[H1' H]%andb_true_iff]; [by left|by right; left|right; right].
    apply bool_decide_eq_true in H1'. split; [done|]. intros u Hu. rewrite forallb_forall in H. apply list_elem_of_In in Hu.
    specialize (H u Hu). by apply negb_true_iff, bool_decide_eq_false in H.
  - apply orb_true_iff in H2 as [[H%Z.eqb_eq|H%Z.eqb_eq]%orb_true_iff|[H1' H]%andb_true_iff]; [by left|by right; left|right; right].
    apply bool_decide_eq_true in H1'. split; [done|]. intros u Hu. rewrite forallb_forall in H. apply list_elem_of_In in Hu.
    specialize (H u Hu). by apply negb_true_iff in H.
Qed.

Section play.
Context {errno_text : ErrnoText} {host : Host}.

(** Plays a schedule; [None] when a move is not allowed, cannot be made, or the disk fails. *)
Fixpoint play (ms : list Move) (C : Conf) : option (list Event * Conf) :=
  match ms with
  | [] => Some ([], C)
  | m :: ms =>
      if permitted m C then
        match step m C with
        | Next _ (DiskFault _) | Disabled | Crashes => None
        | Next C ev => match play ms C with Some (evs, C) => Some (ev :: evs, C) | None => None end
        end
      else None
  end.

Lemma play_steps ms n C0 acc C evs C' :
  Forall quiet ms -> steps n C0 acc C -> play ms C = Some (evs, C') -> steps (n + length ms) C0 (acc ++ evs) C'.
Proof.
  intros Q. revert n acc C evs. induction Q as [|m ms Qm _ IH]; intros n acc C evs St; cbn [play].
  - intros [= <- <-]. by rewrite app_nil_r, Nat.add_0_r.
  - destruct (permitted m C) eqn:Ep; [|done]. destruct (step m C) as [| |C1 ev] eqn:Es; try done.
    assert (X : (forall st, ev <> DiskFault st) -> match play ms C1 with Some (evs, C) => Some (ev :: evs, C) | None => None end = Some (evs, C') ->
      steps (n + S (length ms)) C0 (acc ++ evs) C').
    { intros Nf. destruct (play ms C1) as [[evs1 C2]|] eqn:Ey; [|done]. intros [= <- <-].
      replace (n + S (length ms))%nat with (S n + length ms)%nat by lia. replace (acc ++ ev :: evs1) with ((acc ++ [ev]) ++ evs1) by (by rewrite <- app_assoc).
      apply (IH _ _ C1); [|done]. econstructor; [exact St|by apply permitted_allowed|done|done]. }
    destruct ev; try done; by apply X.
Qed.
End play.

(** ** Theorems *)

Section theorems.
Context {errno_text : ErrnoText} {host : Host}.
Context {d : Disk} {l : list Z} {cap : Z} {workers : nat} {A : gset Z}.
Hypothesis Fresh : fresh_ok d l cap A.

Context {n : nat} {evs : list Event} {C : Conf}.
Hypothesis Steps : steps n (fresh_conf d cap workers A) evs C.
Hypothesis Short : Z.of_nat n + 1 < 2 ^ 64.

Lemma reached : inv (Z.of_nat n) C.
Proof. apply (steps_inv _ _ _ _ _ _ _ _ Fresh Steps). lia. Qed.




(** C6: Threads do not wait for each other for ever inside the pool.  In every configuration a
    run reaches, a thread inside a call waits for a content latch that somebody holds through
    a guard, or some thread can run: no wakeup is lost, nobody sleeps for a load nobody is
    doing or for pins nobody will drop, and shard locks form no cycle. *)
Theorem conc_no_deadlock i t :
  page_count (disk (pool C)) + 1 < 2 ^ 31 - 1 -> threads C !! i = Some t -> pc t <> Idle ->
  waits_for_guard C (pc t) \/ exists j, can_run C j.
Proof. intros Hp. apply (no_deadlock reached); [lia|done]. Qed.


End theorems.

(** ** Schedules of two threads over two frames *)

#[local] Existing Instance debug_host.
#[local] Instance errno_text_threads : ErrnoText := {| errno_message n := pretty n |}.

Definition runs (i k : nat) : list Move := replicate k (Run i no_accesses).
Definition demo_conf : Conf := fresh_conf demo_disk 2 2 {[ 2 ]}.

Lemma runs_quiet i k : Forall quiet (runs i k).
Proof. by apply Forall_replicate. Qed.

Lemma demo_fresh : fresh_ok demo_disk [] 2 {[ 2 ]}.
Proof.
  destruct demo_disk_ok as (D & C & _). split; [done|lia|]. intros p ->%elem_of_singleton. rewrite C. split; [apply not_elem_of_nil|lia].
Qed.

(** Plays a schedule that goes through. *)
Definition goes (ms : list Move) : bool := match play ms demo_conf with Some _ => true | None => false end.
Definition played (ms : list Move) : list Event * Conf := default ([], demo_conf) (play ms demo_conf).

Lemma played_steps ms : Forall quiet ms -> goes ms = true -> steps (length ms) demo_conf (played ms).1 (played ms).2.
Proof.
  intros Q. unfold goes, played. destruct (play ms demo_conf) as [[evs C]|] eqn:E; [|done]. intros _.
  exact (play_steps ms 0 demo_conf [] demo_conf evs C Q (steps_none _) E).
Qed.



Ltac quiet_schedule := repeat (apply Forall_app; split); repeat (apply runs_quiet || (apply Forall_cons; split; [done|]) || apply Forall_nil_2).

(** Thread 1 writes page 2 and keeps its guard; thread 0 asks for the page. *)
Definition contention : list Move :=
  [Call 1 (CallFetch true 2)] ++ runs 1 7 ++ [Call 1 (CallEdit 0 (EditNext 9))] ++ [Call 0 (CallFetch false 2)] ++ runs 0 3.

Lemma contention_steps : steps (length contention) demo_conf (played contention).1 (played contention).2.
Proof. apply played_steps; [quiet_schedule|vm_compute; reflexivity]. Qed.

Lemma contention_short : Z.of_nat (length contention) + 1 < 2 ^ 64.
Proof. vm_compute. reflexivity. Qed.

Lemma contention_room : page_count (disk (pool (played contention).2)) + 1 < 2 ^ 31 - 1.
Proof. vm_compute. reflexivity. Qed.

Lemma contention_waiter : threads (played contention).2 !! 0%nat = Some (mkThread (Latches 1 false 2) [] false).
Proof. vm_compute. reflexivity. Qed.









Lemma conc_no_deadlock_witness :
  waits_for_guard (played contention).2 (Latches 1 false 2) \/ exists j, can_run (played contention).2 j.
Proof.
  exact (conc_no_deadlock demo_fresh contention_steps contention_short 0 _ contention_room contention_waiter ltac:(done)).
Defined.







(** Thread 1 creates pages 3 and 4 and flushes; thread 0, looking for a frame for page 2,
    takes the frame of page 4 out of the candidate set; thread 1 fetches and drops page 4,
    which puts the frame back into the set; thread 0 reclaims it; thread 1 loads page 2 into
    the other frame; thread 0 finds the page loaded and puts its frame on the free list. *)
Definition double_membership : list Move :=
  [Call 1 CallNew] ++ runs 1 8 ++ [Call 1 (CallDrop 0)] ++ runs 1 3 ++ [Call 1 CallNew] ++ runs 1 8 ++
  [Call 1 (CallDrop 0)] ++ runs 1 3 ++ [Call 1 CallFlushAll] ++ runs 1 17 ++
  [Call 0 (CallFetch false 2)] ++ runs 0 4 ++
  [Call 1 (CallFetch false 4)] ++ runs 1 5 ++ [Call 1 (CallDrop 0)] ++ runs 1 2 ++ runs 0 1 ++
  [Call 1 (CallFetch false 2)] ++ runs 1 10 ++ runs 0 1.

(** C30: A frame can be on the free list and in the replacer's candidate set at once, which the
    comments of the pool rule out: AcquireFrame promises a frame out of both, and an unpin
    between a reclaimer's Evict and its re-validation puts the victim back into the candidate
    set.  The schedule above reaches it with two threads, two frames and no fault. *)
Theorem conc_double_membership :
  exists n evs C, steps n demo_conf evs C /\ 0 ∈ free_list (pool C) /\ evictable_at 0 (replacer (pool C)) = true.
Proof.
  exists (length double_membership), (played double_membership).1, (played double_membership).2.
  split; [apply played_steps; [quiet_schedule|vm_compute; reflexivity]|].
  split; [apply (bool_decide_unpack _); vm_compute; exact I|vm_compute; reflexivity].
Qed.
