(* ===== verification/PageStore.v ===== *)
(** * The page store interface

    What the table heap and the B+tree use of the buffer pool, as a class of operations, and
    what they rely on, as a class of laws.  Their definitions and proofs are against these two
    classes; PoolStore.v shows that the buffer pool is an instance.

    The laws are those of a store whose file answers: a fetch fails for want of a frame or for a
    page that is absent or not loadable, never because of I/O.  What the pool does when the file
    fails is in BufferPoolTheorems.v and PoolThreadsTheorems.v.

    [rep cap n m gs s]: the store [s] with [cap] frames holds the pages [m], the guards [gs]
    are open, and [n] more calls cannot exhaust page ids or epochs.  [can_fetch p]: the store
    can be asked for [p]; for the pool, see [fetchable]. *)

From stdpp Require Import gmap.
From S2P Require Import Prelude Common BufferPool BufferPoolOps PoolRefine.

(** ** Operations *)

Class PageStore (S : Type) := {
  fetch : bool -> Z -> S -> option (Result PageGuard * S);
  new_page : S -> option (Result PageGuard * S);
  delete_page : Z -> S -> option (Status * S);
  drop_guard : PageGuard -> S -> option (unit * S);
  page_of : PageGuard -> S -> list byte;
  rewrite_page : PageGuard -> (list byte -> list byte) -> S -> option (unit * S)
}.

(** A new guard may join the open ones without waiting. *)
Definition admissible (w : bool) (p : Z) (gs : list PageGuard) : Prop :=
  forall g, g ∈ gs -> g_page g = p -> w = false /\ g_write g = false.

Class PageStoreLaws (S : Type) `{PageStore S} := {
  rep : Z -> Z -> gmap Z (list byte) -> list PageGuard -> S -> Prop;
  rep_mono cap n n' m gs s : n' <= n -> rep cap n m gs s -> rep cap n' m gs s;
  rep_perm cap n m gs gs' s : gs ≡ₚ gs' -> rep cap n m gs s -> rep cap n m gs' s;
  rep_page cap n m gs s g : rep cap n m gs s -> g ∈ gs -> m !! g_page g = Some (page_of g s);
  rep_length cap n m gs s p bs : rep cap n m gs s -> m !! p = Some bs -> len bs = PAGE_SIZE /\ 2 <= p < 2 ^ 31;
  can_fetch : Z -> Prop;
  can_fetch_page p : INVALID_PAGE <= p -> p <> CATALOG_ROOT_PAGE_ID -> can_fetch p;
  fetch_law cap n m gs s w p :
    rep cap (n + 1) m gs s -> can_fetch p -> admissible w p gs ->
    exists r s', fetch w p s = Some (r, s') /\
      match r with
      | Ok g => g_page g = p /\ g_write g = w /\ is_Some (m !! p) /\ rep cap n m (g :: gs) s'
      | Error e => (ok e = false /\ code e <> kNotFound) /\ rep cap n m gs s' /\
          (forall bs, m !! p = Some bs -> loadable p bs -> cap <= len gs)
      end;
  new_law cap n m gs s :
    rep cap (n + 1) m gs s -> 0 <= n ->
    exists r s', new_page s = Some (r, s') /\
      match r with
      | Ok g => m !! g_page g = None /\ 2 <= g_page g /\ g_write g = true /\
          rep cap n (<[g_page g := fresh_page (g_page g)]> m) (g :: gs) s'
      | Error e => ok e = false /\ rep cap n m gs s' /\ cap <= len gs
      end;
  delete_law cap n m gs s p :
    rep cap (n + 1) m gs s ->
    exists st s', delete_page p s = Some (st, s') /\
      ((st = StatusOK /\ (forall g, g ∈ gs -> g_page g <> p) /\ rep cap n (delete p m) gs s') \/
       (code st = kInvalidArgument /\ rep cap n m gs s' /\
        (m !! p = None \/ exists g, g ∈ gs /\ g_page g = p)));
  drop_law cap n m g gs s :
    rep cap (n + 1) m (g :: gs) s -> 0 <= n ->
    exists s', drop_guard g s = Some (tt, s') /\ rep cap n m gs s';
  rewrite_law cap n m g gs s bs F :
    rep cap (n + 1) m (g :: gs) s -> g_write g = true -> m !! g_page g = Some bs ->
    (forall bs, len bs = PAGE_SIZE -> len (F bs) = PAGE_SIZE) ->
    exists s', rewrite_page g F s = Some (tt, s') /\ rep cap n (<[g_page g := F bs]> m) (g :: gs) s'
}.

(** ** Sequencing client code *)

Section client.
Context {S : Type} `{PageStore S}.

Definition C (A : Type) : Type := S -> option (A * S).
Definition cret {A} (a : A) : C A := fun s => Some (a, s).
Definition cbind {A B} (m : C A) (k : A -> C B) : C B :=
  fun s => match m s with None => None | Some (a, s) => k a s end.

(** [Header()] and [Body()] of a guard, [MutableBody()] and the header setters. *)
Definition header_of (g : PageGuard) : C PageHeader := fun s => Some (page_header (page_of g s), s).
Definition bytes_of (g : PageGuard) : C (list byte) := fun s => Some (page_of g s, s).
Definition set_body (g : PageGuard) (body : list byte) : C unit :=
  rewrite_page g (patch PAGE_HEADER_SIZE body).
Definition set_header (g : PageGuard) (e : HeaderEdit) : C unit := rewrite_page g (edit_page e).

(** A guard's destructor at the end of its scope, whatever the scope returned. *)
Definition scoped {A} (g : PageGuard) (k : C A) : C A :=
  cbind k (fun r => cbind (drop_guard g) (fun _ => cret r)).
End client.

Arguments C S A : clear implicits.

Declare Scope client_scope.
Delimit Scope client_scope with client.
Notation "'do' x <- m ; k" := (cbind m (fun x => k))
  (at level 10, x pattern, m at level 100, k at level 200) : client_scope.
Notation "m ;;; k" := (cbind m (fun _ => k)) (at level 100, k at level 200, right associativity) : client_scope.

(** ** Header edits keep a page a page *)

Lemma length_edit_page e bs : len bs = PAGE_SIZE -> len (edit_page e bs) = PAGE_SIZE.
Proof. intros L. unfold edit_page. rewrite len_patch; [done|done|]. rewrite PageHeader_len, L. done. Qed.

Lemma length_set_body (body bs : list byte) :
  len body = PAGE_BODY_SIZE -> len bs = PAGE_SIZE -> len (patch PAGE_HEADER_SIZE body bs) = PAGE_SIZE.
Proof. intros Lb L. rewrite len_patch; [done|done|]. by rewrite Lb, L. Qed.

Lemma page_body_set (body bs : list byte) :
  len body = PAGE_BODY_SIZE -> len bs = PAGE_SIZE -> page_body (patch PAGE_HEADER_SIZE body bs) = body.
Proof. intros Lb L. apply slice_patch_same; [done| |by rewrite Lb]. by rewrite Lb, L. Qed.

Lemma page_header_set (body bs : list byte) :
  len body = PAGE_BODY_SIZE -> len bs = PAGE_SIZE ->
  page_header (patch PAGE_HEADER_SIZE body bs) = page_header bs.
Proof.
  intros Lb L. unfold page_header. f_equal. apply slice_patch_disjoint; [done| |done|by left]. by rewrite Lb, L.
Qed.

Lemma page_body_edit e bs : len bs = PAGE_SIZE -> page_body (edit_page e bs) = page_body bs.
Proof.
  intros L. apply slice_patch_disjoint; [done|by rewrite PageHeader_len, L|done|right; by rewrite PageHeader_len].
Qed.

(** The edits the clients make are within the fields' widths. *)
Definition edit_wf (e : HeaderEdit) : Prop :=
  match e with EType t => PageType_wf t | EFlags v => is_u8 v | ENext p | EPrev p => is_s32 p end.

Lemma page_header_wf bs : PageHeader_wf (page_header bs).
Proof. apply PageHeader_ReadFrom_wf. Qed.

Lemma page_header_edit e bs :
  len bs = PAGE_SIZE -> edit_wf e -> page_header (edit_page e bs) = edit_header e (page_header bs).
Proof.
  intros L E. unfold page_header at 1, edit_page.
  rewrite slice_patch_same; [|done|by rewrite PageHeader_len, L|by rewrite PageHeader_len].
  apply PageHeader_ReadFrom_WriteTo.
  destruct (page_header_wf bs) as (? & ? & ? & ? & ? & ? & ? & ? & ?).
  destruct e; unfold PageHeader_wf; simpl in *; by split_and!.
Qed.

Lemma length_page_body bs : len bs = PAGE_SIZE -> len (page_body bs) = PAGE_BODY_SIZE.
Proof. intros L. unfold page_body. rewrite length_slice. unfold_consts. lia. Qed.
