(* ===== verification/PageStoreLogic.v ===== *)
(** * A program logic for clients of the page store

    [wp cap c k m gs Q]: on every store with [cap] frames that holds the pages [m] with the
    guards [gs] open, the client code [k] returns (total correctness) after at most [c] calls
    of the store, in a state where [Q] holds of its result, the pages and the open guards.
    One rule per store operation, all consequences of the laws of the interface. *)

From stdpp Require Import gmap.
From S2P Require Import Prelude Common BufferPool BufferPoolOps PoolRefine PageStore.

Abbreviation pages_t := (gmap Z (list byte)).

Section logic.
Context {S : Type} `{!PageStore S, !PageStoreLaws S}.
Context (cap : Z).

Definition wp {A} (c : Z) (k : C S A) (m : pages_t) (gs : list PageGuard)
    (Q : A -> pages_t -> list PageGuard -> Prop) : Prop :=
  forall n s, 0 <= n -> rep cap (n + c) m gs s ->
  exists a s' m' gs', k s = Some (a, s') /\ rep cap n m' gs' s' /\ Q a m' gs'.

Lemma wp_mono {A} c c' (k : C S A) m gs (Q Q' : A -> pages_t -> list PageGuard -> Prop) :
  c' <= c -> (forall a m' gs', Q' a m' gs' -> Q a m' gs') -> wp c' k m gs Q' -> wp c k m gs Q.
Proof.
  intros Hc HQ W n s Hn R. destruct (W n s Hn) as (a & s' & m' & gs' & E & R' & HQ').
  { eapply rep_mono; [|done]. lia. }
  exists a, s', m', gs'. auto.
Qed.

Lemma wp_cret {A} c (a : A) m gs Q : 0 <= c -> Q a m gs -> wp c (cret a) m gs Q.
Proof. intros Hc HQ n s Hn R. exists a, s, m, gs. split; [done|]. split; [|done]. eapply rep_mono; [|done]. lia. Qed.

Lemma wp_bind {A B} c1 c (k : C S A) (f : A -> C S B) m gs Q :
  c1 <= c -> wp c1 k m gs (fun a m' gs' => wp (c - c1) (f a) m' gs' Q) -> wp c (cbind k f) m gs Q.
Proof.
  intros Hc W n s Hn R. destruct (W (n + (c - c1)) s) as (a & s1 & m1 & gs1 & E & R1 & W1); [lia|by replace (n + (c - c1) + c1) with (n + c) by lia|].
  destruct (W1 n s1 Hn R1) as (b & s2 & m2 & gs2 & E2 & R2 & HQ). exists b, s2, m2, gs2.
  unfold cbind. by rewrite E.
Qed.

(** The bytes every allocated page has. *)
Lemma wp_pages {A} c (k : C S A) m gs Q :
  ((forall p bs, m !! p = Some bs -> len bs = PAGE_SIZE /\ 2 <= p < 2 ^ 31) -> wp c k m gs Q) -> wp c k m gs Q.
Proof. intros W n s Hn R. apply W; [|done|done]. intros p bs. by eapply rep_length. Qed.

(** Every open guard is on an allocated page. *)
Lemma wp_guards {A} c (k : C S A) m gs Q :
  ((forall g, g ∈ gs -> is_Some (m !! g_page g)) -> wp c k m gs Q) -> wp c k m gs Q.
Proof. intros W n s Hn R. apply W; [|done|done]. intros g Hg. eexists. by eapply rep_page. Qed.

Lemma wp_perm {A} c (k : C S A) m gs gs0 Q : gs ≡ₚ gs0 -> wp c k m gs0 Q -> wp c k m gs Q.
Proof. intros P W n s Hn R. apply (W n s Hn). by eapply rep_perm. Qed.

Lemma wp_fetch c w p m gs Q :
  1 <= c -> can_fetch p -> admissible w p gs ->
  (forall g bs, g_page g = p -> g_write g = w -> m !! p = Some bs -> Q (Ok g) m (g :: gs)) ->
  (forall e, ok e = false /\ code e <> kNotFound ->
     (forall bs, m !! p = Some bs -> loadable p bs -> cap <= len gs) -> Q (Error e) m gs) ->
  wp c (fetch w p) m gs Q.
Proof.
  intros Hc Np Ad Hok Herr n s Hn R.
  destruct (fetch_law cap (n + c - 1) m gs s w p) as (r & s' & E & H); [by replace (n + c - 1 + 1) with (n + c) by lia|done|done|].
  destruct r as [g|e].
  - destruct H as (Hp & Hw & [bs Hm] & R'). exists (Ok g), s', m, (g :: gs). split; [done|]. split; [|by eapply Hok].
    eapply rep_mono; [|done]. lia.
  - destruct H as (He & R' & Hf). exists (Error e), s', m, gs. split; [done|]. split; [|by apply Herr].
    eapply rep_mono; [|done]. lia.
Qed.

Lemma wp_new c m gs Q :
  1 <= c ->
  (forall g, m !! g_page g = None -> 2 <= g_page g < 2 ^ 31 -> g_write g = true ->
     Q (Ok g) (<[g_page g := fresh_page (g_page g)]> m) (g :: gs)) ->
  (forall e, ok e = false -> cap <= len gs -> Q (Error e) m gs) ->
  wp c new_page m gs Q.
Proof.
  intros Hc Hok Herr n s Hn R.
  destruct (new_law cap (n + c - 1) m gs s) as (r & s' & E & H); [by replace (n + c - 1 + 1) with (n + c) by lia|lia|].
  destruct r as [g|e].
  - destruct H as (Hp & H2 & Hw & R'). eexists (Ok g), s', _, (g :: gs). split; [done|].
    split; [eapply rep_mono; [|done]; lia|]. apply Hok; [done| |done].
    eapply (rep_length _ _ _ _ _ (g_page g)); [exact R'|by rewrite lookup_insert_eq].
  - destruct H as (He & R' & Hf). exists (Error e), s', m, gs. split; [done|]. split; [|by apply Herr].
    eapply rep_mono; [|done]. lia.
Qed.

Lemma wp_delete c p m gs Q :
  1 <= c ->
  ((forall g, g ∈ gs -> g_page g <> p) -> Q StatusOK (delete p m) gs) ->
  (forall e, code e = kInvalidArgument -> (m !! p = None \/ exists g, g ∈ gs /\ g_page g = p) -> Q e m gs) ->
  wp c (delete_page p) m gs Q.
Proof.
  intros Hc Hok Herr n s Hn R.
  destruct (delete_law cap (n + c - 1) m gs s p) as (st & s' & E & [(-> & Hg & R')|(He & R' & Hr)]);
    [by replace (n + c - 1 + 1) with (n + c) by lia| |].
  - eexists _, s', _, gs. split; [done|]. split; [eapply rep_mono; [|done]; lia|]. by apply Hok.
  - eexists _, s', _, gs. split; [done|]. split; [eapply rep_mono; [|done]; lia|]. by apply Herr.
Qed.

Lemma wp_drop c g m gs gs0 Q :
  1 <= c -> gs ≡ₚ g :: gs0 -> Q tt m gs0 -> wp c (drop_guard g) m gs Q.
Proof.
  intros Hc P HQ n s Hn R. apply (rep_perm _ _ _ _ _ _ P) in R.
  destruct (drop_law cap (n + c - 1) m g gs0 s) as (s' & E & R'); [by replace (n + c - 1 + 1) with (n + c) by lia|lia|].
  exists tt, s', m, gs0. split; [done|]. split; [|done]. eapply rep_mono; [|done]. lia.
Qed.

Lemma wp_bytes c g m gs Q :
  0 <= c -> g ∈ gs ->
  (forall bs, m !! g_page g = Some bs -> len bs = PAGE_SIZE -> 2 <= g_page g < 2 ^ 31 -> Q bs m gs) ->
  wp c (bytes_of g) m gs Q.
Proof.
  intros Hc Hg HQ n s Hn R. pose proof (rep_page _ _ _ _ _ _ R Hg) as Hp.
  destruct (rep_length _ _ _ _ _ _ _ R Hp). exists (page_of g s), s, m, gs. split; [done|].
  split; [eapply rep_mono; [|done]; lia|]. by apply HQ.
Qed.

Lemma wp_header c g m gs bs Q :
  0 <= c -> g ∈ gs -> m !! g_page g = Some bs -> Q (page_header bs) m gs -> wp c (header_of g) m gs Q.
Proof.
  intros Hc Hg Hm HQ n s Hn R. pose proof (rep_page _ _ _ _ _ _ R Hg) as Hp. rewrite Hm in Hp. injection Hp as ->.
  eexists _, s, m, gs. split; [done|]. split; [eapply rep_mono; [|done]; lia|done].
Qed.

Lemma wp_rewrite c g F m gs bs Q :
  1 <= c -> g ∈ gs -> g_write g = true -> m !! g_page g = Some bs ->
  (forall bs, len bs = PAGE_SIZE -> len (F bs) = PAGE_SIZE) ->
  Q tt (<[g_page g := F bs]> m) gs -> wp c (rewrite_page g F) m gs Q.
Proof.
  intros Hc Hg Hw Hm HF HQ n s Hn R. apply list_elem_of_split in Hg as (l1 & l2 & ->).
  assert (P : l1 ++ g :: l2 ≡ₚ g :: l1 ++ l2) by (symmetry; apply Permutation_middle).
  apply (rep_perm _ _ _ _ _ _ P) in R.
  destruct (rewrite_law cap (n + c - 1) m g (l1 ++ l2) s bs F) as (s' & E & R');
    [by replace (n + c - 1 + 1) with (n + c) by lia|done..|].
  eexists tt, s', _, _. split; [done|]. split; [|exact HQ].
  eapply rep_perm; [symmetry; exact P|]. eapply rep_mono; [|done]. lia.
Qed.

Lemma wp_set_body c g (body : list byte) m gs bs Q :
  1 <= c -> g ∈ gs -> g_write g = true -> m !! g_page g = Some bs -> len body = PAGE_BODY_SIZE ->
  Q tt (<[g_page g := patch PAGE_HEADER_SIZE body bs]> m) gs -> wp c (set_body g body) m gs Q.
Proof. intros Hc Hg Hw Hm L HQ. eapply wp_rewrite; try done. intros. by apply length_set_body. Qed.

Lemma wp_set_header c g e m gs bs Q :
  1 <= c -> g ∈ gs -> g_write g = true -> m !! g_page g = Some bs ->
  Q tt (<[g_page g := edit_page e bs]> m) gs -> wp c (set_header g e) m gs Q.
Proof. intros Hc Hg Hw Hm HQ. eapply wp_rewrite; try done. intros. by apply length_edit_page. Qed.

(** A guard held over a block is the block's to use and is gone after it. *)
Lemma wp_scoped {A} c g (k : C S A) m gs Q :
  1 <= c ->
  wp (c - 1) k m gs (fun a m' gs' => exists gs0, gs' ≡ₚ g :: gs0 /\ Q a m' gs0) ->
  wp c (scoped g k) m gs Q.
Proof.
  intros Hc W. apply (wp_bind (c - 1)); [lia|]. eapply wp_mono; [reflexivity| |exact W].
  intros a m' gs' (gs0 & P & HQ). apply (wp_bind 1); [lia|]. eapply wp_drop; [lia|exact P|].
  apply wp_cret; [lia|done].
Qed.

Lemma wp_run {A} c (k : C S A) m gs Q n s :
  wp c k m gs Q -> 0 <= n -> rep cap (n + c) m gs s ->
  exists a s' m' gs', k s = Some (a, s') /\ rep cap n m' gs' s' /\ Q a m' gs'.
Proof. intros W. apply W. Qed.
End logic.

(** No open guard is on one of the pages [ps]. *)
Definition unlatched (gs : list PageGuard) (ps : list Z) : Prop := forall g, g ∈ gs -> g_page g ∉ ps.

Lemma unlatched_nil ps : unlatched [] ps.
Proof. intros g Hg. by apply elem_of_nil in Hg. Qed.

Lemma unlatched_admissible gs ps w p : unlatched gs ps -> p ∈ ps -> admissible w p gs.
Proof. intros U Hp g Hg <-. by destruct (U g Hg). Qed.

Lemma unlatched_sub gs ps ps' : unlatched gs ps -> (forall p, p ∈ ps' -> p ∈ ps) -> unlatched gs ps'.
Proof. intros U Hs g Hg Hp. by apply (U g Hg), Hs. Qed.

#[export] Hint Resolve unlatched_admissible : kern.
