(* ===== verification/PoolStore.v ===== *)
(** * The buffer pool implements the page store interface

    The operations are the pool's, the laws follow from the simulation of PoolRefineProofs.v. *)

From stdpp Require Import gmap.
From S2P Require Import Prelude Common DiskManager DiskProofs Replacer PoolIndex BufferPool.
From S2P Require Import BufferPoolProofs BufferPoolOps BufferPoolLifecycle PoolEpochs PoolSteady PoolRefine PoolRefineProofs BufferPoolTheorems PageStore.

Section pool_store.
Context {errno_text : ErrnoText} {host : Host}.

#[export] Instance pool_store : PageStore Pool := {|
  fetch w p := if w then FetchPageWrite p else FetchPageRead p;
  new_page := NewPage;
  delete_page := DeletePage;
  drop_guard g := bind (Drop g) (fun _ => ret tt);
  page_of g P := data (FrameAt (g_frame g) P);
  rewrite_page g F := update (g_frame g) (fun f => set_data (F (data f)) f)
|}.

(** The guards still open. *)
Definition open_of (gs : list PageGuard) : list PageGuard := filter (fun g => g_live g = true) gs.

(** The clients of the interface work over a file whose reads and writes do not fail. *)
#[local] Abbreviation sim := (@sim False).

Definition pool_rep (cap n : Z) (m : gmap Z (list byte)) (gs : list PageGuard) (P : Pool) : Prop :=
  capacity P = cap /\ steady false P /\
  exists os l hs, sim n (mkStore m os) (mkClient P hs) l /\ open_of hs ≡ₚ gs.

Lemma elem_of_open g gs : g ∈ open_of gs <-> g_live g = true /\ exists i, gs !! i = Some g.
Proof. unfold open_of. by rewrite list_elem_of_filter, list_elem_of_lookup. Qed.

Lemma open_of_app a b : open_of (a ++ b) = open_of a ++ open_of b.
Proof. apply filter_app. Qed.

Lemma open_of_cons g gs : open_of (g :: gs) = if g_live g then g :: open_of gs else open_of gs.
Proof. unfold open_of. rewrite filter_cons. by destruct (g_live g). Qed.

(** Closing one guard takes it off the list. *)
Lemma open_of_close gs i g g' :
  gs !! i = Some g -> g_live g = true -> g_live g' = false -> open_of gs ≡ₚ g :: open_of (<[i := g']> gs).
Proof.
  intros Hi Hl Hd. rewrite <- (take_drop_middle gs i g Hi) at 1. rewrite insert_take_drop by (by eapply lookup_lt_Some).
  rewrite !open_of_app, (open_of_cons g), (open_of_cons g'), Hl, Hd. by rewrite Permutation_middle.
Qed.

Lemma live_open os gs : os = handle_of <$> gs -> live os = len (open_of gs).
Proof.
  intros ->. unfold live, open_of. f_equal. induction gs as [|g gs IH]; [done|].
  rewrite fmap_cons, !filter_cons. cbn. case_decide; simpl; by rewrite IH.
Qed.

Lemma holder_open n m os P hs l w p :
  sim n (mkStore m os) (mkClient P hs) l -> 0 < holders w p os ->
  exists g, g ∈ open_of hs /\ g_page g = p /\ g_write g = w.
Proof.
  intros S H. destruct (holders_witness _ _ _ H) as (i & h & Hi & Hh). apply holds_true in Hh as (H1 & H2 & H3).
  pose proof (sim_opens _ _ _ _ S) as E. cbn in E. rewrite E, list_lookup_fmap in Hi.
  destruct (hs !! i) as [g|] eqn:Eg; [|done]. injection Hi as <-. cbn in *.
  exists g. split; [|done]. apply elem_of_open. eauto.
Qed.

Lemma no_holder n m os P hs l w p :
  sim n (mkStore m os) (mkClient P hs) l ->
  (forall g, g ∈ open_of hs -> g_page g = p -> g_write g <> w) -> holders w p os = 0.
Proof.
  intros S H. pose proof (holders_nonneg w p os). destruct (decide (0 < holders w p os)) as [Hp|]; [|lia].
  destruct (holder_open _ _ _ _ _ _ _ _ S Hp) as (g & Hg & H1 & H2). by destruct (H g Hg H1).
Qed.

Lemma last_handle os gs g h :
  os = handle_of <$> gs -> os ++ [h] = handle_of <$> (gs ++ [g]) -> handle_of g = h.
Proof. intros -> E. rewrite fmap_app in E. apply app_inj_2 in E as [_ E]; [|done]. cbn in E. congruence. Qed.

Lemma open_of_snoc gs g gs' : open_of gs ≡ₚ gs' -> g_live g = true -> open_of (gs ++ [g]) ≡ₚ g :: gs'.
Proof.
  intros E Hl. rewrite open_of_app. unfold open_of at 2. rewrite filter_cons, decide_True by done. simpl.
  rewrite E. symmetry. apply Permutation_cons_append.
Qed.

(** ** What a failed fetch reports *)

(** Whatever [m] returns, if it returns, satisfies [R]. *)
Definition yields {A} (R : A -> Prop) (m : M A) : Prop := forall P a P', m P = Some (a, P') -> R a.

Lemma yields_bind {A B} (R1 : A -> Prop) (R : B -> Prop) (m : M A) (k : A -> M B) :
  yields R1 m -> (forall a, R1 a -> yields R (k a)) -> yields R (bind m k).
Proof. intros Hm Hk P b P' E. unfold bind in E. destruct (m P) as [[a P1]|] eqn:E1; [|done]. by eapply Hk; [eapply Hm|]. Qed.

Lemma yields_any {A} (m : M A) : yields (fun _ => True) m.
Proof. by intros P a P' _. Qed.

Lemma yields_ret {A} (R : A -> Prop) a : R a -> yields R (ret a).
Proof. by intros Ha P b P' [= <- <-]. Qed.

Lemma yields_stuck {A} (R : A -> Prop) : yields R stuck.
Proof. by intros P a P' E. Qed.

Definition not_missing (s : Status) : Prop := code s <> kNotFound.
Definition fails_with_other {A} (r : Result A) : Prop := forall e, r = Error e -> not_missing e.

Lemma access_other p d : not_missing (validate_page_access p d).
Proof. unfold validate_page_access. by repeat case_match. Qed.

Lemma full_read_other evs off size acc f : not_missing (full_read_loop evs off size acc f).1.1.
Proof. revert acc. induction evs as [|[] evs IH]; intros acc; cbn; repeat case_match; done || apply IH. Qed.

Lemma full_write_other evs off (buf : list byte) n f : not_missing (full_write_loop evs off buf n f).1.1.
Proof. revert n f. induction evs as [|[] evs IH]; intros n f; cbn; repeat case_match; done || apply IH. Qed.

#[local] Transparent full_read full_write.

Lemma ReadPage_other p out d : not_missing (ReadPage p out d).1.1.
Proof.
  unfold ReadPage. case_match; [apply access_other|]. unfold full_read.
  pose proof (full_read_other (events d) (PageOffset p) (len out) [] (file d)). by destruct (full_read_loop _ _ _ _ _) as [[] ?].
Qed.

Lemma WritePage_other p (inp : list byte) d : not_missing (WritePage p inp d).1.
Proof.
  unfold WritePage. case_match; [apply access_other|]. unfold full_write.
  pose proof (full_write_other (events d) (PageOffset p) inp 0 (file d)). by destruct (full_write_loop _ _ _ _ _) as [[] ?].
Qed.

Ltac yield_step :=
  match goal with
  | |- yields _ (bind _ _) => eapply (yields_bind (fun _ => True)); [apply yields_any|intros ? _]
  | |- yields _ (ret _) => apply yields_ret
  | |- yields _ stuck => apply yields_stuck
  | |- yields _ (if ?b then _ else _) => destruct b
  | |- yields _ (match ?x with _ => _ end) => destruct x
  end.

Lemma on_disk_other {A} (g : Disk -> A * Disk) (R : A -> Prop) : (forall d, R (g d).1) -> yields R (on_disk g).
Proof. intros H P a P' E. unfold on_disk in E. specialize (H (disk P)). destruct (g (disk P)) as [b d]. by injection E as <- <-. Qed.

Lemma FlushFrame_other f p : yields not_missing (FlushFrame f p).
Proof.
  unfold FlushFrame. yield_step. yield_step; [yield_step; done|]. do 2 yield_step.
  eapply yields_bind; [apply on_disk_other, WritePage_other|]. intros st Hst. by repeat yield_step.
Qed.

Lemma ReclaimFrame_other n : yields fails_with_other (ReclaimFrame_loop n).
Proof.
  induction n as [|n IH]; [apply yields_stuck|]. cbn [ReclaimFrame_loop]. yield_step.
  destruct (Evict _ _) as [[v|] r]; yield_step; [|yield_step; by intros e [= <-]].
  yield_step. do 2 (yield_step; [done|]). yield_step; [do 2 yield_step; done|]. yield_step.
  eapply yields_bind; [apply FlushFrame_other|]. intros st Hst. yield_step; [do 2 yield_step; by intros e [= <-]|].
  yield_step. yield_step; [by repeat yield_step|]. by yield_step.
Qed.

Lemma FetchFrame_load_other f p : yields fails_with_other (FetchFrame_load f p).
Proof.
  unfold FetchFrame_load. do 3 yield_step.
  eapply (yields_bind (fun r : Status * list byte => not_missing r.1)).
  { apply on_disk_other. intros d. pose proof (ReadPage_other p (data a1) d). by destruct (ReadPage p (data a1) d) as [[]]. }
  intros [st bytes] Hst. cbn in Hst. yield_step. yield_step; [yield_step; yield_step; by intros e [= <-]|].
  cbv zeta. destruct (bool_decide (ph_page_type _ = FREE)); cbn [orb]; [do 2 yield_step; by intros e [= <-]|].
  yield_step; do 2 yield_step; [by intros e [= <-]|]. by yield_step.
Qed.

Lemma FetchFrame_loop_other n p : yields fails_with_other (FetchFrame_loop n p).
Proof.
  induction n as [|n IH]; [apply yields_stuck|]. cbn [FetchFrame_loop]. yield_step. destruct (Find p _) as [f|].
  - unfold FetchFrame_hit. do 2 yield_step. destruct (state _); repeat yield_step; intros e; try done; by intros [= <-].
  - eapply (yields_bind fails_with_other).
    { unfold AcquireFrame. yield_step. destruct (TryPop _) as [[v|] l]; yield_step; [by yield_step|].
      unfold ReclaimFrame. yield_step. apply ReclaimFrame_other. }
    intros [f|e] Hr; [|by yield_step]. yield_step. destruct (Find p _); [by yield_step|apply FetchFrame_load_other].
Qed.

Lemma FetchPage_other w p P e P' : FetchPage w p P = Some (Error e, P') -> code e <> kNotFound.
Proof.
  assert (Y : yields fails_with_other (FetchFrame p)).
  { unfold FetchFrame. yield_step; [yield_step; by intros ? [= <-]|apply FetchFrame_loop_other]. }
  assert (yields fails_with_other (FetchPage w p)) as Yp; [|intros E; by eapply Yp].
  destruct w; (eapply yields_bind; [exact Y|]); intros [f|s] Hr; repeat yield_step; intros ?; try done; intros [= <-]; by apply Hr.
Qed.

Lemma pool_fetch_law cap n m gs P w p :
  pool_rep cap (n + 1) m gs P -> fetchable p -> admissible w p gs ->
  exists r P', fetch w p P = Some (r, P') /\
    match r with
    | Ok g => g_page g = p /\ g_write g = w /\ is_Some (m !! p) /\ pool_rep cap n m (g :: gs) P'
    | Error e => (ok e = false /\ code e <> kNotFound) /\ pool_rep cap n m gs P' /\
        (forall bs, m !! p = Some bs -> loadable p bs -> cap <= len gs)
    end.
Proof.
  intros (Hc & Hd0 & os & l & hs & S & Hg) Np Ad.
  destruct (step_fetch n _ _ _ w p S) as (out & c' & s' & l' & E & Cp & Sp & S').
  { split; [done|]. split; [eapply no_holder; [exact S|]|intros ->; eapply no_holder; [exact S|]];
      intros g Hin Hp; rewrite Hg in Hin; destruct (Ad g Hin Hp) as [W1 W2]; congruence. }
  cbn [exec opening pool] in E. unfold opening in E. cbn [pool held] in E.
  change (fetch w p P) with (FetchPage w p P).
  destruct (FetchPage w p P) as [[[g|e] P']|] eqn:Ef; [| |done]; destruct (steadies_FetchPage w p _ _ _ _ Ef Hd0) as [Hd1 _]; injection E as <- <-; inversion Sp; subst; try done; cbn [pages opens pool] in *.
  - exists (Ok g), P'. split; [done|]. pose proof (last_handle _ _ _ _ (sim_opens _ _ _ _ S) (sim_opens _ _ _ _ S')) as Hh.
    injection Hh as Hw Hl.
    split; [done|]. split; [done|]. split; [by eexists|]. split; [done|]. split; [done|].
    eexists _, l', _. split; [exact S'|]. by apply open_of_snoc.
  - exists (Error e), P'. split; [done|]. split; [split; [done|by eapply FetchPage_other]|]. split.
    + split; [done|]. split; [done|]. by eexists os, l', hs.
    + intros bs Hm Hl. rewrite <- (Permutation_length Hg), <- (live_open os) by apply (sim_opens _ _ _ _ S). eauto.
Qed.

Lemma pool_new_law cap n m gs P :
  pool_rep cap (n + 1) m gs P -> 0 <= n ->
  exists r P', new_page P = Some (r, P') /\
    match r with
    | Ok g => m !! g_page g = None /\ 2 <= g_page g /\ g_write g = true /\
        pool_rep cap n (<[g_page g := fresh_page (g_page g)]> m) (g :: gs) P'
    | Error e => ok e = false /\ pool_rep cap n m gs P' /\ cap <= len gs
    end.
Proof.
  intros (Hc & Hd0 & os & l & hs & S & Hg) Hn.
  destruct (step_new n _ _ _ S Hn) as [(out & c' & s' & l' & E & Cp & Sp & S')|(? & ? & _ & [] & _)].
  unfold exec, opening in E. cbn [pool held] in E. change (new_page P) with (NewPage P).
  destruct (NewPage P) as [[[g|e] P']|] eqn:Ef; [| |done]; destruct (steadies_NewPage _ _ _ _ Ef Hd0) as [Hd1 _]; injection E as <- <-; inversion Sp; subst; try done; cbn [pages opens pool] in *.
  - exists (Ok g), P'. split; [done|]. pose proof (last_handle _ _ _ _ (sim_opens _ _ _ _ S) (sim_opens _ _ _ _ S')) as Hh.
    injection Hh as Hw Hl.
    split; [done|]. split; [done|]. split; [done|]. split; [done|]. split; [done|].
    eexists _, l', _. split; [exact S'|]. by apply open_of_snoc.
  - exists (Error e), P'. split; [done|]. split; [done|]. split; [split; [done|]; split; [done|]; by eexists os, l', hs|].
    rewrite <- (Permutation_length Hg), <- (live_open os) by apply (sim_opens _ _ _ _ S). done.
Qed.

Lemma pool_delete_law cap n m gs P p :
  pool_rep cap (n + 1) m gs P ->
  exists st P', delete_page p P = Some (st, P') /\
    ((st = StatusOK /\ (forall g, g ∈ gs -> g_page g <> p) /\ pool_rep cap n (delete p m) gs P') \/
     (code st = kInvalidArgument /\ pool_rep cap n m gs P' /\
      (m !! p = None \/ exists g, g ∈ gs /\ g_page g = p))).
Proof.
  intros (Hc & Hd0 & os & l & hs & S & Hg).
  destruct (step_delete n _ _ _ p S) as [(out & c' & s' & l' & E & Cp & Sp & S')|(? & ? & _ & [] & _)].
  unfold exec, status in E. cbn [pool held] in E. change (delete_page p P) with (DeletePage p P).
  destruct (DeletePage p P) as [[st P']|] eqn:Ef; [|done]; destruct (steadies_DeletePage p _ _ _ _ Ef Hd0) as [Hd1 _]; injection E as <- <-. exists st, P'. split; [done|].
  inversion Sp; subst; try done; cbn [pages opens pool] in *.
  - left. split; [done|]. split.
    + intros g Hin Hp. rewrite <- Hg in Hin. apply elem_of_open in Hin as (Hl & i & Hi).
      destruct (held_holders _ _ _ _ _ _ S Hi Hl) as (_ & Hpos & _). cbn in Hpos. rewrite Hp in Hpos. destruct (g_write g); lia.
    + split; [done|]. split; [done|]. by eexists os, l', hs.
  - right. split; [done|]. split; [split; [done|]; split; [done|]; by eexists os, l', hs|].
    match goal with H : _ \/ _ |- _ => destruct H as [H|H]; [by left|right] end.
    assert (exists w, 0 < holders w p os) as [w Hw].
    { destruct (decide (0 < holders true p os)); [by exists true|exists false; pose proof (holders_nonneg true p os); lia]. }
    destruct (holder_open _ _ _ _ _ _ _ _ S Hw) as (g & Hin & Hp & _). exists g. by rewrite <- Hg.
Qed.

Lemma pool_drop_law cap n m g gs P :
  pool_rep cap (n + 1) m (g :: gs) P -> 0 <= n ->
  exists P', drop_guard g P = Some (tt, P') /\ pool_rep cap n m gs P'.
Proof.
  intros (Hc & Hd0 & os & l & hs & S & Hg) Hn.
  assert (g ∈ open_of hs) as Hin by (rewrite Hg; by left). apply elem_of_open in Hin as (Hl & i & Hi).
  destruct (held_holders _ _ _ _ _ _ S Hi Hl) as (Ho & _).
  destruct (step_drop n _ _ _ i S Hn) as (out & c' & s' & l' & E & Cp & Sp & S'); [by eexists|].
  unfold exec in E. cbn [pool held] in *. rewrite Hi in E.
  change (drop_guard g P) with (bind (Drop g) (fun _ => ret tt) P). unfold bind.
  destruct (Drop g P) as [[g' P']|] eqn:Ed; [|done]. destruct (steadies_Drop g _ _ _ _ Ed Hd0) as [Hd1 _]. injection E as <- <-. exists P'. split; [done|].
  assert (Hd : g_live g' = false).
  { revert Ed. unfold Drop. rewrite Hl. cbn [negb]. unfold bind.
    repeat match goal with |- context [match ?x with Some _ => _ | None => _ end] => destruct x as [[[] ?]|]; [|done] end.
    unfold ret. by intros [= <- _]. }
  inversion Sp; subst; try done; cbn [pages opens pool] in *. split; [done|]. split; [done|].
  eexists _, l', _. split; [exact S'|]. apply (Permutation_cons_inv (a := g)). rewrite <- Hg. symmetry. by apply open_of_close.
Qed.

Lemma pool_rewrite_law cap n m g gs P bs F :
  pool_rep cap (n + 1) m (g :: gs) P -> g_write g = true -> m !! g_page g = Some bs ->
  (forall bs, len bs = PAGE_SIZE -> len (F bs) = PAGE_SIZE) ->
  exists P', rewrite_page g F P = Some (tt, P') /\ pool_rep cap n (<[g_page g := F bs]> m) (g :: gs) P'.
Proof.
  intros (Hc & Hd0 & os & l & hs & S & Hg) Hw Hm HF.
  assert (g ∈ open_of hs) as Hin by (rewrite Hg; by left). apply elem_of_open in Hin as (Hl & i & Hi).
  destruct (held_holders _ _ _ _ _ _ S Hi Hl) as (Ho & _).
  destruct (step_write n _ _ _ i _ (fun g => update (g_frame g) (fun f => set_data (F (data f)) f)) F S Ho Hl Hw)
    as (bs' & c' & E & Cp & Hp & S'); [done|done|].
  unfold writing in E. cbn [pool held] in *. rewrite Hi in E. change (rewrite_page g F P) with (update (g_frame g) (fun f => set_data (F (data f)) f) P).
  destruct (update _ _ P) as [[[] P']|] eqn:Eu; [|done]. destruct (steadies_update (g_frame g) (fun f => set_data (F (data f)) f) ltac:(intros fr L; by apply HF) _ _ _ _ Eu Hd0) as [Hd1 _]. injection E as <-. exists P'. split; [done|].
  cbn in Hp, S'. rewrite Hm in Hp. injection Hp as <-. cbn in Cp. split; [congruence|]. split; [done|]. by eexists os, l, hs.
Qed.

(** Two more calls of the pool, for a client that holds no guard. *)
Lemma pool_flush_law cap n m P p :
  pool_rep cap (n + 1) m [] P -> exists P', FlushPage p P = Some (StatusOK, P') /\ pool_rep cap n m [] P'.
Proof.
  intros (Hc & Hd0 & os & l & hs & S & Hg).
  destruct (step_flush n _ _ _ p S) as (out & c' & s' & l' & E & Cp & Sp & S').
  { eapply no_holder; [exact S|]. intros g Hin. rewrite Hg in Hin. by apply elem_of_nil in Hin. }
  unfold exec, status in E. cbn [pool held] in E. destruct (FlushPage p P) as [[st P']|] eqn:Ef; [|done].
  destruct (steadies_FlushPage p _ _ _ _ Ef Hd0) as [Hd1 _]. injection E as <- <-. inversion Sp; subst; try done; cbn [pages opens pool] in *.
  exists P'. split; [done|]. split; [done|]. split; [done|]. by eexists os, l', hs.
Qed.

Lemma pool_flush_all_law cap n m P :
  pool_rep cap (n + 1) m [] P -> exists P', FlushAllPages P = Some (StatusOK, P') /\ pool_rep cap n m [] P'.
Proof.
  intros (Hc & Hd0 & os & l & hs & S & Hg).
  destruct (step_flush_all n _ _ _ S) as (out & c' & s' & l' & E & Cp & Sp & S').
  { intros p. eapply no_holder; [exact S|]. intros g Hin. rewrite Hg in Hin. by apply elem_of_nil in Hin. }
  unfold exec, status in E. cbn [pool held] in E. destruct (FlushAllPages P) as [[st P']|] eqn:Ef; [|done].
  destruct (steadies_FlushAllPages _ _ _ _ Ef Hd0) as [Hd1 _]. injection E as <- <-. inversion Sp; subst; try done; cbn [pages opens pool] in *.
  exists P'. split; [done|]. split; [done|]. split; [done|]. by eexists os, l', hs.
Qed.

(** The start of a client: the pages of the file. *)
Lemma pool_rep_new cap n d l :
  disk_ok d l -> snug d -> 0 < cap < 2 ^ 31 -> 0 <= n -> page_count d + n < 2 ^ 31 - 1 ->
  pool_rep cap n (pages (store_of d l)) [] (new_Pool d cap).
Proof.
  intros D Sn Hc Hn Hb. split; [unfold capacity, new_Pool; cbn [frames]; rewrite length_replicate; lia|]. split; [by apply steady_new|].
  exists [], l, []. split; [|done]. apply (new_Pool_sim False d l n cap D (or_intror (sn_quiet _ Sn)) Hc Hn Hb).
Qed.

(** With no guard open, nothing is pinned. *)
Lemma pool_quiesced cap n m P : pool_rep cap n m [] P -> Quiesced P = true.
Proof.
  intros (Hc & Hd0 & os & l & hs & S & Hg). pose proof (sim_pool _ _ _ _ S) as K. cbn [pool] in K.
  apply forallb_forall. intros fr Hin%list_elem_of_In. apply list_elem_of_lookup in Hin as [i Hi].
  assert (Ei : FrameAt (Z.of_nat i) P = fr) by (unfold FrameAt; rewrite Nat2Z.id; by apply list_lookup_total_correct).
  assert (Hf : 0 <= Z.of_nat i < capacity P) by (apply lookup_lt_Some in Hi; unfold capacity; lia).
  destruct (pk_frames _ _ _ K _ Hf) as (_ & _ & _ & X). rewrite Ei in X. destruct (state fr); try done.
  - by destruct X as [-> _].
  - destruct X as (_ & Ff & _). pose proof (sim_pins _ _ _ _ S (page_id fr)) as Pn. unfold pins in Pn. cbn [pool opens] in Pn. rewrite Ff, Ei in Pn.
    rewrite !(no_holder _ _ _ _ _ _ _ _ S) in Pn by (intros g Hin; rewrite Hg in Hin; by apply elem_of_nil in Hin). by rewrite Pn.
Qed.

(** The statistics of a pool no guard is open on. *)
Lemma pool_stats_law cap n m P :
  pool_rep cap n m [] P ->
  exists r, 0 <= r <= cap /\ GetStats P = mkPoolStats cap (cap - r) 0 r 0 0 (cap - r) r /\
    forall p, is_Some (m !! p) -> p < PageCount (disk P).
Proof.
  intros R. pose proof (pool_quiesced _ _ _ _ R) as Q. destruct R as (Hc & _ & os & l & hs & S & _). pose proof (sim_pool _ _ _ _ S) as K. cbn [pool] in K.
  destruct (pool_stats_consistent l P K) as (E1 & E2 & E3 & E4 & E5).
  assert (Np : pinned_frames (GetStats P) = 0).
  { cbn. apply count_none, Forall_forall. intros fr Hin. unfold Quiesced in Q. rewrite forallb_forall in Q.
    specialize (Q fr (proj1 (list_elem_of_In _ _) Hin)). apply andb_true_iff in Q as [Q%Z.eqb_eq _]. by rewrite Q. }
  assert (Ec : st_capacity (GetStats P) = cap) by done. exists (resident_frames (GetStats P)).
  assert (Hr : forall q fs, 0 <= count_frames q fs) by (intros; unfold count_frames; lia).
  assert (0 <= free_frames (GetStats P) /\ 0 <= resident_frames (GetStats P)) as [H1 H2] by (split; apply Hr).
  split; [lia|]. split.
  - destruct (GetStats P) as [a b c d e f g h]; cbn in *. f_equal; lia.
  - intros p [bs Hm]. destruct (sim_pages _ _ _ _ S p bs Hm) as (Hp & _). cbn [pool] in Hp. unfold PageCount. lia.
Qed.

(** The end of a client: every page it has is in the file, which a new manager can open, and
    the destructor has nothing left to do. *)
Lemma pool_shutdown_law cap n m P :
  pool_rep cap n m [] P ->
  exists P' l, Shutdown true P = Some (StatusOK, P') /\ (forall b, Destroy b P' = Some (tt, P')) /\
    disk_ok (disk P') l /\ snug (disk P') /\ page_count (disk P') + n < 2 ^ 31 - 1 /\
    forall p bs, m !! p = Some bs -> 2 <= p < page_count (disk P') /\ (p ∉ l) /\ page_bytes p (file (disk P')) = bs.
Proof.
  intros R. pose proof (pool_quiesced _ _ _ _ R) as Q. destruct R as (Hc & Hd0 & os & l & hs & S & Hg). pose proof (sim_pool _ _ _ _ S) as K. cbn [pool] in K.
  assert (Nw : forall p, holders true p os = 0).
  { intros p. eapply no_holder; [exact S|]. intros g Hin. rewrite Hg in Hin. by apply elem_of_nil in Hin. }
  destruct (Shutdown_spec l P true K (st_down _ _ Hd0)) as (st & P' & E & Sd & K' & _ & Pc & D & Ff & _).
  { rewrite Q. by destruct ndebug. }
  { intros f Hf Df. destruct (pk_frames _ _ _ K f Hf) as (_ & _ & _ & X).
    destruct (state (FrameAt f P)); try done; [by destruct X as (_ & _ & X & _)|]. destruct X as (_ & F & _). eapply (sim_flushable _ _ _ _ _ _ S); [exact F|apply Nw]. }
  destruct (sim_quiet _ _ _ _ S) as [[]|Q0]. specialize (Ff Q0 eq_refl). subst st. destruct (D eq_refl) as [_ Dp]. exists P', l. split; [done|].
  split; [intros b; unfold Destroy, bind, get; by rewrite Sd|]. split; [apply K'|]. split; [apply (steady_Shutdown _ _ _ _ E Hd0)|].
  split; [rewrite Pc; apply (sim_budget _ _ _ _ S)|].
  intros p bs Hm. destruct (sim_pages _ _ _ _ S p bs Hm) as (Hp & Nl & Ct). cbn [pool] in *. rewrite Pc. split; [done|]. split; [done|]. rewrite <- Ct. apply Dp; [lia|].
  pose proof (sim_latch _ _ _ _ S p) as L. cbn [pool opens] in L. rewrite L, Nw. done.
Qed.

(** The buffer pool is a page store. *)
#[export] Instance pool_store_laws : PageStoreLaws Pool.
Proof.
  refine {| rep := pool_rep; can_fetch := fetchable; can_fetch_page := fetchable_page; fetch_law := pool_fetch_law; new_law := pool_new_law; delete_law := pool_delete_law;
            drop_law := pool_drop_law; rewrite_law := pool_rewrite_law |}.
  - intros cap n n' m gs P Hn (Hc & Hd0 & os & l & hs & S & Hg). split; [done|]. split; [done|]. exists os, l, hs. split; [by eapply sim_mono|done].
  - intros cap n m gs gs' P Hp (Hc & Hd0 & os & l & hs & S & Hg). split; [done|]. split; [done|]. exists os, l, hs. split; [done|by rewrite Hg].
  - intros cap n m gs P g (Hc & _ & os & l & hs & S & Hg) Hin. rewrite <- Hg in Hin. apply elem_of_open in Hin as (Hl & i & Hi).
    destruct (held_holders _ _ _ _ _ _ S Hi Hl) as (Ho & _).
    destruct (held_page _ _ _ _ _ _ S Ho Hl) as (f & bs & Hf & Hp & PS). cbn in *. rewrite Hp. f_equal.
    destruct (page_state_inv _ _ _ _ _ _ PS) as (_ & Hd & _). rewrite Hi in Hf. injection Hf as Hf. rewrite Hf. cbn. done.
  - intros cap n m gs P p bs (Hc & _ & os & l & hs & S & Hg) Hm.
    destruct (sim_pages _ _ _ _ S p bs Hm) as (Hp & Nl & Ct). cbn [pool] in *.
    pose proof (sim_pool _ _ _ _ S) as K. cbn in K. destruct (dok_file _ _ (pk_disk _ _ _ K)) as [B L _ _ _]. split; [|lia].
    subst bs. unfold content. destruct (Find p (page_table P)) as [f|] eqn:Ff.
    + by destruct (mapped_frame _ _ _ _ _ K Ff) as (_ & _ & _ & _ & _ & (Ld & _)).
    + apply (length_page_bytes _ (page_count (disk P))); [lia|done].
Defined.
End pool_store.
