(* ===== verification/TableHeap.v ===== *)
(** * Table heap: src/src/heap/table_heap.hpp, table_heap.cpp

    A table is a chain of heap pages linked by [next_page_id].  The operations are client
    code of the page store interface of PageStore.v: they fetch a page, work on its body
    through [HeapPage] and let the guard go at the end of its scope.  The atomics
    [last_page_id_] and [insert_hint_] are fields of the record, each operation is run by one
    thread, and the table it leaves is returned beside its result.  The assertions inside heap
    pages are not repeated here: HeapPageTheorems.v shows that they hold.

    Fuel bounds the two unbounded page walks (the append loop of [Insert] and the page loop
    of [Next]); running out is [None], and TableHeapTheorems.v shows that one unit more than
    the pages of the chain is enough. *)

From S2P Require Import Prelude Common HeapPage BufferPool PoolRefine PageStore.

(** ** The table *)

Record TableHeap := mkTableHeap {
  first_page_id : Z;
  last_page_id : Z;
  insert_hint : Z
}.

Definition new_TableHeap (first last : Z) : TableHeap := mkTableHeap first last first.
Definition set_hint (p : Z) (H : TableHeap) : TableHeap :=
  mkTableHeap (first_page_id H) (last_page_id H) p.
Definition set_last (p : Z) (H : TableHeap) : TableHeap :=
  mkTableHeap (first_page_id H) p (insert_hint H).
Definition FirstPageId (H : TableHeap) : Z := first_page_id H.
Definition LastPageId (H : TableHeap) : Z := last_page_id H.

Definition INSERT_PROBE_LIMIT : nat := 4.
Definition COMPACT_THRESHOLD : Z := PAGE_BODY_SIZE / 8.

(** ** The scan *)

Record TableIterator := mkTableIterator {
  guard_ : option PageGuard;
  initialized_ : bool;
  page_id_ : Z;
  slot_ : Z;
  tuple_ : list byte
}.

Definition Scan (H : TableHeap) : TableIterator := mkTableIterator None false (first_page_id H) 0 [].
Definition Rid (it : TableIterator) : RID := mkRID (page_id_ it) (slot_ it).
Definition Tuple (it : TableIterator) : list byte := tuple_ it.

(** The [for] loop over the slots of one page, from [slot]: what stopped it and where.  One
    iteration more than the slot count is enough, since a slot id is below it. *)
Fixpoint Next_slots (n : nat) (slot : Z) (body : list byte) : option (Result (list byte)) * Z :=
  match n with
  | O => (None, slot)
  | S n =>
      if slot <? SlotCount body then
        if IsDead (SlotAt slot body) then Next_slots n (u16 (slot + 1)) body
        else (Some (Get slot body), slot)
      else (None, slot)
  end.

(** What a block that may [return] or [continue] with the next page leaves. *)
Inductive Flow (A : Type) := Return (a : A) | Continue (page_id : Z).
Arguments Return {A} a.
Arguments Continue {A} page_id.

Section table_heap.
Context {host : Host} {S : Type} `{!PageStore S}.
Open Scope client_scope.

Definition Create : C S (Result TableHeap) :=
  do first_page <- new_page ;
  match first_page with
  | Error e => cret (Error e)
  | Ok g =>
      scoped g (
        set_header g (EType HEAP) ;;;
        set_header g (ENext INVALID_PAGE) ;;;
        do page <- bytes_of g ;
        match AsHeapPage page with
        | Error e => cret (Error e)
        | Ok body => set_body g (Init body) ;;; cret (Ok (new_TableHeap (g_page g) (g_page g)))
        end)
  end.

Definition Open (first last : Z) : C S (Result TableHeap) := cret (Ok (new_TableHeap first last)).

(** [Ok None]: this page cannot take the tuple and the caller should look elsewhere. *)
Definition TryInsertOnPage (tuple : list byte) (compact_threshold : Z) (body : list byte)
    : Result (option Z) * list byte :=
  let need := len tuple + SLOT_SIZE in
  let place body :=
    let '(slot, body') := HeapPage.Insert tuple body in
    match slot with
    | Error e => (if decide (code e = kPageFull) then Ok None else Error e, body')
    | Ok s => (Ok (Some s), body')
    end in
  if Contiguous body <? need then
    if Reclaimable body <? need then (Ok None, body)
    else if dead_bytes (Header body) <? compact_threshold then (Ok None, body)
    else place (Compact body)
  else place body.

(** The rotating cursor: at most [probes] more pages, from [page_id].  [None]: no page took
    the tuple. *)
Fixpoint Insert_probe (probes : nat) (page_id : Z) (from_hint : bool) (tuple : list byte) (H : TableHeap)
    : C S (option (Result RID) * TableHeap) :=
  match probes with
  | O => cret (None, H)
  | Datatypes.S probes =>
      if page_id =? INVALID_PAGE then cret (None, H)
      else
        let hint_recoverable := from_hint && negb (page_id =? first_page_id H) in
        do guard <- fetch true page_id ;
        match guard with
        | Error e =>
            if negb hint_recoverable then cret (Some (Error e), H)
            else Insert_probe probes (first_page_id H) false tuple H
        | Ok g =>
            do flow <- scoped g (
              do page <- bytes_of g ;
              match AsHeapPage page with
              | Error e =>
                  if negb hint_recoverable then cret (Return (Error e), H)
                  else cret (Continue (first_page_id H), H)
              | Ok body =>
                  let '(slot, body) := TryInsertOnPage tuple COMPACT_THRESHOLD body in
                  set_body g body ;;;
                  match slot with
                  | Error e => cret (Return (Error e), H)
                  | Ok (Some s) => cret (Return (Ok (mkRID page_id s)), set_hint page_id H)
                  | Ok None =>
                      do h <- header_of g ;
                      let next := ph_next_page_id h in
                      let page_id := if next =? INVALID_PAGE then first_page_id H else next in
                      cret (Continue page_id, set_hint page_id H)
                  end
              end) ;
            match flow with
            | (Return r, H) => cret (Some r, H)
            | (Continue page_id, H) => Insert_probe probes page_id false tuple H
            end
        end
  end.

(** The end of the append loop's body: link a new page behind [last_guard]'s. *)
Definition Insert_extend (last_guard : PageGuard) (tuple : list byte) (H : TableHeap)
    : C S (Flow (Result RID) * TableHeap) :=
  do new_guard <- new_page ;
  match new_guard with
  | Error e => cret (Return (Error e), H)
  | Ok ng =>
      scoped ng (
        set_header ng (EType HEAP) ;;;
        set_header ng (ENext INVALID_PAGE) ;;;
        do page <- bytes_of ng ;
        match AsHeapPage page with
        | Error e => cret (Return (Error e), H)
        | Ok body =>
            let body := Init body in
            let '(new_slot, body) := HeapPage.Insert tuple body in
            set_body ng body ;;;
            match new_slot with
            | Error e => cret (Return (Error e), H)
            | Ok s =>
                let new_id := g_page ng in
                set_header last_guard (ENext new_id) ;;;
                cret (Return (Ok (mkRID new_id s)), set_hint new_id (set_last new_id H))
            end
        end)
  end.

Fixpoint Insert_append (fuel : nat) (last_id : Z) (tuple : list byte) (H : TableHeap)
    : C S (Result RID * TableHeap) :=
  match fuel with
  | O => fun _ => None
  | Datatypes.S fuel =>
      do last_guard <- fetch true last_id ;
      match last_guard with
      | Error e => cret (Error e, H)
      | Ok g =>
          do flow <- scoped g (
            do h <- header_of g ;
            let next := ph_next_page_id h in
            if negb (next =? INVALID_PAGE) then cret (Continue next, H)
            else
              do page <- bytes_of g ;
              match AsHeapPage page with
              | Error e => cret (Return (Error e), H)
              | Ok body =>
                  let '(slot, body) := TryInsertOnPage tuple 0 body in
                  set_body g body ;;;
                  match slot with
                  | Error e => cret (Return (Error e), H)
                  | Ok (Some s) => cret (Return (Ok (mkRID last_id s)), set_hint last_id H)
                  | Ok None => Insert_extend g tuple H
                  end
              end) ;
          match flow with
          | (Return r, H) => cret (r, H)
          | (Continue next, H) => Insert_append fuel next tuple H
          end
      end
  end.

Definition Insert (fuel : nat) (tuple : list byte) (H : TableHeap) : C S (Result RID * TableHeap) :=
  if len tuple =? 0 then cret (Error (InvalidArgument "cannot insert a zero-length tuple"), H)
  else if MAX_TUPLE_SIZE <? len tuple then
    cret (Error (InvalidArgument "tuple exceeds the maximum tuple size"), H)
  else
    let page_id := if insert_hint H =? INVALID_PAGE then first_page_id H else insert_hint H in
    do probed <- Insert_probe INSERT_PROBE_LIMIT page_id true tuple H ;
    match probed with
    | (Some r, H) => cret (r, H)
    | (None, H) => Insert_append fuel (last_page_id H) tuple H
    end.

Definition Get (rid : RID) : C S (Result (list byte)) :=
  do page <- fetch false (rid_page_id rid) ;
  match page with
  | Error e => cret (Error e)
  | Ok g =>
      scoped g (
        do page <- bytes_of g ;
        match AsHeapPage page with
        | Error e => cret (Error e)
        | Ok body => cret (HeapPage.Get (rid_slot rid) body)
        end)
  end.

Definition Delete (rid : RID) (H : TableHeap) : C S (Status * TableHeap) :=
  do page <- fetch true (rid_page_id rid) ;
  match page with
  | Error e => cret (e, H)
  | Ok g =>
      scoped g (
        do page <- bytes_of g ;
        match AsHeapPage page with
        | Error e => cret (e, H)
        | Ok body =>
            let '(st, body) := HeapPage.Delete (rid_slot rid) body in
            set_body g body ;;;
            cret (st, if ok st then set_hint (rid_page_id rid) H else H)
        end)
  end.

Definition Update (fuel : nat) (rid : RID) (tuple : list byte) (H : TableHeap)
    : C S (Result RID * TableHeap) :=
  do page <- fetch true (rid_page_id rid) ;
  match page with
  | Error e => cret (Error e, H)
  | Ok g =>
      do outcome <- scoped g (
        do page <- bytes_of g ;
        match AsHeapPage page with
        | Error e => cret (Error e)
        | Ok body =>
            let '(updated, body) := HeapPage.Update (rid_slot rid) tuple body in
            set_body g body ;;; cret updated
        end) ;
      match outcome with
      | Error e => cret (Error e, H)
      | Ok kSamePage => cret (Ok rid, H)
      | Ok kDoesNotFit =>
          do inserted <- Insert fuel tuple H ;
          match inserted with
          | (Error e, H) => cret (Error e, H)
          | (Ok new_rid, H) =>
              do (removed, H) <- Delete rid H ;
              if negb (ok removed) && bool_decide (code removed <> kNotFound) then
                cret (Error (Internal "update relocated the row but could not remove the original; it is now duplicated"), H)
              else cret (Ok new_rid, H)
          end
      end
  end.

(** The [while] loop of [Next]. *)
Fixpoint Next_pages (fuel : nat) (it : TableIterator) : C S (Result bool * TableIterator) :=
  match fuel with
  | O => fun _ => None
  | Datatypes.S fuel =>
      if page_id_ it =? INVALID_PAGE then cret (Ok false, it)
      else
        do page <- match guard_ it with Some g => cret (Ok g) | None => fetch false (page_id_ it) end ;
        match page with
        | Error e => cret (Error e, it)
        | Ok g =>
            let held slot tuple := mkTableIterator (Some g) (initialized_ it) (page_id_ it) slot tuple in
            do page <- bytes_of g ;
            match AsHeapPage page with
            | Error e => cret (Error e, held (slot_ it) (tuple_ it))
            | Ok body =>
                let '(found, slot) :=
                  if 0 <? LiveCount body then Next_slots (1 + Z.to_nat (SlotCount body)) (slot_ it) body
                  else (None, slot_ it) in
                match found with
                | Some (Error e) => cret (Error e, held slot (tuple_ it))
                | Some (Ok bytes) => cret (Ok true, held slot bytes)
                | None =>
                    do h <- header_of g ;
                    drop_guard g ;;;
                    Next_pages fuel (mkTableIterator None (initialized_ it) (ph_next_page_id h) 0 (tuple_ it))
                end
            end
        end
  end.

Definition Next (fuel : nat) (it : TableIterator) : C S (Result bool * TableIterator) :=
  if page_id_ it =? INVALID_PAGE then cret (Ok false, it)
  else
    let slot := if initialized_ it then u16 (slot_ it + 1) else 0 in
    Next_pages fuel (mkTableIterator (guard_ it) true (page_id_ it) slot (tuple_ it)).

(** The iterator's destructor. *)
Definition Close (it : TableIterator) : C S unit :=
  match guard_ it with Some g => drop_guard g | None => cret tt end.

(** The move constructor and the move assignment: what the target then is, the source being
    left exhausted. *)
Definition exhausted (it : TableIterator) : TableIterator :=
  mkTableIterator None (initialized_ it) INVALID_PAGE (slot_ it) [].
Definition Move (other : TableIterator) : TableIterator * TableIterator := (other, exhausted other).
Definition MoveAssign (self other : TableIterator) : C S (TableIterator * TableIterator) :=
  Close self ;;; cret (Move other).
End table_heap.
