(* ===== verification/TableHeapSpec.v ===== *)
(** * The table as a map from RIDs to tuples

    The abstract view of a chain of heap pages: a list of page ids with the slot table of
    each ([layout]), what it means for a store to hold it, and the rows it stands for. *)

From stdpp Require Import gmap.
From S2P Require Import Prelude Common HeapPage HeapPageProofs HeapPageRefine HeapPageTheorems.
From S2P Require Import BufferPool BufferPoolOps PoolRefine PageStore PageStoreLogic TableHeap.

#[export] Instance RID_countable : Countable RID.
Proof.
  refine (inj_countable' (fun r => (rid_page_id r, rid_slot r)) (fun '(p, s) => mkRID p s) _). by intros [].
Defined.

(** ** Heap pages *)

Record heap_page (p next : Z) (a : APage) (bs : list byte) : Prop := {
  hp_len : len bs = PAGE_SIZE;
  hp_type : ph_page_type (page_header bs) = HEAP;
  hp_id : ph_page_id (page_header bs) = p;
  hp_next : ph_next_page_id (page_header bs) = next;
  hp_wf : wf (page_body bs);
  hp_abs : abs (page_body bs) = a
}.

Lemma heap_page_view p next a bs : heap_page p next a bs -> AsHeapPage bs = Ok (page_body bs).
Proof. intros Hp. unfold AsHeapPage. change (PageHeader_ReadFrom _) with (page_header bs). by rewrite (hp_type _ _ _ _ Hp). Qed.

Lemma heap_page_loadable p next a bs : heap_page p next a bs -> loadable p bs.
Proof. intros Hp. unfold loadable. change (PageHeader_ReadFrom _) with (page_header bs). by rewrite (hp_type _ _ _ _ Hp), (hp_id _ _ _ _ Hp). Qed.

Lemma view_type bs e : AsHeapPage bs = Error e -> ph_page_type (page_header bs) <> HEAP.
Proof. unfold AsHeapPage. change (PageHeader_ReadFrom _) with (page_header bs). by case_decide. Qed.

Lemma heap_page_set_body p next a (bs body : list byte) :
  heap_page p next a bs -> wf body -> heap_page p next (abs body) (patch PAGE_HEADER_SIZE body bs).
Proof.
  intros [L T I N W A] Wb. pose proof (wf_len _ Wb) as Lb.
  split; rewrite ?page_header_set, ?page_body_set by done; try done. by apply length_set_body.
Qed.

Lemma heap_page_link p next next' a bs :
  heap_page p next a bs -> is_s32 next' -> heap_page p next' a (edit_page (ENext next') bs).
Proof.
  intros [L T I N W A] Hn. split; rewrite ?page_header_edit, ?page_body_edit by done; try done. by apply length_edit_page.
Qed.

(** ** The layout of a table *)

Abbreviation layout := (list (Z * APage)).

(** The page at position [i], [INVALID_PAGE] behind the last one. *)
Definition nth_page (T : layout) (i : nat) : Z := default INVALID_PAGE (fst <$> T !! i).

Definition chained (m : pages_t) (T : layout) : Prop :=
  forall i p a, T !! i = Some (p, a) ->
    exists bs, m !! p = Some bs /\ heap_page p (nth_page T (S i)) a bs.

Record table_ok (H : TableHeap) (m : pages_t) (T : layout) : Prop := {
  tk_first : first_page_id H = nth_page T 0;
  tk_chain : chained m T;
  tk_nodup : NoDup T.*1;
  tk_last : last_page_id H ∈ T.*1
}.

(** The insert hint names a page of the table, or nothing the insert could mistake for one. *)
Definition hint_ok (H : TableHeap) (m : pages_t) (T : layout) : Prop :=
  insert_hint H = INVALID_PAGE \/ insert_hint H ∈ T.*1 \/
  (INVALID_PAGE <= insert_hint H /\ insert_hint H <> CATALOG_ROOT_PAGE_ID /\
   forall bs, m !! insert_hint H = Some bs -> ph_page_type (page_header bs) <> HEAP).

(** ** Rows *)

Definition slot_row (a : APage) (k : nat) : option (list byte) := mjoin (a_rows a !! k).

Fixpoint page_rows (p : Z) (k : Z) (rs : list (option (list byte))) : list (RID * list byte) :=
  match rs with
  | [] => []
  | None :: rs => page_rows p (k + 1) rs
  | Some t :: rs => (mkRID p k, t) :: page_rows p (k + 1) rs
  end.

(** The rows in the order of a scan, and as a map. *)
Definition table_rows (T : layout) : list (RID * list byte) :=
  T ≫= fun '(p, a) => page_rows p 0 (a_rows a).
Definition contents (T : layout) : gmap RID (list byte) := list_to_map (table_rows T).

Lemma elem_page_rows p k rs r t :
  (r, t) ∈ page_rows p k rs <-> rid_page_id r = p /\ k <= rid_slot r /\ rs !! Z.to_nat (rid_slot r - k) = Some (Some t).
Proof.
  revert k. induction rs as [|x rs IH]; intros k; [split; [by intros ?%elem_of_nil|by intros (_ & _ & ?)]|]. cbn [page_rows].
  assert (Hrec : (r, t) ∈ page_rows p (k + 1) rs <->
    rid_page_id r = p /\ k < rid_slot r /\ (x :: rs) !! Z.to_nat (rid_slot r - k) = Some (Some t)).
  { rewrite IH. split; intros (? & ? & Hl); split_and!; try done; try lia.
    - replace (Z.to_nat (rid_slot r - k)) with (S (Z.to_nat (rid_slot r - (k + 1)))) by lia. done.
    - replace (Z.to_nat (rid_slot r - k)) with (S (Z.to_nat (rid_slot r - (k + 1)))) in Hl by lia. done. }
  destruct x as [u|].
  - rewrite elem_of_cons, Hrec. split.
    + intros [[= -> ->]|(? & ? & ?)]; cbn [rid_page_id rid_slot]; [|split_and!; [done|lia|done]].
      rewrite Z.sub_diag. by split_and!.
    + intros (Hp & Hk & Hl). destruct (decide (rid_slot r = k)) as [E|]; [left|right; split_and!; [done|lia|done]].
      rewrite E, Z.sub_diag in Hl. cbn in Hl. injection Hl as ->. destruct r; cbn in *; by subst.
  - rewrite Hrec. split; intros (Hp & Hk & Hl); split_and!; try done; try lia.
    destruct (decide (rid_slot r = k)) as [E|]; [|lia]. by rewrite E, Z.sub_diag in Hl.
Qed.

Lemma elem_table_rows T r t :
  (r, t) ∈ table_rows T <->
  exists i a, T !! i = Some (rid_page_id r, a) /\ 0 <= rid_slot r /\ slot_row a (Z.to_nat (rid_slot r)) = Some t.
Proof.
  unfold table_rows. rewrite list_elem_of_bind. split.
  - intros ([p a] & Hr & HT). apply elem_page_rows in Hr as (<- & Hs & Hl). rewrite Z.sub_0_r in Hl.
    apply list_elem_of_lookup in HT as [i Hi]. exists i, a. split; [done|]. split; [done|]. unfold slot_row. by rewrite Hl.
  - intros (i & a & Hi & Hs & Hl). exists (rid_page_id r, a). split; [|by eapply list_elem_of_lookup_2].
    apply elem_page_rows. rewrite Z.sub_0_r. split; [done|]. split; [done|]. unfold slot_row in Hl.
    by destruct (a_rows a !! Z.to_nat (rid_slot r)) as [[|]|]; cbn in Hl; simplify_eq.
Qed.

Lemma NoDup_page_rows p k rs : NoDup (page_rows p k rs).*1.
Proof.
  revert k. induction rs as [|[t|] rs IH]; intros k; cbn; [constructor| |done].
  constructor; [|done]. intros Hin. apply list_elem_of_fmap in Hin as ([r u] & E & Hin). cbn in E. subst r.
  apply elem_page_rows in Hin as (_ & Hk & _). cbn in Hk. lia.
Qed.

Lemma NoDup_table_rows T : NoDup T.*1 -> NoDup (table_rows T).*1.
Proof.
  induction T as [|[p a] T IH]; intros ND; cbn; [constructor|]. apply NoDup_cons in ND as [Hp ND].
  unfold table_rows. cbn. rewrite fmap_app. apply NoDup_app. split; [apply NoDup_page_rows|]. split; [|by apply IH].
  intros r H1 H2. apply list_elem_of_fmap in H1 as ([r1 t1] & -> & H1). apply list_elem_of_fmap in H2 as ([r2 t2] & E & H2).
  cbn in E. subst r2. apply elem_page_rows in H1 as (<- & _). apply elem_table_rows in H2 as (i & b & Hi & _).
  apply Hp. cbn. apply list_elem_of_fmap. eexists (_, b). split; [done|]. by eapply list_elem_of_lookup_2.
Qed.

Lemma contents_lookup T r t :
  NoDup T.*1 ->
  contents T !! r = Some t <->
  exists i a, T !! i = Some (rid_page_id r, a) /\ 0 <= rid_slot r /\ slot_row a (Z.to_nat (rid_slot r)) = Some t.
Proof. intros ND. unfold contents. rewrite <- elem_of_list_to_map by (by apply NoDup_table_rows). apply elem_table_rows. Qed.

(** The row of a RID whose page is known. *)
Lemma contents_at T i p a k :
  NoDup T.*1 -> T !! i = Some (p, a) -> 0 <= k -> contents T !! mkRID p k = slot_row a (Z.to_nat k).
Proof.
  intros ND Hi Hk. apply option_eq. intros t. rewrite contents_lookup by done. cbn [rid_page_id rid_slot]. split.
  - intros (j & b & Hj & _ & Hl). assert (j = i) as ->.
    { eapply NoDup_lookup; [exact ND| |]; rewrite list_lookup_fmap; [by rewrite Hj|by rewrite Hi]. }
    rewrite Hi in Hj. injection Hj as <-. done.
  - intros Hl. by exists i, a.
Qed.

Lemma fst_update (T : layout) i p a a' : T !! i = Some (p, a) -> (<[i := (p, a')]> T).*1 = T.*1.
Proof.
  intros Hi. rewrite list_fmap_insert. apply list_insert_id. by rewrite list_lookup_fmap, Hi.
Qed.

Lemma nth_page_update (T : layout) i p a a' j : T !! i = Some (p, a) -> nth_page (<[i := (p, a')]> T) j = nth_page T j.
Proof. intros Hi. unfold nth_page. rewrite <- !list_lookup_fmap. by rewrite (fst_update _ _ _ _ _ Hi). Qed.

(** Changing one slot of one page changes one row. *)
Lemma contents_alter T i p a a' k x :
  NoDup T.*1 -> T !! i = Some (p, a) -> 0 <= k ->
  (forall j, slot_row a' j = if decide (j = Z.to_nat k) then x else slot_row a j) ->
  contents (<[i := (p, a')]> T) = partial_alter (fun _ => x) (mkRID p k) (contents T).
Proof.
  intros ND Hi Hk Ha. pose proof (fst_update _ _ _ _ a' Hi) as Hf.
  assert (ND' : NoDup (<[i := (p, a')]> T).*1) by (by rewrite Hf).
  assert (Hi' : <[i := (p, a')]> T !! i = Some (p, a')) by (apply list_lookup_insert_eq; by eapply lookup_lt_Some).
  apply map_eq. intros [q s]. destruct (decide (0 <= s)) as [Hs|Hs].
  2: { assert (contents T !! mkRID q s = None /\ contents (<[i := (p, a')]> T) !! mkRID q s = None) as [E1 E2].
       { split; apply eq_None_not_Some; intros [t Ht]; apply contents_lookup in Ht as (? & ? & _ & Hs' & _); cbn in *; done. }
       rewrite E2, lookup_partial_alter_ne, E1; [done|]. intros [= -> ->]. lia. }
  destruct (decide (q = p)) as [->|Hq].
  - rewrite (contents_at _ i p a' s) by done. rewrite Ha. destruct (decide (s = k)) as [->|Hne].
    + by rewrite lookup_partial_alter_eq, decide_True by done.
    + rewrite lookup_partial_alter_ne by congruence. rewrite decide_False by lia. by rewrite (contents_at _ i p a s).
  - rewrite lookup_partial_alter_ne by congruence. apply option_eq. intros t. rewrite !contents_lookup by done. cbn.
    split; intros (j & b & Hj & R); exists j, b; (split; [|done]).
    + rewrite list_lookup_insert_ne in Hj; [done|]. intros <-. rewrite Hi' in Hj. congruence.
    + rewrite list_lookup_insert_ne; [done|]. intros <-. congruence.
Qed.

Lemma contents_same T i p a a' :
  NoDup T.*1 -> T !! i = Some (p, a) -> (forall j, slot_row a' j = slot_row a j) -> contents (<[i := (p, a')]> T) = contents T.
Proof.
  intros ND Hi Ha. rewrite (contents_alter T i p a a' 0 (slot_row a 0)) by (try done; intros j; rewrite Ha; by case_decide as E; [rewrite E|]).
  change (slot_row a 0) with (slot_row a (Z.to_nat 0)). rewrite <- (contents_at T i p a 0) by done. apply partial_alter_self.
Qed.

(** A page behind the last one adds its rows. *)
Lemma contents_snoc T q a : contents (T ++ [(q, a)]) = list_to_map (table_rows T ++ page_rows q 0 (a_rows a)).
Proof. unfold contents, table_rows. rewrite bind_app. cbn. by rewrite app_nil_r. Qed.

Lemma contents_new T q t :
  NoDup T.*1 -> q ∉ T.*1 -> contents (T ++ [(q, mkAPage [Some t] 0)]) = <[mkRID q 0 := t]> (contents T).
Proof.
  intros ND Hq. rewrite contents_snoc, list_to_map_app. cbn. rewrite insert_empty.
  rewrite <- insert_union_singleton_r; [done|].
  apply eq_None_not_Some. intros [u Hu]. apply contents_lookup in Hu as (i & a & Hi & _); [|done]. cbn in Hi.
  apply Hq, list_elem_of_fmap. eexists (q, a). split; [done|]. by eapply list_elem_of_lookup_2.
Qed.

(** ** The chain under updates *)

Lemma chained_page m T i p a :
  chained m T -> T !! i = Some (p, a) -> exists bs, m !! p = Some bs /\ heap_page p (nth_page T (S i)) a bs.
Proof. intros Ch. apply Ch. Qed.

Lemma page_index (T : layout) p : p ∈ T.*1 -> exists i a, T !! i = Some (p, a).
Proof.
  intros Hp. apply list_elem_of_fmap in Hp as ([q a] & -> & Hin). apply list_elem_of_lookup in Hin as [i Hi]. by exists i, a.
Qed.

Lemma index_page (T : layout) i p a : T !! i = Some (p, a) -> p ∈ T.*1.
Proof. intros Hi. apply list_elem_of_fmap. eexists (p, a). split; [done|]. by eapply list_elem_of_lookup_2. Qed.

Lemma index_inj (T : layout) i j p a b : NoDup T.*1 -> T !! i = Some (p, a) -> T !! j = Some (p, b) -> i = j.
Proof. intros ND Hi Hj. eapply NoDup_lookup; [exact ND| |]; rewrite list_lookup_fmap; [by rewrite Hi|by rewrite Hj]. Qed.

Lemma chained_update m T i p a a' bs :
  chained m T -> NoDup T.*1 -> T !! i = Some (p, a) -> heap_page p (nth_page T (S i)) a' bs ->
  chained (<[p := bs]> m) (<[i := (p, a')]> T).
Proof.
  intros Ch ND Hi Hb j q b Hj. rewrite nth_page_update with (a := a) by done.
  destruct (decide (j = i)) as [->|Hne].
  - rewrite list_lookup_insert_eq in Hj by (by eapply lookup_lt_Some). injection Hj as <- <-.
    exists bs. by rewrite lookup_insert_eq.
  - rewrite list_lookup_insert_ne in Hj by done. destruct (Ch j q b Hj) as (bs' & Hm & Hp).
    exists bs'. split; [|done]. rewrite lookup_insert_ne; [done|]. intros <-. by apply Hne, (index_inj T _ _ p b a).
Qed.

Lemma chained_same m T p (bs : list byte) i a :
  chained m T -> NoDup T.*1 -> T !! i = Some (p, a) -> heap_page p (nth_page T (S i)) a bs -> chained (<[p := bs]> m) T.
Proof. intros Ch ND Hi Hb. rewrite <- (list_insert_id T i (p, a)) by done. by eapply chained_update. Qed.

(** The last page of the chain gets a successor. *)
Lemma chained_extend m (T0 : layout) p a q b (bs bq : list byte) :
  chained m (T0 ++ [(p, a)]) -> NoDup (T0 ++ [(p, a)]).*1 -> q ∉ (T0 ++ [(p, a)]).*1 ->
  heap_page p q a bs -> heap_page q INVALID_PAGE b bq ->
  chained (<[p := bs]> (<[q := bq]> m)) ((T0 ++ [(p, a)]) ++ [(q, b)]).
Proof.
  intros Ch ND Hq Hp Hb. set (T := T0 ++ [(p, a)]) in *.
  assert (Hlast : T !! length T0 = Some (p, a)) by (unfold T; by rewrite list_lookup_middle).
  assert (HL : length T = S (length T0)) by (unfold T; rewrite length_app; cbn; lia).
  assert (Hqp : p <> q) by (intros <-; by eapply Hq, index_page).
  intros j r c Hj. destruct (decide (j < length T)%nat) as [Hlt|Hge].
  - rewrite lookup_app_l in Hj by done. destruct (decide (j = length T0)) as [->|Hne].
    + rewrite Hlast in Hj. injection Hj as <- <-. exists bs. rewrite lookup_insert_eq. split; [done|].
      unfold nth_page. rewrite <- HL. by rewrite list_lookup_middle.
    + destruct (Ch j r c Hj) as (bs' & Hm & Hh). exists bs'. rewrite !lookup_insert_ne; [split; [done|]| |].
      * unfold nth_page in *. rewrite lookup_app_l by lia. done.
      * intros <-. by eapply Hq, index_page.
      * intros <-. by apply Hne, (index_inj T _ _ p c a).
  - assert (j = length T) as ->.
    { apply lookup_lt_Some in Hj. rewrite length_app in Hj. cbn in Hj. lia. }
    rewrite list_lookup_middle in Hj by done. injection Hj as <- <-. exists bq. rewrite lookup_insert_ne, lookup_insert_eq by done.
    split; [done|]. unfold nth_page. rewrite lookup_ge_None_2 by (rewrite length_app; cbn; lia). done.
Qed.
