(* ===== verification/TableHeapProofs.v ===== *)
(** * The table heap's operations keep the table

    Total-correctness rules for [Create], [Insert], [Get], [Delete] and [Update], proved
    against the laws of the page store. *)

From stdpp Require Import gmap.
From S2P Require Import Prelude Common HeapPage HeapPageProofs HeapPageRefine HeapPageTheorems.
From S2P Require Import BufferPool BufferPoolOps BufferPoolLifecycle PoolRefine PageStore PageStoreLogic TableHeap TableHeapSpec.

(** The bytes of a page are never computed here. *)
#[local] Opaque fresh_page edit_page patch.

(** ** One page *)

(** [a'] is [a] with the row of slot [k] replaced. *)
Definition row_set (a : APage) (k : Z) (x : option (list byte)) (a' : APage) : Prop :=
  forall j, slot_row a' j = if decide (j = Z.to_nat k) then x else slot_row a j.

Lemma slot_row_place (a a' : APage) i x :
  (i <= length (a_rows a))%nat -> a_rows a' = place i x (a_rows a) ->
  forall j, slot_row a' j = if decide (j = i) then x else slot_row a j.
Proof.
  intros Hi E j. unfold slot_row. rewrite E, lookup_place by done.
  destruct (decide (i = j)) as [->|]; [by rewrite decide_True|by rewrite decide_False by congruence].
Qed.

Lemma Insert_fits t body :
  wf body -> 0 < len t <= MAX_TUPLE_SIZE -> len t + SLOT_SIZE <= a_free (abs body) ->
  exists s body', HeapPage.Insert t body = (Ok s, body') /\ wf body' /\ 0 <= s /\
    slot_row (abs body) (Z.to_nat s) = None /\ row_set (abs body) s (Some t) (abs body').
Proof.
  intros W Ht Hf. destruct (a_Insert_room t _ Ht Hf) as [s Es].
  pose proof (Insert_refines t _ W) as R. rewrite Es in R. destruct (HeapPage.Insert t body) as [r body'].
  destruct R as [W' [= -> E]]. exists s, body'. apply a_Insert_Ok in Es as (Hs & Hold & Er).
  split; [done|]. split; [done|]. split; [lia|]. split.
  - unfold slot_row. destruct (decide (s < len (a_rows (abs body)))) as [Hlt|]; [by rewrite Hold|].
    by rewrite lookup_ge_None_2 by lia.
  - intros j. apply slot_row_place; [lia|exact E].
Qed.

Section try_insert.
Context {host : Host}.

Lemma TryInsert_spec t th body :
  wf body -> 0 < len t <= MAX_TUPLE_SIZE ->
  let '(r, body') := TryInsertOnPage t th body in
  wf body' /\
  match r with
  | Ok (Some s) => 0 <= s /\ slot_row (abs body) (Z.to_nat s) = None /\ row_set (abs body) s (Some t) (abs body')
  | Ok None => body' = body
  | Error _ => False
  end.
Proof.
  intros W Ht. destruct (Compact_refines _ W) as [Wc Ec]. unfold TryInsertOnPage, Reclaimable. rewrite Contiguous_abs by done.
  destruct (Z.ltb_spec (a_free (abs body)) (len t + SLOT_SIZE)) as [Hf|Hf].
  - destruct (Z.ltb_spec (a_free (abs body) + dead_bytes (Header body)) (len t + SLOT_SIZE)) as [|Hr]; [done|].
    destruct (dead_bytes (Header body) <? th); [done|].
    destruct (Insert_fits t (Compact body) Wc Ht) as (s & body' & -> & W' & Hs & Hn & Hset).
    { rewrite Ec. unfold a_free, a_Compact, abs in *; cbn [a_rows a_dead] in *. lia. }
    split; [done|]. split; [done|]. unfold row_set in *. by rewrite Ec in *.
  - destruct (Insert_fits t body W Ht) as (s & body' & -> & W' & Hs & Hn & Hset); [lia|done].
Qed.
End try_insert.

(** ** The table under a change of one page *)

Lemma set_same_body (bs : list byte) : len bs = PAGE_SIZE -> patch PAGE_HEADER_SIZE (page_body bs) bs = bs.
Proof.
  intros L. apply list_eq. intros i. pose proof (length_page_body _ L) as Lb.
  rewrite lookup_patch by (rewrite ?Lb, ?L; done). case_decide as Hi; [|done].
  unfold page_body. rewrite lookup_slice, decide_True by (unfold_consts; lia). f_equal. unfold_consts; lia.
Qed.

Lemma table_ok_hint H m T p : table_ok H m T -> table_ok (set_hint p H) m T.
Proof. by intros [A B C D]. Qed.

Lemma table_page H m T p :
  table_ok H m T -> p ∈ T.*1 ->
  exists i a bs, T !! i = Some (p, a) /\ m !! p = Some bs /\ heap_page p (nth_page T (S i)) a bs.
Proof. intros K Hp. destruct (page_index _ _ Hp) as (i & a & Hi). destruct (tk_chain _ _ _ K _ _ _ Hi) as (bs & Hm & Hh). by exists i, a, bs. Qed.

Lemma first_in H m T : table_ok H m T -> first_page_id H ∈ T.*1.
Proof.
  intros [A _ _ D]. rewrite A. unfold nth_page. destruct T as [|[p a] T]; [by apply elem_of_nil in D|]. by left.
Qed.

Lemma nth_page_in T i : nth_page T i = INVALID_PAGE \/ nth_page T i ∈ T.*1.
Proof. unfold nth_page. destruct (T !! i) as [[p a]|] eqn:E; [right; by eapply index_page|by left]. Qed.

Lemma table_set_body H m T i p a (bs body : list byte) :
  table_ok H m T -> T !! i = Some (p, a) -> m !! p = Some bs -> wf body ->
  table_ok H (<[p := patch PAGE_HEADER_SIZE body bs]> m) (<[i := (p, abs body)]> T).
Proof.
  intros [A B C D] Hi Hm W. destruct (B _ _ _ Hi) as (bs' & Hm' & Hh). rewrite Hm in Hm'. injection Hm' as <-.
  split.
  - by rewrite (nth_page_update _ _ _ a).
  - eapply chained_update; try done. by eapply heap_page_set_body.
  - by rewrite (fst_update _ _ _ a).
  - by rewrite (fst_update _ _ _ a).
Qed.

(** What an insertion of [t] at [r] does to the table. *)
Record insert_done (t : list byte) (H : TableHeap) (m : pages_t) (T : layout) (r : RID)
    (H' : TableHeap) (m' : pages_t) (T' : layout) : Prop := {
  id_ok : table_ok H' m' T';
  id_hint : insert_hint H' ∈ T'.*1;
  id_first : first_page_id H' = first_page_id H;
  id_page : rid_page_id r ∈ T'.*1;
  id_slot : 0 <= rid_slot r;
  id_fresh : contents T !! r = None;
  id_rows : contents T' = <[r := t]> (contents T);
  id_chain : T'.*1 = T.*1 \/ (m !! rid_page_id r = None /\ T'.*1 = T.*1 ++ [rid_page_id r]);
  id_frame : forall p, p ∉ T'.*1 -> m' !! p = m !! p
}.

Lemma insert_on_page t H m T i p a (bs body : list byte) s :
  table_ok H m T -> T !! i = Some (p, a) -> m !! p = Some bs -> wf body -> 0 <= s ->
  slot_row a (Z.to_nat s) = None -> row_set a s (Some t) (abs body) ->
  insert_done t H m T (mkRID p s) (set_hint p H)
    (<[p := patch PAGE_HEADER_SIZE body bs]> m) (<[i := (p, abs body)]> T).
Proof.
  intros K Hi Hm W Hs Hn Hset. pose proof (tk_nodup _ _ _ K) as ND. pose proof (fst_update _ _ _ _ (abs body) Hi) as Hf.
  split; rewrite ?Hf; cbn [rid_page_id rid_slot insert_hint set_hint]; try done.
  - apply table_ok_hint. by eapply table_set_body.
  - by eapply index_page.
  - by eapply index_page.
  - by rewrite (contents_at _ _ _ _ _ ND Hi Hs).
  - by erewrite contents_alter.
  - by left.
  - intros q Hq. apply lookup_insert_ne. intros <-. by eapply Hq, index_page.
Qed.

(** ** Insertion *)

Section ops.
Context {host : Host} {S : Type} `{!PageStore S, !PageStoreLaws S}.
Context (cap : Z).

(** A page the cursor may look at: one of the table, or a stale hint. *)
Definition probeable (pid : Z) (from_hint : bool) (m : pages_t) (T : layout) : Prop :=
  pid ∈ T.*1 \/
  (from_hint = true /\ INVALID_PAGE <= pid /\ pid <> CATALOG_ROOT_PAGE_ID /\ forall bs, m !! pid = Some bs -> ph_page_type (page_header bs) <> HEAP).

(** The outcome of an insertion: done, given up with nothing changed, or refused. *)
Definition insert_post (t : list byte) (H : TableHeap) (m : pages_t) (T : layout) (short : Z) (gs : list PageGuard)
    (r : Result RID) (H' : TableHeap) (m' : pages_t) : Prop :=
  match r with
  | Ok rid => exists T', insert_done t H m T rid H' m' T'
  | Error e => m' = m /\ table_ok H' m T /\ hint_ok H' m T /\ first_page_id H' = first_page_id H /\
      ok e = false /\ cap <= len gs + short
  end.

Lemma set_same_page (m : pages_t) T p i a (bs : list byte) :
  m !! p = Some bs -> heap_page p (nth_page T i) a bs -> <[p := patch PAGE_HEADER_SIZE (page_body bs) bs]> m = m.
Proof. intros Hm Hh. rewrite set_same_body by apply Hh. by apply insert_id. Qed.

Lemma unlatched_first gs pid H m T : table_ok H m T -> unlatched gs (pid :: T.*1) -> unlatched gs (first_page_id H :: T.*1).
Proof.
  intros K U. eapply unlatched_sub; [exact U|]. intros q Hq. right.
  apply elem_of_cons in Hq as [->|]; [by eapply first_in|done].
Qed.

(** The block under the guard of a page the cursor looks at. *)
Definition probe_flow (t : list byte) (H : TableHeap) (m : pages_t) (T : layout) (gs : list PageGuard)
    (f : Flow (Result RID) * TableHeap) (m' : pages_t) : Prop :=
  match f with
  | (Return r, H') => insert_post t H m T 0 gs r H' m'
  | (Continue q, H') => q ∈ T.*1 /\ m' = m /\ table_ok H' m T /\ hint_ok H' m T /\ first_page_id H' = first_page_id H
  end.

Lemma wp_probe_page g pid fh t H m gs T bs :
  table_ok H m T -> hint_ok H m T -> probeable pid fh m T -> 0 < len t <= MAX_TUPLE_SIZE ->
  g_page g = pid -> g_write g = true -> m !! pid = Some bs ->
  wp cap 1 (do page <- bytes_of g ;
    match AsHeapPage page with
    | Error e =>
        if negb (fh && negb (pid =? first_page_id H)) then cret (Return (Error e), H)
        else cret (Continue (first_page_id H), H)
    | Ok body =>
        let '(slot, body) := TryInsertOnPage t COMPACT_THRESHOLD body in
        set_body g body ;;;
        match slot with
        | Error e => cret (Return (Error e), H)
        | Ok (Some s) => cret (Return (Ok (mkRID pid s)), set_hint pid H)
        | Ok None =>
            do h <- header_of g ;
            let next := ph_next_page_id h in
            let page_id := if next =? INVALID_PAGE then first_page_id H else next in
            cret (Continue page_id, set_hint page_id H)
        end
    end)%client m (g :: gs) (fun f m' gs' => gs' = g :: gs /\ probe_flow t H m T gs f m').
Proof.
  intros K Hh Pr Ht Gp Gw Hm. apply (wp_bind _ 0); [lia|]. apply wp_bytes; [lia|by left|]. rewrite Gp, Hm. intros ? [= <-] L Hb.
  destruct Pr as [Hp|(-> & Np0 & Np & Ns)].
  - destruct (table_page _ _ _ _ K Hp) as (i & a & bs' & Hi & Hm' & Hpg). rewrite Hm in Hm'. injection Hm' as <-.
    rewrite (heap_page_view _ _ _ _ Hpg). pose proof (TryInsert_spec t COMPACT_THRESHOLD _ (hp_wf _ _ _ _ Hpg) Ht) as TI.
    rewrite (hp_abs _ _ _ _ Hpg) in TI. destruct (TryInsertOnPage _ _ _) as [r body']. destruct TI as [W' TI].
    apply (wp_bind _ 1); [lia|]. eapply wp_set_body; [lia|by left|done|by rewrite Gp|apply W'|]. rewrite Gp.
    destruct r as [[s|]|e]; [| |done].
    + destruct TI as (Hs & Hn & Hset). apply wp_cret; [lia|]. split; [done|]. eexists. by eapply insert_on_page.
    + subst body'. rewrite (set_same_page _ _ _ _ _ _ Hm Hpg). apply (wp_bind _ 0); [lia|].
      eapply wp_header; [lia|by left|by rewrite Gp|]. rewrite (hp_next _ _ _ _ Hpg). apply wp_cret; [lia|]. split; [done|].
      assert (Hq : (if nth_page T (Datatypes.S i) =? INVALID_PAGE then first_page_id H else nth_page T (Datatypes.S i)) ∈ T.*1).
      { destruct (Z.eqb_spec (nth_page T (Datatypes.S i)) INVALID_PAGE); [by eapply first_in|].
        by destruct (nth_page_in T (Datatypes.S i)). }
      split; [done|]. split; [done|]. split; [by apply table_ok_hint|]. split; [|done]. right. by left.
  - destruct (AsHeapPage bs) as [body|e] eqn:V.
    { exfalso. apply (Ns _ Hm). revert V. unfold AsHeapPage. change (PageHeader_ReadFrom _) with (page_header bs).
      case_decide as D; [done|]. by intros _. }
    assert (pid <> first_page_id H) as Nf.
    { intros ->. destruct (table_page _ _ _ _ K (first_in _ _ _ K)) as (i & a & bs' & Hi & Hm' & Hpg).
      rewrite Hm in Hm'. injection Hm' as <-. apply (Ns _ Hm), Hpg. }
    apply Z.eqb_neq in Nf. rewrite Nf. cbn [negb andb]. apply wp_cret; [lia|]. split; [done|].
    split; [by eapply first_in|]. by split_and!.
Qed.

Lemma wp_probe k pid fh t H m gs T :
  table_ok H m T -> hint_ok H m T -> probeable pid fh m T -> unlatched gs (pid :: T.*1) -> 0 < len t <= MAX_TUPLE_SIZE ->
  wp cap (3 * Z.of_nat k) (Insert_probe k pid fh t H) m gs (fun r m' gs' => gs' = gs /\
    match r with
    | (None, H') => m' = m /\ table_ok H' m T /\ hint_ok H' m T /\ first_page_id H' = first_page_id H
    | (Some r, H') => insert_post t H m T 0 gs r H' m'
    end).
Proof.
  revert pid fh H. induction k as [|k IH]; intros pid fh H K Hh Pr U Ht; cbn [Insert_probe].
  { apply wp_cret; [done|]. by split_and!. }
  destruct (pid =? INVALID_PAGE); [apply wp_cret; [lia|by split_and!]|].
  apply wp_pages. intros Bd.
  assert (Npid : can_fetch pid).
  { apply can_fetch_page; (destruct Pr as [Hp|(_ & ? & ? & _)]; [|done]); destruct (table_page _ _ _ _ K Hp) as (i & a & bs & Hi & Hm & _);
    destruct (Bd _ _ Hm); unfold_consts; lia. }
  assert (Hrec : forall q H', q ∈ T.*1 -> table_ok H' m T -> hint_ok H' m T -> first_page_id H' = first_page_id H -> 
    wp cap (3 * Z.of_nat k) (Insert_probe k q false t H') m gs (fun r m' gs' => gs' = gs /\
    match r with
    | (None, H') => m' = m /\ table_ok H' m T /\ hint_ok H' m T /\ first_page_id H' = first_page_id H
    | (Some r, H') => insert_post t H m T 0 gs r H' m'
    end)).
  { intros q H' Hq K' Hh' Ff. eapply wp_mono; [reflexivity| |apply IH]; try done; [|by left|].
    - intros [[r|] H''] m' gs' [-> R]; (split; [done|]); [|by rewrite Ff in R].
      unfold insert_post in *. rewrite Ff in R. destruct r; [|done]. destruct R as [T' []]. exists T'. split; try done. congruence.
    - eapply unlatched_sub; [exact U|]. intros x Hx. right. apply elem_of_cons in Hx as [->|]; done. }
  apply (wp_bind _ 1); [lia|]. apply wp_fetch; [lia|done|eapply unlatched_admissible; [exact U|by left]| |].
  - intros g bs Gp Gw Hm. apply (wp_bind _ 2); [lia|]. apply wp_scoped; [lia|].
    eapply wp_mono; [| |eapply wp_probe_page]; try done.
    intros [[r|q] H'] m' gs' [-> R]; exists gs; (split; [done|]).
    + apply wp_cret; [lia|]. by split.
    + destruct R as (Hq & -> & K' & Hh' & Ff). eapply wp_mono; [| |by apply Hrec]; [lia|done].
  - intros e [He _] Hf. destruct (fh && negb (pid =? first_page_id H)) eqn:Rc; cbn [negb].
    + eapply wp_mono; [| |apply Hrec]; [lia|done|by eapply first_in|done..].
    + apply wp_cret; [lia|]. split; [done|]. split_and!; try done. rewrite Z.add_0_r.
      destruct Pr as [Hp|(-> & _ & _ & Ns)].
      * destruct (table_page _ _ _ _ K Hp) as (i & a & bs & Hi & Hm & Hpg). eapply Hf; [done|by eapply heap_page_loadable].
      * cbn in Rc. apply negb_false_iff, Z.eqb_eq in Rc. destruct (table_page _ _ _ _ K (first_in _ _ _ K)) as (i & a & bs' & Hi & Hm' & Hpg).
        rewrite <- Rc in Hm'. exfalso. by apply (Ns _ Hm'), Hpg.
Qed.

(** A page just allocated, stamped as the last page of a chain. *)
Definition stamped (p : Z) : list byte := edit_page (ENext INVALID_PAGE) (edit_page (EType HEAP) (fresh_page p)).

Lemma stamped_page p body :
  2 <= p < 2 ^ 31 -> wf body -> heap_page p INVALID_PAGE (abs body) (patch PAGE_HEADER_SIZE body (stamped p)).
Proof.
  intros Hp W. pose proof (wf_len _ W) as Lb. destruct (fresh_page_spec p) as [L [_ Id]]; [unfold is_s32; lia|].
  assert (L1 : len (edit_page (EType HEAP) (fresh_page p)) = PAGE_SIZE) by (by apply length_edit_page).
  assert (L2 : len (stamped p) = PAGE_SIZE) by (by apply length_edit_page).
  assert (E : page_header (stamped p) = edit_header (ENext INVALID_PAGE) (edit_header (EType HEAP) (page_header (fresh_page p)))).
  { unfold stamped. by rewrite !page_header_edit. }
  split; [by apply length_set_body|rewrite page_header_set, E by assumption..| |];
    [reflexivity|exact Id|reflexivity|rewrite page_body_set by assumption..]; [exact W|reflexivity].
Qed.

Lemma stamped_view p : 2 <= p < 2 ^ 31 -> len (stamped p) = PAGE_SIZE /\ AsHeapPage (stamped p) = Ok (page_body (stamped p)).
Proof.
  intros Hp. destruct (fresh_page_spec p) as [L _]; [unfold is_s32; lia|].
  assert (L1 : len (edit_page (EType HEAP) (fresh_page p)) = PAGE_SIZE) by (by apply length_edit_page).
  split; [by apply length_edit_page|]. unfold AsHeapPage. change (PageHeader_ReadFrom _) with (page_header (stamped p)).
  unfold stamped. by rewrite !page_header_edit.
Qed.

#[local] Opaque stamped.

(** The first tuple of a page. *)
Lemma Insert_first t body :
  len body = PAGE_BODY_SIZE -> 0 < len t <= MAX_TUPLE_SIZE ->
  exists body', HeapPage.Insert t (Init body) = (Ok 0, body') /\ wf body' /\ abs body' = mkAPage [Some t] 0.
Proof.
  intros L Ht. pose proof (Insert_refines t _ (Init_wf _ L)) as R. rewrite Init_abs in R by done.
  destruct (HeapPage.Insert t (Init body)) as [r body']. destruct R as [W R]. exists body'.
  assert (E : a_Insert t a_empty = (Ok 0, mkAPage [Some t] 0)).
  { unfold a_Insert, a_empty, a_free. cbn. rewrite decide_True by done. bcase; hlia || done. }
  rewrite E in R. by inversion R.
Qed.

Lemma wp_extend g t H m gs T0 p a bs :
  let T := T0 ++ [(p, a)] in
  table_ok H m T -> hint_ok H m T -> m !! p = Some bs -> g_page g = p -> g_write g = true -> 0 < len t <= MAX_TUPLE_SIZE ->
  wp cap 6 (Insert_extend g t H) m (g :: gs) (fun f m' gs' => gs' = g :: gs /\
    match f with (Return r, H') => insert_post t H m T 1 gs r H' m' | (Continue _, _) => False end).
Proof.
  intros T K Hh Hm Gp Gw Ht. unfold Insert_extend. apply (wp_bind _ 1); [lia|]. apply wp_new; [lia| |].
  2: { intros e He Hc. apply wp_cret; [lia|]. split; [done|]. split_and!; try done. cbn [length] in Hc. lia. }
  intros ng Hn Hb Nw. set (q := g_page ng) in *.
  destruct (stamped_view q Hb) as [Ls Vs]. destruct (Insert_first t (page_body (stamped q)) (length_page_body _ Ls) Ht) as (body & Ei & W & Ab).
  assert (Hqp : p <> q) by congruence.
  apply wp_scoped; [lia|].
  apply (wp_bind _ 1); [lia|]. eapply wp_set_header; [lia|by left|done|by rewrite lookup_insert_eq|]. rewrite insert_insert_eq.
  apply (wp_bind _ 1); [lia|]. eapply wp_set_header; [lia|by left|done|by rewrite lookup_insert_eq|]. rewrite insert_insert_eq.
  apply (wp_bind _ 0); [lia|]. apply wp_bytes; [lia|by left|]. fold q. rewrite lookup_insert_eq. intros ? [= <-] _ _.
  change (edit_page (ENext INVALID_PAGE) (edit_page (EType HEAP) (fresh_page q))) with (stamped q). rewrite Vs. cbv zeta. rewrite Ei.
  apply (wp_bind _ 1); [lia|]. eapply wp_set_body; [lia|by left|done|by rewrite lookup_insert_eq|apply W|]. rewrite insert_insert_eq.
  apply (wp_bind _ 1); [lia|]. eapply wp_set_header; [lia|by right; left|done|by rewrite Gp, lookup_insert_ne|]. rewrite Gp.
  apply wp_cret; [lia|]. exists (g :: gs). split; [done|]. split; [done|]. exists (T ++ [(q, mkAPage [Some t] 0)]).
  clear Ls Vs Ei.
  assert (Hlast : T !! length T0 = Some (p, a)) by (unfold T; by rewrite list_lookup_middle).
  destruct K as [A B N D]. destruct (B _ _ _ Hlast) as (bs' & Hm' & Hpg). rewrite Hm in Hm'. injection Hm' as <-.
  assert (Hq : q ∉ T.*1).
  { intros Hin. apply page_index in Hin as (i & b & Hi). destruct (B _ _ _ Hi) as (? & ? & _). congruence. }
  assert (Hf : (T ++ [(q, mkAPage [Some t] 0)]).*1 = T.*1 ++ [q]) by (by rewrite fmap_app).
  split; rewrite ?Hf; cbn [rid_page_id rid_slot insert_hint set_hint]; try done.
  - split; rewrite ?Hf; cbn.
    + rewrite A. unfold nth_page. destruct T; [by apply elem_of_nil in D|done].
    + apply chained_extend; [exact B|exact N|exact Hq| |].
      * eapply heap_page_link; [exact Hpg|unfold is_s32; lia].
      * rewrite <- Ab. by apply stamped_page.
    + apply NoDup_app. split; [done|]. split; [|apply NoDup_singleton]. intros x Hx ->%list_elem_of_singleton. done.
    + apply elem_of_app. right. by left.
  - apply elem_of_app. right. by left.
  - apply elem_of_app. right. by left.
  - apply eq_None_not_Some. intros [u Hu]. apply contents_lookup in Hu as (i & b & Hi & _); [|done]. by eapply Hq, index_page.
  - by apply contents_new.
  - by right.
  - intros x Hx. rewrite !lookup_insert_ne; [done| |]; intros <-; apply Hx, elem_of_app; [right; by left|left; by eapply index_page].
Qed.

(** Fetching a page of the table pins it, or no frame is left for it. *)
Lemma wp_open {A} w p c (f : Result PageGuard -> C S A) H m gs T Q :
  table_ok H m T -> p ∈ T.*1 -> admissible w p gs -> 0 <= c ->
  (forall i a bs g, T !! i = Some (p, a) -> m !! p = Some bs -> heap_page p (nth_page T (Datatypes.S i)) a bs ->
     2 <= p < 2 ^ 31 -> g_page g = p -> g_write g = w -> wp cap c (f (Ok g)) m (g :: gs) Q) ->
  (forall e, ok e = false /\ code e <> kNotFound -> cap <= len gs -> wp cap c (f (Error e)) m gs Q) ->
  wp cap (1 + c) (cbind (fetch w p) f) m gs Q.
Proof.
  intros K Hp Ad Hc Hok Herr. destruct (table_page _ _ _ _ K Hp) as (i & a & bs & Hi & Hm & Hpg).
  apply wp_pages. intros Bd. destruct (Bd _ _ Hm) as [_ Bp].
  apply (wp_bind _ 1); [lia|]. replace (1 + c - 1) with c by lia.
  apply wp_fetch; [lia|apply can_fetch_page; unfold_consts; lia|done| |].
  - intros g bs' Gp Gw Hm'. by apply (Hok i a bs g).
  - intros e He Hf. apply Herr; [done|]. by eapply Hf, heap_page_loadable.
Qed.

(** The view of a pinned heap page. *)
Lemma wp_view {A} p c (f : list byte -> C S A) g next a bs m gs Q :
  m !! p = Some bs -> heap_page p next a bs -> g_page g = p -> 0 <= c ->
  wp cap c (f bs) m (g :: gs) Q -> wp cap c (cbind (bytes_of g) f) m (g :: gs) Q.
Proof.
  intros Hm Hpg Gp Hc W. apply (wp_bind _ 0); [lia|]. apply wp_bytes; [lia|by left|]. rewrite Gp, Hm.
  intros ? [= <-] _ _. by rewrite Z.sub_0_r.
Qed.

(** From position [i] of the chain the append loop walks to the last page and tries there. *)
Lemma wp_append fuel i p a t H m gs T :
  table_ok H m T -> hint_ok H m T -> T !! i = Some (p, a) -> (length T < fuel + i)%nat -> unlatched gs T.*1 ->
  0 < len t <= MAX_TUPLE_SIZE ->
  wp cap (9 * Z.of_nat fuel) (Insert_append fuel p t H) m gs (fun r m' gs' =>
    gs' = gs /\ let '(r, H') := r in insert_post t H m T 1 gs r H' m').
Proof.
  intros K Hh Hi Hf U Ht. revert i p a Hi Hf. induction fuel as [|fuel IH]; intros i p a Hi Hf; cbn [Insert_append].
  { apply lookup_lt_Some in Hi. lia. }
  pose proof (index_page _ _ _ _ Hi) as Hp. apply wp_pages. intros Bd.
  replace (9 * Z.of_nat (Datatypes.S fuel)) with (1 + (8 + 9 * Z.of_nat fuel)) by lia.
  eapply wp_open; [done|done|by eapply unlatched_admissible|lia| |].
  2: { intros e [He _] Hc. apply wp_cret; [lia|]. split; [done|]. split_and!; try done. lia. }
  intros i' a' bs g Hi' Hm Hpg Bp Gp Gw. assert (i' = i) as -> by (by eapply index_inj; [apply K| |]).
  rewrite Hi in Hi'. injection Hi' as <-. apply (wp_bind _ 8); [lia|]. apply wp_scoped; [lia|].
  apply (wp_bind _ 0); [lia|]. eapply wp_header; [lia|by left|by rewrite Gp|]. rewrite (hp_next _ _ _ _ Hpg).
  destruct (T !! Datatypes.S i) as [[q b]|] eqn:Hnext.
  - assert (Hq : nth_page T (Datatypes.S i) = q) by (unfold nth_page; by rewrite Hnext).
    destruct (tk_chain _ _ _ K _ _ _ Hnext) as (bq & Hmq & _). destruct (Bd _ _ Hmq) as [_ Bq].
    rewrite Hq. destruct (Z.eqb_spec q INVALID_PAGE) as [E|_]; [unfold_consts; lia|]. cbn [negb].
    apply wp_cret; [lia|]. exists gs. split; [done|]. eapply wp_mono; [| |eapply (IH (Datatypes.S i)); [exact Hnext|lia]]; [lia|done].
  - assert (Hq : nth_page T (Datatypes.S i) = INVALID_PAGE) by (unfold nth_page; by rewrite Hnext).
    rewrite Hq. cbn [negb Z.eqb]. rewrite Z.eqb_refl. cbn [negb].
    eapply wp_view; [done|done|done|lia|].
    rewrite (heap_page_view _ _ _ _ Hpg). pose proof (TryInsert_spec t 0 _ (hp_wf _ _ _ _ Hpg) Ht) as TI.
    rewrite (hp_abs _ _ _ _ Hpg) in TI. destruct (TryInsertOnPage _ _ _) as [r body']. destruct TI as [W' TI].
    apply (wp_bind _ 1); [lia|]. eapply wp_set_body; [lia|by left|done|by rewrite Gp|apply W'|]. rewrite Gp.
    destruct r as [[s|]|e]; [| |done].
    + destruct TI as (Hs & Hn & Hset). apply wp_cret; [lia|]. exists gs. split; [done|]. apply wp_cret; [lia|]. split; [done|].
      eexists. by eapply insert_on_page.
    + subst body'. rewrite (set_same_page _ _ _ _ _ _ Hm Hpg).
      assert (ET : T = take i T ++ [(p, a)]).
      { rewrite <- (take_S_r T i (p, a) Hi). symmetry. apply take_ge. apply lookup_ge_None in Hnext. lia. }
      rewrite ET in K, Hh. eapply wp_mono; [| |by eapply wp_extend]; [lia|].
      intros [[r|q'] H'] m' gs' [-> R]; [|done]. exists gs. split; [done|]. apply wp_cret; [lia|]. by rewrite <- ET in R.
Qed.

(** The cost of an insertion in calls of the store. *)
Definition insert_cost (fuel : nat) : Z := 12 + 9 * Z.of_nat fuel.

Lemma insert_post_weaken t H m T short short' gs r H' m' :
  short <= short' -> insert_post t H m T short gs r H' m' -> insert_post t H m T short' gs r H' m'.
Proof. intros Hs. destruct r; [done|]. intros (? & ? & ? & ? & ? & ?). split_and!; try done. lia. Qed.

Lemma insert_post_first t H H' m T short gs r H'' m' :
  first_page_id H' = first_page_id H -> insert_post t H' m T short gs r H'' m' -> insert_post t H m T short gs r H'' m'.
Proof.
  intros Ff. unfold insert_post. rewrite Ff. destruct r; [|done]. intros [T' []]. exists T'. split; try done. congruence.
Qed.

Lemma wp_Insert fuel t H m gs T :
  table_ok H m T -> hint_ok H m T -> (length T < fuel)%nat -> unlatched gs (insert_hint H :: T.*1) ->
  wp cap (insert_cost fuel) (Insert fuel t H) m gs (fun r m' gs' => gs' = gs /\
    let '(r, H') := r in
    if decide (0 < len t <= MAX_TUPLE_SIZE) then insert_post t H m T 1 gs r H' m'
    else m' = m /\ H' = H /\ exists e, r = Error e /\ code e = kInvalidArgument).
Proof.
  intros K Hh Hf U. unfold Insert, insert_cost.
  destruct (Z.eqb_spec (len t) 0); [apply wp_cret; [lia|]; cbv beta iota; rewrite decide_False by lia; split_and!; try done; by eexists|].
  destruct (Z.ltb_spec MAX_TUPLE_SIZE (len t)); [apply wp_cret; [lia|]; cbv beta iota; rewrite decide_False by lia; split_and!; try done; by eexists|].
  assert (Ht : 0 < len t <= MAX_TUPLE_SIZE) by lia.
  assert (UT : unlatched gs T.*1) by (eapply unlatched_sub; [exact U|]; intros; by right).
  apply (wp_bind _ 12); [lia|]. eapply wp_mono; [| |apply (wp_probe INSERT_PROBE_LIMIT); try done]; [done| | |].
  - intros [[r|] H'] m' gs' [-> R].
    + apply wp_cret; [lia|]. cbv beta iota. rewrite decide_True by done. split; [done|]. eapply insert_post_weaken; [|exact R]. lia.
    + destruct R as (-> & K' & Hh' & Ff). destruct (page_index _ _ (tk_last _ _ _ K')) as (i & a & Hi).
      eapply wp_mono; [| |eapply (wp_append fuel i)]; try done; [lia| |lia].
      intros [r H''] m' gs' [-> R]. rewrite decide_True by done. split; [done|]. by eapply insert_post_first.
  - destruct Hh as [E|[E|[Np Ns]]].
    + rewrite E. left. by eapply first_in.
    + left. destruct (Z.eqb_spec (insert_hint H) INVALID_PAGE); [by eapply first_in|done].
    + destruct (Z.eqb_spec (insert_hint H) INVALID_PAGE); [left; by eapply first_in|by right].
  - destruct (Z.eqb_spec (insert_hint H) INVALID_PAGE); [by eapply unlatched_first|done].
Qed.

(** ** Reading, deleting and updating a row *)

(** The outcome of an operation that keeps the pages of the table. *)
Record kept (H : TableHeap) (m : pages_t) (T : layout) (H' : TableHeap) (m' : pages_t) (T' : layout) : Prop := {
  kp_ok : table_ok H' m' T';
  kp_hint : hint_ok H' m' T';
  kp_first : first_page_id H' = first_page_id H;
  kp_chain : T'.*1 = T.*1;
  kp_frame : forall p, p ∉ T.*1 -> m' !! p = m !! p
}.

Lemma kept_refl H m T : table_ok H m T -> hint_ok H m T -> kept H m T H m T.
Proof. by split. Qed.

Lemma hint_frame H m T m' T' :
  hint_ok H m T -> T'.*1 = T.*1 -> (forall p, p ∉ T.*1 -> m' !! p = m !! p) -> hint_ok H m' T'.
Proof.
  intros Hh E Fr. destruct (decide (insert_hint H ∈ T.*1)) as [Hin|Hout]; [right; left; by rewrite E|].
  destruct Hh as [?|[?|[? Hn]]]; [by left|done|]. right. right. split; [done|]. by rewrite Fr.
Qed.

Lemma kept_set_body H m T i p a (bs body : list byte) :
  table_ok H m T -> hint_ok H m T -> T !! i = Some (p, a) -> m !! p = Some bs -> wf body ->
  kept H m T H (<[p := patch PAGE_HEADER_SIZE body bs]> m) (<[i := (p, abs body)]> T).
Proof.
  intros K Hh Hi Hm W. pose proof (fst_update _ _ _ _ (abs body) Hi) as Hf.
  assert (Fr : forall q, q ∉ T.*1 -> <[p := patch PAGE_HEADER_SIZE body bs]> m !! q = m !! q).
  { intros q Hq. apply lookup_insert_ne. intros <-. by eapply Hq, index_page. }
  split; [by eapply table_set_body|by eapply hint_frame|done|done|done].
Qed.

Lemma kept_hint H m T H' m' T' p : kept H m T H' m' T' -> p ∈ T.*1 -> kept H m T (set_hint p H') m' T'.
Proof. intros [A B C D E] Hp. split; try done; [by apply table_ok_hint|]. right. left. by rewrite D. Qed.

(** What reading slot [k] of a page of the table answers. *)
Lemma row_Get T i p a k :
  NoDup T.*1 -> T !! i = Some (p, a) -> 0 <= k ->
  match a_Get k a with
  | Ok t => contents T !! mkRID p k = Some t
  | Error e => contents T !! mkRID p k = None /\ code e = kNotFound
  end.
Proof.
  intros ND Hi Hk. rewrite (contents_at _ _ _ _ _ ND Hi Hk). unfold a_Get, slot_row.
  destruct (Z.leb_spec (len (a_rows a)) k); [by rewrite lookup_ge_None_2 by lia|].
  by destruct (a_rows a !! Z.to_nat k) as [[t|]|].
Qed.

(** Why an operation on a row may refuse: the row is not there, or no frame is. *)
Definition row_missing (rid : RID) (T : layout) (gs : list PageGuard) (e : Status) : Prop :=
  (contents T !! rid = None /\ code e = kNotFound) \/ ((ok e = false /\ code e <> kNotFound) /\ cap <= len gs).

Lemma wp_Get rid H m gs T :
  table_ok H m T -> rid_page_id rid ∈ T.*1 -> 0 <= rid_slot rid -> admissible false (rid_page_id rid) gs ->
  wp cap 2 (Get rid) m gs (fun r m' gs' => gs' = gs /\ m' = m /\
    match r with Ok t => contents T !! rid = Some t | Error e => row_missing rid T gs e end).
Proof.
  intros K Hp Hs Ad. destruct rid as [p k]. cbn [rid_page_id rid_slot] in *.
  change 2 with (1 + 1). eapply wp_open; [done|done|done|lia| |].
  2: { intros e He Hc. apply wp_cret; [lia|]. split_and!; try done. by right. }
  intros i a bs g Hi Hm Hpg Bp Gp Gw. cbn [rid_page_id rid_slot] in *. apply wp_scoped; [lia|]. eapply wp_view; [done|done|done|lia|].
  rewrite (heap_page_view _ _ _ _ Hpg), Get_abs, (hp_abs _ _ _ _ Hpg) by (done || apply Hpg).
  apply wp_cret; [lia|]. exists gs. split; [done|]. split; [done|]. split; [done|].
  pose proof (row_Get _ _ _ _ _ (tk_nodup _ _ _ K) Hi Hs) as R. destruct (a_Get k a); [done|by left].
Qed.

Lemma Delete_row k (body : list byte) :
  wf body -> 0 <= k ->
  let '(st, body') := HeapPage.Delete k body in
  wf body' /\
  match a_Get k (abs body) with
  | Ok _ => st = StatusOK /\ row_set (abs body) k None (abs body')
  | Error e => st = e /\ body' = body
  end.
Proof.
  intros W Hk. pose proof (Delete_refines k body W Hk) as R. unfold HeapPage.Delete in *. rewrite Get_abs in * by done.
  unfold a_Delete in R. destruct (a_Get k (abs body)) as [t|e] eqn:G; [|done].
  destruct R as [W' R]. split; [done|]. split; [done|]. intros j. injection R as R _. unfold slot_row. cbn [a_rows abs].
  rewrite R. apply a_Get_Ok in G; [|done]. apply lookup_lt_Some in G. case_decide as E.
  - by rewrite E, list_lookup_insert_eq.
  - by rewrite list_lookup_insert_ne by done.
Qed.

Lemma wp_Delete rid H m gs T :
  table_ok H m T -> hint_ok H m T -> rid_page_id rid ∈ T.*1 -> 0 <= rid_slot rid -> unlatched gs T.*1 ->
  wp cap 3 (Delete rid H) m gs (fun r m' gs' => gs' = gs /\
    let '(st, H') := r in
    (st = StatusOK /\ is_Some (contents T !! rid) /\
     exists T', kept H m T H' m' T' /\ contents T' = delete rid (contents T)) \/
    (m' = m /\ H' = H /\ row_missing rid T gs st)).
Proof.
  intros K Hh Hp Hs U. destruct rid as [p k]. cbn [rid_page_id rid_slot] in *.
  change 3 with (1 + 2). eapply wp_open; [done|done|by eapply unlatched_admissible|lia| |].
  2: { intros e He Hc. apply wp_cret; [lia|]. split; [done|]. right. split_and!; try done. by right. }
  intros i a bs g Hi Hm Hpg Bp Gp Gw. cbn [rid_page_id rid_slot] in *. apply wp_scoped; [lia|]. eapply wp_view; [done|done|done|lia|].
  rewrite (heap_page_view _ _ _ _ Hpg). pose proof (Delete_row k _ (hp_wf _ _ _ _ Hpg) Hs) as D. cbn [rid_slot].
  destruct (HeapPage.Delete k (page_body bs)) as [st body']. destruct D as [W' D]. rewrite (hp_abs _ _ _ _ Hpg) in D.
  apply (wp_bind _ 1); [lia|]. eapply wp_set_body; [lia|by left|done|by rewrite Gp|apply W'|]. rewrite Gp.
  apply wp_cret; [lia|]. exists gs. split; [done|]. split; [done|].
  pose proof (row_Get _ _ _ _ _ (tk_nodup _ _ _ K) Hi Hs) as R. destruct (a_Get k a) as [t|e]; destruct D as [-> D].
  - left. split; [done|]. split; [by eexists|]. eexists. split; [by apply kept_hint; [eapply kept_set_body|]|].
    apply (contents_alter _ _ _ a _ k None); [apply K|done|done|exact D].
  - right. subst body'. destruct R as [R1 R2]. rewrite (set_same_page _ _ _ _ _ _ Hm Hpg). split; [done|].
    split; [|by left]. unfold ok. by rewrite R2.
Qed.

Lemma Update_row k t (body : list byte) :
  wf body -> 0 <= k ->
  let '(r, body') := HeapPage.Update k t body in
  wf body' /\
  match r with
  | Ok kSamePage => row_set (abs body) k (Some t) (abs body') /\ 0 < len t <= MAX_TUPLE_SIZE /\
      exists old, a_Get k (abs body) = Ok old
  | Ok kDoesNotFit => body' = body /\ 0 < len t <= MAX_TUPLE_SIZE /\ exists old, a_Get k (abs body) = Ok old
  | Error e => body' = body /\ ((~ 0 < len t <= MAX_TUPLE_SIZE /\ code e = kInvalidArgument) \/ a_Get k (abs body) = Error e)
  end.
Proof.
  intros W Hk. pose proof (Update_refines k t body W Hk) as R. destruct (HeapPage.Update k t body) as [r body'].
  destruct R as (W' & E & Same). split; [done|]. destruct r as [[|]|e].
  - symmetry in E. destruct (a_Update_same _ _ _ _ Hk E) as [Hb Er]. revert E. unfold a_Update.
    destruct (Z.eqb_spec (len t) 0); [done|]. destruct (Z.ltb_spec MAX_TUPLE_SIZE (len t)); [done|].
    destruct (a_Get k (abs body)) as [old|] eqn:G; [|done]. intros _. split; [|split; [lia|by eexists]].
    intros j. unfold slot_row. rewrite Er. case_decide as Ej; [subst j; by rewrite list_lookup_insert_eq by lia|].
    by rewrite list_lookup_insert_ne by done.
  - rewrite Same by done. split; [done|]. revert E. unfold a_Update.
    destruct (Z.eqb_spec (len t) 0); [done|]. destruct (Z.ltb_spec MAX_TUPLE_SIZE (len t)); [done|].
    destruct (a_Get k (abs body)) as [old|] eqn:G; [|done]. intros _. split; [lia|by eexists].
  - rewrite Same by done. split; [done|]. revert E. unfold a_Update.
    destruct (Z.eqb_spec (len t) 0); [intros [= -> _]; left; split; [lia|done]|].
    destruct (Z.ltb_spec MAX_TUPLE_SIZE (len t)); [intros [= -> _]; left; split; [lia|done]|].
    destruct (a_Get k (abs body)) as [old|] eqn:G; [|intros [= -> _]; by right]. by bcase.
Qed.

(** The outcome of an update: rewritten in place, moved, refused with nothing changed, or
    moved with the original left behind. *)
Definition update_post (rid : RID) (t : list byte) (H : TableHeap) (m : pages_t) (T : layout) (gs : list PageGuard)
    (r : Result RID) (H' : TableHeap) (m' : pages_t) : Prop :=
  match r with
  | Ok rid' => 0 < len t <= MAX_TUPLE_SIZE /\ is_Some (contents T !! rid) /\ (rid' = rid \/ contents T !! rid' = None) /\
      exists T', table_ok H' m' T' /\ hint_ok H' m' T' /\ first_page_id H' = first_page_id H /\
        contents T' = <[rid' := t]> (delete rid (contents T)) /\
        rid_page_id rid' ∈ T'.*1 /\ 0 <= rid_slot rid' /\
        (T'.*1 = T.*1 \/ m !! rid_page_id rid' = None /\ T'.*1 = T.*1 ++ [rid_page_id rid']) /\
        (forall p, p ∉ T'.*1 -> m' !! p = m !! p)
  | Error e =>
      (m' = m /\ table_ok H' m T /\ hint_ok H' m T /\ first_page_id H' = first_page_id H /\
        ((~ 0 < len t <= MAX_TUPLE_SIZE /\ code e = kInvalidArgument) \/
         (contents T !! rid = None /\ code e = kNotFound) \/ (ok e = false /\ cap <= len gs + 1))) \/
      (code e = kInternal /\ cap <= len gs /\ exists rid' T', insert_done t H m T rid' H' m' T')
  end.

Lemma unlatched_grown gs (m : pages_t) (T : layout) p :
  unlatched gs T.*1 -> (forall g, g ∈ gs -> is_Some (m !! g_page g)) -> m !! p = None -> unlatched gs (T.*1 ++ [p]).
Proof.
  intros U Gd Hp g Hg Hin. apply elem_of_app in Hin as [Hin|Hin]; [by apply (U g Hg)|]. apply list_elem_of_singleton in Hin.
  destruct (Gd g Hg). congruence.
Qed.

Lemma wp_Update fuel rid t H m gs T :
  table_ok H m T -> hint_ok H m T -> rid_page_id rid ∈ T.*1 -> 0 <= rid_slot rid -> (length T < fuel)%nat ->
  unlatched gs (insert_hint H :: T.*1) ->
  wp cap (6 + insert_cost fuel) (Update fuel rid t H) m gs (fun r m' gs' => gs' = gs /\
    let '(r, H') := r in update_post rid t H m T gs r H' m').
Proof.
  intros K Hh Hp Hs Hf U. assert (UT : unlatched gs T.*1) by (eapply unlatched_sub; [exact U|]; intros; by right).
  apply wp_guards. intros Gd. unfold insert_cost. replace (6 + (12 + 9 * Z.of_nat fuel)) with (1 + (17 + 9 * Z.of_nat fuel)) by lia.
  eapply wp_open; [done|done|by eapply unlatched_admissible|lia| |].
  2: { intros e [He _] Hc. apply wp_cret; [lia|]. split; [done|]. left. split_and!; try done. right. right. split; [done|lia]. }
  intros i a bs g Hi Hm Hpg Bp Gp Gw. pose proof (row_Get _ _ _ _ _ (tk_nodup _ _ _ K) Hi Hs) as RG.
  destruct rid as [p k]. cbn [rid_page_id rid_slot] in *.
  apply (wp_bind _ 2); [lia|]. apply wp_scoped; [lia|]. eapply wp_view; [done|done|done|lia|].
  rewrite (heap_page_view _ _ _ _ Hpg). pose proof (Update_row k t _ (hp_wf _ _ _ _ Hpg) Hs) as D. cbn [rid_slot].
  destruct (HeapPage.Update k t (page_body bs)) as [r body']. destruct D as [W' D]. rewrite (hp_abs _ _ _ _ Hpg) in D.
  apply (wp_bind _ 1); [lia|]. eapply wp_set_body; [lia|by left|done|by rewrite Gp|apply W'|]. rewrite Gp.
  apply wp_cret; [lia|]. exists gs. split; [done|]. destruct r as [[|]|e].
  - destruct D as (D & Ht & old & Eo). rewrite Eo in RG. apply wp_cret; [lia|]. split; [done|]. split; [done|]. split; [by eexists|]. split; [by left|].
    destruct (kept_set_body _ _ _ _ _ _ _ _ K Hh Hi Hm W') as [K' Hh' Ff Ch Fr]. eexists. split_and!; try done.
    + rewrite insert_delete_eq. apply (contents_alter _ _ _ a _ k (Some t)); [apply K|done|done|exact D].
    + by rewrite Ch.
    + by left.
    + rewrite Ch. exact Fr.
  - destruct D as (-> & Ht & old & Eo). rewrite Eo in RG. rewrite (set_same_page _ _ _ _ _ _ Hm Hpg).
    apply (wp_bind _ (insert_cost fuel)); [unfold insert_cost; lia|]. unfold insert_cost.
    eapply wp_mono; [| |by eapply wp_Insert]; [done|]. intros [[nr|e] H1] m1 gs1 [-> R]; cbv beta iota in R; rewrite decide_True in R by done.
    2: { apply wp_cret; [lia|]. split; [done|]. left. destruct R as (-> & K1 & Hh1 & Ff & He & Hc). split_and!; try done.
         right. right. by split. }
    destruct R as [T1 I]. pose proof I as [K1 Hin1 Ff1 Hp1 Hs1 Fr1 Er1 Ch1 Fm1].
    assert (Hne : nr <> mkRID p k) by (intros ->; congruence).
    assert (HpT : p ∈ T1.*1) by (destruct Ch1 as [->|[_ ->]]; [done|apply elem_of_app; by left]).
    assert (U1 : unlatched gs T1.*1) by (destruct Ch1 as [->|[? ->]]; [done|by eapply unlatched_grown]).
    assert (Row : contents T1 !! mkRID p k = Some old) by (rewrite Er1, lookup_insert_ne by done; done).
    apply (wp_bind _ 3); [lia|]. eapply wp_mono; [reflexivity| |eapply (wp_Delete (mkRID p k) H1 m1 gs T1); try done; right; by left].
    intros [st H2] m2 gs2 [-> [(-> & _ & T2 & [K2 Hh2 Ff2 Ch2 Fm2] & Er2)|(-> & -> & [[Rn _]|[He Hc]])]]; [|congruence|].
    + cbn [negb andb]. change (ok StatusOK) with true. cbn [negb andb]. apply wp_cret; [lia|]. split; [done|].
      split; [done|]. split; [by eexists|]. split; [by right|]. exists T2. rewrite Ch2. split_and!; try done.
      * congruence.
      * rewrite Er2, Er1. by rewrite delete_insert_ne.
      * intros q Hq. by rewrite Fm2, Fm1.
    + destruct He as [He Hnf]. rewrite He, bool_decide_true by done. apply wp_cret; [lia|]. split; [done|]. right.
      split; [done|]. split; [done|]. by exists nr, T1.
  - destruct D as [-> D]. rewrite (set_same_page _ _ _ _ _ _ Hm Hpg). apply wp_cret; [lia|]. split; [done|]. left. split_and!; try done.
    destruct D as [D|D]; [by left|]. rewrite D in RG. right. by left.
Qed.
End ops.
