(* ===== verification/TableScan.v ===== *)
(** * The scan returns the rows of the table, in order

    Rules for [Create] and for the iterator of table_heap.cpp: [Next] delivers the rows one by
    one and holds exactly one guard while it stands on a row. *)

From stdpp Require Import gmap.
From S2P Require Import Prelude Common HeapPage HeapPageProofs HeapPageRefine HeapPageTheorems.
From S2P Require Import BufferPool BufferPoolOps BufferPoolLifecycle PoolRefine PageStore PageStoreLogic.
From S2P Require Import TableHeap TableHeapSpec TableHeapProofs.

#[local] Opaque fresh_page edit_page patch stamped.

(** ** The slots of one page *)

Lemma dead_row body j :
  wf body -> 0 <= j < SlotCount body ->
  match rows body !! Z.to_nat j with
  | Some None => IsDead (SlotAt j body) = true
  | Some (Some t) => IsDead (SlotAt j body) = false /\ HeapPage.Get j body = Ok t
  | None => False
  end.
Proof.
  intros W Hj. pose proof (slots_lookup_Z body j Hj) as L. unfold rows. rewrite list_lookup_fmap, L. cbn [fmap option_fmap option_map].
  destruct (tuple_of body (SlotAt j body)) as [t|] eqn:Et.
  - split; [unfold tuple_of in Et; by destruct (IsDead _)|]. rewrite Get_abs by (done || lia). apply a_Get_Ok; [lia|].
    unfold abs; cbn [a_rows]. unfold rows. by rewrite list_lookup_fmap, L; cbn; rewrite Et.
  - unfold tuple_of in Et. by destruct (IsDead _).
Qed.

Lemma page_rows_drop p k rs x :
  0 <= k -> rs !! Z.to_nat k = Some x ->
  page_rows p k (drop (Z.to_nat k) rs) =
    (match x with Some t => [(mkRID p k, t)] | None => [] end) ++ page_rows p (k + 1) (drop (Z.to_nat (k + 1)) rs).
Proof.
  intros Hk Hl. rewrite (drop_S _ _ _ Hl). replace (Z.to_nat (k + 1)) with (S (Z.to_nat k)) by lia. by destruct x.
Qed.

Lemma Next_slots_spec n p k body :
  wf body -> 0 <= k -> SlotCount body < k + Z.of_nat n ->
  match Next_slots n k body with
  | (Some (Ok t), j) => k <= j < SlotCount body /\
      page_rows p k (drop (Z.to_nat k) (rows body)) = (mkRID p j, t) :: page_rows p (j + 1) (drop (Z.to_nat (j + 1)) (rows body))
  | (Some (Error _), _) => False
  | (None, _) => page_rows p k (drop (Z.to_nat k) (rows body)) = []
  end.
Proof.
  intros W. pose proof (Header_range body) as ([_ Hc] & _). fold (SlotCount body) in Hc.
  assert (Hlen : len (rows body) = SlotCount body) by (rewrite length_rows; apply length_slots).
  revert k. induction n as [|n IH]; intros k Hk Hn; cbn [Next_slots].
  { rewrite drop_ge by lia. done. }
  destruct (Z.ltb_spec k (SlotCount body)) as [Hlt|]; [|by rewrite drop_ge by lia].
  pose proof (dead_row body k W ltac:(lia)) as D. destruct (rows body !! Z.to_nat k) as [[t|]|] eqn:Er; [| |done].
  - destruct D as [-> ->]. split; [lia|]. by rewrite (page_rows_drop _ _ _ _ Hk Er).
  - rewrite D. rewrite u16_id by (unfold is_u16; lia). rewrite (page_rows_drop _ _ _ _ Hk Er). cbn [app].
    specialize (IH (k + 1) ltac:(lia) ltac:(lia)). destruct (Next_slots n (k + 1) body) as [[[u|]|] j]; try done.
    destruct IH as [Hj ->]. split; [lia|done].
Qed.

(** A page whose counter says nothing is live has no rows. *)
Lemma page_rows_none p k rs : Forall (fun x : option (list byte) => x = None) rs -> page_rows p k rs = [].
Proof. intros F. revert k. induction F as [|x rs -> F IH]; intros k; [done|apply IH]. Qed.

Lemma dead_page body : wf body -> LiveCount body <= 0 -> Forall (fun x => x = None) (rows body).
Proof.
  intros W Hl. pose proof (acc_live _ _ (wf_acc _ W)) as A. unfold LiveCount in Hl. rewrite A in Hl. clear A.
  unfold rows. apply Forall_fmap. induction (slots body) as [|s ss IH]; [constructor|]. cbn in Hl.
  pose proof (num_live_bounds ss). unfold compose, tuple_of. destruct (IsDead s) eqn:E; [|lia]. constructor; [by rewrite E|]. apply IH; lia.
Qed.

(** ** The iterator *)

(** The rows from slot [k] of the page at position [i] on. *)
Definition rows_from (T : layout) (i : nat) (k : Z) : list (RID * list byte) :=
  match T !! i with
  | Some (p, a) => page_rows p k (drop (Z.to_nat k) (a_rows a)) ++ table_rows (drop (S i) T)
  | None => []
  end.

Lemma rows_from_0 T i : rows_from T i 0 = table_rows (drop i T).
Proof.
  unfold rows_from. destruct (T !! i) as [[p a]|] eqn:E.
  - rewrite (drop_S _ _ _ E). done.
  - by rewrite drop_ge by (by apply lookup_ge_None).
Qed.

(** Past the last row: no page held, none named. *)
Definition finished (it : TableIterator) : Prop := guard_ it = None /\ page_id_ it = INVALID_PAGE.

(** Where an iterator over the table stands: the guards open with it, and the rows to come. *)
Inductive iter_at (T : layout) (gs : list PageGuard) (it : TableIterator) : list PageGuard -> list (RID * list byte) -> Prop :=
  | iter_before : guard_ it = None -> initialized_ it = false -> page_id_ it = nth_page T 0 ->
      iter_at T gs it gs (table_rows T)
  | iter_on i p a g : T !! i = Some (p, a) -> guard_ it = Some g -> initialized_ it = true -> page_id_ it = p ->
      g_page g = p -> g_write g = false -> 0 <= slot_ it < len (a_rows a) ->
      iter_at T gs it (g :: gs) (rows_from T i (slot_ it + 1))
  | iter_end : finished it -> iter_at T gs it gs [].

Section scan.
Context {host : Host} {S : Type} `{!PageStore S, !PageStoreLaws S}.
Context (cap : Z).

(** What one step of the scan answers, given the rows still to come. *)
Definition next_post (m : pages_t) (T : layout) (gs : list PageGuard) (rest : list (RID * list byte))
    (r : Result bool * TableIterator) (m' : pages_t) (gs' : list PageGuard) : Prop :=
  m' = m /\
  match r with
  | (Ok true, it) => exists rest', rest = (Rid it, Tuple it) :: rest' /\ iter_at T gs it gs' rest'
  | (Ok false, it) => rest = [] /\ gs' = gs /\ finished it
  | (Error e, it) => ok e = false /\ cap <= len gs /\ gs' = gs /\ guard_ it = None
  end.

(** No guard of the caller is a writer's on one of the table's pages. *)
Definition readable (gs : list PageGuard) (T : layout) : Prop := forall p, p ∈ T.*1 -> admissible false p gs.

(** The body of the page loop once the page is pinned; [k] is the rest of the loop. *)
Lemma wp_Next_page i p a bs g c it (k : TableIterator -> C S (Result bool * TableIterator)) H m gs T :
  table_ok H m T -> T !! i = Some (p, a) -> m !! p = Some bs -> heap_page p (nth_page T (Datatypes.S i)) a bs ->
  g_page g = p -> g_write g = false -> initialized_ it = true -> page_id_ it = p -> 0 <= slot_ it -> 0 <= c ->
  wp cap c (k (mkTableIterator None true (nth_page T (Datatypes.S i)) 0 (tuple_ it))) m gs
    (next_post m T gs (rows_from T (Datatypes.S i) 0)) ->
  wp cap (1 + c)
    (let held slot tuple := mkTableIterator (Some g) (initialized_ it) (page_id_ it) slot tuple in
     do page <- bytes_of g ;
     match AsHeapPage page with
     | Error e => cret (Error e, held (slot_ it) (tuple_ it))
     | Ok body =>
         let '(found, slot) :=
           if 0 <? LiveCount body then Next_slots (1 + Z.to_nat (SlotCount body)) (slot_ it) body
           else (None, slot_ it) in
         match found with
         | Some (Error e) => cret (Error e, held slot (tuple_ it))
         | Some (Ok bytes) => cret (Ok true, held slot bytes)
         | None =>
             do h <- header_of g ;
             drop_guard g ;;;
             k (mkTableIterator None (initialized_ it) (ph_next_page_id h) 0 (tuple_ it))
         end
     end)%client m (g :: gs) (next_post m T gs (rows_from T i (slot_ it))).
Proof.
  intros K Hi Hm Hpg Gp Gw Hin Hid Hs Hc Hk. cbv zeta. eapply wp_view; [done|done|done|lia|].
  rewrite (heap_page_view _ _ _ _ Hpg). pose proof (hp_wf _ _ _ _ Hpg) as W.
  assert (Ea : a_rows a = rows (page_body bs)) by (by rewrite <- (hp_abs _ _ _ _ Hpg)).
  assert (Hlen : len (rows (page_body bs)) = SlotCount (page_body bs)) by (rewrite length_rows; apply length_slots).
  assert (Adv : page_rows p (slot_ it) (drop (Z.to_nat (slot_ it)) (a_rows a)) = [] ->
    wp cap (1 + c) (do h <- header_of g ; drop_guard g ;;;
      k (mkTableIterator None (initialized_ it) (ph_next_page_id h) 0 (tuple_ it)))%client m (g :: gs)
      (next_post m T gs (rows_from T i (slot_ it)))).
  { intros E. apply (wp_bind _ 0); [lia|]. eapply wp_header; [lia|by left|by rewrite Gp|]. rewrite (hp_next _ _ _ _ Hpg), Hin.
    apply (wp_bind _ 1); [lia|]. eapply wp_drop; [lia|done|]. replace (1 + c - 0 - 1) with c by lia.
    rewrite rows_from_0 in Hk. unfold rows_from. rewrite Hi, E. exact Hk. }
  destruct (Z.ltb_spec 0 (LiveCount (page_body bs))) as [_|Hl].
  - pose proof (Next_slots_spec (1 + Z.to_nat (SlotCount (page_body bs))) p (slot_ it) _ W Hs ltac:(lia)) as N. rewrite <- Ea in N.
    destruct (Next_slots _ _ _) as [[[t|]|] j]; [|done|by apply Adv]. destruct N as [Hj E].
    apply wp_cret; [lia|]. split; [done|]. exists (rows_from T i (j + 1)). split.
    + unfold rows_from. rewrite Hi, E. unfold Rid, Tuple. cbn. by rewrite Hid.
    + apply (iter_on T gs (mkTableIterator (Some g) (initialized_ it) (page_id_ it) j t) i p a g); cbn; try done. rewrite Ea. lia.
  - apply Adv. apply page_rows_none. rewrite Ea. by apply Forall_drop, dead_page.
Qed.

Lemma wp_Next_pages fuel i it H m gs T :
  table_ok H m T -> readable gs T -> (i <= length T < fuel + i)%nat ->
  initialized_ it = true -> page_id_ it = nth_page T i -> 0 <= slot_ it ->
  match guard_ it with Some g => g_page g = nth_page T i /\ g_write g = false /\ is_Some (T !! i) | None => True end ->
  wp cap (2 * Z.of_nat fuel) (Next_pages fuel it) m (match guard_ it with Some g => g :: gs | None => gs end)
    (next_post m T gs (rows_from T i (slot_ it))).
Proof.
  intros K Rd. revert i it. induction fuel as [|fuel IH]; intros i it Hf Hin Hp Hs Hg; cbn [Next_pages]; [lia|].
  apply wp_pages. intros Bd. replace (2 * Z.of_nat (Datatypes.S fuel)) with (1 + (1 + 2 * Z.of_nat fuel)) by lia.
  destruct (T !! i) as [[p a]|] eqn:Hi.
  - assert (Hn : nth_page T i = p) by (unfold nth_page; by rewrite Hi). rewrite Hn in *.
    destruct (tk_chain _ _ _ K _ _ _ Hi) as (bs & Hm & Hpg). destruct (Bd _ _ Hm) as [_ Bp].
    rewrite Hp. destruct (Z.eqb_spec p INVALID_PAGE) as [E|_]; [unfold_consts; lia|].
    assert (Step : forall g, g_page g = p -> g_write g = false -> _) by
      (intros g Gp Gw; refine (wp_Next_page i p a bs g (2 * Z.of_nat fuel) it (Next_pages fuel) H m gs T K Hi Hm Hpg Gp Gw Hin Hp Hs _ _);
        [lia|apply (IH (Datatypes.S i) (mkTableIterator None true _ 0 _)); cbn; try done; apply lookup_lt_Some in Hi; lia]).
    rewrite Hp in Step. destruct (guard_ it) as [g|] eqn:Eg.
    + destruct Hg as (Gp & Gw & _). apply (wp_bind _ 0); [lia|]. apply wp_cret; [lia|].
      eapply wp_mono; [| |by apply Step]; [lia|done].
    + eapply wp_open; [done|by eapply index_page|by eapply Rd, index_page|lia| |].
      * intros i' a' bs' g Hi' Hm' _ _ Gp Gw. by apply Step.
      * intros e [He _] Hc. apply wp_cret; [lia|]. by split_and!.
  - assert (Hn : nth_page T i = INVALID_PAGE) by (unfold nth_page; by rewrite Hi).
    rewrite Hp, Hn. rewrite Z.eqb_refl. destruct (guard_ it) as [g|] eqn:Eg; [by destruct Hg as (_ & _ & [? ?])|].
    apply wp_cret; [lia|]. split; [done|]. unfold rows_from. rewrite Hi. split; [done|]. split; [done|]. split; [done|congruence].
Qed.

Lemma wp_Next fuel it H m gs gs' T rest :
  table_ok H m T -> readable gs T -> (length T < fuel)%nat -> iter_at T gs it gs' rest ->
  wp cap (2 * Z.of_nat fuel) (Next fuel it) m gs' (next_post m T gs rest).
Proof.
  intros K Rd Hf At. apply wp_pages. intros Bd. unfold Next. inversion At as [Hg Hin Hp|i p a g Hi Hg Hin Hp Gp Gw Hs|[Hg Hp]]; subst.
  - pose proof (first_in _ _ _ K) as H0. rewrite (tk_first _ _ _ K), <- Hp in H0. destruct (table_page _ _ _ _ K H0) as (i & a & bs & _ & Hm & _).
    destruct (Z.eqb_spec (page_id_ it) INVALID_PAGE) as [E|_]; [destruct (Bd _ _ Hm); unfold_consts; lia|].
    rewrite Hin, Hg. assert (E0 : table_rows T = rows_from T 0 0) by (by rewrite rows_from_0). rewrite E0.
    apply (wp_Next_pages fuel 0 (mkTableIterator None true (page_id_ it) 0 (tuple_ it)) H m gs'); cbn; try done. lia.
  - destruct (tk_chain _ _ _ K _ _ _ Hi) as (bs & Hm & Hpg). destruct (Bd _ _ Hm) as [_ Bp].
    destruct (Z.eqb_spec (page_id_ it) INVALID_PAGE) as [E|_]; [unfold_consts; lia|]. rewrite Hin, Hg.
    assert (Hn : nth_page T i = page_id_ it) by (unfold nth_page; by rewrite Hi).
    assert (Hrows : len (a_rows a) < 2 ^ 16).
    { rewrite <- (hp_abs _ _ _ _ Hpg). cbn [a_rows abs]. rewrite length_rows, length_slots.
      destruct (Header_range (page_body bs)) as ([_ R] & _). exact R. }
    rewrite u16_id by (unfold is_u16; lia).
    apply (wp_Next_pages fuel i (mkTableIterator (Some g) true (page_id_ it) (slot_ it + 1) (tuple_ it)) H m gs); cbn; try done.
    + apply lookup_lt_Some in Hi. lia.
    + lia.
    + by rewrite Hn, Hi.
  - rewrite Hp, Z.eqb_refl. apply wp_cret; [lia|]. by split_and!.
Qed.

(** The loop of a caller: [while ( *it.Next() ) ...], keeping each row. *)
Fixpoint Collect (steps fuel : nat) (it : TableIterator) : C S (Result (list (RID * list byte)) * TableIterator) :=
  match steps with
  | O => fun _ => None
  | Datatypes.S steps =>
      do (more, it) <- Next fuel it ;
      match more with
      | Error e => cret (Error e, it)
      | Ok false => cret (Ok [], it)
      | Ok true =>
          let row := (Rid it, Tuple it) in
          do (rows, it) <- Collect steps fuel it ;
          cret (match rows with Ok rows => Ok (row :: rows) | Error e => Error e end, it)
      end
  end%client.

Lemma wp_Collect steps fuel it H m gs gs' T rest :
  table_ok H m T -> readable gs T -> (length T < fuel)%nat -> iter_at T gs it gs' rest -> (length rest < steps)%nat ->
  wp cap (2 * Z.of_nat fuel * Z.of_nat steps) (Collect steps fuel it) m gs' (fun r m' gs'' => m' = m /\
    match r with
    | (Ok rows, it') => rows = rest /\ gs'' = gs /\ finished it'
    | (Error e, it') => ok e = false /\ cap <= len gs /\ gs'' = gs /\ guard_ it' = None
    end).
Proof.
  intros K Rd Hf. revert it gs' rest. induction steps as [|steps IH]; intros it gs' rest At Hst; [lia|]. cbn [Collect].
  apply (wp_bind _ (2 * Z.of_nat fuel)); [lia|]. eapply wp_mono; [reflexivity| |by eapply wp_Next].
  intros [[[|]|e] it1] m1 gs1 [-> R].
  - destruct R as (rest' & -> & At'). cbn [length] in Hst. apply (wp_bind _ (2 * Z.of_nat fuel * Z.of_nat steps)); [lia|].
    eapply wp_mono; [reflexivity| |eapply IH; [exact At'|lia]]. intros [[rows|e] it2] m2 gs2 [-> R2]; (apply wp_cret; [lia|]); (split; [done|]).
    + destruct R2 as [-> R2]. by split.
    + done.
  - destruct R as [-> R]. apply wp_cret; [lia|]. split; [done|]. by split.
  - apply wp_cret; [lia|]. by split.
Qed.

(** The destructor of an exhausted or failed iterator has nothing to release. *)
Lemma wp_Close T gs it gs' rest m :
  iter_at T gs it gs' rest -> wp cap 1 (Close it) m gs' (fun _ m' gs'' => m' = m /\ gs'' = gs).
Proof.
  intros At. unfold Close. inversion At as [Hg Hin Hp|i p a g Hi Hg Hin Hp Gp Gw Hs|[Hg Hp]]; subst; rewrite Hg.
  - by apply wp_cret.
  - by eapply wp_drop.
  - by apply wp_cret.
Qed.

(** ** Creation *)

Lemma wp_Create m gs :
  wp cap 5 Create m gs (fun r m' gs' => gs' = gs /\
    match r with
    | Ok H => exists p, m !! p = None /\ H = new_TableHeap p p /\ table_ok H m' [(p, a_empty)] /\ hint_ok H m' [(p, a_empty)] /\
        (forall q, q <> p -> m' !! q = m !! q)
    | Error e => m' = m /\ ok e = false /\ cap <= len gs
    end).
Proof.
  unfold Create. apply (wp_bind _ 1); [lia|]. apply wp_new; [lia| |].
  2: { intros e He Hc. apply wp_cret; [lia|]. by split_and!. }
  intros g Hn Hb Gw. set (p := g_page g) in *. 
  assert (W : wf (Init (page_body (stamped p)))) by (apply Init_wf, length_page_body, stamped_view, Hb).
  assert (Ab : abs (Init (page_body (stamped p))) = a_empty) by (apply Init_abs, length_page_body, stamped_view, Hb).
  apply wp_scoped; [lia|].
  apply (wp_bind _ 1); [lia|]. eapply wp_set_header; [lia|by left|done|by rewrite lookup_insert_eq|]. rewrite insert_insert_eq.
  apply (wp_bind _ 1); [lia|]. eapply wp_set_header; [lia|by left|done|by rewrite lookup_insert_eq|]. rewrite insert_insert_eq.
  apply (wp_bind _ 0); [lia|]. apply wp_bytes; [lia|by left|]. fold p. rewrite lookup_insert_eq. intros ? [= <-] _ _.
  change (edit_page (ENext INVALID_PAGE) (edit_page (EType HEAP) (fresh_page p))) with (stamped p).
  rewrite (proj2 (stamped_view p Hb)).
  apply (wp_bind _ 1); [lia|]. eapply wp_set_body; [lia|by left|done|by rewrite lookup_insert_eq|apply W|]. fold p. rewrite insert_insert_eq.
  apply wp_cret; [lia|]. exists gs. split; [done|]. split; [done|]. exists p. split; [done|]. split; [done|].
  assert (Ch : chained (<[p := patch PAGE_HEADER_SIZE (Init (page_body (stamped p))) (stamped p)]> m) [(p, a_empty)]).
  { intros [|i] q a Hi; [|done]. injection Hi as <- <-. eexists. split; [apply lookup_insert_eq|].
    rewrite <- Ab. by apply stamped_page. }
  split; [split; [done|exact Ch|apply NoDup_singleton|by left]|]. split; [right; left; by left|].
  intros q Hq. by rewrite lookup_insert_ne.
Qed.
End scan.
