(* ===== verification/TableHeapTheorems.v ===== *)
(** * What the table heap promises

    A table is a map from RIDs to tuples; every sequence of operations behaves as that map,
    a scan lists it, and failures leave it alone. *)

From stdpp Require Import gmap.
From S2P Require Import Prelude Common DiskManager DiskProofs DiskTheorems HeapPage HeapPageProofs HeapPageRefine HeapPageTheorems.
From S2P Require Import BufferPool BufferPoolOps PoolRefine PoolRefineProofs BufferPoolTheorems PageStore PageStoreLogic PoolStore.
From S2P Require Import TableHeap TableHeapSpec TableHeapProofs TableScan.

(** ** The abstract table *)

Inductive TableOp :=
  | TInsert (t : list byte)
  | TGet (r : RID)
  | TDelete (r : RID)
  | TUpdate (r : RID) (t : list byte)
  | TScan.

Inductive TableOut :=
  | OutRid (r : Result RID)
  | OutTuple (r : Result (list byte))
  | OutDone (s : Status)
  | OutRows (r : Result (list (RID * list byte))).

(** The rows, and the pages whose RIDs the table has handed out. *)
Record ATable := mkATable { t_rows : gmap RID (list byte); t_pages : list Z }.

Definition tuple_ok (t : list byte) : Prop := 0 < len t <= MAX_TUPLE_SIZE.

(** A RID of the table: one it handed out, whether or not its row is still there. *)
Definition issued (A : ATable) (r : RID) : Prop := rid_page_id r ∈ t_pages A /\ 0 <= rid_slot r.

(** A row may go to a page of the table or to a new last page. *)
Definition hosts (A : ATable) (r : RID) (L : list Z) : Prop :=
  rid_page_id r ∈ L /\ 0 <= rid_slot r /\ (L = t_pages A \/ L = t_pages A ++ [rid_page_id r]).

Inductive table_spec (A : ATable) : TableOp -> TableOut -> ATable -> Prop :=
  | ts_insert t r L :
      tuple_ok t -> t_rows A !! r = None -> hosts A r L ->
      table_spec A (TInsert t) (OutRid (Ok r)) (mkATable (<[r := t]> (t_rows A)) L)
  | ts_insert_bad t e :
      ~ tuple_ok t -> code e = kInvalidArgument -> table_spec A (TInsert t) (OutRid (Error e)) A
  | ts_get r t : t_rows A !! r = Some t -> table_spec A (TGet r) (OutTuple (Ok t)) A
  | ts_get_missing r e :
      t_rows A !! r = None -> code e = kNotFound -> table_spec A (TGet r) (OutTuple (Error e)) A
  | ts_delete r :
      is_Some (t_rows A !! r) ->
      table_spec A (TDelete r) (OutDone StatusOK) (mkATable (delete r (t_rows A)) (t_pages A))
  | ts_delete_missing r e :
      t_rows A !! r = None -> code e = kNotFound -> table_spec A (TDelete r) (OutDone e) A
  | ts_update r t r' L :
      tuple_ok t -> is_Some (t_rows A !! r) -> r' = r \/ t_rows A !! r' = None -> hosts A r' L ->
      table_spec A (TUpdate r t) (OutRid (Ok r')) (mkATable (<[r' := t]> (delete r (t_rows A))) L)
  | ts_update_bad r t e :
      ~ tuple_ok t -> code e = kInvalidArgument -> table_spec A (TUpdate r t) (OutRid (Error e)) A
  | ts_update_missing r t e :
      t_rows A !! r = None -> code e = kNotFound -> table_spec A (TUpdate r t) (OutRid (Error e)) A
  | ts_scan l :
      l ≡ₚ map_to_list (t_rows A) -> table_spec A TScan (OutRows (Ok l)) A.

Inductive table_specs : ATable -> list TableOp -> list TableOut -> ATable -> Prop :=
  | tss_done A : table_specs A [] [] A
  | tss_more A o out A' os outs A'' :
      table_spec A o out A' -> table_specs A' os outs A'' -> table_specs A (o :: os) (out :: outs) A''.

Definition op_enabled (A : ATable) (o : TableOp) : Prop :=
  match o with TGet r | TDelete r | TUpdate r _ => issued A r | _ => True end.

(** A caller who only names RIDs of this table, whatever it was answered before. *)
Fixpoint well_behaved (os : list TableOp) (A : ATable) : Prop :=
  match os with
  | [] => True
  | o :: os => op_enabled A o /\ forall out A', table_spec A o out A' -> well_behaved os A'
  end.

(** ** Running a table *)

Section run.
Context {host : Host} {S : Type} `{!PageStore S}.
Open Scope client_scope.

Definition table_step (fuel : nat) (o : TableOp) (H : TableHeap) : C S (TableOut * TableHeap) :=
  match o with
  | TInsert t => do (r, H) <- Insert fuel t H ; cret (OutRid r, H)
  | TGet r => do t <- Get r ; cret (OutTuple t, H)
  | TDelete r => do (s, H) <- Delete r H ; cret (OutDone s, H)
  | TUpdate r t => do (r, H) <- Update fuel r t H ; cret (OutRid r, H)
  | TScan => do (rows, it) <- Collect fuel fuel (Scan H) ; Close it ;;; cret (OutRows rows, H)
  end.

Fixpoint table_run (fuel : nat) (os : list TableOp) (H : TableHeap) : C S (list TableOut * TableHeap) :=
  match os with
  | [] => cret ([], H)
  | o :: os =>
      do (out, H) <- table_step fuel o H ;
      do (outs, H) <- table_run fuel os H ;
      cret (out :: outs, H)
  end.
End run.

(** The calls of the store one operation may make. *)
Definition op_cost (fuel : nat) : Z := 20 + 9 * Z.of_nat fuel + 2 * Z.of_nat fuel * Z.of_nat fuel.

Section theorems.
Context {host : Host} {S : Type} `{!PageStore S, !PageStoreLaws S}.
Context (cap : Z).

Definition abstracts (A : ATable) (T : layout) : Prop := t_rows A = contents T /\ t_pages A = T.*1.

(** How an operation may change the pages: those of the table, now on the list [L'], which has
    grown from [L] by pages that were not allocated. *)
Record grew (m : pages_t) (L : list Z) (m' : pages_t) (L' : list Z) : Prop := {
  gw_old p : p ∈ L -> p ∈ L';
  gw_new p : p ∈ L' -> p ∈ L \/ m !! p = None;
  gw_rest p : p ∉ L' -> m' !! p = m !! p
}.

Lemma grew_same m L : grew m L m L.
Proof. split; auto. Qed.

Lemma grew_trans m1 L1 m2 L2 m3 L3 : grew m1 L1 m2 L2 -> grew m2 L2 m3 L3 -> grew m1 L1 m3 L3.
Proof.
  intros [A1 A2 A3] [B1 B2 B3]. split; [auto| |].
  - intros p [Hp|Hp]%B2; [by apply A2|]. destruct (decide (p ∈ L2)) as [Hq|Hq]; [by apply A2|]. right. by rewrite <- A3.
  - intros p Hp. rewrite B3 by done. apply A3. auto.
Qed.

(** One operation refines one step of the abstract table. *)
Definition refines_step (A : ATable) (o : TableOp) (m : pages_t) (T : layout)
    (r : TableOut * TableHeap) (m' : pages_t) (gs' : list PageGuard) : Prop :=
  gs' = [] /\ let '(out, H') := r in
  exists A' T', table_spec A o out A' /\ abstracts A' T' /\ table_ok H' m' T' /\ hint_ok H' m' T' /\
    (length T' <= 1 + length T)%nat /\ (length (table_rows T') <= 1 + length (table_rows T))%nat /\
    grew m T.*1 m' T'.*1.

Lemma same_step A o out T m H' :
  abstracts A T -> table_spec A o out A -> table_ok H' m T -> hint_ok H' m T -> refines_step A o m T (out, H') m [].
Proof. intros Ab Sp K Hh. split; [done|]. exists A, T. split_and!; try done; [lia|lia|apply grew_same]. Qed.

Lemma size_rows T : NoDup T.*1 -> size (contents T) = length (table_rows T).
Proof.
  intros ND. unfold contents. rewrite <- length_map_to_list. apply Permutation_length.
  apply map_to_list_to_map. by apply NoDup_table_rows.
Qed.

(** A step that puts one row somewhere and takes at most one away. *)
Lemma grown_step A o out r t H' m m' T T' A' :
  abstracts A T -> table_spec A o out A' -> t_pages A' = T'.*1 -> t_rows A' = contents T' ->
  table_ok H' m' T' -> hint_ok H' m' T' -> NoDup T.*1 ->
  contents T' = <[r := t]> (contents T) \/ (exists x, contents T' = <[r := t]> (delete x (contents T))) \/ (exists x, contents T' = delete x (contents T)) ->
  T'.*1 = T.*1 \/ (m !! rid_page_id r = None /\ T'.*1 = T.*1 ++ [rid_page_id r]) -> (forall p, p ∉ T'.*1 -> m' !! p = m !! p) ->
  refines_step A o m T (out, H') m' [].
Proof.
  intros Ab Sp Ep Er K Hh ND Hc Hch Fr. split; [done|]. exists A', T'. split; [done|]. split; [by split|]. split; [done|]. split; [done|].
  assert (Hlen : forall l : layout, length l.*1 = length l) by (intros; apply length_fmap).
  split; [rewrite <- (Hlen T), <- (Hlen T'); destruct Hch as [->|[_ ->]]; rewrite ?length_app; cbn; lia|].
  split; [rewrite <- !size_rows by (done || apply K)|].
  { assert (Hi : forall M : gmap RID (list byte), (size (<[r := t]> M) <= 1 + size M)%nat) by
      (intros M; rewrite map_size_insert; destruct (M !! r); cbn; lia).
    assert (Hd : forall x, (size (delete x (contents T)) <= size (contents T))%nat) by
      (intros x; rewrite map_size_delete; destruct (contents T !! x); cbn; lia).
    destruct Hc as [->|[[x ->]|[x ->]]]; [apply Hi|etrans; [apply Hi|specialize (Hd x); lia]|specialize (Hd x); lia]. }
  destruct Hch as [Hch|[Hn Hch]].
  - split; [by rewrite Hch|rewrite Hch; by left|done].
  - split; rewrite Hch; [intros p Hp; apply elem_of_app; by left| |by rewrite <- Hch]. intros p [Hp|Hp]%elem_of_app; [by left|]. right. by apply list_elem_of_singleton in Hp as ->.
Qed.

Lemma table_insert_step fuel t A H m T :
  2 <= cap -> abstracts A T -> table_ok H m T -> hint_ok H m T -> (length T < fuel)%nat ->
  wp cap (op_cost fuel) (table_step fuel (TInsert t) H) m [] (refines_step A (TInsert t) m T).
Proof.
  intros Hcap Ab K Hh Hf. pose proof Ab as [Ar Ap]. cbn [table_step]. apply (wp_bind _ (insert_cost fuel)); [unfold op_cost, insert_cost; lia|].
  eapply wp_mono; [reflexivity| |apply wp_Insert; try done; apply unlatched_nil].
  intros [r H'] m' gs' [-> R]. apply wp_cret; [unfold op_cost, insert_cost; lia|]. case_decide as Ht.
  - destruct r as [r|e]; [|destruct R as (_ & _ & _ & _ & _ & Hc); cbn in Hc; lia].
    destruct R as [T' [K' Hin Ff Hp Hs Fr Er Ch Fm]].
    eapply (grown_step A _ _ r t H' m m' T T' (mkATable (<[r := t]> (t_rows A)) T'.*1)); try done.
    + apply ts_insert; [done|by rewrite Ar|]. split; [done|]. split; [done|]. rewrite Ap. destruct Ch as [->|[_ ->]]; auto.
    + cbn. by rewrite Ar.
    + right. by left.
    + apply K.
    + by left.
  - destruct R as (-> & -> & e & -> & Hc). apply same_step; try done. by apply ts_insert_bad.
Qed.

Lemma table_get_step fuel r A H m T :
  2 <= cap -> abstracts A T -> table_ok H m T -> hint_ok H m T -> issued A r ->
  wp cap (op_cost fuel) (table_step fuel (TGet r) H) m [] (refines_step A (TGet r) m T).
Proof.
  intros Hcap Ab K Hh [Hp Hs]. pose proof Ab as [Ar Ap]. rewrite Ap in Hp. cbn [table_step].
  apply (wp_bind _ 2); [unfold op_cost; lia|]. eapply wp_mono; [reflexivity| |eapply wp_Get; try done; by intros g Hg%elem_of_nil].
  intros t m' gs' (-> & -> & R). apply wp_cret; [unfold op_cost; lia|]. apply same_step; try done. destruct t as [t|e].
  - apply ts_get. by rewrite Ar.
  - destruct R as [[R1 R2]|[_ R]]; [|cbn in R; lia]. apply ts_get_missing; [by rewrite Ar|done].
Qed.

Lemma table_delete_step fuel r A H m T :
  2 <= cap -> abstracts A T -> table_ok H m T -> hint_ok H m T -> issued A r ->
  wp cap (op_cost fuel) (table_step fuel (TDelete r) H) m [] (refines_step A (TDelete r) m T).
Proof.
  intros Hcap Ab K Hh [Hp Hs]. pose proof Ab as [Ar Ap]. rewrite Ap in Hp. cbn [table_step].
  apply (wp_bind _ 3); [unfold op_cost; lia|]. eapply wp_mono; [reflexivity| |eapply wp_Delete; try done; apply unlatched_nil].
  intros [st H'] m' gs' [-> R]. apply wp_cret; [unfold op_cost; lia|].
  destruct R as [(-> & Hr & T' & [K' Hh' Ff Ch Fm] & Er)|(-> & -> & [[R1 R2]|[_ R]])]; [| |cbn in R; lia].
  - eapply (grown_step A _ _ r [] H' m m' T T' (mkATable (delete r (t_rows A)) (t_pages A))); try done.
    + apply ts_delete. by rewrite Ar.
    + cbn. by rewrite Ap, Ch.
    + cbn. by rewrite Ar.
    + apply K.
    + right. right. by exists r.
    + by left.
    + by rewrite Ch.
  - apply same_step; try done. apply ts_delete_missing; [by rewrite Ar|done].
Qed.

Lemma table_update_step fuel r t A H m T :
  2 <= cap -> abstracts A T -> table_ok H m T -> hint_ok H m T -> (length T < fuel)%nat -> issued A r ->
  wp cap (op_cost fuel) (table_step fuel (TUpdate r t) H) m [] (refines_step A (TUpdate r t) m T).
Proof.
  intros Hcap Ab K Hh Hf [Hp Hs]. pose proof Ab as [Ar Ap]. rewrite Ap in Hp. cbn [table_step].
  apply (wp_bind _ (6 + insert_cost fuel)); [unfold op_cost, insert_cost; lia|].
  eapply wp_mono; [reflexivity| |apply wp_Update; try done; apply unlatched_nil].
  intros [r' H'] m' gs' [-> R]. apply wp_cret; [unfold op_cost, insert_cost; lia|]. destruct r' as [r'|e].
  - destruct R as (Ht & Hr & Hr' & T' & K' & Hh' & Ff & Er & Hp' & Hs' & Ch & Fm).
    eapply (grown_step A _ _ r' t H' m m' T T' (mkATable (<[r' := t]> (delete r (t_rows A))) T'.*1)); try done.
    + apply ts_update; [done|by rewrite Ar|by rewrite Ar|]. split; [done|]. split; [done|]. rewrite Ap. destruct Ch as [->|[_ ->]]; auto.
    + cbn. by rewrite Ar.
    + apply K.
    + right. left. by exists r.
  - destruct R as [(-> & K' & Hh' & Ff & Why)|(_ & R & _)]; [|cbn in R; lia]. apply same_step; try done.
    destruct Why as [[Ht Hc]|[[Hr Hc]|[_ Hc]]]; [by apply ts_update_bad|apply ts_update_missing; [by rewrite Ar|done]|cbn in Hc; lia].
Qed.

Lemma table_scan_step fuel A H m T :
  2 <= cap -> abstracts A T -> table_ok H m T -> hint_ok H m T -> (length T < fuel)%nat -> (length (table_rows T) < fuel)%nat ->
  wp cap (op_cost fuel) (table_step fuel TScan H) m [] (refines_step A TScan m T).
Proof.
  intros Hcap Ab K Hh Hf Hr. pose proof Ab as [Ar Ap]. cbn [table_step].
  apply (wp_bind _ (2 * Z.of_nat fuel * Z.of_nat fuel)); [unfold op_cost; lia|].
  eapply wp_mono; [reflexivity| |eapply (wp_Collect cap fuel fuel (Scan H) H m [] [] T); try done].
  - intros [rows it] m' gs' [-> R]. destruct rows as [rows|e]; [|destruct R as (_ & R & _); cbn in R; lia]. destruct R as (-> & -> & Fin).
    apply (wp_bind _ 1); [unfold op_cost; lia|]. eapply wp_mono; [reflexivity| |eapply wp_Close, (iter_end T), Fin].
    intros [] m' gs'' [-> ->]. apply wp_cret; [unfold op_cost; lia|]. apply same_step; try done.
    apply ts_scan. rewrite Ar. symmetry. apply map_to_list_to_map, NoDup_table_rows, K.
  - intros p _ g Hg. by apply elem_of_nil in Hg.
  - apply iter_before; try done. apply K.
Qed.

Lemma wp_table_run fuel os A H m T :
  2 <= cap -> table_ok H m T -> hint_ok H m T -> abstracts A T -> well_behaved os A ->
  (length T + length os < fuel)%nat -> (length (table_rows T) + length os < fuel)%nat ->
  wp cap (op_cost fuel * len os) (table_run fuel os H) m [] (fun r m' gs' => gs' = [] /\
    let '(outs, H') := r in exists A' T', table_specs A os outs A' /\ table_ok H' m' T' /\ hint_ok H' m' T' /\ abstracts A' T' /\
      grew m T.*1 m' T'.*1).
Proof.
  intros Hcap. revert A H m T. induction os as [|o os IH]; intros A H m T K Hh Ab Wb Hf Hr; cbn [table_run].
  { apply wp_cret; [cbn; lia|]. split; [done|]. exists A, T. split_and!; try done; [constructor|apply grew_same]. }
  destruct Wb as [En Wb]. cbn [length] in Hf, Hr. assert (Hc : 0 <= op_cost fuel) by (unfold op_cost; lia).
  apply (wp_bind _ (op_cost fuel)); [cbn [length]; nia|].
  eapply (wp_mono _ _ _ _ _ _ _ (refines_step A o m T)); [reflexivity| |].
  2: { destruct o; [by apply table_insert_step; try lia|by apply table_get_step|by apply table_delete_step|by apply table_update_step; try lia|by apply table_scan_step; try lia]. }
  intros [out H1] m1 gs1 [-> (A1 & T1 & Sp & Ab1 & K1 & Hh1 & L1 & R1 & G1)].
  apply (wp_bind _ (op_cost fuel * len os)); [cbn [length]; nia|].
  eapply wp_mono; [reflexivity| |apply (IH A1 H1 m1 T1); try done; [by eapply Wb|lia|lia]].
  intros [outs H2] m2 gs2 [-> (A2 & T2 & Sp2 & K2 & Hh2 & Ab2 & G2)]. apply wp_cret; [cbn [length]; nia|].
  split; [done|]. exists A2, T2. split; [by econstructor|]. split_and!; try done. by eapply grew_trans.
Qed.

(** ** The claims *)

(** C14: On any page store with at least two frames whose file answers (the buffer pool on a disk
    without I/O failures is one), every sequence of inserts, gets, deletes, updates and scans by a caller who names only RIDs of this table
    returns, and behaves as a map from RIDs to tuples: an insert takes a RID that names no
    row, an update keeps its RID or moves the row to a free one, a get or delete of a missing
    row is kNotFound, a bad tuple length is kInvalidArgument, a scan lists exactly the rows,
    and no other error occurs.  No guard is left open, the table grows only by pages that were
    free, and no page outside it changes. *)
Theorem table_refines_map fuel os A H m T n s :
  2 <= cap -> table_ok H m T -> hint_ok H m T -> abstracts A T -> well_behaved os A ->
  (length T + length os < fuel)%nat -> (length (table_rows T) + length os < fuel)%nat ->
  0 <= n -> rep cap (n + op_cost fuel * len os) m [] s ->
  exists outs H' s' m' A' T',
    table_run fuel os H s = Some ((outs, H'), s') /\ rep cap n m' [] s' /\
    table_specs A os outs A' /\ table_ok H' m' T' /\ hint_ok H' m' T' /\ abstracts A' T' /\
    grew m T.*1 m' T'.*1.
Proof.
  intros Hcap K Hh Ab Wb Hf Hr Hn R.
  destruct (wp_table_run fuel os A H m T Hcap K Hh Ab Wb Hf Hr n s Hn R)
    as ([outs H'] & s' & m' & gs' & E & R' & -> & A' & T' & Sp & K' & Hh' & Ab' & G).
  by exists outs, H', s', m', A', T'.
Qed.

(** C17: [Insert] on every branch, whatever hint the table holds (its own page, a page that is
    gone or no heap page, none) and even when [last_page_id] lags behind the chain: it returns
    within one step per page, a stored tuple gets a RID that named no row and every other row
    keeps its own, the chain is kept or extended by one page that was not allocated before,
    and a refused insert (bad length, or fewer than two frames for the caller's guards plus
    its own) changes no page at all.  The store's file answers: fetches fail only for want of
    frames. *)
Theorem table_insert_contract fuel t H m gs T n s :
  table_ok H m T -> hint_ok H m T -> unlatched gs (insert_hint H :: T.*1) -> (length T < fuel)%nat ->
  0 <= n -> rep cap (n + insert_cost fuel) m gs s ->
  exists r H' s' m', Insert fuel t H s = Some ((r, H'), s') /\ rep cap n m' gs s' /\
    match r with
    | Ok rid => exists T', insert_done t H m T rid H' m' T'
    | Error e => m' = m /\ table_ok H' m T /\ hint_ok H' m T /\
        (~ tuple_ok t /\ code e = kInvalidArgument \/ tuple_ok t /\ ok e = false /\ cap <= len gs + 1)
    end.
Proof.
  intros K Hh U Hf Hn R. destruct (wp_Insert cap fuel t H m gs T K Hh Hf U n s Hn R) as ([r H'] & s' & m' & gs' & E & R' & -> & Q).
  exists r, H', s', m'. split; [done|]. split; [done|]. case_decide as Ht.
  - destruct r as [rid|e]; [done|]. destruct Q as (-> & K' & Hh' & _ & He & Hc). split_and!; try done. by right.
  - destruct Q as (-> & -> & e & -> & Hc). split_and!; try done. by left.
Qed.

(** C19: A scan with [Next] until it answers false returns, in chain and slot order, exactly the
    rows of the table, skipping dead slots and drained pages, changes no page and leaves no
    guard open; it needs only one free frame, however long the table is, of a store whose file
    answers. *)
Theorem table_scan_exact fuel steps H m gs T n s :
  table_ok H m T -> (forall p, p ∈ T.*1 -> admissible false p gs) -> len gs < cap ->
  (length T < fuel)%nat -> (length (table_rows T) < steps)%nat ->
  0 <= n -> rep cap (n + (1 + 2 * Z.of_nat fuel * Z.of_nat steps)) m gs s ->
  exists it s1 s', Collect steps fuel (Scan H) s = Some ((Ok (table_rows T), it), s1) /\
    Close it s1 = Some (tt, s') /\ isValid (Rid it) = false /\ rep cap n m gs s'.
Proof.
  intros K Rd Hcap Hf Hr Hn R.
  destruct (wp_Collect cap steps fuel (Scan H) H m gs gs T (table_rows T) K Rd Hf ltac:(apply iter_before; try done; apply K) Hr (n + 1) s ltac:(lia))
    as ([[rows|e] it] & s1 & m1 & gs1 & E & R1 & -> & Q); [by replace (n + 1 + 2 * Z.of_nat fuel * Z.of_nat steps) with (n + (1 + 2 * Z.of_nat fuel * Z.of_nat steps)) by lia| |lia].
  destruct Q as (-> & -> & Fin). destruct (wp_Close cap T gs it gs [] m (iter_end T gs it Fin) n s1 Hn R1) as ([] & s' & m' & gs' & E' & R' & -> & ->).
  exists it, s1, s'. split_and!; try done. unfold isValid, Rid. cbn. by rewrite (proj2 Fin).
Qed.
End theorems.

(** ** A table in a buffer pool of two frames *)

#[local] Existing Instance debug_host.
#[local] Instance errno_text_table : ErrnoText := {| errno_message n := pretty n |}.

#[local] Opaque demo_disk.

Lemma demo_rep n : 0 <= n < 2 ^ 30 -> rep 2 n (pages (store_of demo_disk [])) [] demo_pool.
Proof.
  intros Hn. change (pool_rep 2 n (pages (store_of demo_disk [])) [] demo_pool). destruct demo_disk_ok as (D & Cn & F).
  apply pool_rep_new; [exact D|apply demo_disk_snug|lia|lia|rewrite Cn; lia].
Qed.

#[local] Opaque demo_pool.

(** A new table: the two frames of the pool are enough for everything below. *)
Lemma demo_table n :
  0 <= n < 2 ^ 29 ->
  exists p P m, Create demo_pool = Some (Ok (new_TableHeap p p), P) /\ rep 2 n m [] P /\
    table_ok (new_TableHeap p p) m [(p, a_empty)] /\ hint_ok (new_TableHeap p p) m [(p, a_empty)].
Proof.
  intros Hn. destruct (wp_Create 2 (pages (store_of demo_disk [])) [] n demo_pool) as ([H|e] & P & m & gs & E & R & -> & Q); [lia|apply demo_rep; lia| |].
  - destruct Q as (p & _ & -> & K & Hh & _). exists p, P, m. exact (conj E (conj R (conj K Hh))).
  - destruct Q as (_ & _ & Hc). cbn in Hc. lia.
Qed.

Definition demo_table_ops (p : Z) : list TableOp :=
  [TInsert (tup 3 x07); TGet (mkRID p 0); TUpdate (mkRID p 0) (tup 5 x08); TInsert []; TScan; TDelete (mkRID p 0)].

Lemma pages_grow A o out A' p : table_spec A o out A' -> p ∈ t_pages A -> p ∈ t_pages A'.
Proof.
  assert (G : forall r L, hosts A r L -> p ∈ t_pages A -> p ∈ L).
  { intros r L (_ & _ & [->| ->]) Hp; [done|]. apply elem_of_app. by left. }
  intros Sp Hp. destruct Sp; cbn; eauto.
Qed.

Lemma behaved_page os p A :
  p ∈ t_pages A ->
  Forall (fun o => match o with TGet r | TDelete r | TUpdate r _ => r = mkRID p 0 | _ => True end) os -> well_behaved os A.
Proof.
  intros Hp F. revert A Hp. induction F as [|o os Ho F IH]; intros A Hp; [done|]. split.
  - destruct o; cbn; try done; by rewrite Ho.
  - intros out A' Sp. apply IH. by eapply pages_grow.
Qed.

Lemma table_refines_map_witness :
  exists p P outs H' P', Create demo_pool = Some (Ok (new_TableHeap p p), P) /\
    table_run 10 (demo_table_ops p) (new_TableHeap p p) P = Some ((outs, H'), P') /\ length outs = 6%nat.
Proof.
  destruct (demo_table (op_cost 10 * 6)) as (p & P & m & E & R & K & Hh); [split; vm_compute; congruence|].
  destruct (table_refines_map 2 10 (demo_table_ops p) (mkATable ∅ [p]) (new_TableHeap p p) m [(p, a_empty)] 0 P)
    as (outs & H' & P' & m' & A' & T' & E' & _ & Sp & _); [lia|exact K|exact Hh|split; reflexivity| |cbn; lia|cbn; lia|lia|exact R|]; clear R K Hh.
  - clear E. apply (behaved_page _ p); [by left|]. by repeat constructor.
  - exists p, P, outs, H', P'. split; [exact E|]. split; [exact E'|]. clear -Sp.
    repeat (inversion Sp as [|? ? ? ? ? ? ? _ Sp']; subst; cbn; f_equal; clear Sp; rename Sp' into Sp).
Defined.

Lemma table_insert_contract_witness :
  exists p P H' P' rid, Create demo_pool = Some (Ok (new_TableHeap p p), P) /\
    Insert 2 (tup 3 x07) (new_TableHeap p p) P = Some ((Ok rid, H'), P').
Proof.
  destruct (demo_table (insert_cost 2)) as (p & P & m & E & R & K & Hh); [split; vm_compute; congruence|].
  destruct (table_insert_contract 2 2 (tup 3 x07) (new_TableHeap p p) m [] [(p, a_empty)] 0 P K Hh (unlatched_nil _) ltac:(cbn; lia) ltac:(lia) R)
    as ([rid|e] & H' & P' & m' & E' & _ & Q).
  - exists p, P, H', P', rid. exact (conj E E').
  - exfalso. destruct Q as (_ & _ & _ & [[Nt _]|(_ & _ & Hc)]); [apply Nt; split; vm_compute; congruence|cbn in Hc; lia].
Defined.

Lemma table_scan_exact_witness :
  exists p P it P1, Create demo_pool = Some (Ok (new_TableHeap p p), P) /\
    Collect 1 2 (Scan (new_TableHeap p p)) P = Some ((Ok [], it), P1) /\ isValid (Rid it) = false.
Proof.
  destruct (demo_table 5) as (p & P & m & E & R & K & Hh); [lia|].
  destruct (table_scan_exact 2 2 1 (new_TableHeap p p) m [] [(p, a_empty)] 0 P K) as (it & P1 & P2 & E1 & _ & V & _);
    [intros q _ g Hg%elem_of_nil; destruct Hg|reflexivity|cbn; lia|cbn; lia|lia|exact R|].
  exists p, P, it, P1. exact (conj E (conj E1 V)).
Defined.
