(* ===== verification/TableThreads.v ===== *)
(** * The table heap under several threads: src/src/heap/table_heap.cpp

    Every operation of [TableHeap] and of its iterator cut at the points where other threads
    can come in: a fetch, which waits for the content latch or fails; the work on latched
    pages; each load and store of the two atomics; the release of a guard.  The store below is
    atomic pages under latches, which is what PoolThreadsTheorems.v proves of the buffer pool.
    A thread is inside one call at a time and may have an iterator open between calls, which
    keeps the read latch of the page it stands on. *)

From stdpp Require Import gmap.
From S2P Require Import Prelude Common HeapPage BufferPool BufferPoolOps PoolRefine PageStore PageStoreLogic TableHeap.

(** ** Calls and answers *)

Inductive TOp :=
| TInsert (t : list byte)
| TGet (rid : RID)
| TDelete (rid : RID)
| TUpdate (rid : RID) (t : list byte)
| TScan
| TNext
| TClose.

Inductive Answer :=
| AnsRid (r : Result RID)
| AnsBytes (r : Result (list byte))
| AnsStatus (st : Status)
| AnsRow (r : Result (option (RID * list byte)))
| AnsDone.

(** What follows an [Insert]: its return, or the rest of an [Update] that moves [rid]. *)
Inductive AfterInsert := ReturnRid | RemoveOld (rid : RID).
(** What follows a [Delete]: its return, or the return of an [Update] that moved the row. *)
Inductive AfterDelete := ReturnStatus | ReturnMoved (new : RID).

Inductive TPc :=
| TIdle
(** Insert, the rotating cursor *)
| LoadHint (t : list byte) (k : AfterInsert)
| ProbeFetch (probes : nat) (p : Z) (from_hint : bool) (t : list byte) (k : AfterInsert)
| ProbeTry (probes : nat) (p : Z) (hint_recoverable : bool) (t : list byte) (k : AfterInsert)
| ProbeTurn (probes : nat) (p next : Z) (t : list byte) (k : AfterInsert)
| ProbeDrop (probes : nat) (p next : Z) (t : list byte) (k : AfterInsert)
(** Insert, append at the last page *)
| LoadLast (t : list byte) (k : AfterInsert)
| AppendFetch (p : Z) (t : list byte) (k : AfterInsert)
| AppendTry (p : Z) (t : list byte) (k : AfterInsert)
| AppendDrop (p next : Z) (t : list byte) (k : AfterInsert)
| Extend (p : Z) (t : list byte) (k : AfterInsert)
| Fill (p q : Z) (t : list byte) (k : AfterInsert)
| Link (p q s : Z) (t : list byte) (k : AfterInsert)
| StoreLast (p q : Z) (rid : RID) (k : AfterInsert)
(** Insert, on the way out *)
| StoreHint (held : list Z) (hint : Z) (rid : RID) (k : AfterInsert)
| Release (held : list Z) (r : Result RID) (k : AfterInsert)
(** Get *)
| GetFetch (rid : RID)
| GetRead (rid : RID)
| GetDrop (rid : RID) (r : Result (list byte))
(** Delete *)
| DelFetch (rid : RID) (k : AfterDelete)
| DelTry (rid : RID) (k : AfterDelete)
| DelHint (rid : RID) (st : Status) (k : AfterDelete)
| DelDrop (rid : RID) (st : Status) (k : AfterDelete)
(** Update *)
| UpdFetch (rid : RID) (t : list byte)
| UpdTry (rid : RID) (t : list byte)
| UpdDrop (rid : RID) (t : list byte) (outcome : Result UpdateOutcome)
(** Next *)
| NextFetch
| NextLook
| NextDrop (next : Z)
| Reply (a : Answer).

Record TThread := mkTThread { tpc : TPc; iter : option TableIterator }.

Record TConf := mkTConf { tpages : gmap Z (list byte); ttable : TableHeap; tthreads : list TThread }.

(** ** Latches *)

(** The pages a thread has latched for writing, and for reading. *)
Definition wheld (c : TPc) : list Z :=
  match c with
  | ProbeTry _ p _ _ _ | ProbeTurn _ p _ _ _ | ProbeDrop _ p _ _ _ | AppendTry p _ _ | AppendDrop p _ _ _ | Extend p _ _ => [p]
  | Fill p q _ _ | Link p q _ _ _ | StoreLast p q _ _ => [q; p]
  | StoreHint held _ _ _ | Release held _ _ => held
  | DelTry rid _ | DelHint rid _ _ | DelDrop rid _ _ | UpdTry rid _ | UpdDrop rid _ _ => [rid_page_id rid]
  | _ => []
  end.
Definition reading (c : TPc) : list Z :=
  match c with GetRead rid | GetDrop rid _ => [rid_page_id rid] | _ => [] end.
Definition iter_held (o : option TableIterator) : list Z :=
  match o with Some it => match guard_ it with Some g => [g_page g] | None => [] end | None => [] end.
Definition rheld (th : TThread) : list Z := reading (tpc th) ++ iter_held (iter th).

Definition write_locked (p : Z) (ts : list TThread) : bool := existsb (fun th => bool_decide (p ∈ wheld (tpc th))) ts.
Definition read_locked (p : Z) (ts : list TThread) : bool := existsb (fun th => bool_decide (p ∈ rheld th)) ts.

(** ** One piece *)

Inductive TOutcome :=
| TBlocks
| TGoes (m : gmap Z (list byte)) (H : TableHeap) (next : TPc) (it : option TableIterator).

(** Where an operation that needs a row's bytes goes from here. *)
Definition after_insert (r : Result RID) (k : AfterInsert) : TPc :=
  match k, r with
  | RemoveOld rid, Ok new => DelFetch rid (ReturnMoved new)
  | _, _ => Reply (AnsRid r)
  end.
Definition after_delete (st : Status) (k : AfterDelete) : TPc :=
  match k with
  | ReturnStatus => Reply (AnsStatus st)
  | ReturnMoved new =>
      if negb (ok st) && bool_decide (code st <> kNotFound) then
        Reply (AnsRid (Error (Internal "update relocated the row but could not remove the original; it is now duplicated")))
      else Reply (AnsRid (Ok new))
  end.

(** A guard of the iterator; frame numbers do not show in this model. *)
Definition iter_guard (p : Z) : PageGuard := mkGuard false 0 p true.

Section threads.
Context {host : Host}.

(** [fault]: the fetch or the allocation of this piece fails with this status.  [fresh]: the
    page NewPage would hand out. *)
Definition texec (fault : option Status) (fresh : Z) (ts : list TThread) (c : TPc) (it : option TableIterator)
    (m : gmap Z (list byte)) (H : TableHeap) : TOutcome :=
  let go c := TGoes m H c it in
  let fetch (w : bool) (p : Z) (failed : Status -> TOutcome) (latched : TOutcome) :=
    match fault with
    | Some e => failed e
    | None =>
        if write_locked p ts || (w && read_locked p ts) then TBlocks
        else match m !! p with Some _ => latched | None => TBlocks end
    end in
  let page p := default [] (m !! p) in
  let set p bs := <[p := bs]> m in
  match c with
  | TIdle => TBlocks
  | LoadHint t k =>
      let p := if insert_hint H =? INVALID_PAGE then first_page_id H else insert_hint H in
      go (ProbeFetch INSERT_PROBE_LIMIT p true t k)
  | ProbeFetch probes p from_hint t k =>
      match probes with
      | O => go (LoadLast t k)
      | S probes =>
          if p =? INVALID_PAGE then go (LoadLast t k)
          else
            let hint_recoverable := from_hint && negb (p =? first_page_id H) in
            fetch true p
              (fun e => if negb hint_recoverable then go (Release [] (Error e) k)
                        else go (ProbeFetch probes (first_page_id H) false t k))
              (go (ProbeTry probes p hint_recoverable t k))
      end
  | ProbeTry probes p hint_recoverable t k =>
      match AsHeapPage (page p) with
      | Error e =>
          if negb hint_recoverable then go (Release [p] (Error e) k)
          else go (ProbeDrop probes p (first_page_id H) t k)
      | Ok body =>
          let '(slot, body) := TryInsertOnPage t COMPACT_THRESHOLD body in
          let bs := patch PAGE_HEADER_SIZE body (page p) in
          TGoes (set p bs) H
            (match slot with
             | Error e => Release [p] (Error e) k
             | Ok (Some s) => StoreHint [p] p (mkRID p s) k
             | Ok None =>
                 let next := ph_next_page_id (page_header bs) in
                 ProbeTurn probes p (if next =? INVALID_PAGE then first_page_id H else next) t k
             end) it
      end
  | ProbeTurn probes p next t k => TGoes m (set_hint next H) (ProbeDrop probes p next t k) it
  | ProbeDrop probes p next t k => go (ProbeFetch probes next false t k)
  | LoadLast t k => go (AppendFetch (last_page_id H) t k)
  | AppendFetch p t k => fetch true p (fun e => go (Release [] (Error e) k)) (go (AppendTry p t k))
  | AppendTry p t k =>
      let next := ph_next_page_id (page_header (page p)) in
      if negb (next =? INVALID_PAGE) then go (AppendDrop p next t k)
      else
        match AsHeapPage (page p) with
        | Error e => go (Release [p] (Error e) k)
        | Ok body =>
            let '(slot, body) := TryInsertOnPage t 0 body in
            TGoes (set p (patch PAGE_HEADER_SIZE body (page p))) H
              (match slot with
               | Error e => Release [p] (Error e) k
               | Ok (Some s) => StoreHint [p] p (mkRID p s) k
               | Ok None => Extend p t k
               end) it
        end
  | AppendDrop p next t k => go (AppendFetch next t k)
  | Extend p t k =>
      match fault with
      | Some e => go (Release [p] (Error e) k)
      | None =>
          if bool_decide (m !! fresh = None /\ 2 <= fresh < 2 ^ 31)
          then TGoes (set fresh (fresh_page fresh)) H (Fill p fresh t k) it
          else TBlocks
      end
  | Fill p q t k =>
      let bs := edit_page (ENext INVALID_PAGE) (edit_page (EType HEAP) (page q)) in
      match AsHeapPage bs with
      | Error e => TGoes (set q bs) H (Release [q; p] (Error e) k) it
      | Ok body =>
          let '(slot, body) := HeapPage.Insert t (Init body) in
          TGoes (set q (patch PAGE_HEADER_SIZE body bs)) H
            (match slot with Error e => Release [q; p] (Error e) k | Ok s => Link p q s t k end) it
      end
  | Link p q s t k => TGoes (set p (edit_page (ENext q) (page p))) H (StoreLast p q (mkRID q s) k) it
  | StoreLast p q rid k => TGoes m (set_last q H) (StoreHint [q; p] q rid k) it
  | StoreHint held hint rid k => TGoes m (set_hint hint H) (Release held (Ok rid) k) it
  | Release [] r k => go (after_insert r k)
  | Release (_ :: held) r k => go (Release held r k)
  | GetFetch rid =>
      fetch false (rid_page_id rid) (fun e => go (Reply (AnsBytes (Error e)))) (go (GetRead rid))
  | GetRead rid =>
      go (GetDrop rid
        match AsHeapPage (page (rid_page_id rid)) with
        | Error e => Error e
        | Ok body => HeapPage.Get (rid_slot rid) body
        end)
  | GetDrop rid r => go (Reply (AnsBytes r))
  | DelFetch rid k => fetch true (rid_page_id rid) (fun e => go (after_delete e k)) (go (DelTry rid k))
  | DelTry rid k =>
      match AsHeapPage (page (rid_page_id rid)) with
      | Error e => go (DelDrop rid e k)
      | Ok body =>
          let '(st, body) := HeapPage.Delete (rid_slot rid) body in
          TGoes (set (rid_page_id rid) (patch PAGE_HEADER_SIZE body (page (rid_page_id rid)))) H
            (if ok st then DelHint rid st k else DelDrop rid st k) it
      end
  | DelHint rid st k => TGoes m (set_hint (rid_page_id rid) H) (DelDrop rid st k) it
  | DelDrop rid st k => go (after_delete st k)
  | UpdFetch rid t => fetch true (rid_page_id rid) (fun e => go (Reply (AnsRid (Error e)))) (go (UpdTry rid t))
  | UpdTry rid t =>
      match AsHeapPage (page (rid_page_id rid)) with
      | Error e => go (UpdDrop rid t (Error e))
      | Ok body =>
          let '(outcome, body) := HeapPage.Update (rid_slot rid) t body in
          TGoes (set (rid_page_id rid) (patch PAGE_HEADER_SIZE body (page (rid_page_id rid)))) H (UpdDrop rid t outcome) it
      end
  | UpdDrop rid t outcome =>
      match outcome with
      | Error e => go (Reply (AnsRid (Error e)))
      | Ok kSamePage => go (Reply (AnsRid (Ok rid)))
      | Ok kDoesNotFit =>
          if len t =? 0 then go (Reply (AnsRid (Error (InvalidArgument "cannot insert a zero-length tuple"))))
          else if MAX_TUPLE_SIZE <? len t then
            go (Reply (AnsRid (Error (InvalidArgument "tuple exceeds the maximum tuple size"))))
          else go (LoadHint t (RemoveOld rid))
      end
  | NextFetch =>
      match it with
      | None => TBlocks
      | Some i =>
          if page_id_ i =? INVALID_PAGE then TGoes m H (Reply (AnsRow (Ok None))) (Some i)
          else match guard_ i with
               | Some _ => go NextLook
               | None =>
                   fetch false (page_id_ i) (fun e => go (Reply (AnsRow (Error e))))
                     (TGoes m H NextLook
                        (Some (mkTableIterator (Some (iter_guard (page_id_ i))) (initialized_ i) (page_id_ i) (slot_ i) (tuple_ i))))
               end
      end
  | NextLook =>
      match it with
      | None => TBlocks
      | Some i =>
          match AsHeapPage (page (page_id_ i)) with
          | Error e => go (Reply (AnsRow (Error e)))
          | Ok body =>
              let '(found, slot) :=
                if 0 <? LiveCount body then Next_slots (1 + Z.to_nat (SlotCount body)) (slot_ i) body else (None, slot_ i) in
              let at_slot tuple := Some (mkTableIterator (guard_ i) (initialized_ i) (page_id_ i) slot tuple) in
              match found with
              | Some (Error e) => TGoes m H (Reply (AnsRow (Error e))) (at_slot (tuple_ i))
              | Some (Ok bytes) => TGoes m H (Reply (AnsRow (Ok (Some (mkRID (page_id_ i) slot, bytes))))) (at_slot bytes)
              | None => go (NextDrop (ph_next_page_id (page_header (page (page_id_ i)))))
              end
          end
      end
  | NextDrop next =>
      match it with
      | None => TBlocks
      | Some i => TGoes m H NextFetch (Some (mkTableIterator None (initialized_ i) next 0 (tuple_ i)))
      end
  | Reply _ => TBlocks
  end.

(** A call, up to its first piece. *)
Definition tstart (o : TOp) (H : TableHeap) (it : option TableIterator) : option (TPc * option TableIterator) :=
  match o with
  | TInsert t =>
      Some (if len t =? 0 then Reply (AnsRid (Error (InvalidArgument "cannot insert a zero-length tuple")))
            else if MAX_TUPLE_SIZE <? len t then
              Reply (AnsRid (Error (InvalidArgument "tuple exceeds the maximum tuple size")))
            else LoadHint t ReturnRid, it)
  | TGet rid => Some (GetFetch rid, it)
  | TDelete rid => Some (DelFetch rid ReturnStatus, it)
  | TUpdate rid t => Some (UpdFetch rid t, it)
  | TScan =>
      match it with
      | None => Some (Reply AnsDone, Some (Scan H))
      | Some _ => None
      end
  | TNext =>
      match it with
      | None => None
      | Some i =>
          if page_id_ i =? INVALID_PAGE then Some (Reply (AnsRow (Ok None)), Some i)
          else Some (NextFetch,
            Some (mkTableIterator (guard_ i) true (page_id_ i) (if initialized_ i then u16 (slot_ i + 1) else 0) (tuple_ i)))
      end
  | TClose => match it with None => None | Some _ => Some (Reply AnsDone, None) end
  end.

(** ** Threads over one table *)

Inductive TEvent :=
| TTau
| TInvoked (i : nat) (o : TOp)
| TReplied (i : nat) (a : Answer).

Inductive TMove :=
| TCall (i : nat) (o : TOp)
| TRun (i : nat) (fault : option Status) (fresh : Z).

Definition tstep (mv : TMove) (C : TConf) : option (TConf * TEvent) :=
  match mv with
  | TCall i o =>
      match tthreads C !! i with
      | Some (mkTThread TIdle it) =>
          match tstart o (ttable C) it with
          | Some (c, it) => Some (mkTConf (tpages C) (ttable C) (<[i := mkTThread c it]> (tthreads C)), TInvoked i o)
          | None => None
          end
      | _ => None
      end
  | TRun i fault fresh =>
      match tthreads C !! i with
      | Some (mkTThread (Reply a) it) =>
          Some (mkTConf (tpages C) (ttable C) (<[i := mkTThread TIdle it]> (tthreads C)), TReplied i a)
      | Some (mkTThread c it) =>
          match texec fault fresh (tthreads C) c it (tpages C) (ttable C) with
          | TBlocks => None
          | TGoes m H c it => Some (mkTConf m H (<[i := mkTThread c it]> (tthreads C)), TTau)
          end
      | None => None
      end
  end.

(** A caller names RIDs whose page belongs to the table, a slot id is not negative, and a fetch
    that fails does not say the row is missing. *)
Definition tallowed (chain : list Z) (mv : TMove) : Prop :=
  match mv with
  | TCall _ (TGet rid) | TCall _ (TDelete rid) | TCall _ (TUpdate rid _) => rid_page_id rid ∈ chain /\ 0 <= rid_slot rid
  | TCall _ _ => True
  | TRun _ fault _ => forall e, fault = Some e -> ok e = false /\ code e <> kNotFound
  end.
End threads.
