(* ===== verification/TableLinear.v ===== *)
(** * A table that threads share, as its callers see it

    [AState] is a map from RIDs to tuples, the pages of the table in the order of the chain,
    and for every thread what it is in the middle of.  An operation takes effect in one step
    ([effect_of]) between its call and its return; only an update that moves a row takes three:
    it sees the row, with a tuple that is not too large, puts the new tuple somewhere else, and
    removes the row, which in between is there twice.  TableShared.v shows that TableThreads.v does
    nothing else. *)

From stdpp Require Import gmap.
From S2P Require Import Prelude Common HeapPage TableHeap TableHeapSpec TableThreads.

(** Where a scan stands: behind the last row it delivered, or at the end.  [due] are the rows a
    call of Next may not pass over: they lay ahead of the cursor when it was called and nobody
    has removed them since.  After an error a scan promises nothing about the rows it delivers
    but that they are there. *)
Inductive Cursor := NoScan | Behind (last : option RID) (due : gset RID) | Ended | Broken.

Inductive AStat :=
| AIdle
| APending (o : TOp)
| ALeaving (rid : RID) (t : list byte)
| AMoving (rid new : RID)
| ADone (a : Answer).

Record APart := mkAPart { stat : AStat; cursor : Cursor }.
Record AState := mkAState { as_rows : gmap RID (list byte); as_order : list Z; as_parts : list APart }.

Definition tuple_fits (t : list byte) : Prop := 0 < len t <= MAX_TUPLE_SIZE.

(** [rid] comes after the row [c] in the order of the chain. *)
Definition follows (order : list Z) (c : option RID) (rid : RID) : Prop :=
  match c with
  | None => True
  | Some r => exists i j, order !! i = Some (rid_page_id r) /\ order !! j = Some (rid_page_id rid) /\
      ((i < j)%nat \/ i = j /\ rid_slot r < rid_slot rid)
  end.

#[global] Instance follows_dec order c rid : Decision (follows order c rid).
Proof.
  destruct c as [r|]; [|left; exact I].
  destruct (decide (Exists (fun i => Exists (fun j => order !! i = Some (rid_page_id r) /\ order !! j = Some (rid_page_id rid) /\
    ((i < j)%nat \/ i = j /\ rid_slot r < rid_slot rid)) (seq 0 (length order))) (seq 0 (length order)))) as [Y|N].
  - left. apply Exists_exists in Y as (i & _ & (j & _ & Y)%Exists_exists). by exists i, j.
  - right. intros (i & j & Hi & Hj & R). apply N. pose proof (lookup_lt_Some _ _ _ Hi). pose proof (lookup_lt_Some _ _ _ Hj).
    apply Exists_exists. exists i. split; [apply elem_of_seq; lia|]. apply Exists_exists. exists j. split; [apply elem_of_seq; lia|done].
Defined.

(** A call of Next makes the rows ahead of its cursor due; a row that is removed is due no
    more. *)
Definition arm (o : TOp) (rows : gmap RID (list byte)) (order : list Z) (c : Cursor) : Cursor :=
  match o, c with
  | TNext, Behind r _ => Behind r (filter (fun rid => follows order r rid) (dom rows))
  | _, _ => c
  end.
Definition trim (rows : gmap RID (list byte)) (c : Cursor) : Cursor :=
  match c with Behind r due => Behind r (due ∩ dom rows) | _ => c end.
Definition settle (rows : gmap RID (list byte)) (s : APart) : APart := mkAPart (stat s) (trim rows (cursor s)).

(** A new row lies on a page of the table, perhaps one that joins it now. *)
Definition placed (order order' : list Z) (rid : RID) : Prop :=
  0 <= rid_slot rid /\ (order' = order /\ rid_page_id rid ∈ order \/
    order' = order ++ [rid_page_id rid] /\ rid_page_id rid ∉ order).

(** What a failed fetch or allocation makes an operation answer. *)
Definition failure (o : TOp) (e : Status) : Answer :=
  match o with
  | TInsert _ | TUpdate _ _ => AnsRid (Error e)
  | TGet _ => AnsBytes (Error e)
  | TDelete _ => AnsStatus e
  | TScan | TClose => AnsDone
  | TNext => AnsRow (Error e)
  end.

Section spec.
(** The statuses with which the store below fails. *)
Context (F : Status -> Prop).

(** One operation at one point in time: the rows, the order and the cursor before it, the
    answer, and the three after it. *)
Inductive effect_of : TOp -> gmap RID (list byte) -> list Z -> Cursor -> Answer -> gmap RID (list byte) -> list Z -> Cursor -> Prop :=
| ef_insert t m l c rid l' : tuple_fits t -> m !! rid = None -> placed l l' rid ->
    effect_of (TInsert t) m l c (AnsRid (Ok rid)) (<[rid := t]> m) l' c
| ef_insert_bad t m l c e : ~ tuple_fits t -> code e = kInvalidArgument ->
    effect_of (TInsert t) m l c (AnsRid (Error e)) m l c
| ef_get rid m l c t : m !! rid = Some t -> effect_of (TGet rid) m l c (AnsBytes (Ok t)) m l c
| ef_get_none rid m l c e : m !! rid = None -> code e = kNotFound -> effect_of (TGet rid) m l c (AnsBytes (Error e)) m l c
| ef_delete rid m l c : is_Some (m !! rid) -> effect_of (TDelete rid) m l c (AnsStatus StatusOK) (delete rid m) l c
| ef_delete_none rid m l c e : m !! rid = None -> code e = kNotFound -> effect_of (TDelete rid) m l c (AnsStatus e) m l c
| ef_update rid t m l c : tuple_fits t -> is_Some (m !! rid) ->
    effect_of (TUpdate rid t) m l c (AnsRid (Ok rid)) (<[rid := t]> m) l c
| ef_update_none rid t m l c e : m !! rid = None -> code e = kNotFound -> effect_of (TUpdate rid t) m l c (AnsRid (Error e)) m l c
| ef_update_bad rid t m l c e : ~ tuple_fits t -> code e = kInvalidArgument -> effect_of (TUpdate rid t) m l c (AnsRid (Error e)) m l c
| ef_scan m l : effect_of TScan m l NoScan AnsDone m l (Behind None ∅)
| ef_close m l c : c <> NoScan -> effect_of TClose m l c AnsDone m l NoScan
| ef_next_row m l r due rid t : m !! rid = Some t -> follows l r rid -> (forall x, x ∈ due -> x = rid \/ follows l (Some rid) x) ->
    effect_of TNext m l (Behind r due) (AnsRow (Ok (Some (rid, t)))) m l (Behind (Some rid) ∅)
| ef_next_row_broken m l rid t : m !! rid = Some t -> effect_of TNext m l Broken (AnsRow (Ok (Some (rid, t)))) m l Broken
| ef_next_end m l r due : due = ∅ -> effect_of TNext m l (Behind r due) (AnsRow (Ok None)) m l Ended
| ef_next_ended m l c : c = Ended \/ c = Broken -> effect_of TNext m l c (AnsRow (Ok None)) m l c
| ef_next_fail m l c e : (exists r due, c = Behind r due) \/ c = Broken -> F e -> effect_of TNext m l c (AnsRow (Error e)) m l Broken
| ef_fail o m l c e : F e -> match o with TScan | TClose | TNext => False | _ => True end ->
    effect_of o m l c (failure o e) m l c.

(** What one thread does to the table between its call and its return. *)
Inductive act : gmap RID (list byte) -> list Z -> APart -> gmap RID (list byte) -> list Z -> APart -> Prop :=
| act_none m l s : act m l s m l s
| act_done o m l c a m' l' c' : effect_of o m l c a m' l' c' -> act m l (mkAPart (APending o) c) m' l' (mkAPart (ADone a) c')
| act_seen rid t m l c : tuple_fits t -> is_Some (m !! rid) ->
    act m l (mkAPart (APending (TUpdate rid t)) c) m l (mkAPart (ALeaving rid t) c)
| act_stays rid t m l c e : F e ->
    act m l (mkAPart (ALeaving rid t) c) m l (mkAPart (ADone (AnsRid (Error e))) c)
| act_move rid t m l c new l' : tuple_fits t -> m !! new = None -> placed l l' new ->
    act m l (mkAPart (ALeaving rid t) c) (<[new := t]> m) l' (mkAPart (AMoving rid new) c)
| act_moved rid new m l c : act m l (mkAPart (AMoving rid new) c) (delete rid m) l (mkAPart (ADone (AnsRid (Ok new))) c)
| act_left rid new m l c e e' : F e -> code e' = kInternal ->
    act m l (mkAPart (AMoving rid new) c) m l (mkAPart (ADone (AnsRid (Error e'))) c).

(** The table and its threads: calls, returns, and in between what [act] says. *)
Inductive aruns : AState -> list TEvent -> AState -> Prop :=
| aruns_none S : aruns S [] S
| aruns_call S1 evs m l ps i o c :
    aruns S1 evs (mkAState m l ps) -> ps !! i = Some (mkAPart AIdle c) ->
    aruns S1 (evs ++ [TInvoked i o]) (mkAState m l (<[i := mkAPart (APending o) (arm o m l c)]> ps))
| aruns_act S1 evs m l ps i s m' l' s' :
    aruns S1 evs (mkAState m l ps) -> ps !! i = Some s -> act m l s m' l' s' -> aruns S1 evs (mkAState m' l' (settle m' <$> <[i := s']> ps))
| aruns_return S1 evs m l ps i a c :
    aruns S1 evs (mkAState m l ps) -> ps !! i = Some (mkAPart (ADone a) c) ->
    aruns S1 (evs ++ [TReplied i a]) (mkAState m l (<[i := mkAPart AIdle c]> ps)).
End spec.

(** ** Where a thread of TableThreads.v is *)

Definition stat_inserting (t : list byte) (k : AfterInsert) : AStat :=
  match k with ReturnRid => APending (TInsert t) | RemoveOld rid => ALeaving rid t end.
Definition stat_inserted (r : Result RID) (k : AfterInsert) : AStat :=
  match r, k with
  | Ok new, RemoveOld rid => AMoving rid new
  | _, _ => ADone (AnsRid r)
  end.
Definition stat_deleting (rid : RID) (k : AfterDelete) : AStat :=
  match k with ReturnStatus => APending (TDelete rid) | ReturnMoved new => AMoving rid new end.
Definition stat_deleted (st : Status) (k : AfterDelete) : AStat :=
  match after_delete st k with Reply a => ADone a | _ => AIdle end.

Definition stat_of (c : TPc) : AStat :=
  match c with
  | TIdle => AIdle
  | LoadHint t k | ProbeFetch _ _ _ t k | ProbeTry _ _ _ t k | ProbeTurn _ _ _ t k | ProbeDrop _ _ _ t k
  | LoadLast t k | AppendFetch _ t k | AppendTry _ t k | AppendDrop _ _ t k | Extend _ t k | Fill _ _ t k | Link _ _ _ t k =>
      stat_inserting t k
  | StoreLast _ _ rid k | StoreHint _ _ rid k => stat_inserted (Ok rid) k
  | Release _ r k => stat_inserted r k
  | GetFetch rid | GetRead rid => APending (TGet rid)
  | GetDrop _ r => ADone (AnsBytes r)
  | DelFetch rid k | DelTry rid k => stat_deleting rid k
  | DelHint _ st k | DelDrop _ st k => stat_deleted st k
  | UpdFetch rid t | UpdTry rid t => APending (TUpdate rid t)
  | UpdDrop rid t (Error e) => ADone (AnsRid (Error e))
  | UpdDrop rid t (Ok kSamePage) => ADone (AnsRid (Ok rid))
  | UpdDrop rid t (Ok kDoesNotFit) => ALeaving rid t
  | NextFetch | NextLook | NextDrop _ => APending TNext
  | Reply a => ADone a
  end.

(** ** The chain of a table, read off its pages *)

Fixpoint walk (fuel : nat) (p : Z) (m : gmap Z (list byte)) : list Z :=
  match fuel with
  | O => []
  | S fuel =>
      match m !! p with
      | Some bs => p :: walk fuel (ph_next_page_id (PoolRefine.page_header bs)) m
      | None => []
      end
  end.
Definition chain (C : TConf) : list Z := walk (size (tpages C)) (first_page_id (ttable C)) (tpages C).

(** Runs: calls are allowed, faults are among [F]; the events that callers see. *)
Definition visible (ev : TEvent) : list TEvent := match ev with TTau => [] | _ => [ev] end.

Inductive truns {host : Host} (F : Status -> Prop) : TConf -> list TEvent -> TConf -> Prop :=
| truns_none C : truns F C [] C
| truns_more C1 evs C2 mv C3 ev :
    truns F C1 evs C2 -> tallowed (chain C2) mv -> (forall i e fresh, mv = TRun i (Some e) fresh -> F e) ->
    tstep mv C2 = Some (C3, ev) -> truns F C1 (evs ++ visible ev) C3.
