(* ===== verification/TableShared.v ===== *)
(** * What holds of a table that threads share

    The pages of the table form a chain that only grows at its end; a thread that extends it
    has the last page latched and the new page to itself.  Each piece of a thread keeps this,
    leaves what the other threads rely on, and does to the rows what TableLinear.v allows. *)

From stdpp Require Import gmap.
From S2P Require Import Prelude Common HeapPage HeapPageProofs HeapPageRefine HeapPageTheorems.
From S2P Require Import BufferPool BufferPoolOps BufferPoolLifecycle PoolRefine PageStore PageStoreLogic.
From S2P Require Import TableHeap TableHeapSpec TableHeapProofs TableScan TableThreads TableLinear.

#[local] Opaque fresh_page edit_page patch stamped.

(** ** The shared state *)

Definition last_of (T : layout) (p : Z) : Prop := last T.*1 = Some p.

Record shared (H : TableHeap) (m : pages_t) (T : layout) : Prop := {
  sh_table : table_ok H m T;
  sh_hint : insert_hint H ∈ T.*1;
  sh_range : forall p bs, m !! p = Some bs -> 2 <= p < 2 ^ 31
}.

Definition rid_ok (T : layout) (rid : RID) : Prop := rid_page_id rid ∈ T.*1 /\ 0 <= rid_slot rid.
Definition after_ok (T : layout) (k : AfterInsert) : Prop := match k with ReturnRid => True | RemoveOld rid => rid_ok T rid end.

(** What a thread knows at each point. *)
Definition tlocal (m : pages_t) (T : layout) (c : TPc) : Prop :=
  match c with
  | LoadHint t k | LoadLast t k => tuple_fits t /\ after_ok T k
  | ProbeFetch _ p _ t k | ProbeTry _ p _ t k | AppendFetch p t k | AppendTry p t k => p ∈ T.*1 /\ tuple_fits t /\ after_ok T k
  | ProbeTurn _ p next t k | ProbeDrop _ p next t k | AppendDrop p next t k => next ∈ T.*1 /\ tuple_fits t /\ after_ok T k
  | Extend p t k => last_of T p /\ tuple_fits t /\ after_ok T k
  | Fill p q t k => last_of T p /\ (q ∉ T.*1) /\ m !! q = Some (fresh_page q) /\ tuple_fits t /\ after_ok T k
  | Link p q s t k => last_of T p /\ (q ∉ T.*1) /\ s = 0 /\
      (exists bq, m !! q = Some bq /\ heap_page q INVALID_PAGE (mkAPage [Some t] 0) bq) /\ tuple_fits t /\ after_ok T k
  | StoreLast _ q _ k => q ∈ T.*1 /\ after_ok T k
  | StoreHint _ h _ k => h ∈ T.*1 /\ after_ok T k
  | Release _ _ k => after_ok T k
  | GetFetch rid | GetRead rid => rid_ok T rid
  | DelFetch rid _ | DelTry rid _ | DelHint rid _ _ => rid_ok T rid
  | UpdFetch rid t | UpdTry rid t => rid_ok T rid
  | UpdDrop rid t (Ok kDoesNotFit) => rid_ok T rid /\ tuple_fits t
  | _ => True
  end.

(** The position of an open scan, next to what its caller was told. *)
Definition ahead (T : layout) (p s : Z) (o : option RID) (due : gset RID) : Prop :=
  (p <> INVALID_PAGE -> follows T.*1 o (mkRID p s)) /\ forall x, x ∈ due -> follows T.*1 (Some (mkRID p (s - 1))) x.
Definition scan_ok (T : layout) (c : TPc) (i : TableIterator) (o : option RID) (due : gset RID) : Prop :=
  match c with
  | NextFetch | NextLook => ahead T (page_id_ i) (slot_ i) o due
  | NextDrop next => ahead T next 0 o due
  | _ => page_id_ i <> INVALID_PAGE /\
      ((initialized_ i = false /\ o = None /\ T.*1 !! 0%nat = Some (page_id_ i)) \/ (initialized_ i = true /\ o = Some (mkRID (page_id_ i) (slot_ i)) /\ slot_ i < 65535))
  end.

Record iter_ok (T : layout) (c : TPc) (i : TableIterator) (cur : Cursor) : Prop := {
  io_open : cur <> NoScan;
  io_page : page_id_ i = INVALID_PAGE \/ page_id_ i ∈ T.*1;
  io_slot : 0 <= slot_ i;
  io_guard : forall g, guard_ i = Some g -> g_page g = page_id_ i;
  io_next : match c with
    | NextDrop next => initialized_ i = true /\ (next = INVALID_PAGE \/ next ∈ T.*1)
    | NextLook => initialized_ i = true /\ page_id_ i ∈ T.*1
    | NextFetch => initialized_ i = true
    | _ => True
    end;
  io_cursor : forall o due, cur = Behind o due -> scan_ok T c i o due;
  io_ended : cur = Ended -> page_id_ i = INVALID_PAGE /\ match c with NextLook | NextDrop _ => False | _ => True end
}.

Definition iter_known (T : layout) (c : TPc) (it : option TableIterator) (cur : Cursor) : Prop :=
  match it with
  | Some i => iter_ok T c i cur
  | None => cur = NoScan /\ match c with NextFetch | NextLook | NextDrop _ => False | _ => True end
  end.

(** The page a thread has made and not yet linked. *)
Definition in_hand (c : TPc) : option Z := match c with Fill _ q _ _ | Link _ q _ _ _ => Some q | _ => None end.

(** ** One piece *)

Record tpiece (F : Status -> Prop) (m : pages_t) (H : TableHeap) (T : layout) (c : TPc) (it : option TableIterator) (cur : Cursor)
    (m' : pages_t) (H' : TableHeap) (c' : TPc) (it' : option TableIterator) (T' : layout) (cur' : Cursor) : Prop := {
  tp_shared : shared H' m' T';
  tp_local : tlocal m' T' c';
  tp_iter : iter_known T' c' it' cur';
  tp_grow : exists l, T'.*1 = T.*1 ++ l;
  tp_dom : forall p, is_Some (m !! p) -> is_Some (m' !! p);
  tp_frame : forall p, p ∉ wheld c -> is_Some (m !! p) -> m' !! p = m !! p;
  tp_last : forall p, last_of T p -> p ∉ wheld c -> last_of T' p;
  tp_out : forall q, q ∉ T.*1 -> q ∉ wheld c -> is_Some (m !! q) -> q ∉ T'.*1;
  tp_new : forall p, is_Some (m' !! p) -> is_Some (m !! p) \/ in_hand c' = Some p;
  tp_hand : forall q, in_hand c = Some q -> in_hand c' = Some q \/ q ∈ T'.*1;
  tp_act : act F (contents T) T.*1 (mkAPart (stat_of c) cur) (contents T') T'.*1 (mkAPart (stat_of c') cur')
}.

Lemma grow_in (T T' : layout) p : (exists l, T'.*1 = T.*1 ++ l) -> p ∈ T.*1 -> p ∈ T'.*1.
Proof. intros [l ->] H. apply elem_of_app. by left. Qed.

Lemma follows_grow (l l' : list Z) o rid : follows l o rid -> follows (l ++ l') o rid.
Proof.
  destruct o as [r|]; [|done]. intros (i & j & Hi & Hj & R). exists i, j.
  by rewrite !lookup_app_l by (by eapply lookup_lt_Some).
Qed.

Lemma after_grow (T T' : layout) k : (exists l, T'.*1 = T.*1 ++ l) -> after_ok T k -> after_ok T' k.
Proof. intros G. destruct k as [|rid]; [done|]. intros [A B]. split; [by eapply grow_in|done]. Qed.

Lemma rid_grow (T T' : layout) rid : (exists l, T'.*1 = T.*1 ++ l) -> rid_ok T rid -> rid_ok T' rid.
Proof. intros G [A B]. split; [by eapply grow_in|done]. Qed.

Lemma ahead_grow (T T' : layout) p s o due : (exists l, T'.*1 = T.*1 ++ l) -> ahead T p s o due -> ahead T' p s o due.
Proof. intros [l E] [A B]. unfold ahead. rewrite E. split; [intros N; by apply follows_grow, A|intros x Hx; by apply follows_grow, B]. Qed.

Lemma scan_grow (T T' : layout) c i o due : (exists l, T'.*1 = T.*1 ++ l) -> scan_ok T c i o due -> scan_ok T' c i o due.
Proof.
  intros G S. assert (X : scan_ok T TIdle i o due -> scan_ok T' TIdle i o due).
  { destruct G as [l E]. cbn. rewrite E. intros [N [(A & B & D)|D]]; (split; [done|]); [left|by right]. split; [done|]. split; [done|].
    by apply lookup_app_l_Some. }
  destruct c; try (by apply X); by eapply ahead_grow.
Qed.

Lemma iter_grow (T T' : layout) c it cur : (exists l, T'.*1 = T.*1 ++ l) -> iter_known T c it cur -> iter_known T' c it cur.
Proof.
  intros G. destruct it as [i|]; [|done]. intros [A B C D E Fr En]. split; try done.
  - destruct B as [B|B]; [by left|right; by eapply grow_in].
  - destruct c; try done; [destruct E; split; [done|by eapply grow_in]|].
    destruct E as [E1 [E|E]]; split; try done; [by left|right; by eapply grow_in].
  - intros o due Ho. eapply scan_grow; [exact G|by apply Fr].
Qed.

(** Fewer rows may become due. *)
Lemma iter_trim (T : layout) c it cur rows : iter_known T c it cur -> iter_known T c it (trim rows cur).
Proof.
  destruct it as [i|]; [|by intros [-> ?]]. intros [A B C D E Fr En]. split; try done; [by destruct cur| |by destruct cur].
  intros o due Ho. destruct cur as [|r d| |]; try done. injection Ho as <- <-. specialize (Fr r d eq_refl).
  assert (Ah : forall p s, ahead T p s r d -> ahead T p s r (d ∩ dom rows)) by (intros p s [X Y]; split; [done|intros x [Hx _]%elem_of_intersection; by apply Y]).
  destruct c; try done; by apply Ah.
Qed.

(** What other threads know stays true. *)
Lemma tlocal_stable m T c m' T' (held : list Z) :
  tlocal m T c -> (exists l, T'.*1 = T.*1 ++ l) ->
  (forall p, p ∉ held -> is_Some (m !! p) -> m' !! p = m !! p) ->
  (forall p, last_of T p -> p ∉ held -> last_of T' p) ->
  (forall q, q ∉ T.*1 -> q ∉ held -> is_Some (m !! q) -> q ∉ T'.*1) ->
  (forall p, p ∈ wheld c -> p ∉ held) -> tlocal m' T' c.
Proof.
  intros L G Fr La Ou Ex. pose proof (after_grow T T') as Ag. pose proof (rid_grow T T') as Rg. pose proof (grow_in T T') as Gi.
  destruct c; cbn in *; try done; try (by apply Rg); try (clear Fr La Ou Ex; repeat destruct L as [? L]; split_and?; eauto; fail).
  - destruct L as (L1 & L2 & L3). split; [apply La; [done|apply Ex; by left]|]. split; [done|]. by apply Ag.
  - destruct L as (L1 & L2 & L3 & L4 & L5). assert (Hq : q ∉ held) by (apply Ex; by left).
    split; [apply La; [done|apply Ex; right; by left]|]. split; [by apply Ou|]. split; [by rewrite Fr|]. split; [done|]. by apply Ag.
  - destruct L as (L1 & L2 & L3 & (bq & L4 & L5) & L6 & L7). assert (Hq : q ∉ held) by (apply Ex; by left).
    split; [apply La; [done|apply Ex; right; by left]|]. split; [by apply Ou|]. split; [done|]. split; [exists bq; by rewrite Fr|].
    split; [done|]. by apply Ag.
  - destruct outcome as [[]|]; try done. destruct L. split; [by apply Rg|done].
Qed.

(** ** Every piece keeps it *)

(** A thread inside [Next]. *)
Definition stepping (c : TPc) : bool := match c with NextFetch | NextLook | NextDrop _ => true | _ => false end.

Lemma iter_other T c c' it cur : stepping c = false -> stepping c' = false -> iter_known T c it cur -> iter_known T c' it cur.
Proof.
  intros S S'. destruct it as [i|]; cbn.
  - intros [A B C D E Fr En]. split; try done; [by destruct c'| |].
    + intros o due Ho. specialize (Fr o due Ho). by destruct c, c'.
    + intros Ho. destruct (En Ho) as [Ep _]. split; [done|]. by destruct c'.
  - intros [A B]. split; [done|]. by destruct c'.
Qed.

Lemma shared_hint H m T p : shared H m T -> p ∈ T.*1 -> shared (set_hint p H) m T.
Proof. intros [A B C] Hp. split; [by apply table_ok_hint|done|done]. Qed.

Lemma shared_last H m T q : shared H m T -> q ∈ T.*1 -> shared (set_last q H) m T.
Proof. intros [[A B C D] E G] Hq. by split. Qed.

Lemma last_split (T : layout) p : last_of T p -> exists T0 a, T = T0 ++ [(p, a)].
Proof.
  unfold last_of. rewrite fmap_last. destruct (last T) as [[q a]|] eqn:E; [|done]. intros [= ->]. apply last_Some in E as [T0 ->]. by exists T0, a.
Qed.

(** The page at the end of the chain, seen from its header. *)
Lemma last_from_next (T : layout) i p a : T !! i = Some (p, a) -> nth_page T (S i) = INVALID_PAGE -> (forall q, q ∈ T.*1 -> q <> INVALID_PAGE) -> last_of T p.
Proof.
  intros Hi Hn Ne. unfold nth_page in Hn. destruct (T !! S i) as [[q b]|] eqn:E; cbn in Hn; [exfalso; eapply Ne; [by eapply index_page|done]|].
  unfold last_of. rewrite fmap_last. pose proof (lookup_lt_Some _ _ _ Hi). apply lookup_ge_None in E.
  rewrite last_lookup. replace (pred (length T)) with i by lia. by rewrite Hi.
Qed.

Section pieces.
Context {host : Host} {F : Status -> Prop}.
Context {m : pages_t} {H : TableHeap} {T : layout}.
Hypothesis Sh : shared H m T.

Lemma page_at p : p ∈ T.*1 ->
  exists i a bs, T !! i = Some (p, a) /\ m !! p = Some bs /\ heap_page p (nth_page T (S i)) a bs.
Proof. exact (table_page H m T p (sh_table _ _ _ Sh)). Qed.

Lemma page_range p : p ∈ T.*1 -> 2 <= p < 2 ^ 31.
Proof. intros Hp. destruct (page_at p Hp) as (i & a & bs & _ & Hm & _). by eapply (sh_range _ _ _ Sh). Qed.

Lemma page_valid p : p ∈ T.*1 -> p <> INVALID_PAGE.
Proof. intros Hp. pose proof (page_range p Hp). unfold INVALID_PAGE. lia. Qed.

(** A piece that touches no page. *)
Lemma piece_quiet c it cur H' c' it' cur' :
  in_hand c = None -> shared H' m T -> tlocal m T c' -> iter_known T c' it' cur' ->
  act F (contents T) T.*1 (mkAPart (stat_of c) cur) (contents T) T.*1 (mkAPart (stat_of c') cur') ->
  tpiece F m H T c it cur m H' c' it' T cur'.
Proof.
  intros Hh A B C D. split; try done; [exists []; by rewrite app_nil_r|by left|]. intros q. by rewrite Hh.
Qed.

(** A piece that only moves on. *)
Lemma piece_on c it cur H' c' :
  in_hand c = None -> iter_known T c it cur -> stepping c = false -> stepping c' = false -> shared H' m T -> tlocal m T c' ->
  act F (contents T) T.*1 (mkAPart (stat_of c) cur) (contents T) T.*1 (mkAPart (stat_of c') cur) ->
  tpiece F m H T c it cur m H' c' it T cur.
Proof. intros Hh K S S' A B D. apply piece_quiet; try done. by eapply (iter_other T c). Qed.

(** A piece that rewrites the body of a latched page of the table. *)
Lemma piece_body c it cur c' i p a (bs body : list byte) :
  in_hand c = None -> iter_known T c it cur -> stepping c = false -> stepping c' = false ->
  T !! i = Some (p, a) -> m !! p = Some bs -> wf body -> p ∈ wheld c ->
  let T' := <[i := (p, abs body)]> T in
  tlocal (<[p := patch PAGE_HEADER_SIZE body bs]> m) T' c' ->
  act F (contents T) T.*1 (mkAPart (stat_of c) cur) (contents T') T.*1 (mkAPart (stat_of c') cur) ->
  tpiece F m H T c it cur (<[p := patch PAGE_HEADER_SIZE body bs]> m) H c' it T' cur.
Proof.
  intros Nh K S S' Hi Hm W Hw T' Lo Ac. pose proof (fst_update _ _ _ _ (abs body) Hi) as Hf. fold T' in Hf.
  assert (G : exists l, T'.*1 = T.*1 ++ l) by (exists []; by rewrite app_nil_r).
  split; try done.
  - destruct Sh as [A B C]. split; [by eapply table_set_body|by rewrite Hf|].
    intros q bq [[<- _]|[_ Hq]]%lookup_insert_Some; by eapply C.
  - eapply iter_grow; [exact G|]. by eapply (iter_other T c).
  - intros q Hq. destruct (decide (q = p)) as [->|]; [by rewrite lookup_insert_eq|by rewrite lookup_insert_ne].
  - intros q Hq _. apply lookup_insert_ne. congruence.
  - intros q Hq _. unfold last_of. by rewrite Hf.
  - intros q Hq _ _. by rewrite Hf.
  - intros q Hq. left. destruct (decide (q = p)) as [->|Ne]; [by rewrite Hm|by rewrite lookup_insert_ne in Hq].
  - intros q. by rewrite Nh.
  - by rewrite Hf.
Qed.

(** A write of the same body changes nothing. *)
Lemma piece_same_body c it cur c' p :
  in_hand c = None -> iter_known T c it cur -> stepping c = false -> stepping c' = false -> p ∈ T.*1 -> tlocal m T c' ->
  act F (contents T) T.*1 (mkAPart (stat_of c) cur) (contents T) T.*1 (mkAPart (stat_of c') cur) ->
  tpiece F m H T c it cur (<[p := patch PAGE_HEADER_SIZE (page_body (default [] (m !! p))) (default [] (m !! p))]> m) H c' it T cur.
Proof.
  intros Nh K S S' Hp Lo Ac. destruct (page_at p Hp) as (i & a & bs & Hi & Hm & Hh). rewrite Hm. cbn [default from_option id].
  rewrite set_same_body by apply Hh. rewrite insert_id by done. by apply piece_on.
Qed.

(** The row a thread inserts, by itself or for an update. *)
Lemma act_inserted t k l l' (R : gmap RID (list byte)) rid cur :
  tuple_fits t -> R !! rid = None -> placed l l' rid ->
  act F R l (mkAPart (stat_inserting t k) cur) (<[rid := t]> R) l' (mkAPart (stat_inserted (Ok rid) k) cur).
Proof. intros Ht Hn Hp. destruct k; [by apply act_done, ef_insert|by apply act_move]. Qed.

Lemma act_failed t k l (R : gmap RID (list byte)) e cur :
  F e -> act F R l (mkAPart (stat_inserting t k) cur) R l (mkAPart (stat_inserted (Error e) k) cur).
Proof. intros He. destruct k; [exact (act_done F _ _ _ _ _ _ _ _ (ef_fail F (TInsert t) R l cur e He I))|].
  by apply act_stays. Qed.

Lemma stat_after_delete st k : stat_of (after_delete st k) = stat_deleted st k.
Proof. unfold stat_deleted, after_delete. destruct k; [done|]. by destruct (_ && _). Qed.

Lemma stat_after_insert r k : stat_of (after_insert r k) = stat_inserted r k.
Proof. by destruct k, r. Qed.

Lemma first_in_T : first_page_id H ∈ T.*1.
Proof. by eapply first_in, Sh. Qed.

(** A tuple lands on a latched page of the table. *)
Lemma piece_inserted c it cur i p a (bs body : list byte) s t k :
  in_hand c = None -> iter_known T c it cur -> stepping c = false -> stat_of c = stat_inserting t k -> p ∈ wheld c -> tuple_fits t -> after_ok T k ->
  T !! i = Some (p, a) -> m !! p = Some bs -> wf body -> 0 <= s -> slot_row a (Z.to_nat s) = None -> row_set a s (Some t) (abs body) ->
  tpiece F m H T c it cur (<[p := patch PAGE_HEADER_SIZE body bs]> m) H (StoreHint [p] p (mkRID p s) k) it (<[i := (p, abs body)]> T) cur.
Proof.
  intros Nh K S Sc Hw Ht Hk Hi Hm W Hs Hn Hr. pose proof (tk_nodup _ _ _ (sh_table _ _ _ Sh)) as ND. pose proof (index_page _ _ _ _ Hi) as Hp.
  assert (Hf : (<[i := (p, abs body)]> T).*1 = T.*1) by (by eapply fst_update).
  eapply piece_body; try done.
  - cbn. rewrite Hf. split; [done|]. apply (after_grow T); [|done]. exists []. by rewrite app_nil_r.
  - rewrite (contents_alter T i p a (abs body) s (Some t) ND Hi Hs Hr), Sc. apply act_inserted; [done| |].
    + by rewrite (contents_at _ _ _ _ _ ND Hi Hs).
    + split; [done|]. by left.
Qed.

(** What fetches and allocations fail with. *)
Context {fault : option Status} {fresh : Z} {ts : list TThread}.
Hypothesis Fault : forall e, fault = Some e -> F e /\ ok e = false /\ code e <> kNotFound.

Definition piece_ok (c : TPc) (it : option TableIterator) (cur : Cursor) : Prop :=
  forall m' H' c' it', texec fault fresh ts c it m H = TGoes m' H' c' it' ->
  exists T' cur', tpiece F m H T c it cur m' H' c' it' T' cur'.

Ltac fetched := destruct fault as [e|] eqn:Ef;
  [destruct (Fault e eq_refl) as (Fe & Oe & Ne)
  |destruct (write_locked _ ts || _); [done|]; match goal with |- context [match m !! ?p with _ => _ end] => destruct (m !! p) eqn:Em; [|done] end].
Ltac moves := intros [= <- <- <- <-]; exists T; eexists; apply piece_on; try done; try apply act_none.

Lemma piece_LoadHint t k it cur : tlocal m T (LoadHint t k) -> iter_known T (LoadHint t k) it cur -> piece_ok (LoadHint t k) it cur.
Proof.
  intros [Ht Hk] K m' H' c' it'. cbn. pose proof (sh_hint _ _ _ Sh) as Hh. pose proof (page_valid _ Hh) as Hv.
  destruct (Z.eqb_spec (insert_hint H) INVALID_PAGE); [done|]. moves.
Qed.

Lemma piece_ProbeFetch n p fh t k it cur :
  tlocal m T (ProbeFetch n p fh t k) -> iter_known T (ProbeFetch n p fh t k) it cur -> piece_ok (ProbeFetch n p fh t k) it cur.
Proof.
  intros (Hp & Ht & Hk) K m' H' c' it'. cbn [texec]. destruct n as [|n]; [moves|].
  pose proof (page_valid _ Hp). destruct (Z.eqb_spec p INVALID_PAGE); [done|]. fetched.
  - destruct (negb (fh && _)); moves; [by apply act_failed|]. split; [apply first_in_T|done].
  - moves.
Qed.

Lemma piece_ProbeTry n p hr t k it cur :
  tlocal m T (ProbeTry n p hr t k) -> iter_known T (ProbeTry n p hr t k) it cur -> piece_ok (ProbeTry n p hr t k) it cur.
Proof.
  intros (Hp & Ht & Hk) K m' H' c' it'. cbn [texec]. destruct (page_at p Hp) as (i & a & bs & Hi & Hm & Hh). rewrite Hm. cbn [default from_option id].
  rewrite (heap_page_view _ _ _ _ Hh). pose proof (TryInsert_spec t COMPACT_THRESHOLD (page_body bs) (hp_wf _ _ _ _ Hh) Ht) as R.
  destruct (TryInsertOnPage t COMPACT_THRESHOLD (page_body bs)) as [r body]. destruct R as [W R]. destruct r as [[s|]|e]; [| |done].
  - destruct R as (Hs & Hn & Hr). rewrite (hp_abs _ _ _ _ Hh) in *. intros [= <- <- <- <-].
    exists (<[i := (p, abs body)]> T), cur. apply (piece_inserted _ it cur i p a bs body s t k); try done; by left.
  - subst body. rewrite set_same_body, insert_id by (done || apply Hh). rewrite (hp_next _ _ _ _ Hh). moves. cbn.
    split; [|done]. destruct (nth_page_in T (S i)) as [->|Hn]; [rewrite Z.eqb_refl; apply first_in_T|].
    destruct (Z.eqb_spec (nth_page T (S i)) INVALID_PAGE); [apply first_in_T|done].
Qed.

Lemma piece_AppendFetch p t k it cur :
  tlocal m T (AppendFetch p t k) -> iter_known T (AppendFetch p t k) it cur -> piece_ok (AppendFetch p t k) it cur.
Proof. intros (Hp & Ht & Hk) K m' H' c' it'. cbn [texec]. fetched; moves. by apply act_failed. Qed.

Lemma piece_AppendTry p t k it cur :
  tlocal m T (AppendTry p t k) -> iter_known T (AppendTry p t k) it cur -> piece_ok (AppendTry p t k) it cur.
Proof.
  intros (Hp & Ht & Hk) K m' H' c' it'. cbn [texec]. destruct (page_at p Hp) as (i & a & bs & Hi & Hm & Hh). rewrite Hm. cbn [default from_option id].
  rewrite (hp_next _ _ _ _ Hh). destruct (Z.eqb_spec (nth_page T (S i)) INVALID_PAGE) as [En|En]; cbn [negb].
  2: { moves. cbn. split; [|done]. by destruct (nth_page_in T (S i)). }
  rewrite (heap_page_view _ _ _ _ Hh). pose proof (TryInsert_spec t 0 (page_body bs) (hp_wf _ _ _ _ Hh) Ht) as R.
  destruct (TryInsertOnPage t 0 (page_body bs)) as [r body]. destruct R as [W R]. destruct r as [[s|]|e]; [| |done].
  - destruct R as (Hs & Hn & Hr). rewrite (hp_abs _ _ _ _ Hh) in *. intros [= <- <- <- <-].
    exists (<[i := (p, abs body)]> T), cur. apply (piece_inserted _ it cur i p a bs body s t k); try done; by left.
  - subst body. rewrite set_same_body, insert_id by (done || apply Hh). moves. cbn.
    split; [|done]. by apply (last_from_next T i p a Hi En), page_valid.
Qed.

(** A page that is not of the table is written by the thread that has it. *)
Lemma piece_private c it cur c' q (bq : list byte) :
  iter_known T c it cur -> stepping c = false -> stepping c' = false -> q ∉ T.*1 -> 2 <= q < 2 ^ 31 ->
  (q ∈ wheld c \/ m !! q = None) -> (in_hand c = None \/ in_hand c = Some q) -> in_hand c' = Some q ->
  tlocal (<[q := bq]> m) T c' -> stat_of c' = stat_of c ->
  tpiece F m H T c it cur (<[q := bq]> m) H c' it T cur.
Proof.
  intros K S S' Hq Hr Hw Nh Nh' Lo E. split; try done.
  - destruct Sh as [[A1 A2 A3 A4] B C]. split; [split; try done|done|].
    + intros i p a Hi. destruct (A2 i p a Hi) as (bs & Hm & Hh). exists bs. split; [|done]. rewrite lookup_insert_ne; [done|].
      intros <-. by eapply Hq, index_page.
    + intros p bs [[<- _]|[_ Hm]]%lookup_insert_Some; [done|by eapply C].
  - by eapply (iter_other T c).
  - exists []. by rewrite app_nil_r.
  - intros p Hp. destruct (decide (p = q)) as [->|]; [by rewrite lookup_insert_eq|by rewrite lookup_insert_ne].
  - intros p Np Hp. apply lookup_insert_ne. intros <-. destruct Hw as [Hw|Hw]; [done|]. rewrite Hw in Hp. by destruct Hp.
  - intros p Hp. destruct (decide (p = q)) as [->|Ne]; [by right|left; by rewrite lookup_insert_ne in Hp].
  - intros x Hx. left. destruct Nh as [Nh|Nh]; congruence.
  - rewrite E. apply act_none.
Qed.

Lemma piece_Extend p t k it cur :
  tlocal m T (Extend p t k) -> iter_known T (Extend p t k) it cur -> piece_ok (Extend p t k) it cur.
Proof.
  intros (Hp & Ht & Hk) K m' H' c' it'. cbn [texec]. destruct fault as [e|] eqn:Ef.
  { destruct (Fault e eq_refl) as (Fe & Oe & Ne). moves. by apply act_failed. }
  case_bool_decide as Hq; [|done]. destruct Hq as [Hn Hr]. intros [= <- <- <- <-]. exists T, cur.
  assert (Hq : fresh ∉ T.*1) by (intros Hin; destruct (page_at _ Hin) as (? & ? & ? & _ & ? & _); congruence).
  apply piece_private; try done; [by right|by left|]. cbn. by rewrite lookup_insert_eq.
Qed.

Lemma piece_Fill p q t k it cur :
  tlocal m T (Fill p q t k) -> iter_known T (Fill p q t k) it cur -> piece_ok (Fill p q t k) it cur.
Proof.
  intros (Hp & Hq & Hm & Ht & Hk) K m' H' c' it'. cbn [texec]. rewrite Hm. cbn [default from_option id].
  pose proof (sh_range _ _ _ Sh _ _ Hm) as Hr. destruct (stamped_view q Hr) as [Ls Vs].
  destruct (Insert_first t (page_body (stamped q)) (length_page_body _ Ls) Ht) as (body & Ei & W & Ab).
  change (edit_page (ENext INVALID_PAGE) (edit_page (EType HEAP) (fresh_page q))) with (stamped q). rewrite Vs, Ei.
  intros [= <- <- <- <-]. exists T, cur. apply piece_private; try done; [left; by left|by right|]. cbn.
  split; [done|]. split; [done|]. split; [done|]. split; [|done]. eexists. rewrite lookup_insert_eq. split; [done|].
  rewrite <- Ab. by apply stamped_page.
Qed.

Lemma piece_Link p q s t k it cur :
  tlocal m T (Link p q s t k) -> iter_known T (Link p q s t k) it cur -> piece_ok (Link p q s t k) it cur.
Proof.
  intros (Hl & Hq & -> & (bq & Hm & Hb) & Ht & Hk) K m' H' c' it'. cbn [texec]. pose proof (sh_range _ _ _ Sh _ _ Hm) as Hr.
  destruct (last_split _ _ Hl) as (T0 & a & E). pose proof (sh_table _ _ _ Sh) as [A B ND D].
  assert (Hi : T !! length T0 = Some (p, a)) by (rewrite E; by rewrite list_lookup_middle).
  destruct (B _ _ _ Hi) as (bs & Hp & Hh). rewrite Hp. cbn [default from_option id]. intros [= <- <- <- <-].
  pose proof (index_page _ _ _ _ Hi) as Hin. assert (Hf : (T ++ [(q, mkAPage [Some t] 0)]).*1 = T.*1 ++ [q]) by (by rewrite fmap_app).
  assert (G : exists l, (T ++ [(q, mkAPage [Some t] 0)]).*1 = T.*1 ++ l) by (by eexists).
  assert (Hpq : p <> q) by (intros ->; done).
  exists (T ++ [(q, mkAPage [Some t] 0)]), cur. split; try done.
  - split.
    + split; rewrite ?Hf.
      * rewrite A. unfold nth_page. rewrite E. by destruct T0.
      * rewrite <- (insert_id m q bq Hm) at 1. rewrite E in *. apply chained_extend; try done. eapply heap_page_link; [exact Hh|unfold is_s32; lia].
      * apply NoDup_app. split; [done|]. split; [|apply NoDup_singleton]. by intros x Hx ->%list_elem_of_singleton.
      * apply elem_of_app. by left.
    + rewrite Hf. apply elem_of_app. left. apply Sh.
    + intros x bx [[<- _]|[_ Hx]]%lookup_insert_Some; eapply (sh_range _ _ _ Sh); [exact Hp|exact Hx].
  - cbn. rewrite Hf. split; [apply elem_of_app; right; by left|by eapply after_grow].
  - eapply iter_grow; [exact G|]. by eapply (iter_other T (Link p q 0 t k)).
  - intros x Hx. destruct (decide (x = p)) as [->|]; [by rewrite lookup_insert_eq|by rewrite lookup_insert_ne].
  - intros x Nx _. apply lookup_insert_ne. intros <-. apply Nx. right. by left.
  - intros x Hx Nx. exfalso. unfold last_of in *. assert (x = p) as -> by congruence. apply Nx. right. by left.
  - intros x Hx Nx _. rewrite Hf. intros Hx2. apply elem_of_app in Hx2 as [Hx2|Hx2]; [done|]. apply list_elem_of_singleton in Hx2 as ->. apply Nx. by left.
  - intros x Hx. left. destruct (decide (x = p)) as [->|Ne]; [by rewrite Hp|by rewrite lookup_insert_ne in Hx].
  - intros x [= <-]. right. rewrite Hf. apply elem_of_app. right. by left.
  - rewrite Hf, contents_new by done. apply act_inserted; [done| |].
    + apply eq_None_not_Some. intros [u Hu]. apply contents_lookup in Hu as (i & b & Hi' & _); [|done]. by eapply Hq, index_page.
    + split; [done|]. by right.
Qed.

(** ** Rows *)

Lemma piece_GetFetch rid it cur : tlocal m T (GetFetch rid) -> iter_known T (GetFetch rid) it cur -> piece_ok (GetFetch rid) it cur.
Proof.
  intros R K m' H' c' it'. cbn [texec]. fetched; moves. exact (act_done F _ _ _ _ _ _ _ _ (ef_fail F (TGet rid) _ _ cur e Fe I)).
Qed.

Lemma piece_GetRead rid it cur : tlocal m T (GetRead rid) -> iter_known T (GetRead rid) it cur -> piece_ok (GetRead rid) it cur.
Proof.
  intros [Hp Hs] K m' H' c' it'. cbn [texec]. destruct rid as [p s]. cbn [rid_page_id rid_slot] in *.
  destruct (page_at p Hp) as (i & a & bs & Hi & Hm & Hh). rewrite Hm. cbn [default from_option id]. rewrite (heap_page_view _ _ _ _ Hh).
  rewrite Get_abs, (hp_abs _ _ _ _ Hh) by (done || apply Hh).
  pose proof (row_Get T i p a s (tk_nodup _ _ _ (sh_table _ _ _ Sh)) Hi Hs) as R. moves. apply act_done. destruct (a_Get s a) as [t|e]; [by apply ef_get|].
  destruct R. by apply ef_get_none.
Qed.

Lemma deleted_failed rid k e R l cur :
  F e -> ok e = false -> code e <> kNotFound ->
  act F R l (mkAPart (stat_deleting rid k) cur) R l (mkAPart (stat_deleted e k) cur).
Proof.
  intros Fe Oe Ne. destruct k as [|new]; [exact (act_done F _ _ _ _ _ _ _ _ (ef_fail F (TDelete rid) R l cur e Fe I))|].
  unfold stat_deleted, after_delete. rewrite Oe, bool_decide_true by done. by eapply act_left.
Qed.

Lemma piece_DelFetch rid k it cur : tlocal m T (DelFetch rid k) -> iter_known T (DelFetch rid k) it cur -> piece_ok (DelFetch rid k) it cur.
Proof.
  intros R K m' H' c' it'. cbn [texec]. fetched; moves.
  - unfold after_delete. destruct k; [done|]. by destruct (_ && _).
  - unfold after_delete. destruct k; [done|]. by destruct (_ && _).
  - rewrite stat_after_delete. by apply deleted_failed.
Qed.

Lemma piece_DelTry rid k it cur : tlocal m T (DelTry rid k) -> iter_known T (DelTry rid k) it cur -> piece_ok (DelTry rid k) it cur.
Proof.
  intros [Hp Hs] K m' H' c' it'. cbn [texec]. destruct rid as [p s]. cbn [rid_page_id rid_slot] in *.
  destruct (page_at p Hp) as (i & a & bs & Hi & Hm & Hh). rewrite Hm. cbn [default from_option id]. rewrite (heap_page_view _ _ _ _ Hh).
  pose proof (tk_nodup _ _ _ (sh_table _ _ _ Sh)) as ND. pose proof (row_Get T i p a s ND Hi Hs) as G.
  pose proof (Delete_row s _ (hp_wf _ _ _ _ Hh) Hs) as D. destruct (HeapPage.Delete s (page_body bs)) as [st body].
  destruct D as [W D]. rewrite (hp_abs _ _ _ _ Hh) in D. destruct (a_Get s a) as [t|e]; destruct D as [-> D].
  - cbn [ok code StatusOK]. intros [= <- <- <- <-]. exists (<[i := (p, abs body)]> T), cur. eapply piece_body; try done; [by left| |].
    + cbn. unfold rid_ok. by rewrite (fst_update _ _ _ _ _ Hi).
    + rewrite (contents_alter T i p a (abs body) s None ND Hi Hs D). destruct k; [apply act_done, ef_delete; by eexists|apply act_moved].
  - subst body. rewrite set_same_body, insert_id by (done || apply Hh). destruct G as [G1 G2].
    assert (Oe : ok e = false) by (unfold ok; by rewrite G2). rewrite Oe. moves.
    destruct k as [|new]; [by apply act_done, ef_delete_none|]. cbn. unfold stat_deleted, after_delete. rewrite bool_decide_false, andb_false_r by tauto.
    rewrite <- (delete_id (contents T) (mkRID p s)) at 2 by done. apply act_moved.
Qed.

Lemma piece_UpdFetch rid t it cur : tlocal m T (UpdFetch rid t) -> iter_known T (UpdFetch rid t) it cur -> piece_ok (UpdFetch rid t) it cur.
Proof.
  intros R K m' H' c' it'. cbn [texec]. fetched; moves. exact (act_done F _ _ _ _ _ _ _ _ (ef_fail F (TUpdate rid t) _ _ cur e Fe I)).
Qed.

Lemma piece_UpdTry rid t it cur : tlocal m T (UpdTry rid t) -> iter_known T (UpdTry rid t) it cur -> piece_ok (UpdTry rid t) it cur.
Proof.
  intros [Hp Hs] K m' H' c' it'. cbn [texec]. destruct rid as [p s]. cbn [rid_page_id rid_slot] in *.
  destruct (page_at p Hp) as (i & a & bs & Hi & Hm & Hh). rewrite Hm. cbn [default from_option id]. rewrite (heap_page_view _ _ _ _ Hh).
  pose proof (tk_nodup _ _ _ (sh_table _ _ _ Sh)) as ND. pose proof (row_Get T i p a s ND Hi Hs) as G.
  pose proof (Update_row s t _ (hp_wf _ _ _ _ Hh) Hs) as U. destruct (HeapPage.Update s t (page_body bs)) as [r body].
  destruct U as [W U]. rewrite (hp_abs _ _ _ _ Hh) in U. destruct r as [[|]|e].
  - destruct U as (D & Ht & old & Ho). rewrite Ho in G. intros [= <- <- <- <-]. exists (<[i := (p, abs body)]> T), cur.
    eapply piece_body; try done; [by left|]. rewrite (contents_alter T i p a (abs body) s (Some t) ND Hi Hs D).
    apply act_done, ef_update; [done|by eexists].
  - destruct U as (-> & Ht & old & Ho). rewrite Ho in G. rewrite set_same_body, insert_id by (done || apply Hh). moves.
    apply act_seen; [done|by eexists].
  - destruct U as (-> & U). rewrite set_same_body, insert_id by (done || apply Hh). moves. apply act_done.
    destruct U as [[Hb He]|He]; [by apply ef_update_bad|]. rewrite He in G. destruct G. by apply ef_update_none.
Qed.

Lemma piece_UpdDrop rid t r it cur : tlocal m T (UpdDrop rid t r) -> iter_known T (UpdDrop rid t r) it cur -> piece_ok (UpdDrop rid t r) it cur.
Proof.
  intros R K m' H' c' it'. cbn [texec]. destruct r as [[|]|e]; try (moves; fail). destruct R as [R Ht]. unfold tuple_fits in Ht.
  destruct (Z.eqb_spec (len t) 0); [lia|]. destruct (Z.ltb_spec MAX_TUPLE_SIZE (len t)); [lia|]. moves.
Qed.

(** ** Scans *)

Lemma follows_slot l o p s s' : follows l o (mkRID p s) -> s <= s' -> follows l o (mkRID p s').
Proof.
  destruct o as [r|]; [|done]. intros (i & j & Hi & Hj & R) Hs. exists i, j. split; [done|]. split; [done|]. cbn in *. destruct R as [|[-> R]]; [by left|right].
  split; [done|lia].
Qed.

Lemma follows_page (U : layout) o i p a s : NoDup U.*1 ->
  U !! i = Some (p, a) -> nth_page U (S i) <> INVALID_PAGE -> follows U.*1 o (mkRID p s) -> follows U.*1 o (mkRID (nth_page U (S i)) 0).
Proof.
  intros ND Hi Hn. destruct o as [r|]; [|done]. intros (x & y & Hx & Hy & R). exists x, (S i). split; [done|]. unfold nth_page in *.
  destruct (U !! S i) as [[q b]|] eqn:E; [|done]. cbn in *. rewrite list_lookup_fmap, E. split; [done|]. left.
  assert (y = i) as ->; [|lia]. eapply NoDup_lookup; [exact ND|exact Hy|]. by rewrite list_lookup_fmap, Hi.
Qed.

(** The row a scan finds on its page, and what there is up to it. *)
Lemma found_row n k body t j :
  wf body -> 0 <= k -> SlotCount body < k + Z.of_nat n -> Next_slots n k body = (Some (Ok t), j) ->
  k <= j < 65535 /\ slot_row (abs body) (Z.to_nat j) = Some t /\
  forall x, k <= x < j -> slot_row (abs body) (Z.to_nat x) = None.
Proof.
  intros W Hk Hn E. pose proof (Next_slots_spec n 0 k body W Hk Hn) as S. rewrite E in S. destruct S as [Hj Er].
  pose proof (Header_range body) as ([_ Hc] & _). fold (SlotCount body) in Hc. split; [lia|].
  assert (In : forall x u, 0 <= x -> slot_row (abs body) (Z.to_nat x) = Some u <-> (mkRID 0 x, u) ∈ page_rows 0 0 (HeapPageProofs.rows body)).
  { intros x u Hx. rewrite elem_page_rows. cbn. rewrite Z.sub_0_r. unfold slot_row. cbn.
    destruct (HeapPageProofs.rows body !! Z.to_nat x) as [[?|]|]; split; try (intros [= <-]; done || lia); by intros (_ & _ & [= <-]). }
  assert (From : forall x u, k <= x -> (mkRID 0 x, u) ∈ page_rows 0 0 (HeapPageProofs.rows body) <->
    (mkRID 0 x, u) ∈ page_rows 0 k (drop (Z.to_nat k) (HeapPageProofs.rows body))).
  { intros x u Hx. rewrite !elem_page_rows. cbn. rewrite lookup_drop. replace (Z.to_nat k + Z.to_nat (x - k))%nat with (Z.to_nat (x - 0)) by lia.
    split; intros (? & ? & ?); split_and!; done || lia. }
  split; [apply In; [lia|]; apply From; [lia|]; rewrite Er; by left|].
  intros x Hx. destruct (slot_row (abs body) (Z.to_nat x)) as [u|] eqn:Eu; [|done]. exfalso.
  apply In in Eu; [|lia]. apply From in Eu; [|lia]. rewrite Er in Eu. apply elem_of_cons in Eu as [[= ->]|Eu]; [lia|].
  apply elem_page_rows in Eu as (_ & ? & _). cbn in *. lia.
Qed.

Lemma no_error_row n k body e j :
  wf body -> 0 <= k -> SlotCount body < k + Z.of_nat n -> Next_slots n k body = (Some (Error e), j) -> False.
Proof. intros W Hk Hn E. pose proof (Next_slots_spec n 0 k body W Hk Hn) as S. by rewrite E in S. Qed.

(** A page a scan leaves has no row ahead. *)
Lemma no_row_ahead k body :
  wf body -> 0 <= k ->
  (if 0 <? LiveCount body then (Next_slots (1 + Z.to_nat (SlotCount body)) k body).1 else None) = None ->
  forall x, k <= x -> slot_row (abs body) (Z.to_nat x) = None.
Proof.
  intros W Hk E x Hx. assert (No : page_rows 0 k (drop (Z.to_nat k) (HeapPageProofs.rows body)) = []).
  { destruct (Z.ltb_spec 0 (LiveCount body)) as [_|Hl]; [|by apply page_rows_none, Forall_drop, dead_page].
    pose proof (Next_slots_spec (1 + Z.to_nat (SlotCount body)) 0 k body W Hk ltac:(lia)) as S.
    destruct (Next_slots _ _ _) as [[r|] j]; [done|done]. }
  unfold slot_row. cbn. destruct (HeapPageProofs.rows body !! Z.to_nat x) as [[u|]|] eqn:Eu; try done. exfalso.
  assert (In : (mkRID 0 x, u) ∈ page_rows 0 k (drop (Z.to_nat k) (HeapPageProofs.rows body))).
  { apply elem_page_rows. cbn. split; [done|]. split; [lia|]. rewrite lookup_drop. by replace (Z.to_nat k + Z.to_nat (x - k))%nat with (Z.to_nat x) by lia. }
  rewrite No in In. by apply elem_of_nil in In.
Qed.

(** The rows that are due are rows of the table. *)
Definition due_in (rows : gmap RID (list byte)) (cur : Cursor) : Prop := forall o due, cur = Behind o due -> due ⊆ dom rows.

(** A row that is due lies at the scan's slot or behind, or on a later page. *)
Lemma due_place r s i p a :
  T !! i = Some (p, a) -> r ∈ dom (contents T) -> follows T.*1 (Some (mkRID p s)) r ->
  (rid_page_id r = p /\ s < rid_slot r /\ slot_row a (Z.to_nat (rid_slot r)) <> None) \/
  exists j, (i < j)%nat /\ T.*1 !! j = Some (rid_page_id r) /\ 0 <= rid_slot r.
Proof.
  intros Hi [t Ht]%elem_of_dom (u & v & Hu & Hv & R). pose proof (tk_nodup _ _ _ (sh_table _ _ _ Sh)) as ND. cbn in Hu, R.
  assert (u = i) as -> by (eapply NoDup_lookup; [exact ND|exact Hu|by rewrite list_lookup_fmap, Hi]).
  apply contents_lookup in Ht as (w & b & Hw & H0 & Hr); [|done]. destruct R as [R|[<- R]]; [right; by exists v|left].
  rewrite list_lookup_fmap, Hi in Hv. injection Hv as Hv. split; [done|]. split; [done|].
  assert (w = i) as -> by (eapply NoDup_lookup; [exact ND| |]; rewrite list_lookup_fmap; [by rewrite Hw|rewrite Hi; cbn; congruence]).
  rewrite Hi in Hw. injection Hw as _ <-. by rewrite Hr.
Qed.

Lemma piece_NextFetch it cur : iter_known T NextFetch it cur -> piece_ok NextFetch it cur.
Proof.
  intros K m' H' c' it'. cbn [texec]. destruct it as [i|]; [|done]. destruct K as [A B C D E Fr En].
  destruct (Z.eqb_spec (page_id_ i) INVALID_PAGE) as [Ei|Ei].
  { intros [= <- <- <- <-]. destruct cur as [|o due| |]; [done| | |].
    - exists T, Ended. apply piece_quiet; try done. apply act_done, ef_next_end. apply set_eq. intros x. split; [|by intros ?%elem_of_empty].
      intros Hx. destruct (Fr o due eq_refl) as [_ Du]. destruct (Du x Hx) as (u & v & Hu & _). exfalso. cbn in Hu. rewrite Ei in Hu.
      apply list_elem_of_lookup_2, page_valid in Hu. done.
    - exists T, Ended. apply piece_quiet; try done. apply act_done, ef_next_ended. by left.
    - exists T, Broken. apply piece_quiet; try done. apply act_done, ef_next_ended. by right. }
  assert (Ne0 : cur <> Ended) by (intros X; by destruct (En X)).
  destruct B as [B|B]; [done|]. destruct (guard_ i) as [g|] eqn:Eg.
  { intros [= <- <- <- <-]. exists T, cur. apply piece_quiet; try done; [|apply act_none]. split; try done; [by right|by rewrite Eg]. }
  fetched.
  - intros [= <- <- <- <-]. exists T, Broken. apply piece_quiet; try done; [|apply act_done, ef_next_fail; [destruct cur; eauto; done|done]].
    split; try done; [by right|by rewrite Eg].
  - intros [= <- <- <- <-]. exists T, cur. apply piece_quiet; try done; [|apply act_none].
    split; cbn; try done; [by right|]. by intros ? [= <-].
Qed.

Lemma piece_NextLook it cur : due_in (contents T) cur -> iter_known T NextLook it cur -> piece_ok NextLook it cur.
Proof.
  intros Di K m' H' c' it'. cbn [texec]. destruct it as [i|]; [|done]. destruct K as [A B C D [E Hp] Fr Ed].
  assert (Ne : cur <> Ended) by (intros X; by destruct (Ed X)).
  pose proof (page_valid _ Hp) as Ei. destruct (page_at _ Hp) as (j & a & bs & Hj & Hm & Hh). rewrite Hm. cbn [default from_option id].
  rewrite (heap_page_view _ _ _ _ Hh), (hp_next _ _ _ _ Hh). pose proof (hp_wf _ _ _ _ Hh) as W. pose proof (tk_nodup _ _ _ (sh_table _ _ _ Sh)) as ND.
  pose proof (no_row_ahead (slot_ i) _ W C) as No. rewrite (hp_abs _ _ _ _ Hh) in No.
  assert (Nx : (forall x, slot_ i <= x -> slot_row a (Z.to_nat x) = None) -> TGoes m H (NextDrop (nth_page T (S j))) (Some i) = TGoes m' H' c' it' ->
    exists T' cur', tpiece F m H T NextLook (Some i) cur m' H' c' it' T' cur').
  { intros N [= <- <- <- <-]. exists T, cur. apply piece_quiet; try done; [|apply act_none]. split; try done.
    - split; [done|]. apply nth_page_in.
    - intros o due Ho. destruct (Fr o due Ho) as [Sc Du]. split; [intros Nn; eapply follows_page; [done|done|done|by apply Sc]|].
      intros x Hx. destruct (due_place x _ j _ a Hj (Di o due Ho x Hx) (Du x Hx)) as [(_ & X1 & X2)|(v & Hv & Hx' & H0)].
      + exfalso. apply X2, N. lia.
      + destruct (lookup_lt_is_Some_2 T.*1 (S j)) as [q Hq]; [apply lookup_lt_Some in Hx'; lia|].
        exists (S j), v. split; [|split; [done|]].
        * rewrite Hq. cbn. unfold nth_page. rewrite <- list_lookup_fmap, Hq. done.
        * cbn. destruct (decide (v = S j)); [right; split; [done|lia]|left; lia]. }
  assert (Rng : SlotCount (page_body bs) < slot_ i + Z.of_nat (1 + Z.to_nat (SlotCount (page_body bs)))) by lia.
  destruct (0 <? LiveCount (page_body bs)); [|apply Nx; by apply No].
  destruct (Next_slots (1 + Z.to_nat (SlotCount (page_body bs))) (slot_ i) (page_body bs)) as [[[t|e]|] s] eqn:En; [| |apply Nx; by apply No].
  2: { exfalso. eapply no_error_row; [exact W|exact C| |exact En]. exact Rng. }
  destruct (found_row _ _ _ _ _ W C Rng En) as (Hs & Hr & Hb). rewrite (hp_abs _ _ _ _ Hh) in Hr, Hb.
  assert (Row : contents T !! mkRID (page_id_ i) s = Some t) by (by rewrite (contents_at T j (page_id_ i) a s ND Hj) by lia).
  intros [= <- <- <- <-]. destruct cur as [|o due| |]; try done.
  - exists T, (Behind (Some (mkRID (page_id_ i) s)) ∅). apply piece_quiet; try done.
    + split; cbn; try done; [lia|]. intros ? ? [= <- <-]. split; [done|]. right. split; [done|]. split; [done|lia].
    + destruct (Fr o due eq_refl) as [Sc Du]. apply act_done, ef_next_row; [done|eapply follows_slot; [by apply Sc|lia]|].
      intros x Hx. pose proof (Du x Hx) as Fx. destruct (due_place x _ j _ a Hj (Di o due eq_refl x Hx) Fx) as [(X0 & X1 & X2)|(v & Hv & Hx' & H0)].
      * destruct (decide (rid_slot x = s)) as [Es|Es]; [left; destruct x; cbn in *; congruence|right]. exists j, j. cbn. rewrite list_lookup_fmap, Hj, X0.
        split; [done|]. split; [done|]. right. split; [done|]. destruct (Z.lt_ge_cases s (rid_slot x)); [done|]. exfalso. apply X2, Hb. lia.
      * right. exists j, v. cbn. rewrite list_lookup_fmap, Hj. split; [done|]. split; [done|]. by left.
  - exists T, Broken. apply piece_quiet; try done; [|by apply act_done, ef_next_row_broken]. split; cbn; try done; lia.
Qed.

Lemma piece_NextDrop next it cur : iter_known T (NextDrop next) it cur -> piece_ok (NextDrop next) it cur.
Proof.
  intros K m' H' c' it'. cbn [texec]. destruct it as [i|]; [|done]. destruct K as [A B C D [E Hn] Fr En].
  intros [= <- <- <- <-]. exists T, cur. apply piece_quiet; try done; [|apply act_none]. split; try done. intros X. by destruct (En X).
Qed.

(** ** Every piece *)

Lemma texec_ok c it cur : due_in (contents T) cur -> tlocal m T c -> iter_known T c it cur -> piece_ok c it cur.
Proof.
  intros Di L K. destruct c.
  all: try (by intros ? ? ? ?).
  - by apply piece_LoadHint.
  - by apply piece_ProbeFetch.
  - by apply piece_ProbeTry.
  - intros m' H' c' it'. cbn [texec]. destruct L as [L1 L2]. moves. by apply shared_hint.
  - intros m' H' c' it'. cbn [texec]. moves.
  - intros m' H' c' it'. cbn [texec]. moves. cbn. split; [apply Sh|done].
  - by apply piece_AppendFetch.
  - by apply piece_AppendTry.
  - intros m' H' c' it'. cbn [texec]. moves.
  - by apply piece_Extend.
  - by apply piece_Fill.
  - by apply piece_Link.
  - intros m' H' c' it'. cbn [texec]. destruct L as [L1 L2]. moves. by apply shared_last.
  - intros m' H' c' it'. cbn [texec]. destruct L as [L1 L2]. moves. by apply shared_hint.
  - intros m' H' c' it'. cbn [texec]. destruct held as [|p held]; moves.
    + by destruct k, r.
    + by destruct k, r.
    + rewrite stat_after_insert. apply act_none.
  - by apply piece_GetFetch.
  - by apply piece_GetRead.
  - intros m' H' c' it'. cbn [texec]. moves.
  - by apply piece_DelFetch.
  - by apply piece_DelTry.
  - intros m' H' c' it'. cbn [texec]. destruct L as [L1 L2]. moves. by apply shared_hint.
  - intros m' H' c' it'. cbn [texec]. moves.
    + unfold after_delete. destruct k; [done|]. by destruct (_ && _).
    + unfold after_delete. destruct k; [done|]. by destruct (_ && _).
    + rewrite stat_after_delete. apply act_none.
  - by apply piece_UpdFetch.
  - by apply piece_UpdTry.
  - by apply piece_UpdDrop.
  - by apply piece_NextFetch.
  - by apply piece_NextLook.
  - by apply piece_NextDrop.
Qed.
End pieces.
