(* ===== verification/TableRun.v ===== *)
(** * Runs of threads over one table are runs of the map, and every call ends *)

From stdpp Require Import gmap.
From S2P Require Import Prelude Common HeapPage HeapPageProofs HeapPageRefine HeapPageTheorems.
From S2P Require Import BufferPool BufferPoolOps BufferPoolLifecycle PoolRefine PageStore PageStoreLogic.
From S2P Require Import TableHeap TableHeapSpec TableHeapProofs TableScan TableThreads TableLinear TableShared.

#[local] Opaque fresh_page edit_page patch stamped.

(** ** The chain *)

Lemma walk_chain m T fuel i :
  chained m T -> (forall p bs, m !! p = Some bs -> 2 <= p < 2 ^ 31) -> (length T <= i + fuel)%nat ->
  walk fuel (nth_page T i) m = drop i T.*1.
Proof.
  intros Ch Rg. assert (Out : m !! INVALID_PAGE = None).
  { apply eq_None_not_Some. intros [bs Hb]. specialize (Rg _ _ Hb). unfold INVALID_PAGE in Rg. lia. }
  revert i. induction fuel as [|fuel IH]; intros i Hl; cbn [walk].
  { by rewrite drop_ge by (rewrite length_fmap; lia). }
  destruct (T !! i) as [[p a]|] eqn:E.
  - destruct (Ch i p a E) as (bs & Hm & Hh). assert (En : nth_page T i = p) by (unfold nth_page; by rewrite E). rewrite En, Hm.
    change (PoolRefine.page_header bs) with (page_header bs). rewrite (hp_next _ _ _ _ Hh), IH by lia.
    assert (E1 : T.*1 !! i = Some p) by (by rewrite list_lookup_fmap, E). by rewrite (drop_S _ _ _ E1).
  - assert (En : nth_page T i = INVALID_PAGE) by (unfold nth_page; by rewrite E). rewrite En, Out.
    apply lookup_ge_None in E. by rewrite drop_ge by (by rewrite length_fmap).
Qed.

Lemma chain_length H m T : shared H m T -> (length T <= size m)%nat.
Proof.
  intros Sh. pose proof (sh_table _ _ _ Sh) as K. rewrite <- (length_fmap fst T), <- (size_list_to_set (C := gset Z) T.*1) by apply K.
  rewrite <- size_dom. apply subseteq_size. intros p Hp. apply elem_of_list_to_set in Hp.
  destruct (table_page _ _ _ _ K Hp) as (i & a & bs & _ & Hm & _). apply elem_of_dom. by eexists.
Qed.

Lemma chain_pages C T : shared (ttable C) (tpages C) T -> chain C = T.*1.
Proof.
  intros Sh. unfold chain. pose proof (chain_length _ _ _ Sh). destruct Sh as [[A B _ _] _ Rg]. rewrite A.
  by rewrite (walk_chain _ T _ 0) by (done || lia).
Qed.

(** ** Latches *)

Lemma not_locked p ts (held : TThread -> list Z) :
  existsb (fun th => bool_decide (p ∈ held th)) ts = false -> forall th, th ∈ ts -> p ∉ held th.
Proof.
  intros E th Hth Hp. apply not_true_iff_false in E. apply E, existsb_exists. exists th. split; [by apply list_elem_of_In|].
  by apply bool_decide_eq_true.
Qed.

(** The ways a piece can go. *)
Ltac cases := repeat match goal with
  | H0 : TBlocks = TGoes _ _ _ _ |- _ => discriminate H0
  | H0 : TGoes _ _ _ _ = TGoes _ _ _ _ |- _ => injection H0 as <- <- <- <-
  | H0 : context [match ?x with _ => _ end] |- _ =>
      lazymatch type of H0 with
      | _ = TGoes _ _ _ _ => lazymatch x with context [match _ with _ => _ end] => fail | _ => destruct x eqn:? end
      end
  end.

Section latches.
Context {host : Host} {fault : option Status} {fresh : Z} {ts : list TThread}.
Context {c : TPc} {it : option TableIterator} {m : pages_t} {H : TableHeap}.
Context {m' : pages_t} {H' : TableHeap} {c' : TPc} {it' : option TableIterator}.
Hypothesis E : texec fault fresh ts c it m H = TGoes m' H' c' it'.

(** A piece keeps what it has latched, takes a free latch, or latches a page of its own making. *)
Definition may_write (p : Z) : Prop :=
  p ∈ wheld c \/ (write_locked p ts = false /\ read_locked p ts = false /\ is_Some (m !! p)) \/ (m !! p = None /\ is_Some (m' !! p)).
Definition may_read (p : Z) : Prop :=
  p ∈ reading c ++ iter_held it \/ (write_locked p ts = false /\ is_Some (m !! p)).

Ltac free_latch Hp := apply list_elem_of_singleton in Hp as ->;
  match goal with Hl : _ || _ = false |- _ => apply orb_false_iff in Hl as [? ?] end; split_and?; try done; by eexists.

Lemma latched_write : forall p, p ∈ wheld c' -> may_write p.
Proof.
  unfold may_write. intros p Hp. destruct c; cbn [texec] in E; cases; cbn in Hp |- *; auto.
  all: unfold after_insert, after_delete in Hp; repeat match type of Hp with context [match ?x with _ => _ end] => destruct x end; cbn in Hp; auto.
  all: try (by apply elem_of_nil in Hp).
  all: try (right; left; free_latch Hp).
  all: try (left; by right).
  apply elem_of_cons in Hp as [->|Hp]; [|by left]. right. right.
  match goal with Hb : bool_decide _ = true |- _ => apply bool_decide_eq_true in Hb as [? _] end. split; [done|]. by rewrite lookup_insert_eq.
Qed.

Lemma latched_read : forall p, p ∈ reading c' ++ iter_held it' -> may_read p.
Proof.
  unfold may_read. intros p Hp. destruct c; cbn [texec] in E; cases; cbn in Hp |- *; auto.
  all: unfold after_insert, after_delete in Hp; repeat match type of Hp with context [match ?x with _ => _ end] => destruct x eqn:? end; cbn in Hp; simplify_eq; auto.
  all: try (by apply elem_of_nil in Hp).
  all: try (by right).
  all: try (right; free_latch Hp).
  all: try (apply elem_of_cons in Hp as [->|Hp]; [|by left]; right; match goal with Hl : _ || _ = false |- _ => apply orb_false_iff in Hl as [? ?] end; split; [done|by eexists]).
  left. by right.
Qed.

(** A piece that leaves a page latched for writing takes no page for reading. *)
Lemma latched_apart : forall p, p ∈ wheld c' -> reading c' = [] /\ it' = it.
Proof.
  intros p Hp. destruct c; cbn [texec] in E; cases; try done.
  all: unfold after_insert, after_delete in *; repeat match type of Hp with context [match ?x with _ => _ end] => destruct x eqn:? end;
    cbn in Hp |- *; try done; by apply elem_of_nil in Hp.
Qed.
End latches.

(** ** The invariant *)

(** [m0] are the pages there were when the threads started. *)
Record tinv (m0 : pages_t) (C : TConf) (T : layout) (curs : list Cursor) : Prop := {
  ti_shared : shared (ttable C) (tpages C) T;
  ti_len : length curs = length (tthreads C);
  ti_local : forall i th, tthreads C !! i = Some th -> tlocal (tpages C) T (tpc th);
  ti_iter : forall i th cur, tthreads C !! i = Some th -> curs !! i = Some cur -> iter_known T (tpc th) (iter th) cur;
  ti_due : forall i cur, curs !! i = Some cur -> due_in (contents T) cur;
  ti_excl : forall i j th u p, i <> j -> tthreads C !! i = Some th -> tthreads C !! j = Some u ->
    p ∈ wheld (tpc th) -> (p ∉ wheld (tpc u)) /\ p ∉ rheld u;
  ti_self : forall i th p, tthreads C !! i = Some th -> p ∈ wheld (tpc th) -> p ∉ rheld th;
  ti_dom : forall i th p, tthreads C !! i = Some th -> p ∈ wheld (tpc th) \/ p ∈ rheld th -> is_Some (tpages C !! p);
  ti_known : forall p, is_Some (tpages C !! p) ->
    is_Some (m0 !! p) \/ p ∈ T.*1 \/ exists i th, tthreads C !! i = Some th /\ in_hand (tpc th) = Some p
}.

Definition part_of (th : TThread) (cur : Cursor) : APart := mkAPart (stat_of (tpc th)) cur.
Definition abstract (C : TConf) (T : layout) (curs : list Cursor) : AState :=
  mkAState (contents T) T.*1 (zip_with part_of (tthreads C) curs).

Lemma parts_insert i th cur (ts : list TThread) (curs : list Cursor) :
  zip_with part_of (<[i := th]> ts) (<[i := cur]> curs) = <[i := part_of th cur]> (zip_with part_of ts curs).
Proof. by rewrite insert_zip_with. Qed.

Lemma parts_lookup i th cur (ts : list TThread) (curs : list Cursor) :
  ts !! i = Some th -> curs !! i = Some cur -> zip_with part_of ts curs !! i = Some (part_of th cur).
Proof. intros Hi Hc. rewrite lookup_zip_with, Hi, Hc. done. Qed.

(** Rows that are due. *)
Lemma trim_in R cur : due_in R (trim R cur).
Proof. intros o due. destruct cur; try done. intros [= <- <-] x. by intros [_ ?]%elem_of_intersection. Qed.

Lemma trim_same R cur : due_in R cur -> trim R cur = cur.
Proof.
  intros D. destruct cur as [|o due| |]; try done. cbn. specialize (D o due eq_refl). f_equal. apply set_eq. intros x. rewrite elem_of_intersection.
  split; [by intros [? _]|]. intros Hx. split; [done|by apply D].
Qed.

Lemma trims_same R (curs : list Cursor) : (forall i cur, curs !! i = Some cur -> due_in R cur) -> trim R <$> curs = curs.
Proof.
  intros D. rewrite <- (list_fmap_id curs) at 2. apply list_fmap_ext. intros i cur Hi. by apply trim_same, (D i).
Qed.

Lemma parts_settle R (ts : list TThread) (curs : list Cursor) : settle R <$> zip_with part_of ts curs = zip_with part_of ts (trim R <$> curs).
Proof. revert curs. induction ts as [|th ts IH]; intros [|cur curs]; cbn; [done|done|done|]. by rewrite IH. Qed.

Section steps.
Context {host : Host} {F : Status -> Prop} {m0 : pages_t}.

(** What the invariant needs of a move of thread [i]: its new state, and what the others keep. *)
Lemma tinv_move C T curs i th cur m' H' th' T' cur' :
  tinv m0 C T curs -> tthreads C !! i = Some th -> curs !! i = Some cur ->
  shared H' m' T' -> tlocal m' T' (tpc th') -> iter_known T' (tpc th') (iter th') cur' ->
  (exists l, T'.*1 = T.*1 ++ l) -> (forall p, is_Some (tpages C !! p) -> is_Some (m' !! p)) ->
  (forall p, p ∉ wheld (tpc th) -> is_Some (tpages C !! p) -> m' !! p = tpages C !! p) ->
  (forall p, last_of T p -> p ∉ wheld (tpc th) -> last_of T' p) ->
  (forall q, q ∉ T.*1 -> q ∉ wheld (tpc th) -> is_Some (tpages C !! q) -> q ∉ T'.*1) ->
  (forall p, p ∈ wheld (tpc th') -> p ∈ wheld (tpc th) \/
    (write_locked p (tthreads C) = false /\ read_locked p (tthreads C) = false /\ is_Some (tpages C !! p)) \/
    (tpages C !! p = None /\ is_Some (m' !! p))) ->
  (forall p, p ∈ rheld th' -> p ∈ rheld th \/ (write_locked p (tthreads C) = false /\ is_Some (tpages C !! p))) ->
  (forall p, p ∈ wheld (tpc th') -> p ∉ rheld th') ->
  (forall p, is_Some (m' !! p) -> is_Some (tpages C !! p) \/ in_hand (tpc th') = Some p) ->
  (forall q, in_hand (tpc th) = Some q -> in_hand (tpc th') = Some q \/ q ∈ T'.*1) ->
  tinv m0 (mkTConf m' H' (<[i := th']> (tthreads C))) T' (trim (contents T') <$> <[i := cur']> curs).
Proof.
  intros [Sh Ln Lo It Du Ex Se Do Kn] Hi Hc Sh' Lo' It' G Dm Fr La Ou Wr Rd Ne Nw0 Hd.
  assert (Nw : forall p j u, tthreads C !! j = Some u -> write_locked p (tthreads C) = false -> p ∉ wheld (tpc u)).
  { intros p j u Hj E. by apply (not_locked p _ (fun th => wheld (tpc th)) E), (list_elem_of_lookup_2 _ j). }
  assert (Nr : forall p j u, tthreads C !! j = Some u -> read_locked p (tthreads C) = false -> p ∉ rheld u).
  { intros p j u Hj E. by apply (not_locked p _ rheld E), (list_elem_of_lookup_2 _ j). }
  assert (Wx : forall p j u, j <> i -> tthreads C !! j = Some u -> p ∈ wheld (tpc th') -> (p ∉ wheld (tpc u)) /\ p ∉ rheld u).
  { intros p j u Hj Hu Hp. destruct (Wr p Hp) as [W|[(W1 & W2 & _)|(W1 & _)]].
    - by apply (Ex i j th u p).
    - split; [by eapply Nw|by eapply Nr].
    - split; intros X; destruct (Do j u p Hu) as [? ?]; auto; congruence. }
  assert (Rx : forall p j u, j <> i -> tthreads C !! j = Some u -> p ∈ wheld (tpc u) -> p ∉ rheld th').
  { intros p j u Hj Hu Hp Hr. destruct (Rd p Hr) as [R|[R _]]; [by destruct (Ex j i u th p Hj Hu Hi Hp)|by eapply (Nw p j u)]. }
  split; cbn [ttable tpages tthreads]; try done.
  - by rewrite length_fmap, !length_insert.
  - intros j u. intros [(-> & -> & _)|[Hj Hu]]%list_lookup_insert_Some; [done|].
    eapply (tlocal_stable (tpages C) T _ m' T' (wheld (tpc th))); try done; [by eapply Lo|].
    intros p Hp Hw. by destruct (Ex j i u th p ltac:(congruence) Hu Hi Hp).
  - intros j u x0 Hu Hx. apply list_lookup_fmap_Some_1 in Hx as (x & -> & Hx). apply iter_trim. apply list_lookup_insert_Some in Hu as [(<- & <- & _)|[Hj Hu]].
    + rewrite list_lookup_insert_eq in Hx by (by eapply lookup_lt_Some). by injection Hx as <-.
    + rewrite list_lookup_insert_ne in Hx by done. eapply iter_grow; [exact G|]. by eapply It.
  - intros j x Hx. apply list_lookup_fmap_Some_1 in Hx as (y & -> & _). apply trim_in.
  - intros j k u v p Hjk Hu Hv Hp. apply list_lookup_insert_Some in Hu as [(<- & <- & _)|[Hj Hu]]; apply list_lookup_insert_Some in Hv as [(<- & <- & _)|[Hk Hv]]; try done.
    + by eapply Wx.
    + split; [|by eapply (Rx p j u)]. intros Hw. by destruct (Wx p j u ltac:(congruence) Hu Hw).
    + by eapply (Ex j k).
  - intros j u p Hu Hp. apply list_lookup_insert_Some in Hu as [(<- & <- & _)|[Hj Hu]]; [by apply Ne|by eapply Se].
  - intros j u p Hu Hp. apply list_lookup_insert_Some in Hu as [(<- & <- & _)|[Hj Hu]]; [|apply Dm; by eapply Do].
    destruct Hp as [Hp|Hp].
    + destruct (Wr p Hp) as [W|[(_ & _ & W)|(_ & W)]]; [apply Dm, (Do i th p Hi); by left|by apply Dm|done].
    + destruct (Rd p Hp) as [R|[_ R]]; [apply Dm, (Do i th p Hi); by right|by apply Dm].
  - intros p Hp. pose proof (lookup_lt_Some _ _ _ Hi) as Li.
    assert (Hand : in_hand (tpc th') = Some p -> exists j u, <[i := th']> (tthreads C) !! j = Some u /\ in_hand (tpc u) = Some p).
    { intros X. exists i, th'. by rewrite list_lookup_insert_eq. }
    destruct (Nw0 p Hp) as [Old|New]; [|right; right; by apply Hand].
    destruct (Kn p Old) as [?|[?|(j & u & Hj & Hu)]]; [by left|right; left; by eapply grow_in|]. right.
    destruct (decide (j = i)) as [->|Nj].
    + assert (u = th) as -> by congruence. destruct (Hd p Hu) as [X|X]; [right; by apply Hand|by left].
    + right. exists j, u. by rewrite list_lookup_insert_ne.
Qed.

(** A piece of one thread. *)
Lemma run_sim C T curs i th cur fault fresh m' H' c' it' S1 evs :
  tinv m0 C T curs -> tthreads C !! i = Some th -> curs !! i = Some cur ->
  (forall e, fault = Some e -> F e /\ ok e = false /\ code e <> kNotFound) ->
  texec fault fresh (tthreads C) (tpc th) (iter th) (tpages C) (ttable C) = TGoes m' H' c' it' ->
  aruns F S1 evs (abstract C T curs) ->
  exists T' curs', let C' := mkTConf m' H' (<[i := mkTThread c' it']> (tthreads C)) in
    tinv m0 C' T' curs' /\ aruns F S1 evs (abstract C' T' curs') /\ (exists l, T'.*1 = T.*1 ++ l) /\
    exists cur', act F (contents T) T.*1 (part_of th cur) (contents T') T'.*1 (mkAPart (stat_of c') cur').
Proof.
  intros I Hi Hc Ft E Ar. destruct (texec_ok (ti_shared _ _ _ _ I) Ft (tpc th) (iter th) cur (ti_due _ _ _ _ I i cur Hc) (ti_local _ _ _ _ I i th Hi) (ti_iter _ _ _ _ I i th cur Hi Hc) _ _ _ _ E)
    as (T' & cur' & [P1 P2 P3 P4 P5 P6 P7 P8 P10 P11 P9]).
  exists T', (trim (contents T') <$> <[i := cur']> curs). pose proof (latched_write E) as Lw. pose proof (latched_read E) as Lr. split; [|split; [|split; [exact P4|by exists cur']]].
  - eapply (tinv_move C T curs i th cur); try done. cbn [tpc iter]. intros p Hp. destruct (latched_apart E p Hp) as [R0 It]. unfold rheld. cbn [tpc iter].
    rewrite R0, It. cbn. intros Hr. destruct (Lw p Hp) as [W|[(_ & W & _)|(W & _)]].
    + apply (ti_self _ _ _ _ I i th p Hi W). apply elem_of_app. by right.
    + apply (not_locked p _ rheld W th); [by eapply list_elem_of_lookup_2|]. apply elem_of_app. by right.
    + destruct (ti_dom _ _ _ _ I i th p Hi) as [? ?]; [right; apply elem_of_app; by right|congruence].
  - unfold abstract. cbn [tthreads]. rewrite <- parts_settle, parts_insert. eapply aruns_act; [exact Ar|by apply parts_lookup|exact P9].
Qed.

Lemma first_lookup H m T : shared H m T -> T.*1 !! 0%nat = Some (first_page_id H).
Proof.
  intros Sh. pose proof (sh_table _ _ _ Sh) as K. pose proof (page_valid Sh _ (first_in _ _ _ K)) as N. rewrite (tk_first _ _ _ K) in N |- *.
  unfold nth_page in *. rewrite list_lookup_fmap. by destruct (T !! 0%nat).
Qed.

(** A call of Next sets out from behind the last row: whatever follows it is ahead. *)
Lemma next_armed H m T j cur :
  shared H m T -> iter_known T TIdle (Some j) cur -> page_id_ j <> INVALID_PAGE ->
  iter_known T NextFetch (Some (mkTableIterator (guard_ j) true (page_id_ j) (if initialized_ j then u16 (slot_ j + 1) else 0) (tuple_ j)))
    (arm TNext (contents T) T.*1 cur).
Proof.
  intros Sh [A B D G _ Fr En] Ej. destruct B as [B|B]; [done|]. destruct (page_index _ _ B) as (x & a & Hx).
  assert (Lx : T.*1 !! x = Some (page_id_ j)) by (by rewrite list_lookup_fmap, Hx).
  split; cbn; try done; [by destruct cur|by right|destruct (initialized_ j); [unfold u16; by apply Z.mod_pos_bound|done]| |].
  - intros o d Ho. destruct cur as [|r due| |]; try done. injection Ho as <- <-. cbn.
    destruct (Fr r due eq_refl) as [_ [(-> & -> & L0)|(-> & -> & Hs)]].
    + split; [done|]. intros y [_ [t Hy]%elem_of_dom]%elem_of_filter. apply contents_lookup in Hy as (v & b & Hv & H0 & _); [|apply Sh].
      exists 0%nat, v. split; [done|]. split; [by rewrite list_lookup_fmap, Hv|]. cbn. destruct v; [right; split; [done|lia]|left; lia].
    + rewrite u16_id by (unfold is_u16; lia). split; [intros _; exists x, x; cbn; split_and!; try done; right; split; [done|lia]|].
      intros y [Fy _]%elem_of_filter. by replace (slot_ j + 1 - 1) with (slot_ j) by lia.
  - intros X. destruct cur; try done. by destruct (En eq_refl).
Qed.

(** A call. *)
Lemma call_sim C T curs i it cur o c' it' S1 evs :
  tinv m0 C T curs -> tthreads C !! i = Some (mkTThread TIdle it) -> curs !! i = Some cur -> tallowed (chain C) (TCall i o) ->
  tstart o (ttable C) it = Some (c', it') -> aruns F S1 evs (abstract C T curs) ->
  exists curs', let C' := mkTConf (tpages C) (ttable C) (<[i := mkTThread c' it']> (tthreads C)) in
    tinv m0 C' T curs' /\ aruns F S1 (evs ++ [TInvoked i o]) (abstract C' T curs').
Proof.
  intros I Hi Hc Al E Ar. rewrite (chain_pages _ _ (ti_shared _ _ _ _ I)) in Al.
  pose proof (ti_iter _ _ _ _ I i _ cur Hi Hc) as K. cbn [tpc iter] in K.
  pose proof (ti_due _ _ _ _ I i cur Hc) as Di. pose proof (tk_nodup _ _ _ (sh_table _ _ _ (ti_shared _ _ _ _ I))) as ND.
  assert (X : exists cur', tlocal (tpages C) T c' /\ iter_known T c' it' cur' /\ wheld c' = [] /\ reading c' = [] /\
    (forall p, p ∈ iter_held it' -> p ∈ iter_held it) /\ due_in (contents T) cur' /\
    (stat_of c' = APending o /\ cur' = arm o (contents T) T.*1 cur \/
     exists a, stat_of c' = ADone a /\ effect_of F o (contents T) T.*1 (arm o (contents T) T.*1 cur) a (contents T) T.*1 cur')).
  { destruct o; cbn in Al, E.
    - exists cur. assert (Hf : tuple_fits t \/ ~ tuple_fits t) by (unfold tuple_fits; lia). unfold tuple_fits in Hf.
      destruct (Z.eqb_spec (len t) 0); [|destruct (Z.ltb_spec MAX_TUPLE_SIZE (len t))]; simplify_eq; (split; [cbn; unfold tuple_fits; done || lia|]);
        (split; [by eapply (iter_other T TIdle)|]); do 4 (split; [done|]).
      + right. eexists. split; [done|]. apply ef_insert_bad; [unfold tuple_fits; lia|done].
      + right. eexists. split; [done|]. apply ef_insert_bad; [unfold tuple_fits; lia|done].
      + by left.
    - simplify_eq. exists cur. split; [done|]. split; [by eapply (iter_other T TIdle)|]. do 4 (split; [done|]). by left.
    - simplify_eq. exists cur. split; [done|]. split; [by eapply (iter_other T TIdle)|]. do 4 (split; [done|]). by left.
    - simplify_eq. exists cur. split; [done|]. split; [by eapply (iter_other T TIdle)|]. do 4 (split; [done|]). by left.
    - destruct it; [done|]. simplify_eq. exists (Behind None ∅). destruct K as [-> _]. split; [done|].
      pose proof (first_in _ _ _ (sh_table _ _ _ (ti_shared _ _ _ _ I))) as Hf. split.
      { split; try done; [by right|]. intros o due [= <- <-]. split; [by eapply (page_valid (ti_shared _ _ _ _ I))|left]. do 2 (split; [done|]). by apply (first_lookup _ _ _ (ti_shared _ _ _ _ I)). }
      do 3 (split; [done|]). split; [by intros ? ? [= _ <-]|]. right; eexists; split; [done|apply ef_scan].
    - destruct it as [j|]; [|done]. pose proof K as [A B D G _ Fr En]. destruct (Z.eqb_spec (page_id_ j) INVALID_PAGE) as [Ej|Ej]; simplify_eq.
      + exists cur. split; [done|]. split; [by apply (iter_other T TIdle)|]. do 4 (split; [done|]). right. eexists. split; [done|].
        destruct cur as [|o due| |]; [done|by destruct (Fr o due eq_refl)|apply ef_next_ended; by left|apply ef_next_ended; by right].
      + exists (arm TNext (contents T) T.*1 cur). split; [done|]. split; [|do 3 (split; [done|]); split; [|by left]].
        * apply (next_armed _ _ _ _ _ (ti_shared _ _ _ _ I) K Ej).
        * destruct cur as [|o due| |]; try done. cbn. intros ? ? [= <- <-] x. by intros [_ ?]%elem_of_filter.
    - destruct it as [j|]; [|done]. simplify_eq. exists NoScan. destruct K as [A _ _ _ _ _ _]. split; [done|]. split; [done|]. split; [done|]. split; [done|].
      split; [by intros p ?%elem_of_nil|]. split; [done|]. right. eexists. split; [done|]. by apply ef_close. }
  destruct X as (cur' & Lo & It & W0 & R0 & Hh & Du & X). exists (<[i := cur']> curs).
  assert (Same : trim (contents T) <$> <[i := cur']> curs = <[i := cur']> curs).
  { apply trims_same. intros j x [(_ & <- & _)|[_ Hx]]%list_lookup_insert_Some; [done|by eapply ti_due]. }
  split.
  - rewrite <- Same. eapply (tinv_move C T curs i _ cur); try done; cbn [tpc iter].
    + apply I.
    + exists []. by rewrite app_nil_r.
    + intros p Hp. rewrite W0 in Hp. by apply elem_of_nil in Hp.
    + intros p Hp. left. unfold rheld in *. cbn in *. rewrite R0 in Hp. by apply Hh.
    + intros p Hp. rewrite W0 in Hp. by apply elem_of_nil in Hp.
    + by left.
  - unfold abstract. cbn [tthreads]. pose proof (parts_lookup i _ cur _ _ Hi Hc) as Hp.
    pose proof (aruns_call F S1 evs _ _ _ i o cur Ar Hp) as Ac. destruct X as [[Es ->]|(a & Es & Ef)].
    + rewrite parts_insert. unfold part_of at 1. cbn. by rewrite Es.
    + rewrite <- Same, <- parts_settle, parts_insert. unfold part_of at 1. cbn [tpc]. rewrite Es.
      rewrite <- (list_insert_insert_eq (zip_with part_of (tthreads C) curs) i _ (mkAPart (APending o) (arm o (contents T) T.*1 cur))).
      eapply aruns_act; [exact Ac| |by apply act_done]. apply list_lookup_insert_eq. by eapply lookup_lt_Some.
Qed.

(** A return. *)
Lemma return_sim C T curs i a it cur S1 evs :
  tinv m0 C T curs -> tthreads C !! i = Some (mkTThread (Reply a) it) -> curs !! i = Some cur -> aruns F S1 evs (abstract C T curs) ->
  let C' := mkTConf (tpages C) (ttable C) (<[i := mkTThread TIdle it]> (tthreads C)) in
  tinv m0 C' T (<[i := cur]> curs) /\ aruns F S1 (evs ++ [TReplied i a]) (abstract C' T (<[i := cur]> curs)).
Proof.
  intros I Hi Hc Ar C'. pose proof (ti_iter _ _ _ _ I i _ cur Hi Hc) as K. split.
  - rewrite <- (trims_same (contents T) (<[i := cur]> curs)) by (rewrite list_insert_id by done; apply I). eapply (tinv_move C T curs i _ cur); try done; cbn [tpc iter].
    + apply I.
    + by eapply (iter_other T (Reply a)).
    + exists []. by rewrite app_nil_r.
    + by intros p ?%elem_of_nil.
    + intros p Hp. by left.
    + by intros p ?%elem_of_nil.
    + by left.
  - unfold abstract, C'. cbn [tthreads]. rewrite parts_insert. eapply aruns_return; [exact Ar|]. exact (parts_lookup i _ cur _ _ Hi Hc).
Qed.

Lemma step_sim C T curs mv C' ev S1 evs :
  tinv m0 C T curs -> tallowed (chain C) mv -> (forall i e fresh, mv = TRun i (Some e) fresh -> F e) -> tstep mv C = Some (C', ev) ->
  aruns F S1 evs (abstract C T curs) ->
  exists T' curs', tinv m0 C' T' curs' /\ aruns F S1 (evs ++ visible ev) (abstract C' T' curs') /\ exists l, T'.*1 = T.*1 ++ l.
Proof.
  intros I Al Ff E Ar. destruct mv as [i o|i fault fresh]; cbn [tstep] in E.
  - destruct (tthreads C !! i) as [[c it]|] eqn:Hi; [|done]. destruct c; try done.
    destruct (tstart o (ttable C) it) as [[c' it']|] eqn:Es; [|done]. injection E as <- <-.
    destruct (lookup_lt_is_Some_2 curs i) as [cur Hc]; [rewrite (ti_len _ _ _ _ I); by eapply lookup_lt_Some|].
    destruct (call_sim C T curs i it cur o c' it' S1 evs I Hi Hc Al Es Ar) as (curs' & I' & A'). exists T, curs'. split; [done|]. split; [done|]. exists []. by rewrite app_nil_r.
  - destruct (tthreads C !! i) as [th|] eqn:Hi; [|done].
    destruct (lookup_lt_is_Some_2 curs i) as [cur Hc]; [rewrite (ti_len _ _ _ _ I); by eapply lookup_lt_Some|].
    assert (D : (exists a, tpc th = Reply a) \/ forall a, tpc th <> Reply a) by (destruct (tpc th); eauto).
    destruct D as [[a Ea]|Na].
    + destruct th as [c it]. cbn in Ea. subst c. injection E as <- <-.
      destruct (return_sim C T curs i a it cur S1 evs I Hi Hc Ar) as [I' A']. eexists _, _. split; [exact I'|]. split; [exact A'|]. exists []. by rewrite app_nil_r.
    + assert (E' : match texec fault fresh (tthreads C) (tpc th) (iter th) (tpages C) (ttable C) with
        | TBlocks => None | TGoes m H c it => Some (mkTConf m H (<[i := mkTThread c it]> (tthreads C)), TTau) end = Some (C', ev)).
      { destruct th as [c it]. cbn in Na |- *. destruct c; try done. exfalso. by eapply Na. }
      destruct (texec fault fresh (tthreads C) (tpc th) (iter th) (tpages C) (ttable C)) as [|m' H' c' it'] eqn:Ex; [done|]. injection E' as <- <-.
      cbn [visible]. rewrite app_nil_r.
      destruct (run_sim C T curs i th cur fault fresh m' H' c' it' S1 evs I Hi Hc) as (T' & curs' & I' & A' & G & _); try done.
      { intros e ->. split; [by eapply Ff|]. by apply Al. }
      by exists T', curs'.
Qed.

Lemma runs_sim C0 T0 curs0 evs C :
  tinv m0 C0 T0 curs0 -> truns F C0 evs C -> exists T curs, tinv m0 C T curs /\ aruns F (abstract C0 T0 curs0) evs (abstract C T curs).
Proof.
  intros I R. induction R as [|C0 evs C mv C' ev R IH Al Ff E]; [exists T0, curs0; split; [done|constructor]|].
  destruct (IH I) as (T & curs & I1 & A1). destruct (step_sim C T curs mv C' ev _ _ I1 Al Ff E A1) as (T' & curs' & I2 & A2 & _). by exists T', curs'.
Qed.
End steps.

(** ** How long a call takes *)

(** The position of a page in the chain. *)
Fixpoint pos (p : Z) (l : list Z) : nat := match l with [] => 0%nat | q :: l => if p =? q then 0%nat else S (pos p l) end.

Lemma pos_grow p l k : (pos p l <= pos p (l ++ k))%nat.
Proof. induction l as [|q l IH]; cbn; [lia|]. destruct (p =? q); lia. Qed.

Lemma pos_lookup p l i : NoDup l -> l !! i = Some p -> pos p l = i.
Proof.
  revert i. induction l as [|q l IH]; intros [|i]; [done|done| |]; cbn; intros [Nq ND]%NoDup_cons.
  - intros [= ->]. by rewrite Z.eqb_refl.
  - intros Hi. destruct (Z.eqb_spec p q) as [->|]; [by destruct Nq; eapply list_elem_of_lookup_2|]. by rewrite (IH i).
Qed.

Lemma pos_lt p l : p ∈ l -> (pos p l < length l)%nat.
Proof.
  induction l as [|q l IH]; [by intros ?%elem_of_nil|]. intros [->|Hp]%elem_of_cons; cbn; [rewrite Z.eqb_refl; lia|].
  destruct (p =? q); [lia|]. specialize (IH Hp). lia.
Qed.

Section cost.
Local Open Scope nat_scope.
(** The chain, and a bound on how long it gets. *)
Context (L : nat).

Definition after_left (k : AfterInsert) : nat := match k with ReturnRid => 0 | RemoveOld _ => 4 end.
Definition append_left (k : AfterInsert) : nat := 3 * L + 8 + after_left k.
Definition insert_left (k : AfterInsert) : nat := 4 * INSERT_PROBE_LIMIT + append_left k + 2.

(** The pieces a thread has before it at most. *)
Definition left_over (order : list Z) (c : TPc) (it : option TableIterator) : nat :=
  match c with
  | TIdle | Reply _ => 0
  | LoadHint _ k => insert_left k
  | ProbeFetch n _ _ _ k => 4 * n + append_left k + 1
  | ProbeTry n _ _ _ k => 4 * n + append_left k + 4
  | ProbeTurn n _ _ _ k => 4 * n + append_left k + 3
  | ProbeDrop n _ _ _ k => 4 * n + append_left k + 2
  | LoadLast _ k => append_left k
  | AppendFetch p _ k => 3 * (L - pos p order) + 7 + after_left k
  | AppendTry p _ k => 3 * (L - pos p order) + 6 + after_left k
  | AppendDrop _ next _ k => 3 * (L - pos next order) + 8 + after_left k
  | Extend _ _ k => 8 + after_left k
  | Fill _ _ _ k => 7 + after_left k
  | Link _ _ _ _ k => 6 + after_left k
  | StoreLast _ _ _ k => 5 + after_left k
  | StoreHint held _ _ k => length held + 2 + after_left k
  | Release held _ k => length held + 1 + after_left k
  | GetFetch _ => 3 | GetRead _ => 2 | GetDrop _ _ => 1
  | DelFetch _ _ => 4 | DelTry _ _ => 3 | DelHint _ _ _ => 2 | DelDrop _ _ _ => 1
  | UpdFetch rid _ => insert_left (RemoveOld rid) + 3
  | UpdTry rid _ => insert_left (RemoveOld rid) + 2
  | UpdDrop rid _ _ => insert_left (RemoveOld rid) + 1
  | NextFetch =>
      match it with
      | Some i => if (page_id_ i =? INVALID_PAGE)%Z then 1 else 3 * (L - pos (page_id_ i) order) + 1
      | None => 0
      end
  | NextLook => match it with Some i => 3 * (L - pos (page_id_ i) order) | None => 0 end
  | NextDrop next => if (next =? INVALID_PAGE)%Z then 2 else 3 * (L - pos next order) + 2
  end.

Definition call_cost : nat := insert_left (RemoveOld (mkRID 0 0)) + 3.

(** A longer chain does not make it more. *)
Lemma left_over_grow (l l' : list Z) c it : (exists k, l' = l ++ k) -> left_over l' c it <= left_over l c it.
Proof.
  intros [k ->]. assert (P : forall p, pos p l <= pos p (l ++ k)) by (intros p; apply pos_grow).
  destruct c; cbn [left_over]; try lia.
  - pose proof (P p). lia.
  - pose proof (P p). lia.
  - pose proof (P next). lia.
  - destruct it as [x|]; [|lia]. pose proof (P (page_id_ x)). destruct (_ =? _)%Z; lia.
  - destruct it as [x|]; [|lia]. pose proof (P (page_id_ x)). lia.
  - pose proof (P next). destruct (_ =? _)%Z; lia.
Qed.

Lemma tstart_left o H it c it' order : tstart o H it = Some (c, it') -> left_over order c it' <= call_cost.
Proof.
  unfold call_cost, insert_left, append_left. intros E. destruct o; cbn [tstart] in E.
  1: destruct (_ =? _)%Z; [|destruct (_ <? _)%Z].
  all: try (injection E as <- <-; cbn; unfold insert_left, append_left; cbn; lia).
  - destruct it; [done|]. injection E as <- <-. cbn. lia.
  - destruct it as [x|]; [|done]. destruct (_ =? _)%Z eqn:Ex; injection E as <- <-; cbn; [lia|]. rewrite Ex. lia.
  - destruct it; [|done]. injection E as <- <-. cbn. lia.
Qed.

Section decrease.
Context {host : Host} {m : pages_t} {H : TableHeap} {T : layout} {cur : Cursor}.
Hypothesis Sh : shared H m T.
Hypothesis Room : length T <= L.

Lemma pos_room p : p ∈ T.*1 -> pos p T.*1 < L.
Proof. intros Hp. pose proof (pos_lt p _ Hp) as X. rewrite length_fmap in X. lia. Qed.

(** The page after a page of the chain. *)
Lemma pos_next p : p ∈ T.*1 ->
  let next := ph_next_page_id (page_header (default [] (m !! p))) in
  pos p T.*1 < L /\ (next = INVALID_PAGE \/ pos next T.*1 = S (pos p T.*1)).
Proof.
  intros Hp. split; [by apply pos_room|]. destruct (page_at Sh p Hp) as (i & a & bs & Hi & -> & Hh). cbn [default from_option id].
  rewrite (hp_next _ _ _ _ Hh). pose proof (tk_nodup _ _ _ (sh_table _ _ _ Sh)) as ND. unfold nth_page. destruct (T !! S i) as [[q b]|] eqn:E; [right|by left].
  rewrite (pos_lookup p _ i ND) by (by rewrite list_lookup_fmap, Hi). apply (pos_lookup _ _ _ ND). by rewrite list_lookup_fmap, E.
Qed.

Lemma next_less p : p ∈ T.*1 ->
  let next := ph_next_page_id (page_header (default [] (m !! p))) in
  (if (next =? INVALID_PAGE)%Z then 2 else 3 * (L - pos next T.*1) + 2) < 3 * (L - pos p T.*1).
Proof.
  intros Hp next. destruct (pos_next p Hp) as [Hl Hn]. fold next in Hn. destruct (Z.eqb_spec next INVALID_PAGE) as [|N]; [lia|].
  destruct Hn as [|Hn]; [done|lia].
Qed.

(** Every piece brings the end of the call nearer. *)
Lemma left_over_less fault fresh ts c it m' H' c' it' :
  tlocal m T c -> iter_known T c it cur -> texec fault fresh ts c it m H = TGoes m' H' c' it' ->
  left_over T.*1 c' it' < left_over T.*1 c it.
Proof.
  intros Lo K E. destruct c; cbn [texec] in E; cases; cbn [left_over length] in *; unfold insert_left, append_left in *.
  all: try (unfold after_insert, after_delete; repeat match goal with |- context [match ?x with _ => _ end] => destruct x end; cbn; lia).
  - destruct Lo as [Lo _]. destruct (pos_next p Lo) as [Hl [Hn|Hn]]; [|lia].
    match goal with Hb : negb (_ =? _)%Z = true |- _ => apply negb_true_iff, Z.eqb_neq in Hb; done end.
  - destruct Lo as [Lo _]. pose proof (pos_room p Lo). destruct r as [[]|]; cbn; lia.
  - destruct K as [_ _ _ _ [_ B] _ _]. pose proof (pos_room _ B). lia.
  - destruct K as [_ _ _ _ [_ B] _ _]. pose proof (pos_room _ B). lia.
  - destruct K as [_ _ _ _ [_ B] _ _]. by apply next_less.
  - destruct K as [_ _ _ _ [_ B] _ _]. by apply next_less.
  - destruct K as [_ _ _ _ [_ B] _ _]. pose proof (pos_room _ B). lia.
  - cbn. destruct (_ =? _)%Z; lia.
Qed.
End decrease.
End cost.

(** A run in which thread [i] stays inside one call and makes [n] moves. *)
Inductive within {host : Host} (F : Status -> Prop) (i : nat) : nat -> TConf -> TConf -> Prop :=
| within_none C : within F i 0 C C
| within_own n C1 C2 C3 fault fresh :
    within F i n C1 C2 -> tallowed (chain C2) (TRun i fault fresh) -> (forall e, fault = Some e -> F e) ->
    tstep (TRun i fault fresh) C2 = Some (C3, TTau) -> within F i (S n) C1 C3
| within_other n C1 C2 C3 mv ev :
    within F i n C1 C2 -> tallowed (chain C2) mv -> (forall j e fresh, mv = TRun j (Some e) fresh -> F e) ->
    match mv with TCall j _ | TRun j _ _ => j <> i end -> tstep mv C2 = Some (C3, ev) -> within F i n C1 C3.

Section terminates.
Context {host : Host} {F : Status -> Prop} {m0 : pages_t}.

Lemma grow_length (T T' : layout) : (exists l, T'.*1 = T.*1 ++ l) -> (length T <= length T')%nat.
Proof. intros [l G]. rewrite <- (length_fmap fst T'), G, length_app, length_fmap. lia. Qed.

Lemma step_inv C T curs mv C' ev :
  tinv m0 C T curs -> tallowed (chain C) mv -> (forall i e fresh, mv = TRun i (Some e) fresh -> F e) -> tstep mv C = Some (C', ev) ->
  exists T' curs', tinv m0 C' T' curs' /\ exists l, T'.*1 = T.*1 ++ l.
Proof.
  intros I Al Ff E. destruct (step_sim (F := F) C T curs mv C' ev _ [] I Al Ff E (aruns_none F _)) as (T' & curs' & I' & _ & G). by exists T', curs'.
Qed.

Lemma other_thread mv C C' ev i : tstep mv C = Some (C', ev) -> match mv with TCall j _ | TRun j _ _ => j <> i end -> tthreads C' !! i = tthreads C !! i.
Proof.
  intros E Ne. destruct mv as [j o|j fault fresh]; cbn in E.
  - destruct (tthreads C !! j) as [[[] it]|]; try done. destruct (tstart _ _ _) as [[]|]; [|done]. injection E as <- _. by apply list_lookup_insert_ne.
  - destruct (tthreads C !! j) as [[c it]|]; [|done].
    destruct c; try (injection E as <- _; by apply list_lookup_insert_ne);
      (destruct (texec _ _ _ _ _ _ _) as [|? ? ? ?]; [done|]; injection E as <- _; by apply list_lookup_insert_ne).
Qed.

Lemma own_move i fault fresh C C' : tstep (TRun i fault fresh) C = Some (C', TTau) ->
  exists th m' H' c' it', tthreads C !! i = Some th /\ texec fault fresh (tthreads C) (tpc th) (iter th) (tpages C) (ttable C) = TGoes m' H' c' it' /\
    tthreads C' !! i = Some (mkTThread c' it').
Proof.
  cbn. destruct (tthreads C !! i) as [[c it]|] eqn:Hi; [|done]. intros E. exists (mkTThread c it). cbn [tpc iter].
  assert (E' : match texec fault fresh (tthreads C) c it (tpages C) (ttable C) with
        | TBlocks => None | TGoes m H c it => Some (mkTConf m H (<[i := mkTThread c it]> (tthreads C)), TTau) end = Some (C', TTau)) by (by destruct c).
  destruct (texec fault fresh (tthreads C) c it (tpages C) (ttable C)) as [|m' H' c' it'] eqn:Ex; [done|]. injection E' as <-.
  exists m', H', c', it'. split; [done|]. split; [done|]. apply list_lookup_insert_eq. by eapply lookup_lt_Some.
Qed.

Lemma within_left i n C1 T1 curs1 C2 th :
  tinv m0 C1 T1 curs1 -> tthreads C1 !! i = Some th -> within F i n C1 C2 ->
  exists T2 curs2 u, tinv m0 C2 T2 curs2 /\ tthreads C2 !! i = Some u /\
    forall L, (length T2 <= L)%nat -> (n + left_over L T2.*1 (tpc u) (iter u) <= left_over L T1.*1 (tpc th) (iter th))%nat.
Proof.
  intros I Hi W. induction W as [C|n C1 C2 C3 fault fresh W IH Al Ff E|n C1 C2 C3 mv ev W IH Al Ff Ne E].
  - exists T1, curs1, th. split; [done|]. split; [done|]. lia.
  - destruct (IH I Hi) as (T2 & curs2 & u & I2 & Hu & Le).
    destruct (step_inv C2 T2 curs2 _ C3 _ I2 Al ltac:(intros ? ? ? [= _ -> _]; by apply Ff) E) as (T3 & curs3 & I3 & G).
    destruct (own_move i fault fresh C2 C3 E) as (v & m' & H' & c' & it' & Hv & Ex & H3). assert (v = u) as -> by congruence.
    exists T3, curs3, (mkTThread c' it'). split; [done|]. split; [done|]. intros L HL.
    pose proof (grow_length _ _ G) as Lt.
    destruct (lookup_lt_is_Some_2 curs2 i) as [cur Hc]; [rewrite (ti_len _ _ _ _ I2); by eapply lookup_lt_Some|].
    pose proof (left_over_less L (ti_shared _ _ _ _ I2) ltac:(lia) _ _ _ _ _ _ _ _ _ (ti_local _ _ _ _ I2 i u Hu) (ti_iter _ _ _ _ I2 i u cur Hu Hc) Ex) as Lo.
    pose proof (left_over_grow L _ _ c' it' G) as Gr. specialize (Le L ltac:(lia)). cbn [tpc iter]. lia.
  - destruct (IH I Hi) as (T2 & curs2 & u & I2 & Hu & Le).
    destruct (step_inv C2 T2 curs2 _ C3 _ I2 Al Ff E) as (T3 & curs3 & I3 & G).
    exists T3, curs3, u. split; [done|]. split; [by rewrite (other_thread _ _ _ _ _ E Ne)|]. intros L HL.
    pose proof (grow_length _ _ G) as Lt.
    pose proof (left_over_grow L _ _ (tpc u) (iter u) G) as Gr. specialize (Le L ltac:(lia)). lia.
Qed.
End terminates.

(** ** One update, with nobody else around *)

(** The rows of the table, read off its pages. *)
Definition table_contents (C : TConf) : gmap RID (list byte) :=
  contents ((fun p => (p, abs (page_body (default [] (tpages C !! p))))) <$> chain C).

Lemma table_contents_shared C T : shared (ttable C) (tpages C) T -> table_contents C = contents T.
Proof.
  intros Sh. unfold table_contents. rewrite (chain_pages _ _ Sh), <- list_fmap_compose. f_equal.
  rewrite <- (list_fmap_id T) at 2. apply list_fmap_ext. intros i [p a] Hi. cbn.
  destruct (tk_chain _ _ _ (sh_table _ _ _ Sh) i p a Hi) as (bs & -> & Hh). cbn. by rewrite (hp_abs _ _ _ _ Hh).
Qed.

(** Thread [i] moves until it replies, at most [n] times.  [fail n] says whether the fetch or
    the allocation of the move that has [n] more after it fails, and with what. *)
Fixpoint alone {host : Host} (i : nat) (fresh : Z) (fail : nat -> option Status) (n : nat) (C : TConf) : option (Answer * TConf) :=
  match n with
  | O => None
  | S n =>
      match tstep (TRun i (fail n) fresh) C with
      | Some (C, TReplied _ a) => Some (a, C)
      | Some (C, _) => alone i fresh fail n C
      | None => None
      end
  end.

(** What an update of [rid] to [t] that answered [a] made of the rows [R]; [F] are the failures
    of the store it met. *)
Definition updated (F : Status -> Prop) (R : gmap RID (list byte)) (rid : RID) (t : list byte) (a : Answer) (R' : gmap RID (list byte)) : Prop :=
  match a with
  | AnsRid (Ok rid') => tuple_fits t /\ is_Some (R !! rid) /\ (rid' = rid \/ R !! rid' = None) /\ R' = <[rid' := t]> (delete rid R)
  | AnsRid (Error e) =>
      (R' = R /\ (R !! rid = None /\ code e = kNotFound \/ ~ tuple_fits t /\ code e = kInvalidArgument \/ F e)) \/
      (code e = kInternal /\ (exists e', F e') /\ tuple_fits t /\ is_Some (R !! rid) /\
       exists new, R !! new = None /\ R' = <[new := t]> R)
  | _ => False
  end.
Definition updating (F : Status -> Prop) (R : gmap RID (list byte)) (rid : RID) (t : list byte) (st : AStat) (R' : gmap RID (list byte)) : Prop :=
  match st with
  | AIdle => False
  | APending o => o = TUpdate rid t /\ R' = R
  | ALeaving r u => r = rid /\ u = t /\ R' = R /\ tuple_fits t /\ is_Some (R !! rid)
  | AMoving r new => r = rid /\ tuple_fits t /\ is_Some (R !! rid) /\ R !! new = None /\ R' = <[new := t]> R
  | ADone a => updated F R rid t a R'
  end.

Lemma updating_act F R rid t R1 l1 st1 c1 R2 l2 st2 c2 :
  act F R1 l1 (mkAPart st1 c1) R2 l2 (mkAPart st2 c2) -> updating F R rid t st1 R1 -> updating F R rid t st2 R2.
Proof.
  intros A U. inversion A; subst; cbn in U |- *; [done|..].
  - destruct U as [-> ->].
    match goal with E : effect_of _ _ _ _ _ _ _ _ _ |- _ => inversion E; subst end; cbn; eauto 10.
    split_and!; try done; [by left|]. by rewrite insert_delete_eq.
  - by destruct U as [[= -> ->] ->].
  - left. destruct U as (_ & _ & -> & _). auto.
  - by destruct U as (-> & -> & -> & ? & ?).
  - destruct U as (-> & Ht & Hr & Hn & ->). split_and!; try done; [by right|]. rewrite delete_insert_ne; [done|].
    intros ->. rewrite Hn in Hr. by destruct Hr.
  - right. destruct U as (-> & Ht & Hr & Hn & ->). split_and!; eauto.
Qed.

(** The points of an update before it makes a page. *)
Definition early (c : TPc) : bool :=
  match c with
  | LoadHint _ _ | ProbeFetch _ _ _ _ _ | ProbeTry _ _ _ _ _ | ProbeTurn _ _ _ _ _ | ProbeDrop _ _ _ _ _
  | LoadLast _ _ | AppendFetch _ _ _ | AppendTry _ _ _ | AppendDrop _ _ _ _ | Extend _ _ _ | UpdFetch _ _ | UpdTry _ _ | UpdDrop _ _ _ => true
  | _ => false
  end.

Section moves.
Context {host : Host} {fault : option Status} {fresh : Z} {ts : list TThread}.
Context {c : TPc} {it : option TableIterator} {m : pages_t} {H : TableHeap}.
Context {m' : pages_t} {H' : TableHeap} {c' : TPc} {it' : option TableIterator}.
Hypothesis E : texec fault fresh ts c it m H = TGoes m' H' c' it'.

Lemma iter_kept : stepping c = false -> it' = it.
Proof. intros S. destruct c; cbn [texec] in E; cases; done. Qed.

(** Only pages in hand are written, and only the fresh one is made. *)
Lemma pages_made p : is_Some (m' !! p) -> is_Some (m !! p) \/ p ∈ wheld c \/ p = fresh.
Proof.
  intros Hp. destruct c; cbn [texec] in E; cases; auto.
  all: cbn; match type of Hp with context [<[?q := _]> _] => destruct (decide (p = q)) as [->|]; [|rewrite lookup_insert_ne in Hp by done; by left] end.
  all: try (right; right; reflexivity).
  all: right; left; try (by left); right; by left.
Qed.

Lemma early_made : early c' = true -> early c = true /\ forall p, is_Some (m' !! p) -> is_Some (m !! p) \/ p ∈ wheld c.
Proof.
  intros S. destruct c; cbn [texec] in E; cases; try done.
  all: try (unfold after_insert, after_delete in S; repeat match type of S with context [match ?x with _ => _ end] => destruct x end; done).
  all: split; [done|]; intros p0 Hp; auto.
  all: cbn; match type of Hp with context [<[?q := _]> _] => destruct (decide (p0 = q)) as [->|]; [right; by left|rewrite lookup_insert_ne in Hp by done; by left] end.
Qed.
End moves.

Section alone.
Context {host : Host} {F : Status -> Prop} {m0 : pages_t}.
Context {i : nat} {fresh : Z} {ts : list TThread}.
Hypothesis Range : 2 <= fresh < 2 ^ 31.
Hypothesis Rest : forall j u, ts !! j = Some u -> u = mkTThread TIdle None.

(** Thread [i] stands at [c], the others are idle. *)
Definition solo (c : TPc) : list TThread := <[i := mkTThread c None]> ts.

Lemma solo_unlocked c p : wheld c = [] -> reading c = [] -> write_locked p (solo c) = false /\ read_locked p (solo c) = false.
Proof.
  intros Hw Hr. assert (Id : forall u, In u (solo c) -> wheld (tpc u) = [] /\ rheld u = []).
  { intros u (j & Hj)%list_elem_of_In%list_elem_of_lookup. apply list_lookup_insert_Some in Hj as [(_ & <- & _)|[_ Hj]].
    - unfold rheld. cbn. by rewrite Hr.
    - by rewrite (Rest j u Hj). }
  unfold write_locked, read_locked. split; apply not_true_iff_false; intros (u & Hu & Hp%bool_decide_eq_true)%existsb_exists;
    destruct (Id u Hu) as [E1 E2]; rewrite ?E1, ?E2 in Hp; by apply elem_of_nil in Hp.
Qed.

(** It is never kept waiting. *)
Lemma solo_goes fault R rid t c R' m H T :
  shared H m T -> tlocal m T c -> updating F R rid t (stat_of c) R' -> (forall a, c <> Reply a) -> (early c = true -> m !! fresh = None) ->
  exists m' H' c' it', texec fault fresh (solo c) c None m H = TGoes m' H' c' it'.
Proof.
  intros Sh Lo U Nr Fr.
  assert (Ft : forall p failed latched, wheld c = [] -> reading c = [] -> p ∈ T.*1 -> (forall e, failed e <> TBlocks) -> latched <> TBlocks ->
    match fault with Some e => failed e | None =>
      if write_locked p (solo c) || (true && read_locked p (solo c)) then TBlocks else match m !! p with Some _ => latched | None => TBlocks end end <> TBlocks).
  { intros p failed latched Hw Hr Hp Hf Hl. destruct fault as [e|]; [by apply Hf|]. destruct (solo_unlocked c p Hw Hr) as [-> ->]. cbn.
    by destruct (page_at Sh p Hp) as (? & ? & bs & _ & -> & _). }
  assert (G : texec fault fresh (solo c) c None m H <> TBlocks).
  { destruct c; cbn [texec] in *; try done; try (by destruct U as [[=] _]); try (exfalso; by eapply Nr).
    - destruct probes; [done|]. destruct (_ =? _); [done|]. apply Ft; try done; [apply Lo|]. intros e. by destruct (negb _).
    - repeat case_match; done.
    - apply Ft; try done. apply Lo.
    - repeat case_match; done.
    - destruct fault; [done|]. by rewrite bool_decide_true by (split; [by apply Fr|done]).
    - repeat case_match; done.
    - by destruct held.
    - destruct k; [by destruct U|]. apply Ft; try done. apply Lo.
    - repeat case_match; done.
    - apply Ft; try done. apply Lo.
    - repeat case_match; done.
    - repeat case_match; done. }
  destruct (texec fault fresh (solo c) c None m H) as [|m' H' c' it'] eqn:Ex; [done|]. by exists m', H', c', it'.
Qed.

(** The pages there are besides the fresh one bound the chain. *)
Lemma chain_bound H m T (D : gset Z) : shared H m T -> (forall p, is_Some (m !! p) -> p = fresh \/ p ∈ D) -> (length T <= S (size D))%nat.
Proof.
  intros Sh Hd. pose proof (chain_length _ _ _ Sh) as Hl. rewrite <- size_dom in Hl.
  assert (Sz : (size (dom m) <= size ({[fresh]} ∪ D))%nat).
  { apply subseteq_size. intros p Hp%elem_of_dom. apply elem_of_union. rewrite elem_of_singleton. by apply Hd. }
  pose proof (size_union_alt ({[fresh]} : gset Z) D) as Su. pose proof (subseteq_size (D ∖ {[fresh]}) D (subseteq_difference_l _ _ _ (reflexivity D))).
  rewrite size_singleton in Su. lia.
Qed.

(** An update runs to its end. *)
Lemma alone_updates (D : gset Z) R rid t fail n C T curs c :
  (forall k e, fail k = Some e -> F e /\ ok e = false /\ code e <> kNotFound) -> (i < length ts)%nat ->
  tinv m0 C T curs -> tthreads C = solo c -> updating F R rid t (stat_of c) (contents T) ->
  (early c = true -> tpages C !! fresh = None) -> (forall p, is_Some (tpages C !! p) -> p = fresh \/ p ∈ D) ->
  (left_over (S (size D)) T.*1 c None < n)%nat ->
  exists a C', alone i fresh fail n C = Some (a, C') /\ tthreads C' = solo TIdle /\
    updated F R rid t a (table_contents C') /\ (exists l, chain C' = chain C ++ l) /\ exists T', shared (ttable C') (tpages C') T'.
Proof.
  intros Ft Li. revert C T curs c. induction n as [|n IH]; intros C T curs c I Ht U Fr Hd Hn; [lia|].
  pose proof (ti_shared _ _ _ _ I) as Sh. cbn [alone tstep]. rewrite Ht.
  assert (Hi : solo c !! i = Some (mkTThread c None)) by (by apply list_lookup_insert_eq). rewrite Hi. rewrite <- Ht in Hi.
  assert (Dc : (exists a, c = Reply a) \/ forall a, c <> Reply a) by (destruct c; eauto). destruct Dc as [[a ->]|Nr].
  { eexists a, _. split; [done|]. cbn [tthreads]. unfold solo. rewrite list_insert_insert_eq. split; [done|].
    rewrite (table_contents_shared _ T) by exact Sh. split; [exact U|]. split; [exists []; by rewrite app_nil_r|by exists T]. }
  destruct (solo_goes (fail n) R rid t c _ _ _ _ Sh (ti_local _ _ _ _ I i _ Hi) U Nr Fr) as (m' & H' & c' & it' & Ex).
  assert (St : stepping c = false) by (destruct c; try done; by destruct U). pose proof (iter_kept Ex St) as ->.
  destruct (lookup_lt_is_Some_2 curs i) as [cur Hc]; [rewrite (ti_len _ _ _ _ I); by eapply lookup_lt_Some|].
  destruct (run_sim (F := F) C T curs i _ cur (fail n) fresh m' H' c' None (abstract C T curs) [] I Hi Hc) as (T' & curs' & I' & _ & G & cur' & A);
    [apply Ft|by rewrite Ht|apply aruns_none|]. rewrite Ht in I'. unfold solo in I' at 1. rewrite list_insert_insert_eq in I'. fold (solo c') in I'.
  destruct (IH _ T' curs' c' I') as (a & C2 & Ea & Hth & Up & [l Hl] & Ok2); cbn [tpages ttable tthreads]; try done.
  - by eapply updating_act.
  - intros Sc. destruct (early_made Ex Sc) as [Se Mk]. apply eq_None_not_Some. intros Hs. specialize (Fr Se).
    destruct (Mk fresh Hs) as [[? ?]|Hw]; [congruence|]. destruct (ti_dom _ _ _ _ I i _ fresh Hi) as [? ?]; [by left|congruence].
  - intros p Hp. destruct (pages_made Ex p Hp) as [Hp'|[Hw| -> ]]; [by apply Hd| |by left]. apply Hd. apply (ti_dom _ _ _ _ I i _ p Hi). by left.
  - pose proof (left_over_less (S (size D)) Sh (chain_bound _ _ _ D Sh Hd) _ _ _ _ _ _ _ _ _ (ti_local _ _ _ _ I i _ Hi) (ti_iter _ _ _ _ I i _ cur Hi Hc) Ex) as Lo.
    pose proof (left_over_grow (S (size D)) _ _ c' None G). cbn [tpc iter] in Lo. lia.
  - exists a, C2. split; [|split; [done|split; [done|split; [|done]]]].
    + destruct c; try (by destruct (Nr _ eq_refl)); cbv beta iota; rewrite Ex; cbv beta iota; unfold solo; rewrite list_insert_insert_eq; exact Ea.
    + rewrite Hl, (chain_pages _ _ (ti_shared _ _ _ _ I')), (chain_pages _ _ Sh). destruct G as [l' ->]. exists (l' ++ l). by rewrite app_assoc.
Qed.
End alone.
