(* ===== verification/TableThreadsTheorems.v ===== *)
(** * What the table heap promises to threads that share a table *)

From stdpp Require Import gmap.
From S2P Require Import Prelude Common HeapPage HeapPageProofs HeapPageRefine HeapPageTheorems.
From S2P Require Import BufferPool BufferPoolOps BufferPoolLifecycle PoolRefine PageStore PageStoreLogic.
From S2P Require Import TableHeap TableHeapSpec TableHeapProofs TableScan TableThreads TableLinear TableShared TableRun.

#[local] Opaque fresh_page edit_page patch stamped.

(** ** The start *)

Definition idle_threads (workers : nat) : list TThread := replicate workers (mkTThread TIdle None).
Definition start_conf (m : pages_t) (H : TableHeap) (workers : nat) : TConf := mkTConf m H (idle_threads workers).
Definition start_state (T : layout) (workers : nat) : AState :=
  mkAState (contents T) T.*1 (replicate workers (mkAPart AIdle NoScan)).

Lemma start_inv m H T workers : shared H m T -> tinv m (start_conf m H workers) T (replicate workers NoScan).
Proof.
  intros Sh. assert (Id : forall i th, idle_threads workers !! i = Some th -> th = mkTThread TIdle None) by (by intros i th [-> _]%lookup_replicate).
  split; cbn [start_conf tthreads tpages ttable]; try done.
  - unfold idle_threads. by rewrite !length_replicate.
  - by intros i th ->%Id.
  - intros i th cur ->%Id [-> _]%lookup_replicate. done.
  - intros i cur [-> _]%lookup_replicate. done.
  - intros i j th u p _ ->%Id _ Hp. by apply elem_of_nil in Hp.
  - intros i th p ->%Id Hp. by apply elem_of_nil in Hp.
  - intros i th p ->%Id [Hp|Hp]; by apply elem_of_nil in Hp.
  - intros p Hp. by left.
Qed.

Lemma start_abstract m H T workers : abstract (start_conf m H workers) T (replicate workers NoScan) = start_state T workers.
Proof. unfold abstract, start_conf, start_state, idle_threads. cbn [tthreads]. by rewrite zip_with_replicate by (by rewrite length_replicate). Qed.

(** ** Nobody waits for ever *)

Section progress.
Context {host : Host}.

Definition can_move (C : TConf) (i : nat) : Prop := exists fresh C' ev, tstep (TRun i None fresh) C = Some (C', ev).

Lemma moves_unless_blocked C i th fresh :
  tthreads C !! i = Some th -> (forall a, tpc th <> Reply a) -> texec None fresh (tthreads C) (tpc th) (iter th) (tpages C) (ttable C) <> TBlocks ->
  can_move C i.
Proof.
  intros Hi Nr Nb. exists fresh. cbn [tstep]. rewrite Hi. destruct th as [c it]. cbn [tpc iter] in *.
  destruct (texec None fresh (tthreads C) c it (tpages C) (ttable C)) as [|m' H' c' it']; [done|].
  destruct c; by eauto || (exfalso; by eapply Nr).
Qed.

Lemma reply_moves C i th a : tthreads C !! i = Some th -> tpc th = Reply a -> can_move C i.
Proof. intros Hi E. exists 0. cbn [tstep]. rewrite Hi. destruct th as [c it]. cbn in E. subst c. eauto. Qed.

(** The page a thread needs the latch of before it can go on. *)
Definition wants_latch (c : TPc) (it : option TableIterator) : option (bool * Z) :=
  match c with
  | ProbeFetch (S _) p _ _ _ => if p =? INVALID_PAGE then None else Some (true, p)
  | AppendFetch p _ _ => Some (true, p)
  | GetFetch rid => Some (false, rid_page_id rid)
  | DelFetch rid _ | UpdFetch rid _ => Some (true, rid_page_id rid)
  | NextFetch =>
      match it with
      | Some i => if page_id_ i =? INVALID_PAGE then None else match guard_ i with Some _ => None | None => Some (false, page_id_ i) end
      | None => None
      end
  | _ => None
  end.

Section stuck.
Context {m0 : pages_t} {C : TConf} {T : layout} {curs : list Cursor} {fresh : Z}.
Hypothesis I : tinv m0 C T curs.
Hypothesis Fresh : tpages C !! fresh = None /\ 2 <= fresh < 2 ^ 31.

Lemma iter_present i th : tthreads C !! i = Some th -> stepping (tpc th) = true -> exists j, iter th = Some j.
Proof.
  intros Hi S. destruct (lookup_lt_is_Some_2 curs i) as [cur Hc]; [rewrite (ti_len _ _ _ _ I); by eapply lookup_lt_Some|].
  pose proof (ti_iter _ _ _ _ I i th cur Hi Hc) as K. destruct (iter th) as [j|]; [by exists j|]. destruct K as [_ K]. by destruct (tpc th).
Qed.

(** A thread that wants no latch moves. *)
Lemma free_moves i th : tthreads C !! i = Some th -> tpc th <> TIdle -> wants_latch (tpc th) (iter th) = None -> can_move C i.
Proof.
  intros Hi Ni Hw. assert (D : (exists a, tpc th = Reply a) \/ forall a, tpc th <> Reply a) by (destruct (tpc th); eauto).
  destruct D as [[a Ea]|Nr]; [by eapply reply_moves|]. apply (moves_unless_blocked C i th fresh Hi Nr).
  pose proof (iter_present i th Hi) as It.
  destruct (tpc th); cbn [texec wants_latch stepping] in *; try done; try (destruct (It eq_refl) as [j Ej]; rewrite Ej in *).
  all: try (rewrite bool_decide_true by done); try done.
  all: repeat match goal with
       | |- context [match ?x with _ => _ end] => lazymatch x with context [match _ with _ => _ end] => fail | _ => destruct x end
       end; done || by edestruct Nr.
Qed.

(** A thread that is blocked wants a latch that is taken. *)
Lemma blocked_latch i th w p :
  tthreads C !! i = Some th -> wants_latch (tpc th) (iter th) = Some (w, p) -> is_Some (tpages C !! p) ->
  can_move C i \/ write_locked p (tthreads C) = true \/ (w = true /\ read_locked p (tthreads C) = true).
Proof.
  intros Hi Hw [bs Hm]. destruct (write_locked p (tthreads C)) eqn:Ew; [by right; left|].
  destruct (w && read_locked p (tthreads C)) eqn:Er; [right; right; by apply andb_true_iff in Er|]. left.
  apply (moves_unless_blocked C i th fresh Hi); [by destruct (tpc th)|].
  destruct (tpc th); cbn [texec wants_latch] in *; try done.
  - destruct probes as [|n]; [done|]. destruct (_ =? _); [done|]. injection Hw as <- <-. by rewrite Ew, Er, Hm.
  - injection Hw as <- <-. by rewrite Ew, Er, Hm.
  - injection Hw as <- <-. by rewrite Ew, Er, Hm.
  - injection Hw as <- <-. by rewrite Ew, Er, Hm.
  - injection Hw as <- <-. by rewrite Ew, Er, Hm.
  - destruct (iter th) as [j|]; [|done]. destruct (_ =? _); [done|]. destruct (guard_ j); [done|]. injection Hw as <- <-. by rewrite Ew, Er, Hm.
Qed.

Lemma wanted_page i th w p : tthreads C !! i = Some th -> wants_latch (tpc th) (iter th) = Some (w, p) -> is_Some (tpages C !! p).
Proof.
  intros Hi Hw. assert (Hin : p ∈ T.*1).
  { pose proof (ti_local _ _ _ _ I i th Hi) as L. destruct (lookup_lt_is_Some_2 curs i) as [cur Hc]; [rewrite (ti_len _ _ _ _ I); by eapply lookup_lt_Some|].
    pose proof (ti_iter _ _ _ _ I i th cur Hi Hc) as K.
    destruct (tpc th); cbn [wants_latch] in Hw; try done; cbn in L.
    - destruct probes; [done|]. destruct (_ =? _); [done|]. injection Hw as _ <-. apply L.
    - injection Hw as _ <-. apply L.
    - injection Hw as _ <-. apply L.
    - injection Hw as _ <-. apply L.
    - injection Hw as _ <-. apply L.
    - destruct (iter th) as [j|]; [|done]. destruct (Z.eqb_spec (page_id_ j) INVALID_PAGE); [done|]. destruct (guard_ j); [done|]. injection Hw as _ <-.
      by destruct (io_page _ _ _ _ K). }
  destruct (page_at (ti_shared _ _ _ _ I) p Hin) as (? & ? & bs & _ & Hm & _). by eexists.
Qed.

Lemma locked_by p (held : TThread -> list Z) :
  existsb (fun th => bool_decide (p ∈ held th)) (tthreads C) = true -> exists j u, tthreads C !! j = Some u /\ p ∈ held u.
Proof.
  intros (u & Hu & Hp%bool_decide_eq_true)%existsb_exists. apply list_elem_of_In, list_elem_of_lookup in Hu as [j Hj]. by exists j, u.
Qed.

Lemma no_wait_for_ever i th :
  tthreads C !! i = Some th -> tpc th <> TIdle ->
  (exists j, can_move C j) \/
  exists p j u, wants_latch (tpc th) (iter th) = Some (true, p) /\ tthreads C !! j = Some u /\ p ∈ iter_held (iter u).
Proof.
  intros Hi Ni. destruct (wants_latch (tpc th) (iter th)) as [[w p]|] eqn:Ew; [|left; exists i; by eapply free_moves].
  destruct (blocked_latch i th w p Hi Ew (wanted_page i th w p Hi Ew)) as [Mv|[Lw|[-> Lr]]]; [left; by exists i| |].
  - left. destruct (locked_by p (fun th => wheld (tpc th)) Lw) as (j & u & Hj & Hp). exists j. apply (free_moves j u Hj).
    + intros E. rewrite E in Hp. by apply elem_of_nil in Hp.
    + destruct (tpc u); try done; by apply elem_of_nil in Hp.
  - destruct (locked_by p rheld Lr) as (j & u & Hj & Hp). apply elem_of_app in Hp as [Hp|Hp]; [left; exists j|right; by exists p, j, u].
    apply (free_moves j u Hj); destruct (tpc u); try done; by apply elem_of_nil in Hp.
Qed.
End stuck.
End progress.

(** ** Theorems *)

Section theorems.
Context {host : Host} {F : Status -> Prop}.
Context {m : pages_t} {H : TableHeap} {T : layout} {workers : nat}.
Hypothesis Start : shared H m T.

Context {evs : list TEvent} {C : TConf}.
Hypothesis Runs : truns F (start_conf m H workers) evs C.

Lemma table_reached :
  exists T' curs, tinv m C T' curs /\ aruns F (start_state T workers) evs (abstract C T' curs).
Proof.
  destruct (runs_sim (start_conf m H workers) T (replicate workers NoScan) evs C (start_inv m H T workers Start) Runs) as (T' & curs & I & A).
  rewrite start_abstract in A. by exists T', curs.
Qed.

(** C4: Threads that share a table see a map.  The calls and answers of every run are those of
    a map from RIDs to tuples in which an insert, a get, a delete or an update in place takes
    effect at one moment between its call and its return, and an update that moves its row at
    three: it sees the row and a tuple that is not too large, the copy appears, then whatever is
    at the old RID goes.  A call of Next answers with
    a row that is there at that moment and lies behind the one before, and passes over no row
    that was ahead of the scan when it was called and has not been removed since; it answers
    end only when no such row is left.  What an operation says when a page cannot be fetched
    or allocated is that error, and the map is as it was.  The rows of the map are those on
    the pages of the chain, and its order is the chain's. *)
Theorem table_linearizable :
  exists S T', aruns F (start_state T workers) evs S /\
    table_ok (ttable C) (tpages C) T' /\ as_rows S = contents T' /\ as_order S = chain C /\ chain C = T'.*1.
Proof.
  destruct table_reached as (T' & curs & I & A). exists (abstract C T' curs), T'. pose proof (chain_pages _ _ (ti_shared _ _ _ _ I)) as E.
  split; [done|]. split; [apply I|]. split; [done|]. by split.
Qed.

(** C7: Threads that share a table keep it whole.  At every moment of every run the links lead
    from the first page through pages that are all different, the hint and the last page the
    table remembers are among them, two threads have no page latched unless both only read
    it, a page latched for writing is read by nobody, and no page is lost: a page that was not
    there at the start is in the chain, or a thread that holds the chain's last page is about
    to link it, which two threads never are at once. *)
Theorem table_conc_pages :
  NoDup (chain C) /\ first_page_id (ttable C) ∈ chain C /\ last_page_id (ttable C) ∈ chain C /\ insert_hint (ttable C) ∈ chain C /\
  (forall i j th u p, tthreads C !! i = Some th -> tthreads C !! j = Some u -> p ∈ wheld (tpc th) ->
    (i = j \/ p ∉ wheld (tpc u)) /\ p ∉ rheld u) /\
  (forall p, is_Some (tpages C !! p) ->
    is_Some (m !! p) \/ p ∈ chain C \/ exists i th, tthreads C !! i = Some th /\ in_hand (tpc th) = Some p) /\
  (forall i th q, tthreads C !! i = Some th -> in_hand (tpc th) = Some q -> exists p, last (chain C) = Some p /\ wheld (tpc th) = [q; p]) /\
  (forall i j th u p q, tthreads C !! i = Some th -> tthreads C !! j = Some u -> in_hand (tpc th) = Some p -> in_hand (tpc u) = Some q -> i = j).
Proof.
  destruct table_reached as (T' & curs & I & _). rewrite (chain_pages _ _ (ti_shared _ _ _ _ I)).
  pose proof (sh_table _ _ _ (ti_shared _ _ _ _ I)) as K.
  assert (Hand : forall i th q, tthreads C !! i = Some th -> in_hand (tpc th) = Some q -> exists p, last T'.*1 = Some p /\ wheld (tpc th) = [q; p]).
  { intros i th q Hi Hq. pose proof (ti_local _ _ _ _ I i th Hi) as L. destruct (tpc th); try done; injection Hq as <-; eexists; split; try apply L; done. }
  split; [apply K|]. split; [by eapply first_in|]. split; [apply K|]. split; [apply (ti_shared _ _ _ _ I)|]. split; [|split; [apply I|split; [exact Hand|]]].
  - intros i j th u p Hi Hj Hp. destruct (decide (i = j)) as [->|N].
    + assert (u = th) as -> by congruence. split; [by left|]. by apply (ti_self _ _ _ _ I j th).
    + destruct (ti_excl _ _ _ _ I i j th u p N Hi Hj Hp). split; [by right|done].
  - intros i j th u p q Hi Hj Hp Hq. destruct (Hand i th p Hi Hp) as (x & Lx & Wx). destruct (Hand j u q Hj Hq) as (y & Ly & Wy).
    assert (y = x) as -> by congruence. destruct (decide (i = j)) as [|N]; [done|]. exfalso.
    destruct (ti_excl _ _ _ _ I i j th u x N Hi Hj) as [W _]; [rewrite Wx; right; by left|]. apply W. rewrite Wy. right. by left.
Qed.

(** C9: Threads that share a table do not wait for each other for ever.  While a page can be
    allocated, a thread inside a call can go on, or another thread can, or it wants to write a
    page on which somebody has left a scan open: Insert holds at most the last page and the
    new one, takes them in that order, and everything else holds one page. *)
Theorem table_conc_no_deadlock i th fresh :
  tpages C !! fresh = None -> 2 <= fresh < 2 ^ 31 -> tthreads C !! i = Some th -> tpc th <> TIdle ->
  (exists j, can_move C j) \/
  exists p j u, wants_latch (tpc th) (iter th) = Some (true, p) /\ tthreads C !! j = Some u /\ p ∈ iter_held (iter u).
Proof. intros Hf Hr. destruct table_reached as (T' & curs & I & _). by apply (no_wait_for_ever (fresh := fresh) I). Qed.

(** C10: Every call on a table that threads share ends.  Whatever the other threads do in
    between, however long they make the chain, a thread inside a call has made at most
    [call_cost] moves, a number that grows with the length the chain has by then: the probes
    are counted, the append loop and the page loop of Next only go forward along a chain that
    is appended to and never rewired. *)
Theorem table_conc_terminates i o C1 n C2 :
  tallowed (chain C) (TCall i o) -> tstep (TCall i o) C = Some (C1, TInvoked i o) -> within F i n C1 C2 ->
  (n <= call_cost (length (chain C2)))%nat.
Proof.
  intros Al E W. destruct table_reached as (T' & curs & I & _).
  destruct (step_inv (F := F) C T' curs _ C1 _ I Al ltac:(done) E) as (T1 & curs1 & I1 & _).
  assert (S : exists th, tthreads C1 !! i = Some th /\ forall L l, (left_over L l (tpc th) (iter th) <= call_cost L)%nat).
  { cbn in E. destruct (tthreads C !! i) as [[[] it]|] eqn:Hi; try done. destruct (tstart o (ttable C) it) as [[c it']|] eqn:Es; [|done]. injection E as <-.
    exists (mkTThread c it'). split; [apply list_lookup_insert_eq; by eapply lookup_lt_Some|]. intros L l. by eapply tstart_left. }
  destruct S as (th & Hi & Le). destruct (within_left i n C1 T1 curs1 C2 th I1 Hi W) as (T2 & curs2 & u & I2 & _ & Lt).
  rewrite (chain_pages _ _ (ti_shared _ _ _ _ I2)), length_fmap. specialize (Lt (length T2) ltac:(lia)). specialize (Le (length T2) T1.*1). lia.
Qed.

(** C18: An update with nobody else around comes to its end, and its answer says what became of
    the row, whichever fetches and allocations fail under it.  Ok: the tuple is under the RID
    returned, which is the old one or one that named no row, and the old RID names nothing else.
    An error leaves all rows as they were and says that there is no such row, that the tuple is
    too large or empty, or what the store failed with; the one other error, kInternal, needs a
    failed fetch, and then the row is there under its old RID and its new one.  All latches are
    released, the table is in order, its chain at most longer. *)
Theorem table_update_alone i rid t fresh fail :
  (i < length (tthreads C))%nat -> Forall (fun th => th = mkTThread TIdle None) (tthreads C) ->
  rid_page_id rid ∈ chain C -> 0 <= rid_slot rid -> tpages C !! fresh = None -> 2 <= fresh < 2 ^ 31 ->
  (forall k e, fail k = Some e -> ok e = false /\ code e <> kNotFound) ->
  exists C1 a C2, tstep (TCall i (TUpdate rid t)) C = Some (C1, TInvoked i (TUpdate rid t)) /\
    alone i fresh fail (S (call_cost (S (size (tpages C))))) C1 = Some (a, C2) /\
    updated (fun e => exists k, fail k = Some e) (table_contents C) rid t a (table_contents C2) /\
    tthreads C2 = tthreads C /\ (exists l, chain C2 = chain C ++ l) /\ exists T2, table_ok (ttable C2) (tpages C2) T2.
Proof.
  intros Li Id Hp Hs Fr Hb Ff. destruct table_reached as (T' & curs & I & _).
  destruct (lookup_lt_is_Some_2 _ _ Li) as [th Hi]. assert (th = mkTThread TIdle None) as -> by (by eapply Forall_lookup_1 in Id).
  assert (Rest : forall j u, tthreads C !! j = Some u -> u = mkTThread TIdle None) by (intros j u Hj; by eapply Forall_lookup_1 in Id).
  set (C1 := mkTConf (tpages C) (ttable C) (<[i := mkTThread (UpdFetch rid t) None]> (tthreads C))).
  assert (E : tstep (TCall i (TUpdate rid t)) C = Some (C1, TInvoked i (TUpdate rid t))) by (cbn; by rewrite Hi).
  destruct (lookup_lt_is_Some_2 curs i) as [cur Hc]; [by rewrite (ti_len _ _ _ _ I)|].
  destruct (call_sim (F := fun e => exists k, fail k = Some e) C T' curs i None cur (TUpdate rid t) (UpdFetch rid t) None (abstract C T' curs) [] I Hi Hc)
    as (curs' & I1 & _); [by split|done|apply aruns_none|].
  destruct (alone_updates (i := i) (m0 := m) (F := fun e => exists k, fail k = Some e) Hb Rest (dom (tpages C)) (contents T') rid t fail
    (S (call_cost (S (size (tpages C))))) C1 T' curs' (UpdFetch rid t)) as (a & C2 & Ea & Ht & Up & G & T2 & Sh2); try done.
  - intros k e He. split; [by exists k|by eapply Ff].
  - intros p Hd. right. by apply elem_of_dom.
  - rewrite size_dom. cbn. unfold call_cost, insert_left, append_left. cbn. lia.
  - exists C1, a, C2. split; [done|]. split; [done|]. rewrite (table_contents_shared C T' (ti_shared _ _ _ _ I)). split; [done|].
    split; [rewrite Ht; by apply list_insert_id|]. split; [exact G|]. exists T2. apply Sh2.
Qed.
End theorems.

(** ** Schedules *)

Section schedules.
Context {host : Host}.

Definition tpermitted (pages : list Z) (mv : TMove) : bool :=
  match mv with
  | TCall _ (TGet rid) | TCall _ (TDelete rid) | TCall _ (TUpdate rid _) => bool_decide (rid_page_id rid ∈ pages) && (0 <=? rid_slot rid)
  | TCall _ _ => true
  | TRun _ (Some e) _ => negb (ok e) && bool_decide (code e <> kNotFound)
  | TRun _ None _ => true
  end.

Lemma tpermitted_allowed pages mv : tpermitted pages mv = true -> tallowed pages mv.
Proof.
  destruct mv as [i o|i [e|] fresh]; cbn.
  - destruct o; try done; by intros [?%bool_decide_eq_true ?%Z.leb_le]%andb_true_iff.
  - intros [?%negb_true_iff ?%bool_decide_eq_true]%andb_true_iff. by intros ? [= <-].
  - by intros _ ?.
Qed.

(** Plays a schedule; [None] when a move is not allowed or cannot be made. *)
Fixpoint tplay (mvs : list TMove) (C : TConf) : option (list TEvent * TConf) :=
  match mvs with
  | [] => Some ([], C)
  | mv :: mvs =>
      if tpermitted (chain C) mv then
        match tstep mv C with
        | Some (C, ev) => match tplay mvs C with Some (evs, C) => Some (visible ev ++ evs, C) | None => None end
        | None => None
        end
      else None
  end.

Definition faults (mvs : list TMove) (e : Status) : Prop := exists i fresh, TRun i (Some e) fresh ∈ mvs.

Lemma tplay_runs (F : Status -> Prop) mvs C0 acc C evs C' :
  (forall e, faults mvs e -> F e) -> truns F C0 acc C -> tplay mvs C = Some (evs, C') -> truns F C0 (acc ++ evs) C'.
Proof.
  revert acc C evs. induction mvs as [|mv mvs IH]; intros acc C evs Ft R; cbn [tplay].
  - intros [= <- <-]. by rewrite app_nil_r.
  - destruct (tpermitted (chain C) mv) eqn:Ep; [|done]. destruct (tstep mv C) as [[C1 ev]|] eqn:Es; [|done].
    destruct (tplay mvs C1) as [[evs1 C2]|] eqn:Ey; [|done]. intros [= <- <-]. rewrite app_assoc. apply (IH _ C1); [| |done].
    + intros e (i & fresh & Hin). apply Ft. exists i, fresh. by right.
    + econstructor; [exact R|by apply tpermitted_allowed| |exact Es]. intros i e fresh ->. apply Ft. exists i, fresh. by left.
Qed.
End schedules.

(** ** Two threads over a table of one page *)

#[local] Existing Instance debug_host.

Definition one_page : list byte := patch PAGE_HEADER_SIZE (Init (page_body (stamped 2))) (stamped 2).
Definition one_heap : TableHeap := new_TableHeap 2 2.
Definition two_threads : TConf := start_conf {[ 2 := one_page ]} one_heap 2.

Lemma one_shared : shared one_heap {[ 2 := one_page ]} [(2, a_empty)].
Proof.
  assert (Hb : 2 <= 2 < 2 ^ 31) by lia. assert (L : len (page_body (stamped 2)) = PAGE_BODY_SIZE) by (apply length_page_body, stamped_view, Hb).
  split; [split|by left|].
  - done.
  - intros [|i] p a Hi; [|done]. injection Hi as <- <-. exists one_page. split; [by apply lookup_singleton_eq|].
    rewrite <- (Init_abs _ L). apply stamped_page; [done|by apply Init_wf].
  - apply NoDup_singleton.
  - by left.
  - intros p bs [<- _]%lookup_singleton_Some. lia.
Qed.

Definition turns (i k : nat) : list TMove := replicate k (TRun i None 3).
Definition tplayed (mvs : list TMove) : list TEvent * TConf := default ([], two_threads) (tplay mvs two_threads).

Definition tgoes (mvs : list TMove) : bool := match tplay mvs two_threads with Some _ => true | None => false end.

Lemma tplayed_runs (F : Status -> Prop) mvs : (forall e, faults mvs e -> F e) -> tgoes mvs = true -> truns F two_threads (tplayed mvs).1 (tplayed mvs).2.
Proof.
  intros Ft. unfold tgoes, tplayed. destruct (tplay mvs two_threads) as [[evs C]|] eqn:E; [|done]. intros _.
  exact (tplay_runs F mvs two_threads [] two_threads evs C Ft (truns_none F two_threads) E).
Qed.

Definition no_fault (e : Status) : Prop := False.
Definition faultless (mv : TMove) : bool := match mv with TRun _ (Some _) _ => false | _ => true end.

Lemma faultless_runs mvs : forallb faultless mvs = true -> tgoes mvs = true -> truns no_fault two_threads (tplayed mvs).1 (tplayed mvs).2.
Proof.
  intros Ff. apply tplayed_runs. intros e (i & fresh & Hin%list_elem_of_In). rewrite forallb_forall in Ff. by specialize (Ff _ Hin).
Qed.

(** Thread 0 fills the page with rows of 10, 2000 and 1900 bytes and begins to update the first
    to 500 bytes, which do not fit on the page. *)
Definition begin_move : list TMove :=
  [TCall 0 (TInsert (tup 10 x01))] ++ turns 0 7 ++ [TCall 0 (TInsert (tup 2000 x02))] ++ turns 0 7 ++
  [TCall 0 (TInsert (tup 1900 x03))] ++ turns 0 7 ++ [TCall 0 (TUpdate (mkRID 2 0) (tup 500 x04))] ++ turns 0 3.

(** Before it goes on, thread 1 deletes the row and inserts one of its own; then thread 0
    finishes, and thread 1 asks for its row. *)
Definition lost_row : list TMove :=
  begin_move ++ [TCall 1 (TDelete (mkRID 2 0))] ++ turns 1 5 ++ [TCall 1 (TInsert (tup 8 x05))] ++ turns 1 7 ++
  turns 0 34 ++ [TCall 1 (TGet (mkRID 2 0))] ++ turns 1 4.

Lemma begin_move_runs : truns no_fault two_threads (tplayed begin_move).1 (tplayed begin_move).2.
Proof. apply faultless_runs; vm_compute; reflexivity. Qed.
Lemma lost_row_runs : truns no_fault two_threads (tplayed lost_row).1 (tplayed lost_row).2.
Proof. apply faultless_runs; vm_compute; reflexivity. Qed.

(** C8: An update that moves its row can remove a row of somebody else, and both callers are
    told that all went well.  Update holds no latch between the attempt in place and the
    removal of the original; the comment there knows of another thread deleting the original
    in that window and calls it benign, but the freed slot can be given to a new row, and the
    removal then takes that one.  Here thread 1 deletes RID (2, 0), inserts a row and is given
    RID (2, 0); thread 0's update of the row that used to be there returns its new RID; and
    the row thread 1 inserted, which nobody was asked to delete, is not found. *)
Theorem update_removes_new_row :
  exists evs C, truns no_fault two_threads (evs ++
    [ TInvoked 0 (TUpdate (mkRID 2 0) (tup 500 x04));
      TInvoked 1 (TDelete (mkRID 2 0)); TReplied 1 (AnsStatus StatusOK);
      TInvoked 1 (TInsert (tup 8 x05)); TReplied 1 (AnsRid (Ok (mkRID 2 0)));
      TReplied 0 (AnsRid (Ok (mkRID 3 0)));
      TInvoked 1 (TGet (mkRID 2 0)); TReplied 1 (AnsBytes (Error (NotFound "slot is dead"))) ]) C /\
    Forall (fun th => tpc th = TIdle) (tthreads C).
Proof.
  exists (take 6 (tplayed begin_move).1), (tplayed lost_row).2. split; [|vm_compute; repeat constructor].
  match goal with |- truns _ _ ?l _ => assert (E : (tplayed lost_row).1 = l) by (vm_compute; reflexivity) end.
  rewrite <- E. exact lost_row_runs.
Qed.

(** Thread 0 inserts two rows; thread 1 scans them, and the fetch of its first Next fails. *)
Definition failed_fetch : list TMove :=
  [TCall 0 (TInsert (tup 5 x01))] ++ turns 0 7 ++ [TCall 0 (TInsert (tup 6 x02))] ++ turns 0 7 ++
  [TCall 1 TScan] ++ turns 1 1 ++ [TCall 1 TNext; TRun 1 (Some (IOError "read failed")) 3] ++ turns 1 1 ++
  [TCall 1 TNext] ++ turns 1 3 ++ [TCall 1 TNext] ++ turns 1 5 ++ [TCall 0 (TGet (mkRID 2 0))] ++ turns 0 4.

(** An iterator can be asked again after an error, and then leaves a row out.  The comment
    on Next says that after a failed fetch the scan cannot continue; the iterator does not
    remember the failure, and the next call counts the slot it never looked at as delivered.
    Here the first fetch of a scan of two rows fails once; the caller tries again and is given
    the second row and the end. *)
Lemma scan_skips_after_error :
  exists e evs C, truns (eq e) two_threads (evs ++
    [ TInvoked 1 TNext; TReplied 1 (AnsRow (Error e));
      TInvoked 1 TNext; TReplied 1 (AnsRow (Ok (Some (mkRID 2 1, tup 6 x02))));
      TInvoked 1 TNext; TReplied 1 (AnsRow (Ok None));
      TInvoked 0 (TGet (mkRID 2 0)); TReplied 0 (AnsBytes (Ok (tup 5 x01))) ]) C.
Proof.
  exists (IOError "read failed"), (take 6 (tplayed failed_fetch).1), (tplayed failed_fetch).2.
  match goal with |- truns _ _ ?l _ => assert (E : (tplayed failed_fetch).1 = l) by (vm_compute; reflexivity) end.
  rewrite <- E. apply tplayed_runs; [|vm_compute; reflexivity]. intros e (i & fresh & Hin). clear E. unfold failed_fetch, turns in Hin.
  repeat (apply elem_of_app in Hin as [Hin|Hin] || apply elem_of_cons in Hin as [Hin|Hin] || apply elem_of_nil in Hin); try done.
  all: try (apply elem_of_replicate in Hin as [Hin _]); by injection Hin as _ ->.
Qed.

(** One thread inserts a row, deletes it and inserts another. *)
Definition reused_slot : list TMove :=
  [TCall 0 (TInsert (tup 5 x01))] ++ turns 0 7 ++ [TCall 0 (TDelete (mkRID 2 0))] ++ turns 0 5 ++
  [TCall 0 (TInsert (tup 5 x02))] ++ turns 0 7 ++ [TCall 0 (TGet (mkRID 2 0))] ++ turns 0 4.

(** The comment on Get says that a RID handed out before a delete gets an answer, never bytes.
    A freed slot is used again, and the RID of the deleted row then reads the bytes of the row
    that took its place. *)
Lemma deleted_rid_reads_new_row :
  exists C, truns no_fault two_threads
    [ TInvoked 0 (TInsert (tup 5 x01)); TReplied 0 (AnsRid (Ok (mkRID 2 0)));
      TInvoked 0 (TDelete (mkRID 2 0)); TReplied 0 (AnsStatus StatusOK);
      TInvoked 0 (TInsert (tup 5 x02)); TReplied 0 (AnsRid (Ok (mkRID 2 0)));
      TInvoked 0 (TGet (mkRID 2 0)); TReplied 0 (AnsBytes (Ok (tup 5 x02))) ] C.
Proof.
  exists (tplayed reused_slot).2.
  match goal with |- truns _ _ ?l _ => assert (E : (tplayed reused_slot).1 = l) by (vm_compute; reflexivity) end.
  rewrite <- E. apply faultless_runs; vm_compute; reflexivity.
Qed.

(** ** Witnesses *)

Lemma table_linearizable_witness :
  exists S, aruns no_fault (start_state [(2, a_empty)] 2) (tplayed lost_row).1 S /\ as_order S = [2; 3].
Proof.
  destruct (table_linearizable one_shared lost_row_runs) as (S & T' & A & _ & _ & O & _). exists S. split; [exact A|].
  rewrite O. vm_compute. reflexivity.
Defined.

(** Three rows on the page; the update of the first to 500 bytes finds room on a new page, and
    the fetch with which it goes back to remove the original fails. *)
Definition three_rows : list TMove :=
  [TCall 0 (TInsert (tup 10 x01))] ++ turns 0 7 ++ [TCall 0 (TInsert (tup 2000 x02))] ++ turns 0 7 ++
  [TCall 0 (TInsert (tup 1900 x03))] ++ turns 0 7.
Definition fail_removal (k : nat) : option Status := if (k =? 7)%nat then Some (IOError "read failed") else None.

Lemma three_rows_runs : truns no_fault two_threads (tplayed three_rows).1 (tplayed three_rows).2.
Proof. apply faultless_runs; vm_compute; reflexivity. Qed.

Lemma table_update_alone_witness :
  exists C1 e C2, tstep (TCall 0 (TUpdate (mkRID 2 0) (tup 500 x04))) (tplayed three_rows).2 = Some (C1, TInvoked 0 (TUpdate (mkRID 2 0) (tup 500 x04))) /\
    alone 0 3 fail_removal (S (call_cost 2)) C1 = Some (AnsRid (Error e), C2) /\ code e = kInternal /\
    updated (fun e => exists k, fail_removal k = Some e) (table_contents (tplayed three_rows).2) (mkRID 2 0) (tup 500 x04) (AnsRid (Error e)) (table_contents C2) /\
    table_contents C2 !! mkRID 2 0 = Some (tup 10 x01) /\ table_contents C2 !! mkRID 3 0 = Some (tup 500 x04).
Proof.
  destruct (table_update_alone one_shared three_rows_runs 0 (mkRID 2 0) (tup 500 x04) 3 fail_removal) as (C1 & a & C2 & E1 & E2 & U & _);
    [vm_compute; lia|vm_compute; repeat constructor|vm_compute; by left|cbn; lia|vm_compute; reflexivity|lia| |].
  { intros k e. unfold fail_removal. destruct (k =? 7)%nat; [|done]. by intros [= <-]. }
  assert (Sz : size (tpages (tplayed three_rows).2) = 1%nat) by (vm_compute; reflexivity). rewrite Sz in E2.
  assert (Run : match tstep (TCall 0 (TUpdate (mkRID 2 0) (tup 500 x04))) (tplayed three_rows).2 with
    | Some (C, _) => match alone 0 3 fail_removal (S (call_cost 2)) C with
        | Some (AnsRid (Error e), C) => bool_decide (code e = kInternal) && bool_decide (table_contents C !! mkRID 2 0 = Some (tup 10 x01)) &&
            bool_decide (table_contents C !! mkRID 3 0 = Some (tup 500 x04))
        | _ => false
        end
    | None => false
    end = true) by (vm_compute; reflexivity).
  rewrite E1, E2 in Run. destruct a as [[rid|e]| | | |]; try discriminate Run.
  apply andb_true_iff in Run as [Run R3%bool_decide_eq_true]. apply andb_true_iff in Run as [R1%bool_decide_eq_true R2%bool_decide_eq_true].
  exists C1, e, C2. exact (conj E1 (conj E2 (conj R1 (conj U (conj R2 R3))))).
Defined.

(** The same thread, once it has made a page that is not linked. *)
Definition page_in_hand : list TMove := begin_move ++ turns 0 22.

Lemma page_in_hand_runs : truns no_fault two_threads (tplayed page_in_hand).1 (tplayed page_in_hand).2.
Proof. apply faultless_runs; vm_compute; reflexivity. Qed.

Definition hand : TThread := mkTThread (Fill 2 3 (tup 500 x04) (RemoveOld (mkRID 2 0))) None.

Lemma table_conc_pages_witness : exists p, last (chain (tplayed page_in_hand).2) = Some p /\ wheld (tpc hand) = [3; p].
Proof.
  destruct (table_conc_pages one_shared page_in_hand_runs) as (_ & _ & _ & _ & _ & _ & Ha & _).
  apply (Ha 0%nat hand 3); vm_compute; reflexivity.
Defined.

(** Thread 1 stops on a row, thread 0 wants to delete it. *)
Definition scan_in_the_way : list TMove :=
  [TCall 0 (TInsert (tup 5 x01))] ++ turns 0 7 ++ [TCall 1 TScan] ++ turns 1 1 ++ [TCall 1 TNext] ++ turns 1 3 ++ [TCall 0 (TDelete (mkRID 2 0))].

Lemma scan_in_the_way_runs : truns no_fault two_threads (tplayed scan_in_the_way).1 (tplayed scan_in_the_way).2.
Proof. apply faultless_runs; vm_compute; reflexivity. Qed.

Lemma table_conc_no_deadlock_witness :
  (exists j, can_move (tplayed scan_in_the_way).2 j) \/
  exists p j u, wants_latch (DelFetch (mkRID 2 0) ReturnStatus) None = Some (true, p) /\ tthreads (tplayed scan_in_the_way).2 !! j = Some u /\ p ∈ iter_held (iter u).
Proof.
  apply (table_conc_no_deadlock one_shared scan_in_the_way_runs 0 (mkTThread (DelFetch (mkRID 2 0) ReturnStatus) None) 3);
    [vm_compute; reflexivity|lia|vm_compute; reflexivity|discriminate].
Defined.

(** Thread 0 is asked to insert; thread 1, asked for a row, moves in between. *)
Definition asked : list TMove := [TCall 0 (TInsert (tup 5 x01))].
Definition asked_on : list TMove := asked ++ [TRun 0 None 3].
Definition asked_twice : list TMove := asked_on ++ [TCall 1 (TGet (mkRID 2 0))].

Lemma asked_within : within no_fault 0 1 (tplayed asked).2 (tplayed asked_twice).2.
Proof.
  apply (within_other no_fault 0 1 _ (tplayed asked_on).2 _ (TCall 1 (TGet (mkRID 2 0))) (TInvoked 1 (TGet (mkRID 2 0)))).
  - apply (within_own no_fault 0 0 _ (tplayed asked).2 _ None 3); [constructor|by intros ?|by intros ?|vm_compute; reflexivity].
  - apply tpermitted_allowed. vm_compute. reflexivity.
  - done.
  - done.
  - vm_compute. reflexivity.
Qed.

Lemma table_conc_terminates_witness : (1 <= call_cost (length (chain (tplayed asked_twice).2)))%nat.
Proof.
  apply (table_conc_terminates one_shared (truns_none no_fault two_threads) 0 (TInsert (tup 5 x01)) (tplayed asked).2 1);
    [exact I|vm_compute; reflexivity|exact asked_within].
Defined.
