(* ===== verification/BPlusTree.v ===== *)
(** * B+tree: src/src/indices/b_plus_tree.hpp, b_plus_tree.cpp

    The tree is client code of the page store interface of PageStore.v over the node pages of
    LeafNode.v and InternalNode.v.  A [BPlusTree] is the id of its header page and the two
    fanouts; root and height live in that page.  [std::expected::value()] on an error and a
    failing [assert], of the tree or of the node page it calls ([asserting]), abort the
    program: both are [None], and so is running out of the fuel of
    [Next], the one loop without a bound of its own.  A height counts the levels, so the
    descents recurse on it.  Log messages are not modelled. *)

From stdpp Require Import gmap.
From S2P Require Import Prelude Common NodeArray LeafNode InternalNode BufferPool PoolRefine PageStore.

(** ** Data *)

Record BPlusTree := mkBPlusTree {
  header_page_id_ : Z;
  leaf_max_ : Z;
  internal_max_ : Z
}.

Definition HeaderPageId (t : BPlusTree) : Z := header_page_id_ t.
Definition LeafMax (t : BPlusTree) : Z := leaf_max_ t.
Definition InternalMax (t : BPlusTree) : Z := internal_max_ t.
Definition FanoutInRange (max : Z) : bool := (MIN_FANOUT <=? max) && (max <=? NODE_CAPACITY).

Record IndexIterator := mkIndexIterator {
  guard_ : option PageGuard;
  page_id_ : Z;
  index_ : Z;
  hi_ : Z;
  current_ : LeafEntry
}.

Definition Key (it : IndexIterator) : Z := key (current_ it).
Definition Rid (it : IndexIterator) : RID := rid (current_ it).
Definition new_IndexIterator (leaf_page_id index hi : Z) : IndexIterator :=
  mkIndexIterator None leaf_page_id index hi (mkLeafEntry 0 (mkRID INVALID_PAGE 0)).

Record WritePath := mkWritePath {
  header_guard : PageGuard;
  header : IndexHeader;
  nodes : list PageGuard;
  child_indexes : list Z
}.

Inductive Fix := kRedistribute | kMerge.
Record DeleteStep := mkDeleteStep { sibling : PageGuard; sibling_is_left : bool; fix_ : Fix }.
Record DeletePlan := mkDeletePlan { steps : list DeleteStep; collapse_root : bool }.

(** The pages and the leaves with their links an invariant walk has seen. *)
Abbreviation walk := (gset Z * list (Z * Z))%type.

Definition IsLeafFull (t : BPlusTree) (leaf : list byte) : bool := leaf_max_ t <=? Count leaf.
Definition IsInternalFull (t : BPlusTree) (node : list byte) : bool := internal_max_ t <=? Count node.
Definition IsLeafAtFloor (t : BPlusTree) (leaf : list byte) : bool :=
  Count leaf <=? LeafMinEntries (leaf_max_ t).
Definition IsInternalAtFloor (t : BPlusTree) (node : list byte) : bool :=
  Count node <=? InternalMinChildren (internal_max_ t).

Section b_plus_tree.
Context {S : Type} `{!PageStore S}.
Open Scope client_scope.

(** ** Views and guards *)

Definition abort {A} : C S A := fun _ => None.

(** The assertions on the way into [m]. *)
Definition asserting {A} (b : bool) (m : C S A) : C S A := if b then m else abort.

(** [AsLeaf(guard).value()] and [AsInternal(guard).value()]. *)
Definition leaf_view (g : PageGuard) : C S (list byte) :=
  do page <- bytes_of g ; match AsLeaf page with Ok body => cret body | Error _ => abort end.
Definition internal_view (g : PageGuard) : C S (list byte) :=
  do page <- bytes_of g ; match AsInternal page with Ok body => cret body | Error _ => abort end.

(** The destructors of a vector of guards. *)
Fixpoint drop_all (gs : list PageGuard) : C S unit :=
  match gs with [] => cret tt | g :: gs => drop_guard g ;;; drop_all gs end.

Definition drop_path (path : WritePath) : C S unit :=
  drop_all (nodes path) ;;; drop_guard (header_guard path).

Definition drop_steps (ss : list DeleteStep) : C S unit := drop_all (sibling <$> ss).

(** [(void)bpm.DeletePage(id)] for each id. *)
Fixpoint delete_all (ids : list Z) : C S unit :=
  match ids with [] => cret tt | id :: ids => delete_page id ;;; delete_all ids end.

(** [WriteIndexHeader(guard, header)]; the status is asserted to be OK. *)
Definition put_index_header (g : PageGuard) (h : IndexHeader) : C S unit :=
  do page <- bytes_of g ;
  if ok (WriteIndexHeader page h).1 then rewrite_page g (fun page => (WriteIndexHeader page h).2) else abort.

(** ** Opening *)

Definition Create (leaf_max internal_max : Z) : C S (Result BPlusTree) :=
  if (leaf_max <? MIN_FANOUT) || (NODE_CAPACITY <? leaf_max) then
    cret (Error (InvalidArgument "leaf_max outside [MIN_FANOUT, NODE_CAPACITY]"))
  else if (internal_max <? MIN_FANOUT) || (NODE_CAPACITY <? internal_max) then
    cret (Error (InvalidArgument "internal_max outside [MIN_FANOUT, NODE_CAPACITY]"))
  else
    do idx_header_page <- new_page ;
    match idx_header_page with
    | Error e => cret (Error e)
    | Ok hg =>
        do root_leaf_page <- new_page ;
        match root_leaf_page with
        | Error e =>
            drop_guard hg ;;;
            delete_page (g_page hg) ;;;
            cret (Error e)
        | Ok rg =>
            do r <- scoped rg (
              set_header rg (EType INDEX_LEAF) ;;;
              do page <- bytes_of rg ;
              match AsLeaf page with
              | Error e => cret (Error e)
              | Ok root_leaf =>
                  set_body rg (LeafNode.Init root_leaf) ;;;
                  let idx_header := mkIndexHeader (g_page rg) 1 leaf_max internal_max (ih_reserved IndexHeader_default) in
                  set_header hg (EType INDEX_HEADER) ;;;
                  do page <- bytes_of hg ;
                  let '(s, page) := WriteIndexHeader page idx_header in
                  rewrite_page hg (fun page => (WriteIndexHeader page idx_header).2) ;;;
                  if negb (ok s) then cret (Error s)
                  else cret (Ok (mkBPlusTree (g_page hg) leaf_max internal_max))
              end) ;
            drop_guard hg ;;;
            cret r
        end
    end.

Definition Open (header_page_id : Z) : C S (Result BPlusTree) :=
  do idx_header_page <- fetch false header_page_id ;
  match idx_header_page with
  | Error e => cret (Error e)
  | Ok g =>
      scoped g (
        do page <- bytes_of g ;
        match ReadIndexHeader page with
        | Error e => cret (Error e)
        | Ok h =>
            if negb (FanoutInRange (leaf_max h)) || negb (FanoutInRange (internal_max h)) then
              cret (Error (Corruption "invalid page Fanout!"))
            else cret (Ok (mkBPlusTree header_page_id (leaf_max h) (internal_max h)))
        end)
  end.

(** ** Point and range reads *)

(** [n] internal levels below the root, then the leaf, whose guard is returned. *)
Fixpoint FindLeafRead_loop (n : nat) (next_page_id : Z) (k : Z) : C S (Result PageGuard) :=
  match n with
  | O => fetch false next_page_id
  | Datatypes.S n =>
      do read_page <- fetch false next_page_id ;
      match read_page with
      | Error e => cret (Error e)
      | Ok g =>
          do next <- scoped g (
            do page <- bytes_of g ;
            match AsInternal page with
            | Error e => cret (Error e)
            | Ok internal =>
                asserting (ChildIndexFor_asserts k internal) (
                let child_index := ChildIndexFor k internal in
                asserting (InternalNode.EntryAt_asserts child_index internal) (
                cret (Ok (ChildAt child_index internal))))
            end) ;
          match next with
          | Error e => cret (Error e)
          | Ok next_page_id => FindLeafRead_loop n next_page_id k
          end
      end
  end.

Definition FindLeafRead (t : BPlusTree) (k : Z) : C S (Result PageGuard) :=
  do idx_header_page <- fetch false (header_page_id_ t) ;
  match idx_header_page with
  | Error e => cret (Error e)
  | Ok g =>
      do idx_header <- scoped g (do page <- bytes_of g ; cret (ReadIndexHeader page)) ;
      match idx_header with
      | Error e => cret (Error e)
      | Ok h =>
          if height h =? 0 then cret (Error (Corruption "index header height is zero"))
          else FindLeafRead_loop (Z.to_nat (height h - 1)) (root_page_id h) k
      end
  end.

Definition Get (t : BPlusTree) (k : Z) : C S (Result RID) :=
  do leaf_page <- FindLeafRead t k ;
  match leaf_page with
  | Error e => cret (Error e)
  | Ok g =>
      scoped g (
        do page <- bytes_of g ;
        match AsLeaf page with
        | Error e => cret (Error e)
        | Ok leaf =>
            asserting (LowerBound_asserts k leaf) (
            let idx := LowerBound k leaf in
            asserting ((idx =? Count leaf) || LeafNode.EntryAt_asserts idx leaf) (
            if (idx =? Count leaf) || negb (LeafNode.KeyAt idx leaf =? k) then
              cret (Error (NotFound "key not in index"))
            else cret (Ok (rid (LeafNode.EntryAt idx leaf)))))
        end)
  end.

Definition Scan (t : BPlusTree) (lo hi : Z) : C S (Result IndexIterator) :=
  do leaf_page <- FindLeafRead t lo ;
  match leaf_page with
  | Error e => cret (Error e)
  | Ok g =>
      scoped g (
        do page <- bytes_of g ;
        match AsLeaf page with
        | Error e => cret (Error e)
        | Ok leaf =>
            asserting (LowerBound_asserts lo leaf) (
            cret (Ok (new_IndexIterator (g_page g) (LowerBound lo leaf) hi)))
        end)
  end.

Definition at_end (it : IndexIterator) : IndexIterator :=
  mkIndexIterator None INVALID_PAGE (index_ it) (hi_ it) (current_ it).

(** The [while] loop of [Next]; a turn either answers or steps to the next leaf. *)
Fixpoint Next (fuel : nat) (it : IndexIterator) : C S (Result bool * IndexIterator) :=
  match fuel with
  | O => abort
  | Datatypes.S fuel =>
      if page_id_ it =? INVALID_PAGE then cret (Ok false, it)
      else
        do read_page <- match guard_ it with Some g => cret (Ok g) | None => fetch false (page_id_ it) end ;
        match read_page with
        | Error e => cret (Error e, at_end it)
        | Ok g =>
            do page <- bytes_of g ;
            match AsLeaf page with
            | Error e => drop_guard g ;;; cret (Error e, at_end it)
            | Ok leaf =>
                if Count leaf <=? index_ it then
                  drop_guard g ;;;
                  Next fuel (mkIndexIterator None (NextLeaf leaf) 0 (hi_ it) (current_ it))
                else
                  asserting (LeafNode.EntryAt_asserts (index_ it) leaf) (
                  let entry := LeafNode.EntryAt (index_ it) leaf in
                  if hi_ it <? key entry then drop_guard g ;;; cret (Ok false, at_end it)
                  else cret (Ok true, mkIndexIterator (Some g) (page_id_ it) (u16 (index_ it + 1)) (hi_ it) entry))
            end
        end
  end.

(** The destructor, the move constructor and the move assignment of the iterator. *)
Definition Close (it : IndexIterator) : C S unit :=
  match guard_ it with Some g => drop_guard g | None => cret tt end.
Definition Move (other : IndexIterator) : IndexIterator * IndexIterator := (other, at_end other).
Definition MoveAssign (self other : IndexIterator) : C S (IndexIterator * IndexIterator) :=
  Close self ;;; cret (Move other).

(** ** The invariant check *)

Definition in_interval (k lo : Z) (hi : option Z) : bool :=
  negb ((k <? lo) || match hi with Some h => h <=? k | None => false end).

(** The node's part of the walk for an internal page: its entries, or [None] for a failed check. *)
Definition check_internal (t : BPlusTree) (page : list byte) (expected_level lo : Z) (hi : option Z) (is_root : bool)
    : option (list InternalEntry) :=
  match AsInternal page with
  | Error _ => None
  | Ok node =>
      if negb (InternalNode.CheckInvariants node) then None
      else if negb (Level node =? expected_level) then None
      else
        let min_children := if is_root then 2 else InternalMinChildren (internal_max_ t) in
        if (Count node <? min_children) || (internal_max_ t <? Count node) then None
        else
          let entries := InternalNode.copy_entries 0 (Count node) node in
          if forallb (fun e => in_interval (ikey e) lo hi) (tail entries) then Some entries else None
  end.

(** The same for a leaf: its link to the next one. *)
Definition check_leaf (t : BPlusTree) (page : list byte) (lo : Z) (hi : option Z) (is_root : bool) : option Z :=
  match AsLeaf page with
  | Error _ => None
  | Ok leaf =>
      if negb (LeafNode.CheckInvariants leaf) then None
      else
        let min_entries := if is_root then 0 else LeafMinEntries (leaf_max_ t) in
        if (Count leaf <? min_entries) || (leaf_max_ t <? Count leaf) then None
        else
          if forallb (fun e => in_interval (key e) lo hi) (LeafNode.copy_entries 0 (Count leaf) leaf)
          then Some (NextLeaf leaf) else None
  end.

(** The children from left to right: each covers [[separator, next separator)], the two ends
    inheriting the node's own bounds. *)
Fixpoint check_children (check : Z -> Z -> option Z -> walk -> C S (bool * walk)) (lo : Z) (hi : option Z)
    (entries : list InternalEntry) (w : walk) : C S (bool * walk) :=
  match entries with
  | [] => cret (true, w)
  | e :: rest =>
      let child_hi := match rest with e' :: _ => Some (ikey e') | [] => hi end in
      do (good, w) <- check (child e) lo child_hi w ;
      if negb good then cret (false, w)
      else check_children check (match rest with e' :: _ => ikey e' | [] => lo end) hi rest w
  end.

Fixpoint CheckSubtree (t : BPlusTree) (expected_level : nat) (is_root : bool) (page_id lo : Z) (hi : option Z) (w : walk)
    : C S (bool * walk) :=
  let '(seen_pages, leaves) := w in
  if decide (page_id ∈ seen_pages) then cret (false, w)
  else
    let seen_pages := {[page_id]} ∪ seen_pages in
    do read_guard <- fetch false page_id ;
    match read_guard with
    | Error _ => cret (false, (seen_pages, leaves))
    | Ok g =>
        match expected_level with
        | Datatypes.S child_level =>
            do entries <- scoped g (
              do page <- bytes_of g ; cret (check_internal t page (Z.of_nat expected_level) lo hi is_root)) ;
            match entries with
            | None => cret (false, (seen_pages, leaves))
            | Some entries => check_children (CheckSubtree t child_level false) lo hi entries (seen_pages, leaves)
            end
        | O =>
            scoped g (
              do page <- bytes_of g ;
              match check_leaf t page lo hi is_root with
              | None => cret (false, (seen_pages, leaves))
              | Some next => cret (true, (seen_pages, leaves ++ [(page_id, next)]))
              end)
        end
    end.

(** Each leaf's link is the leaf the walk reached after it. *)
Fixpoint check_chain (leaves : list (Z * Z)) : bool :=
  match leaves with
  | [] => true
  | (_, next) :: rest =>
      (next =? match rest with (p, _) :: _ => p | [] => INVALID_PAGE end) && check_chain rest
  end.

Definition CheckInvariants (t : BPlusTree) : C S bool :=
  do header_page_guard <- fetch false (header_page_id_ t) ;
  match header_page_guard with
  | Error _ => cret false
  | Ok g =>
      do checked <- scoped g (
        do page <- bytes_of g ;
        cret match ReadIndexHeader page with
             | Error _ => None
             | Ok h =>
                 if height h <? 1 then None
                 else if negb (leaf_max h =? leaf_max_ t) then None
                 else if negb (internal_max h =? internal_max_ t) then None
                 else Some h
             end) ;
      match checked with
      | None => cret false
      | Some h =>
          do (good, w) <- CheckSubtree t (Z.to_nat (height h - 1)) true (root_page_id h) INT64_MIN None
                            ({[header_page_id_ t]}, []) ;
          cret (if negb good then false else check_chain w.2)
      end
  end.

(** ** The write path *)

Fixpoint FindLeafWrite_loop (n : nat) (next_page_id k : Z) (path : WritePath) : C S (Result WritePath) :=
  do page <- fetch true next_page_id ;
  match page with
  | Error e => drop_path path ;;; cret (Error e)
  | Ok g =>
      do page <- bytes_of g ;
      let grown is_ := mkWritePath (header_guard path) (header path) (nodes path ++ [g]) (child_indexes path ++ is_) in
      match n with
      | O =>
          match AsLeaf page with
          | Error e => drop_guard g ;;; drop_path path ;;; cret (Error e)
          | Ok _ => cret (Ok (grown []))
          end
      | Datatypes.S n =>
          match AsInternal page with
          | Error e => drop_guard g ;;; drop_path path ;;; cret (Error e)
          | Ok internal =>
              asserting (ChildIndexFor_asserts k internal) (
              let child := ChildIndexFor k internal in
              asserting (InternalNode.EntryAt_asserts child internal) (
              FindLeafWrite_loop n (ChildAt child internal) k (grown [child])))
          end
      end
  end.

Definition FindLeafWrite (t : BPlusTree) (k : Z) : C S (Result WritePath) :=
  do header_guard <- fetch true (header_page_id_ t) ;
  match header_guard with
  | Error e => cret (Error e)
  | Ok g =>
      do page <- bytes_of g ;
      match ReadIndexHeader page with
      | Error e => drop_guard g ;;; cret (Error e)
      | Ok h =>
          if height h =? 0 then drop_guard g ;;; cret (Error (Corruption "tree height can't be 0"))
          else FindLeafWrite_loop (Z.to_nat (height h - 1)) (root_page_id h) k (mkWritePath g h [] [])
      end
  end.

(** ** Insertion *)

(** The run of full internal nodes from the leaf's parent up. *)
Fixpoint count_full (t : BPlusTree) (up : list PageGuard) : C S Z :=
  match up with
  | [] => cret 0
  | g :: up =>
      do node <- internal_view g ;
      if negb (IsInternalFull t node) then cret 0
      else do n <- count_full t up ; cret (1 + n)
  end.

(** [rev_nodes]: the nodes of the path from the leaf up. *)
Definition CountSplits (t : BPlusTree) (rev_nodes : list PageGuard) : C S Z :=
  match rev_nodes with
  | [] => abort
  | leaf_guard :: up =>
      do leaf <- leaf_view leaf_guard ;
      if negb (IsLeafFull t leaf) then cret 0
      else do n <- count_full t up ; cret (u16 (1 + n))
  end.

Fixpoint AllocatePages (count : nat) (pages : list PageGuard) : C S (Result (list PageGuard)) :=
  match count with
  | O => cret (Ok pages)
  | Datatypes.S count =>
      do page <- new_page ;
      match page with
      | Ok g => AllocatePages count (pages ++ [g])
      | Error err =>
          let ids := g_page <$> pages in
          drop_all pages ;;;
          delete_all ids ;;;
          cret (Error err)
      end
  end.

(** The walk up from the split leaf: [up] holds the internal nodes of the path with the child
    index each was left at, nearest first, [pages] the allocated pages not yet used. *)
Fixpoint Insert_up (t : BPlusTree) (path : WritePath) (up : list (PageGuard * Z)) (pages : list PageGuard)
    (sep right_id : Z) : C S Status :=
  match up, pages with
  | (parent_guard, child_index) :: up, _ =>
      do parent <- internal_view parent_guard ;
      let entry := mkInternalEntry sep right_id 0 in
      let pos := u16 (child_index + 1) in
      if negb (IsInternalFull t parent) then
        asserting (InternalNode.InsertAt_asserts pos parent) (
        set_body parent_guard (InternalNode.InsertAt pos entry parent)) ;;;
        cret StatusOK
      else
        match pages with
        | [] => abort
        | right_guard :: pages =>
            set_header right_guard (EType INDEX_INTERNAL) ;;;
            do right_ <- internal_view right_guard ;
            let init := InternalNode.Init (Level parent) right_ in
            asserting (InternalNode.Init_asserts (Level parent) && SplitInternal_asserts parent init pos) (
            let '(sep, parent, right_) := SplitInternal parent init pos entry in
            set_body parent_guard parent ;;;
            set_body right_guard right_ ;;;
            Insert_up t path up pages sep (g_page right_guard))
        end
  | [], [root_guard] =>
      set_header root_guard (EType INDEX_INTERNAL) ;;;
      do root <- internal_view root_guard ;
      let root := InternalNode.Init (height (header path)) root in
      let children :=
        [mkInternalEntry INT64_MIN (root_page_id (header path)) 0; mkInternalEntry sep right_id 0] in
      asserting (InternalNode.Init_asserts (height (header path)) && InternalNode.Assign_asserts (len children)) (
      set_body root_guard (InternalNode.Assign children root)) ;;;
      let h := header path in
      put_index_header (header_guard path)
        (mkIndexHeader (g_page root_guard) (u16 (height h + 1)) (leaf_max h) (internal_max h) (ih_reserved h)) ;;;
      cret StatusOK
  | [], _ => abort
  end.

(** The split of the leaf, with every page it may need allocated. *)
Definition Insert_split (t : BPlusTree) (path : WritePath) (leaf_guard : PageGuard) (leaf : list byte)
    (up : list PageGuard) (idx : Z) (entry : LeafEntry) (pages : list PageGuard) : C S Status :=
  match pages with
  | [] => abort
  | right_guard :: pages =>
      set_header right_guard (EType INDEX_LEAF) ;;;
      do right_ <- leaf_view right_guard ;
      let init := LeafNode.Init right_ in
      asserting (SplitLeaf_asserts leaf init idx) (
      let '(sep, leaf, right_) := SplitLeaf leaf init (g_page right_guard) idx entry in
      set_body leaf_guard leaf ;;;
      set_body right_guard right_ ;;;
      Insert_up t path (zip up (reverse (child_indexes path))) pages sep (g_page right_guard))
  end.

Definition Insert (t : BPlusTree) (k : Z) (r : RID) : C S Status :=
  do path <- FindLeafWrite t k ;
  match path with
  | Error e => cret e
  | Ok path =>
      do st <- match reverse (nodes path) with
               | [] => abort
               | leaf_guard :: up =>
                   do leaf <- leaf_view leaf_guard ;
                   asserting (LowerBound_asserts k leaf) (
                   let idx := LowerBound k leaf in
                   asserting ((Count leaf <=? idx) || LeafNode.EntryAt_asserts idx leaf) (
                   if (idx <? Count leaf) && (LeafNode.KeyAt idx leaf =? k) then
                     cret (DuplicateKey ("key " +:+ pretty k +:+ " already exists"))
                   else if negb (IsLeafFull t leaf) then
                     asserting (LeafNode.InsertAt_asserts idx leaf) (
                     set_body leaf_guard (LeafNode.InsertAt idx (mkLeafEntry k r) leaf)) ;;;
                     cret StatusOK
                   else
                     do splits <- CountSplits t (leaf_guard :: up) ;
                     let new_root := splits =? len (nodes path) in
                     do pages <- AllocatePages (Z.to_nat (u16 (splits + if new_root then 1 else 0))) [] ;
                     match pages with
                     | Error e => cret e
                     | Ok pages =>
                         do st <- Insert_split t path leaf_guard leaf up idx (mkLeafEntry k r) pages ;
                         drop_all pages ;;;
                         cret st
                     end))
               end ;
      drop_path path ;;;
      cret st
  end.

(** ** Deletion *)

Definition at_floor (t : BPlusTree) (is_leaf : bool) (g : PageGuard) : C S bool :=
  if is_leaf then do leaf <- leaf_view g ; cret (IsLeafAtFloor t leaf)
  else do node <- internal_view g ; cret (IsInternalAtFloor t node).

(** Is a fetched sibling of the right kind and level, and at its floor? *)
Definition sibling_check (t : BPlusTree) (is_leaf : bool) (node_guard sibling_guard : PageGuard) : C S (Result bool) :=
  do page <- bytes_of sibling_guard ;
  if is_leaf then
    cret match AsLeaf page with Error e => Error e | Ok leaf => Ok (IsLeafAtFloor t leaf) end
  else
    match AsInternal page with
    | Error e => cret (Error e)
    | Ok view =>
        do node <- internal_view node_guard ;
        if negb (Level view =? Level node) then
          cret (Error (Corruption ("sibling page " +:+ pretty (g_page sibling_guard) +:+ " is at the wrong level")))
        else cret (Ok (IsInternalAtFloor t view))
    end.

(** The levels from the leaf up; [rev_nodes] and [rev_indexes] are the path from this level
    to the root. *)
Fixpoint PlanDelete (t : BPlusTree) (is_leaf : bool) (rev_nodes : list PageGuard) (rev_indexes : list Z)
    (steps : list DeleteStep) : C S (Result DeletePlan) :=
  match rev_nodes, rev_indexes with
  | node_guard :: (parent_guard :: _) as up, child_index :: rev_indexes =>
      do floor <- at_floor t is_leaf node_guard ;
      if negb floor then cret (Ok (mkDeletePlan steps false))
      else
        do parent <- internal_view parent_guard ;
        let is_left := 0 <? child_index in
        let sibling_slot := u16 (if is_left then child_index - 1 else child_index + 1) in
        do sibling <- asserting (InternalNode.EntryAt_asserts sibling_slot parent) (fetch true (ChildAt sibling_slot parent)) ;
        match sibling with
        | Error e => drop_steps steps ;;; cret (Error e)
        | Ok sg =>
            do sibling_at_floor <- sibling_check t is_leaf node_guard sg ;
            match sibling_at_floor with
            | Error e => drop_guard sg ;;; drop_steps steps ;;; cret (Error e)
            | Ok false => cret (Ok (mkDeletePlan (steps ++ [mkDeleteStep sg is_left kRedistribute]) false))
            | Ok true => PlanDelete t false (tail rev_nodes) rev_indexes (steps ++ [mkDeleteStep sg is_left kMerge])
            end
        end
  | [root_guard], _ =>
      match steps with
      | [] => cret (Ok (mkDeletePlan steps false))
      | _ => do root <- internal_view root_guard ; cret (Ok (mkDeletePlan steps (Count root =? 2)))
      end
  | _, _ => abort
  end.

(** One step: the guards in key order, the slot of the right one in the parent. *)
Definition redistribute (is_leaf is_left : bool) (left_guard right_guard parent_guard : PageGuard) (right_slot : Z) : C S unit :=
  do parent <- internal_view parent_guard ;
  asserting (InternalNode.KeyAt_asserts right_slot parent) (
  let separator := InternalNode.KeyAt right_slot parent in
  do (new_separator, left_, right_) <-
    (if is_leaf then
       do left_ <- leaf_view left_guard ;
       do right_ <- leaf_view right_guard ;
       asserting (if is_left then RotateLeafRight_asserts left_ right_ else RotateLeafLeft_asserts left_ right_) (
       cret (if is_left then RotateLeafRight left_ right_ else RotateLeafLeft left_ right_))
     else
       do left_ <- internal_view left_guard ;
       do right_ <- internal_view right_guard ;
       asserting (if is_left then RotateInternalRight_asserts left_ right_ else RotateInternalLeft_asserts left_ right_) (
       cret (if is_left then RotateInternalRight left_ right_ separator
             else RotateInternalLeft left_ right_ separator))) ;
  set_body left_guard left_ ;;;
  set_body right_guard right_ ;;;
  asserting (SetKeyAt_asserts right_slot parent) (
  set_body parent_guard (SetKeyAt right_slot new_separator parent))).

Definition merge (is_leaf : bool) (left_guard right_guard parent_guard : PageGuard) (right_slot : Z) : C S unit :=
  do parent <- internal_view parent_guard ;
  asserting (InternalNode.KeyAt_asserts right_slot parent) (
  let separator := InternalNode.KeyAt right_slot parent in
  do left_ <-
    (if is_leaf then
       do left_ <- leaf_view left_guard ; do right_ <- leaf_view right_guard ;
       asserting (MergeLeaf_asserts left_ right_) (cret (MergeLeaf left_ right_))
     else
       do left_ <- internal_view left_guard ; do right_ <- internal_view right_guard ;
       asserting (MergeInternal_asserts left_ right_) (cret (MergeInternal left_ right_ separator))) ;
  set_body left_guard left_ ;;;
  asserting (InternalNode.RemoveAt_asserts right_slot parent) (
  set_body parent_guard (InternalNode.RemoveAt right_slot parent))).

(** The steps of the plan from the leaf up; the pages to free, in order. *)
Fixpoint Apply_steps (is_leaf : bool) (rev_nodes : list PageGuard) (rev_indexes : list Z) (ss : list DeleteStep)
    : C S (list Z) :=
  match ss with
  | [] => cret []
  | st :: ss =>
      match rev_nodes, rev_indexes with
      | node_guard :: (parent_guard :: _) as up, child_index :: rev_indexes =>
          let left_guard := if sibling_is_left st then sibling st else node_guard in
          let right_guard := if sibling_is_left st then node_guard else sibling st in
          let right_slot := u16 (if sibling_is_left st then child_index else child_index + 1) in
          match fix_ st with
          | kRedistribute =>
              match ss with
              | [] =>
                  redistribute is_leaf (sibling_is_left st) left_guard right_guard parent_guard right_slot ;;;
                  cret []
              | _ => abort
              end
          | kMerge =>
              merge is_leaf left_guard right_guard parent_guard right_slot ;;;
              do to_free <- Apply_steps false (tail rev_nodes) rev_indexes ss ;
              cret (g_page right_guard :: to_free)
          end
      | _, _ => abort
      end
  end.

Definition ApplyDeletePlan (path : WritePath) (plan : DeletePlan) : C S (list Z) :=
  do to_free <- Apply_steps true (reverse (nodes path)) (reverse (child_indexes path)) (steps plan) ;
  if collapse_root plan then
    match nodes path with
    | [] => abort
    | root_guard :: _ =>
        do root <- internal_view root_guard ;
        if negb (Count root =? 1) then abort
        else
          asserting (InternalNode.EntryAt_asserts 0 root) (
          let h := header path in
          put_index_header (header_guard path)
            (mkIndexHeader (ChildAt 0 root) (u16 (height h - 1)) (leaf_max h) (internal_max h) (ih_reserved h)) ;;;
          cret (to_free ++ [g_page root_guard]))
    end
  else cret to_free.

Definition Delete (t : BPlusTree) (k : Z) : C S Status :=
  do path <- FindLeafWrite t k ;
  match path with
  | Error e => cret e
  | Ok path =>
      do r <- match reverse (nodes path) with
              | [] => abort
              | leaf_guard :: _ =>
                  do leaf <- leaf_view leaf_guard ;
                  asserting (LowerBound_asserts k leaf) (
                  let idx := LowerBound k leaf in
                  asserting ((idx =? Count leaf) || LeafNode.EntryAt_asserts idx leaf) (
                  if (idx =? Count leaf) || negb (LeafNode.KeyAt idx leaf =? k) then
                    cret (Error (NotFound ("key " +:+ pretty k +:+ " not in index")))
                  else
                    do plan <- PlanDelete t true (reverse (nodes path)) (reverse (child_indexes path)) [] ;
                    match plan with
                    | Error e => cret (Error e)
                    | Ok plan =>
                        asserting (LeafNode.RemoveAt_asserts idx leaf) (
                        set_body leaf_guard (LeafNode.RemoveAt idx leaf)) ;;;
                        do to_free <- ApplyDeletePlan path plan ;
                        drop_steps (steps plan) ;;;
                        cret (Ok to_free)
                    end))
              end ;
      drop_path path ;;;
      match r with
      | Error e => cret e
      | Ok to_free => delete_all to_free ;;; cret StatusOK
      end
  end.
End b_plus_tree.
