(* ===== verification/BPlusTreeSpec.v ===== *)
(** * The B+tree as a sorted sequence of entries

    The abstract view of an index: a tree of uniform height whose nodes carry their page ids,
    what it means for a store to hold it ([trep], [tree_ok]), the entries it stands for and
    the chain of its leaves.

    A child is kept with the lower bound of its key range; the page of its parent stores the
    same bounds with the first one replaced by INT64_MIN, which is what [canon] does. *)

From stdpp Require Import gmap.
From S2P Require Import Prelude Common NodeArray LeafNode LeafNodeProofs LeafNodeTheorems.
From S2P Require Import InternalNode InternalNodeProofs InternalNodeTheorems.
From S2P Require Import BufferPool BufferPoolOps PoolRefine PageStore PageStoreLogic BPlusTree.

(** An assertion that holds is no step. *)
Lemma asserting_ok {S A} b (m : C S A) : b = true -> asserting b m = m.
Proof. by intros ->. Qed.

(** ** Node pages *)

Record typed_page (p : Z) (ty : PageType) (bs : list byte) : Prop := {
  tp_len : len bs = PAGE_SIZE;
  tp_type : ph_page_type (page_header bs) = ty;
  tp_id : ph_page_id (page_header bs) = p
}.

Definition leaf_page (p next : Z) (es : list LeafEntry) (bs : list byte) : Prop :=
  typed_page p INDEX_LEAF bs /\ exists tail, page_body bs = leaf next es tail /\ leaf_ok next es tail.

Definition inode_page (p lvl : Z) (es : list InternalEntry) (bs : list byte) : Prop :=
  typed_page p INDEX_INTERNAL bs /\ exists tail, page_body bs = inode lvl es tail /\ inode_ok lvl es tail.

Definition header_page (p : Z) (h : IndexHeader) (bs : list byte) : Prop :=
  typed_page p INDEX_HEADER bs /\ IndexHeader_ReadFrom (page_body bs) = h.

Lemma typed_loadable p ty bs : typed_page p ty bs -> ty <> FREE -> loadable p bs.
Proof. intros [L T I] Hf. split; [|exact I]. change (ph_page_type (page_header bs) <> FREE). by rewrite T. Qed.

Lemma AsLeaf_page p next es bs : leaf_page p next es bs -> AsLeaf bs = Ok (page_body bs).
Proof. intros [[_ T _] _]. unfold AsLeaf. change (PageHeader_ReadFrom _) with (page_header bs). by rewrite T. Qed.

Lemma AsInternal_page p lvl es bs : inode_page p lvl es bs -> AsInternal bs = Ok (page_body bs).
Proof. intros [[_ T _] _]. unfold AsInternal. change (PageHeader_ReadFrom _) with (page_header bs). by rewrite T. Qed.

Lemma ReadIndexHeader_page p h bs : header_page p h bs -> ReadIndexHeader bs = Ok h.
Proof.
  intros [[_ T _] <-]. unfold ReadIndexHeader. change (PageHeader_ReadFrom _) with (page_header bs). by rewrite T.
Qed.

(** ** Trees *)

(** Height 0 is a leaf; above, children with their lower bounds. *)
Fixpoint tree (h : nat) : Type :=
  match h with O => Z * list LeafEntry | S h => Z * list (Z * tree h) end.

Definition tpage {h} : tree h -> Z := match h with O => fst | S _ => fst end.

Fixpoint tleaves {h} : tree h -> list (Z * list LeafEntry) :=
  match h with
  | O => fun T => [T]
  | S h => fun T => T.2 ≫= fun c => tleaves c.2
  end.

Fixpoint tpages {h} : tree h -> list Z :=
  match h with
  | O => fun T => [T.1]
  | S h => fun T => T.1 :: (T.2 ≫= fun c => tpages c.2)
  end.

Definition tentries {h} (T : tree h) : list LeafEntry := tleaves T ≫= snd.

(** The page a leaf before these leaves links to. *)
Definition next_of (L : list (Z * list LeafEntry)) (next : Z) : Z := match L with (p, _) :: _ => p | [] => next end.

Definition bound_of {A} (cs : list (Z * A)) (hi : option Z) : option Z := match cs with (k, _) :: _ => Some k | [] => hi end.

Definition in_range (lo : Z) (hi : option Z) (k : Z) : Prop := lo <= k /\ match hi with Some h => k < h | None => True end.

Definition entries_of {h} (cs : list (Z * tree h)) : list InternalEntry :=
  (fun c => mkInternalEntry c.1 (tpage c.2) 0) <$> cs.

Definition cleaves {h} (cs : list (Z * tree h)) : list (Z * list LeafEntry) := cs ≫= fun c => tleaves c.2.
Definition cpages {h} (cs : list (Z * tree h)) : list Z := cs ≫= fun c => tpages c.2.

(** Children side by side: each up to the bound of the next, its last leaf linked to the
    first leaf of the next. *)
Fixpoint crep {h} (P : tree h -> Z -> option Z -> Z -> Prop) (cs : list (Z * tree h)) (hi : option Z) (next : Z) : Prop :=
  match cs with
  | [] => True
  | (k, T) :: cs => P T k (bound_of cs hi) (next_of (cleaves cs) next) /\ crep P cs hi next
  end.

(** The occupancy the tree keeps; the root has its own minimum. *)
Definition leaf_size (t : BPlusTree) (root : bool) (n : Z) : Prop :=
  (if root then 0 else LeafMinEntries (leaf_max_ t)) <= n <= leaf_max_ t.
Definition inode_size (t : BPlusTree) (root : bool) (n : Z) : Prop :=
  (if root then 2 else InternalMinChildren (internal_max_ t)) <= n <= internal_max_ t.

(** An internal page of the given entries, bounds not yet replaced. *)
Record node_rep (t : BPlusTree) (m : pages_t) (root : bool) (lvl p : Z) (es : list InternalEntry) (lo : Z) (hi : option Z) : Prop := {
  nr_page : exists bs, m !! p = Some bs /\ inode_page p lvl (canon es) bs;
  nr_inv : inode_inv lvl (canon es);
  nr_head : head (ikeys es) = Some lo;
  nr_keys : increasing (ikeys es);
  nr_range : Forall (in_range lo hi) (ikeys es);
  nr_size : inode_size t root (len es)
}.

Fixpoint trep (t : BPlusTree) (m : pages_t) {h} (root : bool) : tree h -> Z -> option Z -> Z -> Prop :=
  match h with
  | O => fun T lo hi next =>
      (exists bs, m !! T.1 = Some bs /\ leaf_page T.1 next T.2 bs) /\ leaf_inv next T.2 /\
      Forall (in_range lo hi) (keys T.2) /\ leaf_size t root (len T.2)
  | S h => fun T lo hi next =>
      node_rep t m root (Z.of_nat (S h)) T.1 (entries_of T.2) lo hi /\ crep (trep t m false) T.2 hi next
  end.

Definition header_of_tree {h} (t : BPlusTree) (T : tree h) : IndexHeader :=
  mkIndexHeader (tpage T) (Z.of_nat h + 1) (leaf_max_ t) (internal_max_ t) 0.

Record tree_ok (t : BPlusTree) (m : pages_t) {h} (T : tree h) : Prop := {
  tk_fanout : FanoutInRange (leaf_max_ t) = true /\ FanoutInRange (internal_max_ t) = true;
  tk_header : exists bs, m !! header_page_id_ t = Some bs /\ header_page (header_page_id_ t) (header_of_tree t T) bs;
  tk_tree : trep t m true T INT64_MIN None INVALID_PAGE;
  tk_pages : NoDup (header_page_id_ t :: tpages T)
}.

(** What the index maps a key to. *)
Definition index_contents {h} (T : tree h) : gmap Z RID := list_to_map ((fun e => (key e, rid e)) <$> tentries T).

(** ** Structure *)

Lemma entries_of_app {h} (xs ys : list (Z * tree h)) : entries_of (xs ++ ys) = entries_of xs ++ entries_of ys.
Proof. apply fmap_app. Qed.

Lemma ikeys_entries {h} (cs : list (Z * tree h)) : ikeys (entries_of cs) = cs.*1.
Proof. unfold ikeys, entries_of. by rewrite <- list_fmap_compose. Qed.

Lemma cleaves_app {h} (xs ys : list (Z * tree h)) : cleaves (xs ++ ys) = cleaves xs ++ cleaves ys.
Proof. apply bind_app. Qed.

Lemma cpages_app {h} (xs ys : list (Z * tree h)) : cpages (xs ++ ys) = cpages xs ++ cpages ys.
Proof. apply bind_app. Qed.

Lemma cleaves_cons {h} c (T : tree h) cs : cleaves ((c, T) :: cs) = tleaves T ++ cleaves cs.
Proof. done. Qed.

Lemma cpages_cons {h} c (T : tree h) cs : cpages ((c, T) :: cs) = tpages T ++ cpages cs.
Proof. done. Qed.

Lemma tleaves_node {h} p (cs : list (Z * tree h)) : @tleaves (S h) (p, cs) = cleaves cs.
Proof. done. Qed.

Lemma tpages_node {h} p (cs : list (Z * tree h)) : @tpages (S h) (p, cs) = p :: cpages cs.
Proof. done. Qed.

Lemma next_of_app L1 L2 next : next_of (L1 ++ L2) next = next_of L1 (next_of L2 next).
Proof. by destruct L1 as [|[]]. Qed.

Lemma bound_of_app {A} (xs ys : list (Z * A)) hi : bound_of (xs ++ ys) hi = bound_of xs (bound_of ys hi).
Proof. by destruct xs as [|[]]. Qed.

Lemma crep_app {h} (P : tree h -> Z -> option Z -> Z -> Prop) xs ys hi next :
  crep P (xs ++ ys) hi next <-> crep P xs (bound_of ys hi) (next_of (cleaves ys) next) /\ crep P ys hi next.
Proof.
  induction xs as [|[k T] xs IH]; cbn [crep app]; [tauto|]. rewrite IH, bound_of_app, cleaves_app, next_of_app. tauto.
Qed.

Lemma crep_impl {h} (P Q : tree h -> Z -> option Z -> Z -> Prop) cs hi next :
  (forall k T lo hi next, (k, T) ∈ cs -> P T lo hi next -> Q T lo hi next) -> crep P cs hi next -> crep Q cs hi next.
Proof.
  induction cs as [|[k T] cs IH]; intros HPQ; cbn [crep]; [done|]. intros [H1 H2]. split.
  - eapply HPQ; [by left|done].
  - apply IH; [|done]. intros k' T' ????. eapply HPQ. by right.
Qed.

Lemma cpages_elem {h} (cs : list (Z * tree h)) k T p : (k, T) ∈ cs -> p ∈ tpages T -> p ∈ cpages cs.
Proof. intros Hc Hp. apply list_elem_of_bind. by exists (k, T). Qed.

Lemma node_rep_frame t m m' root lvl p es lo hi :
  m' !! p = m !! p -> node_rep t m root lvl p es lo hi -> node_rep t m' root lvl p es lo hi.
Proof. intros E []. split; try done. by rewrite E. Qed.

(** A tree depends on its own pages only. *)
Lemma trep_frame t m m' {h} root (T : tree h) lo hi next :
  (forall p, p ∈ tpages T -> m' !! p = m !! p) -> trep t m root T lo hi next -> trep t m' root T lo hi next.
Proof.
  revert root lo hi next. induction h as [|h IH]; intros root lo hi next Fr; cbn [trep].
  - intros ((bs & Hm & Hp) & R). split; [|done]. exists bs. by rewrite Fr by (by left).
  - intros (R & RC). split; [eapply node_rep_frame; [|exact R]; apply Fr; by left|].
    eapply crep_impl; [|exact RC]. intros k T' lo' hi' next' Hin. apply IH.
    intros q Hq. apply Fr. right. by eapply cpages_elem.
Qed.

Lemma crep_frame t m m' {h} (cs : list (Z * tree h)) hi next :
  (forall p, p ∈ cpages cs -> m' !! p = m !! p) -> crep (trep t m false) cs hi next -> crep (trep t m' false) cs hi next.
Proof.
  intros Fr. apply crep_impl. intros k T lo hi' next' Hin. apply trep_frame. intros p Hp. apply Fr. by eapply cpages_elem.
Qed.

Lemma leaf_pages {h} (T : tree h) p : p ∈ (tleaves T).*1 -> p ∈ tpages T.
Proof.
  induction h as [|h IH]; [done|]. destruct T as [q cs]. rewrite tleaves_node, tpages_node. intros Hp. right.
  apply list_elem_of_fmap in Hp as (l & -> & Hl). apply list_elem_of_bind in Hl as ([c T] & Hl & Hc).
  eapply cpages_elem; [exact Hc|]. apply IH. by apply list_elem_of_fmap_2.
Qed.

Lemma tpage_in {h} (T : tree h) : tpage T ∈ tpages T.
Proof. destruct h; by left. Qed.

Lemma trep_page t m {h} root (T : tree h) lo hi next :
  trep t m root T lo hi next -> exists bs, m !! tpage T = Some bs /\ loadable (tpage T) bs.
Proof.
  destruct h; cbn [trep tpage].
  - intros ((bs & Hm & Hp & _) & _). exists bs. split; [done|]. by eapply typed_loadable.
  - intros ([(bs & Hm & Hp & _)] & _). exists bs. split; [done|]. by eapply typed_loadable.
Qed.

(** ** Key order *)

Lemma in_range_weaken lo lo' hi hi' k :
  lo' <= lo -> match hi, hi' with Some a, Some b => a <= b | None, Some _ => False | _, None => True end ->
  in_range lo hi k -> in_range lo' hi' k.
Proof. unfold in_range. destruct hi, hi'; intros ? ? [? ?]; split; try done; lia. Qed.

(** The bounds of a run of children: increasing, all below [hi]. *)
Definition bounded {A} (cs : list (Z * A)) (hi : option Z) : Prop :=
  increasing cs.*1 /\ Forall (fun k => match hi with Some h => k < h | None => True end) cs.*1.

Lemma bounded_cons {A} k (x : A) cs hi :
  bounded ((k, x) :: cs) hi ->
  bounded cs hi /\ match bound_of cs hi with Some h => k < h | None => True end.
Proof.
  intros [I F]. cbn in I, F. apply StronglySorted_cons in I as [F1 I]. apply Forall_cons in F as [F2 F].
  split; [by split|]. destruct cs as [|[k' x'] cs]; [done|]. by apply Forall_cons in F1 as [? _].
Qed.

Lemma bounded_app {A} (xs ys : list (Z * A)) hi :
  bounded (xs ++ ys) hi -> bounded xs (bound_of ys hi) /\ bounded ys hi.
Proof.
  induction xs as [|[k x] xs IH]; intros B; cbn [app] in *.
  - split; [split; constructor|done].
  - pose proof (bounded_cons _ _ _ _ B) as [B' Hk]. destruct (IH B') as [[I1 F1] B2]. split; [|done].
    destruct B as [I F]. cbn in I, F |- *. rewrite fmap_app in I. apply StronglySorted_cons in I as [Fk I].
    apply Forall_app in Fk as [Fk Fy]. split; [by constructor|]. constructor; [|done].
    destruct ys as [|[k' y] ys]; cbn [bound_of]; [by apply Forall_cons in F as [? _]|]. by apply Forall_cons in Fy as [? _].
Qed.

Definition lkeys (L : list (Z * list LeafEntry)) : list Z := keys (L ≫= snd).

Lemma lkeys_app L1 L2 : lkeys (L1 ++ L2) = lkeys L1 ++ lkeys L2.
Proof. unfold lkeys. by rewrite bind_app, keys_app. Qed.

Lemma increasing_app xs ys :
  increasing xs -> increasing ys -> (forall x y, x ∈ xs -> y ∈ ys -> x < y) -> increasing (xs ++ ys).
Proof. intros I1 I2 Hxy. by apply StronglySorted_app. Qed.

Section order.
Context {h : nat} (P : tree h -> Z -> option Z -> Z -> Prop).
Hypothesis P_keys : forall T lo hi next, P T lo hi next -> increasing (lkeys (tleaves T)) /\ Forall (in_range lo hi) (lkeys (tleaves T)).

Lemma crep_keys cs hi next lo :
  bounded cs hi -> Forall (fun k => lo <= k) cs.*1 -> crep P cs hi next ->
  increasing (lkeys (cleaves cs)) /\ Forall (in_range lo hi) (lkeys (cleaves cs)).
Proof.
  revert lo. induction cs as [|[k T] cs IH]; intros lo B Fl; [repeat constructor|]. cbn [crep]. intros [HP HC].
  pose proof (bounded_cons _ _ _ _ B) as [B' Hk]. cbn in Fl. apply Forall_cons in Fl as [Hlo Flo].
  destruct (P_keys _ _ _ _ HP) as [I1 R1]. destruct (IH lo B' Flo HC) as [I2 R2].
  rewrite cleaves_cons. rewrite lkeys_app. split.
  - apply increasing_app; [done|done|]. intros x y Hx Hy. destruct cs as [|[k' T'] cs]; [by apply elem_of_nil in Hy|].
    rewrite Forall_forall in R1. apply R1 in Hx as [_ Hx]. cbn in Hx.
    destruct (IH k' B') as [_ R3]; [|done|rewrite Forall_forall in R3; apply R3 in Hy as [? _]; lia].
    destruct B' as [I _]. cbn in I |- *. apply StronglySorted_cons in I as [F _]. constructor; [lia|].
    eapply Forall_impl; [exact F|]. cbn. lia.
  - apply Forall_app. split; [|done]. eapply Forall_impl; [exact R1|]. intros x. apply in_range_weaken; [lia|].
    destruct cs as [|[k' T'] cs]; cbn; [by destruct hi|]. destruct hi as [b|]; [|done]. destruct B' as [_ F].
    cbn in F. apply Forall_cons in F as [? _]. lia.
Qed.
End order.

Lemma range_bounded {A} (cs : list (Z * A)) lo hi : increasing cs.*1 -> Forall (in_range lo hi) cs.*1 -> bounded cs hi /\ Forall (fun k => lo <= k) cs.*1.
Proof. intros I R. split; [split; [done|]|]; (eapply Forall_impl; [exact R|]); by intros x [? ?]. Qed.

Lemma trep_keys t m {h} root (T : tree h) lo hi next :
  trep t m root T lo hi next -> increasing (lkeys (tleaves T)) /\ Forall (in_range lo hi) (lkeys (tleaves T)).
Proof.
  revert root lo hi next. induction h as [|h IH]; intros root lo hi next; cbn [trep tleaves].
  - intros (_ & [_ _ I] & R & _). unfold lkeys. cbn. rewrite app_nil_r. by split.
  - intros ([_ _ Hh I R _] & HC). rewrite ikeys_entries in *. destruct (range_bounded _ _ _ I R).
    eapply (crep_keys (trep t m false)); try done. intros T' lo' hi' next'. apply IH.
Qed.

Lemma children_keys t m {h} (cs : list (Z * tree h)) hi next lo :
  bounded cs hi -> Forall (fun k => lo <= k) cs.*1 -> crep (trep t m false) cs hi next ->
  increasing (lkeys (cleaves cs)) /\ Forall (in_range lo hi) (lkeys (cleaves cs)).
Proof. apply crep_keys. intros T lo' hi' next'. apply trep_keys. Qed.

(** ** The chain of leaves *)

Fixpoint lchain (m : pages_t) (L : list (Z * list LeafEntry)) (next : Z) : Prop :=
  match L with
  | [] => True
  | (p, es) :: L => (exists bs, m !! p = Some bs /\ leaf_page p (next_of L next) es bs) /\ lchain m L next
  end.

Lemma lchain_app m L1 L2 next : lchain m (L1 ++ L2) next <-> lchain m L1 (next_of L2 next) /\ lchain m L2 next.
Proof. induction L1 as [|[p es] L1 IH]; cbn; [tauto|]. rewrite IH, next_of_app. tauto. Qed.

Lemma crep_chain m {h} (P : tree h -> Z -> option Z -> Z -> Prop) cs hi next :
  (forall T lo hi next, P T lo hi next -> lchain m (tleaves T) next) -> crep P cs hi next -> lchain m (cleaves cs) next.
Proof.
  intros HP. induction cs as [|[k T] cs IH]; [done|]. cbn [crep]. intros [H1 H2].
  rewrite cleaves_cons. apply lchain_app. split; [by eapply HP|by apply IH].
Qed.

Lemma trep_chain t m {h} root (T : tree h) lo hi next : trep t m root T lo hi next -> lchain m (tleaves T) next.
Proof.
  revert root lo hi next. induction h as [|h IH]; intros root lo hi next; cbn [trep tleaves].
  - intros (Hp & _). destruct T as [p es]. by split.
  - intros (_ & HC). eapply crep_chain; [|exact HC]. intros T' lo' hi' next'. apply IH.
Qed.

(** ** Routing *)

(** The children before the one [k] belongs to hold smaller keys, the ones after it larger. *)
Lemma route t m {h} (xs : list (Z * tree h)) c T (ys : list (Z * tree h)) lo hi next k :
  bounded (xs ++ (c, T) :: ys) hi -> Forall (fun x => lo <= x) (xs ++ (c, T) :: ys).*1 ->
  crep (trep t m false) (xs ++ (c, T) :: ys) hi next ->
  c <= k -> Forall (fun x => k < x) ys.*1 ->
  Forall (fun x => x < k) (lkeys (cleaves xs)) /\ Forall (fun x => k < x) (lkeys (cleaves ys)).
Proof.
  intros B Fl HC Hc Fy. apply crep_app in HC as [HX HY]. cbn [crep] in HY. destruct HY as [_ HY].
  apply bounded_app in B as [BX BY]. apply bounded_cons in BY as [BY _]. rewrite fmap_app in Fl.
  apply Forall_app in Fl as [FX _]. split.
  - destruct (children_keys t m xs _ _ lo BX FX HX) as [_ R].
    eapply Forall_impl; [exact R|]. cbn. intros x [_ Hx]. lia.
  - destruct ys as [|[k' T'] ys]; [constructor|].
    destruct (children_keys t m _ hi next k' BY) as [_ R]; [|done|].
    { destruct BY as [I _]. cbn in I |- *. apply StronglySorted_cons in I as [F _]. constructor; [lia|].
      eapply Forall_impl; [exact F|]. cbn. lia. }
    cbn in Fy. apply Forall_cons in Fy as [Hk' _]. eapply Forall_impl; [exact R|]. intros x [? _]. cbn in Hk'. lia.
Qed.

(** The child [ChildIndexFor] picks. *)
Lemma child_for {h} lvl (cs : list (Z * tree h)) tail lo k :
  inode_ok lvl (canon (entries_of cs)) tail -> inode_inv lvl (canon (entries_of cs)) -> head cs.*1 = Some lo -> lo <= k ->
  exists xs c T ys, cs = xs ++ (c, T) :: ys /\ ChildIndexFor k (inode lvl (canon (entries_of cs)) tail) = len xs /\
    c <= k /\ Forall (fun x => k < x) ys.*1 /\ canon (entries_of cs) !! length xs = Some (mkInternalEntry (if decide (xs = []) then INT64_MIN else c) (tpage T) 0).
Proof.
  intros K [_ _ _ I] Hh Hlo. destruct cs as [|[c0 T0] cs]; [done|]. cbn in Hh. injection Hh as ->.
  destruct (ChildIndexFor_inode lvl _ tail k K I ltac:(done)) as (l1 & e & l2 & E & Ei & H1 & H2).
  assert (Hlen : (length l1 < length ((lo, T0) :: cs))%nat).
  { apply (f_equal length) in E. rewrite canon_length in E. unfold entries_of in E. rewrite length_fmap, length_app in E. cbn in *. lia. }
  destruct (lookup_lt_is_Some_2 _ _ Hlen) as [[c T] HT].
  exists (take (length l1) ((lo, T0) :: cs)), c, T, (drop (S (length l1)) ((lo, T0) :: cs)).
  rewrite take_drop_middle by done. rewrite length_take_le by lia. split; [done|]. split; [done|].
  assert (He : canon (entries_of ((lo, T0) :: cs)) !! length l1 = Some e) by (rewrite E; by rewrite list_lookup_middle).
  assert (Hl2 : forall x, x ∈ (drop (S (length l1)) ((lo, T0) :: cs)).*1 -> k < x).
  { intros x Hx. rewrite fmap_drop in Hx. cbn in Hx. apply list_elem_of_lookup in Hx as [j Hj]. rewrite lookup_drop in Hj.
    rewrite list_lookup_fmap in Hj. destruct (cs !! (length l1 + j)%nat) as [[x' T']|] eqn:Ej; [|done]. cbn in Hj. injection Hj as ->.
    rewrite Forall_forall in H2. apply (H2 (mkInternalEntry x (tpage T') 0)). apply list_elem_of_lookup. exists j.
    replace l2 with (drop (S (length l1)) (canon (entries_of ((lo, T0) :: cs)))) by (rewrite E, cons_middle, app_assoc; apply drop_app_length'; rewrite length_app; cbn; lia).
    change (drop (S (length l1)) (canon (entries_of ((lo, T0) :: cs)))) with (drop (length l1) (entries_of cs)).
    rewrite lookup_drop. unfold entries_of. by rewrite list_lookup_fmap, Ej. }
  destruct l1 as [|x1 l1].
  - cbn in HT. injection HT as <- <-. split; [done|]. split; [by apply Forall_forall|]. cbn. done.
  - change ((entries_of cs) !! length l1 = Some e) in He. change (cs !! length l1 = Some (c, T)) in HT.
    unfold entries_of in He. rewrite list_lookup_fmap, HT in He. cbn in He. injection He as <-.
    split; [by apply H1|]. split; [by apply Forall_forall|].
    change ((entries_of cs) !! length l1 = Some (mkInternalEntry c (tpage T) 0)). unfold entries_of. by rewrite list_lookup_fmap, HT.
Qed.

(** ** Height *)

Lemma trep_dom t m {h} root (T : tree h) lo hi next p :
  trep t m root T lo hi next -> p ∈ tpages T -> is_Some (m !! p).
Proof.
  revert root lo hi next. induction h as [|h IH]; intros root lo hi next; cbn [trep].
  - intros ((bs & Hm & _) & _) ->%list_elem_of_singleton. by exists bs.
  - destruct T as [q cs]. cbn [fst snd]. intros [[(bs & Hm & _)] HC] Hp. rewrite tpages_node in Hp.
    apply elem_of_cons in Hp as [->|Hp]; [by exists bs|]. apply list_elem_of_bind in Hp as ([c T] & Hp & Hc).
    apply list_elem_of_split in Hc as (xs & ys & ->). apply crep_app in HC as [_ [HT _]]. by eapply IH.
Qed.

(** Every internal node has at least two children, so a tree has at least as many pages as a
    complete binary one. *)
Lemma trep_size t m {h} root (T : tree h) lo hi next :
  FanoutInRange (internal_max_ t) = true -> trep t m root T lo hi next -> 2 ^ Z.of_nat h <= len (tpages T).
Proof.
  intros Fi. revert root lo hi next. induction h as [|h IH]; intros root lo hi next; [cbn; lia|]. destruct T as [p cs].
  cbn [trep fst snd]. intros [[_ _ _ _ _ [Sz _]] HC]. rewrite tpages_node. cbn [length].
  assert (Hn : (2 <= length cs)%nat).
  { unfold FanoutInRange in Fi. unfold entries_of in Sz. rewrite length_fmap in Sz.
    destruct root; [lia|]. nlia. }
  assert (Hc : len cs * 2 ^ Z.of_nat h <= len (cpages cs)); [|rewrite Nat2Z.inj_succ, Z.pow_succ_r by lia; nia].
  clear Sz Hn. induction cs as [|[c T] cs IHc]; [cbn; lia|]. destruct HC as [HT HC]. rewrite cpages_cons, length_app. cbn [length].
  specialize (IH T _ _ _ _ HT). specialize (IHc HC). lia.
Qed.

Lemma NoDup_bounded (l : list Z) n : 0 <= n -> NoDup l -> (forall p, p ∈ l -> 0 <= p < n) -> len l <= n.
Proof.
  intros Hn ND B. assert (Hs : l ⊆+ seqZ 0 n).
  { apply NoDup_submseteq; [done|]. intros p Hp. apply elem_of_seqZ. specialize (B p Hp). lia. }
  apply submseteq_length in Hs. rewrite length_seqZ in Hs. lia.
Qed.

Lemma tree_height t m {h} (T : tree h) :
  tree_ok t m T -> (forall p bs, m !! p = Some bs -> len bs = PAGE_SIZE /\ 2 <= p < 2 ^ 31) -> (h < 31)%nat.
Proof.
  intros [[_ Fi] _ HT ND] Bd. apply NoDup_cons in ND as [_ ND]. pose proof (trep_size _ _ _ _ _ _ _ Fi HT) as Sz.
  assert (L : len (tpages T) <= 2 ^ 31 - 1).
  { assert (E : len ((fun p => p - 2) <$> tpages T) <= 2 ^ 31 - 1); [|by rewrite length_fmap in E].
    apply NoDup_bounded; [lia|apply NoDup_fmap_2; [intros ?? ?; lia|done]|].
    intros p (q & -> & Hq)%list_elem_of_fmap. destruct (trep_dom _ _ _ _ _ _ _ _ HT Hq) as [bs Hm]. apply Bd in Hm. lia. }
  apply Nat2Z.inj_lt, (Z.pow_lt_mono_r_iff 2); lia.
Qed.
