(* ===== verification/BPlusTreePath.v ===== *)
(** * Paths through a B+tree

    A [ctx H h] is a tree of height [H] with a hole of height [h]: the nodes from the hole up
    to the root, each with the children on either side.  [krep] says that a store holds all of
    it but the hole, and which range, first leaf and successor the hole has to fit.  Descents
    push a node onto the context; updates rebuild the tree by [plug]. *)

From stdpp Require Import gmap.
From S2P Require Import Prelude Common NodeArray LeafNode LeafNodeProofs LeafNodeTheorems.
From S2P Require Import InternalNode InternalNodeProofs InternalNodeTheorems.
From S2P Require Import BufferPool BufferPoolOps PoolRefine PageStore PageStoreLogic BPlusTree BPlusTreeSpec.

Inductive ctx (H : nat) : nat -> Type :=
  | top : ctx H H
  | up h (p : Z) (xs : list (Z * tree h)) (c : Z) (ys : list (Z * tree h)) (K : ctx H (S h)) : ctx H h.

Arguments top {H}.
Arguments up {H h} p xs c ys K.

Definition is_root {H h} (K : ctx H h) : bool := match K with top => true | _ => false end.

Fixpoint plug {H h} (K : ctx H h) : tree h -> tree H :=
  match K with
  | top => fun T => T
  | up p xs c ys K => fun T => plug K (p, xs ++ (c, T) :: ys)
  end.

(** The leaves before and after the hole, and the pages around it. *)
Fixpoint kl {H h} (K : ctx H h) : list (Z * list LeafEntry) :=
  match K with top => [] | up _ xs _ _ K => kl K ++ cleaves xs end.
Fixpoint kr {H h} (K : ctx H h) : list (Z * list LeafEntry) :=
  match K with top => [] | up _ _ _ ys K => cleaves ys ++ kr K end.
Fixpoint kpages {H h} (K : ctx H h) : list Z :=
  match K with top => [] | up p xs _ ys K => p :: cpages xs ++ cpages ys ++ kpages K end.

(** The nodes on the path, from the hole's parent up, and the child index each is left at. *)
Fixpoint kpath {H h} (K : ctx H h) : list Z := match K with top => [] | up p _ _ _ K => p :: kpath K end.
Fixpoint kindexes {H h} (K : ctx H h) : list Z := match K with top => [] | up _ xs _ _ K => len xs :: kindexes K end.

(** The entries of a node whose child at the hole is the page [pg]. *)
Definition around {h} (xs : list (Z * tree h)) (c pg : Z) (ys : list (Z * tree h)) : list InternalEntry :=
  entries_of xs ++ mkInternalEntry c pg 0 :: entries_of ys.

Fixpoint krep (t : BPlusTree) (m : pages_t) {H h} (K : ctx H h) (pg first lo : Z) (hi : option Z) (next : Z) : Prop :=
  match K with
  | top => lo = INT64_MIN /\ hi = None /\ next = INVALID_PAGE
  | @up _ h p xs c ys K =>
      exists lo' hi' next', lo = c /\ hi = bound_of ys hi' /\ next = next_of (cleaves ys) next' /\
        node_rep t m (is_root K) (Z.of_nat (S h)) p (around xs c pg ys) lo' hi' /\
        crep (trep t m false) xs (Some c) first /\ crep (trep t m false) ys hi' next' /\
        krep t m K p (next_of (cleaves xs) first) lo' hi' next'
  end.

(** What a subtree has to be to fill the hole. *)
Definition fits (t : BPlusTree) (m : pages_t) {H h} (K : ctx H h) (T : tree h) (lo : Z) (hi : option Z) (next : Z) : Prop :=
  krep t m K (tpage T) (next_of (tleaves T) next) lo hi next /\ trep t m (is_root K) T lo hi next.

Lemma tleaves_plug {H h} (K : ctx H h) T : tleaves (plug K T) = kl K ++ tleaves T ++ kr K.
Proof.
  induction K as [|h p xs c ys K IH]; cbn [plug kl kr]; [by rewrite app_nil_r|]. rewrite IH.
  rewrite tleaves_node. rewrite cleaves_app.
  rewrite cleaves_cons. by rewrite <- !app_assoc.
Qed.

Lemma tpages_plug {H h} (K : ctx H h) T : tpages (plug K T) ≡ₚ tpages T ++ kpages K.
Proof.
  induction K as [|h p xs c ys K IH]; cbn [plug kpages]; [by rewrite app_nil_r|]. rewrite IH.
  rewrite tpages_node. rewrite cpages_app.
  rewrite cpages_cons. cbn [app]. rewrite <- Permutation_middle. f_equiv.
  rewrite <- !app_assoc. rewrite !app_assoc. do 2 f_equiv. apply Permutation_app_comm.
Qed.

Lemma around_entries {h} (xs : list (Z * tree h)) c T ys : entries_of (xs ++ (c, T) :: ys) = around xs c (tpage T) ys.
Proof. by rewrite entries_of_app. Qed.

(** One level down. *)
Lemma fits_push t m {H h} (K : ctx H (S h)) p xs c (T : tree h) ys lo hi next :
  fits t m K (p, xs ++ (c, T) :: ys) lo hi next ->
  fits t m (up p xs c ys K) T c (bound_of ys hi) (next_of (cleaves ys) next).
Proof.
  intros [HK HT]. cbn [trep] in HT. destruct HT as [N HC]. cbn [fst snd] in N, HC. apply crep_app in HC as [HX HY]. cbn [crep] in HY.
  destruct HY as [HT HY]. split; [|done]. exists lo, hi, next. rewrite <- around_entries. split_and!; try done.
  - rewrite cleaves_cons in HX. by rewrite next_of_app in HX.
  - rewrite tleaves_node in HK. rewrite cleaves_app, next_of_app in HK.
    rewrite cleaves_cons in HK. by rewrite next_of_app in HK.
Qed.

(** The tree around a subtree that fits. *)
Lemma fits_plug t m {H h} (K : ctx H h) T lo hi next :
  fits t m K T lo hi next -> trep t m true (plug K T) INT64_MIN None INVALID_PAGE.
Proof.
  revert lo hi next. induction K as [|h p xs c ys K IH]; intros lo hi next; cbn [plug].
  - by intros [(-> & -> & ->) ?].
  - intros [(lo' & hi' & next' & -> & -> & -> & N & HX & HY & HK) HT]. apply (IH _ lo' hi' next'). split.
    + rewrite tleaves_node. rewrite cleaves_app, next_of_app.
      rewrite cleaves_cons. by rewrite next_of_app.
    + cbn [trep fst snd]. split; [by rewrite around_entries|]. apply crep_app. cbn [crep]. split; [|done].
      rewrite cleaves_cons. by rewrite next_of_app.
Qed.

Lemma krep_frame t m m' {H h} (K : ctx H h) pg first lo hi next :
  (forall p, p ∈ kpages K -> m' !! p = m !! p) -> krep t m K pg first lo hi next -> krep t m' K pg first lo hi next.
Proof.
  revert pg first lo hi next. induction K as [|h p xs c ys K IH]; intros pg first lo hi next Fr; cbn [krep]; [done|].
  assert (Fr' : forall q, q = p \/ q ∈ cpages xs \/ q ∈ cpages ys \/ q ∈ kpages K -> m' !! q = m !! q).
  { intros q Hq. apply Fr. cbn [kpages]. by rewrite elem_of_cons, !elem_of_app. }
  intros (lo' & hi' & next' & -> & -> & -> & N & HX & HY & HK). exists lo', hi', next'. split_and!; try done.
  - eapply node_rep_frame; [|done]. apply Fr'. auto.
  - eapply crep_frame; [|done]. intros. apply Fr'. auto.
  - eapply crep_frame; [|done]. intros. apply Fr'. auto.
  - apply IH; [|done]. intros. apply Fr'. auto.
Qed.

(** ** The keys around the hole *)

Lemma ikeys_around {h} (xs : list (Z * tree h)) c pg ys : ikeys (around xs c pg ys) = (xs.*1 ++ c :: ys.*1).
Proof. unfold around. rewrite ikeys_app. cbn. by rewrite !ikeys_entries. Qed.

Lemma bounds_only (l : list Z) : ((fun k => (k, tt)) <$> l).*1 = l.
Proof. induction l as [|k l IH]; [done|]. by rewrite !fmap_cons, IH. Qed.

Lemma node_bounded t m root lvl p {h} (xs : list (Z * tree h)) c pg ys lo hi :
  node_rep t m root lvl p (around xs c pg ys) lo hi ->
  bounded xs (Some c) /\ Forall (fun k => lo <= k) xs.*1 /\ bounded ys hi /\ lo <= c /\
  match bound_of ys hi with Some b => c < b | None => True end.
Proof.
  intros [_ _ _ I R _]. rewrite ikeys_around in *.
  destruct (range_bounded (((fun k => (k, tt)) <$> xs.*1) ++ (c, tt) :: ((fun k => (k, tt)) <$> ys.*1)) lo hi) as [B F].
  - by rewrite fmap_app, fmap_cons, !bounds_only.
  - by rewrite fmap_app, fmap_cons, !bounds_only.
  - apply bounded_app in B as [BX BY]. apply bounded_cons in BY as [BY Hc].
    unfold bounded in BX, BY. rewrite fmap_app, fmap_cons, !bounds_only in F. rewrite !bounds_only in BX, BY.
    apply Forall_app in F as [FX F]. apply Forall_cons in F as [F _]. split_and!; try done. by destruct ys as [|[]].
Qed.

Lemma krep_keys t m {H h} (K : ctx H h) pg first lo hi next :
  krep t m K pg first lo hi next ->
  Forall (fun x => x < lo) (lkeys (kl K)) /\
  Forall (fun x => match hi with Some b => b <= x | None => False end) (lkeys (kr K)).
Proof.
  revert pg first lo hi next. induction K as [|h p xs c ys K IH]; intros pg first lo hi next; cbn [krep kl kr]; [done|].
  intros (lo' & hi' & next' & -> & -> & -> & N & HX & HY & HK). destruct (IH _ _ _ _ _ HK) as [F1 F2].
  destruct (node_bounded _ _ _ _ _ _ _ _ _ _ _ N) as (BX & LX & BY & Hlo & Hc). rewrite !lkeys_app. split.
  - apply Forall_app. split; [eapply Forall_impl; [exact F1|]; cbn; lia|].
    destruct (children_keys t m xs _ _ lo' BX LX HX) as [_ R]. eapply Forall_impl; [exact R|]. by intros x [_ ?].
  - apply Forall_app. split.
    + destruct ys as [|[b T] ys]; [constructor|]. cbn [bound_of]. pose proof BY as [I _]. cbn in I. apply StronglySorted_cons in I as [I _].
      destruct (children_keys t m ((b, T) :: ys) hi' next' b BY) as [_ R]; [|exact HY|].
      { cbn. constructor; [lia|]. eapply Forall_impl; [exact I|]. cbn. lia. }
      eapply Forall_impl; [exact R|]. by intros x [? _].
    + destruct ys as [|[b T] ys]; [done|]. cbn [bound_of]. eapply Forall_impl; [exact F2|]. cbn. intros x.
      destruct BY as [_ F]. cbn in F. apply Forall_cons in F as [F _]. destruct hi'; [lia|done].
Qed.

(** ** One step of a descent *)

(** The node page routes [k] to the child whose range it is in. *)
Lemma descend t m root {h} (T : tree (S h)) lo hi next k :
  trep t m root T lo hi next -> in_range lo hi k ->
  exists bs (xs : list (Z * tree h)) (c : Z) (T' : tree h) (ys : list (Z * tree h)), m !! T.1 = Some bs /\ AsInternal bs = Ok (page_body bs) /\ T = (T.1, xs ++ (c, T') :: ys) /\
    ChildIndexFor_asserts k (page_body bs) = true /\ ChildIndexFor k (page_body bs) = len xs /\
    InternalNode.EntryAt_asserts (len xs) (page_body bs) = true /\ ChildAt (len xs) (page_body bs) = tpage T' /\ in_range c (bound_of ys hi) k.
Proof.
  destruct T as [p cs]. cbn [trep fst snd]. intros [[(bs & Hm & Hp) Inv Hh I R Sz] HC] [Hlo Hhi].
  pose proof (AsInternal_page _ _ _ _ Hp) as EA. destruct Hp as [Ty (tail & Eb & K)].
  destruct (child_for _ cs tail lo k K Inv) as (xs & c & T' & ys & -> & Ei & Hc & Hy & El); [by rewrite <- ikeys_entries|done|].
  exists bs, xs, c, T', ys. rewrite EA, Eb. split_and!; try done.
  - by apply ChildIndexFor_asserts_inode.
  - apply EntryAt_asserts_inode; [done|]. apply lookup_lt_Some in El. lia.
  - unfold ChildAt. by rewrite (iEntryAt_inode _ _ _ _ _ K El).
  - split; [done|]. destruct ys as [|[b ?] ys]; cbn [bound_of]; [done|]. cbn in Hy. by apply Forall_cons in Hy as [? _].
Qed.
