(* ===== verification/BPlusTreeRead.v ===== *)
(** * Reading a B+tree: descent, point lookup and range scan

    Every descent ends at the one leaf whose range holds the key, an iterator walks the chain
    of leaves from there, and both hold one guard at a time. *)

From stdpp Require Import gmap.
From S2P Require Import Prelude Common NodeArray LeafNode LeafNodeProofs LeafNodeTheorems.
From S2P Require Import InternalNode InternalNodeProofs InternalNodeTheorems.
From S2P Require Import BufferPool BufferPoolOps PoolRefine PageStore PageStoreLogic.
From S2P Require Import BPlusTree BPlusTreeSpec BPlusTreePath.

(** No guard of the caller is a writer's on one of these pages. *)
Definition readable (gs : list PageGuard) (ps : list Z) : Prop := forall p, p ∈ ps -> admissible false p gs.

(** An error that is not about the key. *)
Definition failed (e : Status) : Prop := ok e = false /\ code e <> kNotFound.

(** ** Entries by key *)

Definition in_scan (lo hi : Z) (e : LeafEntry) : Prop := lo <= key e <= hi.

#[export] Instance in_scan_dec lo hi e : Decision (in_scan lo hi e).
Proof. unfold in_scan. apply _. Defined.

(** The map of the entries of a sorted list is read by position. *)
Lemma increasing_NoDup l : increasing l -> NoDup l.
Proof.
  induction 1 as [|x l I IH F]; constructor; [|done]. intros Hx. rewrite Forall_forall in F. apply F in Hx. lia.
Qed.

Definition entry_map (es : list LeafEntry) : gmap Z RID := list_to_map ((fun e => (key e, rid e)) <$> es).

Lemma entry_map_keys es : ((fun e => (key e, rid e)) <$> es).*1 = keys es.
Proof. unfold keys. by rewrite <- list_fmap_compose. Qed.

Lemma entry_map_lookup es k r :
  increasing (keys es) -> entry_map es !! k = Some r <-> mkLeafEntry k r ∈ es.
Proof.
  intros I. unfold entry_map. rewrite <- elem_of_list_to_map by (rewrite entry_map_keys; by apply increasing_NoDup).
  rewrite list_elem_of_fmap. split.
  - by intros ([k' r'] & [= -> ->] & He).
  - intros He. by exists (mkLeafEntry k r).
Qed.

Lemma entry_map_None es k : entry_map es !! k = None <-> k ∉ keys es.
Proof. unfold entry_map. rewrite <- entry_map_keys. symmetry. apply not_elem_of_list_to_map. Qed.

Section read.
Context {S : Type} `{!PageStore S, !PageStoreLaws S}.
Context (cap : Z).

(** ** The descent *)

(** A leaf of the tree, the context it is in and its key range. *)
Definition leaf_at (t : BPlusTree) (m : pages_t) {H} (T : tree H) (k : Z) (K : ctx H 0) (L : tree 0) (lo : Z) (hi : option Z) (next : Z) : Prop :=
  fits t m K L lo hi next /\ in_range lo hi k /\ plug K L = T.

Lemma wp_FindLeafRead_loop t m gs {H h} (K : ctx H h) (T : tree h) lo hi next k :
  fits t m K T lo hi next -> in_range lo hi k -> readable gs (tpages T) ->
  wp cap (2 * Z.of_nat h + 1) (FindLeafRead_loop h (tpage T) k) m gs (fun r m' gs' => m' = m /\
    match r with
    | Ok g => exists K' L lo' hi' next', leaf_at t m (plug K T) k K' L lo' hi' next' /\
        g_page g = tpage L /\ g_write g = false /\ gs' = g :: gs
    | Error e => failed e /\ gs' = gs /\ cap <= len gs
    end).
Proof.
  revert K lo hi next. induction h as [|h IH]; intros K lo hi next F Hk Rd; cbn [FindLeafRead_loop].
  all: pose proof (trep_page _ _ _ _ _ _ _ (proj2 F)) as (bs & Hm & Hl).
  all: apply wp_pages; intros Bd; assert (Np : can_fetch (tpage T)) by (destruct (Bd _ _ Hm); apply can_fetch_page; unfold_consts; lia).
  - eapply wp_fetch; [lia|done|apply Rd, tpage_in| |].
    + intros g bs' Gp Gw _. split; [done|]. exists K, T, lo, hi, next. by split_and!.
    + intros e He Hc. split; [done|]. split; [exact He|]. split; [done|]. by eapply Hc.
  - apply (wp_bind _ 1); [lia|]. eapply wp_fetch; [lia|done|apply Rd, tpage_in| |].
    2: { intros e He Hc. apply wp_cret; [lia|]. split; [done|]. split; [exact He|]. split; [done|]. by eapply Hc. }
    intros g bs' Gp Gw Hm'. rewrite Hm in Hm'. injection Hm' as <-.
    destruct (descend t m _ T lo hi next k (proj2 F) Hk) as (bs' & xs & c & T' & ys & Hm' & EA & ET & Ai & Ei & Ac & Ec & Hk').
    change (m !! tpage T = Some bs') in Hm'. rewrite Hm in Hm'. injection Hm' as <-.
    apply (wp_bind _ 1); [lia|]. apply wp_scoped; [lia|]. apply (wp_bind _ 0); [lia|]. apply wp_bytes; [lia|by left|].
    rewrite Gp, Hm. intros ? [= <-] _ _. rewrite EA, asserting_ok by done. cbv zeta. rewrite Ei, asserting_ok by done.
    apply wp_cret; [lia|]. exists gs. split; [done|]. rewrite Ec. rewrite ET in F, Rd |- *. apply fits_push in F.
    eapply wp_mono; [| |eapply (IH T' (up T.1 xs c ys K)); [exact F|exact Hk'|]]; [lia|done|].
    intros p Hp. apply Rd. right. change (p ∈ cpages (xs ++ (c, T') :: ys)). rewrite cpages_app, cpages_cons, !elem_of_app. auto.
Qed.

Lemma tree_fits t m {h} (T : tree h) : tree_ok t m T -> fits t m top T INT64_MIN None INVALID_PAGE.
Proof. intros K. split; [done|apply K]. Qed.

(** The header page of a tree in the store, read through any guard. *)
Lemma tree_header t m {h} (T : tree h) :
  tree_ok t m T -> exists bs, m !! header_page_id_ t = Some bs /\ loadable (header_page_id_ t) bs /\
    ReadIndexHeader bs = Ok (header_of_tree t T).
Proof.
  intros K. destruct (tk_header _ _ _ K) as (bs & Hm & Hp). exists bs. split; [done|].
  split; [|by eapply ReadIndexHeader_page]. eapply typed_loadable; [apply Hp|done].
Qed.

Lemma key_in_range k : is_s64 k -> in_range INT64_MIN None k.
Proof. intros Hk. split; [by apply is_s64_min|done]. Qed.

Lemma wp_FindLeafRead t m gs {h} (T : tree h) k :
  tree_ok t m T -> is_s64 k -> readable gs (header_page_id_ t :: tpages T) ->
  wp cap (3 + 2 * Z.of_nat h) (FindLeafRead t k) m gs (fun r m' gs' => m' = m /\
    match r with
    | Ok g => exists K L lo hi next, leaf_at t m T k K L lo hi next /\
        g_page g = tpage L /\ g_write g = false /\ gs' = g :: gs
    | Error e => failed e /\ gs' = gs /\ cap <= len gs
    end).
Proof.
  intros K Hk Rd. unfold FindLeafRead. destruct (tree_header t m T K) as (bs & Hm & Hl & EH).
  apply wp_pages. intros Bd. assert (Np : can_fetch (header_page_id_ t)) by (destruct (Bd _ _ Hm); apply can_fetch_page; unfold_consts; lia).
  apply (wp_bind _ 1); [lia|]. eapply wp_fetch; [lia|done|apply Rd; by left| |].
  2: { intros e He Hc. apply wp_cret; [lia|]. split; [done|]. split; [exact He|]. split; [done|]. by eapply Hc. }
  intros g bs' Gp Gw Hm'. rewrite Hm in Hm'. injection Hm' as <-.
  apply (wp_bind _ 1); [lia|]. apply wp_scoped; [lia|]. apply (wp_bind _ 0); [lia|]. apply wp_bytes; [lia|by left|].
  rewrite Gp, Hm. intros ? [= <-] _ _. apply wp_cret; [lia|]. exists gs. split; [done|]. rewrite EH. cbn [height root_page_id header_of_tree].
  destruct (Z.eqb_spec (Z.of_nat h + 1) 0); [lia|]. replace (Z.to_nat (Z.of_nat h + 1 - 1)) with h by lia.
  eapply wp_mono; [| |eapply (wp_FindLeafRead_loop t m gs top T); [by apply tree_fits|by apply key_in_range|]]; [lia|done|].
  intros p Hp. apply Rd. by right.
Qed.

(** What the descent says about the key: it is in the leaf or nowhere. *)
Lemma leaf_at_keys t m {H} (T : tree H) k K L lo hi next :
  leaf_at t m T k K L lo hi next ->
  tentries T = (kl K ≫= snd) ++ L.2 ++ (kr K ≫= snd) /\
  Forall (fun x => x < k) (lkeys (kl K)) /\ Forall (fun x => k < x) (lkeys (kr K)).
Proof.
  intros [[HK HT] [[Hlo Hhi] <-]]. unfold tentries. rewrite tleaves_plug, !bind_app. cbn [tleaves]. cbn. rewrite app_nil_r. split; [done|].
  destruct (krep_keys _ _ _ _ _ _ _ _ HK) as [F1 F2]. split; [eapply Forall_impl; [exact F1|]; cbn; lia|].
  eapply Forall_impl; [exact F2|]. cbn. destruct hi; [lia|done].
Qed.

Lemma leaf_at_page t m {H} (T : tree H) k K L lo hi next :
  leaf_at t m T k K L lo hi next ->
  exists bs tail, m !! tpage L = Some bs /\ AsLeaf bs = Ok (leaf next L.2 tail) /\ leaf_ok next L.2 tail /\ leaf_inv next L.2.
Proof.
  intros [[_ ((bs & Hm & Hp) & Inv & _)] _]. pose proof (AsLeaf_page _ _ _ _ Hp) as EA. destruct Hp as [_ (tail & Eb & Ok)].
  exists bs, tail. by rewrite EA, Eb.
Qed.

Lemma tree_keys t m {h} (T : tree h) : tree_ok t m T -> increasing (keys (tentries T)).
Proof. intros K. exact (proj1 (trep_keys _ _ _ _ _ _ _ (tk_tree _ _ _ K))). Qed.

(** ** Point lookup *)

(** The lookup in the leaf: [LowerBound] lands on the key when it is there. *)
Lemma leaf_find next es tail k :
  leaf_ok next es tail -> increasing (keys es) ->
  let idx := LowerBound k (leaf next es tail) in
  exists l1 l2, es = l1 ++ l2 /\ idx = len l1 /\ Forall (fun e => key e < k) l1 /\
    if (idx =? Count (leaf next es tail)) || negb (LeafNode.KeyAt idx (leaf next es tail) =? k)
    then Forall (fun e => k < key e) l2
    else exists e l3, l2 = e :: l3 /\ key e = k /\ LeafNode.EntryAt idx (leaf next es tail) = e.
Proof.
  intros Ok I idx. destruct (LowerBound_leaf next es tail k Ok I) as (l1 & l2 & E & Ei & F1 & F2). fold idx in Ei.
  exists l1, l2. split; [done|]. split; [done|]. split; [done|]. rewrite Count_leaf, Ei by done. destruct l2 as [|e l2].
  - rewrite E, app_nil_r, Z.eqb_refl. cbn. constructor.
  - assert (He : es !! length l1 = Some e) by (rewrite E; by rewrite list_lookup_middle).
    assert (Hl : len l1 < len es) by (apply lookup_lt_Some in He; lia).
    destruct (Z.eqb_spec (len l1) (len es)); [lia|]. cbn [orb].
    unfold LeafNode.KeyAt. rewrite (EntryAt_leaf _ _ _ _ _ Ok He). destruct (Z.eqb_spec (key e) k) as [Ek|Nk]; cbn [negb].
    + by exists e, l2.
    + apply Forall_cons in F2 as [F2 _]. rewrite E, keys_app in I. apply StronglySorted_app_1_r in I.
      cbn in I. apply StronglySorted_cons in I as [I _]. constructor; [lia|].
      apply (Forall_fmap key) in I. eapply Forall_impl; [exact I|]. cbn. lia.
Qed.

Lemma wp_IndexGet t m gs {h} (T : tree h) k :
  tree_ok t m T -> is_s64 k -> readable gs (header_page_id_ t :: tpages T) ->
  wp cap (4 + 2 * Z.of_nat h) (Get t k) m gs (fun r m' gs' => m' = m /\ gs' = gs /\
    match r with
    | Ok r => index_contents T !! k = Some r
    | Error e => code e = kNotFound /\ index_contents T !! k = None \/ failed e /\ cap <= len gs
    end).
Proof.
  intros HT Hk Rd. unfold Get. apply (wp_bind _ (3 + 2 * Z.of_nat h)); [lia|].
  eapply wp_mono; [reflexivity| |by eapply wp_FindLeafRead]. intros [g|e] m' gs' [-> R].
  2: { destruct R as (He & -> & Hc). apply wp_cret; [lia|]. split_and!; try done. by right. }
  destruct R as (K & L & lo & hi & next & At & Gp & Gw & ->).
  destruct (leaf_at_page _ _ _ _ _ _ _ _ _ At) as (bs & tail & Hm & EA & Ok & Inv).
  destruct (leaf_at_keys _ _ _ _ _ _ _ _ _ At) as (ET & Fl & Fr).
  apply wp_scoped; [lia|]. apply (wp_bind _ 0); [lia|]. apply wp_bytes; [lia|by left|]. rewrite Gp, Hm. intros ? [= <-] _ _. rewrite EA.
  pose proof (leaf_find next L.2 tail k Ok (linv_keys _ _ Inv)) as (l1 & l2 & EL & Ei & F1 & D). cbv zeta in D.
  assert (Hi : len l1 <= len L.2) by (rewrite EL, length_app; lia).
  cbv zeta. rewrite asserting_ok by (by apply LowerBound_asserts_leaf). rewrite asserting_ok by (rewrite Ei; by apply EntryAt_guarded).
  destruct ((_ =? _) || _).
  - apply wp_cret; [lia|]. exists gs. split_and!; try done. left. split; [done|].
    change (entry_map (tentries T) !! k = None). apply entry_map_None. rewrite ET, EL, !keys_app, !elem_of_app.
    rewrite Forall_forall in Fl, Fr. intros [Hx|[[Hx|Hx]|Hx]].
    + apply Fl in Hx. lia.
    + apply elem_of_keys in Hx as (e & -> & He). rewrite Forall_forall in F1. apply F1 in He. lia.
    + apply elem_of_keys in Hx as (e & -> & He). rewrite Forall_forall in D. apply D in He. lia.
    + apply Fr in Hx. lia.
  - destruct D as (e & l3 & -> & <- & ->). apply wp_cret; [lia|]. exists gs. split_and!; try done.
    change (entry_map (tentries T) !! key e = Some (rid e)). apply entry_map_lookup; [by eapply tree_keys|].
    rewrite ET, EL, !elem_of_app. right. left. right. destruct e. by left.
Qed.
End read.
