(* ===== verification/BPlusTreeScan.v ===== *)
(** * Range scans of a B+tree

    An iterator stands somewhere on the chain of leaves; what it still has to return is the
    rest of that chain, up to its upper bound. *)

From stdpp Require Import gmap.
From S2P Require Import Prelude Common NodeArray LeafNode LeafNodeProofs LeafNodeTheorems.
From S2P Require Import InternalNode InternalNodeProofs.
From S2P Require Import BufferPool BufferPoolOps PoolRefine PageStore PageStoreLogic.
From S2P Require Import BPlusTree BPlusTreeSpec BPlusTreePath BPlusTreeRead.

(** The entries from slot [i] of the first of these leaves on. *)
Definition pending (L : list (Z * list LeafEntry)) (i : Z) : list LeafEntry :=
  match L with [] => [] | (_, es) :: L => drop (Z.to_nat i) es ++ (L ≫= snd) end.

Lemma pending_0 L : pending L 0 = L ≫= snd.
Proof. by destruct L as [|[]]. Qed.

(** An iterator before the leaves [L] of the chain, and the guards open with it. *)
Record iter_at (m : pages_t) (gs : list PageGuard) (it : IndexIterator) (L : list (Z * list LeafEntry)) (gs' : list PageGuard) : Prop := {
  ia_chain : lchain m L INVALID_PAGE;
  ia_readable : readable gs L.*1;
  ia_page : page_id_ it = next_of L INVALID_PAGE;
  ia_index : 0 <= index_ it;
  ia_guard : match guard_ it with
             | None => gs' = gs
             | Some g => gs' = g :: gs /\ L <> [] /\ g_page g = page_id_ it /\ g_write g = false
             end
}.

(** Past the end: no page held, none named. *)
Definition finished (it : IndexIterator) : Prop := guard_ it = None /\ page_id_ it = INVALID_PAGE.

Section scan.
Context {S : Type} `{!PageStore S, !PageStoreLaws S}.
Context (cap : Z).

Definition next_post (m : pages_t) (gs : list PageGuard) (L : list (Z * list LeafEntry)) (hi : Z) (rest : list LeafEntry)
    (r : Result bool * IndexIterator) (m' : pages_t) (gs' : list PageGuard) : Prop :=
  m' = m /\ hi_ r.2 = hi /\
  match r with
  | (Ok true, it) => key (current_ it) <= hi /\ exists L', rest = current_ it :: pending L' (index_ it) /\
      iter_at m gs it L' gs' /\ (length L' <= length L)%nat
  | (Ok false, it) => Forall (fun e => hi < key e) (take 1 rest) /\ gs' = gs /\ finished it
  | (Error e, it) => failed e /\ cap <= len gs /\ gs' = gs /\ finished it
  end.

(** One turn of the loop with the leaf pinned; [k] is the rest of the loop. *)
Lemma wp_Next_leaf p es L bs g c it (k : IndexIterator -> C S (Result bool * IndexIterator)) m gs :
  iter_at m gs it ((p, es) :: L) (match guard_ it with Some g => g :: gs | None => gs end) ->
  m !! p = Some bs -> leaf_page p (next_of L INVALID_PAGE) es bs -> g_page g = p -> g_write g = false -> 0 <= c ->
  wp cap c (k (mkIndexIterator None (next_of L INVALID_PAGE) 0 (hi_ it) (current_ it))) m gs (next_post m gs L (hi_ it) (pending L 0)) ->
  wp cap (1 + c)
    (do page <- bytes_of g ;
     match AsLeaf page with
     | Error e => drop_guard g ;;; cret (Error e, at_end it)
     | Ok leaf =>
         if Count leaf <=? index_ it then
           drop_guard g ;;; k (mkIndexIterator None (NextLeaf leaf) 0 (hi_ it) (current_ it))
         else
           asserting (LeafNode.EntryAt_asserts (index_ it) leaf) (
           let entry := LeafNode.EntryAt (index_ it) leaf in
           if hi_ it <? key entry then drop_guard g ;;; cret (Ok false, at_end it)
           else cret (Ok true, mkIndexIterator (Some g) (page_id_ it) (u16 (index_ it + 1)) (hi_ it) entry))
     end)%client m (g :: gs) (next_post m gs ((p, es) :: L) (hi_ it) (pending ((p, es) :: L) (index_ it))).
Proof.
  intros At Hm Hp Gp Gw Hc Hk. destruct At as [Ch Rd Pg Ix _]. cbn [next_of] in Pg.
  apply (wp_bind _ 0); [lia|]. apply wp_bytes; [lia|by left|]. rewrite Gp, Hm. intros ? [= <-] _ _.
  rewrite (AsLeaf_page _ _ _ _ Hp). pose proof Hp as [_ (tail & -> & Ok)].
  rewrite Count_leaf, NextLeaf_leaf by done. cbn [pending]. pose proof (lok_cap _ _ _ Ok) as Hcap.
  destruct (Z.leb_spec (len es) (index_ it)) as [Hge|Hlt].
  - rewrite drop_ge by lia. cbn [app]. apply (wp_bind _ 1); [lia|]. eapply wp_drop; [lia|done|].
    eapply wp_mono; [| |exact Hk]; [lia|]. intros [[[|]|e] it'] m' gs' (-> & Hhi & R); split; try done; (split; [done|]).
    + destruct R as (Hkey & L' & E & At' & Hl). split; [done|]. exists L'. rewrite <- E, pending_0. split_and!; try done. cbn. lia.
    + by rewrite pending_0 in R.
  - rewrite asserting_ok by (by apply EntryAt_asserts_leaf).
    destruct (lookup_lt_is_Some_2 es (Z.to_nat (index_ it)) ltac:(lia)) as [e He].
    pose proof (EntryAt_leaf _ _ _ _ _ Ok He) as Ee. rewrite Z2Nat.id in Ee by lia. cbv zeta. rewrite Ee.
    rewrite (drop_S _ _ _ He). cbn [app]. destruct (Z.ltb_spec (hi_ it) (key e)) as [Hhi|Hhi].
    + apply (wp_bind _ 1); [lia|]. eapply wp_drop; [lia|done|]. apply wp_cret; [lia|]. split_and!; try done. cbn. constructor; [lia|constructor].
    + rewrite u16_id by (unfold is_u16, NODE_CAPACITY in *; nlia). apply wp_cret; [lia|]. split; [done|]. split; [done|].
      split; [done|]. exists ((p, es) :: L). cbn [pending index_ current_]. replace (Z.to_nat (index_ it + 1)) with (Datatypes.S (Z.to_nat (index_ it))) by lia.
      split; [done|]. split; [|done]. split; cbn; try done; [lia|]. by rewrite Pg.
Qed.

Lemma wp_IndexNext fuel it L m gs gs' :
  iter_at m gs it L gs' -> (length L < fuel)%nat ->
  wp cap (2 * Z.of_nat fuel) (Next fuel it) m gs' (next_post m gs L (hi_ it) (pending L (index_ it))).
Proof.
  revert it L gs'. induction fuel as [|fuel IH]; intros it L gs' At Hf; [lia|]. cbn [Next]. pose proof At as [Ch Rd Pg Ix Gd].
  apply wp_pages. intros Bd. destruct L as [|[p es] L].
  { rewrite Pg. cbn [next_of]. rewrite Z.eqb_refl. apply wp_cret; [lia|]. destruct (guard_ it) as [g|] eqn:Eg; [by destruct Gd as (_ & ? & _)|].
    subst gs'. split_and!; try done. }
  cbn [next_of] in Pg. cbn [lchain] in Ch. destruct Ch as [(bs & Hm & Hp) Ch]. destruct (Bd _ _ Hm) as [_ Bp].
  destruct (Z.eqb_spec (page_id_ it) INVALID_PAGE) as [E|_]; [unfold_consts; lia|].
  replace (2 * Z.of_nat (Datatypes.S fuel)) with (1 + (1 + 2 * Z.of_nat fuel)) by lia.
  assert (Eg : gs' = match guard_ it with Some g => g :: gs | None => gs end) by (destruct (guard_ it); by destruct Gd).
  rewrite Eg in At. assert (Step : forall g, g_page g = p -> g_write g = false -> _) by
    (intros g Gp Gw; refine (wp_Next_leaf p es L bs g (2 * Z.of_nat fuel) it (Next fuel) m gs At Hm Hp Gp Gw _ _); [lia|];
     apply (IH (mkIndexIterator None _ 0 (hi_ it) (current_ it)) L gs); [split; cbn; try done; intros q Hq; apply Rd; by right|cbn in Hf; lia]).
  subst gs'. destruct (guard_ it) as [g|] eqn:Eg.
  - destruct Gd as (_ & _ & Gp & Gw). apply (wp_bind _ 0); [lia|]. apply wp_cret; [lia|].
    eapply wp_mono; [| |apply Step; [congruence|done]]; [lia|done].
  - apply (wp_bind _ 1); [lia|]. rewrite Pg in Step |- *. eapply wp_fetch; [lia|apply can_fetch_page; unfold_consts; lia|apply Rd; by left| |].
    + intros g bs' Gp Gw _. eapply wp_mono; [| |exact (Step g Gp Gw)]; [lia|done].
    + intros e He Hc. apply wp_cret; [lia|]. split; [done|]. split; [done|]. split; [done|]. split; [|done].
      eapply Hc; [done|]. eapply typed_loadable; [apply Hp|done].
Qed.

(** The loop of a caller: [while ( *it.Next() ) ...], keeping each entry. *)
Fixpoint Collect (steps fuel : nat) (it : IndexIterator) : C S (Result (list LeafEntry) * IndexIterator) :=
  match steps with
  | O => fun _ => None
  | Datatypes.S steps =>
      do (more, it) <- Next fuel it ;
      match more with
      | Error e => cret (Error e, it)
      | Ok false => cret (Ok [], it)
      | Ok true =>
          let row := mkLeafEntry (Key it) (Rid it) in
          do (rows, it) <- Collect steps fuel it ;
          cret (match rows with Ok rows => Ok (row :: rows) | Error e => Error e end, it)
      end
  end%client.

Lemma filter_all {A} (P : A -> Prop) `{!forall x, Decision (P x)} (l : list A) : Forall P l -> filter P l = l.
Proof. induction 1 as [|x l Hx F IH]; [done|]. by rewrite filter_cons_True, IH. Qed.

Lemma filter_no {A} (P : A -> Prop) `{!forall x, Decision (P x)} (l : list A) : Forall (fun x => ~ P x) l -> filter P l = [].
Proof. induction 1 as [|x l Hx F IH]; [done|]. by rewrite filter_cons_False. Qed.

(** In key order, stopping at the first key above [hi] is filtering by [hi]. *)
Lemma filter_none (hi : Z) (es : list LeafEntry) :
  increasing (keys es) -> Forall (fun e => hi < key e) (take 1 es) -> filter (fun e => key e <= hi) es = [].
Proof.
  destruct es as [|e es]; [done|]. intros I F. cbn in I, F. apply Forall_cons in F as [F _]. apply StronglySorted_cons in I as [I _].
  apply (Forall_fmap key) in I. apply filter_no, Forall_cons. split; [cbn; lia|]. eapply Forall_impl; [exact I|]. cbn. lia.
Qed.

Lemma wp_IndexCollect steps fuel it L m gs gs' :
  iter_at m gs it L gs' -> (length L < fuel)%nat -> increasing (keys (pending L (index_ it))) ->
  (length (pending L (index_ it)) < steps)%nat ->
  wp cap (2 * Z.of_nat fuel * Z.of_nat steps) (Collect steps fuel it) m gs' (fun r m' gs'' => m' = m /\ gs'' = gs /\ finished r.2 /\
    match r.1 with
    | Ok rows => rows = filter (fun e => key e <= hi_ it) (pending L (index_ it))
    | Error e => failed e /\ cap <= len gs
    end).
Proof.
  revert it L gs'. induction steps as [|steps IH]; intros it L gs' At Hf I Hst; [lia|]. cbn [Collect].
  apply (wp_bind _ (2 * Z.of_nat fuel)); [lia|]. eapply wp_mono; [reflexivity| |by eapply wp_IndexNext].
  intros [[[|]|e] it1] m1 gs1 (-> & Hhi & R).
  - destruct R as (Hk & L' & E & At' & Hl). rewrite E in I, Hst |- *. cbn [length] in Hst. cbn in I. apply StronglySorted_cons in I as [_ I].
    apply (wp_bind _ (2 * Z.of_nat fuel * Z.of_nat steps)); [lia|].
    eapply wp_mono; [reflexivity| |apply (IH it1 L' gs1 At'); [lia|exact I|lia]].
    intros [[rows|e] it2] m2 gs2 (-> & -> & Fin & R2); (apply wp_cret; [lia|]); split_and!; try done.
    cbn [fst snd] in R2 |- *. cbn in Hhi. rewrite filter_cons_True by lia. rewrite R2, Hhi. unfold Key, Rid. by destruct (current_ it1).
  - destruct R as (F & -> & Fin). apply wp_cret; [lia|]. split_and!; try done. cbn. by rewrite filter_none.
  - destruct R as (He & Hc & -> & Fin). apply wp_cret; [lia|]. by split_and!.
Qed.

(** ** [Scan] *)

Lemma wp_IndexScan t m gs {h} (T : tree h) lo hi :
  tree_ok t m T -> is_s64 lo -> readable gs (header_page_id_ t :: tpages T) ->
  wp cap (4 + 2 * Z.of_nat h) (Scan t lo hi) m gs (fun r m' gs' => m' = m /\ gs' = gs /\
    match r with
    | Ok it => exists L, iter_at m gs it L gs /\ hi_ it = hi /\ (length L <= length (tleaves T))%nat /\
        pending L (index_ it) = filter (fun e => lo <= key e) (tentries T)
    | Error e => failed e /\ cap <= len gs
    end).
Proof.
  intros HT Hk Rd. unfold Scan. apply (wp_bind _ (3 + 2 * Z.of_nat h)); [lia|].
  eapply wp_mono; [reflexivity| |by eapply wp_FindLeafRead]. intros [g|e] m' gs' [-> R].
  2: { destruct R as (He & -> & Hc). apply wp_cret; [lia|]. by split_and!. }
  destruct R as (K & L & lo' & hi' & next & At & Gp & Gw & ->).
  destruct (leaf_at_page _ _ _ _ _ _ _ _ _ At) as (bs & tail & Hm & EA & Ok & Inv).
  destruct (leaf_at_keys _ _ _ _ _ _ _ _ _ At) as (ET & Fl & Fr).
  apply wp_scoped; [lia|]. apply (wp_bind _ 0); [lia|]. apply wp_bytes; [lia|by left|]. rewrite Gp, Hm. intros ? [= <-] _ _. rewrite EA.
  rewrite asserting_ok by (by apply LowerBound_asserts_leaf). apply wp_cret; [lia|]. exists gs. split; [done|]. split; [done|]. split; [done|].
  destruct (LowerBound_leaf next L.2 tail lo Ok (linv_keys _ _ Inv)) as (l1 & l2 & EL & Ei & F1 & F2).
  assert (EC : tleaves T = kl K ++ L :: kr K) by (destruct At as (_ & _ & <-); by rewrite tleaves_plug).
  exists (L :: kr K). cbn [index_ hi_ new_IndexIterator]. split; [|split; [done|split]].
  - destruct L as [p es]. cbn [snd] in Ei |- *. rewrite Ei. split; try done; [| |cbn [index_ new_IndexIterator]; lia].
    + pose proof (trep_chain _ _ _ _ _ _ _ (tk_tree _ _ _ HT)) as Ch. rewrite EC in Ch. by apply lchain_app in Ch as [_ Ch].
    + intros q Hq. apply Rd. right. apply leaf_pages. rewrite EC, fmap_app, elem_of_app. by right.
  - rewrite EC, length_app. cbn. lia.
  - destruct L as [p es]. cbn [pending snd] in *. rewrite Ei, ET, EL, Nat2Z.id, drop_app_length.
    rewrite <- app_assoc, !filter_app. apply (Forall_fmap key) in Fl, Fr.
    rewrite (filter_no _ (kl K ≫= snd)) by (eapply Forall_impl; [exact Fl|]; cbn; lia).
    rewrite (filter_no _ l1) by (eapply Forall_impl; [exact F1|]; cbn; lia).
    rewrite (filter_all _ l2) by done.
    by rewrite (filter_all _ (kr K ≫= snd)) by (eapply Forall_impl; [exact Fr|]; cbn; lia).
Qed.
End scan.
