(* ===== verification/BPlusTreeCheck.v ===== *)
(** * The tree's own invariant check accepts every tree

    [CheckInvariants] walks the whole tree; on a store that holds a tree as specified it
    answers true, the pages it has seen are the tree's, and the links it has collected are the
    chain. *)

From stdpp Require Import gmap.
From S2P Require Import Prelude Common NodeArray LeafNode LeafNodeProofs LeafNodeTheorems.
From S2P Require Import InternalNode InternalNodeProofs InternalNodeTheorems.
From S2P Require Import BufferPool BufferPoolOps PoolRefine PageStore PageStoreLogic.
From S2P Require Import BPlusTree BPlusTreeSpec BPlusTreePath BPlusTreeRead.

(** The leaves with their links, as the walk collects them. *)
Fixpoint links (L : list (Z * list LeafEntry)) (next : Z) : list (Z * Z) :=
  match L with [] => [] | (p, _) :: L => (p, next_of L next) :: links L next end.

Lemma links_app L1 L2 next : links (L1 ++ L2) next = links L1 (next_of L2 next) ++ links L2 next.
Proof. induction L1 as [|[p es] L1 IH]; [done|]. cbn [app links]. by rewrite IH, next_of_app. Qed.

Lemma check_links L : check_chain (links L INVALID_PAGE) = true.
Proof.
  induction L as [|[p es] L IH]; [done|]. cbn [links check_chain]. rewrite IH, andb_true_r. apply Z.eqb_eq.
  by destruct L as [|[]].
Qed.

Lemma in_interval_range k lo hi : in_range lo hi k -> in_interval k lo hi = true.
Proof. intros [? ?]. unfold in_interval. destruct hi; bcase; try done; lia. Qed.

Lemma check_leaf_page t root p next es bs lo hi :
  leaf_page p next es bs -> leaf_inv next es -> Forall (in_range lo hi) (keys es) -> leaf_size t root (len es) ->
  check_leaf t bs lo hi root = Some next.
Proof.
  intros Hp Inv R [Sl Su]. unfold check_leaf. rewrite (AsLeaf_page _ _ _ _ Hp). destruct Hp as [_ (tail & -> & Ok)].
  rewrite (proj2 (CheckInvariants_leaf next es tail Ok) Inv), Count_leaf, copy_all, NextLeaf_leaf by done. cbn [negb].
  destruct (Z.ltb_spec (len es) (if root then 0 else LeafMinEntries (leaf_max_ t))); [lia|].
  destruct (Z.ltb_spec (leaf_max_ t) (len es)); [lia|]. cbn [orb].
  assert (E : forallb (fun e => in_interval (key e) lo hi) es = true); [|by rewrite E].
  apply forallb_forall. intros e He. apply in_interval_range. rewrite Forall_forall in R. apply R, elem_of_keys. exists e.
  split; [done|]. by apply list_elem_of_In.
Qed.

Lemma check_internal_page t m root lvl p es lo hi bs :
  node_rep t m root lvl p es lo hi -> m !! p = Some bs -> check_internal t bs lvl lo hi root = Some (canon es).
Proof.
  intros [(bs' & Hm & Hp) Inv _ _ R [Sl Su]] Hm'. rewrite Hm in Hm'. injection Hm' as ->. unfold check_internal.
  rewrite (AsInternal_page _ _ _ _ Hp). destruct Hp as [_ (tl & -> & Ok)].
  rewrite (proj2 (iCheckInvariants_inode _ _ _ Ok) Inv), Count_inode, icopy_all by done. cbn [negb].
  assert (EL : Level (inode lvl (canon es) tl) = lvl) by (unfold Level; by rewrite Header_inode).
  rewrite EL, Z.eqb_refl, canon_length. cbn [negb].
  destruct (Z.ltb_spec (len es) (if root then 2 else InternalMinChildren (internal_max_ t))); [lia|].
  destruct (Z.ltb_spec (internal_max_ t) (len es)); [lia|]. cbn [orb].
  assert (E : forallb (fun e => in_interval (ikey e) lo hi) (tail (canon es)) = true); [|by rewrite E].
  apply forallb_forall. intros e He. apply in_interval_range. rewrite Forall_forall in R. apply R.
  apply list_elem_of_fmap_2. destruct es as [|e0 es]; [done|]. right. by apply list_elem_of_In.
Qed.

Lemma union_swap (A B C : gset Z) : B ∪ (A ∪ C) = (A ∪ B) ∪ C.
Proof. by rewrite (union_comm_L A B), (union_assoc_L B). Qed.

Section check.
Context {S : Type} `{!PageStore S, !PageStoreLaws S}.
Context (cap : Z).

Definition walk_post (m : pages_t) (gs : list PageGuard) (ps : list Z) (L : list (Z * Z)) (w : walk)
    (r : bool * walk) (m' : pages_t) (gs' : list PageGuard) : Prop :=
  m' = m /\ gs' = gs /\ if r.1 then r.2.1 = list_to_set ps ∪ w.1 /\ r.2.2 = w.2 ++ L else cap <= len gs.

Lemma check_children_canon check lo hi es w :
  check_children (S := S) check lo hi (canon es) w = check_children check lo hi es w.
Proof. by destruct es. Qed.

Lemma wp_check_children {h} t m gs check (cs : list (Z * tree h)) lo hi next w :
  (forall (T : tree h) lo hi next (w : walk), trep t m false T lo hi next -> readable gs (tpages T) -> NoDup (tpages T) ->
     (forall p, p ∈ tpages T -> p ∉ w.1) ->
     wp cap (2 * len (tpages T)) (check (tpage T) lo hi w) m gs (walk_post m gs (tpages T) (links (tleaves T) next) w)) ->
  crep (trep t m false) cs hi next -> (cs <> [] -> head cs.*1 = Some lo) -> readable gs (cpages cs) -> NoDup (cpages cs) ->
  (forall p, p ∈ cpages cs -> p ∉ w.1) ->
  wp cap (2 * len (cpages cs)) (check_children check lo hi (entries_of cs) w) m gs (walk_post m gs (cpages cs) (links (cleaves cs) next) w).
Proof.
  intros IH. revert lo w. induction cs as [|[k T] cs IHc]; intros lo w HC Hh Rd ND Dj; cbn [check_children].
  { apply wp_cret; [done|]. split_and!; try done. cbn. split; [by rewrite union_empty_l_L|by rewrite app_nil_r]. }
  specialize (Hh ltac:(done)). cbn in Hh. injection Hh as ->. destruct HC as [HT HC]. rewrite cpages_cons in *.
  apply NoDup_app in ND as (N1 & Nd & N2). change (entries_of ((lo, T) :: cs)) with (mkInternalEntry lo (tpage T) 0 :: entries_of cs).
  cbn [check_children child].
  replace (match entries_of cs with [] => hi | e' :: _ => Some (ikey e') end) with (bound_of cs hi) by (by destruct cs as [|[]]).
  apply (wp_bind _ (2 * len (tpages T))); [rewrite length_app; lia|]. eapply wp_mono; [reflexivity| |apply IH; [exact HT| |done|]].
  - intros [[|] w1] m1 gs1 (-> & -> & R); cbn [fst snd] in R.
    + destruct R as [E1 E2]. eapply wp_mono; [| |apply (IHc _ w1 HC)].
      * rewrite length_app. lia.
      * intros [[|] w2] m2 gs2 (-> & -> & R); split_and!; try done. destruct R as [E3 E4]. cbn [fst snd] in E3, E4 |- *. split.
        -- rewrite E3, E1, list_to_set_app_L. apply union_swap.
        -- by rewrite E4, E2, cleaves_cons, links_app, app_assoc.
      * by destruct cs as [|[]].
      * intros p Hp. apply Rd. apply elem_of_app. by right.
      * done.
      * intros p Hp. rewrite E1, elem_of_union, elem_of_list_to_set. intros [Hp'|Hp']; [by apply (Nd p)|].
        apply (Dj p); [apply elem_of_app; by right|done].
    + apply wp_cret; [rewrite length_app; lia|]. by split_and!.
  - intros p Hp. apply Rd, elem_of_app. by left.
  - intros p Hp. apply Dj, elem_of_app. by left.
Qed.

Lemma wp_CheckSubtree {h} t m gs root (T : tree h) lo hi next w :
  trep t m root T lo hi next -> readable gs (tpages T) -> NoDup (tpages T) -> (forall p, p ∈ tpages T -> p ∉ w.1) ->
  wp cap (2 * len (tpages T)) (CheckSubtree t h root (tpage T) lo hi w) m gs (walk_post m gs (tpages T) (links (tleaves T) next) w).
Proof.
  revert root lo hi next w. induction h as [|h IH]; intros root lo hi next w HT Rd ND Dj; cbn [CheckSubtree].
  all: pose proof (trep_page _ _ _ _ _ _ _ HT) as (bs & Hm & Hl).
  all: apply wp_pages; intros Bd; assert (Np : can_fetch (tpage T)) by (destruct (Bd _ _ Hm); apply can_fetch_page; unfold_consts; lia).
  all: destruct w as [seen leaves]; rewrite decide_False by (apply Dj, tpage_in).
  all: apply (wp_bind _ 1); [cbn [tpages length]; lia|]; eapply wp_fetch; [lia|done|apply Rd, tpage_in| |
    intros e _ Hc; apply wp_cret; [cbn [tpages length]; lia|]; split_and!; try done; by eapply Hc].
  all: intros g bs' Gp Gw _.
  - apply wp_scoped; [cbn; lia|]. apply (wp_bind _ 0); [cbn; lia|]. apply wp_bytes; [cbn; lia|by left|]. rewrite Gp, Hm. intros ? [= <-] _ _.
    destruct HT as ((bs'' & Hm' & Hp) & Inv & R & Sz). change (m !! tpage T = Some bs'') in Hm'. rewrite Hm in Hm'. injection Hm' as <-.
    rewrite (check_leaf_page t root _ _ _ _ lo hi Hp Inv R Sz). apply wp_cret; [cbn; lia|]. exists gs. split; [done|].
    split_and!; try done. cbn. destruct T as [p es]. cbn. split; [by rewrite union_empty_r_L|done].
  - destruct T as [p cs]. cbn [tpage fst] in Hm, Gp, Np |- *. destruct HT as [N HC]. cbn [fst snd] in N, HC.
    rewrite tpages_node in *. apply NoDup_cons in ND as [Np' ND]. cbn [length].
    apply (wp_bind _ 1); [lia|]. apply wp_scoped; [lia|]. apply (wp_bind _ 0); [lia|]. apply wp_bytes; [lia|by left|].
    rewrite Gp, Hm. intros ? [= <-] _ _. rewrite (check_internal_page _ _ _ _ _ _ _ _ _ N Hm). apply wp_cret; [lia|]. exists gs. split; [done|].
    rewrite check_children_canon. eapply wp_mono; [| |apply (wp_check_children t m gs _ cs lo hi next)]; try done.
    + lia.
    + intros [[|] w'] m' gs' (-> & -> & R); split_and!; try done. cbn [fst snd] in R |- *. destruct R as [-> ->]. split; [apply union_swap|done].
    + intros T' lo' hi' next' w'. apply IH.
    + intros _. rewrite <- ikeys_entries. apply N.
    + intros q Hq. apply Rd. by right.
    + intros q Hq. cbn. rewrite elem_of_union, elem_of_singleton. intros [->|Hq']; [done|]. apply (Dj q); [by right|done].
Qed.

Lemma wp_CheckInvariants {h} t m gs (T : tree h) :
  tree_ok t m T -> readable gs (header_page_id_ t :: tpages T) -> len gs < cap ->
  wp cap (2 + 2 * len (tpages T)) (CheckInvariants t) m gs (fun r m' gs' => r = true /\ m' = m /\ gs' = gs).
Proof.
  intros K Rd Hc. unfold CheckInvariants. destruct (tree_header t m T K) as (bs & Hm & Hl & EH).
  apply wp_pages. intros Bd. assert (Np : can_fetch (header_page_id_ t)) by (destruct (Bd _ _ Hm); apply can_fetch_page; unfold_consts; lia).
  pose proof (tk_pages _ _ _ K) as ND. apply NoDup_cons in ND as [Nh ND].
  apply (wp_bind _ 1); [lia|]. eapply wp_fetch; [lia|done|apply Rd; by left| |].
  2: { intros e _ Hc'. specialize (Hc' _ Hm Hl). lia. }
  intros g bs' Gp Gw _. apply (wp_bind _ 1); [lia|]. apply wp_scoped; [lia|]. apply (wp_bind _ 0); [lia|]. apply wp_bytes; [lia|by left|].
  rewrite Gp, Hm. intros ? [= <-] _ _. apply wp_cret; [lia|]. exists gs. split; [done|]. rewrite EH.
  unfold header_of_tree. cbn [height leaf_max internal_max root_page_id]. rewrite !Z.eqb_refl. cbn [negb].
  destruct (Z.ltb_spec (Z.of_nat h + 1) 1); [lia|]. cbn [height root_page_id]. replace (Z.to_nat (Z.of_nat h + 1 - 1)) with h by lia.
  apply (wp_bind _ (2 * len (tpages T))); [lia|].
  eapply wp_mono; [reflexivity| |apply (wp_CheckSubtree t m gs true T); [apply K| |done|]].
  - intros [[|] w] m' gs' (-> & -> & R); cbn [fst snd] in R; [|lia]. destruct R as [_ ->]. apply wp_cret; [lia|].
    cbn [negb app]. split_and!; [apply check_links|done|done].
  - intros p Hp. apply Rd. by right.
  - intros p Hp. cbn. rewrite elem_of_singleton. by intros ->.
Qed.
End check.
