(* ===== verification/BPlusTreeWrite.v ===== *)
(** * The write path of a B+tree

    Rules for node pages under a write guard, and the descent that latches every node from
    the header page to the leaf. *)

From stdpp Require Import gmap.
From S2P Require Import Prelude Common NodeArray LeafNode LeafNodeProofs LeafNodeTheorems.
From S2P Require Import InternalNode InternalNodeProofs InternalNodeTheorems.
From S2P Require Import BufferPool BufferPoolOps BufferPoolLifecycle PoolRefine PageStore PageStoreLogic.
From S2P Require Import BPlusTree BPlusTreeSpec BPlusTreePath BPlusTreeRead.

(** ** Page contents *)

Lemma typed_set p ty bs (body : list byte) :
  typed_page p ty bs -> len body = PAGE_BODY_SIZE -> typed_page p ty (patch PAGE_HEADER_SIZE body bs).
Proof. intros [L T I] Lb. split; [by apply length_set_body|by rewrite page_header_set..]. Qed.

Lemma leaf_page_set p bs next es tail :
  typed_page p INDEX_LEAF bs -> leaf_ok next es tail -> leaf_page p next es (patch PAGE_HEADER_SIZE (leaf next es tail) bs).
Proof.
  intros Ty Ok. pose proof (length_leaf _ _ _ Ok) as Lb. split; [by apply typed_set|]. exists tail. split; [|done].
  apply page_body_set; [done|apply Ty].
Qed.

Lemma inode_page_set p bs lvl es tail :
  typed_page p INDEX_INTERNAL bs -> inode_ok lvl es tail -> inode_page p lvl es (patch PAGE_HEADER_SIZE (inode lvl es tail) bs).
Proof.
  intros Ty Ok. pose proof (length_inode _ _ _ Ok) as Lb. split; [by apply typed_set|]. exists tail. split; [|done].
  apply page_body_set; [done|apply Ty].
Qed.

Lemma fresh_body p : page_body (fresh_page p) = zeros PAGE_BODY_SIZE.
Proof.
  unfold fresh_page, page_body. set (h := mkPageHeader _ _ _ _ _ _ _ _ _). pose proof (PageHeader_len h) as L.
  rewrite slice_patch_disjoint; [reflexivity|done|by rewrite L|done|right; by rewrite L].
Qed.

(** A page just allocated, with its type set. *)
Definition retyped (ty : PageType) (p : Z) : list byte := edit_page (EType ty) (fresh_page p).

Lemma retyped_page ty p : PageType_wf ty -> 2 <= p < 2 ^ 31 -> typed_page p ty (retyped ty p) /\ page_body (retyped ty p) = zeros PAGE_BODY_SIZE.
Proof.
  intros Wt Hp. destruct (fresh_page_spec p) as [L [_ Id]]; [unfold is_s32; lia|]. unfold retyped. split.
  - split; [by apply length_edit_page|by rewrite page_header_edit..].
  - by rewrite page_body_edit, fresh_body.
Qed.

#[global] Opaque retyped.

Lemma length_index_header h bs : len bs = PAGE_SIZE -> len (IndexHeader_WriteTo h (page_body bs)) = PAGE_BODY_SIZE.
Proof.
  intros L. pose proof (length_page_body bs L) as Lb. pose proof (cenc_len h) as Le. cbn in Le.
  unfold IndexHeader_WriteTo. rewrite len_patch; [done|done|]. by rewrite Lb.
Qed.

Lemma length_WriteIndexHeader h bs : len bs = PAGE_SIZE -> len (WriteIndexHeader bs h).2 = PAGE_SIZE.
Proof. intros L. unfold WriteIndexHeader. case_decide; [done|]. apply length_set_body; [by apply length_index_header|done]. Qed.

(** Writing a header page. *)
Lemma WriteIndexHeader_page p h bs :
  typed_page p INDEX_HEADER bs -> IndexHeader_wf h ->
  ok (WriteIndexHeader bs h).1 = true /\ header_page p h (WriteIndexHeader bs h).2.
Proof.
  intros Ty Wf. unfold WriteIndexHeader. change (PageHeader_ReadFrom _) with (page_header bs). pose proof Ty as [L T _]. rewrite T.
  rewrite decide_False by (intros H; by apply H). cbn [fst snd]. split; [done|]. pose proof (length_index_header h bs L) as Lh.
  split; [by apply typed_set|]. change (slice PAGE_HEADER_SIZE PAGE_BODY_SIZE bs) with (page_body bs).
  rewrite page_body_set by done. apply IndexHeader_roundtrip; [|done]. by rewrite length_page_body.
Qed.

Section rules.
Context {S : Type} `{!PageStore S, !PageStoreLaws S}.
Context (cap : Z).

(** ** Views *)

Lemma wp_leaf_view c g m gs bs p next es Q :
  0 <= c -> g ∈ gs -> g_page g = p -> m !! p = Some bs -> leaf_page p next es bs ->
  (forall tail, leaf_ok next es tail -> Q (leaf next es tail) m gs) -> wp cap c (leaf_view g) m gs Q.
Proof.
  intros Hc Hg Gp Hm Hp HQ. unfold leaf_view. apply (wp_bind _ 0); [lia|]. apply wp_bytes; [lia|done|]. rewrite Gp, Hm. intros ? [= <-] _ _.
  rewrite (AsLeaf_page _ _ _ _ Hp). destruct Hp as [_ (tail & -> & Ok)]. apply wp_cret; [lia|]. by apply HQ.
Qed.

Lemma wp_internal_view c g m gs bs p lvl es Q :
  0 <= c -> g ∈ gs -> g_page g = p -> m !! p = Some bs -> inode_page p lvl es bs ->
  (forall tail, inode_ok lvl es tail -> Q (inode lvl es tail) m gs) -> wp cap c (internal_view g) m gs Q.
Proof.
  intros Hc Hg Gp Hm Hp HQ. unfold internal_view. apply (wp_bind _ 0); [lia|]. apply wp_bytes; [lia|done|]. rewrite Gp, Hm. intros ? [= <-] _ _.
  rewrite (AsInternal_page _ _ _ _ Hp). destruct Hp as [_ (tail & -> & Ok)]. apply wp_cret; [lia|]. by apply HQ.
Qed.

Lemma wp_set_leaf c g m gs bs p next es tail Q :
  1 <= c -> g ∈ gs -> g_write g = true -> g_page g = p -> m !! p = Some bs -> typed_page p INDEX_LEAF bs -> leaf_ok next es tail ->
  (forall bs', leaf_page p next es bs' -> Q tt (<[p := bs']> m) gs) -> wp cap c (set_body g (leaf next es tail)) m gs Q.
Proof.
  intros Hc Hg Gw <- Hm Ty Ok HQ. eapply wp_set_body; try done; [by apply length_leaf|]. apply HQ. by apply leaf_page_set.
Qed.

Lemma wp_set_inode c g m gs bs p lvl es tail Q :
  1 <= c -> g ∈ gs -> g_write g = true -> g_page g = p -> m !! p = Some bs -> typed_page p INDEX_INTERNAL bs -> inode_ok lvl es tail ->
  (forall bs', inode_page p lvl es bs' -> Q tt (<[p := bs']> m) gs) -> wp cap c (set_body g (inode lvl es tail)) m gs Q.
Proof.
  intros Hc Hg Gw <- Hm Ty Ok HQ. eapply wp_set_body; try done; [by apply length_inode|]. apply HQ. by apply inode_page_set.
Qed.

(** Giving a fresh page its type. *)
Lemma wp_retype c g m gs p ty Q :
  1 <= c -> g ∈ gs -> g_write g = true -> g_page g = p -> m !! p = Some (fresh_page p) ->
  Q tt (<[p := retyped ty p]> m) gs -> wp cap c (set_header g (EType ty)) m gs Q.
Proof. intros Hc Hg Gw <- Hm HQ. eapply wp_set_header; try done. Qed.

(** A fresh page becomes an empty node. *)
Lemma wp_fresh_inode {B} c g (k : list byte -> C S B) m gs p Q :
  1 <= c -> g ∈ gs -> g_write g = true -> g_page g = p -> m !! p = Some (fresh_page p) ->
  (forall bs, typed_page p INDEX_INTERNAL bs -> wp cap (c - 1) (k (zeros PAGE_BODY_SIZE)) (<[p := bs]> m) gs Q) ->
  wp cap c (set_header g (EType INDEX_INTERNAL) ;;; do node <- internal_view g ; k node)%client m gs Q.
Proof.
  intros Hc Hg Gw Gp Hm Hk. apply wp_pages. intros Bd. destruct (Bd _ _ Hm) as [_ Bp]. destruct (retyped_page INDEX_INTERNAL p ltac:(done) Bp) as [Ty Eb].
  apply (wp_bind _ 1); [lia|]. eapply wp_retype; try done. apply (wp_bind _ 0); [lia|]. unfold internal_view.
  apply (wp_bind _ 0); [lia|]. apply wp_bytes; [lia|done|]. rewrite Gp, lookup_insert_eq. intros ? [= <-] _ _.
  unfold AsInternal. change (PageHeader_ReadFrom _) with (page_header (retyped INDEX_INTERNAL p)). rewrite (tp_type _ _ _ Ty).
  rewrite decide_False by (intros F; by apply F). apply wp_cret; [lia|]. change (slice PAGE_HEADER_SIZE PAGE_BODY_SIZE _) with (page_body (retyped INDEX_INTERNAL p)).
  rewrite Eb. eapply wp_mono; [| |by apply Hk]; [lia|done].
Qed.

Lemma wp_fresh_leaf {B} c g (k : list byte -> C S B) m gs p Q :
  1 <= c -> g ∈ gs -> g_write g = true -> g_page g = p -> m !! p = Some (fresh_page p) ->
  (forall bs, typed_page p INDEX_LEAF bs -> wp cap (c - 1) (k (zeros PAGE_BODY_SIZE)) (<[p := bs]> m) gs Q) ->
  wp cap c (set_header g (EType INDEX_LEAF) ;;; do node <- leaf_view g ; k node)%client m gs Q.
Proof.
  intros Hc Hg Gw Gp Hm Hk. apply wp_pages. intros Bd. destruct (Bd _ _ Hm) as [_ Bp]. destruct (retyped_page INDEX_LEAF p ltac:(done) Bp) as [Ty Eb].
  apply (wp_bind _ 1); [lia|]. eapply wp_retype; try done. apply (wp_bind _ 0); [lia|]. unfold leaf_view.
  apply (wp_bind _ 0); [lia|]. apply wp_bytes; [lia|done|]. rewrite Gp, lookup_insert_eq. intros ? [= <-] _ _.
  unfold AsLeaf. change (PageHeader_ReadFrom _) with (page_header (retyped INDEX_LEAF p)). rewrite (tp_type _ _ _ Ty).
  rewrite decide_False by (intros F; by apply F). apply wp_cret; [lia|]. change (slice PAGE_HEADER_SIZE PAGE_BODY_SIZE _) with (page_body (retyped INDEX_LEAF p)).
  rewrite Eb. eapply wp_mono; [| |by apply Hk]; [lia|done].
Qed.

(** The header page. *)
Lemma wp_put_index_header c g m gs p bs h h' Q :
  1 <= c -> g ∈ gs -> g_write g = true -> g_page g = p -> m !! p = Some bs -> header_page p h bs -> IndexHeader_wf h' ->
  (forall bs', header_page p h' bs' -> Q tt (<[p := bs']> m) gs) -> wp cap c (put_index_header g h') m gs Q.
Proof.
  intros Hc Hg Gw <- Hm [Ty _] Wf HQ. unfold put_index_header. apply (wp_bind _ 0); [lia|]. apply wp_bytes; [lia|done|].
  rewrite Hm. intros ? [= <-] _ _. destruct (WriteIndexHeader_page _ h' _ Ty Wf) as [-> Hp].
  eapply wp_rewrite; try done; [lia|intros; by apply length_WriteIndexHeader|]. by apply HQ.
Qed.

(** ** Releasing guards *)

Lemma wp_drop_all c gl m gs gs0 Q :
  len gl <= c -> gs ≡ₚ gl ++ gs0 -> Q tt m gs0 -> wp cap c (drop_all gl) m gs Q.
Proof.
  revert c gs. induction gl as [|g gl IH]; intros c gs Hc P HQ; cbn [drop_all length] in *.
  - eapply wp_perm; [exact P|]. apply wp_cret; [lia|done].
  - apply (wp_bind _ 1); [lia|]. eapply wp_drop; [lia|exact P|]. apply IH; [lia|done|done].
Qed.

(** The path a descent has latched so far: the nodes [ps] from the lowest up, left at the
    child indexes [is_], under the header page. *)
Record on_path (t : BPlusTree) (hd : IndexHeader) (path : WritePath) (ps is_ : list Z) (gs gs' : list PageGuard) : Prop := {
  op_pages : g_page <$> reverse (nodes path) = ps;
  op_write : Forall (fun g => g_write g = true) (reverse (nodes path));
  op_indexes : reverse (child_indexes path) = is_;
  op_header_page : g_page (header_guard path) = header_page_id_ t;
  op_header_write : g_write (header_guard path) = true;
  op_header : header path = hd;
  op_guards : gs' = reverse (nodes path) ++ header_guard path :: gs
}.

Lemma wp_drop_path t hd path ps is_ gs gs' m :
  on_path t hd path ps is_ gs gs' -> wp cap (len ps + 1) (drop_path path) m gs' (fun _ m' gs'' => m' = m /\ gs'' = gs).
Proof.
  intros [Pg _ _ _ _ _ ->]. assert (Hl : len (nodes path) = len ps) by (rewrite <- Pg, length_fmap, length_reverse; done).
  unfold drop_path. apply (wp_bind _ (len ps)); [lia|]. eapply (wp_drop_all _ _ _ _ (header_guard path :: gs)); [lia|by rewrite reverse_Permutation|].
  eapply wp_drop; [lia|done|done].
Qed.

(** ** The descent *)

Lemma kpath_kpages {H h} (K : ctx H h) p : p ∈ kpath K -> p ∈ kpages K.
Proof.
  induction K as [|h q xs c ys K IH]; cbn [kpath kpages]; [done|]. rewrite !elem_of_cons, !elem_of_app. intros [->|Hp]; auto.
Qed.

Lemma kpath_length {H h} (K : ctx H h) : (length (kpath K) + h)%nat = H.
Proof. induction K as [|h q xs c ys K IH]; cbn [kpath length]; lia. Qed.

Lemma on_path_admissible t hd path {H h} (K : ctx H h) (T : tree h) is_ gs gs' w p :
  on_path t hd path (kpath K) is_ gs gs' -> NoDup (header_page_id_ t :: tpages (plug K T)) ->
  unlatched gs (header_page_id_ t :: tpages (plug K T)) -> p ∈ tpages T -> admissible w p gs'.
Proof.
  intros [Pg _ _ Hh _ _ ->] ND U Hp g Hg E. exfalso. rewrite (tpages_plug K T) in ND. apply NoDup_cons in ND as [Nh ND].
  apply NoDup_app in ND as (_ & Dj & _). apply elem_of_app in Hg as [Hg|Hg].
  - apply (Dj p Hp), kpath_kpages. rewrite <- Pg, <- E. by apply list_elem_of_fmap_2.
  - apply elem_of_cons in Hg as [->|Hg].
    + apply Nh. rewrite <- Hh, E. apply elem_of_app. by left.
    + apply (U g Hg). right. rewrite E, (tpages_plug K T). apply elem_of_app. by left.
Qed.

Lemma on_path_grow t hd path ps is_ gs gs' g js :
  on_path t hd path ps is_ gs gs' -> g_write g = true ->
  on_path t hd (mkWritePath (header_guard path) (header path) (nodes path ++ [g]) (child_indexes path ++ js))
    (g_page g :: ps) (reverse js ++ is_) gs (g :: gs').
Proof.
  intros [] Gw. split; cbn [nodes child_indexes header_guard header]; rewrite ?reverse_app; try done.
  - cbn. by rewrite op_pages0.
  - by constructor.
  - by rewrite op_indexes0.
  - by rewrite op_guards0.
Qed.

Lemma wp_FindLeafWrite_loop t hd m gs {H h} (K : ctx H h) (T : tree h) lo hi next k path gs' :
  fits t m K T lo hi next -> in_range lo hi k -> NoDup (header_page_id_ t :: tpages (plug K T)) ->
  unlatched gs (header_page_id_ t :: tpages (plug K T)) -> on_path t hd path (kpath K) (kindexes K) gs gs' ->
  wp cap (Z.of_nat h + Z.of_nat H + 2) (FindLeafWrite_loop h (tpage T) k path) m gs' (fun r m' gs'' => m' = m /\
    match r with
    | Ok path' => exists K' L lo' hi' next', leaf_at t m (plug K T) k K' L lo' hi' next' /\
        on_path t hd path' (tpage L :: kpath K') (kindexes K') gs gs''
    | Error e => failed e /\ gs'' = gs /\ cap <= len gs + Z.of_nat H + 1
    end).
Proof.
  revert K lo hi next path gs'. induction h as [|h IH]; intros K lo hi next path gs' F Hk ND U On; cbn [FindLeafWrite_loop].
  all: pose proof (trep_page _ _ _ _ _ _ _ (proj2 F)) as (bs & Hm & Hl). all: pose proof (kpath_length K) as HK.
  all: assert (Hgs : len gs' = len (kpath K) + 1 + len gs) by
    (rewrite (op_guards _ _ _ _ _ _ _ On), <- (op_pages _ _ _ _ _ _ _ On), length_app, length_fmap; cbn [length]; lia).
  all: apply wp_pages; intros Bd; assert (Np : can_fetch (tpage T)) by (destruct (Bd _ _ Hm); apply can_fetch_page; unfold_consts; lia).
  all: apply (wp_bind _ 1); [lia|]; eapply wp_fetch; [lia|done|eapply on_path_admissible; [exact On|exact ND|exact U|apply tpage_in]| |].
  all: try (intros e He Hc; apply (wp_bind _ (len (kpath K) + 1)); [lia|]; eapply wp_mono; [reflexivity| |eapply wp_drop_path, On];
    intros _ m' gs'' [-> ->]; apply wp_cret; [lia|]; split; [done|]; split; [exact He|]; split; [done|]; specialize (Hc _ Hm Hl); lia).
  all: intros g bs' Gp Gw _; apply (wp_bind _ 0); [lia|]; apply wp_bytes; [lia|by left|]; rewrite Gp, Hm; intros ? [= <-] _ _; cbv zeta.
  - assert (At : leaf_at t m (plug K T) k K T lo hi next) by by split_and!. 
    destruct (leaf_at_page _ _ _ _ _ _ _ _ _ At) as (bs'' & tail & Hm' & EA & _). rewrite Hm in Hm'. injection Hm' as <-. rewrite EA.
    apply wp_cret; [lia|]. split; [done|]. exists K, T, lo, hi, next. split; [done|]. rewrite <- Gp. by apply (on_path_grow _ _ _ _ _ _ _ _ []).
  - destruct (descend t m _ T lo hi next k (proj2 F) Hk) as (bs'' & xs & c & T' & ys & Hm' & EA & ET & Ai & Ei & Ac & Ec & Hk').
    change (m !! tpage T = Some bs'') in Hm'. rewrite Hm in Hm'. injection Hm' as <-.
    rewrite EA, asserting_ok, Ei, asserting_ok, Ec by done.
    assert (EK : plug K T = plug (up T.1 xs c ys K) T') by (cbn [plug]; by rewrite <- ET). rewrite EK in ND, U |- *.
    rewrite ET in F. apply fits_push in F.
    eapply wp_mono; [| |eapply (IH T' (up T.1 xs c ys K)); [exact F|exact Hk'|exact ND|exact U|]]; [lia|done|].
    cbn [kpath kindexes]. change (T.1) with (tpage T). rewrite <- Gp. by apply (on_path_grow _ _ _ _ _ _ _ _ [len xs]).
Qed.

Lemma wp_FindLeafWrite t m gs {h} (T : tree h) k :
  tree_ok t m T -> is_s64 k -> unlatched gs (header_page_id_ t :: tpages T) ->
  wp cap (3 + 2 * Z.of_nat h) (FindLeafWrite t k) m gs (fun r m' gs' => m' = m /\
    match r with
    | Ok path => exists K L lo hi next, leaf_at t m T k K L lo hi next /\
        on_path t (header_of_tree t T) path (tpage L :: kpath K) (kindexes K) gs gs'
    | Error e => failed e /\ gs' = gs /\ cap <= len gs + Z.of_nat h + 1
    end).
Proof.
  intros K Hk U. unfold FindLeafWrite. destruct (tree_header t m T K) as (bs & Hm & Hl & EH).
  apply wp_pages. intros Bd. assert (Np : can_fetch (header_page_id_ t)) by (destruct (Bd _ _ Hm); apply can_fetch_page; unfold_consts; lia).
  apply (wp_bind _ 1); [lia|]. eapply wp_fetch; [lia|done|eapply unlatched_admissible; [exact U|by left]| |].
  2: { intros e He Hc. apply wp_cret; [lia|]. split; [done|]. split; [exact He|]. split; [done|]. specialize (Hc _ Hm Hl). lia. }
  intros g bs' Gp Gw _. apply (wp_bind _ 0); [lia|]. apply wp_bytes; [lia|by left|]. rewrite Gp, Hm. intros ? [= <-] _ _. rewrite EH.
  unfold header_of_tree at 1 2. cbn [height root_page_id]. destruct (Z.eqb_spec (Z.of_nat h + 1) 0); [lia|]. cbn [height root_page_id].
  replace (Z.to_nat (Z.of_nat h + 1 - 1)) with h by lia.
  eapply wp_mono; [| |eapply (wp_FindLeafWrite_loop t (header_of_tree t T) m gs top T); [by apply tree_fits|by apply key_in_range|apply K|exact U|]]; [lia|done|].
  by split.
Qed.
End rules.
