(* ===== verification/BPlusTreeKids.v ===== *)
(** * Rebuilding a node: the children of one internal page

    [kids] is what makes a list of subtrees the children of one node.  Splits cut such a list,
    inserts and merges replace a run of it, and [trep_kids] turns it back into a tree once the
    page is written. *)

From stdpp Require Import gmap gmultiset.
From S2P Require Import Prelude Common NodeArray LeafNode LeafNodeProofs LeafNodeTheorems.
From S2P Require Import InternalNode InternalNodeProofs InternalNodeTheorems.
From S2P Require Import BufferPool BufferPoolOps PoolRefine PageStore PageStoreLogic.
From S2P Require Import BPlusTree BPlusTreeSpec BPlusTreePath BPlusTreeRead.

(** Permutations of page lists, by counting. *)
Lemma elements_disj (l : list Z) : elements (list_to_set_disj l : gmultiset Z) ≡ₚ l.
Proof.
  induction l as [|x l IH]; [done|]. rewrite list_to_set_disj_cons, gmultiset_elements_disj_union, gmultiset_elements_singleton.
  cbn. by rewrite IH.
Qed.

Lemma perm_disj (l1 l2 : list Z) : (list_to_set_disj l1 : gmultiset Z) = list_to_set_disj l2 -> l1 ≡ₚ l2.
Proof. intros E. by rewrite <- (elements_disj l1), E, elements_disj. Qed.

Ltac perm :=
  clear; apply perm_disj; repeat (rewrite ?list_to_set_disj_app, ?list_to_set_disj_cons, ?list_to_set_disj_nil); multiset_solver.

Record kids (t : BPlusTree) (m : pages_t) {h} (cs : list (Z * tree h)) (lo : Z) (hi : option Z) (next : Z) : Prop := {
  kd_head : head cs.*1 = Some lo;
  kd_keys : increasing cs.*1;
  kd_range : Forall (in_range lo hi) cs.*1;
  kd_s64 : Forall is_s64 cs.*1;
  kd_rep : crep (trep t m false) cs hi next
}.

(** Pages are where a store may have them. *)
Definition placed (m : pages_t) : Prop := forall p bs, m !! p = Some bs -> len bs = PAGE_SIZE /\ 2 <= p < 2 ^ 31.

(** ** Keys at their width *)

Lemma node_s64 t m root lvl p es lo hi : node_rep t m root lvl p es lo hi -> is_s64 lo -> Forall is_s64 (ikeys es).
Proof.
  intros [(bs & _ & _ & tl & _ & [_ _ W _]) _ Hh _ _ _] Hlo. destruct es as [|e es]; [constructor|]. cbn in Hh |- *. injection Hh as ->.
  constructor; [done|]. apply Forall_cons in W as [_ W]. apply Forall_fmap. eapply Forall_impl; [exact W|]. by intros x [? _].
Qed.

Lemma krep_s64 t m {H h} (K : ctx H h) pg first lo hi next : krep t m K pg first lo hi next -> is_s64 lo.
Proof.
  revert pg first lo hi next. induction K as [|h p xs c ys K IH]; intros pg first lo hi next; cbn [krep].
  - intros (-> & _). exact INT64_MIN_s64.
  - intros (lo' & hi' & next' & -> & _ & _ & N & _ & _ & HK). apply IH in HK. pose proof (node_s64 _ _ _ _ _ _ _ _ N HK) as F.
    rewrite ikeys_around in F. apply Forall_app in F as [_ F]. by apply Forall_cons in F as [F _].
Qed.

(** ** Cutting *)

Lemma kids_bounded t m {h} (cs : list (Z * tree h)) lo hi next : kids t m cs lo hi next -> bounded cs hi.
Proof. intros []. by eapply range_bounded. Qed.

Lemma kids_cut t m {h} (xs : list (Z * tree h)) b T ys lo hi next :
  kids t m (xs ++ (b, T) :: ys) lo hi next -> xs <> [] ->
  kids t m xs lo (Some b) (next_of (cleaves ((b, T) :: ys)) next) /\ kids t m ((b, T) :: ys) b hi next /\
  lo < b /\ match hi with Some x => b < x | None => True end /\ is_s64 b.
Proof.
  intros K Hx. pose proof (kids_bounded _ _ _ _ _ _ K) as B. destruct K as [Hh I R W C]. apply crep_app in C as [CX CY].
  apply bounded_app in B as [[_ BX] [_ BY]]. rewrite !fmap_app in *. apply Forall_app in R as [RX RY], W as [WX WY].
  pose proof (StronglySorted_app_1_l _ _ _ I) as IX. pose proof (StronglySorted_app_1_r _ _ _ I) as IY.
  assert (Hlo : lo < b).
  { destruct xs as [|[x ?] xs]; [done|]. cbn in Hh. injection Hh as ->. cbn in I. apply StronglySorted_cons in I as [I _].
    rewrite Forall_forall in I. apply I, elem_of_app. right. by left. }
  split; [|split].
  - split; try done; [destruct xs; [done|exact Hh]|]. apply Forall_forall. intros k Hk. rewrite Forall_forall in RX, BX. split; [by apply RX|by apply BX].
  - split; try done. apply Forall_forall. intros k Hk. rewrite Forall_forall in RY. pose proof (RY _ Hk) as [_ Hhi]. split; [|done].
    cbn in Hk, IY. apply elem_of_cons in Hk as [->|Hk]; [lia|]. apply StronglySorted_cons in IY as [IY _]. rewrite Forall_forall in IY. apply IY in Hk. lia.
  - split; [done|]. cbn in BY, WY. apply Forall_cons in BY as [BY _], WY as [WY _]. by split.
Qed.

(** ** Replacing a run *)

Lemma kids_glue t m {h} (A B C : list (Z * tree h)) b lo hi next :
  head (A.*1 ++ b :: C.*1) = Some lo -> increasing (A.*1 ++ b :: C.*1) -> Forall (in_range lo hi) (A.*1 ++ b :: C.*1) ->
  Forall is_s64 (A.*1 ++ b :: C.*1) ->
  crep (trep t m false) A (Some b) (next_of (cleaves B) (next_of (cleaves C) next)) ->
  kids t m B b (bound_of C hi) (next_of (cleaves C) next) -> crep (trep t m false) C hi next ->
  kids t m (A ++ B ++ C) lo hi next.
Proof.
  intros Hh I R W CA [Bh Bi Br Bw Bc] CC. destruct B as [|[b' T] B]; [done|]. cbn in Bh. injection Bh as ->.
  apply Forall_app in R as [RA RC], W as [WA WC]. apply Forall_cons in RC as [Rb RC], WC as [Wb WC].
  pose proof (StronglySorted_app_1_r _ _ _ I) as IC. apply StronglySorted_cons in IC as [FC IC].
  assert (HB : forall x, x ∈ ((b, T) :: B).*1 -> b <= x /\ forall y, y ∈ C.*1 -> x < y).
  { intros x Hx. rewrite Forall_forall in Br. destruct (Br _ Hx) as [H1 H2]. split; [done|]. intros y Hy.
    destruct C as [|[k U] C]; [by apply elem_of_nil in Hy|]. cbn in H2, Hy, IC. apply elem_of_cons in Hy as [->|Hy]; [done|].
    apply StronglySorted_cons in IC as [IC _]. rewrite Forall_forall in IC. apply IC in Hy. lia. }
  split; rewrite ?fmap_app.
  - destruct A; [done|exact Hh].
  - apply increasing_app; [by eapply StronglySorted_app_1_l|apply increasing_app; [done|done|intros x y Hx; by apply HB]|].
    intros x y Hx [Hy|Hy]%elem_of_app.
    + apply HB in Hy as [Hy _]. assert (x < b); [|lia]. eapply StronglySorted_app_1_elem_of; [exact I|done|by left].
    + eapply StronglySorted_app_1_elem_of; [exact I|done|by right].
  - apply Forall_app. split; [done|]. apply Forall_app. split; [|done]. eapply Forall_impl; [exact Br|]. intros x. apply in_range_weaken; [apply Rb|].
    destruct C as [|[k U] C]; cbn [bound_of]; [by destruct hi|]. cbn in RC. apply Forall_cons in RC as [[_ Hk] _]. destruct hi; [lia|done].
  - apply Forall_app. split; [done|]. by apply Forall_app.
  - apply crep_app. split; [by rewrite bound_of_app, cleaves_app, next_of_app|]. by apply crep_app.
Qed.

Lemma kids_pair t m {h} (Tl Tr : tree h) lo sep hi next :
  trep t m false Tl lo (Some sep) (next_of (tleaves Tr) next) -> trep t m false Tr sep hi next ->
  lo < sep -> in_range lo hi sep -> is_s64 lo -> is_s64 sep -> kids t m [(lo, Tl); (sep, Tr)] lo hi next.
Proof.
  intros Hl Hr Hs Rs Wl Ws. split; try done.
  - cbn. repeat constructor. done.
  - cbn. constructor; [|by constructor]. split; [lia|]. destruct Rs as [_ Rs]. destruct hi; [lia|done].
  - cbn. constructor; [done|]. by constructor.
  - cbn [crep bound_of]. rewrite cleaves_cons, app_nil_r. by split_and!.
Qed.

Lemma kids_one t m {h} (T : tree h) lo hi next :
  trep t m false T lo hi next -> in_range lo hi lo -> is_s64 lo -> kids t m [(lo, T)] lo hi next.
Proof.
  intros HT R W. split; [done|cbn; by repeat constructor|cbn; by constructor|cbn; by constructor|by split].
Qed.

(** The children of the hole's parent, the hole filled with a run of subtrees. *)
Lemma kids_fill t m root lvl p {h} (xs ys B : list (Z * tree h)) c pg lo hi next first :
  node_rep t m root lvl p (around xs c pg ys) lo hi -> is_s64 lo ->
  crep (trep t m false) xs (Some c) first -> crep (trep t m false) ys hi next ->
  kids t m B c (bound_of ys hi) (next_of (cleaves ys) next) -> next_of (cleaves B) (next_of (cleaves ys) next) = first ->
  kids t m (xs ++ B ++ ys) lo hi next.
Proof.
  intros N Wl CX CY KB <-. pose proof (node_s64 _ _ _ _ _ _ _ _ N Wl) as W. destruct N as [_ _ Hh I R _]. rewrite ikeys_around in *.
  by eapply kids_glue.
Qed.

(** ** Back to a tree *)

Lemma kids_frame t m m' {h} (cs : list (Z * tree h)) lo hi next :
  (forall p, p ∈ cpages cs -> m' !! p = m !! p) -> kids t m cs lo hi next -> kids t m' cs lo hi next.
Proof. intros Fr []. split; try done. by eapply crep_frame. Qed.

Lemma kids_entries t m {h} (cs : list (Z * tree h)) lo hi next :
  placed m -> kids t m cs lo hi next -> Forall InternalEntry_wf (entries_of cs) /\ children_ok (entries_of cs).
Proof.
  intros Bd [_ _ _ W C]. clear -Bd W C. revert C. induction cs as [|[k T] cs IH]; [repeat constructor|]. intros [HT C].
  cbn in W. apply Forall_cons in W as [Wk W]. destruct (IH W C) as [F1 F2].
  destruct (trep_page _ _ _ _ _ _ _ HT) as (bs & Hm & _). destruct (Bd _ _ Hm) as [_ Bp].
  split; (constructor; [|done]); cbn.
  - split; [done|]. split; cbn; unfold_ints; lia.
  - unfold_consts. lia.
Qed.

Lemma canon_inv lvl es lo :
  1 <= lvl -> head (ikeys es) = Some lo -> is_s64 lo -> increasing (ikeys es) -> children_ok es -> inode_inv lvl (canon es).
Proof.
  intros Hl Hh Wl I C. destruct es as [|e es]; [done|]. cbn in Hh. injection Hh as E. cbn in I. apply StronglySorted_cons in I as [F I].
  split; [done|done|by apply canon_children|]. cbn. constructor; [done|]. eapply Forall_impl; [exact F|]. cbn. apply is_s64_min in Wl. lia.
Qed.

(** A written page with the right entries makes its children a tree. *)
Lemma trep_kids t m root {h} p bs (cs : list (Z * tree h)) lo hi next :
  placed m -> kids t m cs lo hi next -> m !! p = Some bs -> inode_page p (Z.of_nat (S h)) (canon (entries_of cs)) bs ->
  inode_size t root (len cs) -> @trep t m (S h) root (p, cs) lo hi next.
Proof.
  intros Bd K Hm Hp Sz. destruct (kids_entries _ _ _ _ _ _ Bd K) as [_ Ch]. destruct K as [Hh I R W C]. cbn [trep fst snd]. split; [|done].
  assert (Wl : is_s64 lo) by (destruct cs as [|[]]; [done|]; cbn in Hh, W; injection Hh as ->; by apply Forall_cons in W as [W _]).
  split; rewrite ?ikeys_entries; try done.
  - by exists bs.
  - eapply canon_inv; rewrite ?ikeys_entries; try done. lia.
  - unfold entries_of. by rewrite length_fmap.
Qed.

Lemma kids_ok t m {h} (cs : list (Z * tree h)) lo hi next lvl tail :
  placed m -> kids t m cs lo hi next -> is_u16 lvl -> len cs <= NODE_CAPACITY -> len tail = 8 -> inode_ok lvl (canon (entries_of cs)) tail.
Proof.
  intros Bd K Wl Hc Ht. destruct (kids_entries _ _ _ _ _ _ Bd K) as [W _]. split; try done; [|by apply canon_wf].
  rewrite canon_length. unfold entries_of. by rewrite length_fmap.
Qed.
