(* ===== verification/BPlusTreeInsert.v ===== *)
(** * Insertion into a B+tree

    The pages a split needs are allocated before anything is written; then the leaf and the
    run of full nodes above it are split from the bottom up. *)

From stdpp Require Import gmap.
From S2P Require Import Prelude Common NodeArray LeafNode LeafNodeProofs LeafNodeTheorems.
From S2P Require Import InternalNode InternalNodeProofs InternalNodeTheorems.
From S2P Require Import BufferPool BufferPoolOps PoolRefine PageStore PageStoreLogic.
From S2P Require Import BPlusTree BPlusTreeSpec BPlusTreePath BPlusTreeRead BPlusTreeWrite BPlusTreeKids.

(** ** The root of a context *)

Fixpoint kroot {H h} (K : ctx H h) (pg : Z) : Z := match K with top => pg | up p _ _ _ K => kroot K p end.

Lemma tpage_plug {H h} (K : ctx H h) T : tpage (plug K T) = kroot K (tpage T).
Proof. induction K as [|h p xs c ys K IH]; [done|]. cbn [plug kroot]. by rewrite IH. Qed.

(** Everything an update leaves to show once its pages are written. *)
Lemma tree_ok_plug t m {H h} (K : ctx H h) (T : tree h) lo hi next :
  FanoutInRange (leaf_max_ t) = true /\ FanoutInRange (internal_max_ t) = true -> fits t m K T lo hi next ->
  (exists bs, m !! header_page_id_ t = Some bs /\
     header_page (header_page_id_ t) (mkIndexHeader (kroot K (tpage T)) (Z.of_nat H + 1) (leaf_max_ t) (internal_max_ t) 0) bs) ->
  NoDup (header_page_id_ t :: tpages T ++ kpages K) -> tree_ok t m (plug K T).
Proof.
  intros Fo F Hd ND. split; [done| |by eapply fits_plug|by rewrite (tpages_plug K T)].
  unfold header_of_tree. by rewrite tpage_plug.
Qed.

(** ** Which nodes split *)

Definition node_full (t : BPlusTree) {h} (xs ys : list (Z * tree h)) : bool := internal_max_ t <=? len xs + 1 + len ys.

(** The length of the run of full nodes above the hole. *)
Fixpoint kfull (t : BPlusTree) {H h} (K : ctx H h) : Z :=
  match K with top => 0 | up _ xs _ ys K => if node_full t xs ys then 1 + kfull t K else 0 end.

(** The pages the walk up takes: one for each node that splits and one for a new root. *)
Fixpoint need (t : BPlusTree) {H h} (K : ctx H h) : nat :=
  match K with top => 1 | up _ xs _ ys K => if node_full t xs ys then S (need t K) else 0 end.

Lemma kfull_bounds t {H h} (K : ctx H h) : 0 <= kfull t K <= len (kpath K).
Proof. induction K as [|h p xs c ys K IH]; cbn [kfull kpath length]; [lia|]. destruct (node_full t xs ys); lia. Qed.

Lemma need_kfull t {H h} (K : ctx H h) : Z.of_nat (need t K) = kfull t K + if kfull t K =? len (kpath K) then 1 else 0.
Proof.
  induction K as [|h p xs c ys K IH]; cbn [need kfull kpath length]; [done|]. destruct (node_full t xs ys).
  - rewrite Nat2Z.inj_succ, IH. destruct (Z.eqb_spec (kfull t K) (len (kpath K))), (Z.eqb_spec (1 + kfull t K) (Z.of_nat (S (length (kpath K))))); lia.
  - destruct (Z.eqb_spec 0 (Z.of_nat (S (length (kpath K))))); lia.
Qed.

Lemma len_around {h} (xs : list (Z * tree h)) c pg ys : len (around xs c pg ys) = len xs + 1 + len ys.
Proof. unfold around, entries_of. rewrite length_app. cbn [length]. rewrite !length_fmap. lia. Qed.

(** ** A node that has been split and its parent does not know yet *)

(** The hole of [K] is to be filled by two subtrees, separated by [sep]. *)
Record grown (t : BPlusTree) (m : pages_t) {H h} (K : ctx H h) (Tl Tr : tree h) (sep lo : Z) (hi : option Z) (next : Z) : Prop := {
  gr_krep : krep t m K (tpage Tl) (next_of (tleaves Tl) (next_of (tleaves Tr) next)) lo hi next;
  gr_left : trep t m false Tl lo (Some sep) (next_of (tleaves Tr) next);
  gr_right : trep t m false Tr sep hi next;
  gr_lo : lo < sep;
  gr_range : in_range lo hi sep;
  gr_s64 : is_s64 sep
}.

Definition grow {h} (xs : list (Z * tree h)) (c : Z) (Tl : tree h) (sep : Z) (Tr : tree h) (ys : list (Z * tree h)) : list (Z * tree h) :=
  xs ++ [(c, Tl); (sep, Tr)] ++ ys.

Lemma len_grow {h} (xs : list (Z * tree h)) c Tl sep Tr ys : len (grow xs c Tl sep Tr ys) = len xs + 1 + len ys + 1.
Proof. unfold grow. rewrite !length_app. cbn [length]. lia. Qed.

Lemma cpages_grow {h} (xs : list (Z * tree h)) c Tl sep Tr ys :
  cpages (grow xs c Tl sep Tr ys) = cpages xs ++ tpages Tl ++ tpages Tr ++ cpages ys.
Proof. unfold grow. by rewrite !cpages_app, !cpages_cons, app_nil_r, <- app_assoc. Qed.

Lemma cleaves_grow {h} (xs : list (Z * tree h)) c Tl sep Tr ys :
  cleaves (grow xs c Tl sep Tr ys) = cleaves xs ++ tleaves Tl ++ tleaves Tr ++ cleaves ys.
Proof. unfold grow. by rewrite !cleaves_app, !cleaves_cons, app_nil_r, <- app_assoc. Qed.

(** The children of the parent once it does. *)
Lemma grown_kids t m {H h} (K : ctx H (S h)) p xs c ys (Tl Tr : tree h) sep lo hi next :
  grown t m (up p xs c ys K) Tl Tr sep lo hi next ->
  exists lo' hi' next', node_rep t m (is_root K) (Z.of_nat (S h)) p (around xs c (tpage Tl) ys) lo' hi' /\
    kids t m (grow xs c Tl sep Tr ys) lo' hi' next' /\
    krep t m K p (next_of (cleaves (grow xs c Tl sep Tr ys)) next') lo' hi' next'.
Proof.
  intros [HK Hl Hr Hs Rs Ws]. pose proof (krep_s64 _ _ _ _ _ _ _ _ HK) as Wlo. cbn [krep] in HK.
  destruct HK as (lo' & hi' & next' & -> & -> & -> & N & CX & CY & HK). exists lo', hi', next'. split; [done|]. split.
  - eapply kids_fill; [exact N|by eapply krep_s64|exact CX|exact CY|by apply kids_pair|].
    by rewrite !cleaves_cons, app_nil_r, next_of_app.
  - by rewrite cleaves_grow, !next_of_app.
Qed.

(** The entries of the parent: the new one goes right after the child that was split. *)
Lemma grow_entries {h} (xs : list (Z * tree h)) c (Tl : tree h) sep (Tr : tree h) ys :
  exists l1 l2, canon (around xs c (tpage Tl) ys) = l1 ++ l2 /\ len l1 = len xs + 1 /\
    canon (entries_of (grow xs c Tl sep Tr ys)) = l1 ++ mkInternalEntry sep (tpage Tr) 0 :: l2.
Proof.
  exists (canon (entries_of xs ++ [mkInternalEntry c (tpage Tl) 0])), (entries_of ys).
  assert (Hn : entries_of xs ++ [mkInternalEntry c (tpage Tl) 0] <> []) by (by destruct (entries_of xs)).
  rewrite <- canon_app by done. rewrite <- (canon_app _ (_ :: _)) by done. rewrite <- !app_assoc. split; [done|]. split.
  - rewrite canon_length, length_app. unfold entries_of. rewrite length_fmap. cbn [length]. lia.
  - unfold grow. by rewrite !entries_of_app.
Qed.

(** With room in the parent, the walk ends there. *)
Lemma grown_insert t m m' {H h} (K : ctx H (S h)) p xs c ys (Tl Tr : tree h) sep lo' hi' next' bs :
  node_rep t m (is_root K) (Z.of_nat (S h)) p (around xs c (tpage Tl) ys) lo' hi' ->
  kids t m (grow xs c Tl sep Tr ys) lo' hi' next' ->
  krep t m K p (next_of (cleaves (grow xs c Tl sep Tr ys)) next') lo' hi' next' ->
  node_full t xs ys = false -> placed m' ->
  (forall q, q <> p -> m' !! q = m !! q) -> p ∉ cpages (grow xs c Tl sep Tr ys) -> p ∉ kpages K ->
  m' !! p = Some bs -> inode_page p (Z.of_nat (S h)) (canon (entries_of (grow xs c Tl sep Tr ys))) bs ->
  fits t m' K (p, grow xs c Tl sep Tr ys) lo' hi' next'.
Proof.
  intros N KD HK Nf Bd Fr Np1 Np2 Hm Hp. split.
  - rewrite tleaves_node. eapply krep_frame; [|exact HK]. intros q Hq. apply Fr. by intros ->.
  - eapply trep_kids; [done| |exact Hm|exact Hp|].
    + eapply kids_frame; [|exact KD]. intros q Hq. apply Fr. by intros ->.
    + destruct (nr_size _ _ _ _ _ _ _ _ N) as [Sl Su]. rewrite len_around in Sl, Su. rewrite len_grow. unfold node_full in Nf.
      split; destruct (is_root K); lia.
Qed.

(** Without, the parent is cut in two and the walk goes on. *)
Lemma grown_split t m m' {H h} (K : ctx H (S h)) p r (cs1 cs2 : list (Z * tree h)) b T lo' hi' next' bs1 bs2 :
  kids t m (cs1 ++ (b, T) :: cs2) lo' hi' next' ->
  krep t m K p (next_of (cleaves (cs1 ++ (b, T) :: cs2)) next') lo' hi' next' ->
  cs1 <> [] -> inode_size t false (len cs1) -> inode_size t false (len ((b, T) :: cs2)) -> placed m' ->
  (forall q, q <> p -> q <> r -> m' !! q = m !! q) ->
  (forall q, q = p \/ q = r -> (q ∉ cpages (cs1 ++ (b, T) :: cs2)) /\ (q ∉ kpages K)) ->
  m' !! p = Some bs1 -> inode_page p (Z.of_nat (S h)) (canon (entries_of cs1)) bs1 ->
  m' !! r = Some bs2 -> inode_page r (Z.of_nat (S h)) (canon (entries_of ((b, T) :: cs2))) bs2 ->
  @grown t m' H (S h) K (p, cs1) (r, (b, T) :: cs2) b lo' hi' next'.
Proof.
  intros KD HK Hne S1 S2 Bd Fr Nq Hm1 Hp1 Hm2 Hp2.
  assert (Fr' : forall q, q ∈ cpages (cs1 ++ (b, T) :: cs2) \/ q ∈ kpages K -> m' !! q = m !! q).
  { intros q Hq. apply Fr; intros ->; [destruct (Nq p)|destruct (Nq r)]; tauto. }
  assert (KD' : kids t m' (cs1 ++ (b, T) :: cs2) lo' hi' next') by (eapply kids_frame; [|exact KD]; auto).
  destruct (kids_cut _ _ _ _ _ _ _ _ _ KD' Hne) as (K1 & K2 & Hlo & Hhi & Wb).
  split; rewrite ?tleaves_node; try done.
  - eapply krep_frame; [|rewrite cleaves_app, next_of_app in HK; exact HK]. auto.
  - by eapply trep_kids.
  - by eapply trep_kids.
  - split; [lia|done].
Qed.

(** A full node and one more child, cut in the middle. *)
Lemma grow_cut t {h} (cs : list (Z * tree h)) :
  FanoutInRange (internal_max_ t) = true -> len cs = internal_max_ t + 1 ->
  let mid := Z.to_nat ((len cs + 1) / 2) in
  exists b T cs2, drop mid cs = (b, T) :: cs2 /\ take mid cs <> [] /\
    inode_size t false (len (take mid cs)) /\ inode_size t false (len ((b, T) :: cs2)) /\ (0 < mid)%nat.
Proof.
  intros Fi Hl mid. unfold FanoutInRange in Fi. unfold inode_size.
  assert (Hm : (0 < mid < length cs)%nat) by (unfold mid; nlia).
  destruct (drop mid cs) as [|[b T] cs2] eqn:E; [apply (f_equal length) in E; rewrite length_drop in E; cbn in E; lia|].
  exists b, T, cs2. apply (f_equal length) in E. rewrite length_drop in E.
  assert (L1 : len (take mid cs) = Z.of_nat mid) by (rewrite length_take_le by lia; done).
  split_and!; try done; try lia; try (rewrite L1; unfold mid; nlia); try (rewrite <- E; unfold mid in *; nlia).
  intros E'. rewrite E' in L1. cbn in L1. lia.
Qed.

(** The halves [SplitInternal] writes are the entries of the two halves. *)
Lemma split_entries {h} (cs : list (Z * tree h)) b T cs2 e :
  let n := (len cs + 1) / 2 in
  let mid := Z.to_nat n in
  (0 < mid)%nat -> drop mid cs = (b, T) :: cs2 ->
  ikey (nth mid (canon (entries_of cs)) e) = b /\
  canon (slice 0 n (canon (entries_of cs))) = canon (entries_of (take mid cs)) /\
  canon (slice n (len cs - n) (canon (entries_of cs))) = canon (entries_of ((b, T) :: cs2)).
Proof.
  intros n mid Hmid E. destruct cs as [|[c0 T0] cs]; [by destruct mid|]. assert (Em : n = Z.of_nat mid) by lia. unfold slice. fold mid.
  destruct mid as [|mid]; [lia|].
  cbn [Z.to_nat drop] in *. change (canon (entries_of ((c0, T0) :: cs))) with (mkInternalEntry INT64_MIN (tpage T0) 0 :: entries_of cs).
  assert (Ed : drop mid (entries_of cs) = entries_of ((b, T) :: cs2)) by (unfold entries_of; rewrite <- fmap_drop; by rewrite E).
  cbn [take drop nth]. split; [|split].
  - assert (L : entries_of cs !! mid = Some (mkInternalEntry b (tpage T) 0)).
    { rewrite <- (Nat.add_0_r mid), <- lookup_drop, Ed. done. }
    by rewrite (nth_lookup_Some _ _ _ _ L).
  - change (mkInternalEntry INT64_MIN (tpage T0) 0 :: take mid (entries_of cs) = mkInternalEntry INT64_MIN (tpage T0) 0 :: entries_of (take mid cs)).
    unfold entries_of. by rewrite fmap_take.
  - rewrite Ed. rewrite take_ge; [done|]. apply (f_equal length) in E. rewrite length_drop in E.
    unfold entries_of. rewrite length_fmap. cbn [length] in E, Em |- *. lia.
Qed.

Section insert.
Context {S : Type} `{!PageStore S, !PageStoreLaws S}.
Context (cap : Z).

(** A write guard held on page [p]. *)
Definition held (gs : list PageGuard) (g : PageGuard) (p : Z) : Prop := g ∈ gs /\ g_write g = true /\ g_page g = p.

Lemma wp_count_full t m gs {H h} (K : ctx H h) up pg first lo hi next :
  krep t m K pg first lo hi next -> Forall2 (held gs) up (kpath K) ->
  wp cap 0 (count_full t up) m gs (fun n m' gs' => n = kfull t K /\ m' = m /\ gs' = gs).
Proof.
  revert up pg first lo hi next. induction K as [|h p xs c ys K IH]; intros up pg first lo hi next HK Hu; cbn [kpath] in Hu.
  - apply Forall2_nil_inv_r in Hu as ->. by apply wp_cret.
  - apply Forall2_cons_inv_r in Hu as (g & up' & (Hg & Gw & Gp) & Hu & ->). cbn [krep] in HK.
    destruct HK as (lo' & hi' & next' & _ & _ & _ & N & _ & _ & HK). destruct (nr_page _ _ _ _ _ _ _ _ N) as (bs & Hm & Hp).
    cbn [count_full kfull]. apply (wp_bind _ 0); [lia|]. eapply wp_internal_view; [lia|done|done|exact Hm|exact Hp|]. intros tail Ok.
    unfold IsInternalFull, node_full. rewrite Count_inode, canon_length, len_around by done. destruct (internal_max_ t <=? _); cbn [negb].
    + apply (wp_bind _ 0); [lia|]. eapply wp_mono; [reflexivity| |eapply IH; [exact HK|exact Hu]].
      intros n m' gs' (-> & -> & ->). by apply wp_cret.
    + by apply wp_cret.
Qed.

(** ** Allocation *)

(** Fresh pages under write guards, over a store that had none of them. *)
Record allocated (m0 : pages_t) (pages : list PageGuard) (m : pages_t) : Prop := {
  al_new g : g ∈ pages -> m0 !! g_page g = None /\ m !! g_page g = Some (fresh_page (g_page g)) /\ g_write g = true;
  al_NoDup : NoDup (g_page <$> pages);
  al_frame q : q ∉ g_page <$> pages -> m !! q = m0 !! q
}.

Lemma allocated_more m0 pages m g :
  allocated m0 pages m -> m !! g_page g = None -> g_write g = true ->
  allocated m0 (pages ++ [g]) (<[g_page g := fresh_page (g_page g)]> m).
Proof.
  intros [An ND Fr] Hg Gw. assert (Ng : g_page g ∉ g_page <$> pages).
  { intros (g' & E & Hg')%list_elem_of_fmap. destruct (An g' Hg') as (_ & Hs & _). rewrite E, Hs in Hg. done. }
  split.
  - intros g' [Hg'| ->%list_elem_of_singleton]%elem_of_app.
    + destruct (An g' Hg') as (H1 & H2 & H3). rewrite lookup_insert_ne; [done|]. intros E. apply Ng. rewrite E. by apply list_elem_of_fmap_2.
    + rewrite lookup_insert_eq, <- (Fr _ Ng). done.
  - rewrite fmap_app. apply NoDup_app. split; [done|]. split; [|apply NoDup_singleton]. intros q Hq ->%list_elem_of_singleton. done.
  - intros q. rewrite fmap_app, elem_of_app. intros Hq. rewrite lookup_insert_ne; [apply Fr; tauto|].
    intros <-. apply Hq. right. by left.
Qed.

Lemma wp_delete_all c ids m gs Q :
  len ids <= c -> NoDup ids -> (forall id, id ∈ ids -> is_Some (m !! id) /\ forall g, g ∈ gs -> g_page g <> id) ->
  (forall m', (forall q, q ∈ ids -> m' !! q = None) -> (forall q, q ∉ ids -> m' !! q = m !! q) -> Q tt m' gs) ->
  wp cap c (delete_all ids) m gs Q.
Proof.
  revert c m. induction ids as [|id ids IH]; intros c m Hc ND Hid HQ; cbn [delete_all length] in *.
  - apply wp_cret; [lia|]. apply HQ; [by intros q Hq%elem_of_nil|done].
  - apply NoDup_cons in ND as [Nid ND]. destruct (Hid id ltac:(by left)) as [[bs Hm] Hg].
    apply (wp_bind _ 1); [lia|]. apply wp_delete; [lia| |].
    + intros _. apply IH; [lia|done| |].
      * intros q Hq. destruct (Hid q ltac:(by right)) as [Hs Hgq]. split; [|done]. rewrite lookup_delete_ne; [done|]. by intros ->.
      * intros m' H1 H2. apply HQ; intros q.
        -- intros [->|Hq]%elem_of_cons; [|by apply H1]. destruct (decide (id ∈ ids)) as [Hin|Hn]; [by apply H1|]. by rewrite H2, lookup_delete_eq.
        -- rewrite not_elem_of_cons. intros [Nq Hq]. by rewrite H2, lookup_delete_ne.
    + intros e _ [Hn|(g & Hg1 & Hg2)]; [congruence|by destruct (Hg g Hg1)].
Qed.

Lemma wp_AllocatePages n m0 gs0 pages m :
  allocated m0 pages m -> (forall g, g ∈ gs0 -> is_Some (m0 !! g_page g)) ->
  wp cap (Z.of_nat n + 2 * (len pages + Z.of_nat n)) (AllocatePages n pages) m (reverse pages ++ gs0) (fun r m' gs' =>
    match r with
    | Ok ps => allocated m0 ps m' /\ length ps = (length pages + n)%nat /\ gs' = reverse ps ++ gs0
    | Error e => ok e = false /\ m' = m0 /\ gs' = gs0 /\ cap < len gs0 + len pages + Z.of_nat n
    end).
Proof.
  intros Al Hgs. revert pages m Al. induction n as [|n IH]; intros pages m Al; cbn [AllocatePages].
  { apply wp_cret; [lia|]. split; [done|]. split; [lia|done]. }
  apply (wp_bind _ 1); [lia|]. apply wp_new; [lia| |].
  - intros g Hn Hb Gw. assert (E : g :: reverse pages ++ gs0 = reverse (pages ++ [g]) ++ gs0) by (by rewrite reverse_app). rewrite E.
    eapply wp_mono; [| |apply (IH (pages ++ [g])); by apply allocated_more].
    + rewrite length_app. cbn [length]. lia.
    + intros [ps|e] m' gs' R.
      * destruct R as (R1 & R2 & ->). split; [done|]. split; [|done]. rewrite R2, length_app. cbn [length]. lia.
      * destruct R as (R1 & R2 & R3 & R4). split_and!; try done. rewrite length_app in R4. cbn [length] in R4. lia.
  - intros e He Hc. apply (wp_bind _ (len pages)); [lia|]. eapply (wp_drop_all cap _ _ _ _ gs0); [done|by rewrite reverse_Permutation|].
    apply (wp_bind _ (len pages)); [lia|]. apply wp_delete_all; [by rewrite length_fmap|apply Al| |].
    + intros id (g & -> & Hg)%list_elem_of_fmap. destruct (al_new _ _ _ Al g Hg) as (H1 & H2 & _). split; [by rewrite H2|].
      intros g' Hg' E. apply Hgs in Hg'. rewrite E, H1 in Hg'. by destruct Hg'.
    + intros m' H1 H2. apply wp_cret; [lia|]. split; [done|]. split.
      * apply map_eq. intros q. destruct (decide (q ∈ g_page <$> pages)) as [Hq|Hq].
        -- rewrite H1 by done. apply list_elem_of_fmap in Hq as (g & -> & Hg). by destruct (al_new _ _ _ Al g Hg) as (-> & _).
        -- rewrite H2 by done. by apply Al.
      * split; [done|]. rewrite length_app, length_reverse in Hc. lia.
Qed.
(** ** The walk up *)

(** What the walk leaves: a tree over the same leaves, on the pages it was given. *)
Definition walked (t : BPlusTree) (m : pages_t) (L : list (Z * list LeafEntry)) (ps : list Z) (m' : pages_t) : Prop :=
  exists H' (T' : tree H'), tree_ok t m' T' /\ tleaves T' = L /\ tpages T' ≡ₚ ps /\
    forall q, q ∉ header_page_id_ t :: ps -> m' !! q = m !! q.

Lemma walked_mono t m1 m L L' ps ps' m' :
  walked t m1 L' ps' m' -> L' = L -> ps' ≡ₚ ps -> (forall q, q ∉ header_page_id_ t :: ps -> m1 !! q = m !! q) -> walked t m L ps m'.
Proof.
  intros (H' & T' & K & EL & EP & Fr) <- P Fr'. exists H', T'. split_and!; try done; [by rewrite EP|].
  intros q Hq. rewrite Fr; [by apply Fr'|]. by rewrite P.
Qed.

(** A new root above the two halves of the old one. *)
Lemma grown_root t m m' {h} (Tl Tr : tree h) sep lo hi next r bs bs' :
  grown t m top Tl Tr sep lo hi next -> placed m' ->
  FanoutInRange (leaf_max_ t) = true /\ FanoutInRange (internal_max_ t) = true ->
  (forall q, q <> r -> q <> header_page_id_ t -> m' !! q = m !! q) ->
  NoDup (header_page_id_ t :: tpages Tl ++ tpages Tr ++ [r]) ->
  m' !! r = Some bs -> inode_page r (Z.of_nat (Datatypes.S h)) (canon (entries_of [(INT64_MIN, Tl); (sep, Tr)])) bs ->
  m' !! header_page_id_ t = Some bs' ->
  header_page (header_page_id_ t) (mkIndexHeader r (Z.of_nat (Datatypes.S h) + 1) (leaf_max_ t) (internal_max_ t) 0) bs' ->
  walked t m (tleaves Tl ++ tleaves Tr) (tpages Tl ++ tpages Tr ++ [r]) m'.
Proof.
  intros [(-> & -> & ->) Hl Hr Hs Rs Ws] Bd Fo Fr ND Hm Hp Hm' Hp'.
  apply NoDup_cons in ND as [Nh ND]. assert (ND' := ND). rewrite app_assoc in ND'. apply NoDup_app in ND' as (_ & Nr & _).
  assert (Fr' : forall q, q ∈ tpages Tl ++ tpages Tr -> m' !! q = m !! q).
  { intros q Hq. apply Fr; intros ->; [by apply (Nr _ Hq), list_elem_of_singleton|]. apply Nh. rewrite app_assoc. apply elem_of_app. by left. }
  exists (Datatypes.S h), (r, [(INT64_MIN, Tl); (sep, Tr)]). split; [split; [done| | |]|split; [|split]].
  - exists bs'. by split.
  - eapply trep_kids; [done| |exact Hm|exact Hp|].
    + apply kids_pair; try done; (eapply trep_frame; [|eassumption]); intros q Hq; apply Fr', elem_of_app; auto.
    + destruct Fo as [_ Fi]. unfold FanoutInRange in Fi. split; cbn; nlia.
  - rewrite tpages_node, !cpages_cons, app_nil_r. rewrite app_assoc in Nh, ND. rewrite (Permutation_app_comm _ [r]) in Nh, ND. by apply NoDup_cons.
  - by rewrite tleaves_node, !cleaves_cons, app_nil_r.
  - rewrite tpages_node, !cpages_cons, app_nil_r, app_assoc. by rewrite (Permutation_app_comm _ [r]).
  - intros q Hq. apply Fr; intros ->; apply Hq; [right; rewrite !elem_of_app, list_elem_of_singleton; auto|by left].
Qed.

(** The walk ended at a node with room. *)
Lemma walked_insert t m {H h} (K : ctx H (Datatypes.S h)) p xs c ys (Tl Tr : tree h) sep lo' hi' next' bs :
  node_rep t m (is_root K) (Z.of_nat (Datatypes.S h)) p (around xs c (tpage Tl) ys) lo' hi' ->
  kids t m (grow xs c Tl sep Tr ys) lo' hi' next' ->
  krep t m K p (next_of (cleaves (grow xs c Tl sep Tr ys)) next') lo' hi' next' ->
  node_full t xs ys = false -> placed (<[p := bs]> m) ->
  FanoutInRange (leaf_max_ t) = true /\ FanoutInRange (internal_max_ t) = true ->
  NoDup (header_page_id_ t :: tpages Tl ++ tpages Tr ++ kpages (up p xs c ys K)) ->
  inode_page p (Z.of_nat (Datatypes.S h)) (canon (entries_of (grow xs c Tl sep Tr ys))) bs ->
  (exists bs, m !! header_page_id_ t = Some bs /\
     header_page (header_page_id_ t) (mkIndexHeader (kroot K p) (Z.of_nat H + 1) (leaf_max_ t) (internal_max_ t) 0) bs) ->
  walked t m (kl (up p xs c ys K) ++ tleaves Tl ++ tleaves Tr ++ kr (up p xs c ys K)) (tpages Tl ++ tpages Tr ++ kpages (up p xs c ys K)) (<[p := bs]> m).
Proof.
  intros N KD HK Nf Bd Fo ND Hp (bsh & Hmh & Hph). cbn [kpages kl kr] in *. set (T' := (p, grow xs c Tl sep Tr ys) : tree (Datatypes.S h)).
  assert (P : tpages T' ++ kpages K ≡ₚ tpages Tl ++ tpages Tr ++ p :: cpages xs ++ cpages ys ++ kpages K).
  { unfold T'. rewrite tpages_node, cpages_grow. perm. }
  assert (ND' : NoDup (header_page_id_ t :: tpages T' ++ kpages K)) by (by rewrite P).
  pose proof ND' as ND2. apply NoDup_cons in ND2 as [Nh ND2]. unfold T' in Nh, ND2. rewrite tpages_node in Nh, ND2. cbn [app] in Nh, ND2.
  apply not_elem_of_cons in Nh as [Nh _]. apply NoDup_cons in ND2 as [Np _]. apply not_elem_of_app in Np as [Np1 Np2].
  exists H, (plug K T'). split; [|split; [|split]].
  - eapply tree_ok_plug; [done| | |done].
    + eapply grown_insert; try done; [|apply lookup_insert_eq]. intros q Hq. by rewrite lookup_insert_ne.
    + exists bsh. by rewrite lookup_insert_ne.
  - rewrite tleaves_plug. unfold T'. rewrite tleaves_node, cleaves_grow. by rewrite <- !app_assoc.
  - by rewrite (tpages_plug K), P.
  - intros q Hq. rewrite lookup_insert_ne; [done|]. intros <-. apply Hq. right. rewrite !elem_of_app, elem_of_cons. auto.
Qed.

Definition hdr (t : BPlusTree) (H : nat) (root : Z) : IndexHeader :=
  mkIndexHeader root (Z.of_nat H + 1) (leaf_max_ t) (internal_max_ t) 0.

Lemma hdr_wf t H root :
  FanoutInRange (leaf_max_ t) = true /\ FanoutInRange (internal_max_ t) = true -> (H < 40)%nat -> 2 <= root < 2 ^ 31 -> IndexHeader_wf (hdr t H root).
Proof.
  intros [Fl Fi] Hh Hr. unfold FanoutInRange in Fl, Fi. unfold IndexHeader_wf, hdr. cbn. split_and!; nlia.
Qed.

(** Where the pages of a split stand to each other. *)
Lemma walk_disjoint hd p r (A B X Y R ps : list Z) :
  NoDup (hd :: A ++ B ++ (p :: X ++ Y ++ R) ++ r :: ps) ->
  p <> r /\ (hd <> p /\ hd <> r) /\ (forall q, q = p \/ q = r -> (q ∉ X ++ A ++ B ++ Y) /\ (q ∉ R)) /\
  (forall q, q ∈ ps -> q <> p /\ q <> r).
Proof.
  intros ND. assert (P : hd :: A ++ B ++ (p :: X ++ Y ++ R) ++ r :: ps ≡ₚ hd :: p :: r :: ps ++ (X ++ A ++ B ++ Y) ++ R) by perm.
  rewrite P in ND. rewrite !NoDup_cons in ND. destruct ND as (Nh & Np & Nr & _). rewrite !not_elem_of_cons, !not_elem_of_app in *.
  split; [tauto|]. split; [tauto|]. split; [intros q [->| ->]; rewrite !not_elem_of_app; tauto|]. intros q Hq. split; intros ->; tauto.
Qed.

Lemma perm_split (p r : Z) (C D A B X Y R ps : list Z) :
  C ++ D = X ++ A ++ B ++ Y -> (p :: C) ++ (r :: D) ++ R ++ ps ≡ₚ A ++ B ++ (p :: X ++ Y ++ R) ++ r :: ps.
Proof.
  intros E. transitivity (p :: r :: (C ++ D) ++ R ++ ps); [perm|]. rewrite E. perm.
Qed.

(** One full node: its right half goes to the page under [g'], [k] tells the parent. *)
Lemma wp_up_split t m gs {H h} (K : ctx H (Datatypes.S h)) p r xs c ys (Tl Tr : tree h) sep lo' hi' next' g g' bs tail c0 (k : Z -> C S Status) Q :
  node_rep t m (is_root K) (Z.of_nat (Datatypes.S h)) p (around xs c (tpage Tl) ys) lo' hi' ->
  kids t m (grow xs c Tl sep Tr ys) lo' hi' next' ->
  krep t m K p (next_of (cleaves (grow xs c Tl sep Tr ys)) next') lo' hi' next' ->
  node_full t xs ys = true -> placed m -> FanoutInRange (leaf_max_ t) = true /\ FanoutInRange (internal_max_ t) = true ->
  held gs g p -> held gs g' r -> m !! p = Some bs -> typed_page p INDEX_INTERNAL bs -> m !! r = Some (fresh_page r) -> p <> r ->
  (forall q, q = p \/ q = r -> (q ∉ cpages xs ++ tpages Tl ++ tpages Tr ++ cpages ys) /\ (q ∉ kpages K)) ->
  inode_ok (Z.of_nat (Datatypes.S h)) (canon (around xs c (tpage Tl) ys)) tail -> 0 <= c0 ->
  (forall b T cs1 cs2 m', grow xs c Tl sep Tr ys = cs1 ++ (b, T) :: cs2 ->
     @grown t m' H (Datatypes.S h) K (p, cs1) (r, (b, T) :: cs2) b lo' hi' next' ->
     (forall q, q <> p -> q <> r -> m' !! q = m !! q) -> wp cap c0 (k b) m' gs Q) ->
  wp cap (3 + c0)
    (set_header g' (EType INDEX_INTERNAL) ;;;
     do right_ <- internal_view g' ;
     let parent := inode (Z.of_nat (Datatypes.S h)) (canon (around xs c (tpage Tl) ys)) tail in
     let init := InternalNode.Init (Level parent) right_ in
     asserting (InternalNode.Init_asserts (Level parent) && SplitInternal_asserts parent init (u16 (len xs + 1))) (
     let '(sep, parent, right_) := SplitInternal parent init (u16 (len xs + 1)) (mkInternalEntry sep (tpage Tr) 0) in
     set_body g parent ;;; set_body g' right_ ;;; k sep))%client m gs Q.
Proof.
  intros N KD HK Nf Bd Fo (Hg & Gw & Gp) (Hg' & Gw' & Gp') Hm Ty Hm' Npr Nq Ok Hc Hk. set (cs := grow xs c Tl sep Tr ys) in *.
  destruct (nr_size _ _ _ _ _ _ _ _ N) as [_ Su]. rewrite len_around in Su. set (lvl := Z.of_nat (Datatypes.S h)) in *.
  assert (Cap : internal_max_ t <= NODE_CAPACITY) by (destruct Fo as [_ Fi]; unfold FanoutInRange in Fi; lia).
  assert (Hlen : len cs = internal_max_ t + 1) by (unfold cs; rewrite len_grow; unfold node_full in Nf; lia).
  destruct (grow_cut t cs (proj2 Fo) Hlen) as (b & T & cs2 & Ed & Hne & S1 & S2 & Hmid).
  destruct (split_entries cs b T cs2 (mkInternalEntry sep (tpage Tr) 0) Hmid Ed) as (Eb & Es1 & Es2).
  set (n := (len cs + 1) / 2) in *. set (cs1 := take (Z.to_nat n) cs) in *.
  assert (Ecut : cs = cs1 ++ (b, T) :: cs2) by (unfold cs1; by rewrite <- Ed, take_drop).
  eapply wp_fresh_inode; [lia|done|done|done|exact Hm'|]. intros bs0 Ty0. cbv zeta.
  assert (EL : Level (inode lvl (canon (around xs c (tpage Tl) ys)) tail) = lvl) by (unfold Level; by rewrite Header_inode).
  rewrite EL, Init_inode by apply Ok.
  destruct (grow_entries xs c Tl sep Tr ys) as (l1 & l2 & E1 & El1 & E2). fold cs in E2.
  replace (u16 (len xs + 1)) with (len l1) by (rewrite u16_id; [lia|unfold is_u16; nlia]). rewrite E1 in Ok |- *.
  assert (K0 : inode_ok lvl [] (zeros 8)) by (split; [apply Ok|cbn; nlia|constructor|done]).
  rewrite asserting_ok.
  2: { unfold InternalNode.Init_asserts. rewrite SplitInternal_asserts_inode; [|done|done| |lia].
       - unfold lvl. asserts.
       - rewrite <- E1, canon_length, len_around. destruct Fo as [_ Fi]. unfold FanoutInRange in Fi. unfold node_full in Nf. nlia. }
  rewrite (SplitInternal_inode _ l1 l2 _ tail [] (zeros 8) Ok K0) by (rewrite <- E1, canon_length, len_around; lia). rewrite <- E2.
  assert (Elen : len (canon (entries_of cs)) = len cs) by (rewrite canon_length; unfold entries_of; by rewrite length_fmap).
  rewrite Elen. fold n. rewrite Eb, Es1, Es2.
  rewrite Ecut in KD. destruct (kids_cut _ _ _ _ _ _ _ _ _ KD Hne) as (K1 & K2 & _).
  apply (wp_bind _ 1); [lia|]. eapply wp_set_inode; [lia|done|done|exact Gp|by rewrite lookup_insert_ne|exact Ty| |].
  { eapply kids_ok; [exact Bd|exact K1|apply Ok|destruct S1; lia|apply Ok]. }
  intros bs1 Hp1. apply (wp_bind _ 1); [lia|].
  eapply wp_set_inode; [lia|done|done|exact Gp'|by rewrite lookup_insert_ne, lookup_insert_eq|exact Ty0| |].
  { eapply kids_ok; [exact Bd|exact K2|apply Ok|destruct S2; lia|done]. }
  intros bs2 Hp2. apply wp_pages. intros Bd'. eapply wp_mono; [| |eapply (Hk b T cs1 cs2); [done| |]]; [lia|done|..].
  - rewrite Ecut in HK. eapply grown_split; [exact KD|exact HK|done|done|done|exact Bd'| | | |exact Hp1| |exact Hp2].
    + intros q Nq1 Nq2. by rewrite !lookup_insert_ne.
    + intros q Hq. rewrite <- Ecut. unfold cs. rewrite cpages_grow. by apply Nq.
    + by rewrite lookup_insert_ne, lookup_insert_eq.
    + apply lookup_insert_eq.
  - intros q Nq1 Nq2. by rewrite !lookup_insert_ne.
Qed.

Lemma wp_Insert_up t path gs {H h} (K : ctx H h) m us pages sep (Tl Tr : tree h) lo hi next :
  grown t m K Tl Tr sep lo hi next -> FanoutInRange (leaf_max_ t) = true /\ FanoutInRange (internal_max_ t) = true -> (H < 31)%nat ->
  header path = hdr t H (kroot K (tpage Tl)) -> held gs (header_guard path) (header_page_id_ t) ->
  (exists bs, m !! header_page_id_ t = Some bs /\ header_page (header_page_id_ t) (header path) bs) ->
  Forall2 (held gs) us.*1 (kpath K) -> us.*2 = kindexes K ->
  Forall (fun g => held gs g (g_page g) /\ m !! g_page g = Some (fresh_page (g_page g))) pages -> length pages = need t K ->
  NoDup (header_page_id_ t :: tpages Tl ++ tpages Tr ++ kpages K ++ (g_page <$> pages)) ->
  wp cap (4 + 4 * len (kpath K)) (Insert_up t path us pages sep (tpage Tr)) m gs (fun st m' gs' => st = StatusOK /\ gs' = gs /\
    walked t m (kl K ++ tleaves Tl ++ tleaves Tr ++ kr K) (tpages Tl ++ tpages Tr ++ kpages K ++ (g_page <$> pages)) m').
Proof.
  intros G Fo HH. revert m us pages sep Tl Tr lo hi next G. induction K as [|h p xs c ys K IH];
    intros m us pages sep Tl Tr lo hi next G Eh Hh Hhp Hu Hi Hpg Hn ND; apply wp_pages; intros Bd.
  - (* the root was split *)
    cbn [kpath] in Hu. apply Forall2_nil_inv_r in Hu. destruct us; [|done]. cbn [need] in Hn.
    destruct pages as [|g [|]]; [done| |done]. apply Forall_cons in Hpg as [[(Hg & Gw & _) Hm] _]. cbn [Insert_up]. set (r := g_page g) in *.
    destruct (Bd _ _ Hm) as [_ Br]. eapply wp_fresh_inode; [cbn; lia|done|done|reflexivity|exact Hm|]. fold r. intros bs0 Ty. cbv zeta.
    cbn [kroot] in Eh. rewrite Eh. cbn [hdr height root_page_id leaf_max internal_max ih_reserved].
    assert (Wl : is_u16 (Z.of_nat H + 1)) by (unfold is_u16; lia). rewrite Init_inode by done.
    assert (K0 : inode_ok (Z.of_nat H + 1) [] (zeros 8)) by (split; [done|cbn; nlia|constructor|done]). rewrite asserting_ok by (unfold InternalNode.Init_asserts, InternalNode.Assign_asserts; cbn [length]; asserts).
    rewrite (iAssign_inode _ []) by (done || cbn; nlia).
    change [mkInternalEntry INT64_MIN (tpage Tl) 0; mkInternalEntry sep (tpage Tr) 0] with (entries_of [(INT64_MIN, Tl); (sep, Tr)]).
    pose proof G as [(-> & -> & ->) Hl Hr Hs Rs Ws]. 
    assert (KD : kids t m [(INT64_MIN, Tl); (sep, Tr)] INT64_MIN None INVALID_PAGE) by (by apply kids_pair).
    apply (wp_bind _ 1); [cbn; lia|]. eapply wp_set_inode; [lia|done|done|reflexivity|apply lookup_insert_eq|exact Ty| |].
    { eapply kids_ok; [exact Bd|exact KD|done|cbn; nlia|done]. }
    intros bs1 Hp1. rewrite insert_insert_eq. fold r. cbn [kpages app g_page fmap list_fmap kpath length] in *. fold r in ND.
    assert (Nh : header_page_id_ t <> r).
    { apply NoDup_cons in ND as [Nh _]. intros E. apply Nh. rewrite E, !elem_of_app, list_elem_of_singleton. auto. }
    destruct Hhp as (bsh & Hmh & Hph). destruct Hh as (Hgh & Gwh & Gph).
    apply (wp_bind _ 1); [lia|]. eapply wp_put_index_header; [lia|done|done|done|by rewrite lookup_insert_ne|exact Hph| |].
    { rewrite u16_id by (unfold is_u16; lia). replace (Z.of_nat H + 1 + 1) with (Z.of_nat (Datatypes.S H) + 1) by lia. apply (hdr_wf t (Datatypes.S H) r); [done|lia|done]. }
    intros bs2 Hp2. rewrite u16_id in Hp2 by (unfold is_u16; lia). apply wp_pages. intros Bd'. apply wp_cret; [lia|]. split; [done|]. split; [done|].
    cbn [kl kr]. rewrite app_nil_r. eapply (grown_root t m _ Tl Tr sep _ _ _ r bs1 bs2); [exact G|exact Bd'|done| |done| | |apply lookup_insert_eq|].
    + intros q Nq1 Nq2. by rewrite !lookup_insert_ne.
    + by rewrite lookup_insert_ne, lookup_insert_eq.
    + by replace (Z.of_nat (Datatypes.S H)) with (Z.of_nat H + 1) by lia.
    + by replace (Z.of_nat (Datatypes.S H) + 1) with (Z.of_nat H + 1 + 1) by lia.
  - (* the parent takes the new child *)
    cbn [kpath] in Hu. cbn [kindexes] in Hi. destruct us as [|[g i] us]; [by apply Forall2_nil_inv_l in Hu|]. cbn in Hu, Hi.
    apply Forall2_cons in Hu as [(Hg & Gw & Gp) Hu]. injection Hi as -> Hi.
    destruct (grown_kids _ _ _ _ _ _ _ _ _ _ _ _ _ G) as (lo' & hi' & next' & N & KD & HK).
    destruct (nr_page _ _ _ _ _ _ _ _ N) as (bs & Hm & Hp). destruct (grow_entries xs c Tl sep Tr ys) as (l1 & l2 & E1 & El1 & E2).
    destruct (nr_size _ _ _ _ _ _ _ _ N) as [_ Su]. rewrite len_around in Su.
    assert (Cap : internal_max_ t <= NODE_CAPACITY) by (destruct Fo as [_ Fi]; unfold FanoutInRange in Fi; lia).
    cbn [Insert_up]. apply (wp_bind _ 0); [cbn; lia|]. eapply wp_internal_view; [lia|done|done|exact Hm|exact Hp|]. intros tail Ok. cbv zeta.
    unfold IsInternalFull. rewrite Count_inode, canon_length, len_around by done.
    fold (node_full t xs ys). destruct (node_full t xs ys) eqn:Nf; cbn [negb].
    + (* full: cut it *)
      cbn [need] in Hn. rewrite Nf in Hn. destruct pages as [|g' pages]; [done|]. injection Hn as Hn.
      apply Forall_cons in Hpg as [[Hg' Hm'] Hpg]. rewrite fmap_cons in ND |- *. cbn [kpages] in ND |- *. set (r := g_page g') in *.
      destruct (walk_disjoint _ _ _ _ _ _ _ _ _ ND) as (Npr & Nh & Nq & Nps).
      eapply (wp_mono _ _ (3 + (4 + 4 * len (kpath K)))); [cbn [kpath length]; lia|intros st m' gs' HQ; exact HQ|].
      eapply (wp_up_split t m gs K p r xs c ys Tl Tr sep); try done; [apply Hp|lia|].
      intros b T cs1 cs2 m' Ecut G' Fr. pose proof (cpages_grow xs c Tl sep Tr ys) as Ecp. pose proof (cleaves_grow xs c Tl sep Tr ys) as Ecl.
      rewrite Ecut in Ecp, Ecl. rewrite cpages_app in Ecp. rewrite cleaves_app in Ecl.
      eapply wp_mono; [reflexivity| |apply (IH m' us pages b _ _ _ _ _ G'); try done].
      * intros st m'' gs' (-> & -> & W). split; [done|]. split; [done|]. eapply walked_mono; [exact W| | |].
        -- rewrite !tleaves_node. cbn [kl kr]. rewrite (app_assoc (cleaves cs1)), Ecl. by rewrite <- !app_assoc.
        -- rewrite !tpages_node. by apply perm_split.
        -- intros q Hq. apply Fr; intros ->; apply Hq; cbn [kpages]; rewrite !elem_of_cons, !elem_of_app, !elem_of_cons; auto 10.
      * destruct Hhp as (bsh & Hmh & Hph). exists bsh. rewrite Fr by apply Nh. done.
      * apply Forall_forall. intros g0 Hg0. rewrite Forall_forall in Hpg. destruct (Hpg g0 Hg0) as [H1 H2]. split; [done|].
        rewrite Fr; [done|..]; intros E; destruct (Nps (g_page g0)) as [? ?]; try done; by apply list_elem_of_fmap_2.
      * rewrite !tpages_node. rewrite (perm_split p r _ _ _ _ _ _ _ _ Ecp). exact ND.
    + replace (u16 (len xs + 1)) with (len l1) by (rewrite u16_id; [lia|unfold is_u16; nlia]).
      rewrite E1 in Ok |- *. apply (wp_bind _ 1); [cbn; lia|].
      rewrite asserting_ok by (apply iInsertAt_asserts_inode; [done|rewrite <- E1, canon_length, len_around; unfold node_full in Nf; lia|lia]).
      rewrite iInsertAt_inode by (done || rewrite <- E1, canon_length, len_around; unfold node_full in Nf; lia).
      rewrite <- E2. eapply wp_set_inode; [lia|done|done|exact Gp|exact Hm|apply Hp| |].
      { eapply kids_ok; [exact Bd|exact KD|apply Ok|rewrite len_grow; unfold node_full in Nf; lia|apply Ok]. }
      intros bs1 Hp1. apply wp_pages. intros Bd'. apply wp_cret; [cbn; lia|]. split; [done|]. split; [done|].
      cbn [need] in Hn. rewrite Nf in Hn. destruct pages; [|done]. cbn [fmap list_fmap] in *. rewrite app_nil_r in *.
      rewrite Eh in Hhp. by eapply walked_insert.
Qed.
End insert.
