(* ===== verification/BPlusTreeInsertTop.v ===== *)
(** * Insertion into a B+tree: the leaf and the whole operation *)

From stdpp Require Import gmap.
From S2P Require Import Prelude Common NodeArray LeafNode LeafNodeProofs LeafNodeTheorems.
From S2P Require Import InternalNode InternalNodeProofs InternalNodeTheorems.
From S2P Require Import BufferPool BufferPoolOps PoolRefine PageStore PageStoreLogic.
From S2P Require Import BPlusTree BPlusTreeSpec BPlusTreePath BPlusTreeRead BPlusTreeWrite BPlusTreeKids BPlusTreeInsert.

(** ** The entries *)

(** An entry put in its place among sorted keys is an insertion into the map. *)
Lemma entry_map_insert A e B :
  key e ∉ keys (A ++ B) -> increasing (keys (A ++ B)) -> entry_map (A ++ e :: B) = <[key e := rid e]> (entry_map (A ++ B)).
Proof.
  intros N I. unfold entry_map.
  rewrite (list_to_map_proper ((fun e => (key e, rid e)) <$> (A ++ e :: B)) ((fun e => (key e, rid e)) <$> (e :: A ++ B))).
  - done.
  - rewrite entry_map_keys, keys_app. cbn. fold (keys B). rewrite <- Permutation_middle, <- keys_app. apply NoDup_cons. split; [done|]. by apply increasing_NoDup.
  - by rewrite <- Permutation_middle.
Qed.

(** A valid entry, as the page format can hold it. *)
Definition entry_ok (e : LeafEntry) : Prop := LeafEntry_wf e /\ isValid (rid e) = true.

Lemma leaf_ok_insert next l1 l2 tail e :
  leaf_ok next (l1 ++ l2) tail -> LeafEntry_wf e -> len (l1 ++ l2) < NODE_CAPACITY -> leaf_ok next (l1 ++ e :: l2) tail.
Proof.
  intros Ok We Hc. eapply leaf_ok_entries; [done|rewrite length_app in *; cbn [length]; lia|].
  pose proof (lok_entries _ _ _ Ok) as W. apply Forall_app in W as [W1 W2]. apply Forall_app. split; [done|]. by constructor.
Qed.

(** The leaf a new key belongs to, and its place there. *)
Record slot_for (t : BPlusTree) (m : pages_t) {H} (T : tree H) (e : LeafEntry) (K : ctx H 0) (p : Z) (l1 l2 : list LeafEntry)
    (lo : Z) (hi : option Z) (next : Z) : Prop := {
  sf_at : leaf_at t m T (key e) K (p, l1 ++ l2) lo hi next;
  sf_below : Forall (fun x => key x < key e) l1;
  sf_above : Forall (fun x => key e < key x) l2
}.

Lemma slot_keys t m {H} (T : tree H) e K p l1 l2 lo hi next :
  slot_for t m T e K p l1 l2 lo hi next -> leaf_inv next (l1 ++ l2) -> isValid (rid e) = true ->
  leaf_inv next (l1 ++ e :: l2) /\ Forall (in_range lo hi) (keys (l1 ++ e :: l2)) /\
  index_contents T !! key e = None.
Proof.
  intros [At F1 F2] Inv Ve. pose proof At as [[_ (_ & _ & R & _)] [Hk _]]. cbn [snd] in R. rewrite keys_app in R. apply Forall_app in R as [R1 R2].
  assert (N : key e ∉ keys (l1 ++ l2)).
  { rewrite keys_app, elem_of_app. rewrite Forall_forall in F1, F2. intros [Hx|Hx]; apply elem_of_keys in Hx as (x & E & Hx); [apply F1 in Hx|apply F2 in Hx]; lia. }
  split; [|split].
  - apply leaf_inv_insert; [done|done|]. apply ordered_insert; try done; [apply Inv|]. eapply Forall_impl; [exact F2|]. cbn. lia.
  - rewrite keys_app. apply Forall_app. split; [done|]. by constructor.
  - destruct (leaf_at_keys _ _ _ _ _ _ _ _ _ At) as (ET & Fl & Fr). cbn [snd] in ET.
    change (entry_map (tentries T) !! key e = None). apply entry_map_None. rewrite ET, !keys_app, !elem_of_app.
    rewrite keys_app, elem_of_app in N. rewrite Forall_forall in Fl, Fr. intros [Hx|[Hx|Hx]]; [apply Fl in Hx; lia|tauto|apply Fr in Hx; lia].
Qed.

(** What any tree with the new entry in its place stands for. *)
Lemma slot_contents t m {H H'} (T : tree H) (T' : tree H') e K p l1 l2 lo hi next :
  slot_for t m T e K p l1 l2 lo hi next -> increasing (keys (tentries T)) -> index_contents T !! key e = None ->
  tentries T' = (kl K ≫= snd) ++ (l1 ++ e :: l2) ++ (kr K ≫= snd) ->
  index_contents T' = <[key e := rid e]> (index_contents T).
Proof.
  intros [At _ _] I N ET'. destruct (leaf_at_keys _ _ _ _ _ _ _ _ _ At) as (ET & _). cbn [snd] in ET.
  change (entry_map (tentries T) !! key e = None) in N. change (entry_map (tentries T') = <[key e := rid e]> (entry_map (tentries T))).
  assert (E : tentries T = ((kl K ≫= snd) ++ l1) ++ l2 ++ (kr K ≫= snd)) by (by rewrite ET, <- !app_assoc).
  assert (E' : tentries T' = ((kl K ≫= snd) ++ l1) ++ e :: l2 ++ (kr K ≫= snd)) by (by rewrite ET', <- !app_assoc).
  rewrite E' . rewrite E in I, N |- *. apply entry_map_insert; [|done]. by apply entry_map_None.
Qed.

Lemma kindexes_length {H h} (K : ctx H h) : length (kindexes K) = length (kpath K).
Proof. induction K as [|h p xs c ys K IH]; cbn [kindexes kpath length]; lia. Qed.

Section insert.
Context {S : Type} `{!PageStore S, !PageStoreLaws S}.
Context (cap : Z).

(** ** With room in the leaf *)

Lemma slot_insert t m {H} (T : tree H) e K p l1 l2 lo hi next bs :
  tree_ok t m T -> slot_for t m T e K p l1 l2 lo hi next -> leaf_inv next (l1 ++ l2) -> isValid (rid e) = true ->
  len (l1 ++ l2) < leaf_max_ t -> leaf_page p next (l1 ++ e :: l2) bs ->
  tree_ok t (<[p := bs]> m) (plug K ((p, l1 ++ e :: l2) : tree 0)) /\
  tpages (plug K ((p, l1 ++ e :: l2) : tree 0)) ≡ₚ tpages T.
Proof.
  intros HT Sl Inv Ve Hr Hp. destruct (slot_keys _ _ _ _ _ _ _ _ _ _ _ Sl Inv Ve) as (Inv' & R' & _).
  destruct (sf_at _ _ _ _ _ _ _ _ _ _ _ Sl) as [[HK (_ & _ & _ & Sz)] [_ EP]]. destruct HT as [Fo (bsh & Hmh & Hph) _ ND].
  rewrite <- EP in ND, Hph |- *. rewrite !(tpages_plug K) in *. cbn [tpages fst] in *. unfold header_of_tree in Hph. rewrite tpage_plug in Hph.
  apply NoDup_cons in ND as [Nh ND]. cbn [app] in Nh, ND. apply not_elem_of_cons in Nh as [Nh Nh']. apply NoDup_cons in ND as [Np ND].
  split; [|done]. eapply tree_ok_plug; [done| | |cbn [tpages fst app]; rewrite !NoDup_cons, not_elem_of_cons; tauto].
  - split.
    + eapply krep_frame; [|exact HK]. intros q Hq. rewrite lookup_insert_ne; [done|]. by intros ->.
    + cbn [trep fst snd]. split; [exists bs; by rewrite lookup_insert_eq|]. split; [done|]. split; [done|].
      destruct Sz as [Sl' Su]. cbn [snd] in *. rewrite length_app in *. cbn [length]. unfold leaf_size. destruct (is_root K); lia.
  - exists bsh. by rewrite lookup_insert_ne.
Qed.
(** ** Without: the leaf is cut in two *)

Lemma slot_split t m m' {H} (T : tree H) e (K : ctx H 0) p l1 l2 lo hi next r xs y ys bs1 bs2 :
  slot_for t m T e K p l1 l2 lo hi next -> leaf_inv next (l1 ++ l2) -> isValid (rid e) = true ->
  l1 ++ e :: l2 = xs ++ y :: ys -> xs <> [] -> leaf_size t false (len xs) -> leaf_size t false (len (y :: ys)) -> is_s64 (key y) -> 2 <= r ->
  (forall q, q <> p -> q <> r -> m' !! q = m !! q) -> p ∉ kpages K -> r ∉ kpages K ->
  m' !! p = Some bs1 -> leaf_page p r xs bs1 -> m' !! r = Some bs2 -> leaf_page r next (y :: ys) bs2 ->
  @grown t m' H 0 K (p, xs) (r, y :: ys) (key y) lo hi next.
Proof.
  intros Sl Inv Ve E Hne S1 S2 Wy Hr Fr Np Nr Hm1 Hp1 Hm2 Hp2. destruct (slot_keys _ _ _ _ _ _ _ _ _ _ _ Sl Inv Ve) as (Inv' & R' & _).
  destruct (sf_at _ _ _ _ _ _ _ _ _ _ _ Sl) as [[HK _] _]. rewrite E in Inv', R'. rewrite keys_app in R'. apply Forall_app in R' as [R1 R2].
  destruct (leaf_inv_cut next r xs (y :: ys) Inv') as [I1 I2]; [right; unfold_consts; lia|].
  assert (Hxy : forall x, x ∈ keys xs -> x < key y).
  { intros x (z & -> & Hz)%elem_of_keys. eapply keys_cut; [apply Inv'|done|by left]. }
  assert (Hlo : lo < key y).
  { destruct xs as [|x xs]; [done|]. cbn in R1. apply Forall_cons in R1 as [[R1 _] _]. specialize (Hxy (key x) ltac:(by left)). lia. }
  assert (Ry : in_range lo hi (key y)) by (by apply Forall_cons in R2 as [? _]).
  split; try done.
  - eapply krep_frame; [|exact HK]. intros q Hq. apply Fr; by intros ->.
  - cbn [trep fst snd]. split; [by exists bs1|]. split; [done|]. split; [|done]. rewrite Forall_forall in R1 |- *.
    intros x Hx. split; [by apply R1|by apply Hxy].
  - cbn [trep fst snd]. split; [by exists bs2|]. split; [done|]. split; [|done]. rewrite Forall_forall in R2 |- *.
    intros x Hx. split; [|by apply R2]. destruct I2 as [_ _ I2]. cbn in I2, Hx. apply StronglySorted_cons in I2 as [I2 _].
    apply elem_of_cons in Hx as [->|Hx]; [lia|]. rewrite Forall_forall in I2. apply I2 in Hx. lia.
Qed.

Lemma leaf_cut t {A} (l : list A) e :
  FanoutInRange (leaf_max_ t) = true -> len l = leaf_max_ t + 1 ->
  let n := (len l + 1) / 2 in
  exists y ys, slice n (len l - n) l = y :: ys /\ l = slice 0 n l ++ y :: ys /\ slice 0 n l <> [] /\ nth (Z.to_nat n) l e = y /\
    leaf_size t false (len (slice 0 n l)) /\ leaf_size t false (len (y :: ys)).
Proof.
  intros Fl Hl n. unfold FanoutInRange in Fl. assert (Hn : 0 < n < len l) by (unfold n; nlia).
  destruct (slices_cut n l) as (Ecut & Lx & Ly); [lia|]. destruct (nth_slice_head n (len l - n) l e) as [ys Eh]; [lia..|].
  exists (nth (Z.to_nat n) l e), ys. rewrite Eh in Ecut, Ly. split_and!; try done; try (rewrite Lx || rewrite Ly; unfold leaf_size, n in *; nlia).
  intros E. rewrite E in Lx. cbn in Lx. lia.
Qed.

Lemma wp_Insert_split t path gs {H} (T : tree H) (K : ctx H 0) m e p l1 l2 lo hi next tail bs g us pages :
  tree_ok t m T -> slot_for t m T e K p l1 l2 lo hi next -> leaf_inv next (l1 ++ l2) -> entry_ok e -> (H < 31)%nat ->
  leaf_ok next (l1 ++ l2) tail -> m !! p = Some bs -> leaf_page p next (l1 ++ l2) bs -> leaf_max_ t <= len (l1 ++ l2) ->
  header path = header_of_tree t T -> held gs (header_guard path) (header_page_id_ t) -> held gs g p ->
  Forall2 (held gs) us (kpath K) -> reverse (child_indexes path) = kindexes K ->
  Forall (fun g => held gs g (g_page g) /\ m !! g_page g = Some (fresh_page (g_page g))) pages -> length pages = Datatypes.S (need t K) ->
  NoDup (header_page_id_ t :: tpages T ++ (g_page <$> pages)) ->
  wp cap (8 + 4 * Z.of_nat H) (Insert_split t path g (leaf next (l1 ++ l2) tail) us (len l1) e pages) m gs
    (fun st m' gs' => st = StatusOK /\ gs' = gs /\ exists H' (T' : tree H'), tree_ok t m' T' /\
       tentries T' = (kl K ≫= snd) ++ (l1 ++ e :: l2) ++ (kr K ≫= snd) /\
       tpages T' ≡ₚ tpages T ++ (g_page <$> pages) /\
       forall q, q ∉ header_page_id_ t :: tpages T ++ (g_page <$> pages) -> m' !! q = m !! q).
Proof.
  intros HT Sl Inv [We Ve] HH Ok Hm Hp Hfull Eh Hh (Hg & Gw & Gp) Hu Hi Hpg Hn ND. apply wp_pages. intros Bd.
  destruct pages as [|g' pages]; [done|]. injection Hn as Hn. rewrite fmap_cons in *. apply Forall_cons in Hpg as [[(Hg' & Gw' & _) Hm'] Hpg].
  set (r := g_page g') in *. destruct (Bd _ _ Hm') as [_ Br].
  destruct (sf_at _ _ _ _ _ _ _ _ _ _ _ Sl) as [[HK (_ & _ & _ & Sz)] [_ EP]]. cbn [fst snd] in Sz. destruct HT as [Fo Hhp _ _].
  assert (Cap : leaf_max_ t <= NODE_CAPACITY) by (destruct Fo as [Fl _]; unfold FanoutInRange in Fl; lia).
  assert (P0 : tpages T ≡ₚ p :: kpages K) by (rewrite <- EP; apply (tpages_plug K)).
  assert (P : header_page_id_ t :: tpages T ++ r :: (g_page <$> pages) ≡ₚ header_page_id_ t :: p :: r :: kpages K ++ (g_page <$> pages)).
  { rewrite P0. perm. }
  pose proof ND as ND'. rewrite P in ND'. rewrite !NoDup_cons, !not_elem_of_cons, !not_elem_of_app in ND'. destruct ND' as ((Nh1 & Nh2 & Nh3) & (Npr & Np1 & Np2) & (Nr1 & Nr2) & ND').
  unfold Insert_split. eapply wp_fresh_leaf; [lia|done|done|reflexivity|exact Hm'|]. fold r. intros bs0 Ty0.
  rewrite Init_leaf. assert (K0 : leaf_ok INVALID_PAGE [] (zeros 8)) by (split; [done|cbn; nlia|constructor|done]). cbv zeta.
  rewrite asserting_ok by (apply SplitLeaf_asserts_leaf; [done|done|destruct Fo as [Fl _]; unfold FanoutInRange in Fl; nlia]).
  rewrite (SplitLeaf_leaf next INVALID_PAGE l1 l2 e tail (zeros 8) r Ok K0) by (unfold is_s32; lia).
  set (temp := l1 ++ e :: l2). assert (Ltemp : len temp = leaf_max_ t + 1) by (destruct Sz as [_ Su]; unfold temp; rewrite length_app in *; cbn [length]; lia).
  destruct (leaf_cut t temp e (proj1 Fo) Ltemp) as (y & ys & Ey & Ecut & Hne & Enth & S1 & S2).
  set (n := (len temp + 1) / 2) in *. rewrite Enth, Ey. set (xs := slice 0 n temp) in *.
  assert (Wt : Forall LeafEntry_wf temp).
  { pose proof (lok_entries _ _ _ Ok) as W. apply Forall_app in W as [W1 W2]. apply Forall_app. split; [done|]. by constructor. }
  rewrite Ecut in Wt. apply Forall_app in Wt as [Wx Wy].
  assert (Okx : leaf_ok r xs tail) by (split; [unfold is_s32; lia|destruct S1; lia|done|apply Ok]).
  assert (Oky : leaf_ok next (y :: ys) (zeros 8)) by (split; [apply Ok|destruct S2; lia|done|done]).
  apply (wp_bind _ 1); [lia|]. eapply wp_set_leaf; [lia|done|done|exact Gp|by rewrite lookup_insert_ne|apply Hp|exact Okx|]. intros bs1 Hp1.
  apply (wp_bind _ 1); [lia|]. eapply wp_set_leaf; [lia|done|done|reflexivity|by rewrite lookup_insert_ne, lookup_insert_eq|exact Ty0|exact Oky|]. intros bs2 Hp2. fold r.
  set (m' := <[r := bs2]> _). assert (Fr : forall q, q <> p -> q <> r -> m' !! q = m !! q) by (intros q Q1 Q2; unfold m'; by rewrite !lookup_insert_ne).
  assert (Hm1 : m' !! p = Some bs1) by (unfold m'; by rewrite lookup_insert_ne, lookup_insert_eq).
  assert (Hm2 : m' !! r = Some bs2) by (unfold m'; by rewrite lookup_insert_eq).
  clearbody m'. assert (G : @grown t m' H 0 K (p, xs) (r, y :: ys) (key y) lo hi next).
  { eapply (slot_split t m m' T e K p l1 l2); try done; [|lia]. apply Forall_cons in Wy as [[Wy _] _]. exact Wy. }
  assert (Hlu : length us = length (kindexes K)) by (rewrite kindexes_length; by eapply Forall2_length).
  pose proof (kpath_length K) as HKl. rewrite Hi.
  eapply wp_mono; [| |apply (wp_Insert_up cap t path gs K m' (zip us (kindexes K)) pages (key y) _ _ _ _ _ G Fo HH)].
  - lia.
  - intros st m'' gs' (-> & -> & H' & T' & K' & EL & EP' & Fr'). split; [done|]. split; [done|]. exists H', T'. cbn [tpages fst] in EP', Fr'.
    assert (P' : [p] ++ [r] ++ kpages K ++ (g_page <$> pages) ≡ₚ tpages T ++ r :: (g_page <$> pages)) by (rewrite P0; perm).
    split; [done|]. split; [|split].
    + unfold tentries. rewrite EL, !bind_app. cbn [tleaves]. cbn. rewrite !app_nil_r. fold temp. rewrite Ecut, <- !app_assoc. done.
    + by rewrite EP'.
    + intros q Hq. rewrite Fr' by (by rewrite P'). apply Fr; intros ->; apply Hq; rewrite P, !elem_of_cons; auto.
  - rewrite Eh. unfold header_of_tree, hdr. f_equal. rewrite <- EP, tpage_plug. done.
  - done.
  - destruct Hhp as (bsh & Hmh & Hph). exists bsh. rewrite Fr by done. by rewrite Eh.
  - by rewrite fst_zip by lia.
  - by rewrite snd_zip by lia.
  - apply Forall_forall. intros g0 Hg0. rewrite Forall_forall in Hpg. destruct (Hpg g0 Hg0) as [H1 H2]. split; [done|].
    assert (Hin : g_page g0 ∈ g_page <$> pages) by by apply list_elem_of_fmap_2. rewrite Fr; [done|..]; intros E; by rewrite E in Hin.
  - done.
  - cbn [tpages fst app]. rewrite !NoDup_cons, !not_elem_of_cons, !not_elem_of_app. tauto.
Qed.
(** ** The operation *)

(** What [Insert] may answer, with nothing but the tree's own and fresh pages written. *)
Definition insert_done (t : BPlusTree) (m : pages_t) {H} (T : tree H) (e : LeafEntry) (m' : pages_t) : Prop :=
  exists H' (T' : tree H'), tree_ok t m' T' /\ index_contents T' = <[key e := rid e]> (index_contents T) /\
    (forall q, q ∈ tpages T -> q ∈ tpages T') /\ (forall q, q ∈ tpages T' -> q ∈ tpages T \/ m !! q = None) /\
    (forall q, q ∉ header_page_id_ t :: tpages T' -> m' !! q = m !! q).

Definition insert_post (t : BPlusTree) (m : pages_t) {H} (T : tree H) (e : LeafEntry) (frames : Z) (st : Status) (m' : pages_t) : Prop :=
  (st = StatusOK /\ index_contents T !! key e = None /\ insert_done t m T e m') \/
  (code st = kDuplicateKey /\ is_Some (index_contents T !! key e) /\ m' = m) \/
  (ok st = false /\ m' = m /\ cap < frames).

Lemma wp_CountSplits t m gs {H} (K : ctx H 0) g us p next es bs pg first lo hi nx :
  held gs g p -> m !! p = Some bs -> leaf_page p next es bs -> leaf_max_ t <= len es ->
  krep t m K pg first lo hi nx -> Forall2 (held gs) us (kpath K) -> (H < 31)%nat ->
  wp cap 0 (CountSplits t (g :: us)) m gs (fun n m' gs' => n = 1 + kfull t K /\ m' = m /\ gs' = gs).
Proof.
  intros (Hg & Gw & Gp) Hm Hp Hf HK Hu HH. unfold CountSplits. apply (wp_bind _ 0); [lia|]. eapply wp_leaf_view; [lia|done|done|exact Hm|exact Hp|].
  intros tail Ok. unfold IsLeafFull. rewrite Count_leaf by done. destruct (Z.leb_spec (leaf_max_ t) (len es)); [|lia]. cbn [negb].
  apply (wp_bind _ 0); [lia|]. eapply wp_mono; [reflexivity| |by eapply wp_count_full]. intros n m' gs' (-> & -> & ->). apply wp_cret; [lia|].
  pose proof (kfull_bounds t K). pose proof (kpath_length K). rewrite u16_id by (unfold is_u16; lia). done.
Qed.

Lemma slot_frame t m m' {H} (T : tree H) e K p l1 l2 lo hi next :
  (forall q, q ∈ tpages T -> m' !! q = m !! q) -> slot_for t m T e K p l1 l2 lo hi next -> slot_for t m' T e K p l1 l2 lo hi next.
Proof.
  intros Fr [[[HK HL] [R EP]] F1 F2]. split; [|done|done]. rewrite <- EP in Fr. split; [|done]. split.
  - eapply krep_frame; [|exact HK]. intros q Hq. apply Fr. rewrite (tpages_plug K). apply elem_of_app. by right.
  - eapply trep_frame; [|exact HL]. intros q Hq. apply Fr. rewrite (tpages_plug K). apply elem_of_app. by left.
Qed.

Lemma tree_ok_frame t m m' {H} (T : tree H) :
  (forall q, q ∈ header_page_id_ t :: tpages T -> m' !! q = m !! q) -> tree_ok t m T -> tree_ok t m' T.
Proof.
  intros Fr [Fo (bs & Hm & Hp) HT ND]. split; try done.
  - exists bs. by rewrite Fr by (by left).
  - eapply trep_frame; [|exact HT]. intros q Hq. apply Fr. by right.
Qed.

Lemma tree_dom t m {H} (T : tree H) q : tree_ok t m T -> q ∈ header_page_id_ t :: tpages T -> is_Some (m !! q).
Proof.
  intros [_ (bs & Hm & _) HT _] [->|Hq]%elem_of_cons; [by exists bs|]. by eapply trep_dom.
Qed.

(** Allocating pages leaves a tree alone. *)
Lemma allocated_tree t m {H} (T : tree H) pages m' :
  tree_ok t m T -> allocated m pages m' ->
  (forall q, q ∈ header_page_id_ t :: tpages T -> m' !! q = m !! q) /\
  NoDup (header_page_id_ t :: tpages T ++ (g_page <$> pages)) /\ tree_ok t m' T.
Proof.
  intros HT Al. assert (Dj : forall q, q ∈ header_page_id_ t :: tpages T -> q ∉ g_page <$> pages).
  { intros q Hq (g & -> & Hg)%list_elem_of_fmap. destruct (al_new _ _ _ Al g Hg) as (Hn & _). destruct (tree_dom _ _ _ _ HT Hq). congruence. }
  assert (Fr : forall q, q ∈ header_page_id_ t :: tpages T -> m' !! q = m !! q) by (intros q Hq; by apply (al_frame _ _ _ Al), Dj).
  split; [done|]. split; [|by eapply tree_ok_frame].
  change (NoDup ((header_page_id_ t :: tpages T) ++ (g_page <$> pages))). apply NoDup_app. split; [apply HT|]. split; [done|apply Al].
Qed.

(** The split branch: the pages first, then the leaf and the nodes above it. *)
Lemma wp_Insert_full t path gs {H} (T : tree H) (K : ctx H 0) m e p l1 l2 lo hi next tail bs g us :
  tree_ok t m T -> slot_for t m T e K p l1 l2 lo hi next -> leaf_inv next (l1 ++ l2) -> entry_ok e -> (H < 31)%nat ->
  leaf_ok next (l1 ++ l2) tail -> m !! p = Some bs -> leaf_page p next (l1 ++ l2) bs -> leaf_max_ t <= len (l1 ++ l2) ->
  header path = header_of_tree t T -> held gs (header_guard path) (header_page_id_ t) -> held gs g p ->
  Forall2 (held gs) us (kpath K) -> reverse (child_indexes path) = kindexes K -> len (nodes path) = 1 + len (kpath K) ->
  index_contents T !! key e = None ->
  wp cap (16 + 8 * Z.of_nat H)
    (do splits <- CountSplits t (g :: us) ;
     let new_root := splits =? len (nodes path) in
     do pages <- AllocatePages (Z.to_nat (u16 (splits + if new_root then 1 else 0))) [] ;
     match pages with
     | Error e => cret e
     | Ok pages =>
         do st <- Insert_split t path g (leaf next (l1 ++ l2) tail) us (len l1) e pages ;
         drop_all pages ;;;
         cret st
     end)%client m gs (fun st m' gs' => gs' = gs /\ insert_post t m T e (len gs + Z.of_nat H + 2) st m').
Proof.
  intros HT Sl Inv Oe HH Ok Hm Hp Hfull Eh Hh Hg Hu Hi Hln Hnone. apply wp_guards. intros Hgs.
  destruct (sf_at _ _ _ _ _ _ _ _ _ _ _ Sl) as [[HK _] _]. pose proof (kfull_bounds t K) as Kb. pose proof (kpath_length K) as Kl.
  apply (wp_bind _ 0); [lia|]. eapply wp_mono; [reflexivity| |eapply wp_CountSplits; [exact Hg|exact Hm|exact Hp|done|exact HK|exact Hu|done]].
  intros n m' gs' (-> & -> & ->). cbv zeta. pose proof (need_kfull t K) as Hneed. rewrite Hln.
  replace (1 + kfull t K =? 1 + len (kpath K)) with (kfull t K =? len (kpath K)) by (apply eq_true_iff_eq; rewrite !Z.eqb_eq; lia).
  assert (En : Z.to_nat (u16 (1 + kfull t K + if kfull t K =? len (kpath K) then 1 else 0)) = Datatypes.S (need t K)).
  { rewrite u16_id by (unfold is_u16; destruct (kfull t K =? len (kpath K)); lia). destruct (kfull t K =? len (kpath K)); lia. }
  rewrite En. assert (Hnd : Z.of_nat (Datatypes.S (need t K)) <= Z.of_nat H + 2) by (destruct (kfull t K =? len (kpath K)); lia).
  apply (wp_bind _ (3 * Z.of_nat (Datatypes.S (need t K)))); [lia|].
  eapply wp_mono; [| |apply (wp_AllocatePages cap (Datatypes.S (need t K)) m gs [] m)]; [cbn [length]; lia| |by split; [intros g0 Hg0%elem_of_nil|constructor|]|done].
  intros [pages|er] m' gs' R.
  2: { destruct R as (He & -> & -> & Hc). apply wp_cret; [lia|]. split; [done|]. right. right. split_and!; try done. cbn [length] in Hc. lia. }
  destruct R as (Al & Hlp & ->). cbn [length Nat.add] in Hlp.
  destruct (allocated_tree t m T pages m' HT Al) as (Fr & ND & HT').
  assert (Mono : forall g0 q, held gs g0 q -> held (reverse pages ++ gs) g0 q) by (intros g0 q [H1 H2]; split; [apply elem_of_app; by right|done]).
  apply (wp_bind _ (8 + 4 * Z.of_nat H)); [lia|].
  eapply wp_mono; [reflexivity| |eapply (wp_Insert_split t path _ T K m' e p l1 l2 lo hi next tail bs); try done].
  - intros st m2 gs2 (-> & -> & H' & T' & K' & ET & EP & Fr2). apply (wp_bind _ (Z.of_nat (Datatypes.S (need t K)))); [lia|].
    eapply (wp_drop_all cap _ _ _ _ gs); [lia|by rewrite reverse_Permutation|]. apply wp_cret; [lia|]. split; [done|]. left.
    split; [done|]. split; [done|]. exists H', T'. split; [done|]. split; [eapply slot_contents; [exact Sl|by eapply tree_keys|done|done]|].
    split; [intros q Hq; rewrite EP; apply elem_of_app; by left|]. split.
    + intros q Hq. rewrite EP in Hq. apply elem_of_app in Hq as [Hq|Hq]; [by left|right].
      apply list_elem_of_fmap in Hq as (g0 & -> & Hg0). apply (al_new _ _ _ Al g0 Hg0).
    + intros q Hq. rewrite EP in Hq. rewrite Fr2 by done. apply (al_frame _ _ _ Al). intros Hin. apply Hq. right. apply elem_of_app. by right.
  - eapply slot_frame; [|exact Sl]. intros q Hq. apply Fr. by right.
  - rewrite Fr; [done|]. right. destruct (sf_at _ _ _ _ _ _ _ _ _ _ _ Sl) as (_ & _ & <-). rewrite (tpages_plug K). by left.
  - by apply Mono.
  - by apply Mono.
  - eapply Forall2_impl; [exact Hu|]. exact Mono.
  - apply Forall_forall. intros g0 Hg0. destruct (al_new _ _ _ Al g0 Hg0) as (_ & H2 & H3). split; [|done]. split; [|done].
    apply elem_of_app. left. by rewrite elem_of_reverse.
Qed.
(** The lookup that guards the insertion. *)
Lemma leaf_absent next es tail k :
  leaf_ok next es tail -> increasing (keys es) ->
  let idx := LowerBound k (leaf next es tail) in
  exists l1 l2, es = l1 ++ l2 /\ idx = len l1 /\ Forall (fun e => key e < k) l1 /\
    if (idx <? Count (leaf next es tail)) && (LeafNode.KeyAt idx (leaf next es tail) =? k)
    then exists e, e ∈ es /\ key e = k else Forall (fun e => k < key e) l2.
Proof.
  intros Ok I idx. destruct (leaf_find next es tail k Ok I) as (l1 & l2 & E & Ei & F1 & D). fold idx in Ei, D. exists l1, l2.
  split; [done|]. split; [done|]. split; [done|]. rewrite Count_leaf in D |- * by done.
  assert (Hi : idx <= len es) by (rewrite Ei, E, length_app; lia).
  assert (Eb : (idx <? len es) && (LeafNode.KeyAt idx (leaf next es tail) =? k) = negb ((idx =? len es) || negb (LeafNode.KeyAt idx (leaf next es tail) =? k))).
  { destruct (Z.ltb_spec idx (len es)), (Z.eqb_spec idx (len es)), (LeafNode.KeyAt idx (leaf next es tail) =? k); cbn; lia || done. }
  rewrite Eb. destruct ((idx =? len es) || _); cbn [negb]; [done|]. destruct D as (e & l3 & -> & Ek & _).
  exists e. split; [|done]. rewrite E. apply elem_of_app. right. by left.
Qed.

(** A write path opened for the leaf. *)
Lemma on_path_leaf t hd path p ps is_ gs gs' :
  on_path t hd path (p :: ps) is_ gs gs' ->
  exists g us, reverse (nodes path) = g :: us /\ held gs' g p /\ Forall2 (held gs') us ps /\ held gs' (header_guard path) (header_page_id_ t) /\
    len (nodes path) = 1 + len ps /\ len gs' = len gs + 2 + len ps.
Proof.
  intros [Pg Wr _ Hp Hw _ ->]. assert (Hl : length (reverse (nodes path)) = length (nodes path)) by apply length_reverse.
  destruct (reverse (nodes path)) as [|g us] eqn:E; [done|]. cbn in Pg. injection Pg as Gp Pg.
  apply Forall_cons in Wr as [Gw Wr]. exists g, us. split; [done|]. split; [split; [by left|done]|].
  assert (Hlen : length us = length ps) by (rewrite <- Pg; by rewrite length_fmap).
  split; [|split; [split; [|done]; apply elem_of_app; right; by left|cbn [length] in Hl; rewrite length_app; cbn [length]; lia]].
  rewrite <- Pg. apply Forall2_fmap_r, Forall2_same_length_lookup. split; [done|]. intros i x y Hx Hy. rewrite Hx in Hy. injection Hy as <-.
  rewrite Forall_forall in Wr. pose proof (list_elem_of_lookup_2 _ _ _ Hx) as Hin. split; [|by split; [apply Wr|]].
  apply elem_of_app. left. by right.
Qed.

Lemma wp_IndexInsert t m gs {H} (T : tree H) k r :
  tree_ok t m T -> entry_ok (mkLeafEntry k r) -> unlatched gs (header_page_id_ t :: tpages T) ->
  wp cap (21 + 11 * Z.of_nat H) (Insert t k r) m gs (fun st m' gs' =>
    gs' = gs /\ insert_post t m T (mkLeafEntry k r) (len gs + 2 * Z.of_nat H + 4) st m').
Proof.
  intros HT [We Ve] U. set (e := mkLeafEntry k r) in *. assert (Hk : is_s64 k) by apply We. apply wp_pages. intros Bd.
  assert (HH : (H < 31)%nat) by (by eapply tree_height). unfold Insert.
  apply (wp_bind _ (3 + 2 * Z.of_nat H)); [lia|]. eapply wp_mono; [reflexivity| |by eapply wp_FindLeafWrite]. intros [path|er] m' gs' [-> R].
  2: { destruct R as ([He _] & -> & Hc). apply wp_cret; [lia|]. split; [done|]. right. right. split_and!; try done. lia. }
  destruct R as (K & [p es] & lo & hi & next & At & On). change (tpage ((p, es) : tree 0)) with p in On.
  destruct (leaf_at_page _ _ _ _ _ _ _ _ _ At) as (bs & tail & Hm & EA & Ok & Inv). change (m !! p = Some bs) in Hm. cbn [snd] in Ok, Inv.
  destruct (on_path_leaf _ _ _ _ _ _ _ _ On) as (g & us & En & Hg & Hu & Hh & Hln & Hlg). pose proof (kpath_length K) as HKl.
  assert (Close : forall st m', insert_post t m T e (len gs + 2 * Z.of_nat H + 4) st m' ->
    wp cap (2 + Z.of_nat H) (drop_path path ;;; cret st)%client m' gs' (fun st m' gs'' => gs'' = gs /\ insert_post t m T e (len gs + 2 * Z.of_nat H + 4) st m')).
  { intros st m' Post. apply (wp_bind _ (2 + Z.of_nat H)); [lia|]. eapply wp_mono; [| |eapply wp_drop_path, On]; [cbn [length]; lia|].
    intros _ m'' gs'' [-> ->]. apply wp_cret; [lia|done]. }
  apply (wp_bind _ (16 + 8 * Z.of_nat H)); [lia|]. rewrite En.
  eapply (wp_mono _ _ _ _ _ _ _ (fun st m' gs'' => gs'' = gs' /\ insert_post t m T e (len gs + 2 * Z.of_nat H + 4) st m')); [reflexivity| |].
  { intros st m' gs'' [-> Post]. eapply wp_mono; [| |by apply Close]; [lia|done]. }
  clear Close. assert (Hp : leaf_page p next es bs).
  { destruct At as [[_ ((bs' & Hm' & Hp) & _)] _]. change (m !! p = Some bs') in Hm'. rewrite Hm in Hm'. by injection Hm' as <-. }
  destruct Hg as (Hg & Gw & Gp). apply (wp_bind _ 0); [lia|]. eapply wp_leaf_view; [lia|done|done|exact Hm|exact Hp|]. clear tail EA Ok. intros tail Ok.
  cbv zeta. pose proof (leaf_absent next es tail k Ok (linv_keys _ _ Inv)) as (l1 & l2 & E & Ei & F1 & D). cbv zeta in Ei, D. 
  assert (Hi : len l1 <= len es) by (rewrite E, length_app; lia).
  rewrite asserting_ok by (by apply LowerBound_asserts_leaf). rewrite asserting_ok by (rewrite Ei; by apply EntryAt_guarded). destruct (_ && _).
  { apply wp_cret; [lia|]. split; [done|]. right. left. split; [done|]. split; [|done]. destruct D as ([k' r'] & He & Ek). cbn in Ek. subst k'.
    exists r'. change (entry_map (tentries T) !! k = Some r'). apply entry_map_lookup; [by eapply tree_keys|].
    destruct (leaf_at_keys _ _ _ _ _ _ _ _ _ At) as (-> & _). rewrite !elem_of_app. auto. }
  rewrite Ei. subst es. assert (Sl : slot_for t m T e K p l1 l2 lo hi next) by by split.
  destruct (slot_keys _ _ _ _ _ _ _ _ _ _ _ Sl Inv Ve) as (_ & _ & Hnone).
  unfold IsLeafFull. rewrite Count_leaf by done. destruct (Z.leb_spec (leaf_max_ t) (len (l1 ++ l2))) as [Hf|Hf]; cbn [negb].
  - eapply wp_mono; [| |eapply (wp_Insert_full t path gs' T K m e p l1 l2); try done; apply On]; [lia|]. intros st m' gs'' [-> Post].
    split; [done|]. destruct Post as [P|[P|(P1 & P2 & P3)]]; [by left|by right; left|right; right]. split_and!; try done. lia.
  - assert (Cap : leaf_max_ t <= NODE_CAPACITY) by (destruct (tk_fanout _ _ _ HT) as [Fl _]; unfold FanoutInRange in Fl; lia).
    apply (wp_bind _ 1); [lia|]. rewrite asserting_ok by (apply InsertAt_asserts_leaf; done || lia). rewrite InsertAt_leaf by (done || lia). eapply wp_set_leaf; [lia|done|done|exact Gp|exact Hm|apply Hp|apply leaf_ok_insert; done || lia|].
    intros bs1 Hp1. apply wp_cret; [lia|]. split; [done|]. left. split; [done|]. split; [done|].
    destruct (slot_insert t m T e K p l1 l2 lo hi next bs1 HT Sl Inv Ve Hf Hp1) as [HT' P].
    exists H, (plug K ((p, l1 ++ e :: l2) : tree 0)). split; [done|]. split.
    + eapply slot_contents; [exact Sl|by eapply tree_keys|done|]. unfold tentries. rewrite tleaves_plug, !bind_app. cbn [tleaves]. cbn. by rewrite app_nil_r.
    + split; [intros q; by rewrite P|]. split; [intros q; rewrite P; by left|]. intros q Hq. rewrite P in Hq. rewrite lookup_insert_ne; [done|].
      intros <-. apply Hq. right. destruct At as (_ & _ & <-). rewrite (tpages_plug K). by left.
Qed.
End insert.
