(* ===== verification/BPlusTreeShape.v ===== *)
(** * Neighbouring nodes: what a merge or a rotation makes of them

    A node apart from its occupancy is its page ([holds]) and what its page says ([tinner]).
    Leaves and internal nodes are treated alike: a merge appends the right node to the left
    one, a rotation moves one item across and gives the pair a new separator. *)

From stdpp Require Import gmap.
From S2P Require Import Prelude Common NodeArray LeafNode LeafNodeProofs LeafNodeTheorems.
From S2P Require Import InternalNode InternalNodeProofs InternalNodeTheorems.
From S2P Require Import BufferPool BufferPoolOps PoolRefine PageStore PageStoreLogic.
From S2P Require Import BPlusTree BPlusTreeSpec BPlusTreePath BPlusTreeRead BPlusTreeWrite BPlusTreeKids BPlusTreeInsert.

Definition is_leaf_level (h : nat) : bool := match h with O => true | S _ => false end.
Definition node_type (h : nat) : PageType := match h with O => INDEX_LEAF | S _ => INDEX_INTERNAL end.

(** The page of a node. *)
Definition holds {h} : tree h -> Z -> list byte -> Prop :=
  match h with
  | O => fun T next bs => leaf_page T.1 next T.2 bs
  | S h => fun T _ bs => inode_page T.1 (Z.of_nat (S h)) (canon (entries_of T.2)) bs
  end.

(** The body of a node. *)
Definition node_body {h} : tree h -> Z -> list byte -> Prop :=
  match h with
  | O => fun T next b => exists tail, b = leaf next T.2 tail /\ leaf_ok next T.2 tail
  | S h => fun T _ b => exists tail, b = inode (Z.of_nat (S h)) (canon (entries_of T.2)) tail /\
      inode_ok (Z.of_nat (S h)) (canon (entries_of T.2)) tail
  end.

(** What a node's content has to satisfy. *)
Definition tinner (t : BPlusTree) (m : pages_t) {h} : tree h -> Z -> option Z -> Z -> Prop :=
  match h with
  | O => fun T lo hi next => leaf_inv next T.2 /\ Forall (in_range lo hi) (keys T.2)
  | S h => fun T lo hi next => kids t m T.2 lo hi next
  end.

Definition tshape (t : BPlusTree) (m : pages_t) {h} (T : tree h) (lo : Z) (hi : option Z) (next : Z) : Prop :=
  (exists bs, m !! tpage T = Some bs /\ holds T next bs) /\ tinner t m T lo hi next.

Definition tcount {h} : tree h -> Z := match h with O => fun T => len T.2 | S _ => fun T => len T.2 end.
Definition floor_of (t : BPlusTree) (h : nat) : Z :=
  match h with O => LeafMinEntries (leaf_max_ t) | S _ => InternalMinChildren (internal_max_ t) end.
Definition max_of (t : BPlusTree) (h : nat) : Z := match h with O => leaf_max_ t | S _ => internal_max_ t end.
Definition root_floor (h : nat) : Z := match h with O => 0 | S _ => 2 end.
Definition size_ok (t : BPlusTree) (root : bool) (h : nat) (n : Z) : Prop :=
  (if root then root_floor h else floor_of t h) <= n <= max_of t h.

(** The pages below a node. *)
Definition below {h} : tree h -> list Z := match h with O => fun _ => [] | S _ => fun T => cpages T.2 end.

Lemma tpages_below {h} (T : tree h) : tpages T = tpage T :: below T.
Proof. by destruct h. Qed.

Lemma trep_shape t m root {h} (T : tree h) lo hi next :
  is_s64 lo -> trep t m root T lo hi next -> tshape t m T lo hi next /\ size_ok t root h (tcount T).
Proof.
  intros Wl. destruct h as [|h]; cbn [trep].
  - intros ((bs & Hm & Hp) & Inv & R & Sz). split; [|done]. split; [by exists bs|done].
  - destruct T as [p cs]. cbn [fst snd]. intros [N HC]. pose proof (node_s64 _ _ _ _ _ _ _ _ N Wl) as W. destruct N as [(bs & Hm & Hp) _ Hh I R Sz].
    rewrite ikeys_entries in *. split; [split; [by exists bs|by split]|]. unfold entries_of in Sz. rewrite length_fmap in Sz. exact Sz.
Qed.

Lemma shape_trep t m root {h} (T : tree h) lo hi next :
  placed m -> tshape t m T lo hi next -> size_ok t root h (tcount T) -> trep t m root T lo hi next.
Proof.
  intros Bd [(bs & Hm & Hp) In] Sz. destruct h as [|h].
  - destruct In as [Inv R]. split; [by exists bs|]. by split_and!.
  - destruct T as [p cs]. by eapply trep_kids.
Qed.

Lemma tinner_frame t m m' {h} (T : tree h) lo hi next :
  (forall q, q ∈ below T -> m' !! q = m !! q) -> tinner t m T lo hi next -> tinner t m' T lo hi next.
Proof. destruct h as [|h]; [done|]. intros Fr. by apply kids_frame. Qed.

Lemma tshape_frame t m m' {h} (T : tree h) lo hi next :
  (forall q, q ∈ tpages T -> m' !! q = m !! q) -> tshape t m T lo hi next -> tshape t m' T lo hi next.
Proof.
  intros Fr [(bs & Hm & Hp) In]. rewrite tpages_below in Fr. split; [exists bs; by rewrite Fr by by left|].
  eapply tinner_frame; [|exact In]. intros q Hq. apply Fr. by right.
Qed.

(** ** Merging *)

Definition tmerge {h} : tree h -> tree h -> tree h :=
  match h with O => fun L R => (L.1, L.2 ++ R.2) | S h => fun L R => (L.1, L.2 ++ R.2) end.

Lemma tmerge_page {h} (L R : tree h) : tpage (tmerge L R) = tpage L.
Proof. by destruct h. Qed.

Lemma tmerge_count {h} (L R : tree h) : tcount (tmerge L R) = tcount L + tcount R.
Proof. destruct h; cbn; rewrite length_app; lia. Qed.

Lemma tmerge_below {h} (L R : tree h) : below (tmerge L R) = below L ++ below R.
Proof. destruct h; [done|]. apply cpages_app. Qed.

Lemma tmerge_entries {h} (L R : tree h) : tentries (tmerge L R) = tentries L ++ tentries R.
Proof.
  destruct h; unfold tentries; cbn [tmerge tleaves].
  - cbn. by rewrite !app_nil_r.
  - change ((cleaves (L.2 ++ R.2) ≫= snd) = (cleaves L.2 ≫= snd) ++ (cleaves R.2 ≫= snd)). by rewrite cleaves_app, bind_app.
Qed.

Lemma kids_app t m {h} (xs ys : list (Z * tree h)) lo sep hi next :
  kids t m xs lo (Some sep) (next_of (cleaves ys) next) -> kids t m ys sep hi next ->
  kids t m (xs ++ ys) lo hi next.
Proof.
  intros [Hx Ix Rx Wx Cx] [Hy Iy Ry Wy Cy]. destruct ys as [|[b T] ys]; [done|]. cbn in Hy. injection Hy as ->.
  assert (Hlo : lo < sep) by (destruct xs as [|[k U] xs]; [done|]; cbn in Hx, Rx; injection Hx as ->; apply Forall_cons in Rx as [[_ Rx] _]; done).
  rewrite Forall_forall in Rx, Ry.
  split; rewrite ?fmap_app.
  - by destruct xs.
  - apply increasing_app; [done|done|]. intros x y Hxx Hyy. apply Rx in Hxx as [_ ?]. apply Ry in Hyy as [? _]. lia.
  - apply Forall_app. split; apply Forall_forall.
    + intros x Hxx. apply Rx in Hxx as [? Hxs]. split; [done|]. destruct (Ry sep ltac:(by left)) as [_ Hs]. destruct hi; [lia|done].
    + intros x Hxx. apply Ry in Hxx as [? ?]. split; [lia|done].
  - by apply Forall_app.
  - apply crep_app. by split.
Qed.

Lemma tmerge_inner t m {h} (L R : tree h) lo sep hi next :
  tinner t m L lo (Some sep) (next_of (tleaves R) next) -> tinner t m R sep hi next -> in_range lo hi sep ->
  tinner t m (tmerge L R) lo hi next.
Proof.
  intros HL HR Rs. destruct h as [|h]; [|by eapply kids_app].
  destruct HL as [[_ V1 I1] R1], HR as [[N2 V2 I2] R2]. cbn [tinner tmerge snd]. rewrite keys_app. rewrite Forall_forall in R1, R2. split.
  - split; [done|by apply Forall_app|]. rewrite keys_app. apply increasing_app; [done|done|]. intros x y Hx Hy. apply R1 in Hx as [_ ?]. apply R2 in Hy as [? _]. lia.
  - destruct Rs as [Rl Rh]. apply Forall_app. split; apply Forall_forall.
    + intros x Hx. apply R1 in Hx as [? ?]. split; [done|]. destruct hi; [lia|done].
    + intros x Hx. apply R2 in Hx as [? ?]. split; [lia|done].
Qed.

(** ** Items: the entries of a leaf, the children of an internal node *)

Definition item (h : nat) : Type := match h with O => LeafEntry | S h => Z * tree h end.
Definition items {h} : tree h -> list (item h) := match h with O => snd | S _ => snd end.
Definition tnode {h} : Z -> list (item h) -> tree h := match h with O => pair | S _ => pair end.
Definition bound {h} : item h -> Z := match h with O => key | S _ => fst end.

Lemma tnode_page {h} p (l : list (item h)) : tpage (tnode p l) = p.
Proof. by destruct h. Qed.

Lemma tnode_count {h} p (l : list (item h)) : tcount (tnode p l) = len l.
Proof. by destruct h. Qed.

Lemma items_count {h} (T : tree h) : tcount T = len (items T).
Proof. by destruct h. Qed.

Lemma tnode_below {h} p (l l' : list (item h)) : below (tnode p (l ++ l')) = below (tnode p l) ++ below (tnode p l').
Proof. destruct h; [done|]. apply cpages_app. Qed.

Lemma below_tnode {h} p q (l : list (item h)) : below (tnode p l) = below (tnode q l).
Proof. by destruct h. Qed.

Lemma tnode_entries {h} p q r (l l' : list (item h)) : tentries (tnode p (l ++ l')) = tentries (tnode q l) ++ tentries (tnode r l').
Proof. destruct h; [exact (tmerge_entries ((p, l) : tree 0) (r, l'))|exact (tmerge_entries ((p, l) : tree (S h)) (r, l'))]. Qed.

Lemma tmerge_items {h} (L R : tree h) : tmerge L R = tnode (tpage L) (items L ++ items R).
Proof. by destruct h. Qed.

Lemma tnode_items {h} (T : tree h) : tnode (tpage T) (items T) = T.
Proof. destruct h; by destruct T. Qed.

(** A node's content cut in two. *)
Lemma tinner_cut t m {h} p q (l : list (item h)) x r lo hi next :
  tinner t m (tnode p (l ++ x :: r)) lo hi next -> l <> [] -> CATALOG_ROOT_PAGE_ID < q ->
  tinner t m (tnode p l) lo (Some (bound x)) (next_of (tleaves (tnode q (x :: r))) next) /\
  tinner t m (tnode q (x :: r)) (bound x) hi next /\ lo < bound x /\ in_range lo hi (bound x).
Proof.
  intros HI Hl Hq. destruct h as [|h].
  - destruct HI as [Inv R]. cbn [tnode snd bound item] in *. rewrite keys_app in R. apply Forall_app in R as [R1 R2].
    destruct (leaf_inv_cut next q l (x :: r) Inv) as [I1 I2]; [by right|]. destruct Inv as [_ _ I].
    assert (Hx : forall y, y ∈ keys l -> y < key x) by (intros y (z & -> & Hz)%elem_of_keys; eapply keys_cut; [exact I|done|by left]).
    rewrite Forall_forall in R1, R2.
    assert (Rx : in_range lo hi (key x)) by (apply R2; by left).
    split; [|split; [|split; [|done]]].
    + split; [done|]. apply Forall_forall. intros y Hy. split; [by apply R1|by apply Hx].
    + split; [done|]. apply Forall_forall. intros y Hy. split; [|by apply R2]. destruct I2 as [_ _ I2]. cbn in I2, Hy.
      apply StronglySorted_cons in I2 as [I2 _]. apply elem_of_cons in Hy as [->|Hy]; [lia|]. rewrite Forall_forall in I2. apply I2 in Hy. lia.
    + destruct l as [|z l]; [done|]. specialize (Hx (key z) ltac:(by left)). destruct (R1 (key z) ltac:(by left)). lia.
  - cbn [tnode bound item tinner snd] in *. destruct x as [b T]. destruct (kids_cut _ _ _ _ _ _ _ _ _ HI Hl) as (K1 & K2 & Hlo & Hhi & _).
    cbn [fst]. split; [done|]. split; [done|]. split; [done|]. split; [lia|done].
Qed.

(** The pages as the node classes see them. *)
Lemma holds_leaf_inv p next es bs : holds ((p, es) : tree 0) next bs -> leaf_page p next es bs.
Proof. done. Qed.

Lemma holds_typed {h} (T : tree h) next bs : holds T next bs -> typed_page (tpage T) (node_type h) bs.
Proof. destruct h; by intros [? _]. Qed.

Lemma set_ikey_twice k k' e : set_ikey k (set_ikey k' e) = set_ikey k e.
Proof. done. Qed.

Lemma entries_cons {h} c (T : tree h) cs : entries_of ((c, T) :: cs) = mkInternalEntry c (tpage T) 0 :: entries_of cs.
Proof. done. Qed.

(** Appending canonical entries puts the separator back. *)
Lemma join_entries {h} (xs : list (Z * tree h)) sep T ys :
  xs <> [] -> canon (join sep (canon (entries_of xs)) (canon (entries_of ((sep, T) :: ys)))) = canon (entries_of (xs ++ (sep, T) :: ys)).
Proof.
  intros Hx. rewrite canon_join, entries_of_app. unfold join. rewrite entries_cons. cbn [set_ikey ikey child reserved].
  by destruct xs.
Qed.

Section pair_views.
Context {S : Type} `{!PageStore S, !PageStoreLaws S}.
Context (cap : Z) (t : BPlusTree).
Hypothesis Fo : FanoutInRange (leaf_max_ t) = true /\ FanoutInRange (internal_max_ t) = true.

Lemma max_cap h : max_of t h <= NODE_CAPACITY.
Proof. destruct Fo as [Fl Fi]. unfold FanoutInRange in *. destruct h; cbn; lia. Qed.


Definition read_pair {A} (h : nat) (lg rg : PageGuard) (pf pg : list byte -> list byte -> bool) (f g : list byte -> list byte -> A) : C S A :=
  (if is_leaf_level h then do left_ <- leaf_view lg ; do right_ <- leaf_view rg ; asserting (pf left_ right_) (cret (f left_ right_))
   else do left_ <- internal_view lg ; do right_ <- internal_view rg ; asserting (pg left_ right_) (cret (g left_ right_)))%client.

(** Reading both nodes of a pair. *)
Lemma wp_read_pair {A h} m gs lg rg (pf pg : list byte -> list byte -> bool) (f g : list byte -> list byte -> A) (L R : tree h) lo lo' hi hi' nl nr Q :
  held gs lg (tpage L) -> held gs rg (tpage R) -> tshape t m L lo hi nl -> tshape t m R lo' hi' nr ->
  (forall bl br, node_body L nl bl -> node_body R nr br -> (if is_leaf_level h then pf bl br else pg bl br) = true /\ Q (if is_leaf_level h then f bl br else g bl br) m gs) ->
  wp cap 0 (read_pair h lg rg pf pg f g) m gs Q.
Proof.
  intros (Hl & _ & Lp) (Hr & _ & Rp) [(bl & Hml & Hpl) _] [(br & Hmr & Hpr) _] HQ. unfold read_pair. destruct h as [|h]; cbn [is_leaf_level].
  - apply (wp_bind _ 0); [lia|]. eapply wp_leaf_view; [lia|done|exact Lp|exact Hml|exact Hpl|]. intros tl Okl.
    apply (wp_bind _ 0); [lia|]. eapply wp_leaf_view; [lia|done|exact Rp|exact Hmr|exact Hpr|]. intros tr Okr.
    destruct (HQ _ _ ltac:(by eexists) ltac:(by eexists)) as [As HQ']. cbn [is_leaf_level] in As, HQ'. rewrite asserting_ok by exact As. by apply wp_cret.
  - apply (wp_bind _ 0); [lia|]. eapply wp_internal_view; [lia|done|exact Lp|exact Hml|exact Hpl|]. intros tl Okl.
    apply (wp_bind _ 0); [lia|]. eapply wp_internal_view; [lia|done|exact Rp|exact Hmr|exact Hpr|]. intros tr Okr.
    destruct (HQ _ _ ltac:(by eexists) ltac:(by eexists)) as [As HQ']. cbn [is_leaf_level] in As, HQ'. rewrite asserting_ok by exact As. by apply wp_cret.
Qed.
(** ** The bodies the node operations write *)

Lemma merge_body {h} m (L R : tree h) lo sep hi next bl br :
  placed m -> tinner t m L lo (Some sep) (next_of (tleaves R) next) -> tinner t m R sep hi next -> in_range lo hi sep ->
  node_body L (next_of (tleaves R) next) bl -> node_body R next br -> tcount L + tcount R <= max_of t h ->
  node_body (tmerge L R) next (if is_leaf_level h then MergeLeaf bl br else MergeInternal bl br sep).
Proof.
  intros Bd HL HR Rs. pose proof (tmerge_inner _ _ _ _ _ _ _ _ HL HR Rs) as HM. pose proof (max_cap h) as Cap. destruct h as [|h]; cbn [is_leaf_level].
  - intros (tl & -> & Okl) (tr & -> & Okr) Hc. cbn [tcount max_of tmerge snd] in *. rewrite MergeLeaf_leaf by (done || lia). exists tl. split; [done|].
    split; [apply Okr|cbn [snd]; rewrite length_app; lia|apply Forall_app; split; [apply Okl|apply Okr]|apply Okl].
  - intros (tl & -> & Okl) (tr & -> & Okr) Hc. destruct L as [pl ls], R as [pr [|[b T] rs]]; [by destruct HR|].
    cbn [tinner snd tmerge tcount fst max_of] in *. pose proof (kd_head _ _ _ _ _ _ HR) as Eb. cbn in Eb. injection Eb as ->.
    assert (Hls : ls <> []) by (by intros ->; destruct HL).
    rewrite (MergeInternal_inode _ _ _ _ _ _ Okl Okr _ _ eq_refl), join_entries by
      (done || rewrite !canon_length; unfold entries_of; rewrite !length_fmap; exact (Z.le_trans _ _ _ Hc Cap)).
    exists tl. split; [done|]. eapply kids_ok; [exact Bd|exact HM|apply Okl| |apply Okl].
    cbn [snd]. rewrite length_app, Nat2Z.inj_add. exact (Z.le_trans _ _ _ Hc Cap).
Qed.

(** The assertions of the three operations on a pair, by the sizes of the two nodes. *)
Lemma node_body_count {h} (L : tree h) next b : node_body L next b -> Count b = tcount L.
Proof.
  destruct h as [|h]; intros (tl & -> & Ok); [by rewrite Count_leaf|]. rewrite Count_inode, canon_length by done. destruct L as [p cs]. cbn. unfold entries_of. by rewrite length_fmap.
Qed.

Lemma node_body_level {h} (L R : tree h) nl nr bl br : node_body L nl bl -> node_body R nr br -> Level bl = Level br.
Proof.
  destruct h as [|h]; intros (tl & -> & Okl) (tr & -> & Okr); [|by rewrite !Level_inode]. unfold Level. by rewrite !Header_leaf.
Qed.

Lemma tcount_nonneg {h} (L : tree h) : 0 <= tcount L.
Proof. destruct h, L; cbn; lia. Qed.

Section pair_asserts.
Context {h : nat} (L R : tree h) (nl nr : Z) (bl br : list byte).
Hypothesis HBl : node_body L nl bl.
Hypothesis HBr : node_body R nr br.

Lemma merge_asserts : (is_leaf_level h = false -> 1 <= tcount L /\ 1 <= tcount R) -> tcount L + tcount R <= max_of t h ->
  (if is_leaf_level h then MergeLeaf_asserts bl br else MergeInternal_asserts bl br) = true.
Proof.
  intros HF Hc. pose proof (max_cap h). pose proof (tcount_nonneg L). pose proof (tcount_nonneg R). unfold MergeLeaf_asserts, MergeInternal_asserts, LeafNode.copy_asserts, InternalNode.copy_asserts, LeafNode.Assign_asserts, InternalNode.Assign_asserts.
  rewrite (node_body_count _ _ _ HBl), (node_body_count _ _ _ HBr), (node_body_level _ _ _ _ _ _ HBl HBr). destruct (is_leaf_level h); [|specialize (HF eq_refl)]; asserts.
Qed.

Lemma rotate_right_asserts : 2 <= tcount L <= max_of t h -> (is_leaf_level h = false -> 1 <= tcount R) -> tcount R < max_of t h ->
  (if is_leaf_level h then RotateLeafRight_asserts bl br else RotateInternalRight_asserts bl br) = true.
Proof.
  intros H1 HF H3. pose proof (max_cap h). pose proof (tcount_nonneg L). pose proof (tcount_nonneg R). unfold RotateLeafRight_asserts, RotateInternalRight_asserts, LeafNode.copy_asserts, InternalNode.copy_asserts, LeafNode.Assign_asserts, InternalNode.Assign_asserts.
  rewrite (node_body_count _ _ _ HBl), (node_body_count _ _ _ HBr), (node_body_level _ _ _ _ _ _ HBl HBr). destruct (is_leaf_level h); [|specialize (HF eq_refl)]; asserts.
Qed.

Lemma rotate_left_asserts : (is_leaf_level h = false -> 1 <= tcount L) -> tcount L < max_of t h -> 2 <= tcount R <= max_of t h ->
  (if is_leaf_level h then RotateLeafLeft_asserts bl br else RotateInternalLeft_asserts bl br) = true.
Proof.
  intros HF H2 H3. pose proof (max_cap h). pose proof (tcount_nonneg L). pose proof (tcount_nonneg R). unfold RotateLeafLeft_asserts, RotateInternalLeft_asserts, LeafNode.copy_asserts, InternalNode.copy_asserts, LeafNode.Assign_asserts, InternalNode.Assign_asserts.
  rewrite (node_body_count _ _ _ HBl), (node_body_count _ _ _ HBr), (node_body_level _ _ _ _ _ _ HBl HBr). destruct (is_leaf_level h); [|specialize (HF eq_refl)]; asserts.
Qed.
End pair_asserts.

(** A rotation: the items in order, one of them changed sides, its bound the new separator. *)
Definition rotation {h} (L R : tree h) (next : Z) (l : list (item h)) (x : item h) (r : list (item h)) (out : Z * list byte * list byte) : Prop :=
  let '(sep', bl, br) := out in
  items L ++ items R = l ++ x :: r /\ l <> [] /\ sep' = bound x /\
  node_body (tnode (tpage L) l) (next_of (tleaves (tnode (tpage R) (x :: r))) next) bl /\
  node_body (tnode (tpage R) (x :: r)) next br.

Lemma entries_snoc {h} (l : list (Z * tree h)) c T : l <> [] -> canon (entries_of (l ++ [(c, T)])) = canon (entries_of l) ++ [mkInternalEntry c (tpage T) 0].
Proof. intros Hl. rewrite entries_of_app. by destruct l. Qed.

Lemma canon_canon es : canon (canon es) = canon es.
Proof. by destruct es. Qed.

Lemma rotate_right_body {h} m (L R : tree h) lo sep hi next bl br l x :
  placed m -> tinner t m L lo (Some sep) (next_of (tleaves R) next) -> tinner t m R sep hi next -> in_range lo hi sep -> 2 <= tpage R < 2 ^ 31 ->
  node_body L (next_of (tleaves R) next) bl -> node_body R next br -> items L = l ++ [x] -> l <> [] -> tcount L <= max_of t h -> tcount R < max_of t h ->
  rotation L R next l x (items R) (if is_leaf_level h then RotateLeafRight bl br else RotateInternalRight bl br sep).
Proof.
  intros Bd HL HR Rs Bp. pose proof (tmerge_inner _ _ _ _ _ _ _ _ HL HR Rs) as HM. rewrite tmerge_items in HM. pose proof (max_cap h) as Cap.
  intros HBl HBr El Hl Hcl Hcr. assert (E : items L ++ items R = l ++ x :: items R) by (by rewrite El, <- app_assoc).
  rewrite E in HM. destruct (tinner_cut _ _ (tpage L) (tpage R) _ _ _ _ _ _ HM Hl) as (H1 & H2 & _); [unfold_consts; lia|].
  rewrite items_count in Hcl, Hcr. rewrite El, length_app in Hcl. cbn [length] in Hcl.
  assert (C1 : len l <= NODE_CAPACITY) by lia. assert (C2 : len (x :: items R) <= NODE_CAPACITY) by (cbn [length]; lia).
  assert (C3 : len (items R) < NODE_CAPACITY) by lia.
  destruct h as [|h]; cbn [is_leaf_level].
  - destruct HBl as (tl & -> & Okl), HBr as (tr & -> & Okr). destruct L as [pl ls], R as [pr rs].
    cbn [items tnode tpage fst snd bound max_of item] in *. cbn in E. subst ls. rewrite (RotateLeafRight_leaf _ _ _ _ _ _ Okl Okr l x eq_refl) by exact C3.
    pose proof (lok_entries _ _ _ Okl) as W. apply Forall_app in W as [W1 W2].
    split; [done|]. split; [done|]. split; [done|]. split; [exists tl|exists tr]; (split; [done|]).
    + split; [apply Okl|exact C1|done|apply Okl].
    + split; [apply Okr|exact C2| |apply Okr]. constructor; [by apply Forall_singleton|apply Okr].
  - destruct HBl as (tl & -> & Okl), HBr as (tr & -> & Okr). destruct L as [pl ls], R as [pr [|[b T] rs]]; [by destruct HR|].
    cbn [items tnode tpage fst snd bound max_of item tinner] in *. subst ls. destruct x as [cx Tx].
    pose proof (kd_head _ _ _ _ _ _ HR) as Eb. cbn in Eb. injection Eb as ->.
    rewrite (RotateInternalRight_inode _ _ _ _ _ sep Okl Okr _ _ _ _ (entries_snoc _ _ _ Hl) ltac:(by destruct l) eq_refl)
      by (rewrite canon_length; unfold entries_of; rewrite length_fmap; exact C3).
    rewrite canon_canon. split; [done|]. split; [done|]. split; [done|]. split; [exists tl|exists tr]; (split; [done|]).
    + eapply kids_ok; [exact Bd|exact H1|apply Okl|exact C1|apply Okl].
    + eapply kids_ok; [exact Bd|exact H2|apply Okr|exact C2|apply Okr].
Qed.

Lemma rotate_left_body {h} m (L R : tree h) lo sep hi next bl br y y2 r :
  placed m -> tinner t m L lo (Some sep) (next_of (tleaves R) next) -> tinner t m R sep hi next -> in_range lo hi sep -> 2 <= tpage R < 2 ^ 31 ->
  node_body L (next_of (tleaves R) next) bl -> node_body R next br -> items R = y :: y2 :: r -> tcount L < max_of t h -> tcount R <= max_of t h ->
  rotation L R next (items L ++ [y]) y2 r (if is_leaf_level h then RotateLeafLeft bl br else RotateInternalLeft bl br sep).
Proof.
  intros Bd HL HR Rs Bp. pose proof (tmerge_inner _ _ _ _ _ _ _ _ HL HR Rs) as HM. rewrite tmerge_items in HM. pose proof (max_cap h) as Cap.
  intros HBl HBr Er Hcl Hcr. assert (E : items L ++ items R = (items L ++ [y]) ++ y2 :: r) by (by rewrite Er, <- app_assoc).
  assert (Hl : items L ++ [y] <> []) by (by destruct (items L)).
  rewrite E in HM. destruct (tinner_cut _ _ (tpage L) (tpage R) _ _ _ _ _ _ HM Hl) as (H1 & H2 & _); [unfold_consts; lia|].
  rewrite items_count in Hcl, Hcr. rewrite Er in Hcr. cbn [length] in Hcr.
  assert (C1 : len (items L ++ [y]) <= NODE_CAPACITY) by (rewrite length_app; cbn [length]; lia).
  assert (C2 : len (y2 :: r) <= NODE_CAPACITY) by (cbn [length]; lia). assert (C3 : len (items L) < NODE_CAPACITY) by lia.
  destruct h as [|h]; cbn [is_leaf_level].
  - destruct HBl as (tl & -> & Okl), HBr as (tr & -> & Okr). destruct L as [pl ls], R as [pr rs].
    cbn [items tnode tpage fst snd bound max_of item] in *. subst rs. rewrite (RotateLeafLeft_leaf _ _ _ _ _ _ Okl Okr y y2 r eq_refl) by exact C3.
    pose proof (lok_entries _ _ _ Okr) as W. apply Forall_cons in W as [W1 W2].
    split; [done|]. split; [done|]. split; [done|]. split; [exists tl|exists tr]; (split; [done|]).
    + split; [apply Okl|exact C1| |apply Okl]. apply Forall_app. split; [apply Okl|by apply Forall_singleton].
    + split; [apply Okr|exact C2|done|apply Okr].
  - destruct HBl as (tl & -> & Okl), HBr as (tr & -> & Okr). destruct L as [pl ls], R as [pr rs].
    cbn [items tnode tpage fst snd bound max_of item tinner] in *. subst rs. destruct y as [cy Ty], y2 as [cy2 Ty2].
    pose proof (kd_head _ _ _ _ _ _ HR) as Eb. cbn in Eb. injection Eb as ->. assert (Hls : ls <> []) by (by intros ->; destruct HL).
    rewrite (RotateInternalLeft_inode _ _ _ _ _ sep Okl Okr _ _ _ eq_refl) by (rewrite canon_length; unfold entries_of; rewrite length_fmap; exact C3).
    unfold set_ikey; cbn [ikey child reserved fst snd]. rewrite <- entries_snoc, canon_canon by done.
    split; [done|]. split; [done|]. split; [done|]. split; [exists tl|exists tr]; (split; [done|]).
    + eapply kids_ok; [exact Bd|exact H1|apply Okl|exact C1|apply Okl].
    + eapply kids_ok; [exact Bd|exact H2|apply Okr|exact C2|apply Okr].
Qed.
End pair_views.
