(* ===== verification/BPlusTreeRebalance.v ===== *)
(** * One step of a deletion: two neighbours and their parent

    [pair_at] is a node, two adjacent children of it (one of them possibly one item short) and
    the rest of the tree.  A merge leaves the parent one child short, a rotation leaves a
    complete tree. *)

From stdpp Require Import gmap.
From S2P Require Import Prelude Common NodeArray LeafNode LeafNodeProofs LeafNodeTheorems.
From S2P Require Import InternalNode InternalNodeProofs InternalNodeTheorems.
From S2P Require Import BufferPool BufferPoolOps PoolRefine PageStore PageStoreLogic.
From S2P Require Import BPlusTree BPlusTreeSpec BPlusTreePath BPlusTreeRead BPlusTreeWrite BPlusTreeKids BPlusTreeInsert BPlusTreeShape.

(** The children of the parent, and the leaf the pair starts with. *)
Definition couple {h} (A : list (Z * tree h)) (a : Z) (L : tree h) (sep : Z) (R : tree h) (C : list (Z * tree h)) : list (Z * tree h) :=
  A ++ (a, L) :: (sep, R) :: C.
Definition start {h} (L R : tree h) (next : Z) : Z := next_of (tleaves L) (next_of (tleaves R) next).

Record pair_at (t : BPlusTree) (m : pages_t) {H h} (K : ctx H (S h)) (p : Z) (A : list (Z * tree h)) (a : Z) (L : tree h) (sep : Z) (R : tree h)
    (C : list (Z * tree h)) (lo : Z) (hi : option Z) (next : Z) : Prop := {
  pa_page : exists bs, m !! p = Some bs /\ inode_page p (Z.of_nat (S h)) (canon (entries_of (couple A a L sep R C))) bs;
  pa_head : head (A.*1 ++ a :: sep :: C.*1) = Some lo;
  pa_keys : increasing (A.*1 ++ a :: sep :: C.*1);
  pa_range : Forall (in_range lo hi) (A.*1 ++ a :: sep :: C.*1);
  pa_s64 : Forall is_s64 (A.*1 ++ a :: sep :: C.*1);
  pa_A : crep (trep t m false) A (Some a) (start L R (next_of (cleaves C) next));
  pa_L : tshape t m L a (Some sep) (next_of (tleaves R) (next_of (cleaves C) next));
  pa_R : tshape t m R sep (bound_of C hi) (next_of (cleaves C) next);
  pa_C : crep (trep t m false) C hi next;
  pa_K : krep t m K p (next_of (cleaves A) (start L R (next_of (cleaves C) next))) lo hi next;
  pa_size : inode_size t (is_root K) (len (couple A a L sep R C))
}.

(** The pair a node one item short makes with its left neighbour, and with its right one. *)
Lemma pair_left t m {H h} (K : ctx H (S h)) p A a (S0 : tree h) c ys (T' : tree h) lo hi next :
  krep t m (up p (A ++ [(a, S0)]) c ys K) (tpage T') (next_of (tleaves T') next) lo hi next -> tshape t m T' lo hi next ->
  exists lo' hi' next', pair_at t m K p A a S0 c T' ys lo' hi' next' /\ size_ok t false h (tcount S0).
Proof.
  intros HK HT. cbn [krep] in HK. destruct HK as (lo' & hi' & next' & -> & -> & -> & N & CX & CY & HK).
  exists lo', hi', next'. pose proof (node_s64 _ _ _ _ _ _ _ _ N (krep_s64 _ _ _ _ _ _ _ _ HK)) as W.
  destruct N as [Pg _ Hh I R Sz]. rewrite ikeys_around, fmap_app, <- app_assoc in *. cbn in Hh, I, R, W.
  assert (Ec : around (A ++ [(a, S0)]) c (tpage T') ys = entries_of (couple A a S0 c T' ys)).
  { unfold around, couple. rewrite !entries_of_app, <- app_assoc. done. }
  rewrite Ec in Pg, Sz. apply crep_app in CX as [CA [CS _]].
  assert (Wa : is_s64 a) by (apply Forall_app in W as [_ W]; by apply Forall_cons in W as [W _]).
  destruct (trep_shape _ _ _ _ _ _ _ Wa CS) as [SS Ss]. split; [|done].
  split; try done.
  - rewrite cleaves_cons, app_nil_r in CA. exact CA.
  - rewrite cleaves_app, next_of_app, cleaves_cons, app_nil_r in HK. exact HK.
  - unfold entries_of in Sz. by rewrite length_fmap in Sz.
Qed.

Lemma pair_right t m {H h} (K : ctx H (S h)) p A c b (S0 : tree h) C (T' : tree h) lo hi next :
  krep t m (up p A c ((b, S0) :: C) K) (tpage T') (next_of (tleaves T') next) lo hi next -> tshape t m T' lo hi next ->
  exists lo' hi' next', pair_at t m K p A c T' b S0 C lo' hi' next' /\ size_ok t false h (tcount S0).
Proof.
  intros HK HT. cbn [krep] in HK. destruct HK as (lo' & hi' & next' & -> & -> & -> & N & CX & [CS CY] & HK). cbn [bound_of] in HT.
  rewrite cleaves_cons, next_of_app in *.
  exists lo', hi', next'. pose proof (node_s64 _ _ _ _ _ _ _ _ N (krep_s64 _ _ _ _ _ _ _ _ HK)) as W.
  destruct N as [Pg _ Hh I R Sz]. rewrite ikeys_around in *. cbn in Hh, I, R, W.
  assert (Ec : around A c (tpage T') ((b, S0) :: C) = entries_of (couple A c T' b S0 C)) by (unfold around, couple; by rewrite entries_of_app).
  rewrite Ec in Pg, Sz.
  assert (Wb : is_s64 b) by (apply Forall_app in W as [_ W]; apply Forall_cons in W as [_ W]; by apply Forall_cons in W as [W _]).
  destruct (trep_shape _ _ _ _ _ _ _ Wb CS) as [SS Ss]. split; [|done].
  split; try done. unfold entries_of in Sz. by rewrite length_fmap in Sz.
Qed.

(** The bounds of the pair, and of the parent without the separator between them. *)
Lemma pair_bounds t m {H h} (K : ctx H (S h)) p A a (L : tree h) sep R C lo hi next :
  pair_at t m K p A a L sep R C lo hi next ->
  (head (A.*1 ++ a :: C.*1) = Some lo /\ increasing (A.*1 ++ a :: C.*1) /\ Forall (in_range lo hi) (A.*1 ++ a :: C.*1) /\
   Forall is_s64 (A.*1 ++ a :: C.*1)) /\
  a < sep /\ in_range a (bound_of C hi) sep /\ in_range a (bound_of C hi) a /\ is_s64 a /\ is_s64 sep.
Proof.
  intros [_ Hh I Rg W _ _ _ _ _ _]. rewrite (cons_middle a), app_assoc in Hh, I. pose proof (increasing_remove _ _ _ I) as I'.
  rewrite <- app_assoc in Hh, I'. cbn [app] in Hh, I'. apply Forall_app in Rg as [RA Rg], W as [WA W].
  apply Forall_cons in Rg as [Ra Rg], W as [Wa W]. apply Forall_cons in Rg as [Rs Rg], W as [Ws W].
  assert (IS := StronglySorted_app_1_r _ _ _ I). apply StronglySorted_cons in IS as [IS _].
  assert (Has : a < sep) by (eapply StronglySorted_app_1_elem_of; [exact I|apply elem_of_app; right; by left|by left]).
  assert (HC : match bound_of C hi with Some b => sep < b | None => True end).
  { destruct C as [|[b U] C]; [apply Rs|]. cbn [bound_of]. cbn in IS. by apply Forall_cons in IS as [IS _]. }
  split; [split; [by destruct A|split; [done|]]|split; [done|]].
  - split; apply Forall_app; (split; [done|]); by constructor.
  - split; [split; [lia|done]|]. split; [|done]. split; [lia|]. destruct (bound_of C hi); [lia|done].
Qed.

(** Where the pages of a step stand to each other. *)
Record apart {H h} (K : ctx H (S h)) (p : Z) (A : list (Z * tree h)) (L R : tree h) (C : list (Z * tree h)) : Prop := {
  ap_nodes : p <> tpage L /\ p <> tpage R /\ tpage L <> tpage R;
  ap_rest q : q = p \/ q = tpage L \/ q = tpage R ->
    (q ∉ cpages A) /\ (q ∉ cpages C) /\ (q ∉ kpages K) /\ (q ∉ below L) /\ (q ∉ below R)
}.

Lemma apart_of {H h} (K : ctx H (S h)) p A a (L : tree h) sep R C :
  NoDup ((p :: cpages (couple A a L sep R C)) ++ kpages K) -> apart K p A L R C.
Proof.
  intros ND. unfold couple in ND. rewrite cpages_app, !cpages_cons, !tpages_below in ND.
  assert (P : (p :: cpages A ++ (tpage L :: below L) ++ (tpage R :: below R) ++ cpages C) ++ kpages K ≡ₚ
    p :: tpage L :: tpage R :: cpages A ++ cpages C ++ kpages K ++ below L ++ below R) by perm.
  rewrite P in ND. rewrite !NoDup_cons, !not_elem_of_cons, !not_elem_of_app in ND. split; [tauto|]. intros q [->|[->| ->]]; tauto.
Qed.

Lemma next_tmerge {h} (L R : tree h) next : next_of (tleaves (tmerge L R)) next = start L R next.
Proof.
  destruct h; [done|]. unfold start. rewrite <- next_of_app. f_equal. destruct L as [pl ls], R as [pr rs].
  change (cleaves (ls ++ rs) = cleaves ls ++ cleaves rs). apply cleaves_app.
Qed.

(** A merged pair leaves the parent one child short. *)
Lemma pair_merged t m m' {H h} (K : ctx H (S h)) p A a (L : tree h) sep R C lo hi next bs1 bs2 :
  pair_at t m K p A a L sep R C lo hi next -> apart K p A L R C -> placed m' -> size_ok t false h (tcount L + tcount R) ->
  (forall q, q <> p -> q <> tpage L -> m' !! q = m !! q) ->
  m' !! tpage L = Some bs1 -> holds (tmerge L R) (next_of (cleaves C) next) bs1 ->
  m' !! p = Some bs2 -> inode_page p (Z.of_nat (S h)) (canon (entries_of (A ++ (a, tmerge L R) :: C))) bs2 ->
  krep t m' K p (next_of (@tleaves (S h) (p, A ++ (a, tmerge L R) :: C)) next) lo hi next /\
  @tshape t m' (S h) (p, A ++ (a, tmerge L R) :: C) lo hi next.
Proof.
  intros PA [_ Ar] Bd Sz Fr Hm1 Hp1 Hm2 Hp2. destruct (pair_bounds _ _ _ _ _ _ _ _ _ _ _ _ _ PA) as ((Hh & I & R0 & W) & Hs & Rs & Ra & Wa & _).
  destruct PA as [_ _ _ _ _ CA [_ HL] [_ HR] CC HK _]. pose proof (Ar p ltac:(auto)) as Ap. pose proof (Ar (tpage L) ltac:(auto)) as Al.
  assert (Fr' : forall q, q ∈ cpages A \/ q ∈ cpages C \/ q ∈ kpages K \/ q ∈ below L \/ q ∈ below R -> m' !! q = m !! q).
  { intros q Hq. apply Fr; intros ->; tauto. }
  rewrite tleaves_node, cleaves_app, cleaves_cons, !next_of_app, next_tmerge. split.
  - eapply krep_frame; [|exact HK]. auto 8.
  - split; [by exists bs2|]. cbn [tinner snd]. change (A ++ (a, tmerge L R) :: C) with (A ++ [(a, tmerge L R)] ++ C).
    eapply kids_glue; try done.
    + rewrite cleaves_cons, app_nil_r, next_tmerge. eapply crep_frame; [|exact CA]. auto 8.
    + apply kids_one; [|done|done]. apply shape_trep; [done| |by rewrite tmerge_count]. split; [exists bs1; by rewrite tmerge_page|].
      eapply tmerge_inner; [eapply tinner_frame; [|exact HL]; auto 8|eapply tinner_frame; [|exact HR]; auto 8|exact Rs].
    + eapply crep_frame; [|exact CC]. auto 8.
Qed.

(** A rotated pair completes the tree. *)
Lemma next_pair {h} p q (l r : list (item h)) x :
  start (tnode p l) (tnode q r) x = match h return list (item h) -> Z with O => fun _ => p | S _ => fun l => next_of (cleaves l) x end (l ++ r).
Proof.
  destruct h; [done|]. unfold start. cbn [tnode item] in *. rewrite !tleaves_node, cleaves_app, next_of_app. done.
Qed.

Lemma pair_rotated t m m' {H h} (K : ctx H (S h)) p A a (L : tree h) sep R C lo hi next l x r bs0 bs1 bs2 :
  pair_at t m K p A a L sep R C lo hi next -> apart K p A L R C -> placed m' ->
  items L ++ items R = l ++ x :: r -> l <> [] -> CATALOG_ROOT_PAGE_ID < tpage R -> is_s64 (bound x) -> size_ok t false h (len l) -> size_ok t false h (len (x :: r)) ->
  (forall q, q <> p -> q <> tpage L -> q <> tpage R -> m' !! q = m !! q) ->
  m' !! tpage L = Some bs0 -> holds (tnode (tpage L) l) (next_of (tleaves (tnode (tpage R) (x :: r))) (next_of (cleaves C) next)) bs0 ->
  m' !! tpage R = Some bs1 -> holds (tnode (tpage R) (x :: r)) (next_of (cleaves C) next) bs1 ->
  m' !! p = Some bs2 ->
  inode_page p (Z.of_nat (S h)) (canon (entries_of (couple A a (tnode (tpage L) l) (bound x) (tnode (tpage R) (x :: r)) C))) bs2 ->
  @fits t m' H (S h) K (p, couple A a (tnode (tpage L) l) (bound x) (tnode (tpage R) (x :: r)) C) lo hi next.
Proof.
  intros PA [_ Ar] Bd E Hl Hq Wx S1 S2 Fr Hm0 Hp0 Hm1 Hp1 Hm2 Hp2.
  destruct (pair_bounds _ _ _ _ _ _ _ _ _ _ _ _ _ PA) as ((Hh & I & R0 & W) & Hs & Rs & Ra & Wa & _).
  destruct PA as [_ _ _ _ _ CA [_ HL] [_ HR] CC HK Sz].
  assert (Fr' : forall q, q ∈ cpages A \/ q ∈ cpages C \/ q ∈ kpages K \/ q ∈ below L \/ q ∈ below R -> m' !! q = m !! q).
  { intros q Hq'. apply Fr; intros ->; [pose proof (Ar p)|pose proof (Ar (tpage L))|pose proof (Ar (tpage R))]; tauto. }
  assert (HM : tinner t m' (tmerge L R) a (bound_of C hi) (next_of (cleaves C) next)).
  { eapply tmerge_inner; [eapply tinner_frame; [|exact HL]; auto 8|eapply tinner_frame; [|exact HR]; auto 8|exact Rs]. }
  rewrite tmerge_items, E in HM. destruct (tinner_cut _ _ (tpage L) (tpage R) _ _ _ _ _ _ HM Hl Hq) as (I1 & I2 & Hlt & Rx).
  set (L' := tnode (tpage L) l) in *. set (R' := tnode (tpage R) (x :: r)) in *.
  assert (Est : start L' R' (next_of (cleaves C) next) = start L R (next_of (cleaves C) next)).
  { transitivity (start (tnode (tpage L) (items L)) (tnode (tpage R) (items R)) (next_of (cleaves C) next)); [|by rewrite !tnode_items].
    unfold L', R'. by rewrite !next_pair, E. }
  assert (Kd : kids t m' (couple A a L' (bound x) R' C) lo hi next).
  { change (couple A a L' (bound x) R' C) with (A ++ [(a, L'); (bound x, R')] ++ C). eapply kids_glue; try done.
    - rewrite !cleaves_cons, app_nil_r, next_of_app. fold (start L' R' (next_of (cleaves C) next)). rewrite Est. eapply crep_frame; [|exact CA]. auto 8.
    - apply kids_pair; try done; (apply shape_trep; [done| |by unfold L', R'; rewrite tnode_count]); (split; [|done]).
      + exists bs0. unfold L'. by rewrite tnode_page.
      + exists bs1. unfold R'. by rewrite tnode_page.
    - eapply crep_frame; [|exact CC]. auto 8. }
  split.
  - rewrite tleaves_node. unfold couple. rewrite cleaves_app, !cleaves_cons, !next_of_app. fold (start L' R' (next_of (cleaves C) next)). rewrite Est.
    eapply krep_frame; [|exact HK]. auto 8.
  - eapply trep_kids; [done|exact Kd|exact Hm2|exact Hp2|]. unfold couple in *. rewrite length_app in *. exact Sz.
Qed.

(** The parent's entries around the separator. *)
Lemma couple_entries {h} (A : list (Z * tree h)) a (L R : tree h) C :
  exists l1, len l1 = len A + 1 /\
    (forall L' R' sep, tpage L' = tpage L -> tpage R' = tpage R ->
       canon (entries_of (couple A a L' sep R' C)) = l1 ++ mkInternalEntry sep (tpage R) 0 :: entries_of C) /\
    (forall L', tpage L' = tpage L -> canon (entries_of (A ++ (a, L') :: C)) = l1 ++ entries_of C).
Proof.
  exists (canon (entries_of A ++ [mkInternalEntry a (tpage L) 0])).
  assert (Hn : entries_of A ++ [mkInternalEntry a (tpage L) 0] <> []) by (by destruct (entries_of A)). split; [|split].
  - rewrite canon_length, length_app. unfold entries_of. rewrite length_fmap. cbn [length]. lia.
  - intros L' R' sep E1 E2. unfold couple. rewrite entries_of_app, !entries_cons, E1, E2. rewrite <- canon_app by done. by rewrite <- app_assoc.
  - intros L' E1. rewrite entries_of_app, !entries_cons, E1. rewrite <- canon_app by done. by rewrite <- app_assoc.
Qed.

Lemma placed_insert m p bs : placed m -> is_Some (m !! p) -> len bs = PAGE_SIZE -> placed (<[p := bs]> m).
Proof.
  intros Bd [bs0 Hm] L q bs'. destruct (decide (q = p)) as [->|Hq].
  - rewrite lookup_insert_eq. intros [= <-]. split; [done|]. by apply (Bd p bs0).
  - rewrite lookup_insert_ne by done. apply Bd.
Qed.

Section steps.
Context {S : Type} `{!PageStore S, !PageStoreLaws S}.
Context (cap : Z) (t : BPlusTree).
Hypothesis Fo : FanoutInRange (leaf_max_ t) = true /\ FanoutInRange (internal_max_ t) = true.

(** Writing a node back. *)
Lemma wp_set_node {h} c g m gs (T : tree h) bs b next Q :
  1 <= c -> held gs g (tpage T) -> m !! tpage T = Some bs -> typed_page (tpage T) (node_type h) bs -> node_body T next b ->
  (forall bs', holds T next bs' -> Q tt (<[tpage T := bs']> m) gs) -> wp cap c (set_body g b) m gs Q.
Proof.
  intros Hc (Hg & Gw & Gp) Hm Ty HB HQ. destruct h as [|h]; destruct HB as (tail & -> & Ok).
  - by eapply wp_set_leaf.
  - by eapply wp_set_inode.
Qed.

(** The parent, the separator, and room for it in the slot's width. *)
Lemma wp_parent {A0 H h} m gs (K : ctx H (Datatypes.S h)) p A a (L : tree h) sep R D lo hi next pg (k : list byte -> C S A0) c Q :
  pair_at t m K p A a L sep R D lo hi next -> held gs pg p -> 0 <= c ->
  (forall bs l1 tail, m !! p = Some bs -> typed_page p INDEX_INTERNAL bs -> len l1 = len A + 1 -> u16 (len A + 1) = len l1 ->
     (forall L' R' sep, tpage L' = tpage L -> tpage R' = tpage R ->
        canon (entries_of (couple A a L' sep R' D)) = l1 ++ mkInternalEntry sep (tpage R) 0 :: entries_of D) ->
     (forall L', tpage L' = tpage L -> canon (entries_of (A ++ (a, L') :: D)) = l1 ++ entries_of D) ->
     inode_ok (Z.of_nat (Datatypes.S h)) (l1 ++ mkInternalEntry sep (tpage R) 0 :: entries_of D) tail ->
     wp cap c (k (inode (Z.of_nat (Datatypes.S h)) (l1 ++ mkInternalEntry sep (tpage R) 0 :: entries_of D) tail)) m gs Q) ->
  wp cap c (do parent <- internal_view pg ; k parent)%client m gs Q.
Proof.
  intros PA (Hg & _ & Gp) Hc Hk. destruct (pa_page _ _ _ _ _ _ _ _ _ _ _ _ _ PA) as (bs & Hm & Hp).
  destruct (couple_entries A a L R D) as (l1 & Hl1 & E1 & E2). rewrite (E1 L R sep eq_refl eq_refl) in Hp.
  pose proof (pa_size _ _ _ _ _ _ _ _ _ _ _ _ _ PA) as [_ Su]. unfold couple in Su. rewrite length_app in Su. cbn [length] in Su.
  apply (wp_bind _ 0); [lia|]. eapply wp_internal_view; [lia|done|exact Gp|exact Hm|exact Hp|]. intros tail Ok.
  eapply wp_mono; [| |eapply Hk; try done; [apply Hp|]]; [lia|done|].
  rewrite u16_id; [done|]. destruct Fo as [_ Fi]. unfold FanoutInRange in Fi. unfold is_u16. nlia.
Qed.

Lemma separator_at lvl l1 e l2 tail n : inode_ok lvl (l1 ++ e :: l2) tail -> n = len l1 -> InternalNode.KeyAt n (inode lvl (l1 ++ e :: l2) tail) = ikey e.
Proof. intros Ok ->. apply (iKeyAt_inode _ _ _ (length l1)); [done|]. by rewrite list_lookup_middle. Qed.

(** An internal node has a child. *)
Lemma nonempty_pair {h} m (L R : tree h) lo lo' hi hi' nl nr :
  tinner t m L lo hi nl -> tinner t m R lo' hi' nr -> is_leaf_level h = false -> 1 <= tcount L /\ 1 <= tcount R.
Proof.
  destruct h as [|h]; [done|]. destruct L as [p [|x xs]], R as [q [|y ys]]; intros HL HR _; try (by destruct HL); try (by destruct HR). cbn. lia.
Qed.

Lemma wp_merge m gs {H h} (K : ctx H (Datatypes.S h)) p A a (L : tree h) sep R C lo hi next lg rg pg :
  pair_at t m K p A a L sep R C lo hi next -> apart K p A L R C -> held gs lg (tpage L) -> held gs rg (tpage R) -> held gs pg p ->
  size_ok t false h (tcount L + tcount R) ->
  wp cap 2 (merge (is_leaf_level h) lg rg pg (u16 (len A + 1))) m gs (fun _ m' gs' => gs' = gs /\
    (forall q, q <> p -> q <> tpage L -> m' !! q = m !! q) /\
    krep t m' K p (next_of (@tleaves (Datatypes.S h) (p, A ++ (a, tmerge L R) :: C)) next) lo hi next /\
    @tshape t m' (Datatypes.S h) (p, A ++ (a, tmerge L R) :: C) lo hi next).
Proof.
  intros PA Ap Hl Hr Hp Sz. unfold merge. apply wp_pages. intros Bd. pose proof (ap_nodes _ _ _ _ _ _ Ap) as (N1 & N2 & N3).
  eapply wp_parent; [exact PA|exact Hp|lia|]. intros bs l1 tail Hm Ty El1 Eu E1 E2 Ok. cbv zeta.
  rewrite Eu. rewrite asserting_ok by (apply KeyAt_asserts_inode; [done|rewrite length_app; cbn [length]; lia]).
  rewrite separator_at by done. cbn [ikey]. destruct (pair_bounds _ _ _ _ _ _ _ _ _ _ _ _ _ PA) as (_ & _ & Rs & _ & _ & _).
  pose proof PA as [_ _ _ _ _ _ HL HR _ _ _]. pose proof HL as [(bsl & Hml & Hpl) IL]. pose proof HR as [_ IR].
  apply (wp_bind _ 0); [lia|].
  refine (wp_read_pair cap t m gs lg rg MergeLeaf_asserts MergeInternal_asserts MergeLeaf (fun l r => MergeInternal l r sep) L R _ _ _ _ _ _ _ Hl Hr HL HR _).
  intros bl br HBl HBr. split; [apply (merge_asserts t Fo L R _ _ bl br HBl HBr); [by eapply nonempty_pair|apply Sz]|].
  pose proof (merge_body t Fo m L R a sep _ _ bl br Bd IL IR Rs HBl HBr (proj2 Sz)) as HB.
  set (b := if is_leaf_level h then _ else _) in *. clearbody b.
  apply (wp_bind _ 1); [lia|]. rewrite <- (tmerge_page L R) in Hl, Hml. 
  eapply wp_set_node; [lia|exact Hl|exact Hml|rewrite tmerge_page; by apply (holds_typed L) in Hpl|exact HB|]. intros bs1 Hp1. rewrite tmerge_page in *.
  rewrite asserting_ok by (apply iRemoveAt_asserts_inode; [done|lia]). rewrite iRemoveAt_inode by done. destruct Hp as (Hg & Gw & Gp).
  eapply wp_set_inode; [lia|done|done|exact Gp|by rewrite lookup_insert_ne|exact Ty| |].
  { eapply inode_ok_entries; [exact Ok| |]; pose proof (iok_cap _ _ _ Ok) as Cp; pose proof (iok_entries _ _ _ Ok) as W.
    - rewrite length_app in *. cbn [length] in Cp. lia.
    - apply Forall_app in W as [W1 W2]. apply Forall_cons in W2 as [_ W2]. by apply Forall_app. }
  intros bs2 Hp2. rewrite <- (E2 (tmerge L R)) in Hp2 by apply tmerge_page. split; [done|].
  assert (Fr : forall q, q <> p -> q <> tpage L -> <[p := bs2]> (<[tpage L := bs1]> m) !! q = m !! q) by (intros q Q1 Q2; by rewrite !lookup_insert_ne).
  split; [exact Fr|]. eapply (pair_merged t m _ K p A a L sep R C lo hi next bs1 bs2); try done.
  - apply holds_typed in Hp1. apply placed_insert; [|by rewrite lookup_insert_ne|apply Hp2]. apply placed_insert; [exact Bd|done|apply Hp1].
  - by rewrite lookup_insert_ne, lookup_insert_eq.
  - apply lookup_insert_eq.
Qed.
Lemma bound_s64 {h} m q (x : item h) r next b lo hi :
  node_body (tnode q (x :: r)) next b -> tinner t m (tnode q (x :: r)) lo hi next -> is_s64 (bound x).
Proof.
  destruct h as [|h].
  - intros (tail & _ & Ok) _. pose proof (lok_entries _ _ _ Ok) as W. by apply Forall_cons in W as [[W _] _].
  - intros _ [_ _ _ W _]. by apply Forall_cons in W as [W _].
Qed.

(** Who lends to whom: the node that is one short borrows from a neighbour above its floor. *)
Definition can_lend (is_left : bool) {h} (L R : tree h) : Prop :=
  if is_left then floor_of t h < tcount L <= max_of t h /\ tcount R = floor_of t h - 1
  else tcount L = floor_of t h - 1 /\ floor_of t h < tcount R <= max_of t h.

Lemma floor_range h : 1 <= floor_of t h /\ floor_of t h < max_of t h.
Proof. destruct Fo as [Fl Fi]. unfold FanoutInRange in *. destruct h; cbn [floor_of max_of]; nlia. Qed.

Lemma rotate_bodies {h} m (L R : tree h) is_left lo sep hi next bl br :
  placed m -> tinner t m L lo (Some sep) (next_of (tleaves R) next) -> tinner t m R sep hi next -> in_range lo hi sep -> 2 <= tpage R < 2 ^ 31 ->
  node_body L (next_of (tleaves R) next) bl -> node_body R next br -> can_lend is_left L R ->
  exists l x r, rotation L R next l x r
      (if is_leaf_level h then (if is_left then RotateLeafRight bl br else RotateLeafLeft bl br)
       else (if is_left then RotateInternalRight bl br sep else RotateInternalLeft bl br sep)) /\
    size_ok t false h (len l) /\ size_ok t false h (len (x :: r)).
Proof.
  intros Bd IL IR Rs Bp HBl HBr Lend. pose proof (floor_range h) as Fl. unfold can_lend in Lend. rewrite !items_count in Lend. destruct is_left.
  - destruct Lend as [Ll Lr]. destruct (exists_last (l := items L)) as (l & x & El); [intros E; rewrite E in Ll; cbn in Ll; lia|].
    exists l, x, (items R). rewrite El, length_app in Ll. cbn [length] in Ll. split; [|unfold size_ok; cbn [length]; lia].
    eapply rotate_right_body; try done; [|rewrite items_count, ?El, ?length_app; cbn [length]; lia..].
    intros ->. cbn [length] in Ll. lia.
  - destruct Lend as [Ll Lr]. destruct (items R) as [|y [|y2 r]] eqn:Er; cbn [length] in Lr; [lia|lia|].
    exists (items L ++ [y]), y2, r. split; [|unfold size_ok; rewrite length_app; cbn [length]; lia].
    eapply rotate_left_body; try done; rewrite items_count, ?Er; cbn [length]; lia.
Qed.

Lemma rotate_asserts {h} (L R : tree h) is_left nl nr bl br :
  node_body L nl bl -> node_body R nr br -> can_lend is_left L R ->
  (if is_leaf_level h then (if is_left then RotateLeafRight_asserts bl br else RotateLeafLeft_asserts bl br)
   else (if is_left then RotateInternalRight_asserts bl br else RotateInternalLeft_asserts bl br)) = true.
Proof.
  intros HBl HBr Lend. pose proof (floor_range h) as Fl. assert (F2 : is_leaf_level h = false -> 2 <= floor_of t h).
  { destruct Fo as [_ Fi]. unfold FanoutInRange in Fi. destruct h; [done|]. intros _. cbn [floor_of]. nlia. }
  unfold can_lend in Lend. destruct is_left.
  - apply (rotate_right_asserts t Fo L R _ _ bl br HBl HBr); [lia|intros E; specialize (F2 E); lia|lia].
  - apply (rotate_left_asserts t Fo L R _ _ bl br HBl HBr); [intros E; specialize (F2 E); lia|lia|lia].
Qed.

Lemma wp_redistribute m gs {H h} (K : ctx H (Datatypes.S h)) p A a (L : tree h) sep R D lo hi next lg rg pg is_left :
  pair_at t m K p A a L sep R D lo hi next -> apart K p A L R D -> held gs lg (tpage L) -> held gs rg (tpage R) -> held gs pg p ->
  can_lend is_left L R ->
  wp cap 3 (redistribute (is_leaf_level h) is_left lg rg pg (u16 (len A + 1))) m gs (fun _ m' gs' => gs' = gs /\
    (forall q, q <> p -> q <> tpage L -> q <> tpage R -> m' !! q = m !! q) /\
    exists l x r, items L ++ items R = l ++ x :: r /\
      @fits t m' H (Datatypes.S h) K (p, couple A a (tnode (tpage L) l) (bound x) (tnode (tpage R) (x :: r)) D) lo hi next).
Proof.
  intros PA Ap Hl Hr Hp Lend. unfold redistribute. apply wp_pages. intros Bd. pose proof (ap_nodes _ _ _ _ _ _ Ap) as (N1 & N2 & N3).
  eapply wp_parent; [exact PA|exact Hp|lia|]. intros bs l1 tail Hm Ty El1 Eu E1 E2 Ok. cbv zeta.
  rewrite Eu. rewrite asserting_ok by (apply KeyAt_asserts_inode; [done|rewrite length_app; cbn [length]; lia]).
  rewrite separator_at by done. cbn [ikey]. destruct (pair_bounds _ _ _ _ _ _ _ _ _ _ _ _ _ PA) as (_ & _ & Rs & _ & _ & _).
  pose proof PA as [_ _ _ _ _ _ HL HR _ _ _]. pose proof HL as [(bsl & Hml & Hpl) IL]. pose proof HR as [(bsr & Hmr & Hpr) IR].
  destruct (Bd _ _ Hmr) as [_ Br]. apply (wp_bind _ 0); [lia|].
  refine (wp_read_pair cap t m gs lg rg (fun l r => if is_left then RotateLeafRight_asserts l r else RotateLeafLeft_asserts l r)
    (fun l r => if is_left then RotateInternalRight_asserts l r else RotateInternalLeft_asserts l r) (fun l r => if is_left then RotateLeafRight l r else RotateLeafLeft l r)
    (fun l r => if is_left then RotateInternalRight l r sep else RotateInternalLeft l r sep) L R _ _ _ _ _ _ _ Hl Hr HL HR _). intros bl br HBl HBr.
  split; [exact (rotate_asserts L R is_left _ _ bl br HBl HBr Lend)|].
  destruct (rotate_bodies m L R is_left a sep _ _ bl br Bd IL IR Rs Br HBl HBr Lend) as (l & x & r & Rot & S1 & S2).
  destruct (if is_leaf_level h then _ else _) as [[sep' bl'] br']. destruct Rot as (Ei & Hne & -> & HBl' & HBr').
  set (L' := tnode (tpage L) l) in *. set (R' := tnode (tpage R) (x :: r)) in *.
  assert (EL : tpage L' = tpage L) by apply tnode_page. assert (ER : tpage R' = tpage R) by apply tnode_page.
  apply (wp_bind _ 1); [lia|]. eapply (wp_set_node 1 lg m gs L'); [lia|by rewrite EL|rewrite EL; exact Hml|rewrite EL; by apply (holds_typed L) in Hpl|exact HBl'|].
  intros bs0 Hp0. rewrite EL. apply (wp_bind _ 1); [lia|].
  eapply (wp_set_node 1 rg _ gs R'); [lia|by rewrite ER|rewrite ER, lookup_insert_ne by done; exact Hmr|rewrite ER; by apply (holds_typed R) in Hpr|exact HBr'|].
  intros bs1 Hp1. rewrite ER. rewrite asserting_ok by (apply SetKeyAt_asserts_inode; [done|rewrite length_app; cbn [length]; lia]). rewrite SetKeyAt_inode by done. destruct Hp as (Hg & Gw & Gp). unfold set_ikey. cbn [child reserved].
  assert (Wx : is_s64 (bound x)).
  { eapply (bound_s64 m); [exact HBr'|]. pose proof (tmerge_inner _ _ _ _ _ _ _ _ IL IR Rs) as HM. rewrite tmerge_items, Ei in HM.
    apply (tinner_cut _ _ (tpage L) (tpage R) _ _ _ _ _ _ HM Hne). unfold_consts; lia. }
  eapply wp_set_inode; [lia|done|done|exact Gp|by rewrite !lookup_insert_ne|exact Ty| |].
  { eapply inode_ok_entries; [exact Ok|pose proof (iok_cap _ _ _ Ok) as Cp; rewrite length_app in *; exact Cp|].
    pose proof (iok_entries _ _ _ Ok) as W. apply Forall_app in W as [W1 W2]. apply Forall_cons in W2 as [[W2 W3] W4].
    apply Forall_app. split; [done|]. constructor; [by split|done]. }
  intros bs2 Hp2. rewrite <- (E1 L' R' (bound x) EL ER) in Hp2. split; [done|].
  assert (Fr : forall q, q <> p -> q <> tpage L -> q <> tpage R -> <[p := bs2]> (<[tpage R := bs1]> (<[tpage L := bs0]> m)) !! q = m !! q)
    by (intros q Q1 Q2 Q3; by rewrite !lookup_insert_ne).
  split; [exact Fr|]. exists l, x, r. split; [done|]. apply holds_typed in Hp0 as T0, Hp1 as T1.
  eapply (pair_rotated t m _ K p A a L sep R D lo hi next l x r bs0 bs1 bs2); try done.
  - apply placed_insert; [apply placed_insert; [apply placed_insert; [exact Bd|done|apply T0]|by rewrite lookup_insert_ne|apply T1]|by rewrite !lookup_insert_ne|apply Hp2].
  - unfold_consts. lia.
  - by rewrite lookup_insert_ne, lookup_insert_ne, lookup_insert_eq.
  - by rewrite lookup_insert_ne, lookup_insert_eq.
  - apply lookup_insert_eq.
Qed.
End steps.
