(* ===== verification/BPlusTreePlan.v ===== *)
(** * Planning a deletion

    [PlanDelete] fetches every neighbour the deletion will need, from the leaf up, and changes
    nothing.  [planned] is what its answer means for the tree. *)

From stdpp Require Import gmap.
From S2P Require Import Prelude Common NodeArray LeafNode LeafNodeProofs LeafNodeTheorems.
From S2P Require Import InternalNode InternalNodeProofs InternalNodeTheorems.
From S2P Require Import BufferPool BufferPoolOps PoolRefine PageStore PageStoreLogic.
From S2P Require Import BPlusTree BPlusTreeSpec BPlusTreePath BPlusTreeRead BPlusTreeWrite BPlusTreeKids BPlusTreeInsert BPlusTreeShape BPlusTreeRebalance.

(** The step's sibling is the neighbour [U] of the hole: the left one if there is one. *)
Definition beside {h} (xs ys : list (Z * tree h)) (st : DeleteStep) (U : tree h) : Prop :=
  (if sibling_is_left st then exists xs0 b, xs = xs0 ++ [(b, U)] else xs = [] /\ exists b ys0, ys = (b, U) :: ys0) /\
  g_page (sibling st) = tpage U /\ g_write (sibling st) = true.

(** The steps planned for a hole that is to lose one item, and whether the root goes. *)
Fixpoint planned (t : BPlusTree) {H h} (K : ctx H h) : tree h -> list DeleteStep -> bool -> Prop :=
  match K with
  | top => fun T ss co => ss = [] /\ co = match H with O => false | S _ => tcount T =? 2 end
  | @up _ h p xs c ys K => fun T ss co =>
      (floor_of t h < tcount T /\ ss = [] /\ co = false) \/
      (tcount T = floor_of t h /\ exists st ss' U, ss = st :: ss' /\ beside xs ys st U /\
         match fix_ st with
         | kRedistribute => floor_of t h < tcount U /\ ss' = [] /\ co = false
         | kMerge => tcount U = floor_of t h /\ planned t K (p, xs ++ (c, T) :: ys) ss' co
         end)
  end.

(** ** Neighbours *)


Lemma ChildAt_canon lvl es tail i e :
  inode_ok lvl (canon es) tail -> es !! i = Some e -> ChildAt (Z.of_nat i) (inode lvl (canon es) tail) = child e.
Proof.
  intros Ok He. unfold ChildAt. destruct es as [|e0 es]; [done|]. destruct i as [|i].
  - injection He as ->. by rewrite (iEntryAt_inode _ _ _ 0 (set_ikey INT64_MIN e) Ok eq_refl).
  - by rewrite (iEntryAt_inode _ _ _ (S i) e Ok He).
Qed.

(** The neighbour [PlanDelete] picks, by its slot in the parent. *)
Lemma neighbour {h} (xs : list (Z * tree h)) c pg ys lvl tail :
  inode_ok lvl (canon (around xs c pg ys)) tail -> 2 <= len (around xs c pg ys) ->
  let is_left := 0 <? len xs in
  InternalNode.EntryAt_asserts (u16 (if is_left then len xs - 1 else len xs + 1)) (inode lvl (canon (around xs c pg ys)) tail) = true /\
  exists U, ChildAt (u16 (if is_left then len xs - 1 else len xs + 1)) (inode lvl (canon (around xs c pg ys)) tail) = tpage U /\
    (if is_left then exists xs0 b, xs = xs0 ++ [(b, U)] else xs = [] /\ exists b ys0, ys = (b, U) :: ys0).
Proof.
  intros Ok H2 is_left. pose proof (iok_cap _ _ _ Ok) as Cap. rewrite canon_length, len_around in Cap. unfold is_left. clear is_left. split.
  { apply EntryAt_asserts_inode; [done|]. rewrite canon_length, len_around in *. destruct (Z.ltb_spec 0 (len xs)); rewrite u16_id by (unfold is_u16; nlia); lia. }
  destruct (Z.ltb_spec 0 (len xs)) as [Hx|Hx].
  - destruct (exists_last (l := xs)) as (xs0 & [b U] & ->); [by intros ->|]. exists U. split; [|by exists xs0, b].
    rewrite length_app in *. cbn [length] in *. rewrite u16_id by (unfold is_u16; nlia).
    replace (Z.of_nat (length xs0 + 1) - 1) with (len xs0) by lia. rewrite (ChildAt_canon _ _ _ _ (mkInternalEntry b (tpage U) 0) Ok); [done|].
    unfold around. rewrite entries_of_app, <- app_assoc. rewrite lookup_app_r by (unfold entries_of; rewrite length_fmap; lia).
    unfold entries_of at 1. rewrite length_fmap, Nat.sub_diag. done.
  - destruct xs; [|cbn [length] in Hx; lia]. rewrite len_around in H2. cbn [length] in *. destruct ys as [|[b U] ys]; [cbn [length] in H2; lia|].
    exists U. split; [|by split; [|exists b, ys]]. rewrite u16_id by (unfold is_u16; lia).
    change (Z.of_nat 0 + 1) with (Z.of_nat 1). by rewrite (ChildAt_canon _ _ _ 1 (mkInternalEntry b (tpage U) 0) Ok).
Qed.

Section plan.
Context {S : Type} `{!PageStore S, !PageStoreLaws S}.
Context (cap : Z) (t : BPlusTree).
Hypothesis Fo : FanoutInRange (leaf_max_ t) = true /\ FanoutInRange (internal_max_ t) = true.

(** The subtree next to the hole is in the store like any child. *)
Lemma neighbour_rep m {H h} (K : ctx H (Datatypes.S h)) p xs c ys pg first lo hi next (U : tree h) (is_left : bool) :
  krep t m (up p xs c ys K) pg first lo hi next ->
  (if is_left then exists xs0 b, xs = xs0 ++ [(b, U)] else xs = [] /\ exists b ys0, ys = (b, U) :: ys0) ->
  exists lo' hi' next', trep t m false U lo' hi' next'.
Proof.
  intros (lo' & hi' & next' & _ & _ & _ & _ & CX & CY & _) B. destruct is_left.
  - destruct B as (xs0 & b & ->). apply crep_app in CX as [_ [CX _]]. eauto.
  - destruct B as (_ & b & ys0 & ->). destruct CY as [CY _]. eauto.
Qed.

Lemma neighbour_pages {h} (xs ys : list (Z * tree h)) (U : tree h) (is_left : bool) q :
  (if is_left then exists xs0 b, xs = xs0 ++ [(b, U)] else xs = [] /\ exists b ys0, ys = (b, U) :: ys0) ->
  q ∈ tpages U -> q ∈ cpages xs ++ cpages ys.
Proof.
  intros B Hq. rewrite elem_of_app. destruct is_left.
  - destruct B as (xs0 & b & ->). left. rewrite cpages_app, cpages_cons, !elem_of_app. auto.
  - destruct B as (_ & b & ys0 & ->). right. rewrite cpages_cons, elem_of_app. auto.
Qed.

(** Occupancy, read from the pages. *)
Lemma wp_at_floor {h} m gs g (T : tree h) root lo hi next :
  trep t m root T lo hi next -> held gs g (tpage T) ->
  wp cap 0 (at_floor t (is_leaf_level h) g) m gs (fun b m' gs' => b = (tcount T <=? floor_of t h) /\ m' = m /\ gs' = gs).
Proof.
  intros HT (Hg & _ & Gp). unfold at_floor. destruct h as [|h]; cbn [is_leaf_level trep] in *.
  - destruct HT as ((bs & Hm & Hp) & _). apply (wp_bind _ 0); [lia|]. eapply wp_leaf_view; [lia|done|exact Gp|exact Hm|exact Hp|]. intros tail Ok.
    apply wp_cret; [lia|]. split; [|done]. unfold IsLeafAtFloor. by rewrite Count_leaf.
  - destruct T as [p cs]. destruct HT as [[(bs & Hm & Hp)] _]. apply (wp_bind _ 0); [lia|].
    eapply wp_internal_view; [lia|done|exact Gp|exact Hm|exact Hp|]. intros tail Ok. apply wp_cret; [lia|]. split; [|done].
    unfold IsInternalAtFloor. rewrite Count_inode, canon_length by done. unfold entries_of. by rewrite length_fmap.
Qed.

Lemma wp_sibling_check {h} m gs g sg (T U : tree h) root lo hi next lo' hi' next' :
  trep t m root T lo hi next -> trep t m false U lo' hi' next' -> held gs g (tpage T) -> held gs sg (tpage U) ->
  wp cap 0 (sibling_check t (is_leaf_level h) g sg) m gs (fun r m' gs' => r = Ok (tcount U <=? floor_of t h) /\ m' = m /\ gs' = gs).
Proof.
  intros HT HU (Hg & _ & Gp) (Hs & _ & Sp). unfold sibling_check. destruct h as [|h]; cbn [is_leaf_level trep] in *.
  - destruct HU as ((bs & Hm & Hp) & _). apply (wp_bind _ 0); [lia|]. apply wp_bytes; [lia|done|]. rewrite Sp. cbn [tpage]. rewrite Hm. intros ? [= <-] _ _.
    rewrite (AsLeaf_page _ _ _ _ Hp). destruct Hp as [_ (tail & -> & Ok)]. apply wp_cret; [lia|]. unfold IsLeafAtFloor. by rewrite Count_leaf.
  - destruct U as [q ds]. destruct T as [p cs]. destruct HU as [[(bs & Hm & Hp)] _], HT as [[(bs' & Hm' & Hp')] _]. cbn [fst] in Hm, Hm'.
    apply (wp_bind _ 0); [lia|]. apply wp_bytes; [lia|done|]. rewrite Sp. cbn [tpage fst]. rewrite Hm. intros ? [= <-] _ _.
    rewrite (AsInternal_page _ _ _ _ Hp). destruct Hp as [_ (tail & -> & Ok)]. apply (wp_bind _ 0); [lia|].
    eapply wp_internal_view; [lia|done|exact Gp|exact Hm'|exact Hp'|]. intros tail' Ok'.
    assert (EL : forall es tl, inode_ok (Z.of_nat (Datatypes.S h)) es tl -> Level (inode (Z.of_nat (Datatypes.S h)) es tl) = Z.of_nat (Datatypes.S h)) by (intros; unfold Level; by rewrite Header_inode).
    rewrite !EL by done. rewrite Z.eqb_refl. cbn [negb]. apply wp_cret; [lia|]. split; [|done].
    unfold IsInternalAtFloor. rewrite Count_inode, canon_length by done. unfold entries_of. by rewrite length_fmap.
Qed.
(** ** The walk *)

(** No guard is on a page around the hole but those of the path itself. *)
Definition path_only {H h} (K : ctx H h) (gs : list PageGuard) : Prop := forall g, g ∈ gs -> g_page g ∈ kpages K -> g_page g ∈ kpath K.

Lemma plan_walk {H h} (K : ctx H (Datatypes.S h)) p xs c ys (T U : tree h) is_left gs :
  (if is_left : bool then exists xs0 b, xs = xs0 ++ [(b, U)] else xs = [] /\ exists b ys0, ys = (b, U) :: ys0) ->
  NoDup (tpages T ++ kpages (up p xs c ys K)) -> path_only (up p xs c ys K) gs ->
  admissible true (tpage U) gs /\ (forall g, g_page g = tpage U -> path_only K (g :: gs)) /\
  NoDup (@tpages (Datatypes.S h) (p, xs ++ (c, T) :: ys) ++ kpages K).
Proof.
  intros B ND PO. cbn [kpages] in ND. pose proof (neighbour_pages xs ys U is_left (tpage U) B (tpage_in U)) as Hq.
  assert (P : tpages T ++ p :: cpages xs ++ cpages ys ++ kpages K ≡ₚ p :: tpages T ++ (cpages xs ++ cpages ys) ++ kpages K) by perm.
  pose proof ND as ND'. rewrite P in ND'. apply NoDup_cons in ND' as [Np ND']. apply NoDup_app in ND' as (_ & _ & ND'). apply NoDup_app in ND' as (_ & Dj & _).
  rewrite !not_elem_of_app in Np. split; [|split].
  - intros g Hg E. exfalso. assert (Hk : g_page g ∈ kpath (up p xs c ys K)).
    { apply PO; [done|]. cbn [kpages]. rewrite E. right. rewrite app_assoc. apply elem_of_app. by left. }
    cbn [kpath] in Hk. rewrite E in Hk. apply elem_of_cons in Hk as [Ep|Hk]; [rewrite Ep in Hq; apply elem_of_app in Hq; tauto|]. by apply (Dj _ Hq), kpath_kpages.
  - intros g0 E g [->|Hg]%elem_of_cons Hk; [by destruct (Dj _ Hq); rewrite <- E|].
    assert (Hk' : g_page g ∈ kpath (up p xs c ys K)) by (apply PO; [done|]; cbn [kpages]; right; rewrite !elem_of_app; auto).
    cbn [kpath] in Hk'. apply elem_of_cons in Hk' as [E'|Hk']; [|done]. rewrite E' in Hk. tauto.
  - rewrite tpages_node, cpages_app, cpages_cons. assert (P' : (p :: cpages xs ++ tpages T ++ cpages ys) ++ kpages K ≡ₚ tpages T ++ p :: cpages xs ++ cpages ys ++ kpages K) by perm.
    by rewrite P'.
Qed.

(** The node above, once the hole is closed. *)
Lemma fits_pop m {H h} (K : ctx H (Datatypes.S h)) p xs c ys (T : tree h) lo hi next :
  fits t m (up p xs c ys K) T lo hi next -> exists lo' hi' next', @fits t m H (Datatypes.S h) K (p, xs ++ (c, T) :: ys) lo' hi' next'.
Proof.
  intros [(lo' & hi' & next' & -> & -> & -> & N & CX & CY & HK) HT]. exists lo', hi', next'. split.
  - rewrite tleaves_node, cleaves_app, cleaves_cons, !next_of_app. exact HK.
  - cbn [trep fst snd]. split; [by rewrite around_entries|]. apply crep_app. cbn [crep]. split; [|done]. by rewrite cleaves_cons, next_of_app.
Qed.

Lemma inode_size_two root n : inode_size t root n -> 2 <= n.
Proof. destruct Fo as [_ Fi]. unfold inode_size, FanoutInRange in *. destruct root; [lia|]. nlia. Qed.

Lemma floor_le m {h} (T : tree h) lo hi next : trep t m false T lo hi next -> floor_of t h <= tcount T.
Proof.
  destruct h as [|h]; cbn [trep]; [by intros (_ & _ & _ & [? _])|]. destruct T as [p cs]. intros [[_ _ _ _ _ [Sz _]] _].
  unfold entries_of in Sz. rewrite length_fmap in Sz. exact Sz.
Qed.

Lemma wp_PlanDelete {H h} (K : ctx H h) : forall m gs gs0 (T : tree h) lo hi next g us steps0,
  fits t m K T lo hi next -> held gs g (tpage T) -> Forall2 (held gs) us (kpath K) -> (steps0 = [] -> h = 0%nat) ->
  (h = 0%nat -> steps0 = []) ->
  NoDup (tpages T ++ kpages K) -> path_only K gs -> gs = reverse (sibling <$> steps0) ++ gs0 ->
  wp cap (2 * len (kpath K) + len steps0) (PlanDelete t (is_leaf_level h) (g :: us) (kindexes K) steps0) m gs (fun r m' gs' => m' = m /\
    match r with
    | Ok plan => exists ss, steps plan = steps0 ++ ss /\ planned t K T ss (collapse_root plan) /\ gs' = reverse (sibling <$> ss) ++ gs
    | Error e => failed e /\ gs' = gs0 /\ cap <= len gs + len (kpath K)
    end).
Proof.
  induction K as [|h p xs c ys K IH]; intros m gs gs0 T lo hi next g us steps0 F Hg Hu Hs0 Hs0' ND PO Egs; cbn [kpath] in Hu.
  - apply Forall2_nil_inv_r in Hu as ->. cbn [PlanDelete kindexes].
    destruct H as [|H].
    + rewrite Hs0' by done. apply wp_cret; [cbn; lia|]. split; [done|]. exists []. by split_and!.
    + destruct steps0 as [|st0 ss0]; [by specialize (Hs0 eq_refl)|]. destruct T as [p cs].
      destruct F as [_ [[(bs & Hm & Hp)] _]]. cbn [fst] in Hm. destruct Hg as (Hg & _ & Gp).
      apply (wp_bind _ 0); [cbn [length]; lia|]. eapply wp_internal_view; [lia|done|exact Gp|exact Hm|exact Hp|]. intros tail Ok. apply wp_cret; [cbn [length]; lia|].
      split; [done|]. exists []. rewrite app_nil_r. split; [done|]. split; [|done]. split; [done|]. cbn [collapse_root tcount snd].
      rewrite Count_inode, canon_length by done. unfold entries_of. by rewrite length_fmap.
  - apply Forall2_cons_inv_r in Hu as (pg & us' & Hpg & Hu & ->). cbn [PlanDelete kindexes].
    pose proof F as [HK HT]. cbn [is_root] in HT.
    apply (wp_bind _ 0); [lia|]. eapply wp_mono; [reflexivity| |eapply wp_at_floor; [exact HT|exact Hg]]. intros fl m' gs' (-> & -> & ->).
    assert (Hsz : floor_of t h <= tcount T) by (by eapply floor_le).
    destruct (Z.leb_spec (tcount T) (floor_of t h)) as [Hfl|Hfl]; cbn [negb].
    2: { apply wp_cret; [lia|]. split; [done|]. exists []. rewrite app_nil_r. split; [done|]. split; [|done]. by left. }
    assert (Hfl' : tcount T = floor_of t h) by lia. clear Hsz Hfl. cbn [krep] in HK.
    pose proof HK as (lo' & hi' & next' & _ & _ & _ & N & _). destruct (nr_page _ _ _ _ _ _ _ _ N) as (bs & Hm & Hp). pose proof (nr_size _ _ _ _ _ _ _ _ N) as Sz.
    destruct Hpg as (Hpg & Wpg & Gpg). apply (wp_bind _ 0); [lia|]. eapply wp_internal_view; [lia|done|exact Gpg|exact Hm|exact Hp|]. intros tail Ok. cbv zeta.
    assert (H2 : 2 <= len (around xs c (tpage T) ys)) by (eapply inode_size_two; exact Sz).
    destruct (neighbour xs c (tpage T) ys _ tail Ok H2) as (As & U & EU & B). rewrite asserting_ok by exact As. rewrite EU. destruct (neighbour_rep m K _ _ _ _ _ _ _ _ _ U _ (proj1 F) B) as (lo1 & hi1 & next1 & HU).
    destruct (plan_walk K p xs c ys T U _ gs B ND PO) as (Ad & PO' & ND'). pose proof (trep_page _ _ _ _ _ _ _ HU) as (bsU & HmU & Hl).
    apply wp_pages. intros Bd. assert (Np : can_fetch (tpage U)) by (destruct (Bd _ _ HmU); apply can_fetch_page; unfold_consts; lia).
    cbn [kpath length]. apply (wp_bind _ 1); [lia|]. eapply wp_fetch; [lia|done|exact Ad| |].
    2: { intros e He Hc. apply (wp_bind _ (len steps0)); [lia|]. unfold drop_steps. eapply (wp_drop_all cap _ _ _ _ gs0); [by rewrite length_fmap|by rewrite Egs, reverse_Permutation|].
         apply wp_cret; [lia|]. split; [done|]. split; [exact He|]. split; [done|]. specialize (Hc _ HmU Hl). lia. }
    intros sg _ Gs Ws _. assert (Hg' : held (sg :: gs) g (tpage T)) by (destruct Hg; split; [by right|done]).
    apply (wp_bind _ 0); [lia|]. eapply wp_mono; [reflexivity| |eapply (wp_sibling_check m (sg :: gs) g sg T U); [exact HT|exact HU|exact Hg'|by split; [left|]]].
    intros r m' gs' (-> & -> & ->). assert (SzU : floor_of t h <= tcount U) by (by eapply floor_le).
    destruct (Z.leb_spec (tcount U) (floor_of t h)) as [HfU|HfU].
    + destruct (fits_pop m K p xs c ys T lo hi next F) as (lo2 & hi2 & next2 & F').
      eapply wp_mono; [| |eapply (IH m (sg :: gs) gs0 (p, xs ++ (c, T) :: ys) lo2 hi2 next2 pg us' (steps0 ++ [mkDeleteStep sg (0 <? len xs) kMerge])); try done].
      * rewrite length_app. cbn [length]. lia.
      * intros [plan|e] m' gs' [-> R]; (split; [done|]).
        -- destruct R as (ss & E & Pl & ->). exists (mkDeleteStep sg (0 <? len xs) kMerge :: ss). rewrite E, <- app_assoc. split; [done|].
           rewrite fmap_cons, reverse_cons, <- app_assoc. split; [|done]. right. split; [done|]. eexists _, ss, U. split; [done|]. split; [by split_and!|]. cbn [fix_]. split; [lia|done].
        -- destruct R as (R1 & R2 & R3). split_and!; try done. cbn [length] in R3. lia.
      * by split; [right|].
      * eapply Forall2_impl; [exact Hu|]. intros g0 q (G1 & G2). by split; [right|].
      * intros E. by destruct steps0.
      * by apply PO'.
      * rewrite fmap_app, reverse_app, <- app_assoc, <- Egs. done.
    + apply wp_cret; [lia|]. split; [done|]. exists [mkDeleteStep sg (0 <? len xs) kRedistribute]. split; [done|]. split; [|done].
      right. split; [done|]. eexists _, [], U. split; [done|]. split; [by split_and!|]. by cbn [fix_].
Qed.
End plan.
