(* ===== verification/BPlusTreeApply.v ===== *)
(** * Applying a deletion plan

    From the leaf up: a node one item short is merged with its neighbour, which leaves the
    parent one child short, until a node has an item to spare or a neighbour lends one.  The
    plan says beforehand where that is. *)

From stdpp Require Import gmap.
From S2P Require Import Prelude Common NodeArray LeafNode LeafNodeProofs LeafNodeTheorems.
From S2P Require Import InternalNode InternalNodeProofs InternalNodeTheorems.
From S2P Require Import BufferPool BufferPoolOps PoolRefine PageStore PageStoreLogic.
From S2P Require Import BPlusTree BPlusTreeSpec BPlusTreePath BPlusTreeRead BPlusTreeWrite BPlusTreeKids BPlusTreeInsert BPlusTreeShape BPlusTreeRebalance BPlusTreePlan.

(** A plan depends on the hole by its size only. *)
Lemma planned_count t {H h} (K : ctx H h) : forall (T T' : tree h) ss co, tcount T = tcount T' -> planned t K T ss co -> planned t K T' ss co.
Proof.
  induction K as [|h p xs c ys K IH]; intros T T' ss co E; cbn [planned]; rewrite E; [done|].
  intros [P|(P1 & st & ss' & U & -> & B & P)]; [by left|]. right. split; [done|]. exists st, ss', U. split; [done|]. split; [done|].
  destruct (fix_ st); [done|]. destruct P as [P2 P]. split; [done|]. eapply IH; [|exact P]. cbn. rewrite !length_app. done.
Qed.

(** The entries below a list of children. *)
Definition centries {h} (cs : list (Z * tree h)) : list LeafEntry := cleaves cs ≫= snd.

Lemma centries_app {h} (xs ys : list (Z * tree h)) : centries (xs ++ ys) = centries xs ++ centries ys.
Proof. unfold centries. by rewrite cleaves_app, bind_app. Qed.

Lemma centries_cons {h} c (T : tree h) cs : centries ((c, T) :: cs) = tentries T ++ centries cs.
Proof. unfold centries, tentries. by rewrite cleaves_cons, bind_app. Qed.

Lemma tentries_node {h} p (cs : list (Z * tree h)) : @tentries (S h) (p, cs) = centries cs.
Proof. unfold tentries, centries. by rewrite tleaves_node. Qed.

Lemma tentries_plug {H h} (K : ctx H h) T : tentries (plug K T) = (kl K ≫= snd) ++ tentries T ++ (kr K ≫= snd).
Proof. unfold tentries. by rewrite tleaves_plug, !bind_app. Qed.

(** The pair a planned step works on: the short node [T'] and its neighbour [U], in key order. *)
Record step_pair (t : BPlusTree) (m : pages_t) (gs : list PageGuard) {H h} (K : ctx H (S h)) (p : Z) (xs : list (Z * tree h)) (c : Z) (ys : list (Z * tree h))
    (g : PageGuard) (T' U : tree h) (st : DeleteStep) (A : list (Z * tree h)) (a : Z) (L : tree h) (sep : Z) (R : tree h) (D : list (Z * tree h))
    (lo : Z) (hi : option Z) (next : Z) : Prop := {
  sp_pair : pair_at t m K p A a L sep R D lo hi next;
  sp_apart : apart K p A L R D;
  sp_left : held gs (if sibling_is_left st then sibling st else g) (tpage L);
  sp_right : held gs (if sibling_is_left st then g else sibling st) (tpage R);
  sp_slot : (if sibling_is_left st then len xs else len xs + 1) = len A + 1;
  sp_order : if sibling_is_left st then L = U /\ R = T' else L = T' /\ R = U;
  sp_size : size_ok t false h (tcount U);
  sp_count : len xs + len ys = len A + len D + 1;
  sp_pages : (p :: cpages (couple A a L sep R D)) ++ kpages K ≡ₚ tpages T' ++ kpages (up p xs c ys K);
  sp_entries : centries xs ++ tentries T' ++ centries ys = centries A ++ tentries L ++ tentries R ++ centries D
}.

Lemma cpages_couple {h} (A : list (Z * tree h)) a L sep R D :
  cpages (couple A a L sep R D) = cpages A ++ tpages L ++ tpages R ++ cpages D.
Proof. unfold couple. by rewrite cpages_app, !cpages_cons. Qed.

Lemma step_pair_of t m gs {H h} (K : ctx H (S h)) p xs c ys g (T' U : tree h) st lo hi next :
  krep t m (up p xs c ys K) (tpage T') (next_of (tleaves T') next) lo hi next -> tshape t m T' lo hi next ->
  NoDup (tpages T' ++ kpages (up p xs c ys K)) -> beside xs ys st U -> held gs g (tpage T') -> sibling st ∈ gs ->
  exists A a L sep R D lo' hi' next', step_pair t m gs K p xs c ys g T' U st A a L sep R D lo' hi' next'.
Proof.
  intros HK HT ND (B & Gp & Gw) Hg Hs. assert (Hs' : held gs (sibling st) (tpage U)) by by split_and!. destruct (sibling_is_left st) eqn:Est.
  - destruct B as (xs0 & b & ->). destruct (pair_left t m K p xs0 b U c ys T' lo hi next HK HT) as (lo' & hi' & next' & PA & Sz).
    assert (P : (p :: cpages (couple xs0 b U c T' ys)) ++ kpages K ≡ₚ tpages T' ++ kpages (up p (xs0 ++ [(b, U)]) c ys K)).
    { cbn [kpages]. rewrite cpages_couple, cpages_app, cpages_cons. change (cpages (h:=h) []) with (@nil Z). perm. }
    exists xs0, b, U, c, T', ys, lo', hi', next'. split; rewrite ?Est; try done.
    + apply (apart_of K p xs0 b U c T' ys). by rewrite P.
    + rewrite length_app. cbn [length]. lia.
    + rewrite length_app. cbn [length]. lia.
    + rewrite centries_app, centries_cons, <- !app_assoc. done.
  - destruct B as (-> & b & ys0 & ->). destruct (pair_right t m K p [] c b U ys0 T' lo hi next HK HT) as (lo' & hi' & next' & PA & Sz).
    assert (P : (p :: cpages (couple [] c T' b U ys0)) ++ kpages K ≡ₚ tpages T' ++ kpages (up p [] c ((b, U) :: ys0) K)).
    { cbn [kpages]. rewrite cpages_couple, cpages_cons. change (cpages (h:=h) []) with (@nil Z). perm. }
    exists [], c, T', b, U, ys0, lo', hi', next'. split; rewrite ?Est; try done.
    + apply (apart_of K p [] c T' b U ys0). by rewrite P.
    + cbn [length]. lia.
    + by rewrite centries_cons.
Qed.

(** The tree a plan leaves, with its root down to one child when the root is to go. *)
Definition settled (t : BPlusTree) (m : pages_t) {H} (T : tree H) (co : bool) : Prop :=
  if co then tshape t m T INT64_MIN None INVALID_PAGE /\ tcount T = 1 /\ H <> O else trep t m true T INT64_MIN None INVALID_PAGE.

Record applied (t : BPlusTree) (gs : list PageGuard) {H h} (K : ctx H h) (T' : tree h) (m : pages_t) (co : bool) (fr : list Z) (m' : pages_t) (T : tree H) : Prop := {
  ad_frame q : q ∉ tpages T' ++ kpages K -> m' !! q = m !! q;
  ad_freed : Forall (fun q => q ∈ g_page <$> gs) fr;
  ad_count : len fr <= len (kpath K);
  ad_pages : tpages T ++ fr ≡ₚ tpages T' ++ kpages K;
  ad_entries : tentries T = (kl K ≫= snd) ++ tentries T' ++ (kr K ≫= snd);
  ad_root : tpage T = kroot K (tpage T');
  ad_settled : settled t m' T co
}.

(** Nothing more to do: the hole is large enough. *)
Lemma applied_plug t gs {H h} (K : ctx H h) (T' T0 : tree h) m m' lo hi next :
  fits t m' K T0 lo hi next -> (forall q, q ∉ tpages T' ++ kpages K -> m' !! q = m !! q) ->
  tpages T0 ≡ₚ tpages T' -> tentries T0 = tentries T' -> tpage T0 = tpage T' -> applied t gs K T' m false [] m' (plug K T0).
Proof.
  intros F Fr P E Ep. split; try done.
  - cbn [length]. lia.
  - by rewrite app_nil_r, (tpages_plug K), P.
  - by rewrite tentries_plug, E.
  - by rewrite tpage_plug, Ep.
  - by eapply fits_plug.
Qed.

(** What a step does below, seen from the node above. *)
Lemma applied_up t gs {H h} (K : ctx H (S h)) p xs c ys (T' : tree h) (N : tree (S h)) m m1 m' co fr fr1 T :
  applied t gs K N m1 co fr m' T -> tpage N = p -> tentries N = centries xs ++ tentries T' ++ centries ys ->
  tpages N ++ kpages K ++ fr1 ≡ₚ tpages T' ++ kpages (up p xs c ys K) ->
  (forall q, q ∉ tpages T' ++ kpages (up p xs c ys K) -> m1 !! q = m !! q) ->
  Forall (fun q => q ∈ g_page <$> gs) fr1 -> len fr1 <= 1 -> applied t gs (up p xs c ys K) T' m co (fr1 ++ fr) m' T.
Proof.
  intros [A1 A2 A3 A4 A5 A6 A7] Ep Ee P Fr F1 L1. split; try done.
  - intros q Hq. rewrite A1; [by apply Fr|]. rewrite <- P, app_assoc, not_elem_of_app in Hq. tauto.
  - by apply Forall_app.
  - cbn [kpath]. rewrite length_app. cbn [length]. lia.
  - rewrite <- P. transitivity ((tpages T ++ fr) ++ fr1); [perm|]. rewrite A4. perm.
  - rewrite A5, Ee. cbn [kl kr]. rewrite !bind_app, <- !app_assoc. done.
  - rewrite A6, Ep. done.
Qed.

Lemma lower_floor t {h} n : FanoutInRange (leaf_max_ t) = true /\ FanoutInRange (internal_max_ t) = true ->
  n = floor_of t h -> size_ok t false h (n + (floor_of t h - 1)).
Proof. intros [Fl Fi] ->. unfold FanoutInRange, size_ok in *. destruct h; cbn [floor_of max_of]; nlia. Qed.

(** The pages and entries of a rotated pair. *)
Lemma rotated_pair {h} (L R : tree h) l x r :
  items L ++ items R = l ++ x :: r ->
  tpages (tnode (tpage L) l) ++ tpages (tnode (tpage R) (x :: r)) ≡ₚ tpages L ++ tpages R /\
  tentries (tnode (tpage L) l) ++ tentries (tnode (tpage R) (x :: r)) = tentries L ++ tentries R.
Proof.
  intros E. split.
  - rewrite !tpages_below, !tnode_page. rewrite (below_tnode (tpage R) (tpage L) (x :: r)).
    assert (Eb : below (tnode (tpage L) l) ++ below (tnode (tpage L) (x :: r)) = below L ++ below R).
    { rewrite <- tnode_below, <- E, tnode_below. rewrite (below_tnode (tpage L) (tpage R) (items R)). by rewrite !tnode_items. }
    transitivity (tpage L :: tpage R :: below (tnode (tpage L) l) ++ below (tnode (tpage L) (x :: r))); [perm|]. rewrite Eb. perm.
  - rewrite <- (tnode_entries (tpage L)), <- E, (tnode_entries _ (tpage L) (tpage R)). by rewrite !tnode_items.
Qed.

Section apply.
Context {S : Type} `{!PageStore S, !PageStoreLaws S}.
Context (cap : Z) (t : BPlusTree).
Hypothesis Fo : FanoutInRange (leaf_max_ t) = true /\ FanoutInRange (internal_max_ t) = true.

(** The parent of a merged pair, one child short. *)
Lemma merged_parent m m1 gs {H h} (K : ctx H (Datatypes.S h)) p xs c ys g (T' U : tree h) st A a L sep R D lo' hi' next' co fr m' T :
  step_pair t m gs K p xs c ys g T' U st A a L sep R D lo' hi' next' ->
  (forall q, q <> p -> q <> tpage L -> m1 !! q = m !! q) ->
  applied t gs K ((p, A ++ (a, tmerge L R) :: D) : tree (Datatypes.S h)) m1 co fr m' T ->
  applied t gs (up p xs c ys K) T' m co (tpage R :: fr) m' T.
Proof.
  intros Sp Fr Ap. pose proof (sp_pages _ _ _ _ _ _ _ _ _ _ _ _ _ _ _ _ _ _ _ _ _ Sp) as P. rewrite cpages_couple, (tpages_below L), (tpages_below R) in P.
  apply (applied_up t gs K p xs c ys T' (p, A ++ (a, tmerge L R) :: D) m m1 m' co fr [tpage R] T Ap); try done.
  - rewrite tentries_node, (sp_entries _ _ _ _ _ _ _ _ _ _ _ _ _ _ _ _ _ _ _ _ _ Sp). rewrite centries_app, centries_cons, tmerge_entries, <- !app_assoc. done.
  - rewrite <- P. rewrite tpages_node, cpages_app, cpages_cons, (tpages_below (tmerge L R)), tmerge_page, tmerge_below. perm.
  - intros q Hq. rewrite <- P in Hq. cbn [app] in Hq. repeat rewrite ?not_elem_of_cons, ?not_elem_of_app in Hq. apply Fr; tauto.
  - constructor; [|done]. destruct (sp_right _ _ _ _ _ _ _ _ _ _ _ _ _ _ _ _ _ _ _ _ _ Sp) as (Hg & _ & <-). by apply list_elem_of_fmap_2.
Qed.

(** A rotated pair completes the tree. *)
Lemma rotated_parent m m' gs {H h} (K : ctx H (Datatypes.S h)) p xs c ys g (T' U : tree h) st A a L sep R D lo' hi' next' l x r :
  step_pair t m gs K p xs c ys g T' U st A a L sep R D lo' hi' next' ->
  (forall q, q <> p -> q <> tpage L -> q <> tpage R -> m' !! q = m !! q) -> items L ++ items R = l ++ x :: r ->
  @fits t m' H (Datatypes.S h) K (p, couple A a (tnode (tpage L) l) (bound x) (tnode (tpage R) (x :: r)) D) lo' hi' next' ->
  exists T, applied t gs (up p xs c ys K) T' m false [] m' T.
Proof.
  intros Sp Fr E F. pose proof (sp_pages _ _ _ _ _ _ _ _ _ _ _ _ _ _ _ _ _ _ _ _ _ Sp) as P. destruct (rotated_pair L R l x r E) as [Ep Ee].
  set (N := (p, couple A a (tnode (tpage L) l) (bound x) (tnode (tpage R) (x :: r)) D) : tree (Datatypes.S h)) in *.
  exists (plug K N). change (@nil Z) with (@nil Z ++ []).
  apply (applied_up t gs K p xs c ys T' N m m' m' false [] [] _ (applied_plug t gs K N N m' m' lo' hi' next' F ltac:(done) ltac:(done) eq_refl eq_refl)); try done.
  - unfold N. rewrite tentries_node, (sp_entries _ _ _ _ _ _ _ _ _ _ _ _ _ _ _ _ _ _ _ _ _ Sp). unfold couple.
    rewrite centries_app, !centries_cons, (app_assoc (tentries _)), Ee, <- !app_assoc. done.
  - rewrite <- P, app_nil_r. unfold N. rewrite tpages_node, !cpages_couple. f_equiv. f_equiv. f_equiv. by rewrite !app_assoc, Ep.
  - intros q Hq. rewrite <- P, cpages_couple, (tpages_below L), (tpages_below R) in Hq. cbn [app] in Hq.
    repeat rewrite ?not_elem_of_cons, ?not_elem_of_app in Hq. apply Fr; tauto.
Qed.

Lemma wp_Apply_steps gs {H h} (K : ctx H h) : forall m (T T' : tree h) ss co lo hi next g us,
  krep t m K (tpage T') (next_of (tleaves T') next) lo hi next -> tshape t m T' lo hi next ->
  size_ok t (is_root K) h (tcount T) -> tcount T' = tcount T - 1 -> (is_root K = true -> h = 0%nat -> 0 <= tcount T') -> planned t K T ss co ->
  held gs g (tpage T') -> Forall2 (held gs) us (kpath K) -> Forall (fun st => sibling st ∈ gs) ss -> NoDup (tpages T' ++ kpages K) ->
  wp cap (3 * len (kpath K)) (Apply_steps (is_leaf_level h) (g :: us) (kindexes K) ss) m gs (fun fr m' gs' => gs' = gs /\
    exists T1, applied t gs K T' m co fr m' T1).
Proof.
  induction K as [|h p xs c ys K IH]; intros m T T' ss co lo hi next g us HK HT Sz Ec Hr Pl Hg Hu Hss ND; cbn [kpath] in Hu.
  - destruct Pl as [-> ->]. cbn [Apply_steps]. apply wp_pages. intros Bd. apply wp_cret; [cbn; lia|]. split; [done|]. exists T'. destruct HK as (-> & -> & ->).
    split; try done; [cbn; by rewrite app_nil_r|]. unfold settled, size_ok in *. cbn [is_root] in *. destruct H as [|H]; cbn [root_floor] in Sz.
    + apply shape_trep; [done|done|]. unfold size_ok. cbn [root_floor]. specialize (Hr eq_refl eq_refl). lia.
    + destruct (Z.eqb_spec (tcount T) 2); [by split_and!; [|lia|]|]. apply shape_trep; [done|done|]. unfold size_ok. cbn [root_floor]. lia.
  - apply Forall2_cons_inv_r in Hu as (pg & us' & Hpg & Hu & ->). clear Hr. cbn [is_root] in Sz. destruct Pl as [(Hf & -> & ->)|(Hf & st & ss' & U & -> & B & Pl)].
    + cbn [Apply_steps]. apply wp_pages. intros Bd. apply wp_cret; [lia|]. split; [done|]. exists (plug (up p xs c ys K) T'). apply (applied_plug _ _ _ _ _ _ _ lo hi next); try done.
      split; [done|]. apply shape_trep; [done|done|]. unfold size_ok in *. cbn [is_root]. lia.
    + apply Forall_cons in Hss as [Hst Hss]. destruct (step_pair_of t m gs K p xs c ys g T' U st lo hi next HK HT ND B Hg Hst) as (A & a & L & sep & R & D & lo' & hi' & next' & Sp).
      cbn [Apply_steps kindexes kpath length]. rewrite (sp_slot _ _ _ _ _ _ _ _ _ _ _ _ _ _ _ _ _ _ _ _ _ Sp).
      pose proof Sp as [PA Ap Hl Hr _ Od SzU Cn P _]. assert (Od' : tcount L + tcount R = tcount U + (floor_of t h - 1)) by (destruct (sibling_is_left st); destruct Od as [-> ->]; lia).
      destruct (fix_ st); cbv zeta.
      * destruct Pl as (HfU & -> & ->). apply (wp_bind _ 3); [lia|]. eapply wp_mono; [reflexivity| |eapply wp_redistribute; [exact Fo|exact PA|exact Ap|exact Hl|exact Hr|exact Hpg|]].
        -- intros _ m' gs' (-> & Fr & l & x & r & E & F). apply wp_cret; [lia|]. split; [done|]. by eapply rotated_parent.
        -- unfold can_lend, size_ok in *. destruct (sibling_is_left st); destruct Od as [-> ->]; lia.
      * destruct Pl as [HfU Pl]. apply (wp_bind _ 2); [lia|]. eapply wp_mono; [reflexivity| |eapply wp_merge; [exact Fo|exact PA|exact Ap|exact Hl|exact Hr|exact Hpg|rewrite Od'; by apply lower_floor]].
        intros _ m1 gs' (-> & Fr & HK1 & HT1). apply (wp_bind _ (3 * len (kpath K))); [lia|].
        eapply wp_mono; [reflexivity| |eapply (IH m1 (p, xs ++ (c, T) :: ys) (p, A ++ (a, tmerge L R) :: D) ss' co lo' hi' next' pg us'); try done].
        -- intros fr m' gs' (-> & T1 & Ap1). apply wp_cret; [lia|]. split; [done|]. exists T1.
           assert (Er : g_page (if sibling_is_left st then g else sibling st) = tpage R) by apply Hr. rewrite Er. by eapply merged_parent.
        -- pose proof (pa_size _ _ _ _ _ _ _ _ _ _ _ _ _ PA) as Sz'. unfold couple in Sz'. cbn [tcount]. cbn [snd]. unfold size_ok, inode_size in *. cbn [root_floor floor_of max_of].
           rewrite length_app in *. cbn [length] in *. destruct (is_root K); lia.
        -- cbn [tcount snd]. rewrite !length_app. cbn [length]. lia.
        -- rewrite <- P, cpages_couple, (tpages_below L), (tpages_below R) in ND. apply (NoDup_app [tpage R]).
           rewrite tpages_node, cpages_app, cpages_cons, (tpages_below (tmerge L R)), tmerge_page, tmerge_below. 
           eapply NoDup_Permutation_proper; [|exact ND]. perm.
Qed.
End apply.
