(* ===== verification/BPlusTreeDelete.v ===== *)
(** * Deletion from a B+tree: the root and the whole operation *)

From stdpp Require Import gmap.
From S2P Require Import Prelude Common NodeArray LeafNode LeafNodeProofs LeafNodeTheorems.
From S2P Require Import InternalNode InternalNodeProofs InternalNodeTheorems.
From S2P Require Import BufferPool BufferPoolOps PoolRefine PageStore PageStoreLogic.
From S2P Require Import BPlusTree BPlusTreeSpec BPlusTreePath BPlusTreeRead BPlusTreeWrite BPlusTreeKids BPlusTreeInsert BPlusTreeInsertTop.
From S2P Require Import BPlusTreeShape BPlusTreeRebalance BPlusTreePlan BPlusTreeApply.

(** An entry taken out of sorted keys is a deletion from the map. *)
Lemma entry_map_delete A e B : increasing (keys (A ++ e :: B)) -> entry_map (A ++ B) = delete (key e) (entry_map (A ++ e :: B)).
Proof.
  intros I. rewrite keys_app in I. change (increasing (keys A ++ key e :: keys B)) in I. pose proof (increasing_remove _ _ _ I) as I'. pose proof (increasing_NoDup _ I) as ND. rewrite <- Permutation_middle in ND.
  change (NoDup (key e :: keys A ++ keys B)) in ND. rewrite <- keys_app in I', ND. apply NoDup_cons in ND as [N _].
  rewrite entry_map_insert by done. rewrite delete_insert_id; [done|]. by apply entry_map_None.
Qed.

(** The tree a deletion leaves, and the pages it takes out of it. *)
Definition shrunk (t : BPlusTree) (gs : list PageGuard) (m : pages_t) (es : list LeafEntry) (ps fr : list Z) (m' : pages_t) : Prop :=
  exists H' (T' : tree H'), tree_ok t m' T' /\ tentries T' = es /\ tpages T' ++ fr ≡ₚ ps /\ Forall (fun q => q ∈ g_page <$> gs) fr /\
    forall q, q ∉ header_page_id_ t :: ps -> m' !! q = m !! q.

Lemma trep_promote t m {h} (T : tree h) lo hi next :
  FanoutInRange (internal_max_ t) = true -> trep t m false T lo hi next -> trep t m true T lo hi next.
Proof.
  intros Fi. unfold FanoutInRange in Fi. destruct h as [|h]; cbn [trep].
  - intros (P & I & R & [? ?]). split_and!; try done. split; [cbn; lia|done].
  - intros [[P I Hh Ik R [S1 S2]] HC]. split; [|done]. split; try done. split; [nlia|done].
Qed.

(** The only child of a root about to go is a tree of its own. *)
Lemma only_child t m {h} (T : tree (S h)) :
  FanoutInRange (internal_max_ t) = true -> tshape t m T INT64_MIN None INVALID_PAGE -> tcount T = 1 ->
  exists p (T1 : tree h), T = (p, [(INT64_MIN, T1)]) /\ trep t m true T1 INT64_MIN None INVALID_PAGE /\
    exists bs, m !! p = Some bs /\ inode_page p (Z.of_nat (S h)) (canon (entries_of [(INT64_MIN, T1)])) bs.
Proof.
  intros Fi [Pg Kd] Ec. destruct T as [p cs]. cbn [tcount snd] in Ec. destruct cs as [|[c T1] [|y cs]]; cbn [length] in Ec; [lia| |lia].
  destruct Kd as [Hh _ _ _ [Hc _]]. cbn in Hh. injection Hh as ->. exists p, T1. split; [done|]. split; [by apply trep_promote|exact Pg].
Qed.

Lemma kroot_last {H h} (K : ctx H h) pg : last (pg :: kpath K) = Some (kroot K pg).
Proof. revert pg. induction K as [|h p xs c ys K IH]; intros pg; [done|]. cbn [kpath kroot]. rewrite last_cons_cons. apply IH. Qed.

Lemma head_path (nodes : list PageGuard) gs l q :
  Forall2 (held gs) (reverse nodes) l -> last l = Some q -> exists g rest, nodes = g :: rest /\ held gs g q.
Proof.
  intros F E. destruct nodes as [|g rest]; [apply Forall2_nil_inv_l in F as ->; done|]. exists g, rest. split; [done|].
  rewrite reverse_cons in F. apply Forall2_app_inv_l in F as (l1 & l2 & F1 & F2 & ->). apply Forall2_cons_inv_l in F2 as (y & l3 & Hy & F3 & ->).
  apply Forall2_nil_inv_l in F3 as ->. rewrite last_snoc in E. by injection E as <-.
Qed.

Section delete.
Context {S : Type} `{!PageStore S, !PageStoreLaws S}.
Context (cap : Z) (t : BPlusTree).
Hypothesis Fo : FanoutInRange (leaf_max_ t) = true /\ FanoutInRange (internal_max_ t) = true.

Lemma applied_shrunk gs {H} (K : ctx H 0) (L' : tree 0) m fr m' T1 :
  applied t gs K L' m false fr m' T1 ->
  (exists bs, m !! header_page_id_ t = Some bs /\ header_page (header_page_id_ t) (hdr t H (kroot K (tpage L'))) bs) ->
  NoDup (header_page_id_ t :: tpages L' ++ kpages K) ->
  shrunk t gs m ((kl K ≫= snd) ++ tentries L' ++ (kr K ≫= snd)) (tpages L' ++ kpages K) fr m'.
Proof.
  intros [A1 A2 _ A4 A5 A6 A7] (bs & Hm & Hh) ND. apply NoDup_cons in ND as [Nh ND]. exists H, T1. split_and!; try done.
  - split; [done| |done|].
    + exists bs. rewrite A1 by done. unfold header_of_tree. rewrite A6. done.
    + apply NoDup_cons. rewrite <- A4 in Nh, ND. apply not_elem_of_app in Nh as [Nh _]. by apply NoDup_app in ND as [ND _].
  - intros q [_ Hq]%not_elem_of_cons. by apply A1.
Qed.

(** The root goes: the header names its child. *)
Lemma wp_collapse gs {H} (K : ctx H 0) (L' : tree 0) m0 m fr T1 path :
  applied t gs K L' m0 true fr m T1 -> (H < 31)%nat -> header path = hdr t H (kroot K (tpage L')) -> held gs (header_guard path) (header_page_id_ t) ->
  (exists bs, m0 !! header_page_id_ t = Some bs /\ header_page (header_page_id_ t) (header path) bs) ->
  NoDup (header_page_id_ t :: tpages L' ++ kpages K) -> Forall2 (held gs) (reverse (nodes path)) (tpage L' :: kpath K) ->
  wp cap 1 (match nodes path with
    | [] => abort
    | root_guard :: _ =>
        do root <- internal_view root_guard ;
        if negb (Count root =? 1) then abort
        else
          asserting (InternalNode.EntryAt_asserts 0 root) (
          let h := header path in
          put_index_header (header_guard path)
            (mkIndexHeader (ChildAt 0 root) (u16 (height h - 1)) (leaf_max h) (internal_max h) (ih_reserved h)) ;;;
          cret (fr ++ [g_page root_guard]))
    end)%client m gs (fun fr' m' gs' => gs' = gs /\ len fr' = len fr + 1 /\
      shrunk t gs m0 ((kl K ≫= snd) ++ tentries L' ++ (kr K ≫= snd)) (tpages L' ++ kpages K) fr' m').
Proof.
  intros [A1 A2 _ A4 A5 A6 (A7 & Ec & HH)] HH' Eh (Hh & Wh & Ph) (bs & Hm & Hp) ND Hn. apply wp_pages. intros Bd. destruct H as [|H]; [done|]. destruct Fo as [Fl Fi].
  destruct (only_child t m T1 Fi A7 Ec) as (p & T2 & -> & HT2 & bs1 & Hm1 & Hp1). apply NoDup_cons in ND as [Nh ND]. rewrite <- A4 in Nh, ND.
  rewrite tpages_node, cpages_cons in A4, Nh, ND. change (cpages (h:=H) []) with (@nil Z) in *. rewrite app_nil_r in *. cbn [app] in *.
  rewrite tentries_node, centries_cons in A5. unfold centries in A5. cbn in A5. rewrite app_nil_r in A5.
  destruct (head_path _ _ _ _ Hn (kroot_last K (tpage L'))) as (rg & rest & -> & (Hr & _ & Pr)). change (p = kroot K (tpage L')) in A6. rewrite <- A6 in Pr.
  apply (wp_bind _ 0); [lia|]. eapply wp_internal_view; [lia|done|exact Pr|exact Hm1|exact Hp1|]. intros tail Ok.
  pose proof (ChildAt_canon _ _ _ 0 (mkInternalEntry INT64_MIN (tpage T2) 0) Ok eq_refl) as Ech. change (Z.of_nat 0) with 0 in Ech. cbv zeta. rewrite Ech.
  rewrite Count_inode by done. change (negb (len (canon (entries_of [(INT64_MIN, T2)])) =? 1)) with false. cbn iota.
  rewrite asserting_ok by (by apply EntryAt_asserts_inode). rewrite Eh. cbn [child height leaf_max internal_max ih_reserved hdr].
  rewrite u16_id by (unfold is_u16; lia). replace (Z.of_nat (Datatypes.S H) + 1 - 1) with (Z.of_nat H + 1) by lia.
  assert (Hq : 2 <= tpage T2 < 2 ^ 31) by (destruct (trep_page _ _ _ _ _ _ _ HT2) as (bs2 & Hm2 & _); by destruct (Bd _ _ Hm2)).
  apply not_elem_of_cons in Nh as [Nhp Nh]. assert (Nh' : header_page_id_ t ∉ tpages L' ++ kpages K) by (rewrite <- A4; by apply not_elem_of_cons).
  apply (wp_bind _ 1); [lia|]. eapply wp_put_index_header; [lia|done|done|exact Ph|rewrite A1 by done; exact Hm|exact Hp|apply (hdr_wf t H); [done|lia|done]|].
  intros bs' Hp'. apply wp_cret; [lia|]. split; [done|]. split; [rewrite length_app; cbn [length]; lia|]. apply not_elem_of_app in Nh as [Nh _].
  apply NoDup_cons in ND as [_ ND]. apply NoDup_app in ND as (ND & _ & _). exists H, T2. split; [|split; [by rewrite A5|split; [|split]]].
  - split; [done|exists bs'; by rewrite lookup_insert_eq| |by apply NoDup_cons].
    eapply trep_frame; [|exact HT2]. intros q Hq'. rewrite lookup_insert_ne; [done|]. by intros <-.
  - rewrite <- A4, Pr. perm.
  - apply Forall_app. split; [done|]. constructor; [|done]. by apply list_elem_of_fmap_2.
  - intros q [Hq1 Hq2]%not_elem_of_cons. rewrite lookup_insert_ne by done. by apply A1.
Qed.

Lemma wp_ApplyDeletePlan gs {H} (K : ctx H 0) m (L L' : tree 0) plan lo hi next g us path :
  krep t m K (tpage L') (next_of (tleaves L') next) lo hi next -> tshape t m L' lo hi next ->
  size_ok t (is_root K) 0 (tcount L) -> tcount L' = tcount L - 1 -> 0 <= tcount L' -> planned t K L (steps plan) (collapse_root plan) ->
  reverse (nodes path) = g :: us -> reverse (child_indexes path) = kindexes K -> header path = hdr t H (kroot K (tpage L')) -> (H < 31)%nat ->
  held gs g (tpage L') -> Forall2 (held gs) us (kpath K) -> held gs (header_guard path) (header_page_id_ t) ->
  (exists bs, m !! header_page_id_ t = Some bs /\ header_page (header_page_id_ t) (header path) bs) ->
  Forall (fun st => sibling st ∈ gs) (steps plan) -> NoDup (header_page_id_ t :: tpages L' ++ kpages K) ->
  wp cap (3 * len (kpath K) + 1) (ApplyDeletePlan path plan) m gs (fun fr m' gs' => gs' = gs /\ len fr <= len (kpath K) + 1 /\
    shrunk t gs m ((kl K ≫= snd) ++ tentries L' ++ (kr K ≫= snd)) (tpages L' ++ kpages K) fr m').
Proof.
  intros HK HT Sz Ec Hc Pl En Ei Eh HH Hg Hu Hh Hd Hss ND. unfold ApplyDeletePlan. rewrite En, Ei. apply (wp_bind _ (3 * len (kpath K))); [lia|].
  eapply wp_mono; [reflexivity| |eapply (wp_Apply_steps cap t Fo gs K m L L'); try done; by apply NoDup_cons in ND as [_ ND]].
  intros fr m1 gs' (-> & T1 & Ap). pose proof (ad_count _ _ _ _ _ _ _ _ _ Ap) as Hf. destruct (collapse_root plan).
  - eapply wp_mono; [| |eapply (wp_collapse gs K L' m m1 fr T1 path Ap); try done; rewrite En; by constructor]; [lia|].
    intros fr' m' gs' (-> & Hl & Sh). split_and!; try done. lia.
  - apply wp_cret; [lia|]. split; [done|]. split; [lia|]. eapply applied_shrunk; try done. by rewrite <- Eh.
Qed.

(** ** The leaf *)

(** The leaf with one entry out, in its place. *)
Lemma leaf_removed m {H} (T : tree H) k K p l1 e l2 lo hi next bs :
  tree_ok t m T -> leaf_at t m T k K (p, l1 ++ e :: l2) lo hi next -> leaf_page p next (l1 ++ l2) bs ->
  krep t (<[p := bs]> m) K p (next_of (@tleaves 0 (p, l1 ++ l2)) next) lo hi next /\
  @tshape t (<[p := bs]> m) 0 (p, l1 ++ l2) lo hi next.
Proof.
  intros HT [[HK (_ & Inv & R & Sz)] [_ EP]] Hp. cbn [snd fst] in *. pose proof (tk_pages _ _ _ HT) as ND. rewrite <- EP, (tpages_plug K) in ND.
  apply NoDup_cons in ND as [_ ND]. cbn [tpages fst app] in ND. apply NoDup_cons in ND as [Np ND]. split.
  - eapply krep_frame; [|exact HK]. intros q Hq. rewrite lookup_insert_ne; [done|]. by intros ->.
  - split; [exists bs; by rewrite lookup_insert_eq|]. destruct Inv as [N V I]. rewrite keys_app in *. apply Forall_app in R as [R1 R2], V as [V1 V2].
    apply Forall_cons in R2 as [_ R2], V2 as [_ V2]. split; [split|]; cbn [snd].
    + done.
    + by apply Forall_app.
    + rewrite keys_app. by eapply increasing_remove.
    + rewrite keys_app. by apply Forall_app.
Qed.

Lemma planned_length {H h} (K : ctx H h) : forall (T : tree h) ss co, planned t K T ss co -> len ss <= len (kpath K).
Proof.
  induction K as [|h p xs c ys K IH]; intros T ss co; cbn [planned kpath length]; [intros [-> _]; cbn; lia|].
  intros [(_ & -> & _)|(_ & st & ss' & U & -> & _ & P)]; [cbn; lia|]. cbn [length]. destruct (fix_ st); [destruct P as (_ & -> & _); cbn; lia|].
  destruct P as [_ P]. apply IH in P. lia.
Qed.

(** The path's guards are the only ones on the tree. *)
Lemma on_path_only hd path gs gs' {H} (K : ctx H 0) (L : tree 0) is_ :
  on_path t hd path (tpage L :: kpath K) is_ gs gs' -> NoDup (header_page_id_ t :: tpages (plug K L)) ->
  unlatched gs (header_page_id_ t :: tpages (plug K L)) -> path_only K gs'.
Proof.
  intros [Pg _ _ Hh _ _ ->] ND U g Hg Hk. rewrite (tpages_plug K L) in ND. apply NoDup_cons in ND as [Nh ND]. apply NoDup_app in ND as (_ & Dj & _).
  apply elem_of_app in Hg as [Hg|Hg].
  - apply (list_elem_of_fmap_2 g_page) in Hg. rewrite Pg in Hg. apply elem_of_cons in Hg as [E|Hg]; [|done]. destruct (Dj (tpage L)); [apply tpage_in|by rewrite <- E].
  - apply elem_of_cons in Hg as [->|Hg].
    + rewrite Hh in Hk. destruct Nh. apply elem_of_app. by right.
    + destruct (U g Hg). right. rewrite (tpages_plug K L). apply elem_of_app. by right.
Qed.

(** ** The whole operation *)

(** What is left of the tree before its freed pages go. *)
Definition cut_out (m : pages_t) {H} (T : tree H) (k : Z) (fr : list Z) (m' : pages_t) : Prop :=
  exists H' (T' : tree H'), tree_ok t m' T' /\ index_contents T' = delete k (index_contents T) /\ tpages T' ++ fr ≡ₚ tpages T /\
    Forall (fun q => is_Some (m' !! q)) fr /\ forall q, q ∉ header_page_id_ t :: tpages T -> m' !! q = m !! q.

(** The key is in the leaf: plan, remove, apply. *)
Lemma wp_Delete_found m gs gs' {H} (T : tree H) (K : ctx H 0) p l1 e l2 lo hi next path tail g us :
  tree_ok t m T -> (H < 31)%nat -> leaf_at t m T (key e) K (p, l1 ++ e :: l2) lo hi next -> leaf_ok next (l1 ++ e :: l2) tail ->
  on_path t (header_of_tree t T) path (p :: kpath K) (kindexes K) gs gs' -> unlatched gs (header_page_id_ t :: tpages T) ->
  reverse (nodes path) = g :: us ->
  wp cap (2 + 6 * Z.of_nat H)
    (do plan <- PlanDelete t true (reverse (nodes path)) (reverse (child_indexes path)) [] ;
     match plan with
     | Error e => cret (Error e)
     | Ok plan =>
         asserting (LeafNode.RemoveAt_asserts (len l1) (leaf next (l1 ++ e :: l2) tail)) (
         set_body g (LeafNode.RemoveAt (len l1) (leaf next (l1 ++ e :: l2) tail))) ;;;
         do to_free <- ApplyDeletePlan path plan ;
         drop_steps (steps plan) ;;;
         cret (Ok to_free)
     end)%client m gs' (fun r m' gs'' => gs'' = gs' /\
       match r with
       | Ok fr => len fr <= Z.of_nat H + 1 /\ cut_out m T (key e) fr m'
       | Error e => failed e /\ m' = m /\ cap <= len gs + 2 * Z.of_nat H + 2
       end).
Proof.
  intros HT HH At Ok On U En. pose proof At as (F & Hk & EP). pose proof (kpath_length K) as HKl. destruct (on_path_leaf _ _ _ _ _ _ _ _ On) as (g' & us' & En' & Hg & Hu & Hh & _ & Hlg).
  rewrite En in En'. injection En' as <- <-. pose proof (tk_pages _ _ _ HT) as ND. pose proof ND as ND1. rewrite <- EP in ND1. pose proof ND1 as ND0. rewrite (tpages_plug K) in ND0.
  rewrite En, (op_indexes _ _ _ _ _ _ _ On). apply (wp_bind _ (2 * Z.of_nat H)); [lia|].
  eapply wp_mono; [| |eapply (wp_PlanDelete cap t Fo K m gs' gs' ((p, l1 ++ e :: l2) : tree 0) lo hi next g us [] F Hg Hu); try done].
  - cbn [length]. lia.
  - intros [plan|er] m' gs'' [-> R].
    2: { destruct R as (R1 & -> & R2). apply wp_cret; [lia|]. split_and!; try done. lia. }
    destruct R as (ss & Es & Pl & ->). cbn [app] in Es. rewrite <- Es in *. clear ss Es. set (gs2 := reverse (sibling <$> steps plan) ++ gs').
    assert (Sub : forall g q, held gs' g q -> held gs2 g q) by (intros g0 q (G1 & G2); split; [apply elem_of_app; by right|done]).
    destruct (Sub _ _ Hg) as (Hg2 & Gw & Gp). destruct F as [_ ((bs & Hm & Hp) & _ & _ & Sz)]. change (m !! p = Some bs) in Hm.
    apply (wp_bind _ 1); [lia|]. rewrite asserting_ok by (by apply RemoveAt_asserts_leaf). rewrite RemoveAt_leaf by done. eapply wp_set_leaf; [lia|done|done|exact Gp|exact Hm|apply Hp| |].
    { pose proof (lok_entries _ _ _ Ok) as W. pose proof (lok_cap _ _ _ Ok) as Cp. apply Forall_app in W as [W1 W2]. apply Forall_cons in W2 as [_ W2].
      eapply leaf_ok_entries; [exact Ok|rewrite length_app in *; cbn [length] in Cp; lia|by apply Forall_app]. }
    intros bs1 Hp1. destruct (leaf_removed m T (key e) K p l1 e l2 lo hi next bs1 HT At Hp1) as [HK1 HT1].
    assert (Nhp : header_page_id_ t <> p) by (apply NoDup_cons in ND0 as [N _]; cbn in N; by apply not_elem_of_cons in N as [N _]).
    apply (wp_bind _ (3 * len (kpath K) + 1)); [lia|].
    eapply wp_mono; [reflexivity| |eapply (wp_ApplyDeletePlan gs2 K (<[p := bs1]> m) ((p, l1 ++ e :: l2) : tree 0) ((p, l1 ++ l2) : tree 0) plan lo hi next g us path HK1 HT1); try done].
    + intros fr m' gs'' (-> & Hfr & H' & T' & HT' & EE & P & Fg & Fr). apply wp_guards. intros Hgs.
      apply (wp_bind _ (len (steps plan))); [apply planned_length in Pl; lia|]. unfold drop_steps.
      eapply (wp_drop_all cap _ _ _ _ gs'); [by rewrite length_fmap|unfold gs2; by rewrite reverse_Permutation|]. apply wp_cret; [apply planned_length in Pl; lia|].
      split; [done|]. split; [lia|]. exists H', T'. split; [done|]. split; [|split; [|split]].
      * change (entry_map (tentries T') = delete (key e) (entry_map (tentries T))). destruct (leaf_at_keys _ _ _ _ _ _ _ _ _ At) as (ET & _). cbn [snd] in ET.
        pose proof (tree_keys _ _ _ HT) as I. rewrite EE, ET in *. cbn [tentries tleaves]. unfold tentries. cbn. rewrite app_nil_r.
        rewrite <- !app_assoc in *. rewrite !(app_assoc (kl K ≫= snd) l1) in *. cbn [app] in *. by apply entry_map_delete.
      * rewrite P, <- EP, (tpages_plug K). done.
      * eapply Forall_impl; [exact Fg|]. intros q (g0 & -> & Hg0)%list_elem_of_fmap. by apply Hgs.
      * intros q Hq. rewrite <- EP, (tpages_plug K) in Hq. rewrite Fr by exact Hq. rewrite lookup_insert_ne; [done|]. intros <-. apply Hq. right. by left.
    + cbn [tcount snd]. rewrite !length_app. cbn [length]. lia.
    + cbn [tcount snd]. lia.
    + apply On.
    + rewrite (op_header _ _ _ _ _ _ _ On), <- EP. unfold header_of_tree. by rewrite tpage_plug.
    + eapply Forall2_impl; [exact Hu|]. intros. by apply Sub.
    + by apply Sub.
    + destruct (tk_header _ _ _ HT) as (bsh & Hmh & Hph). exists bsh. rewrite lookup_insert_ne by done. by rewrite (op_header _ _ _ _ _ _ _ On).
    + apply Forall_forall. intros st Hst. apply elem_of_app. left. apply elem_of_reverse. by apply list_elem_of_fmap_2.
  - by apply NoDup_cons in ND0 as [_ ND0].
  - apply (on_path_only _ _ gs gs' K ((p, l1 ++ e :: l2) : tree 0) _ On); [exact ND1|by rewrite EP].
Qed.
End delete.

Definition delete_done (t : BPlusTree) (m : pages_t) {H} (T : tree H) (k : Z) (m' : pages_t) : Prop :=
  exists H' (T' : tree H'), tree_ok t m' T' /\ index_contents T' = delete k (index_contents T) /\
    (forall q, q ∈ tpages T' -> q ∈ tpages T) /\ (forall q, q ∈ tpages T -> q ∈ tpages T' \/ m' !! q = None) /\
    (forall q, q ∉ header_page_id_ t :: tpages T -> m' !! q = m !! q).

Definition delete_post (cap : Z) (t : BPlusTree) (m : pages_t) {H} (T : tree H) (k frames : Z) (st : Status) (m' : pages_t) : Prop :=
  (st = StatusOK /\ is_Some (index_contents T !! k) /\ delete_done t m T k m') \/
  (code st = kNotFound /\ index_contents T !! k = None /\ m' = m) \/
  (failed st /\ m' = m /\ cap < frames).

(** The freed pages are deleted last, once no guard is on them. *)
Lemma cut_out_done t m {H} (T : tree H) k fr m1 m' :
  cut_out t m T k fr m1 -> NoDup (header_page_id_ t :: tpages T) -> (forall q, q ∈ fr -> m' !! q = None) -> (forall q, q ∉ fr -> m' !! q = m1 !! q) ->
  delete_done t m T k m'.
Proof.
  intros (H' & T' & HT' & EE & P & _ & Fr) ND F1 F2. rewrite <- P in ND. apply NoDup_cons in ND as [Nh ND]. apply not_elem_of_app in Nh as [_ Nh].
  apply NoDup_app in ND as (_ & Dj & _). exists H', T'. split; [|split; [done|split; [|split]]].
  - eapply tree_ok_frame; [|exact HT']. intros q [->|Hq]%elem_of_cons; apply F2; [done|]. by apply Dj.
  - intros q Hq. rewrite <- P. apply elem_of_app. by left.
  - intros q Hq. rewrite <- P in Hq. apply elem_of_app in Hq as [Hq|Hq]; [by left|right; by apply F1].
  - intros q Hq. rewrite F2, Fr; [done|done|]. rewrite <- P in Hq. rewrite not_elem_of_cons, not_elem_of_app in Hq. tauto.
Qed.

Section delete_op.
Context {S : Type} `{!PageStore S, !PageStoreLaws S}.
Context (cap : Z).

Lemma wp_IndexDelete t m gs {H} (T : tree H) k :
  tree_ok t m T -> is_s64 k -> unlatched gs (header_page_id_ t :: tpages T) ->
  wp cap (8 + 10 * Z.of_nat H) (Delete t k) m gs (fun st m' gs' =>
    gs' = gs /\ delete_post cap t m T k (len gs + 2 * Z.of_nat H + 3) st m').
Proof.
  intros HT Hk U. apply wp_pages. intros Bd. assert (HH : (H < 31)%nat) by (by eapply tree_height). unfold Delete.
  apply (wp_bind _ (3 + 2 * Z.of_nat H)); [lia|]. eapply wp_mono; [reflexivity| |by eapply wp_FindLeafWrite]. intros [path|er] m' gs' [-> R].
  2: { destruct R as (He & -> & Hc). apply wp_cret; [lia|]. split; [done|]. right. right. split_and!; try done. lia. }
  destruct R as (K & [p es] & lo & hi & next & At & On). change (tpage ((p, es) : tree 0)) with p in On.
  destruct (leaf_at_page _ _ _ _ _ _ _ _ _ At) as (bs & tail & Hm & EA & Ok & Inv). change (m !! p = Some bs) in Hm. cbn [snd] in Ok, Inv.
  destruct (on_path_leaf _ _ _ _ _ _ _ _ On) as (g & us & En & Hg & Hu & Hh & Hln & Hlg). pose proof (kpath_length K) as HKl.
  set (Mid := fun r (m' : pages_t) => match r with
    | Ok fr => len fr <= Z.of_nat H + 1 /\ is_Some (index_contents T !! k) /\ cut_out t m T k fr m'
    | Error e => ((code e = kNotFound /\ index_contents T !! k = None) \/ (failed e /\ cap < len gs + 2 * Z.of_nat H + 3)) /\ m' = m end).
  apply (wp_bind _ (2 + 6 * Z.of_nat H)); [lia|]. rewrite En.
  eapply (wp_mono _ _ _ _ _ _ _ (fun r m' gs'' => gs'' = gs' /\ Mid r m')); [reflexivity| |].
  { intros r m' gs'' [-> HM]. apply (wp_bind _ (2 + Z.of_nat H)); [lia|]. eapply wp_mono; [| |eapply wp_drop_path, On]; [cbn [length]; lia|].
    intros _ m'' gs'' [-> ->]. destruct r as [fr|er].
    - destruct HM as (Hl & Hs & Cut). pose proof Cut as (H' & T' & HT' & _ & P & Fs & _). pose proof (tk_pages _ _ _ HT) as ND.
      pose proof ND as ND'. apply NoDup_cons in ND' as [_ ND']. rewrite <- P in ND'. apply NoDup_app in ND' as (_ & _ & ND').
      apply (wp_bind _ (len fr)); [lia|]. apply wp_delete_all; [done|done| |].
      + intros q Hq. rewrite Forall_forall in Fs. split; [by apply Fs|]. intros g0 Hg0 <-. apply (U g0 Hg0). right. rewrite <- P. apply elem_of_app. by right.
      + intros m2 F1 F2. apply wp_cret; [lia|]. split; [done|]. left. split_and!; try done. by eapply cut_out_done.
    - destruct HM as [HM ->]. apply wp_cret; [lia|]. split; [done|]. right. destruct HM as [[? ?]|[? ?]]; [by left|by right]. }
  assert (Hp : leaf_page p next es bs).
  { destruct At as [[_ ((bs' & Hm' & Hp) & _)] _]. change (m !! p = Some bs') in Hm'. rewrite Hm in Hm'. by injection Hm' as <-. }
  pose proof Hg as (Hg' & Gw & Gp). apply (wp_bind _ 0); [lia|]. eapply wp_leaf_view; [lia|done|done|exact Hm|exact Hp|]. clear tail EA Ok. intros tail Ok.
  cbv zeta. pose proof (leaf_find next es tail k Ok (linv_keys _ _ Inv)) as (l1 & l2 & E & Ei & F1 & D). cbv zeta in Ei, D.
  destruct (leaf_at_keys _ _ _ _ _ _ _ _ _ At) as (ET & Fl & Fr). cbn [snd] in ET.
  assert (Hi : len l1 <= len es) by (rewrite E, length_app; lia).
  rewrite asserting_ok by (by apply LowerBound_asserts_leaf). rewrite asserting_ok by (rewrite Ei; by apply EntryAt_guarded). destruct (_ || _).
  - apply wp_cret; [lia|]. split; [done|]. split; [|done]. left. split; [done|]. change (entry_map (tentries T) !! k = None). apply entry_map_None.
    rewrite ET, E, !keys_app, !elem_of_app. rewrite Forall_forall in F1, D. rewrite Forall_forall in Fl, Fr.
    intros [Hx|[[(x & Ex & Hx)%elem_of_keys|(x & Ex & Hx)%elem_of_keys]|Hx]]; [apply Fl in Hx|apply F1 in Hx|apply D in Hx|apply Fr in Hx]; lia.
  - destruct D as (e & l3 & -> & <- & _). rewrite Ei. subst es. rewrite <- En at 1.
    eapply wp_mono; [| |eapply (wp_Delete_found cap t (tk_fanout _ _ _ HT) m gs gs' T K p l1 e l3); try done]; [lia|].
    intros [fr|er] m' gs'' [-> R]; (split; [done|]).
    + destruct R as [Hl Cut]. split; [done|]. split; [|done]. exists (rid e). change (entry_map (tentries T) !! key e = Some (rid e)).
      apply entry_map_lookup; [by eapply tree_keys|]. rewrite ET, !elem_of_app. destruct e. right. left. right. by left.
    + destruct R as (R1 & -> & R2). split; [|done]. right. split; [done|lia].
Qed.
End delete_op.
