(* ===== verification/BPlusTreeOpen.v ===== *)
(** * Creating and opening an index *)

From stdpp Require Import gmap.
From S2P Require Import Prelude Common NodeArray LeafNode LeafNodeProofs InternalNode InternalNodeProofs InternalNodeTheorems.
From S2P Require Import BufferPool BufferPoolOps PoolRefine PageStore PageStoreLogic.
From S2P Require Import BPlusTree BPlusTreeSpec BPlusTreePath BPlusTreeRead BPlusTreeWrite BPlusTreeKids BPlusTreeInsert BPlusTreeInsertTop.

(** Two pages are enough to hold an empty index. *)
Lemma empty_tree_ok t m p bs bs' :
  FanoutInRange (leaf_max_ t) = true /\ FanoutInRange (internal_max_ t) = true -> header_page_id_ t <> p ->
  m !! header_page_id_ t = Some bs -> header_page (header_page_id_ t) (hdr t 0 p) bs ->
  m !! p = Some bs' -> leaf_page p INVALID_PAGE [] bs' -> tree_ok t m ((p, []) : tree 0).
Proof.
  intros Fo Hne Hm Hp Hm' Hp'. pose proof Fo as [Fl _]. unfold FanoutInRange in Fl. split.
  - done.
  - by exists bs.
  - cbn [trep fst snd]. split; [by exists bs'|]. split; [split; [by left|constructor|constructor]|]. split; [constructor|]. split; cbn; nlia.
  - cbn [tpages fst]. rewrite !NoDup_cons, list_elem_of_singleton. split; [done|]. split; [by intros ?%elem_of_nil|constructor].
Qed.

Section open.
Context {S : Type} `{!PageStore S, !PageStoreLaws S}.
Context (cap : Z).

Definition created (m : pages_t) (lm im : Z) (m' : pages_t) (t : BPlusTree) : Prop :=
  leaf_max_ t = lm /\ internal_max_ t = im /\ exists p, tree_ok t m' ((p, []) : tree 0) /\ m !! header_page_id_ t = None /\ m !! p = None /\
    forall q, q <> header_page_id_ t -> q <> p -> m' !! q = m !! q.

Lemma fanout_guard lm : (lm <? MIN_FANOUT) || (NODE_CAPACITY <? lm) = negb (FanoutInRange lm).
Proof. unfold FanoutInRange. destruct (Z.ltb_spec lm MIN_FANOUT), (Z.ltb_spec NODE_CAPACITY lm), (Z.leb_spec MIN_FANOUT lm), (Z.leb_spec lm NODE_CAPACITY); cbn; lia || done. Qed.

(** The two pages, written. *)
Lemma wp_Create_pages m gs lm im hg rg :
  FanoutInRange lm = true /\ FanoutInRange im = true -> held gs hg (g_page hg) -> held gs rg (g_page rg) -> g_page hg <> g_page rg ->
  m !! g_page hg = Some (fresh_page (g_page hg)) -> m !! g_page rg = Some (fresh_page (g_page rg)) ->
  wp cap 4
    (set_header rg (EType INDEX_LEAF) ;;;
     do page <- bytes_of rg ;
     match AsLeaf page with
     | Error e => cret (Error e)
     | Ok root_leaf =>
         set_body rg (LeafNode.Init root_leaf) ;;;
         let idx_header := mkIndexHeader (g_page rg) 1 lm im (ih_reserved IndexHeader_default) in
         set_header hg (EType INDEX_HEADER) ;;;
         do page <- bytes_of hg ;
         let '(s, page) := WriteIndexHeader page idx_header in
         rewrite_page hg (fun page => (WriteIndexHeader page idx_header).2) ;;;
         if negb (ok s) then cret (Error s)
         else cret (Ok (mkBPlusTree (g_page hg) lm im))
     end)%client m gs (fun r m' gs' => gs' = gs /\ r = Ok (mkBPlusTree (g_page hg) lm im) /\
       tree_ok (mkBPlusTree (g_page hg) lm im) m' ((g_page rg, []) : tree 0) /\ forall q, q <> g_page hg -> q <> g_page rg -> m' !! q = m !! q).
Proof.
  intros Fo (Hh & Wh & _) (Hr & Wr & _) Hne Hmh Hmr. apply wp_pages. intros Bd. destruct (Bd _ _ Hmh) as [_ Bh], (Bd _ _ Hmr) as [_ Br].
  destruct (retyped_page INDEX_LEAF (g_page rg) ltac:(done) Br) as [Ty Eb], (retyped_page INDEX_HEADER (g_page hg) ltac:(done) Bh) as [Tyh _].
  apply (wp_bind _ 1); [lia|]. eapply wp_retype; [lia|done|done|done|done|]. apply (wp_bind _ 0); [lia|]. apply wp_bytes; [lia|done|].
  rewrite lookup_insert_eq. intros ? [= <-] _ _. unfold AsLeaf. change (PageHeader_ReadFrom _) with (page_header (retyped INDEX_LEAF (g_page rg))).
  rewrite (tp_type _ _ _ Ty), decide_False by (intros F; by apply F). change (slice PAGE_HEADER_SIZE PAGE_BODY_SIZE _) with (page_body (retyped INDEX_LEAF (g_page rg))).
  rewrite Eb, Init_leaf. apply (wp_bind _ 1); [lia|]. eapply wp_set_leaf; [lia|done|done|done|by rewrite lookup_insert_eq|exact Ty|split; [done|cbn; nlia|constructor|done]|].
  intros bs Hp. rewrite insert_insert_eq. cbv zeta. apply (wp_bind _ 1); [lia|]. eapply wp_retype; [lia|done|done|done|by rewrite lookup_insert_ne|].
  apply (wp_bind _ 0); [lia|]. apply wp_bytes; [lia|done|]. rewrite lookup_insert_eq. intros ? [= <-] _ _.
  set (h := mkIndexHeader _ _ _ _ _). assert (Wf : IndexHeader_wf h) by (apply (hdr_wf (mkBPlusTree (g_page hg) lm im) 0); [done|lia|done]).
  destruct (WriteIndexHeader_page _ h _ Tyh Wf) as [Es Hp']. destruct (WriteIndexHeader (retyped INDEX_HEADER (g_page hg)) h) as [s page] eqn:E. cbn [fst snd] in Es, Hp'.
  apply (wp_bind _ 1); [lia|]. eapply wp_rewrite; [lia|done|done|by rewrite lookup_insert_eq|intros; by apply length_WriteIndexHeader|]. rewrite Es, E. cbn [negb snd].
  apply wp_cret; [lia|]. split; [done|]. split; [done|]. rewrite insert_insert_eq. split.
  - eapply empty_tree_ok; cbn [header_page_id_ leaf_max_ internal_max_]; [done|done|by rewrite lookup_insert_eq|exact Hp'|by rewrite lookup_insert_ne, lookup_insert_eq|exact Hp].
  - intros q Q1 Q2. by rewrite !lookup_insert_ne.
Qed.

Lemma wp_IndexCreate m gs lm im :
  wp cap 8 (Create lm im) m gs (fun r m' gs' => gs' = gs /\
    match r with
    | Ok t => created m lm im m' t
    | Error e => m' = m /\ (FanoutInRange lm && FanoutInRange im = false /\ code e = kInvalidArgument \/
        FanoutInRange lm && FanoutInRange im = true /\ ok e = false /\ cap <= len gs + 1)
    end).
Proof.
  unfold Create. rewrite !fanout_guard. destruct (FanoutInRange lm) eqn:El; cbn [negb andb]; [|apply wp_cret; [lia|]; split_and!; try done; by left].
  destruct (FanoutInRange im) eqn:Ei; cbn [negb]; [|apply wp_cret; [lia|]; split_and!; try done; by left].
  apply wp_guards. intros Hgs. apply (wp_bind _ 1); [lia|]. apply wp_new; [lia| |].
  2: { intros e He Hc. apply wp_cret; [lia|]. split_and!; try done. right. split_and!; try done. lia. }
  intros hg Hn Bh Wh. apply (wp_bind _ 1); [lia|]. apply wp_new; [lia| |].
  - intros rg Hn' Br Wr. assert (Hne : g_page hg <> g_page rg) by (intros E; rewrite <- E, lookup_insert_eq in Hn'; done). rewrite lookup_insert_ne in Hn' by done.
    apply (wp_bind _ 5); [lia|]. apply wp_scoped; [lia|].
    eapply wp_mono; [| |eapply (wp_Create_pages _ _ lm im hg rg); [done|split; [right; by left|done]|split; [by left|done]|done|by rewrite lookup_insert_ne, lookup_insert_eq|by rewrite lookup_insert_eq]]; [lia|].
    intros r m' gs' (-> & -> & HT & Fr). eexists (hg :: gs). split; [done|]. apply (wp_bind _ 1); [lia|]. eapply wp_drop; [lia|done|]. apply wp_cret; [lia|].
    split; [done|]. split; [done|]. split; [done|]. exists (g_page rg). split_and!; try done. intros q Q1 Q2. cbn in Q1. rewrite Fr by done. by rewrite !lookup_insert_ne.
  - intros e He Hc. apply (wp_bind _ 1); [lia|]. eapply wp_drop; [lia|done|]. apply (wp_bind _ 1); [lia|]. apply wp_delete; [lia| |].
    + intros _. apply wp_cret; [lia|]. split; [done|]. rewrite delete_insert_id by done. split; [done|]. right. split_and!; try done. cbn [length] in Hc. lia.
    + intros e' _ [E|(g & Hg & E)]; [by rewrite lookup_insert_eq in E|]. apply Hgs in Hg. rewrite E, Hn in Hg. by destruct Hg.
Qed.

Lemma wp_IndexOpen t m gs {H} (T : tree H) :
  tree_ok t m T -> admissible false (header_page_id_ t) gs ->
  wp cap 2 (Open (header_page_id_ t)) m gs (fun r m' gs' => m' = m /\ gs' = gs /\
    match r with Ok t' => t' = t | Error e => failed e /\ cap <= len gs end).
Proof.
  intros HT Ad. unfold Open. destruct (tree_header t m T HT) as (bs & Hm & Hl & EH). apply wp_pages. intros Bd.
  assert (Np : can_fetch (header_page_id_ t)) by (destruct (Bd _ _ Hm); apply can_fetch_page; unfold_consts; lia).
  apply (wp_bind _ 1); [lia|]. eapply wp_fetch; [lia|done|done| |].
  2: { intros e He Hc. apply wp_cret; [lia|]. split_and!; try done. by eapply Hc. }
  intros g bs' Gp Gw _. apply wp_scoped; [lia|]. apply (wp_bind _ 0); [lia|]. apply wp_bytes; [lia|by left|]. rewrite Gp, Hm. intros ? [= <-] _ _. rewrite EH.
  unfold header_of_tree. cbn [leaf_max internal_max]. destruct (tk_fanout _ _ _ HT) as [-> ->]. cbn [negb orb]. apply wp_cret; [lia|]. exists gs.
  split; [done|]. split_and!; try done. by destruct t.
Qed.
End open.

(** ** Sizes *)

(** Every leaf but a lone root has an entry. *)
Lemma leaves_entries t m {h} (T : tree h) lo hi next :
  FanoutInRange (leaf_max_ t) = true -> trep t m false T lo hi next -> (length (tleaves T) <= length (tentries T))%nat.
Proof.
  intros Fl. unfold FanoutInRange in Fl. revert lo hi next. induction h as [|h IH]; intros lo hi next.
  - destruct T as [p es]. cbn [trep fst snd]. intros (_ & _ & _ & [Sz _]). unfold tentries. cbn. rewrite app_nil_r. unfold LeafMinEntries in Sz. nlia.
  - destruct T as [p cs]. intros [_ HC]. cbn [snd] in HC. unfold tentries. rewrite tleaves_node. clear p. induction cs as [|[c T] cs IHc]; [cbn; lia|].
    cbn [crep] in HC. destruct HC as [HT HC]. rewrite cleaves_cons, bind_app, !length_app. apply IHc in HC. apply IH in HT. unfold tentries in HT. lia.
Qed.

Lemma tree_leaves t m {h} (T : tree h) : tree_ok t m T -> (length (tleaves T) <= 1 + length (tentries T))%nat.
Proof.
  intros [[Fl Fi] _ HT _]. destruct h as [|h]; [cbn; lia|]. destruct T as [p cs]. destruct HT as [_ HC]. cbn [snd] in HC.
  unfold tentries. rewrite tleaves_node. clear p. assert (G : (length (cleaves cs) <= length (cleaves cs ≫= snd))%nat); [|lia].
  revert HC. generalize (@None Z) INVALID_PAGE. intros hi next. induction cs as [|[c T] cs IH]; [cbn; lia|]. cbn [crep]. intros [HT HC].
  rewrite cleaves_cons, bind_app, !length_app. apply IH in HC. apply leaves_entries in HT; [|done]. unfold tentries in HT. lia.
Qed.

Lemma contents_size t m {h} (T : tree h) : tree_ok t m T -> size (index_contents T) = length (tentries T).
Proof.
  intros HT. unfold index_contents. rewrite <- length_map_to_list, map_to_list_to_map.
  - apply length_fmap.
  - rewrite entry_map_keys. apply increasing_NoDup. by eapply tree_keys.
Qed.
