(* ===== verification/BPlusTreeTheorems.v ===== *)
(** * What the index promises

    An index is a map from keys to RIDs: every sequence of operations behaves as that map,
    scans list a range of it in key order, failures leave every page alone, and the tree stays
    one that [CheckInvariants] accepts. *)

From stdpp Require Import gmap.
From S2P Require Import Prelude Common DiskManager DiskProofs DiskTheorems NodeArray LeafNode LeafNodeProofs LeafNodeTheorems.
From S2P Require Import InternalNode InternalNodeProofs InternalNodeTheorems.
From S2P Require Import BufferPool BufferPoolOps PoolRefine PoolRefineProofs BufferPoolTheorems PageStore PageStoreLogic PoolStore.
From S2P Require Import BPlusTree BPlusTreeSpec BPlusTreePath BPlusTreeRead BPlusTreeScan BPlusTreeCheck BPlusTreeWrite BPlusTreeInsertTop.
From S2P Require Import BPlusTreeDelete BPlusTreeOpen.

(** ** The abstract index *)

Inductive IndexOp :=
  | IInsert (k : Z) (r : RID)
  | IGet (k : Z)
  | IDelete (k : Z)
  | IScan (lo hi : Z)
  | ICheck.

Inductive IndexOut :=
  | IDone (s : Status)
  | IFound (r : Result RID)
  | IRows (r : Result (list LeafEntry))
  | IValid (b : bool).

Inductive index_spec (M : gmap Z RID) : IndexOp -> IndexOut -> gmap Z RID -> Prop :=
  | ix_insert k r : M !! k = None -> index_spec M (IInsert k r) (IDone StatusOK) (<[k := r]> M)
  | ix_duplicate k r e : is_Some (M !! k) -> code e = kDuplicateKey -> index_spec M (IInsert k r) (IDone e) M
  | ix_get k r : M !! k = Some r -> index_spec M (IGet k) (IFound (Ok r)) M
  | ix_get_missing k e : M !! k = None -> code e = kNotFound -> index_spec M (IGet k) (IFound (Error e)) M
  | ix_delete k : is_Some (M !! k) -> index_spec M (IDelete k) (IDone StatusOK) (delete k M)
  | ix_delete_missing k e : M !! k = None -> code e = kNotFound -> index_spec M (IDelete k) (IDone e) M
  | ix_scan lo hi rows :
      increasing (keys rows) -> (forall k r, mkLeafEntry k r ∈ rows <-> M !! k = Some r /\ lo <= k <= hi) ->
      index_spec M (IScan lo hi) (IRows (Ok rows)) M
  | ix_check : index_spec M ICheck (IValid true) M.

Inductive index_specs : gmap Z RID -> list IndexOp -> list IndexOut -> gmap Z RID -> Prop :=
  | ixs_done M : index_specs M [] [] M
  | ixs_more M o out M' os outs M'' : index_spec M o out M' -> index_specs M' os outs M'' -> index_specs M (o :: os) (out :: outs) M''.

(** Keys are 64 bits wide, and a RID names a slot of a page. *)
Definition iop_ok (o : IndexOp) : Prop :=
  match o with
  | IInsert k r => entry_ok (mkLeafEntry k r)
  | IGet k | IDelete k => is_s64 k
  | IScan lo hi => is_s64 lo /\ is_s64 hi
  | ICheck => True
  end.

(** ** Running an index *)

Section run.
Context {S : Type} `{!PageStore S}.
Open Scope client_scope.

Definition scan_all (fuel : nat) (t : BPlusTree) (lo hi : Z) : C S (Result (list LeafEntry)) :=
  do it <- Scan t lo hi ;
  match it with
  | Error e => cret (Error e)
  | Ok it => do (rows, it) <- Collect fuel fuel it ; Close it ;;; cret rows
  end.

Definition index_step (fuel : nat) (t : BPlusTree) (o : IndexOp) : C S IndexOut :=
  match o with
  | IInsert k r => do s <- Insert t k r ; cret (IDone s)
  | IGet k => do r <- Get t k ; cret (IFound r)
  | IDelete k => do s <- Delete t k ; cret (IDone s)
  | IScan lo hi => do r <- scan_all fuel t lo hi ; cret (IRows r)
  | ICheck => do b <- CheckInvariants t ; cret (IValid b)
  end.

Fixpoint index_run (fuel : nat) (t : BPlusTree) (os : list IndexOp) : C S (list IndexOut) :=
  match os with
  | [] => cret []
  | o :: os => do out <- index_step fuel t o ; do outs <- index_run fuel t os ; cret (out :: outs)
  end.
End run.

(** The frames and the calls of the store an operation may need: a tree is at most 31 levels
    high, so 64 frames are enough for every path, its neighbours and its new pages.  *)
Definition index_frames : Z := 64.


(** ** Sizes and orders *)

Lemma increasing_filter (P : LeafEntry -> Prop) `{!forall e, Decision (P e)} es : increasing (keys es) -> increasing (keys (filter P es)).
Proof.
  induction es as [|e es IH]; [done|]. intros I. apply StronglySorted_cons in I as [F I]. rewrite filter_cons. case_decide; [|auto].
  apply StronglySorted_cons. split; [|auto]. rewrite Forall_forall in F |- *. intros x (y & -> & Hy)%elem_of_keys. apply F, elem_of_keys.
  exists y. split; [done|]. by apply list_elem_of_filter in Hy as [_ Hy].
Qed.

(** An internal node has two children or more. *)
Lemma tree_pages t m root {h} (T : tree h) lo hi next :
  FanoutInRange (internal_max_ t) = true -> trep t m root T lo hi next -> (1 + length (tpages T) <= 2 * length (tleaves T))%nat.
Proof.
  intros Fi. revert root lo hi next. induction h as [|h IH]; intros root lo hi next; [cbn; lia|]. destruct T as [p cs].
  intros [[_ _ _ _ _ Sz] HC]. cbn [fst snd] in *. rewrite tpages_node, tleaves_node. cbn [length].
  assert (H2 : 2 <= len cs) by (unfold entries_of in Sz; rewrite length_fmap in Sz; unfold inode_size, FanoutInRange in *; destruct root; nlia).
  assert (G : (length cs + length (cpages cs) <= 2 * length (cleaves cs))%nat); [|lia]. clear Sz H2 p. revert HC.
  induction cs as [|[c T] cs IHc]; [cbn; lia|]. cbn [crep]. intros [HT HC]. rewrite cpages_cons, cleaves_cons, !length_app. cbn [length].
  apply IHc in HC. apply IH in HT. lia.
Qed.

Section rules.
Context {S : Type} `{!PageStore S, !PageStoreLaws S}.
Context (cap : Z).

Lemma wp_scan_all fuel t m gs {H} (T : tree H) lo hi :
  tree_ok t m T -> is_s64 lo -> readable gs (header_page_id_ t :: tpages T) -> (1 + length (tentries T) < fuel)%nat ->
  wp cap (4 + 2 * Z.of_nat H + 2 * Z.of_nat fuel * Z.of_nat fuel) (scan_all fuel t lo hi) m gs (fun r m' gs' => m' = m /\ gs' = gs /\
    match r with
    | Ok rows => rows = filter (fun e => key e <= hi) (filter (fun e => lo <= key e) (tentries T))
    | Error e => failed e /\ cap <= len gs
    end).
Proof.
  intros HT Hlo Rd Hf. unfold scan_all. apply (wp_bind _ (4 + 2 * Z.of_nat H)); [lia|]. eapply wp_mono; [reflexivity| |by eapply wp_IndexScan].
  intros [it|e] m' gs' (-> & -> & R); [|apply wp_cret; [lia|]; done]. destruct R as (L & At & Eh & Hl & Ep).
  pose proof (tree_keys _ _ _ HT) as I. pose proof (tree_leaves _ _ _ HT) as Hlv.
  apply (wp_bind _ (2 * Z.of_nat fuel * Z.of_nat fuel)); [lia|]. eapply wp_mono; [reflexivity| |apply (wp_IndexCollect cap fuel fuel it L m gs gs At)].
  - intros [rows it'] m' gs' (-> & -> & [Fin _] & R). cbn [fst snd] in *. unfold Close. rewrite Fin. apply (wp_bind _ 0); [lia|]. apply wp_cret; [lia|].
    apply wp_cret; [lia|]. split_and!; try done. destruct rows; [|done]. by rewrite R, Eh, Ep.
  - lia.
  - rewrite Ep. by apply increasing_filter.
  - rewrite Ep. pose proof (length_filter (fun e => lo <= key e) (tentries T)). lia.
Qed.

(** ** One operation is one step of the map *)

Definition index_cost (fuel : nat) : Z := 400 + 4 * Z.of_nat fuel + 2 * Z.of_nat fuel * Z.of_nat fuel.

(** What an operation may do to the pages: nothing outside the tree. *)
Definition confined (t : BPlusTree) (m : pages_t) {H} (T : tree H) (m' : pages_t) {H'} (T' : tree H') : Prop :=
  forall q, is_Some (m !! q) -> q ∉ header_page_id_ t :: tpages T -> (q ∉ header_page_id_ t :: tpages T') /\ m' !! q = m !! q.

Lemma confined_trans t m1 m2 m3 {H1 H2 H3} (T1 : tree H1) (T2 : tree H2) (T3 : tree H3) :
  confined t m1 T1 m2 T2 -> confined t m2 T2 m3 T3 -> confined t m1 T1 m3 T3.
Proof. intros C1 C2 q Hs Hq. destruct (C1 q Hs Hq) as [Hq' E]. rewrite <- E in Hs. destruct (C2 q Hs Hq') as [? E']. by rewrite E', E. Qed.

Definition index_refines (t : BPlusTree) (o : IndexOp) (m : pages_t) {H} (T : tree H) (out : IndexOut) (m' : pages_t) (gs' : list PageGuard) : Prop :=
  gs' = [] /\ exists H' (T' : tree H'), tree_ok t m' T' /\ index_spec (index_contents T) o out (index_contents T') /\ confined t m T m' T'.

Lemma index_same t o m {H} (T : tree H) out : tree_ok t m T -> index_spec (index_contents T) o out (index_contents T) -> index_refines t o m T out m [].
Proof. intros HT Sp. split; [done|]. exists H, T. split_and!; try done. Qed.

Lemma readable_nil ps : readable [] ps.
Proof. intros p _ g Hg. by apply elem_of_nil in Hg. Qed.

Lemma index_insert_step fuel t k r m {H} (T : tree H) :
  index_frames <= cap -> tree_ok t m T -> (H < 31)%nat -> entry_ok (mkLeafEntry k r) ->
  wp cap (index_cost fuel) (index_step fuel t (IInsert k r)) m [] (index_refines t (IInsert k r) m T).
Proof.
  intros Hc HT HH He. cbn [index_step]. apply (wp_bind _ (21 + 11 * Z.of_nat H)); [unfold index_cost; nia|].
  eapply wp_mono; [reflexivity| |apply (wp_IndexInsert cap t m [] T k r HT He (unlatched_nil _))]. intros st m' gs' [-> Post]. apply wp_cret; [unfold index_cost; nia|].
  destruct Post as [(-> & N & H' & T' & HT' & E & Sub & New & Fr)|[(Ec & Hs & ->)|(_ & _ & Hf)]].
  - split; [done|]. exists H', T'. split; [done|]. split; [rewrite E; by apply ix_insert|]. intros q [bs Hs] Hq. apply not_elem_of_cons in Hq as [Q1 Q2].
    assert (Hq : q ∉ header_page_id_ t :: tpages T').
    { apply not_elem_of_cons. split; [done|]. intros [?|?]%New; [done|]. congruence. }
    split; [done|]. by apply Fr.
  - apply index_same; [done|]. by apply ix_duplicate.
  - unfold index_frames in Hc. cbn [length] in Hf. lia.
Qed.

Lemma index_delete_step fuel t k m {H} (T : tree H) :
  index_frames <= cap -> tree_ok t m T -> (H < 31)%nat -> is_s64 k ->
  wp cap (index_cost fuel) (index_step fuel t (IDelete k)) m [] (index_refines t (IDelete k) m T).
Proof.
  intros Hc HT HH Hk. cbn [index_step]. apply (wp_bind _ (8 + 10 * Z.of_nat H)); [unfold index_cost; nia|].
  eapply wp_mono; [reflexivity| |apply (wp_IndexDelete cap t m [] T k HT Hk (unlatched_nil _))]. intros st m' gs' [-> Post]. apply wp_cret; [unfold index_cost; nia|].
  destruct Post as [(-> & N & H' & T' & HT' & E & Sub & Old & Fr)|[(Ec & Hs & ->)|(_ & _ & Hf)]].
  - split; [done|]. exists H', T'. split; [done|]. split; [rewrite E; by apply ix_delete|]. intros q _ Hq. split; [|by apply Fr].
    rewrite not_elem_of_cons in *. destruct Hq as [Q1 Q2]. split; [done|]. by intros ?%Sub.
  - apply index_same; [done|]. by apply ix_delete_missing.
  - unfold index_frames in Hc. cbn [length] in Hf. lia.
Qed.

Lemma range_spec (es : list LeafEntry) lo hi k r :
  increasing (keys es) ->
  mkLeafEntry k r ∈ filter (fun e => key e <= hi) (filter (fun e => lo <= key e) es) <-> entry_map es !! k = Some r /\ lo <= k <= hi.
Proof. intros I. rewrite !list_elem_of_filter, entry_map_lookup by done. cbn. tauto. Qed.

Lemma index_read_step fuel t o m {H} (T : tree H) :
  index_frames <= cap -> tree_ok t m T -> (H < 31)%nat -> (1 + length (tentries T) < fuel)%nat -> iop_ok o ->
  match o with IInsert _ _ | IDelete _ => False | _ => True end ->
  wp cap (index_cost fuel) (index_step fuel t o) m [] (index_refines t o m T).
Proof.
  intros Hc HT HH Hf Ho. unfold index_frames in Hc. destruct o as [| k | | lo hi |]; intros Hr; try done; cbn [index_step iop_ok] in *.
  - apply (wp_bind _ (4 + 2 * Z.of_nat H)); [unfold index_cost; nia|]. eapply wp_mono; [reflexivity| |apply (wp_IndexGet cap t m [] T k HT Ho (readable_nil _))].
    intros [r|e] m' gs' (-> & -> & R); (apply wp_cret; [unfold index_cost; nia|]); (apply index_same; [done|]); [by apply ix_get|].
    destruct R as [[E N]|[_ R]]; [by apply ix_get_missing|cbn in R; lia].
  - apply (wp_bind _ (4 + 2 * Z.of_nat H + 2 * Z.of_nat fuel * Z.of_nat fuel)); [unfold index_cost; lia|]. destruct Ho as [Hlo _].
    eapply wp_mono; [reflexivity| |apply (wp_scan_all fuel t m [] T lo hi HT Hlo (readable_nil _) Hf)].
    intros [rows|e] m' gs' (-> & -> & R); (apply wp_cret; [unfold index_cost; lia|]); (apply index_same; [done|]); [|destruct R as [_ R]; cbn in R; lia].
    pose proof (tree_keys _ _ _ HT) as I. rewrite R. apply ix_scan; [by do 2 apply increasing_filter|]. intros k r. by apply range_spec.
  - pose proof (tree_leaves _ _ _ HT) as Hl. pose proof (tree_pages _ _ _ _ _ _ _ (proj2 (tk_fanout _ _ _ HT)) (tk_tree _ _ _ HT)) as Hp.
    apply (wp_bind _ (2 + 2 * len (tpages T))); [unfold index_cost; nia|].
    eapply wp_mono; [reflexivity| |apply (wp_CheckInvariants cap t m [] T HT (readable_nil _))]; [|cbn; lia].
    intros b m' gs' (-> & -> & ->). apply wp_cret; [unfold index_cost; nia|]. apply index_same; [done|]. constructor.
Qed.

Lemma index_spec_size M o out M' : index_spec M o out M' -> (size M' <= 1 + size M)%nat.
Proof.
  destruct 1; try lia.
  - rewrite map_size_insert. destruct (M !! k); cbn; lia.
  - rewrite map_size_delete. destruct (M !! k); cbn; lia.
Qed.

Lemma wp_index_run fuel t os : forall m H (T : tree H),
  index_frames <= cap -> tree_ok t m T -> Forall iop_ok os -> (1 + size (index_contents T) + length os < fuel)%nat ->
  wp cap (index_cost fuel * len os) (index_run fuel t os) m [] (fun outs m' gs' => gs' = [] /\
    exists H' (T' : tree H'), tree_ok t m' T' /\ index_specs (index_contents T) os outs (index_contents T') /\ confined t m T m' T').
Proof.
  induction os as [|o os IH]; intros m H T Hc HT F Hf; cbn [index_run].
  { apply wp_cret; [cbn; lia|]. split; [done|]. exists H, T. split_and!; try done. constructor. }
  apply Forall_cons in F as [Ho F]. cbn [length] in Hf. apply wp_pages. intros Bd. assert (HH : (H < 31)%nat) by (by eapply tree_height).
  assert (Hn : 0 <= index_cost fuel) by (unfold index_cost; nia). pose proof (contents_size _ _ _ HT) as Es.
  apply (wp_bind _ (index_cost fuel)); [cbn [length]; nia|]. eapply (wp_mono _ _ _ _ _ _ _ (index_refines t o m T)); [reflexivity| |].
  2: { destruct o; [by apply index_insert_step|by apply index_read_step; try lia|by apply index_delete_step|by apply index_read_step; try lia|by apply index_read_step; try lia]. }
  intros out m1 gs1 [-> (H1 & T1 & HT1 & Sp & C1)]. apply (wp_bind _ (index_cost fuel * len os)); [cbn [length]; nia|]. pose proof (index_spec_size _ _ _ _ Sp) as Hs.
  eapply wp_mono; [reflexivity| |apply (IH m1 H1 T1); try done; lia]. intros outs m2 gs2 [-> (H2 & T2 & HT2 & Sp2 & C2)].
  apply wp_cret; [cbn [length]; nia|]. split; [done|]. exists H2, T2. split; [done|]. split; [by econstructor|by eapply confined_trans].
Qed.

(** ** The claims *)

(** C11: On any page store with 64 frames whose file answers (the buffer pool on a disk without
    I/O failures is one), every sequence of inserts, gets, deletes, range scans and invariant checks returns, and behaves as a map from keys to
    RIDs: a key is inserted once and kDuplicateKey after that, a get finds exactly what was
    inserted and not deleted, kNotFound is answered exactly for missing keys, a scan lists the
    range in key order, the check accepts the tree, and no other error occurs.  No guard is
    left open, the store holds a well-formed tree of the map's final content, and no page
    outside the index changes, through every split, rotation, merge and change of root.  That a
    call returns includes that no assert of the tree or of a node page fails. *)
Theorem index_refines_map fuel t os m H (T : tree H) n s :
  index_frames <= cap -> tree_ok t m T -> Forall iop_ok os -> (1 + size (index_contents T) + length os < fuel)%nat ->
  0 <= n -> rep cap (n + index_cost fuel * len os) m [] s ->
  exists outs s' m' H' (T' : tree H'),
    index_run fuel t os s = Some (outs, s') /\ rep cap n m' [] s' /\
    index_specs (index_contents T) os outs (index_contents T') /\ tree_ok t m' T' /\ confined t m T m' T'.
Proof.
  intros Hc HT F Hf Hn R. destruct (wp_index_run fuel t os m H T Hc HT F Hf n s Hn R) as (outs & s' & m' & gs' & E & R' & -> & H' & T' & HT' & Sp & Cf).
  by exists outs, s', m', H', T'.
Qed.

(** C12: [Insert] on every branch, at any height and with any fanout, on a store whose file
    answers: it returns, past every assert of the tree and of its node pages; it answers OK
    exactly when it stored a key that was not there, and then the pages hold a well-formed tree
    with that one key more, built from the old pages and pages that were free; a key that is
    there is kDuplicateKey and any other refusal means that fewer frames were free than twice
    the height and four; both leave every page, and the set of allocated pages, as they were. *)
Theorem index_insert_contract t k r m gs H (T : tree H) n s :
  tree_ok t m T -> entry_ok (mkLeafEntry k r) -> unlatched gs (header_page_id_ t :: tpages T) ->
  0 <= n -> rep cap (n + (21 + 11 * Z.of_nat H)) m gs s ->
  exists st s' m', Insert t k r s = Some (st, s') /\ rep cap n m' gs s' /\
    insert_post cap t m T (mkLeafEntry k r) (len gs + 2 * Z.of_nat H + 4) st m'.
Proof.
  intros HT He U Hn R. destruct (wp_IndexInsert cap t m gs T k r HT He U n s Hn R) as (st & s' & m' & gs' & E & R' & -> & Post). by exists st, s', m'.
Qed.

(** C13: [Delete] on every branch, on a store whose file answers: it answers OK exactly when the key was there, and then the
    pages hold a well-formed tree with every other key, after any run of merges up to the root,
    a rotation at its end or a root that goes; the pages it no longer needs are deallocated and
    no others; kNotFound is answered exactly for a missing key; a refusal for want of frames
    comes before the first write, so no error leaves a page changed. *)
Theorem index_delete_contract t k m gs H (T : tree H) n s :
  tree_ok t m T -> is_s64 k -> unlatched gs (header_page_id_ t :: tpages T) ->
  0 <= n -> rep cap (n + (8 + 10 * Z.of_nat H)) m gs s ->
  exists st s' m', Delete t k s = Some (st, s') /\ rep cap n m' gs s' /\
    delete_post cap t m T k (len gs + 2 * Z.of_nat H + 3) st m'.
Proof.
  intros HT Hk U Hn R. destruct (wp_IndexDelete cap t m gs T k HT Hk U n s Hn R) as (st & s' & m' & gs' & E & R' & -> & Post). by exists st, s', m'.
Qed.

(** [Get] with one frame to spare returns exactly the map's answer for every 64-bit key,
    beside any number of the caller's read guards, changes nothing and leaves no guard. *)
Lemma index_get_exact t k m gs H (T : tree H) n s :
  tree_ok t m T -> is_s64 k -> readable gs (header_page_id_ t :: tpages T) -> len gs < cap ->
  0 <= n -> rep cap (n + (4 + 2 * Z.of_nat H)) m gs s ->
  exists r s', Get t k s = Some (r, s') /\ rep cap n m gs s' /\
    match index_contents T !! k with Some rid => r = Ok rid | None => exists e, r = Error e /\ code e = kNotFound end.
Proof.
  intros HT Hk Rd Hc Hn R. destruct (wp_IndexGet cap t m gs T k HT Hk Rd n s Hn R) as (r & s' & m' & gs' & E & R' & -> & -> & Q).
  exists r, s'. split; [done|]. split; [done|]. destruct r as [r|e]; [by rewrite Q|]. destruct Q as [[Ec ->]|[_ Q]]; [by exists e|lia].
Qed.

(** C20: On a store whose file answers a range scan, [Next] until it answers false, returns exactly the entries with
    lo <= key <= hi in key order, whatever the bounds (a range that is empty or ends past the
    last key included), across leaf boundaries, with one frame to spare; it changes nothing,
    its iterator ends with no guard, and it stops: one step per entry and leaf is enough. *)
Theorem index_scan_exact fuel t lo hi m gs H (T : tree H) n s :
  tree_ok t m T -> is_s64 lo -> readable gs (header_page_id_ t :: tpages T) -> len gs < cap -> (1 + length (tentries T) < fuel)%nat ->
  0 <= n -> rep cap (n + (4 + 2 * Z.of_nat H + 2 * Z.of_nat fuel * Z.of_nat fuel)) m gs s ->
  exists rows s', scan_all fuel t lo hi s = Some (Ok rows, s') /\ rep cap n m gs s' /\ increasing (keys rows) /\
    forall k r, mkLeafEntry k r ∈ rows <-> index_contents T !! k = Some r /\ lo <= k <= hi.
Proof.
  intros HT Hlo Rd Hc Hf Hn R. destruct (wp_scan_all fuel t m gs T lo hi HT Hlo Rd Hf n s Hn R) as ([rows|e] & s' & m' & gs' & E & R' & -> & -> & Q); [|destruct Q; lia].
  exists rows, s'. pose proof (tree_keys _ _ _ HT) as I. rewrite Q. split; [by rewrite <- Q|]. split; [done|]. split; [by do 2 apply increasing_filter|]. intros. by apply range_spec.
Qed.

(** C21: [CheckInvariants] is true on every well-formed tree in a store whose file answers, with
    one frame to spare however high the tree is, visiting each page once, and changes nothing. *)
Theorem index_check_accepts t m gs H (T : tree H) n s :
  tree_ok t m T -> readable gs (header_page_id_ t :: tpages T) -> len gs < cap ->
  0 <= n -> rep cap (n + (2 + 2 * len (tpages T))) m gs s ->
  exists s', CheckInvariants t s = Some (true, s') /\ rep cap n m gs s'.
Proof.
  intros HT Rd Hc Hn R. destruct (wp_CheckInvariants cap t m gs T HT Rd Hc n s Hn R) as (b & s' & m' & gs' & E & R' & -> & -> & ->). by exists s'.
Qed.

(** C22: [Create] followed by [Open] of the header page is a round trip on a store whose file
    answers: a fanout outside
    [MIN_FANOUT, NODE_CAPACITY] is refused with kInvalidArgument, want of frames leaves no page
    behind, and otherwise two free pages become an empty index whose header, read back, gives
    the same handle; no other page changes. *)
Theorem index_create_open leaf_max internal_max m gs n s :
  0 <= n -> rep cap (n + 10) m gs s ->
  exists r s1 m', Create leaf_max internal_max s = Some (r, s1) /\ rep cap (n + 2) m' gs s1 /\
    match r with
    | Ok t => leaf_max_ t = leaf_max /\ internal_max_ t = internal_max /\
        (exists p, tree_ok t m' ((p, []) : tree 0) /\ m !! header_page_id_ t = None /\ m !! p = None /\
           forall q, q <> header_page_id_ t -> q <> p -> m' !! q = m !! q) /\
        exists r2 s2, Open (header_page_id_ t) s1 = Some (r2, s2) /\ rep cap n m' gs s2 /\ (len gs < cap -> r2 = Ok t)
    | Error e => m' = m /\ (FanoutInRange leaf_max && FanoutInRange internal_max = false /\ code e = kInvalidArgument \/
        FanoutInRange leaf_max && FanoutInRange internal_max = true /\ ok e = false /\ cap <= len gs + 1)
    end.
Proof.
  intros Hn R. destruct (wp_IndexCreate cap m gs leaf_max internal_max (n + 2) s) as (r & s1 & m' & gs' & E & R' & -> & Q); [lia|by replace (n + 2 + 8) with (n + 10) by lia|].
  exists r, s1, m'. split; [done|]. split; [done|]. destruct r as [t|e]; [|done]. destruct Q as (El & Ei & p & HT & Nh & Np & Fr).
  split; [done|]. split; [done|]. split; [by exists p|]. assert (Ad : admissible false (header_page_id_ t) gs).
  { intros g Hg Eg. pose proof (rep_page _ _ _ _ _ _ R Hg) as Hp. rewrite Eg in Hp. congruence. }
  destruct (wp_IndexOpen cap t m' gs ((p, []) : tree 0) HT Ad n s1 Hn R') as (r2 & s2 & m2 & gs2 & E2 & R2 & -> & -> & Q2).
  exists r2, s2. split; [done|]. split; [done|]. intros Hc. destruct r2 as [t2|e2]; [by rewrite Q2|]. destruct Q2; lia.
Qed.
End rules.

(** ** An index in a buffer pool of 64 frames *)

#[local] Existing Instance debug_host.
#[local] Instance errno_text_index : ErrnoText := {| errno_message n := pretty n |}.
#[local] Opaque demo_disk.

Definition index_pool : Pool := new_Pool demo_disk index_frames.

Lemma index_pool_rep n : 0 <= n < 2 ^ 30 -> rep index_frames n (pages (store_of demo_disk [])) [] index_pool.
Proof.
  intros Hn. change (pool_rep index_frames n (pages (store_of demo_disk [])) [] index_pool). destruct demo_disk_ok as (D & Cn & F).
  unfold index_pool. apply (pool_rep_new index_frames n demo_disk [] D demo_disk_snug); [unfold index_frames; lia|lia|rewrite Cn; lia].
Qed.

#[local] Opaque index_pool.

Lemma demo_index n :
  0 <= n < 2 ^ 29 ->
  exists t p P m, Create 4 4 index_pool = Some (Ok t, P) /\ rep index_frames n m [] P /\ tree_ok t m ((p, []) : tree 0).
Proof.
  intros Hn. destruct (wp_IndexCreate index_frames (pages (store_of demo_disk [])) [] 4 4 n index_pool) as ([t|e] & P & m & gs & E & R & -> & Q); [lia|apply index_pool_rep; lia| |].
  - destruct Q as (_ & _ & p & HT & _). exists t, p, P, m. exact (conj E (conj R HT)).
  - destruct Q as (_ & [[Q _]|(_ & _ & Q)]); [vm_compute in Q; discriminate Q|unfold index_frames in Q; cbn in Q; lia].
Qed.

Lemma demo_entry_ok k : is_s64 k -> entry_ok (mkLeafEntry k (mkRID 7 1)).
Proof. intros Hk. split; [split; [exact Hk|split; vm_compute; split; congruence]|reflexivity]. Qed.

Definition demo_index_ops : list IndexOp :=
  [IInsert 5 (mkRID 7 1); IInsert (-3) (mkRID 7 1); IInsert 5 (mkRID 7 1); IGet 5; IScan (-10) 4; IDelete 5; IDelete 6; ICheck].

Lemma demo_index_ops_ok : Forall iop_ok demo_index_ops.
Proof.
  assert (W : forall k, -10 <= k <= 10 -> is_s64 k) by (intros k Hk; unfold is_s64; lia).
  repeat apply Forall_cons_2; [apply demo_entry_ok, W; lia|apply demo_entry_ok, W; lia|apply demo_entry_ok, W; lia|apply W; lia|split; apply W; lia|apply W; lia|apply W; lia|exact I|constructor].
Qed.

Lemma index_refines_map_witness :
  exists t P outs P', Create 4 4 index_pool = Some (Ok t, P) /\ index_run 20 t demo_index_ops P = Some (outs, P') /\ length outs = 8%nat.
Proof.
  destruct (demo_index (index_cost 20 * 8)) as (t & p & P & m & E & R & HT); [split; vm_compute; congruence|].
  destruct (index_refines_map index_frames 20 t demo_index_ops m 0 ((p, []) : tree 0) 0 P) as (outs & P' & m' & H' & T' & E' & _ & Sp & _);
    [reflexivity|exact HT|exact demo_index_ops_ok|rewrite (contents_size _ _ _ HT); cbn; lia|lia|exact R|]. clear R HT.
  exists t, P, outs, P'. split; [exact E|]. split; [exact E'|]. clear -Sp.
  repeat (inversion Sp as [|? ? ? ? ? ? ? _ Sp']; subst; cbn; f_equal; clear Sp; rename Sp' into Sp).
Defined.

Lemma index_insert_contract_witness :
  exists t P P', Create 4 4 index_pool = Some (Ok t, P) /\ Insert t 5 (mkRID 7 1) P = Some (StatusOK, P').
Proof.
  destruct (demo_index 21) as (t & p & P & m & E & R & HT); [lia|].
  destruct (index_insert_contract index_frames t 5 (mkRID 7 1) m [] 0 ((p, []) : tree 0) 0 P HT (demo_entry_ok 5 ltac:(split; vm_compute; congruence)) (unlatched_nil _) ltac:(lia) R)
    as (st & P' & m' & E' & _ & [(-> & _)|[(_ & [r Q] & _)|(_ & _ & Q)]]).
  - exists t, P, P'. exact (conj E E').
  - exfalso. change ((∅ : gmap Z RID) !! 5 = Some r) in Q. rewrite lookup_empty in Q. discriminate Q.
  - exfalso. unfold index_frames in Q. cbn in Q. lia.
Defined.

Lemma index_delete_contract_witness :
  exists t P P' st, Create 4 4 index_pool = Some (Ok t, P) /\ Delete t 5 P = Some (st, P') /\ code st = kNotFound.
Proof.
  destruct (demo_index 8) as (t & p & P & m & E & R & HT); [lia|].
  destruct (index_delete_contract index_frames t 5 m [] 0 ((p, []) : tree 0) 0 P HT ltac:(split; vm_compute; congruence) (unlatched_nil _) ltac:(lia) R)
    as (st & P' & m' & E' & _ & [(_ & [r Q] & _)|[(Q & _)|(_ & _ & Q)]]).
  - exfalso. change ((∅ : gmap Z RID) !! 5 = Some r) in Q. rewrite lookup_empty in Q. discriminate Q.
  - exists t, P, P', st. exact (conj E (conj E' Q)).
  - exfalso. unfold index_frames in Q. cbn in Q. lia.
Defined.

Lemma index_scan_exact_witness :
  exists t P P' rows, Create 4 4 index_pool = Some (Ok t, P) /\ scan_all 2 t (-10) 10 P = Some (Ok rows, P').
Proof.
  destruct (demo_index 12) as (t & p & P & m & E & R & HT); [lia|].
  destruct (index_scan_exact index_frames 2 t (-10) 10 m [] 0 ((p, []) : tree 0) 0 P HT ltac:(split; vm_compute; congruence) (readable_nil _) ltac:(reflexivity) ltac:(cbn; lia) ltac:(lia) R)
    as (rows & P' & E' & _). exists t, P, P', rows. exact (conj E E').
Defined.

Lemma index_check_accepts_witness :
  exists t P P', Create 4 4 index_pool = Some (Ok t, P) /\ CheckInvariants t P = Some (true, P').
Proof.
  destruct (demo_index 4) as (t & p & P & m & E & R & HT); [lia|].
  destruct (index_check_accepts index_frames t m [] 0 ((p, []) : tree 0) 0 P HT (readable_nil _) ltac:(reflexivity) ltac:(lia) R) as (P' & E' & _).
  exists t, P, P'. exact (conj E E').
Defined.

Lemma index_create_open_witness :
  exists e P1, Create 2 4 index_pool = Some (Error e, P1) /\ code e = kInvalidArgument.
Proof.
  destruct (index_create_open index_frames 2 4 (pages (store_of demo_disk [])) [] 0 index_pool) as ([t|e] & P1 & m' & E & _ & Q); [lia|apply index_pool_rep; lia| |].
  - exfalso. destruct Q as (El & _ & (p & HT & _) & _). destruct (tk_fanout _ _ _ HT) as [F _]. rewrite El in F. vm_compute in F. discriminate F.
  - exists e, P1. split; [exact E|]. destruct Q as (_ & [[_ Q]|(Q & _)]); [exact Q|vm_compute in Q; discriminate Q].
Defined.
