(* ===== verification/ShellText.v ===== *)
(** * The shell's text: src/src/shell/main.cpp, lines, tokens and numbers

    A [std::string_view] is the [list byte] it spans.  [NextToken] returns the token and what
    it leaves of its argument.  [std::from_chars] is modelled on the two types it is used at:
    the value and the unread rest, or [None] for its two error codes. *)

From S2P Require Import Prelude Common.

(** The bytes of a string literal, and back. *)
Definition txt (s : string) : list byte := String.list_byte_of_string s.
Definition AsText (bs : list byte) : string := String.string_of_list_byte bs.
Definition AsBytes (text : list byte) : list byte := text.

Definition is_blank (b : byte) : bool := bool_decide (b = x20) || bool_decide (b = x09).
Definition is_blank_or_cr (b : byte) : bool := is_blank b || bool_decide (b = x0d).

Fixpoint drop_while (f : byte -> bool) (s : list byte) : list byte :=
  match s with b :: s' => if f b then drop_while f s' else s | [] => [] end.

Definition Trim (s : list byte) : list byte :=
  let s := drop_while is_blank s in
  reverse (drop_while is_blank_or_cr (reverse s)).

(** [find_first_of(" \t")]. *)
Fixpoint find_blank (s : list byte) : option nat :=
  match s with
  | [] => None
  | b :: s => if is_blank b then Some O else option_map S (find_blank s)
  end.

Definition NextToken (rest : list byte) : list byte * list byte :=
  let rest := Trim rest in
  let end_ := find_blank rest in
  let token := match end_ with Some e => take e rest | None => rest end in
  (token, match end_ with None => [] | Some e => Trim (drop e rest) end).

(** ** Numbers *)

Definition digit (b : byte) : option Z :=
  let d := zof b - 48 in if (0 <=? d) && (d <=? 9) then Some d else None.

(** The longest run of digits: its value on top of [acc], and the rest. *)
Fixpoint scan_digits (acc : Z) (s : list byte) : Z * list byte :=
  match s with
  | [] => (acc, [])
  | b :: s' => match digit b with Some d => scan_digits (acc * 10 + d) s' | None => (acc, s) end
  end.

Definition starts_with_digit (s : list byte) : bool :=
  match s with b :: _ => match digit b with Some _ => true | None => false end | [] => false end.

(** [std::from_chars] at [page_id_t] (an [int32_t]) and at [unsigned]. *)
Definition from_chars_s32 (s : list byte) : option (Z * list byte) :=
  let '(neg, s) := match s with x2d :: s => (true, s) | _ => (false, s) end in
  if negb (starts_with_digit s) then None
  else
    let '(v, rest) := scan_digits 0 s in
    let v := if neg then - v else v in
    if (- 2 ^ 31 <=? v) && (v <? 2 ^ 31) then Some (v, rest) else None.

Definition from_chars_u32 (s : list byte) : option (Z * list byte) :=
  if negb (starts_with_digit s) then None
  else
    let '(v, rest) := scan_digits 0 s in
    if v <? 2 ^ 32 then Some (v, rest) else None.

Definition ParsePageId (token : list byte) : option Z :=
  match token with
  | [] => None
  | _ => match from_chars_s32 token with Some (v, []) => Some v | _ => None end
  end.

Definition ParseSlot (token : list byte) : option Z :=
  match from_chars_u32 token with
  | Some (value, []) => if 65535 <? value then None else Some value
  | _ => None
  end.

(** ** Output *)

Definition newline : string := String (Ascii.ascii_of_nat 10) EmptyString.
Definition quote : string := String (Ascii.ascii_of_nat 34) EmptyString.
Definition println (s : string) : string := s +:+ newline.

(** [{}] of an integer, [{{{}, {}}}] of a RID, and [{:06d}] of a count. *)
Definition fmt (z : Z) : string := pretty z.
Definition fmt_rid (r : RID) : string := "{" +:+ fmt (rid_page_id r) +:+ ", " +:+ fmt (rid_slot r) +:+ "}".
Definition fmt06 (z : Z) : string :=
  AsText (replicate (6 - length (txt (fmt z))) x30 ++ txt (fmt z)).

(** [text.find(needle) != npos]. *)
Fixpoint starts_with (needle text : list byte) : bool :=
  match needle, text with
  | [], _ => true
  | a :: needle, b :: text => bool_decide (a = b) && starts_with needle text
  | _, [] => false
  end.

Fixpoint contains (needle text : list byte) : bool :=
  starts_with needle text || match text with [] => false | _ :: text => contains needle text end.
