(* ===== verification/ShellTextProofs.v ===== *)
(** * The shell's text: tokens and numbers read back

    What the shell prints as a number it reads as that number, and a line made of words and a
    rest splits into them. *)

From stdpp Require Import gmap.
From S2P Require Import Prelude Common ShellText.

(** ** Blanks *)

Definition word (w : list byte) : Prop := w <> [] /\ Forall (fun b => is_blank_or_cr b = false) w.

(** A rest the shell passes on unchanged: nothing to trim at either end. *)
Definition clean (s : list byte) : Prop :=
  (forall b, head s = Some b -> is_blank b = false) /\ (forall c, last s = Some c -> is_blank_or_cr c = false).

Lemma blank_or_cr b : is_blank_or_cr b = false -> is_blank b = false.
Proof. unfold is_blank_or_cr. by destruct (is_blank b). Qed.

Lemma find_blank_word w rest : Forall (fun b => is_blank b = false) w -> find_blank (w ++ x20 :: rest) = Some (length w).
Proof. induction 1 as [|b w Hb _ IH]; [done|]. cbn [app find_blank length]. rewrite Hb, IH. done. Qed.

Lemma find_blank_none w : Forall (fun b => is_blank b = false) w -> find_blank w = None.
Proof. induction 1 as [|b w Hb _ IH]; [done|]. cbn [find_blank]. rewrite Hb, IH. done. Qed.

Lemma drop_while_head f (s : list byte) : (forall b, head s = Some b -> f b = false) -> drop_while f s = s.
Proof. destruct s as [|b s]; [done|]. intros H. cbn. by rewrite (H b eq_refl). Qed.

Lemma Trim_clean s : clean s -> Trim s = s.
Proof.
  intros [Hh Hl]. unfold Trim. cbv zeta. rewrite (drop_while_head is_blank) by done. rewrite drop_while_head by (by rewrite head_reverse).
  apply reverse_involutive.
Qed.

(** Blanks in front of a clean rest go. *)
Lemma Trim_blank s : clean s -> Trim (x20 :: s) = s.
Proof. intros Hs. rewrite <- (Trim_clean s Hs) at 2. done. Qed.

Lemma word_blank w : word w -> Forall (fun b => is_blank b = false) w.
Proof. intros [_ F]. eapply Forall_impl; [exact F|]. apply blank_or_cr. Qed.

Lemma clean_word w : word w -> clean w.
Proof.
  intros Hw. split; intros b Hb.
  - destruct w; [done|]. injection Hb as <-. by apply word_blank, Forall_cons in Hw as [? _].
  - apply last_Some in Hb as [w' ->]. destruct Hw as [_ F]. by apply Forall_app in F as [_ [F _]%Forall_cons].
Qed.

Lemma clean_line w rest : word w -> rest <> [] -> clean rest -> clean (w ++ x20 :: rest).
Proof.
  intros Hw Hn [_ Hl]. split; intros b Hb.
  - destruct w; [by destruct Hw|]. injection Hb as <-. by apply word_blank, Forall_cons in Hw as [? _].
  - apply Hl. rewrite <- Hb, last_app, last_cons. destruct rest; [done|]. by destruct (last (b0 :: rest)) eqn:E; [|by apply last_None in E].
Qed.

(** ** Tokens *)

Lemma NextToken_word w : word w -> NextToken w = (w, []).
Proof. intros Hw. unfold NextToken. cbv zeta. rewrite Trim_clean, find_blank_none by (by apply clean_word || apply word_blank). done. Qed.

Lemma NextToken_line w rest : word w -> rest <> [] -> clean rest -> NextToken (w ++ x20 :: rest) = (w, rest).
Proof.
  intros Hw Hn Hr. unfold NextToken. cbv zeta. rewrite (Trim_clean (w ++ x20 :: rest)), find_blank_word by (by apply clean_line || apply word_blank).
  rewrite take_app_length, drop_app_length. by rewrite Trim_blank.
Qed.

(** ** Numbers *)

Lemma txt_app a b : txt (a +:+ b) = txt a ++ txt b.
Proof. unfold txt, String.list_byte_of_string. rewrite <- map_app. f_equal. induction a as [|c a IH]; [done|]. simpl. by rewrite IH. Qed.

Lemma digit_char n : (n < 10)%N -> digit (Ascii.byte_of_ascii (pretty_N_char n)) = Some (Z.of_N n).
Proof.
  intros Hn. destruct n as [|p]; [done|].
  do 4 (destruct p as [p|p|]; [| |done]; try (exfalso; lia)).
Qed.

Lemma scan_pretty n s : scan_digits 0 (txt (pretty_N_go n s)) = scan_digits (Z.of_N n) (txt s).
Proof.
  revert s. induction (N.lt_wf_0 n) as [n _ IH]. intros s. destruct (decide (0 < n)%N) as [Hn|Hn].
  - rewrite pretty_N_go_step by done. rewrite IH by (apply N.div_lt; lia). change (txt (String (pretty_N_char (n `mod` 10)) s)) with (Ascii.byte_of_ascii (pretty_N_char (n `mod` 10)) :: txt s). cbn [scan_digits].
    rewrite digit_char by (apply N.mod_lt; lia). f_equal. rewrite N2Z.inj_div, N2Z.inj_mod. pose proof (Z.div_mod (Z.of_N n) 10 ltac:(lia)). lia.
  - replace n with 0%N by lia. by rewrite pretty_N_go_0.
Qed.

Definition is_digit (b : byte) : Prop := is_Some (digit b).

Lemma digits_pretty n s : Forall is_digit (txt s) -> Forall is_digit (txt (pretty_N_go n s)).
Proof.
  revert s. induction (N.lt_wf_0 n) as [n _ IH]. intros s Hs. destruct (decide (0 < n)%N) as [Hn|Hn].
  - rewrite pretty_N_go_step by done. apply IH; [apply N.div_lt; lia|].
    change (Forall is_digit (Ascii.byte_of_ascii (pretty_N_char (n `mod` 10)) :: txt s)). constructor; [|done].
    eexists. apply digit_char. apply N.mod_lt. lia.
  - replace n with 0%N by lia. by rewrite pretty_N_go_0.
Qed.

(** The digits of a natural number, and their value. *)
Lemma pretty_digits n : Forall is_digit (txt (pretty n)) /\ scan_digits 0 (txt (pretty n)) = (Z.of_N n, []).
Proof.
  unfold pretty, pretty_N. case_decide as E.
  - subst. split; [|done]. repeat constructor. by eexists.
  - split; [apply digits_pretty; constructor|]. by rewrite scan_pretty.
Qed.

Lemma pretty_nonempty n : txt (pretty (N.pos n)) <> [].
Proof. intros E. destruct (pretty_digits (N.pos n)) as [_ S]. rewrite E in S. cbn in S. by injection S. Qed.

Lemma starts_digits s : Forall is_digit s -> s <> [] -> starts_with_digit s = true.
Proof. intros F Hn. destruct F as [|b s [d Hd] F]; [done|]. cbn. by rewrite Hd. Qed.

Lemma digit_bound b d : digit b = Some d -> 48 <= zof b <= 57.
Proof. unfold digit. cbv zeta. destruct (Z.leb_spec 0 (zof b - 48)), (Z.leb_spec (zof b - 48) 9); cbn; done || lia. Qed.

Lemma digit_word s : Forall is_digit s -> Forall (fun b => is_blank_or_cr b = false) s.
Proof.
  intros F. eapply Forall_impl; [exact F|]. intros b [d Hd]. apply digit_bound in Hd. unfold is_blank_or_cr, is_blank.
  rewrite !bool_decide_eq_false_2; [done|..]; intros ->; vm_compute in Hd; destruct Hd as [H1 H2]; by apply H1.
Qed.

(** A signed number: its digits, after a minus sign when negative. *)
Lemma fmt_pos n : txt (fmt (Z.pos n)) = txt (pretty (N.pos n)).
Proof. done. Qed.
Lemma fmt_neg n : txt (fmt (Z.neg n)) = x2d :: txt (pretty (N.pos n)).
Proof. done. Qed.

Lemma word_fmt z : word (txt (fmt z)).
Proof.
  destruct z as [|n|n]; [by split; [|repeat constructor]|rewrite fmt_pos|rewrite fmt_neg].
  - split; [apply pretty_nonempty|apply digit_word, pretty_digits].
  - split; [done|]. constructor; [done|apply digit_word, pretty_digits].
Qed.

Lemma from_chars_digits s v :
  Forall is_digit s -> s <> [] -> scan_digits 0 s = (v, []) -> v < 2 ^ 31 -> 0 <= v -> from_chars_s32 s = Some (v, []).
Proof.
  intros F Hn S Hv H0. pose proof (starts_digits s F Hn) as Sd. unfold from_chars_s32. destruct F as [|b s [d Hd] F]; [done|].
  assert (E : match b :: s with x2d :: s => (true, s) | _ => (false, b :: s) end = (false, b :: s)) by (destruct b; by vm_compute in Hd).
  rewrite E, Sd, S. cbn [negb]. destruct (Z.leb_spec (- 2 ^ 31) v), (Z.ltb_spec v (2 ^ 31)); cbn; done || lia.
Qed.

Lemma ParsePageId_fmt z : is_s32 z -> ParsePageId (txt (fmt z)) = Some z.
Proof.
  unfold is_s32. intros Hz. unfold ParsePageId. destruct z as [|n|n]; [done|rewrite fmt_pos|rewrite fmt_neg].
  - destruct (pretty_digits (N.pos n)) as [F S]. pose proof (pretty_nonempty n) as Hn. rewrite (from_chars_digits _ (Z.pos n)) by (done || lia).
    by destruct (txt (pretty (N.pos n))).
  - destruct (pretty_digits (N.pos n)) as [F S]. unfold from_chars_s32. rewrite (starts_digits _ F (pretty_nonempty n)), S. cbn [negb].
    destruct (Z.leb_spec (- 2 ^ 31) (- Z.of_N (N.pos n))), (Z.ltb_spec (- Z.of_N (N.pos n)) (2 ^ 31)); cbn [andb]; done || lia.
Qed.

Lemma ParseSlot_fmt z : is_u16 z -> ParseSlot (txt (fmt z)) = Some z.
Proof.
  unfold is_u16. intros Hz. unfold ParseSlot, from_chars_u32. destruct z as [|n|n]; [done|rewrite fmt_pos|lia].
  destruct (pretty_digits (N.pos n)) as [F S]. rewrite (starts_digits _ F (pretty_nonempty n)), S. cbn [negb].
  destruct (Z.ltb_spec (Z.of_N (N.pos n)) (2 ^ 32)); [|lia]. destruct (Z.ltb_spec 65535 (Z.of_N (N.pos n))); [lia|done].
Qed.
