(* ===== verification/Shell.v ===== *)
(** * The shell: src/src/shell/main.cpp

    A command loop over the buffer pool and one table.  A command is client code of the pool
    (the operations of PageStore.v at the instance of PoolStore.v, and the pool's own flushes
    and statistics); it returns what it printed, chunk by chunk.  [main] takes the outcomes of
    the system calls, the file, the I/O schedule and the lines of its input, and returns the
    exit code, the output and the disk it leaves.

    [fuel] bounds the walks over the table ([TableHeap::Insert], [TableIterator::Next], and the
    loops of [tscan] and [tpurge]). *)

From S2P Require Import Prelude Common DiskManager HeapPage BufferPool PoolRefine PageStore PoolStore TableHeap ShellText.

Definition kPoolFrames : Z := 16.
Definition kBodySize : Z := PAGE_BODY_SIZE.

Inductive chunk := Stdout (s : string) | Stderr (s : string).

Section shell.
Context {errno_text : ErrnoText} {host : Host} (fuel : nat).
Open Scope client_scope.

Abbreviation Cmd := (C Pool (list string)).
Abbreviation TableCmd := (C Pool (list string * TableHeap)).

Definition say (s : string) : list string := [println s].

Definition PrintStatus (what : string) (st : Status) : list string :=
  if ok st then say (what +:+ ": ok") else say (what +:+ ": " +:+ message st).

(** ** Pages *)

Definition CmdNew : Cmd :=
  do guard <- new_page ;
  match guard with
  | Error e => cret (say ("new: " +:+ message e))
  | Ok g => scoped g (cret (say ("new: allocated page " +:+ fmt (g_page g))))
  end.

Definition CmdWrite (page_id : Z) (text : list byte) : Cmd :=
  if kBodySize <? len text + 1 then
    cret (say ("write: text too long (" +:+ fmt (len text) +:+ " bytes, max " +:+ fmt (kBodySize - 1) +:+ ")"))
  else
    do guard <- fetch true page_id ;
    match guard with
    | Error e => cret (say ("write: " +:+ message e))
    | Ok g =>
        scoped g (
          set_body g (patch 0 text (zeros kBodySize)) ;;;
          cret (say ("write: page " +:+ fmt page_id +:+ " <- " +:+ fmt (len text) +:+ " bytes")))
    end.

(** The bytes before the first NUL. *)
Fixpoint until_nul (body : list byte) : list byte :=
  match body with b :: body => if bool_decide (b = x00) then [] else b :: until_nul body | [] => [] end.

Definition CmdRead (page_id : Z) : Cmd :=
  do guard <- fetch false page_id ;
  match guard with
  | Error e => cret (say ("read: " +:+ message e))
  | Ok g =>
      scoped g (
        do page <- bytes_of g ;
        cret (say ("read: page " +:+ fmt page_id +:+ " -> " +:+ quote +:+ AsText (until_nul (page_body page)) +:+ quote)))
  end.

(** ** The table *)

Definition CmdTableCreate (heap : option TableHeap) : C Pool (list string * option TableHeap) :=
  do created <- TableHeap.Create ;
  match created with
  | Error e => cret (say ("tcreate: " +:+ message e), heap)
  | Ok h =>
      cret (say ("tcreate: first=" +:+ fmt (FirstPageId h) +:+ " last=" +:+ fmt (LastPageId h)) ++
            say "         persist those two ids — the catalog will own them eventually", Some h)
  end.

Definition CmdTableOpen (heap : option TableHeap) (first last : Z) : C Pool (list string * option TableHeap) :=
  do opened <- TableHeap.Open first last ;
  match opened with
  | Error e => cret (say ("topen: " +:+ message e), heap)
  | Ok h => cret (say ("topen: first=" +:+ fmt (FirstPageId h) +:+ " last=" +:+ fmt (LastPageId h)), Some h)
  end.

Definition CmdTableInsert (heap : TableHeap) (text : list byte) : TableCmd :=
  do (rid, heap) <- TableHeap.Insert fuel (AsBytes text) heap ;
  match rid with
  | Error e => cret (say ("tinsert: " +:+ message e), heap)
  | Ok rid =>
      cret (say ("tinsert: " +:+ fmt (len text) +:+ " bytes -> " +:+ fmt_rid rid +:+
                 " (last page now " +:+ fmt (LastPageId heap) +:+ ")"), heap)
  end.

Definition CmdTableGet (rid : RID) : Cmd :=
  do row <- TableHeap.Get rid ;
  match row with
  | Error e => cret (say ("tget: " +:+ message e))
  | Ok row => cret (say ("tget: " +:+ fmt_rid rid +:+ " -> " +:+ quote +:+ AsText row +:+ quote))
  end.

Definition CmdTableUpdate (heap : TableHeap) (rid : RID) (text : list byte) : TableCmd :=
  do (moved, heap) <- TableHeap.Update fuel rid (AsBytes text) heap ;
  match moved with
  | Error e => cret (say ("tupdate: " +:+ message e), heap)
  | Ok moved =>
      cret (if bool_decide (moved = rid) then say ("tupdate: " +:+ fmt_rid rid +:+ " updated in place")
            else say ("tupdate: " +:+ fmt_rid rid +:+ " RELOCATED to " +:+ fmt_rid moved), heap)
  end.

(** The loop of [tscan]: the rows printed so far are counted in [rows]. *)
Fixpoint CmdTableScan_loop (steps : nat) (it : TableIterator) (rows : Z) : C Pool (list string * TableIterator) :=
  match steps with
  | O => fun _ => None
  | S steps =>
      do (more, it) <- Next fuel it ;
      match more with
      | Error e => cret (say ("tscan: " +:+ message e), it)
      | Ok false => cret (say ("tscan: " +:+ fmt rows +:+ " rows"), it)
      | Ok true =>
          let line := say ("  " +:+ fmt_rid (Rid it) +:+ " " +:+ quote +:+ AsText (Tuple it) +:+ quote) in
          do (out, it) <- CmdTableScan_loop steps it (rows + 1) ;
          cret (line ++ out, it)
      end
  end.

Definition CmdTableScan (heap : TableHeap) : Cmd :=
  do (out, it) <- CmdTableScan_loop fuel (Scan heap) 0 ;
  Close it ;;;
  cret out.

(** The loop of [tfill], from row [i] on: [None], or where it stopped and why. *)
Fixpoint CmdTableFill_loop (n : nat) (i : Z) (prefix : list byte) (heap : TableHeap)
    : C Pool (option (Z * Status) * TableHeap) :=
  match n with
  | O => cret (None, heap)
  | S n =>
      let row := prefix ++ txt "-" ++ txt (fmt06 i) in
      do (rid, heap) <- TableHeap.Insert fuel (AsBytes row) heap ;
      match rid with
      | Error e => cret (Some (i, e), heap)
      | Ok _ => CmdTableFill_loop n (i + 1) prefix heap
      end
  end.

Definition CmdTableFill (heap : TableHeap) (count : Z) (prefix : list byte) : TableCmd :=
  let last_before := LastPageId heap in
  do (stopped, heap) <- CmdTableFill_loop (Z.to_nat count) 0 prefix heap ;
  match stopped with
  | Some (i, e) => cret (say ("tfill: stopped after " +:+ fmt i +:+ " rows: " +:+ message e), heap)
  | None =>
      cret (say ("tfill: " +:+ fmt count +:+ " rows, last page " +:+ fmt last_before +:+ " -> " +:+ fmt (LastPageId heap)), heap)
  end.

(** The scan of [tpurge]: the RIDs of the rows that contain the needle. *)
Fixpoint CmdTablePurge_scan (steps : nat) (needle : list byte) (it : TableIterator)
    : C Pool (Result (list RID) * TableIterator) :=
  match steps with
  | O => fun _ => None
  | S steps =>
      do (more, it) <- Next fuel it ;
      match more with
      | Error e => cret (Error e, it)
      | Ok false => cret (Ok [], it)
      | Ok true =>
          let found := if contains needle (Tuple it) then [Rid it] else [] in
          do (matched, it) <- CmdTablePurge_scan steps needle it ;
          cret (match matched with Ok l => Ok (found ++ l) | Error e => Error e end, it)
      end
  end.

(** Its deletes: the failures it reports and the number of rows gone. *)
Fixpoint CmdTablePurge_delete (matched : list RID) (heap : TableHeap) : C Pool (list string * Z * TableHeap) :=
  match matched with
  | [] => cret ([], 0, heap)
  | rid :: matched =>
      do (st, heap) <- TableHeap.Delete rid heap ;
      do (out, deleted, heap) <- CmdTablePurge_delete matched heap ;
      if ok st then cret (out, deleted + 1, heap)
      else cret (say ("  " +:+ fmt_rid rid +:+ ": " +:+ message st) ++ out, deleted, heap)
  end.

Definition CmdTablePurge (heap : TableHeap) (needle : list byte) : TableCmd :=
  do (matched, it) <- CmdTablePurge_scan fuel needle (Scan heap) ;
  Close it ;;;
  match matched with
  | Error e => cret (say ("tpurge: " +:+ message e), heap)
  | Ok matched =>
      do (out, deleted, heap) <- CmdTablePurge_delete matched heap ;
      cret (out ++ say ("tpurge: " +:+ fmt (len matched) +:+ " matched, " +:+ fmt deleted +:+ " deleted"), heap)
  end.

Definition CmdTableDump (page_id : Z) : Cmd :=
  do guard <- fetch false page_id ;
  match guard with
  | Error e => cret (say ("tdump: " +:+ message e))
  | Ok g =>
      scoped g (
        do bytes <- bytes_of g ;
        match AsHeapPage bytes with
        | Error e => cret (say ("tdump: " +:+ message e))
        | Ok page =>
            let sub := HeapPage.Header page in
            do h <- header_of g ;
            cret (say ("tdump: page " +:+ fmt page_id +:+ " next=" +:+ fmt (ph_next_page_id h)) ++
                  say ("       slots=" +:+ fmt (slot_count sub) +:+ " live=" +:+ fmt (live_count sub) +:+
                       " dead_bytes=" +:+ fmt (dead_bytes sub) +:+ " tuple_data_start=" +:+ fmt (tuple_data_start sub)) ++
                  say ("       contiguous=" +:+ fmt (Contiguous page) +:+ " reclaimable=" +:+ fmt (Reclaimable page)) ++
                  say ("       invariants: " +:+ if HeapPage.CheckInvariants page then "ok" else "BROKEN"))
        end)
  end.

(** ** The loop *)

Definition CmdHelp : list string :=
  say "commands:" ++
  say "  new                 allocate a page and return its id" ++
  say "  write <page> <text> overwrite the page body" ++
  say "  read <page>         print the page body" ++
  say "  delete <page>       free the page" ++
  say "  flush <page>        write one page through to the file" ++
  say "  flushall            write every resident page through" ++
  say "  stat                page count on disk" ++
  say "table (heap layer):" ++
  say "  tcreate             new empty table; prints first/last page id" ++
  say "  topen <first> <last>  reopen one from those two ids" ++
  say "  tinsert <text>      insert a row, print its RID" ++
  say "  tget <page> <slot>  read one row" ++
  say "  tupdate <page> <slot> <text>  overwrite; prints the RID it now has" ++
  say "  tdelete <page> <slot>         delete one row" ++
  say "  tscan               walk every live row" ++
  say "  tfill <n> <prefix>  bulk insert, to force chain extension" ++
  say "  tpurge <text>       collect-then-delete every row containing <text>" ++
  say "  tdump <page>        heap page accounting + invariant check" ++
  say "  help                this list" ++
  say "  quit                shutdown (flush + fsync) and exit".

Definition CmdStat : Cmd := fun bpm =>
  let st := GetStats bpm in
  Some (say ("stat: " +:+ fmt (PageCount (disk bpm)) +:+ " pages on disk") ++
        say ("      frames " +:+ fmt (st_capacity st) +:+ ": " +:+ fmt (free_frames st) +:+ " free / " +:+
             fmt (resident_frames st) +:+ " resident / " +:+ fmt (loading_frames st) +:+ " loading / " +:+
             fmt (failed_frames st) +:+ " failed") ++
        say ("      " +:+ fmt (pinned_frames st) +:+ " pinned, " +:+ fmt (st_evictable st) +:+
             " evictable, free list holds " +:+ fmt (free_list_size st)), bpm).

(** What a line leaves: go on or stop, the table, and what was printed. *)
Record Outcome := mkOutcome { goes_on : bool; table : option TableHeap; printed : list string }.

(** [needs_page_id], [needs_rid] and [needs_table]: the lambdas of [Dispatch]. *)
Definition needs_page_id (cmd rest : list byte) (k : Z -> Cmd) : Cmd :=
  match ParsePageId (NextToken rest).1 with
  | Some id => k id
  | None => cret (say (AsText cmd +:+ ": expected a page id"))
  end.

Definition needs_rid (cmd rest : list byte) (heap : TableHeap) (k : RID -> list byte -> TableCmd) : TableCmd :=
  let failed := cret (say (AsText cmd +:+ ": expected <page> <slot>"), heap) in
  let '(token, rest) := NextToken rest in
  match ParsePageId token with
  | None => failed
  | Some page_id =>
      let '(token, rest) := NextToken rest in
      match ParseSlot token with
      | None => failed
      | Some slot => k (mkRID page_id slot) rest
      end
  end.

Definition needs_table (cmd : list byte) (heap : option TableHeap) (k : TableHeap -> TableCmd)
    : C Pool (list string * option TableHeap) :=
  match heap with
  | None => cret (say (AsText cmd +:+ ": no table — run `tcreate` or `topen` first"), None)
  | Some t => do (out, t) <- k t ; cret (out, Some t)
  end.

(** A command that leaves the table alone, and one that may not. *)
Definition plain (heap : option TableHeap) (m : Cmd) : C Pool Outcome :=
  do out <- m ; cret (mkOutcome true heap out).
Definition on_table (m : C Pool (list string * option TableHeap)) : C Pool Outcome :=
  do (out, heap) <- m ; cret (mkOutcome true heap out).
Definition reading (t : TableHeap) (m : Cmd) : TableCmd := do out <- m ; cret (out, t).

Definition Dispatch (heap : option TableHeap) (line : list byte) : C Pool Outcome :=
  let '(cmd, rest) := NextToken line in
  let named s := bool_decide (cmd = txt s) in
  if bool_decide (cmd = []) then cret (mkOutcome true heap [])
  else if named "quit" || named "exit" then cret (mkOutcome false heap [])
  else if named "help" then plain heap (cret CmdHelp)
  else if named "new" then plain heap CmdNew
  else if named "stat" then plain heap CmdStat
  else if named "flushall" then plain heap (do st <- FlushAllPages ; cret (PrintStatus "flushall" st))
  else if named "write" then
    plain heap (needs_page_id cmd rest (fun id => CmdWrite id (NextToken rest).2))
  else if named "read" then plain heap (needs_page_id cmd rest CmdRead)
  else if named "delete" then
    plain heap (needs_page_id cmd rest (fun id => do st <- delete_page id ; cret (PrintStatus "delete" st)))
  else if named "flush" then
    plain heap (needs_page_id cmd rest (fun id => do st <- FlushPage id ; cret (PrintStatus "flush" st)))
  else if named "tcreate" then on_table (CmdTableCreate heap)
  else if named "topen" then
    let '(token, rest) := NextToken rest in
    match ParsePageId token, ParsePageId (NextToken rest).1 with
    | Some first, Some last => on_table (CmdTableOpen heap first last)
    | _, _ => cret (mkOutcome true heap (say "topen: expected <first> <last>"))
    end
  else if named "tinsert" then on_table (needs_table cmd heap (fun t => CmdTableInsert t rest))
  else if named "tget" then
    on_table (needs_table cmd heap (fun t => needs_rid cmd rest t (fun rid _ => reading t (CmdTableGet rid))))
  else if named "tupdate" then
    on_table (needs_table cmd heap (fun t => needs_rid cmd rest t (CmdTableUpdate t)))
  else if named "tdelete" then
    on_table (needs_table cmd heap (fun t => needs_rid cmd rest t (fun rid _ =>
      do (st, t) <- TableHeap.Delete rid t ; cret (PrintStatus "tdelete" st, t))))
  else if named "tscan" then on_table (needs_table cmd heap (fun t => reading t (CmdTableScan t)))
  else if named "tfill" then
    on_table (needs_table cmd heap (fun t =>
      let '(token, rest) := NextToken rest in
      match ParsePageId token with
      | Some count =>
          if 0 <? count then CmdTableFill t count (if bool_decide (rest = []) then txt "row" else rest)
          else cret (say "tfill: expected <n> <prefix>, n > 0", t)
      | None => cret (say "tfill: expected <n> <prefix>, n > 0", t)
      end))
  else if named "tpurge" then on_table (needs_table cmd heap (fun t => CmdTablePurge t rest))
  else if named "tdump" then plain heap (needs_page_id cmd rest CmdTableDump)
  else cret (mkOutcome true heap (say ("unknown command '" +:+ AsText cmd +:+ "' — try `help`"))).

(** The [while] loop of [main]: every line is prompted for; the end of the input is a quit. *)
Fixpoint main_loop (lines : list (list byte)) (heap : option TableHeap) : Cmd :=
  match lines with
  | [] => cret ["kernsql> "; println ""]
  | line :: lines =>
      do o <- Dispatch heap line ;
      if goes_on o then do out <- main_loop lines (table o) ; cret ("kernsql> " :: printed o ++ out)
      else cret ("kernsql> " :: printed o)
  end.

Definition banner (db_path : string) (dm : Disk) : list string :=
  say ("kernSQL — " +:+ db_path +:+ " (" +:+ fmt (PageCount dm) +:+ " pages)") ++
  say "`help` for commands, `quit` to shut down cleanly.".

(** The exit code, the output, and the disk manager at exit; the pool's destructor runs last. *)
Definition main (db_path : string) (open_ok fstat_ok fsync_ok : bool) (f : list byte) (evs : list Event)
    (lines : list (list byte)) : option (Z * list chunk * Disk) :=
  let '(st, dm) := DiskManager.Open db_path open_ok fstat_ok f evs in
  if negb (ok st) then
    Some (1, [Stderr (println ("cannot open " +:+ db_path +:+ ": " +:+ message st))], dm)
  else
    let bpm := new_Pool dm kPoolFrames in
    match (do out <- main_loop lines None ; do st <- Shutdown fsync_ok ; Destroy fsync_ok ;;; cret (out, st)) bpm with
    | None => None
    | Some ((out, st), bpm) =>
        let shown := Stdout <$> banner db_path dm ++ out in
        if negb (ok st) then
          Some (1, shown ++ [Stderr (println ("shutdown failed: " +:+ message st))], disk bpm)
        else Some (0, shown ++ [Stdout (println "shutdown ok")], disk bpm)
    end.
End shell.
