(* ===== verification/ShellSpec.v ===== *)
(** * The shell's command language

    A line is parsed to a [Command], which is then performed; [Dispatch] does both at once.
    [show c] is a line that makes the shell perform [c]; every command but the shell's own
    error messages has one. *)

From stdpp Require Import gmap.
From S2P Require Import Prelude Common DiskManager HeapPage BufferPool PoolRefine PageStore PoolStore TableHeap ShellText ShellTextProofs Shell.

Inductive Command :=
  | Nothing
  | Quit
  | Say (out : list string)
  | New
  | Stat
  | FlushAll
  | Write (id : Z) (text : list byte)
  | Read (id : Z)
  | DeleteP (id : Z)
  | FlushP (id : Z)
  | TCreate
  | TOpen (first last : Z)
  | TInsertC (text : list byte)
  | TGetC (rid : RID)
  | TUpdateC (rid : RID) (text : list byte)
  | TDeleteC (rid : RID)
  | TScanC
  | TFill (count : Z) (prefix : list byte)
  | TPurge (needle : list byte)
  | TDump (id : Z).

(** ** Parsing *)

Definition page_arg (cmd rest : list byte) (k : Z -> Command) : Command :=
  match ParsePageId (NextToken rest).1 with
  | Some id => k id
  | None => Say (say (AsText cmd +:+ ": expected a page id"))
  end.

Definition rid_arg (cmd rest : list byte) (k : RID -> list byte -> Command) : Command :=
  let t1 := NextToken rest in
  let t2 := NextToken t1.2 in
  match ParsePageId t1.1, ParseSlot t2.1 with
  | Some page_id, Some slot => k (mkRID page_id slot) t2.2
  | _, _ => Say (say (AsText cmd +:+ ": expected <page> <slot>"))
  end.

(** A table command without a table is an error message. *)
Definition table_arg (has_table : bool) (cmd : list byte) (c : Command) : Command :=
  if has_table then c else Say (say (AsText cmd +:+ ": no table — run `tcreate` or `topen` first")).

Definition parse (has_table : bool) (line : list byte) : Command :=
  let cmd := (NextToken line).1 in
  let rest := (NextToken line).2 in
  let named s := bool_decide (cmd = txt s) in
  if bool_decide (cmd = []) then Nothing
  else if named "quit" || named "exit" then Quit
  else if named "help" then Say CmdHelp
  else if named "new" then New
  else if named "stat" then Stat
  else if named "flushall" then FlushAll
  else if named "write" then page_arg cmd rest (fun id => Write id (NextToken rest).2)
  else if named "read" then page_arg cmd rest Read
  else if named "delete" then page_arg cmd rest DeleteP
  else if named "flush" then page_arg cmd rest FlushP
  else if named "tcreate" then TCreate
  else if named "topen" then
    match ParsePageId (NextToken rest).1, ParsePageId (NextToken (NextToken rest).2).1 with
    | Some first, Some last => TOpen first last
    | _, _ => Say (say "topen: expected <first> <last>")
    end
  else if named "tinsert" then table_arg has_table cmd (TInsertC rest)
  else if named "tget" then table_arg has_table cmd (rid_arg cmd rest (fun rid _ => TGetC rid))
  else if named "tupdate" then table_arg has_table cmd (rid_arg cmd rest TUpdateC)
  else if named "tdelete" then table_arg has_table cmd (rid_arg cmd rest (fun rid _ => TDeleteC rid))
  else if named "tscan" then table_arg has_table cmd TScanC
  else if named "tfill" then
    table_arg has_table cmd
      match ParsePageId (NextToken rest).1 with
      | Some count =>
          if 0 <? count then TFill count (if bool_decide ((NextToken rest).2 = []) then txt "row" else (NextToken rest).2)
          else Say (say "tfill: expected <n> <prefix>, n > 0")
      | None => Say (say "tfill: expected <n> <prefix>, n > 0")
      end
  else if named "tpurge" then table_arg has_table cmd (TPurge rest)
  else if named "tdump" then page_arg cmd rest TDump
  else Say (say ("unknown command '" +:+ AsText cmd +:+ "' — try `help`")).

Section perform.
Context {errno_text : ErrnoText} {host : Host} (fuel : nat).
Open Scope client_scope.

(** Run a table command on the table there is. *)
Definition with_table (heap : option TableHeap) (k : TableHeap -> C Pool (list string * TableHeap)) : C Pool Outcome :=
  match heap with
  | None => cret (mkOutcome true None [])
  | Some t => do (out, t) <- k t ; cret (mkOutcome true (Some t) out)
  end.

Definition perform (heap : option TableHeap) (c : Command) : C Pool Outcome :=
  match c with
  | Nothing => cret (mkOutcome true heap [])
  | Quit => cret (mkOutcome false heap [])
  | Say out => cret (mkOutcome true heap out)
  | New => plain heap CmdNew
  | Stat => plain heap CmdStat
  | FlushAll => plain heap (do st <- FlushAllPages ; cret (PrintStatus "flushall" st))
  | Write id text => plain heap (CmdWrite id text)
  | Read id => plain heap (CmdRead id)
  | DeleteP id => plain heap (do st <- delete_page id ; cret (PrintStatus "delete" st))
  | FlushP id => plain heap (do st <- FlushPage id ; cret (PrintStatus "flush" st))
  | TCreate => on_table (CmdTableCreate heap)
  | TOpen first last => on_table (CmdTableOpen heap first last)
  | TInsertC text => with_table heap (fun t => CmdTableInsert fuel t text)
  | TGetC rid => with_table heap (fun t => reading t (CmdTableGet rid))
  | TUpdateC rid text => with_table heap (fun t => CmdTableUpdate fuel t rid text)
  | TDeleteC rid => with_table heap (fun t => do (st, t) <- TableHeap.Delete rid t ; cret (PrintStatus "tdelete" st, t))
  | TScanC => with_table heap (fun t => reading t (CmdTableScan fuel t))
  | TFill count prefix => with_table heap (fun t => CmdTableFill fuel t count prefix)
  | TPurge needle => with_table heap (fun t => CmdTablePurge fuel t needle)
  | TDump id => plain heap (CmdTableDump id)
  end.

(** ** [Dispatch] parses and performs *)

Lemma plain_page heap cmd rest (k : Z -> C Pool (list string)) (c : Z -> Command) s :
  (forall id, plain heap (k id) s = perform heap (c id) s) ->
  plain heap (needs_page_id cmd rest k) s = perform heap (page_arg cmd rest c) s.
Proof. intros Hk. unfold needs_page_id, page_arg. destruct (ParsePageId _); [apply Hk|done]. Qed.

Lemma on_table_arg heap cmd (k : TableHeap -> C Pool (list string * TableHeap)) (c : Command) s :
  (forall t, heap = Some t -> with_table heap k s = perform heap c s) ->
  on_table (needs_table cmd heap k) s = perform heap (table_arg (bool_decide (is_Some heap)) cmd c) s.
Proof.
  intros Hk. unfold on_table, needs_table, table_arg. destruct heap as [t|]; [|done]. rewrite bool_decide_eq_true_2 by done.
  rewrite <- (Hk t eq_refl). unfold with_table, cbind. destruct (k t s) as [[[out t'] s']|]; done.
Qed.

Lemma with_rid heap cmd rest (k : TableHeap -> RID -> list byte -> C Pool (list string * TableHeap)) (c : RID -> list byte -> Command) s :
  (forall rid text t, heap = Some t -> with_table heap (fun t => k t rid text) s = perform heap (c rid text) s) ->
  forall t, heap = Some t -> with_table heap (fun t => needs_rid cmd rest t (k t)) s = perform heap (rid_arg cmd rest c) s.
Proof.
  intros Hk t ->. unfold needs_rid, rid_arg, with_table. destruct (NextToken rest) as [tok1 rest1]. cbn [fst snd].
  destruct (NextToken rest1) as [tok2 rest2]. cbn [fst snd]. destruct (ParsePageId tok1); [|done]. destruct (ParseSlot tok2); [|done].
  by rewrite <- (Hk _ _ t eq_refl).
Qed.

Lemma Dispatch_parse heap line s : Dispatch fuel heap line s = perform heap (parse (bool_decide (is_Some heap)) line) s.
Proof.
  unfold Dispatch, parse. destruct (NextToken line) as [cmd rest]. cbn [fst snd]. cbv zeta.
  repeat match goal with |- (if ?b then _ else _) _ = perform _ (if ?b then _ else _) _ => destruct b end; try done.
  - by apply plain_page.
  - by apply plain_page.
  - by apply plain_page.
  - by apply plain_page.
  - destruct (NextToken rest) as [tok1 rest1]. cbn [fst snd]. destruct (ParsePageId tok1), (ParsePageId (NextToken rest1).1); done.
  - by apply on_table_arg.
  - apply on_table_arg. by apply with_rid.
  - apply on_table_arg. by apply with_rid.
  - apply on_table_arg. by apply with_rid.
  - by apply on_table_arg.
  - apply on_table_arg. intros t ->. unfold with_table. destruct (NextToken rest) as [tok1 rest1]. cbn [fst snd].
    destruct (ParsePageId tok1) as [n|]; [|done]. by destruct (0 <? n).
  - by apply on_table_arg.
  - by apply plain_page.
Qed.
End perform.

(** ** Lines for commands *)

Infix "+_" := (fun a b => a ++ x20 :: b) (at level 60, right associativity, only parsing).

Definition num (z : Z) : list byte := txt (fmt z).
Definition rid_words (r : RID) : list byte := num (rid_page_id r) +_ num (rid_slot r).

Definition show (c : Command) : list byte :=
  match c with
  | Nothing | Say _ => []
  | Quit => txt "quit"
  | New => txt "new"
  | Stat => txt "stat"
  | FlushAll => txt "flushall"
  | Write id text => txt "write" +_ num id +_ text
  | Read id => txt "read" +_ num id
  | DeleteP id => txt "delete" +_ num id
  | FlushP id => txt "flush" +_ num id
  | TCreate => txt "tcreate"
  | TOpen first last => txt "topen" +_ num first +_ num last
  | TInsertC text => txt "tinsert" +_ text
  | TGetC r => txt "tget" +_ rid_words r
  | TUpdateC r text => txt "tupdate" +_ num (rid_page_id r) +_ num (rid_slot r) +_ text
  | TDeleteC r => txt "tdelete" +_ rid_words r
  | TScanC => txt "tscan"
  | TFill count prefix => txt "tfill" +_ num count +_ prefix
  | TPurge needle => txt "tpurge" +_ needle
  | TDump id => txt "tdump" +_ num id
  end.

(** Text that survives the line: not empty, no blanks at its ends. *)
Definition text_ok (text : list byte) : Prop := text <> [] /\ clean text.
Definition rid_ok (r : RID) : Prop := is_s32 (rid_page_id r) /\ is_u16 (rid_slot r).

Definition typable (c : Command) : Prop :=
  match c with
  | Say _ => False
  | Write id text => is_s32 id /\ text_ok text
  | Read id | DeleteP id | FlushP id | TDump id => is_s32 id
  | TOpen first last => is_s32 first /\ is_s32 last
  | TInsertC text | TPurge text => text_ok text
  | TGetC r | TDeleteC r => rid_ok r
  | TUpdateC r text => rid_ok r /\ text_ok text
  | TFill count prefix => 0 < count < 2 ^ 31 /\ text_ok prefix
  | _ => True
  end.

(** ** A command word and the rest of its line *)

Lemma line_ok w s : word w -> text_ok s -> text_ok (w +_ s).
Proof. intros Hw [Hn Hs]. split; [by destruct w|by apply clean_line]. Qed.

Lemma num_ok z : text_ok (num z).
Proof. pose proof (word_fmt z) as Hw. split; [apply Hw|by apply clean_word]. Qed.

Lemma next_num z s : text_ok s -> NextToken (num z +_ s) = (num z, s).
Proof. intros [Hn Hs]. apply NextToken_line; [apply word_fmt|done|done]. Qed.

Lemma next_last z : NextToken (num z) = (num z, []).
Proof. apply NextToken_word, word_fmt. Qed.

(** The names of the commands, and the rest each of them gets. *)
Section named.
Context (b : bool) (line rest : list byte).

Ltac by_name := intros E; unfold parse; rewrite E; reflexivity.

Lemma parse_write : NextToken line = (txt "write", rest) -> parse b line = page_arg (txt "write") rest (fun id => Write id (NextToken rest).2).
Proof. by_name. Qed.
Lemma parse_read : NextToken line = (txt "read", rest) -> parse b line = page_arg (txt "read") rest Read.
Proof. by_name. Qed.
Lemma parse_delete : NextToken line = (txt "delete", rest) -> parse b line = page_arg (txt "delete") rest DeleteP.
Proof. by_name. Qed.
Lemma parse_flush : NextToken line = (txt "flush", rest) -> parse b line = page_arg (txt "flush") rest FlushP.
Proof. by_name. Qed.
Lemma parse_tdump : NextToken line = (txt "tdump", rest) -> parse b line = page_arg (txt "tdump") rest TDump.
Proof. by_name. Qed.
Lemma parse_topen :
  NextToken line = (txt "topen", rest) -> parse b line =
  match ParsePageId (NextToken rest).1, ParsePageId (NextToken (NextToken rest).2).1 with
  | Some first, Some last => TOpen first last
  | _, _ => Say (say "topen: expected <first> <last>")
  end.
Proof. by_name. Qed.
Lemma parse_tinsert : NextToken line = (txt "tinsert", rest) -> parse b line = table_arg b (txt "tinsert") (TInsertC rest).
Proof. by_name. Qed.
Lemma parse_tget : NextToken line = (txt "tget", rest) -> parse b line = table_arg b (txt "tget") (rid_arg (txt "tget") rest (fun r _ => TGetC r)).
Proof. by_name. Qed.
Lemma parse_tupdate : NextToken line = (txt "tupdate", rest) -> parse b line = table_arg b (txt "tupdate") (rid_arg (txt "tupdate") rest TUpdateC).
Proof. by_name. Qed.
Lemma parse_tdelete : NextToken line = (txt "tdelete", rest) -> parse b line = table_arg b (txt "tdelete") (rid_arg (txt "tdelete") rest (fun r _ => TDeleteC r)).
Proof. by_name. Qed.
Lemma parse_tpurge : NextToken line = (txt "tpurge", rest) -> parse b line = table_arg b (txt "tpurge") (TPurge rest).
Proof. by_name. Qed.
Lemma parse_tfill :
  NextToken line = (txt "tfill", rest) -> parse b line = table_arg b (txt "tfill")
  match ParsePageId (NextToken rest).1 with
  | Some count =>
      if 0 <? count then TFill count (if bool_decide ((NextToken rest).2 = []) then txt "row" else (NextToken rest).2)
      else Say (say "tfill: expected <n> <prefix>, n > 0")
  | None => Say (say "tfill: expected <n> <prefix>, n > 0")
  end.
Proof. by_name. Qed.
End named.

Lemma page_arg_num cmd id s k : is_s32 id -> text_ok s -> page_arg cmd (num id +_ s) k = k id.
Proof. intros Hi Hs. unfold page_arg. rewrite next_num by done. unfold num. cbn [fst]. by rewrite ParsePageId_fmt. Qed.
Lemma page_arg_last cmd id k : is_s32 id -> page_arg cmd (num id) k = k id.
Proof. intros Hi. unfold page_arg. rewrite next_last. unfold num. cbn [fst]. by rewrite ParsePageId_fmt. Qed.

Lemma rid_arg_last cmd r k : rid_ok r -> rid_arg cmd (rid_words r) k = k r [].
Proof.
  intros [Hp Hs]. unfold rid_arg, rid_words. rewrite next_num by apply num_ok. cbn [fst snd]. rewrite next_last. cbn [fst snd].
  unfold num. rewrite ParsePageId_fmt, ParseSlot_fmt by done. by destruct r.
Qed.
Lemma rid_arg_text cmd r s k : rid_ok r -> text_ok s -> rid_arg cmd (num (rid_page_id r) +_ num (rid_slot r) +_ s) k = k r s.
Proof.
  intros [Hp Hs] Ht. unfold rid_arg. rewrite next_num by (apply line_ok; [apply word_fmt|done]). cbn [fst snd]. rewrite next_num by done. cbn [fst snd].
  unfold num. rewrite ParsePageId_fmt, ParseSlot_fmt by done. by destruct r.
Qed.

Lemma next_named (w : string) s : word (txt w) -> text_ok s -> NextToken (txt w +_ s) = (txt w, s).
Proof. intros Hw [Hn Hs]. by apply NextToken_line. Qed.

Lemma name_ok (w : string) : bool_decide (txt w <> [] /\ Forall (fun b => is_blank_or_cr b = false) (txt w)) = true -> word (txt w).
Proof. by intros ?%bool_decide_eq_true. Qed.

Create HintDb shell.
#[export] Hint Resolve num_ok line_ok word_fmt : shell.

(** The commands that need an open table. *)
Definition needs_open (c : Command) : bool :=
  match c with TInsertC _ | TGetC _ | TUpdateC _ _ | TDeleteC _ | TScanC | TFill _ _ | TPurge _ => true | _ => false end.

(** The shell reads back every line it can be given. *)
Lemma parse_show b c : typable c -> (needs_open c = true -> b = true) -> parse b (show c) = c.
Proof.
  destruct c as [| |out| | | |id text|id|id|id| |first last|text|r|r text|r| |count prefix|needle|id]; cbn [typable show needs_open]; intros Ht Hb; try rewrite Hb by done; try done.
  - erewrite parse_write by (apply next_named; [by apply name_ok|apply line_ok; [apply word_fmt|apply Ht]]).
    rewrite page_arg_num by apply Ht. by rewrite next_num by apply Ht.
  - erewrite parse_read by (apply next_named; [by apply name_ok|apply num_ok]). by apply page_arg_last.
  - erewrite parse_delete by (apply next_named; [by apply name_ok|apply num_ok]). by apply page_arg_last.
  - erewrite parse_flush by (apply next_named; [by apply name_ok|apply num_ok]). by apply page_arg_last.
  - erewrite parse_topen by (apply next_named; [by apply name_ok|apply line_ok; [apply word_fmt|apply num_ok]]).
    rewrite next_num by apply num_ok. cbn [fst snd]. rewrite next_last. unfold num. cbn [fst]. by rewrite !ParsePageId_fmt by apply Ht.
  - erewrite parse_tinsert by (apply next_named; [by apply name_ok|done]). done.
  - erewrite parse_tget by (apply next_named; [by apply name_ok|apply line_ok; [apply word_fmt|apply num_ok]]). cbn [table_arg]. by rewrite (rid_arg_last _ r).
  - erewrite parse_tupdate by (apply next_named; [by apply name_ok|repeat (apply line_ok; [apply word_fmt|]); apply Ht]).
    cbn [table_arg]. by rewrite rid_arg_text by apply Ht.
  - erewrite parse_tdelete by (apply next_named; [by apply name_ok|apply line_ok; [apply word_fmt|apply num_ok]]). cbn [table_arg]. by rewrite (rid_arg_last _ r).
  - destruct Ht as [Hc [Hn Hp]]. erewrite parse_tfill by (apply next_named; [by apply name_ok|apply line_ok; [apply word_fmt|done]]).
    cbn [table_arg]. rewrite next_num by done. unfold num. cbn [fst snd]. rewrite ParsePageId_fmt by (unfold is_s32; lia).
    destruct (Z.ltb_spec 0 count); [|lia]. by rewrite bool_decide_eq_false_2.
  - erewrite parse_tpurge by (apply next_named; [by apply name_ok|done]). done.
  - erewrite parse_tdump by (apply next_named; [by apply name_ok|apply num_ok]). by apply page_arg_last.
Qed.
