(* ===== verification/ShellCommands.v ===== *)
(** * What each command of the shell does

    Total-correctness rules for the commands, run with no guard open on a pool of at least two
    frames; the loops of [tscan], [tfill] and [tpurge] by induction on the rows. *)

From stdpp Require Import gmap.
From S2P Require Import Prelude Common DiskManager HeapPage HeapPageProofs HeapPageRefine BufferPool BufferPoolOps PoolRefine PageStore PageStoreLogic PoolStore.
From S2P Require Import TableHeap TableHeapSpec TableHeapProofs TableScan ShellText Shell.

Section commands.
Context {errno_text : ErrnoText} {host : Host} (cap : Z).
Hypothesis Hcap : 2 <= cap.

Lemma no_guard w p : admissible w p [].
Proof. intros g Hg. by apply elem_of_nil in Hg. Qed.

(** ** Pages *)

Lemma wp_CmdNew m :
  wp cap 2 CmdNew m [] (fun out m' gs' => gs' = [] /\ exists p, m !! p = None /\ m' = <[p := fresh_page p]> m /\
    out = say ("new: allocated page " +:+ fmt p)).
Proof.
  unfold CmdNew. apply (wp_bind _ 1); [lia|]. apply wp_new; [lia| |intros e _ Hc; cbn in Hc; lia].
  intros g Hn _ _. apply wp_scoped; [lia|]. apply wp_cret; [lia|]. exists []. split; [done|]. split; [done|]. by exists (g_page g).
Qed.

(** The body a [write] leaves: the text, then NULs. *)
Definition body_of (text : list byte) : list byte := patch 0 text (zeros kBodySize).

Lemma len_body_of text : len text <= kBodySize -> len (body_of text) = PAGE_BODY_SIZE.
Proof. intros H. unfold body_of. rewrite len_patch; rewrite ?length_zeros; try done; unfold kBodySize in *; unfold_consts; lia. Qed.

Lemma wp_CmdWrite id text m :
  fetchable id ->
  wp cap 3 (CmdWrite id text) m [] (fun out m' gs' => gs' = [] /\
    ((kBodySize < len text + 1 /\ m' = m /\
      out = say ("write: text too long (" +:+ fmt (len text) +:+ " bytes, max " +:+ fmt (kBodySize - 1) +:+ ")")) \/
     (len text + 1 <= kBodySize /\ exists bs, m !! id = Some bs /\ m' = <[id := patch PAGE_HEADER_SIZE (body_of text) bs]> m /\
        out = say ("write: page " +:+ fmt id +:+ " <- " +:+ fmt (len text) +:+ " bytes")) \/
     (len text + 1 <= kBodySize /\ (forall bs, m !! id = Some bs -> ~ loadable id bs) /\ m' = m /\ exists e, out = say ("write: " +:+ message e)))).
Proof.
  intros Np. unfold CmdWrite. destruct (Z.ltb_spec kBodySize (len text + 1)) as [H|H]; [apply wp_cret; [lia|]; split; [done|]; by left|].
  apply (wp_bind _ 1); [lia|]. eapply wp_fetch; [lia|done|apply no_guard| |].
  - intros g bs Gp Gw Hm. apply wp_scoped; [lia|]. apply (wp_bind _ 1); [lia|].
    eapply wp_set_body; [lia|by left|done|by rewrite Gp|apply len_body_of; lia|]. apply wp_cret; [lia|].
    exists []. split; [done|]. split; [done|]. right. left. split; [done|]. exists bs. by rewrite Gp.
  - intros e _ Hc. apply wp_cret; [lia|]. split; [done|]. right. right. split; [done|]. split; [|split; [done|by exists e]].
    intros bs Hm Hl. specialize (Hc bs Hm Hl). cbn in Hc. lia.
Qed.

Lemma wp_CmdRead id m :
  fetchable id ->
  wp cap 2 (CmdRead id) m [] (fun out m' gs' => gs' = [] /\ m' = m /\
    ((exists bs, m !! id = Some bs /\
        out = say ("read: page " +:+ fmt id +:+ " -> " +:+ quote +:+ AsText (until_nul (page_body bs)) +:+ quote)) \/
     ((forall bs, m !! id = Some bs -> ~ loadable id bs) /\ exists e, out = say ("read: " +:+ message e)))).
Proof.
  intros Np. unfold CmdRead. apply (wp_bind _ 1); [lia|]. eapply wp_fetch; [lia|done|apply no_guard| |].
  - intros g bs Gp Gw Hm. apply wp_scoped; [lia|]. apply (wp_bind _ 0); [lia|]. apply wp_bytes; [lia|by left|]. rewrite Gp, Hm.
    intros ? [= <-] _ _. apply wp_cret; [lia|]. exists []. split; [done|]. split; [done|]. split; [done|]. left. by exists bs.
  - intros e _ Hc. apply wp_cret; [lia|]. split; [done|]. split; [done|]. right. split; [|by exists e].
    intros bs Hm Hl. specialize (Hc bs Hm Hl). cbn in Hc. lia.
Qed.

Lemma wp_delete_command id m :
  wp cap 1 (do st <- delete_page id ; cret (PrintStatus "delete" st))%client m [] (fun out m' gs' => gs' = [] /\
    ((m' = delete id m /\ out = say "delete: ok") \/
     (m !! id = None /\ m' = m /\ exists e, code e = kInvalidArgument /\ out = PrintStatus "delete" e))).
Proof.
  apply (wp_bind _ 1); [lia|]. apply wp_delete; [lia| |].
  - intros _. apply wp_cret; [lia|]. split; [done|]. by left.
  - intros e He [Hn|(g & Hg & _)]; [|by apply elem_of_nil in Hg]. apply wp_cret; [lia|]. split; [done|]. right. split; [done|]. split; [done|]. by exists e.
Qed.

Lemma wp_flush_command id m :
  wp cap 1 (do st <- FlushPage id ; cret (PrintStatus "flush" st))%client m [] (fun out m' gs' => gs' = [] /\ m' = m /\ out = say "flush: ok").
Proof.
  apply (wp_bind _ 1); [lia|]. intros n s Hn R. destruct (pool_flush_law cap n m s id R) as (s' & E & R'). exists StatusOK, s', m, [].
  split; [done|]. split; [done|]. by apply wp_cret.
Qed.

Lemma wp_flushall_command m :
  wp cap 1 (do st <- FlushAllPages ; cret (PrintStatus "flushall" st))%client m [] (fun out m' gs' => gs' = [] /\ m' = m /\ out = say "flushall: ok").
Proof.
  apply (wp_bind _ 1); [lia|]. intros n s Hn R. destruct (pool_flush_all_law cap n m s R) as (s' & E & R'). exists StatusOK, s', m, [].
  split; [done|]. split; [done|]. by apply wp_cret.
Qed.

Lemma wp_CmdStat m : wp cap 0 CmdStat m [] (fun out m' gs' => gs' = [] /\ m' = m).
Proof. intros n s Hn R. eexists _, s, m, []. split; [done|]. split; [|done]. eapply rep_mono; [|exact R]. lia. Qed.

(** What [tdump] prints of a heap page. *)
Definition dump_lines (id : Z) (bs : list byte) : list string :=
  let page := page_body bs in
  let sub := HeapPage.Header page in
  say ("tdump: page " +:+ fmt id +:+ " next=" +:+ fmt (ph_next_page_id (page_header bs))) ++
  say ("       slots=" +:+ fmt (slot_count sub) +:+ " live=" +:+ fmt (live_count sub) +:+
       " dead_bytes=" +:+ fmt (dead_bytes sub) +:+ " tuple_data_start=" +:+ fmt (tuple_data_start sub)) ++
  say ("       contiguous=" +:+ fmt (Contiguous page) +:+ " reclaimable=" +:+ fmt (Reclaimable page)) ++
  say ("       invariants: " +:+ if HeapPage.CheckInvariants page then "ok" else "BROKEN").

Lemma wp_CmdTableDump id m :
  fetchable id ->
  wp cap 2 (CmdTableDump id) m [] (fun out m' gs' => gs' = [] /\ m' = m /\
    ((exists bs, m !! id = Some bs /\ ph_page_type (page_header bs) = HEAP /\ out = dump_lines id bs) \/
     ((forall bs, m !! id = Some bs -> loadable id bs -> ph_page_type (page_header bs) <> HEAP) /\ exists e, out = say ("tdump: " +:+ message e)))).
Proof.
  intros Np. unfold CmdTableDump. apply (wp_bind _ 1); [lia|]. eapply wp_fetch; [lia|done|apply no_guard| |].
  - intros g bs Gp Gw Hm. apply wp_scoped; [lia|]. apply (wp_bind _ 0); [lia|]. apply wp_bytes; [lia|by left|]. rewrite Gp, Hm.
    intros ? [= <-] _ _. unfold AsHeapPage. change (PageHeader_ReadFrom (slice 0 PAGE_HEADER_SIZE bs)) with (page_header bs). case_decide as E.
    + apply wp_cret; [lia|]. exists []. split; [done|]. split; [done|]. split; [done|]. right. split; [|by eexists]. intros bs' Hm' _. by injection Hm' as <-.
    + apply (wp_bind _ 0); [lia|]. eapply wp_header; [lia|by left|by rewrite Gp|]. apply wp_cret; [lia|]. exists []. split; [done|]. split; [done|]. split; [done|].
      left. exists bs. split; [done|]. split; [|done]. destruct (decide (ph_page_type (page_header bs) = HEAP)); [done|by destruct E].
  - intros e _ Hc. apply wp_cret; [lia|]. split; [done|]. split; [done|]. right. split; [|by exists e].
    intros bs Hm Hl. specialize (Hc bs Hm Hl). cbn in Hc. lia.
Qed.
End commands.
