(* ===== verification/ShellTable.v ===== *)
(** * What the table commands of the shell do

    A command is the operations of the abstract table ([table_spec]) it stands for, and what it
    prints of their answers. *)

From stdpp Require Import gmap.
From S2P Require Import Prelude Common DiskManager HeapPage HeapPageProofs HeapPageRefine BufferPool BufferPoolOps PoolRefine PageStore PageStoreLogic PoolStore.
From S2P Require Import TableHeap TableHeapSpec TableHeapProofs TableScan TableHeapTheorems ShellText Shell ShellCommands.

(** The handle [H] is that of a table in the pages [m] that holds [A]. *)
Definition models (H : TableHeap) (m : pages_t) (A : ATable) : Prop :=
  exists T, table_ok H m T /\ hint_ok H m T /\ abstracts A T.

(** [fuel] is enough for every walk over the table, and for [k] more rows. *)
Definition fits (fuel : nat) (A : ATable) (k : nat) : Prop :=
  (length (t_pages A) + k < fuel)%nat /\ (size (t_rows A) + k < fuel)%nat.

Definition row_line (row : RID * list byte) : string :=
  println ("  " +:+ fmt_rid row.1 +:+ " " +:+ quote +:+ AsText row.2 +:+ quote).

Definition fill_row (prefix : list byte) (i : Z) : list byte := prefix ++ txt "-" ++ txt (fmt06 i).

(** [tfill] from row [i] on: inserts in order, up to the first one that is refused. *)
Inductive fills (prefix : list byte) : Z -> nat -> ATable -> option (Z * Status) -> ATable -> Prop :=
  | fill_done i A : fills prefix i 0 A None A
  | fill_stop i n A e A' :
      table_spec A (TInsert (fill_row prefix i)) (OutRid (Error e)) A' -> fills prefix i (S n) A (Some (i, e)) A'
  | fill_more i n A r A1 stop A' :
      table_spec A (TInsert (fill_row prefix i)) (OutRid (Ok r)) A1 -> fills prefix (i + 1) n A1 stop A' ->
      fills prefix i (S n) A stop A'.

(** The rows [tpurge] keeps, and those it takes. *)
Definition spared (needle : list byte) (M : gmap RID (list byte)) : gmap RID (list byte) :=
  filter (fun row => contains needle row.2 = false) M.
Definition purged (needle : list byte) (M : gmap RID (list byte)) : gmap RID (list byte) :=
  filter (fun row => contains needle row.2 = true) M.

Lemma fits_layout fuel A T k : NoDup T.*1 -> abstracts A T -> fits fuel A k -> (length T + k < fuel)%nat /\ (length (table_rows T) + k < fuel)%nat.
Proof. intros ND [Ar Ap]. unfold fits. rewrite Ar, Ap, size_rows by done. by rewrite length_fmap. Qed.

Lemma models_last H m A : models H m A -> last_page_id H ∈ t_pages A.
Proof. intros (T & K & _ & _ & ->). apply K. Qed.

Section table.
Context {errno_text : ErrnoText} {host : Host} (cap : Z) (fuel : nat).
Hypothesis Hcap : 2 <= cap.

(** A rule for [k] from one for [k] with its answer wrapped. *)
Lemma wp_unwrap {A B} c (k : C Pool A) (g : A -> C Pool B) (f : A -> B) m gs Q :
  (forall a s, g a s = Some (f a, s)) -> wp cap c (cbind k g) m gs Q -> wp cap c k m gs (fun a => Q (f a)).
Proof.
  intros Hg W n s Hn R. destruct (W n s Hn R) as (b & s' & m' & gs' & E & R' & HQ). unfold cbind in E.
  destruct (k s) as [[a s1]|]; [|done]. rewrite Hg in E. injection E as <- <-. by exists a, s1, m', gs'.
Qed.

(** What one operation of the table leaves. *)
Definition table_post (A : ATable) (o : TableOp) (m : pages_t) (out : TableOut) (H' : TableHeap) (m' : pages_t) (gs' : list PageGuard) : Prop :=
  gs' = [] /\ exists A', table_spec A o out A' /\ models H' m' A' /\ grew m (t_pages A) m' (t_pages A') /\
    forall k, fits fuel A (S k) -> fits fuel A' k.

Lemma wp_table_step o H m A :
  models H m A -> op_enabled A o -> fits fuel A 0 ->
  wp cap (op_cost fuel) (table_step fuel o H) m [] (fun r => table_post A o m r.1 r.2).
Proof.
  intros (T & K & Hh & Ab) En F. pose proof (tk_nodup _ _ _ K) as ND. destruct (fits_layout _ _ _ _ ND Ab F) as [F1 F2].
  eapply (wp_mono _ _ _ _ _ _ _ (refines_step A o m T)); [reflexivity| |].
  - intros [out H'] m' gs' [-> (A' & T' & Sp & Ab' & K' & Hh' & L1 & L2 & G)]. split; [done|]. exists A'. split; [done|].
    split; [by exists T'|]. destruct Ab as [Ar Ap], Ab' as [Ar' Ap']. rewrite Ap, Ap'. split; [done|]. intros k. unfold fits.
    rewrite Ar, Ar', Ap, Ap', !size_rows, !length_fmap by (done || apply K'). lia.
  - destruct o; [apply table_insert_step|apply table_get_step|apply table_delete_step|apply table_update_step|apply table_scan_step]; try done; lia.
Qed.

Lemma wp_insert_row t H m A :
  models H m A -> fits fuel A 0 ->
  wp cap (op_cost fuel) (Insert fuel t H) m [] (fun r => table_post A (TInsert t) m (OutRid r.1) r.2).
Proof.
  intros Md F. eapply (wp_unwrap _ _ _ (fun r => (OutRid r.1, r.2)) _ _ (fun x => table_post A (TInsert t) m x.1 x.2));
    [|exact (wp_table_step (TInsert t) H m A Md I F)]. by intros [].
Qed.

Lemma wp_get_row r H m A :
  models H m A -> issued A r ->
  wp cap 2 (Get r) m [] (fun t m' gs' => gs' = [] /\ m' = m /\ table_spec A (TGet r) (OutTuple t) A).
Proof.
  intros (T & K & Hh & [Ar Ap]) [Hp Hs]. rewrite Ap in Hp. eapply wp_mono; [reflexivity| |eapply wp_Get; try done; apply no_guard].
  intros [t|e] m' gs' (-> & -> & R); (split; [done|]); (split; [done|]).
  - apply ts_get. by rewrite Ar.
  - destruct R as [[R1 R2]|[_ R]]; [|cbn in R; lia]. apply ts_get_missing; [by rewrite Ar|done].
Qed.

Lemma wp_delete_row r H m A :
  models H m A -> issued A r -> fits fuel A 0 ->
  wp cap (op_cost fuel) (Delete r H) m [] (fun x => table_post A (TDelete r) m (OutDone x.1) x.2).
Proof.
  intros Md Is F. eapply (wp_unwrap _ _ _ (fun x => (OutDone x.1, x.2)) _ _ (fun x => table_post A (TDelete r) m x.1 x.2));
    [|exact (wp_table_step (TDelete r) H m A Md Is F)]. by intros [].
Qed.

Lemma wp_update_row r t H m A :
  models H m A -> issued A r -> fits fuel A 0 ->
  wp cap (op_cost fuel) (Update fuel r t H) m [] (fun x => table_post A (TUpdate r t) m (OutRid x.1) x.2).
Proof.
  intros Md Is F. eapply (wp_unwrap _ _ _ (fun x => (OutRid x.1, x.2)) _ _ (fun x => table_post A (TUpdate r t) m x.1 x.2));
    [|exact (wp_table_step (TUpdate r t) H m A Md Is F)]. by intros [].
Qed.

(** ** [tscan] *)

Lemma all_readable T : readable [] T.
Proof. intros p _. apply no_guard. Qed.

Lemma wp_scan_loop steps it H m gs T rest k :
  table_ok H m T -> (length T < fuel)%nat -> iter_at T [] it gs rest -> (length rest < steps)%nat ->
  wp cap (2 * Z.of_nat fuel * Z.of_nat steps) (CmdTableScan_loop fuel steps it k) m gs (fun r m' gs' => m' = m /\ gs' = [] /\
    r.1 = (row_line <$> rest) ++ say ("tscan: " +:+ fmt (k + len rest) +:+ " rows") /\ finished r.2).
Proof.
  intros K Hf. revert it gs rest k. induction steps as [|steps IH]; intros it gs rest k At Hs; [lia|]. cbn [CmdTableScan_loop].
  apply (wp_bind _ (2 * Z.of_nat fuel)); [lia|]. eapply wp_mono; [reflexivity| |by eapply (wp_Next cap fuel it H m [] gs T rest K (all_readable T) Hf)].
  intros [[[|]|e] it1] m1 gs1 [-> R]; [| |destruct R as (_ & R & _); cbn in R; lia].
  - destruct R as (rest' & -> & At'). cbn [length] in Hs. apply (wp_bind _ (2 * Z.of_nat fuel * Z.of_nat steps)); [lia|].
    eapply wp_mono; [reflexivity| |eapply (IH it1 gs1 rest' (k + 1) At'); lia]. intros [out it2] m2 gs2 (-> & -> & E & Fin). apply wp_cret; [lia|].
    cbn [fst snd] in *. split_and!; try done. rewrite E. cbn [length]. replace (k + Z.of_nat (S (length rest'))) with (k + 1 + len rest') by lia. done.
  - destruct R as (-> & -> & Fin). apply wp_cret; [lia|]. cbn [fst snd length]. split_and!; try done. by rewrite Z.add_0_r.
Qed.

Definition scan_lines (rows : list (RID * list byte)) : list string :=
  (row_line <$> rows) ++ say ("tscan: " +:+ fmt (len rows) +:+ " rows").

Lemma wp_CmdTableScan H m A :
  models H m A -> fits fuel A 0 ->
  wp cap (op_cost fuel) (CmdTableScan fuel H) m [] (fun out m' gs' => m' = m /\ gs' = [] /\
    exists rows, rows ≡ₚ map_to_list (t_rows A) /\ out = scan_lines rows).
Proof.
  intros (T & K & Hh & Ab) F. pose proof (tk_nodup _ _ _ K) as ND. destruct (fits_layout _ _ _ _ ND Ab F) as [F1 F2]. unfold op_cost.
  unfold CmdTableScan. apply (wp_bind _ (2 * Z.of_nat fuel * Z.of_nat fuel)); [lia|].
  eapply wp_mono; [reflexivity| |eapply (wp_scan_loop fuel (Scan H) H m [] T (table_rows T) 0 K); [lia|apply iter_before; try done; apply K|lia]].
  intros [out it] m' gs' (-> & -> & E & Fin). cbn [fst snd] in *. apply (wp_bind _ 1); [lia|].
  eapply wp_mono; [reflexivity| |eapply wp_Close, (iter_end T), Fin]. intros [] m' gs' [-> ->]. apply wp_cret; [lia|]. split_and!; try done.
  exists (table_rows T). split; [|done]. rewrite (proj1 Ab). symmetry. by apply map_to_list_to_map, NoDup_table_rows.
Qed.

(** ** [tfill] *)

Lemma wp_fill_loop prefix n i H m A :
  models H m A -> fits fuel A n ->
  wp cap (op_cost fuel * Z.of_nat n) (CmdTableFill_loop fuel n i prefix H) m [] (fun r m' gs' => gs' = [] /\
    exists A', fills prefix i n A r.1 A' /\ models r.2 m' A' /\ grew m (t_pages A) m' (t_pages A')).
Proof.
  assert (Hc : 0 <= op_cost fuel) by (unfold op_cost; lia).
  revert i H m A. induction n as [|n IH]; intros i H m A Md F; cbn [CmdTableFill_loop].
  { apply wp_cret; [lia|]. split; [done|]. exists A. split; [constructor|]. split; [done|apply grew_same]. }
  apply (wp_bind _ (op_cost fuel)); [nia|]. eapply wp_mono; [reflexivity| |apply wp_insert_row; [exact Md|destruct F; split; lia]].
  intros [[r|e] H1] m1 gs1 [-> (A1 & Sp & Md1 & G1 & F1)]; cbn [fst snd] in *.
  - eapply wp_mono; [| |apply (IH (i + 1) H1 m1 A1 Md1 (F1 _ F))]; [lia|].
    intros [stop H2] m2 gs2 [-> (A2 & Fl & Md2 & G2)]. cbn [fst snd] in *. split; [done|]. exists A2. split; [by econstructor|]. split; [done|by eapply grew_trans].
  - apply wp_cret; [nia|]. split; [done|]. exists A1. split; [by econstructor|done].
Qed.

Definition fill_lines (count last_before last_after : Z) (stopped : option (Z * Status)) : list string :=
  match stopped with
  | Some (i, e) => say ("tfill: stopped after " +:+ fmt i +:+ " rows: " +:+ message e)
  | None => say ("tfill: " +:+ fmt count +:+ " rows, last page " +:+ fmt last_before +:+ " -> " +:+ fmt last_after)
  end.

Lemma wp_CmdTableFill count prefix H m A :
  models H m A -> fits fuel A (Z.to_nat count) ->
  wp cap (op_cost fuel * Z.of_nat fuel) (CmdTableFill fuel H count prefix) m [] (fun r m' gs' => gs' = [] /\
    exists stop A', fills prefix 0 (Z.to_nat count) A stop A' /\ r.1 = fill_lines count (last_page_id H) (last_page_id r.2) stop /\
      models r.2 m' A' /\ grew m (t_pages A) m' (t_pages A')).
Proof.
  intros Md F. unfold CmdTableFill. assert (Hc : 0 <= op_cost fuel) by (unfold op_cost; lia).
  assert (Hk : op_cost fuel * Z.of_nat (Z.to_nat count) <= op_cost fuel * Z.of_nat fuel) by (destruct F; apply Z.mul_le_mono_nonneg_l; lia).
  eapply wp_bind; [exact Hk|]. eapply wp_mono; [reflexivity| |by apply wp_fill_loop].
  intros [stop H'] m' gs' [-> (A' & Fl & Md' & G)]. cbn [fst snd] in *.
  destruct stop as [[i e]|]; (apply wp_cret; [lia|]); (split; [done|]); by eexists _, A'.
Qed.

(** ** [tpurge] *)

Lemma purge_scan_collect steps needle it s :
  CmdTablePurge_scan fuel steps needle it s =
  match Collect steps fuel it s with
  | Some ((Ok rows, it'), s') => Some ((Ok (filter (fun row => contains needle row.2 = true) rows).*1, it'), s')
  | Some ((Error e, it'), s') => Some ((Error e, it'), s')
  | None => None
  end.
Proof.
  revert it s. induction steps as [|steps IH]; intros it s; [done|]. cbn [CmdTablePurge_scan Collect]. unfold cbind.
  destruct (Next fuel it s) as [[[[[|]|e] it1] s1]|]; try done. rewrite IH. destruct (Collect steps fuel it1 s1) as [[[[rows|e] it2] s2]|]; try done.
  unfold cret. rewrite filter_cons. cbn [fst snd]. by destruct (contains needle (Tuple it1)).
Qed.

Lemma models_issued H m A r : models H m A -> is_Some (t_rows A !! r) -> issued A r.
Proof.
  intros (T & K & _ & [Ar Ap]) [t Ht]. rewrite Ar in Ht. apply contents_lookup in Ht as (i & a & Hi & Hs & _); [|apply K].
  split; [|done]. rewrite Ap. by eapply index_page.
Qed.

Lemma filter_out_cons (M : gmap RID (list byte)) r (L : list RID) :
  filter (fun row => row.1 ∉ L) (delete r M) = filter (fun row => row.1 ∉ r :: L) M.
Proof.
  apply map_eq. intros x. apply option_eq. intros t. rewrite !map_lookup_filter_Some, lookup_delete_Some, not_elem_of_cons. cbn. split; [intros [[? ?] ?]|intros [? [? ?]]]; by split_and!.
Qed.

Lemma wp_purge_delete matched H m A :
  models H m A -> fits fuel A 0 -> NoDup matched -> (forall r, r ∈ matched -> is_Some (t_rows A !! r)) ->
  wp cap (op_cost fuel * len matched) (CmdTablePurge_delete matched H) m [] (fun r m' gs' => gs' = [] /\ r.1 = ([], len matched) /\
    exists A', t_rows A' = filter (fun row => row.1 ∉ matched) (t_rows A) /\ t_pages A' = t_pages A /\
      models r.2 m' A' /\ grew m (t_pages A) m' (t_pages A')).
Proof.
  assert (Hc : 0 <= op_cost fuel) by (unfold op_cost; lia).
  revert H m A. induction matched as [|r matched IH]; intros H m A Md F ND Hin; cbn [CmdTablePurge_delete].
  { apply wp_cret; [cbn; lia|]. split; [done|]. split; [done|]. exists A. rewrite map_filter_id by (intros ? ? _; apply not_elem_of_nil).
    split_and!; try done. apply grew_same. }
  apply NoDup_cons in ND as [Nr ND]. assert (Hr : is_Some (t_rows A !! r)) by (apply Hin; by left).
  cbn [length]. apply (wp_bind _ (op_cost fuel)); [nia|]. eapply wp_mono; [reflexivity| |apply wp_delete_row; [exact Md|by eapply models_issued|exact F]].
  intros [st H1] m1 gs1 [-> (A1 & Sp & Md1 & G1 & _)]. cbn [fst snd] in *. inversion Sp; subst; [|destruct Hr as [t Ht]; congruence].
  assert (F1 : fits fuel (mkATable (delete r (t_rows A)) (t_pages A)) 0).
  { destruct F as [F1 F2]. split; [done|]. cbn [t_rows]. rewrite map_size_delete_Some by done. lia. }
  apply (wp_bind _ (op_cost fuel * len matched)); [nia|]. eapply wp_mono; [reflexivity| |apply (IH H1 m1 _ Md1 F1 ND)].
  - intros [[out k] H2] m2 gs2 (-> & E & A2 & Er & Ep & Md2 & G2). cbn [fst snd] in *. injection E as -> ->. apply wp_cret; [nia|].
    split; [done|]. split; [cbn; f_equal; lia|]. exists A2. split; [by rewrite Er; apply filter_out_cons|]. split; [done|]. split; [done|by eapply grew_trans].
  - intros x Hx. cbn [t_rows]. rewrite lookup_delete_ne by (intros ->; done). apply Hin. by right.
Qed.

(** The RIDs [tpurge] collects from the rows of a scan. *)
Definition matches (needle : list byte) (rows : list (RID * list byte)) : list RID :=
  (filter (fun row => contains needle row.2 = true) rows).*1.

Section matches.
Context (needle : list byte) (rows : list (RID * list byte)) (M : gmap RID (list byte)).
Hypothesis Hrows : rows ≡ₚ map_to_list M.

Lemma elem_matches r : r ∈ matches needle rows <-> exists t, M !! r = Some t /\ contains needle t = true.
Proof.
  unfold matches. rewrite list_elem_of_fmap. setoid_rewrite list_elem_of_filter. setoid_rewrite Hrows. split.
  - intros ([r' t] & -> & C & Hin%elem_of_map_to_list). by exists t.
  - intros (t & Hl & C). exists (r, t). by rewrite elem_of_map_to_list.
Qed.

Lemma NoDup_matches : NoDup (matches needle rows).
Proof.
  unfold matches. rewrite Hrows. apply (sublist_NoDup _ (map_to_list M).*1); [apply (NoDup_fst_map_to_list M)|]. apply fmap_sublist, sublist_filter.
Qed.

Lemma size_matches : length (matches needle rows) = size (purged needle M).
Proof.
  unfold matches, purged. rewrite length_fmap, Hrows, map_filter_alt, <- length_map_to_list, map_to_list_to_map; [done|].
  apply (sublist_NoDup _ (map_to_list M).*1); [apply (NoDup_fst_map_to_list M)|]. apply fmap_sublist, sublist_filter.
Qed.

Lemma filter_matches : filter (fun row => row.1 ∉ matches needle rows) M = spared needle M.
Proof.
  apply map_eq. intros r. apply option_eq. intros t. unfold spared. rewrite !map_lookup_filter_Some. cbn [fst snd]. rewrite elem_matches. split.
  - intros [Hl Hn]. split; [done|]. destruct (contains needle t) eqn:C; [|done]. destruct Hn. by exists t.
  - intros [Hl Hn]. split; [done|]. intros (t' & Hl' & C). congruence.
Qed.
End matches.

Lemma wp_CmdTablePurge needle H m A :
  models H m A -> fits fuel A 0 ->
  wp cap (op_cost fuel + op_cost fuel * Z.of_nat fuel) (CmdTablePurge fuel H needle) m [] (fun r m' gs' => gs' = [] /\
    r.1 = (let k := fmt (Z.of_nat (size (purged needle (t_rows A)))) in say ("tpurge: " +:+ k +:+ " matched, " +:+ k +:+ " deleted")) /\
    let A' := mkATable (spared needle (t_rows A)) (t_pages A) in models r.2 m' A' /\ grew m (t_pages A) m' (t_pages A')).
Proof.
  intros Md F. pose proof Md as (T & K & Hh & Ab). pose proof (tk_nodup _ _ _ K) as ND. destruct (fits_layout _ _ _ _ ND Ab F) as [F1 F2].
  assert (P : table_rows T ≡ₚ map_to_list (t_rows A)) by (rewrite (proj1 Ab); symmetry; by apply map_to_list_to_map, NoDup_table_rows).
  set (rids := matches needle (table_rows T)).
  assert (L : len rids = Z.of_nat (size (purged needle (t_rows A)))) by (unfold rids; by rewrite (size_matches _ _ _ P)).
  assert (Lf : len rids <= Z.of_nat fuel).
  { rewrite L. destruct F as [_ F]. pose proof (map_size_filter (fun row => contains needle row.2 = true) (t_rows A)). unfold purged. lia. }
  unfold CmdTablePurge. assert (Hc : 1 + 2 * Z.of_nat fuel * Z.of_nat fuel <= op_cost fuel) by (unfold op_cost; lia).
  apply (wp_bind _ (2 * Z.of_nat fuel * Z.of_nat fuel)); [nia|].
  apply (wp_mono _ _ (2 * Z.of_nat fuel * Z.of_nat fuel) _ _ _ _ (fun r m' gs' => m' = m /\ gs' = [] /\ r.1 = Ok rids /\ finished r.2)); [reflexivity| |].
  { intros [matched it] m' gs' (-> & -> & E & Fin). cbn [fst snd] in *. subst matched. apply (wp_bind _ 1); [nia|].
    eapply wp_mono; [reflexivity| |eapply wp_Close, (iter_end T), Fin]. intros [] m' gs' [-> ->].
    apply (wp_bind _ (op_cost fuel * len rids)); [nia|]. eapply wp_mono; [reflexivity| |apply (wp_purge_delete rids H m A Md F (NoDup_matches _ _ _ P))].
    - intros [[out k] H'] m' gs' (-> & E & A' & Er & Ep & Md' & G). cbn [fst snd] in *. injection E as -> ->. apply wp_cret; [nia|].
      split; [done|]. cbn [fst snd app]. rewrite L. split; [done|]. unfold rids in Er. rewrite (filter_matches _ _ _ P) in Er. destruct A' as [Mr L']. cbn [t_rows t_pages] in *. by subst Mr L'.
    - intros r Hr. apply (elem_matches _ _ _ P) in Hr as (t & Ht & _). by exists t. }
  intros n s Hn R. destruct (wp_Collect cap fuel fuel (Scan H) H m [] [] T (table_rows T) K (all_readable T) ltac:(lia) ltac:(apply iter_before; try done; apply K) ltac:(lia) n s Hn R)
    as ([[rows|e] it] & s' & m' & gs' & E & R' & -> & Q); [|destruct Q as (_ & Hx & _); cbn in Hx; lia].
  destruct Q as (-> & -> & Fin). exists (Ok rids, it), s', m, []. rewrite purge_scan_collect, E. done.
Qed.
End table.
