(* ===== verification/ShellSession.v ===== *)
(** * A session of the shell, in the user's terms

    What the user sees: numbered pages with bytes, and at most one open table, a map from RIDs
    to rows.  [cmd_spec] says what each command prints and does to them, [session_spec] what a
    whole input does; [wp_main_loop] is the rule that the shell's loop keeps to it.

    [cmd_enabled] is the discipline under which it does: raw commands stay away from page 1
    and, writing or deleting, from the pages of the open table, a build with assertions is not
    asked to fetch an id below -1 ([fetchable]), RIDs are the table's own, and [topen] is given the
    ends of a table.  [fuel] bounds the size of the table. *)

From stdpp Require Import gmap.
From S2P Require Import Prelude Common DiskManager HeapPage HeapPageProofs HeapPageRefine BufferPool BufferPoolOps BufferPoolLifecycle PoolRefine PageStore PageStoreLogic PoolStore.
From S2P Require Import TableHeap TableHeapSpec TableHeapProofs TableScan TableHeapTheorems ShellText Shell ShellSpec ShellCommands ShellTable.

Record Session := mkSession { s_pages : pages_t; s_table : option ATable }.

Definition has_table (s : Session) : bool := bool_decide (is_Some (s_table s)).
Definition table_pages (s : Session) : list Z := from_option t_pages [] (s_table s).

(** ** What is printed *)

Definition insert_lines (text : list byte) (res : Result RID) (last : Z) : list string :=
  match res with
  | Ok r => say ("tinsert: " +:+ fmt (len text) +:+ " bytes -> " +:+ fmt_rid r +:+ " (last page now " +:+ fmt last +:+ ")")
  | Error e => say ("tinsert: " +:+ message e)
  end.

Definition get_lines (r : RID) (res : Result (list byte)) : list string :=
  match res with
  | Ok row => say ("tget: " +:+ fmt_rid r +:+ " -> " +:+ quote +:+ AsText row +:+ quote)
  | Error e => say ("tget: " +:+ message e)
  end.

Definition update_lines (r : RID) (res : Result RID) : list string :=
  match res with
  | Ok r' => if bool_decide (r' = r) then say ("tupdate: " +:+ fmt_rid r +:+ " updated in place")
             else say ("tupdate: " +:+ fmt_rid r +:+ " RELOCATED to " +:+ fmt_rid r')
  | Error e => say ("tupdate: " +:+ message e)
  end.

Definition purge_lines (k : nat) : list string :=
  say ("tpurge: " +:+ fmt (Z.of_nat k) +:+ " matched, " +:+ fmt (Z.of_nat k) +:+ " deleted").

(** What [stat] prints of a pool at rest: nothing is being loaded, has failed or is pinned, and
    the resident frames are the candidates for eviction. *)
Definition stat_lines (on_disk frames resident : Z) : list string :=
  say ("stat: " +:+ fmt on_disk +:+ " pages on disk") ++
  say ("      frames " +:+ fmt frames +:+ ": " +:+ fmt (frames - resident) +:+ " free / " +:+ fmt resident +:+
       " resident / 0 loading / 0 failed") ++
  say ("      0 pinned, " +:+ fmt resident +:+ " evictable, free list holds " +:+ fmt (frames - resident)).

(** No page of this id, or one whose header does not name it. *)
Definition unreadable (m : pages_t) (id : Z) : Prop := forall bs, m !! id = Some bs -> ~ loadable id bs.

(** [quit] and [exit] end the session. *)
Definition is_quit (c : Command) : bool := match c with Quit => true | _ => false end.

(** ** What a command does *)

(** [cap] is the number of frames of the pool. *)
Section spec.
Context {host : Host} (cap : Z).

Inductive cmd_spec (s : Session) : Command -> list string -> Session -> Prop :=
  | sp_nothing : cmd_spec s Nothing [] s
  | sp_quit : cmd_spec s Quit [] s
  | sp_say out : cmd_spec s (Say out) out s
  | sp_stat on_disk resident :
      0 <= resident <= cap -> (forall p, is_Some (s_pages s !! p) -> p < on_disk) ->
      cmd_spec s Stat (stat_lines on_disk cap resident) s
  | sp_flushall : cmd_spec s FlushAll (say "flushall: ok") s
  | sp_flush id : cmd_spec s (FlushP id) (say "flush: ok") s
  | sp_new p :
      s_pages s !! p = None ->
      cmd_spec s New (say ("new: allocated page " +:+ fmt p)) (mkSession (<[p := fresh_page p]> (s_pages s)) (s_table s))
  | sp_write_long id text :
      kBodySize < len text + 1 ->
      cmd_spec s (Write id text) (say ("write: text too long (" +:+ fmt (len text) +:+ " bytes, max " +:+ fmt (kBodySize - 1) +:+ ")")) s
  | sp_write id text bs :
      len text + 1 <= kBodySize -> s_pages s !! id = Some bs ->
      cmd_spec s (Write id text) (say ("write: page " +:+ fmt id +:+ " <- " +:+ fmt (len text) +:+ " bytes"))
        (mkSession (<[id := patch PAGE_HEADER_SIZE (body_of text) bs]> (s_pages s)) (s_table s))
  | sp_write_bad id text e :
      len text + 1 <= kBodySize -> unreadable (s_pages s) id -> cmd_spec s (Write id text) (say ("write: " +:+ message e)) s
  | sp_read id bs :
      s_pages s !! id = Some bs ->
      cmd_spec s (Read id) (say ("read: page " +:+ fmt id +:+ " -> " +:+ quote +:+ AsText (until_nul (page_body bs)) +:+ quote)) s
  | sp_read_bad id e : unreadable (s_pages s) id -> cmd_spec s (Read id) (say ("read: " +:+ message e)) s
  | sp_delete id : cmd_spec s (DeleteP id) (say "delete: ok") (mkSession (delete id (s_pages s)) (s_table s))
  | sp_delete_bad id e :
      s_pages s !! id = None -> code e = kInvalidArgument -> cmd_spec s (DeleteP id) (PrintStatus "delete" e) s
  | sp_dump id bs :
      s_pages s !! id = Some bs -> ph_page_type (page_header bs) = HEAP -> cmd_spec s (TDump id) (dump_lines id bs) s
  | sp_dump_bad id e :
      (forall bs, s_pages s !! id = Some bs -> loadable id bs -> ph_page_type (page_header bs) <> HEAP) ->
      cmd_spec s (TDump id) (say ("tdump: " +:+ message e)) s
  | sp_tcreate p m' :
      s_pages s !! p = None -> (forall q, q <> p -> m' !! q = s_pages s !! q) ->
      cmd_spec s TCreate
        (say ("tcreate: first=" +:+ fmt p +:+ " last=" +:+ fmt p) ++
         say "         persist those two ids — the catalog will own them eventually")
        (mkSession m' (Some (mkATable ∅ [p])))
  | sp_topen first last T :
      table_ok (new_TableHeap first last) (s_pages s) T ->
      cmd_spec s (TOpen first last) (say ("topen: first=" +:+ fmt first +:+ " last=" +:+ fmt last))
        (mkSession (s_pages s) (Some (mkATable (contents T) T.*1)))
  | sp_tinsert A text res A' m' q :
      s_table s = Some A -> table_spec A (TInsert text) (OutRid res) A' ->
      grew (s_pages s) (t_pages A) m' (t_pages A') -> q ∈ t_pages A' ->
      cmd_spec s (TInsertC text) (insert_lines text res q) (mkSession m' (Some A'))
  | sp_tget A r res :
      s_table s = Some A -> table_spec A (TGet r) (OutTuple res) A -> cmd_spec s (TGetC r) (get_lines r res) s
  | sp_tupdate A r text res A' m' :
      s_table s = Some A -> table_spec A (TUpdate r text) (OutRid res) A' ->
      grew (s_pages s) (t_pages A) m' (t_pages A') ->
      cmd_spec s (TUpdateC r text) (update_lines r res) (mkSession m' (Some A'))
  | sp_tdelete A r st A' m' :
      s_table s = Some A -> table_spec A (TDelete r) (OutDone st) A' ->
      grew (s_pages s) (t_pages A) m' (t_pages A') ->
      cmd_spec s (TDeleteC r) (PrintStatus "tdelete" st) (mkSession m' (Some A'))
  | sp_tscan A rows :
      s_table s = Some A -> rows ≡ₚ map_to_list (t_rows A) -> cmd_spec s TScanC (scan_lines rows) s
  | sp_tfill A count prefix stop A' m' q q' :
      s_table s = Some A -> fills prefix 0 (Z.to_nat count) A stop A' ->
      grew (s_pages s) (t_pages A) m' (t_pages A') -> q ∈ t_pages A -> q' ∈ t_pages A' ->
      cmd_spec s (TFill count prefix) (fill_lines count q q' stop) (mkSession m' (Some A'))
  | sp_tpurge A needle m' :
      s_table s = Some A -> grew (s_pages s) (t_pages A) m' (t_pages A) ->
      cmd_spec s (TPurge needle) (purge_lines (size (purged needle (t_rows A))))
        (mkSession m' (Some (mkATable (spared needle (t_rows A)) (t_pages A)))).

(** ** The discipline *)

Definition on_open_table (s : Session) (K : ATable -> Prop) : Prop := exists A, s_table s = Some A /\ K A.

Definition cmd_enabled (fuel : nat) (s : Session) (c : Command) : Prop :=
  match c with
  | Write id _ => fetchable id /\ id ∉ table_pages s
  | Read id | TDump id => fetchable id
  | DeleteP id => id ∉ table_pages s
  | TOpen first last => exists T, table_ok (new_TableHeap first last) (s_pages s) T
  | TInsertC _ | TScanC | TPurge _ => on_open_table s (fun A => fits fuel A 0)
  | TGetC r | TUpdateC r _ | TDeleteC r => on_open_table s (fun A => issued A r /\ fits fuel A 0)
  | TFill count _ => on_open_table s (fun A => fits fuel A (Z.to_nat count))
  | _ => True
  end.

Inductive session_spec : Session -> list (list byte) -> list string -> Session -> Prop :=
  | se_eof s : session_spec s [] ["kernsql> "; println ""] s
  | se_quit s line lines : is_quit (parse (has_table s) line) = true -> session_spec s (line :: lines) ["kernsql> "] s
  | se_line s line lines out s1 outs s2 :
      is_quit (parse (has_table s) line) = false -> cmd_spec s (parse (has_table s) line) out s1 -> session_spec s1 lines outs s2 ->
      session_spec s (line :: lines) ("kernsql> " :: out ++ outs) s2.

(** Every line keeps to the discipline, whatever the lines before it were answered. *)
Fixpoint session_ok (fuel : nat) (lines : list (list byte)) (s : Session) : Prop :=
  match lines with
  | [] => True
  | line :: lines =>
      let c := parse (has_table s) line in
      cmd_enabled fuel s c /\ (is_quit c = false -> forall out s', cmd_spec s c out s' -> session_ok fuel lines s')
  end.

End spec.

(** ** The shell keeps to it *)

(** The shell's table handle, if any, is that of the session's table. *)
Definition holds (heap : option TableHeap) (s : Session) : Prop :=
  match heap, s_table s with
  | Some H, Some A => models H (s_pages s) A
  | None, None => True
  | _, _ => False
  end.

Lemma holds_has heap s : holds heap s -> bool_decide (is_Some heap) = has_table s.
Proof. unfold holds, has_table. destruct heap, (s_table s); done. Qed.

(** Raw commands elsewhere do not disturb the table. *)
Lemma models_other H m A m' :
  models H m A -> (forall p, p ∈ t_pages A -> m' !! p = m !! p) ->
  (forall p bs', m' !! p = Some bs' -> ph_page_type (page_header bs') = HEAP ->
     exists bs, m !! p = Some bs /\ ph_page_type (page_header bs) = HEAP) ->
  models H m' A.
Proof.
  intros (T & K & Hh & Ab) Same Heap. exists T. rewrite (proj2 Ab) in Same. split; [|split; [|done]].
  - destruct K as [K1 K2 K3 K4]. split; try done. intros i p a Hi. rewrite Same by (by eapply index_page). by apply K2.
  - destruct Hh as [?|[?|(Ni & Np & Hn)]]; [by left|right; by left|]. right. right. split; [done|]. split; [done|].
    intros bs' Hm Ty. destruct (Heap _ _ Hm Ty) as (bs & Hb & Ty'). by apply (Hn bs).
Qed.

Lemma holds_other heap s m' :
  holds heap s -> (forall p, p ∈ table_pages s -> m' !! p = s_pages s !! p) ->
  (forall p bs', m' !! p = Some bs' -> ph_page_type (page_header bs') = HEAP ->
     exists bs, s_pages s !! p = Some bs /\ ph_page_type (page_header bs) = HEAP) ->
  holds heap (mkSession m' (s_table s)).
Proof.
  unfold holds, table_pages. cbn [s_table s_pages]. destruct heap, (s_table s); try done. apply models_other.
Qed.

Lemma fresh_not_heap p : is_s32 p -> ph_page_type (page_header (fresh_page p)) <> HEAP.
Proof.
  intros Hp. unfold fresh_page, page_header. set (h := mkPageHeader _ _ _ _ _ _ _ _ _).
  rewrite slice_patch_same, PageHeader_ReadFrom_WriteTo; rewrite ?length_zeros, ?PageHeader_len; try done.
Qed.

Lemma table_page_used heap s p : holds heap s -> p ∈ table_pages s -> is_Some (s_pages s !! p).
Proof.
  unfold holds, table_pages. destruct heap, (s_table s) as [A|]; try done; cbn; [|by intros _ ?%elem_of_nil].
  intros (T & K & _ & _ & ->) Hp. destruct (table_page _ _ _ _ K Hp) as (i & a & bs & _ & Hm & _). by exists bs.
Qed.

Section session.
Context {errno_text : ErrnoText} {host : Host} (cap : Z) (fuel : nat).
Hypothesis Hcap : 2 <= cap.

(** The calls of the pool one line may make. *)
Definition line_cost : Z := op_cost fuel + op_cost fuel * Z.of_nat fuel.

Lemma line_cost_op : 20 <= op_cost fuel /\ op_cost fuel <= line_cost /\ op_cost fuel * Z.of_nat fuel <= line_cost.
Proof. unfold line_cost. assert (20 <= op_cost fuel) by (unfold op_cost; lia). nia. Qed.

(** What performing [c] leaves. *)
Definition performed (s : Session) (c : Command) (go : bool) (o : Outcome) (m' : pages_t) (gs' : list PageGuard) : Prop :=
  gs' = [] /\ goes_on o = go /\ exists s', cmd_spec cap s c (printed o) s' /\ s_pages s' = m' /\ holds (table o) s'.

(** A command that leaves the table alone. *)
Lemma wp_plain k heap s c (Q : list string -> pages_t -> list PageGuard -> Prop) (m : C Pool (list string)) :
  k <= line_cost -> wp cap k m (s_pages s) [] Q ->
  (forall out m' gs', Q out m' gs' -> gs' = [] /\ exists s', cmd_spec cap s c out s' /\ s_pages s' = m' /\ holds heap s') ->
  wp cap line_cost (plain heap m) (s_pages s) [] (performed s c true).
Proof.
  intros Hk W HQ. unfold plain. eapply wp_bind; [exact Hk|]. eapply wp_mono; [reflexivity| |exact W].
  intros out m' gs' Hq. destruct (HQ _ _ _ Hq) as [-> (s' & Sp & Ep & Hd)]. apply wp_cret; [lia|]. split; [done|]. split; [done|]. by exists s'.
Qed.

(** One on the open table. *)
Lemma wp_with_table k heap s c (f : TableHeap -> C Pool (list string * TableHeap)) A :
  k <= line_cost -> s_table s = Some A -> holds heap s ->
  (forall H, models H (s_pages s) A -> wp cap k (f H) (s_pages s) [] (fun r m' gs' => gs' = [] /\
     exists A', cmd_spec cap s c r.1 (mkSession m' (Some A')) /\ models r.2 m' A')) ->
  wp cap line_cost (with_table heap f) (s_pages s) [] (performed s c true).
Proof.
  intros Hk Ht Hd W. unfold holds in Hd. rewrite Ht in Hd. destruct heap as [H|]; [|done]. unfold with_table.
  eapply wp_bind; [exact Hk|]. eapply wp_mono; [reflexivity| |exact (W H Hd)].
  intros [out H'] m' gs' [-> (A' & Sp & Md)]. apply wp_cret; [lia|]. split; [done|]. split; [done|]. by eexists.
Qed.

Lemma wp_perform_table heap s c :
  holds heap s -> cmd_enabled fuel s c ->
  match c with TInsertC _ | TGetC _ | TUpdateC _ _ | TDeleteC _ | TScanC | TFill _ _ | TPurge _ => True | _ => False end ->
  wp cap line_cost (perform fuel heap c) (s_pages s) [] (performed s c true).
Proof.
  intros Hd En Hc. destruct line_cost_op as (C0 & C1 & C2). destruct c; try done; cbn [perform]; destruct En as (A & Ht & En).
  - eapply (wp_with_table _ _ _ _ _ _ C1 Ht Hd). intros H Md. unfold CmdTableInsert. eapply wp_bind; [reflexivity|].
    eapply wp_mono; [reflexivity| |by apply wp_insert_row]. intros [r H'] m' gs' [-> (A' & Sp & Md' & G & _)]. cbn [fst snd] in *.
    pose proof (models_last _ _ _ Md') as Hl.
    destruct r; (apply wp_cret; [lia|]); (split; [done|]); exists A'; (split; [|done]); exact (sp_tinsert _ _ _ _ _ _ _ _ Ht Sp G Hl).
  - destruct En as [Is F]. eapply (wp_with_table 2 _ _ _ _ _ ltac:(lia) Ht Hd). intros H Md. unfold reading, CmdTableGet. apply (wp_bind _ 2); [lia|].
    apply (wp_bind _ 2); [lia|]. eapply wp_mono; [reflexivity| |by eapply wp_get_row]. intros t m' gs' (-> & -> & Sp).
    assert (E : mkSession (s_pages s) (Some A) = s) by (destruct s; cbn in *; by rewrite Ht).
    destruct t; (apply wp_cret; [lia|]); (apply wp_cret; [lia|]); (split; [done|]); exists A; (split; [|done]); rewrite E; exact (sp_tget _ _ _ _ _ Ht Sp).
  - destruct En as [Is F]. eapply (wp_with_table _ _ _ _ _ _ C1 Ht Hd). intros H Md. unfold CmdTableUpdate. eapply wp_bind; [reflexivity|].
    eapply wp_mono; [reflexivity| |by apply wp_update_row]. intros [r H'] m' gs' [-> (A' & Sp & Md' & G & _)]. cbn [fst snd] in *.
    destruct r; (apply wp_cret; [lia|]); (split; [done|]); exists A'; (split; [|done]); exact (sp_tupdate _ _ _ _ _ _ _ _ Ht Sp G).
  - destruct En as [Is F]. eapply (wp_with_table _ _ _ _ _ _ C1 Ht Hd). intros H Md. eapply wp_bind; [reflexivity|].
    eapply wp_mono; [reflexivity| |by apply wp_delete_row]. intros [st H'] m' gs' [-> (A' & Sp & Md' & G & _)]. cbn [fst snd] in *.
    apply wp_cret; [lia|]. split; [done|]. exists A'. split; [|done]. exact (sp_tdelete _ _ _ _ _ _ _ Ht Sp G).
  - eapply (wp_with_table _ _ _ _ _ _ C1 Ht Hd). intros H Md. unfold reading. eapply wp_bind; [reflexivity|].
    eapply wp_mono; [reflexivity| |by apply wp_CmdTableScan]. intros out m' gs' (-> & -> & rows & P & ->).
    assert (E : mkSession (s_pages s) (Some A) = s) by (destruct s; cbn in *; by rewrite Ht).
    apply wp_cret; [lia|]. split; [done|]. exists A. split; [|done]. rewrite E. by apply (sp_tscan _ _ A).
  - eapply (wp_with_table _ _ _ _ _ _ C2 Ht Hd). intros H Md. pose proof (models_last _ _ _ Md) as Hl.
    eapply wp_mono; [reflexivity| |by apply wp_CmdTableFill]. intros [out H'] m' gs' [-> (stop & A' & Fl & E & Md' & G)]. cbn [fst snd] in *.
    split; [done|]. exists A'. split; [|done]. rewrite E. pose proof (models_last _ _ _ Md') as Hl'. by apply (sp_tfill _ _ A).
  - eapply (wp_with_table line_cost _ _ _ _ _ ltac:(lia) Ht Hd). intros H Md. eapply wp_mono; [reflexivity| |by apply wp_CmdTablePurge].
    intros [out H'] m' gs' (-> & E & Md' & G). cbn [fst snd] in *. split; [done|]. eexists. split; [|exact Md']. rewrite E. by apply sp_tpurge.
Qed.

(** A command that changes nothing. *)
Lemma wp_looking k heap s c (Q : list string -> pages_t -> list PageGuard -> Prop) (m : C Pool (list string)) :
  k <= line_cost -> wp cap k m (s_pages s) [] Q -> holds heap s ->
  (forall out m' gs', Q out m' gs' -> gs' = [] /\ m' = s_pages s /\ cmd_spec cap s c out s) ->
  wp cap line_cost (plain heap m) (s_pages s) [] (performed s c true).
Proof.
  intros Hk W Hd HQ. eapply wp_plain; [exact Hk|exact W|]. intros out m' gs' Hq. destruct (HQ _ _ _ Hq) as (-> & -> & Sp). split; [done|]. by exists s.
Qed.

Lemma wp_stat_lines m :
  wp cap 0 CmdStat m [] (fun out m' gs' => gs' = [] /\ m' = m /\ exists on_disk resident, 0 <= resident <= cap /\
    (forall p, is_Some (m !! p) -> p < on_disk) /\ out = stat_lines on_disk cap resident).
Proof.
  intros n P Hn R. destruct (pool_stats_law _ _ _ _ R) as (r & Hr & E & Hd). eexists _, P, m, []. split; [done|].
  split; [eapply rep_mono; [|exact R]; lia|]. split; [done|]. split; [done|]. exists (PageCount (disk P)), r. split; [done|]. split; [done|]. by rewrite E.
Qed.

Lemma wp_perform_write heap s id text :
  holds heap s -> cmd_enabled fuel s (Write id text) ->
  wp cap line_cost (perform fuel heap (Write id text)) (s_pages s) [] (performed s (Write id text) true).
Proof.
  intros Hd [Np Nt]. destruct line_cost_op as (C0 & C1 & C2). apply wp_pages. intros Bd. cbn [perform].
  eapply (wp_plain 3); [lia|by apply wp_CmdWrite|]. intros out m' gs' [-> [(Hl & -> & ->)|[(Hl & bs & Hm & -> & ->)|(Hl & Hu & -> & e & ->)]]]; (split; [done|]).
  - exists s. split; [by apply sp_write_long|done].
  - eexists. split; [by eapply sp_write|]. split; [done|]. destruct (Bd _ _ Hm) as [Lb _]. apply holds_other; [done| |].
    + intros p Hp. apply lookup_insert_ne. intros <-. done.
    + intros p bs' Hp Ty. destruct (decide (p = id)) as [->|Hne]; [|rewrite lookup_insert_ne in Hp by done; by exists bs'].
      rewrite lookup_insert_eq in Hp. injection Hp as <-. exists bs. split; [done|]. rewrite page_header_set in Ty; [done| |done]. apply len_body_of. lia.
  - exists s. split; [by apply sp_write_bad|done].
Qed.

Lemma wp_perform_new heap s :
  holds heap s -> wp cap line_cost (perform fuel heap New) (s_pages s) [] (performed s New true).
Proof.
  intros Hd. destruct line_cost_op as (C0 & C1 & C2). cbn [perform].
  assert (W : wp cap 2 CmdNew (s_pages s) [] (fun out m' gs' => gs' = [] /\ exists p, s_pages s !! p = None /\ m' = <[p := fresh_page p]> (s_pages s) /\
    2 <= p < 2 ^ 31 /\ out = say ("new: allocated page " +:+ fmt p))).
  { intros n st Hn R. destruct (wp_CmdNew cap Hcap (s_pages s) n st Hn R) as (out & st' & m' & gs' & E & R' & -> & p & Hp & -> & ->).
    eexists _, st', _, []. split; [exact E|]. split; [exact R'|]. split; [done|]. exists p. split_and!; try done;
      destruct (rep_length _ _ _ _ _ p (fresh_page p) R') as [_ B]; try (by rewrite lookup_insert_eq); lia. }
  eapply (wp_plain 2); [lia|exact W|]. intros out m' gs' (-> & p & Hn & -> & Bp & ->). split; [done|]. eexists. split; [by apply sp_new|]. split; [done|].
  apply holds_other; [done| |].
  - intros q Hq. apply lookup_insert_ne. intros <-. destruct (table_page_used _ _ _ Hd Hq). congruence.
  - intros q bs' Hq Ty. destruct (decide (q = p)) as [->|Hne]; [|rewrite lookup_insert_ne in Hq by done; by exists bs'].
    rewrite lookup_insert_eq in Hq. injection Hq as <-. destruct (fresh_not_heap p); [unfold is_s32; lia|done].
Qed.

Lemma wp_perform_delete heap s id :
  holds heap s -> id ∉ table_pages s ->
  wp cap line_cost (perform fuel heap (DeleteP id)) (s_pages s) [] (performed s (DeleteP id) true).
Proof.
  intros Hd Nt. destruct line_cost_op as (C0 & C1 & C2). cbn [perform].
  eapply (wp_plain 1); [lia|apply wp_delete_command|]. intros out m' gs' [-> [[-> ->]|(Hn & -> & e & He & ->)]]; (split; [done|]).
  - eexists. split; [apply sp_delete|]. split; [done|]. apply holds_other; [done| |].
    + intros p Hp. apply lookup_delete_ne. intros <-. done.
    + intros p bs' Hp Ty. apply lookup_delete_Some in Hp as [_ Hp]. by exists bs'.
  - exists s. split; [by apply sp_delete_bad|done].
Qed.

Lemma wp_perform_open heap s c :
  holds heap s -> cmd_enabled fuel s c -> match c with TCreate | TOpen _ _ => True | _ => False end ->
  wp cap line_cost (perform fuel heap c) (s_pages s) [] (performed s c true).
Proof.
  intros Hd En Hc. destruct line_cost_op as (C0 & C1 & C2). destruct c as [| |out| | | |id text|id|id|id| |first last| | | | | | | |id]; try done; cbn [perform]; unfold on_table.
  - apply (wp_bind _ 5); [lia|]. unfold CmdTableCreate. apply (wp_bind _ 5); [lia|]. eapply wp_mono; [reflexivity| |apply wp_Create].
    intros [H|e] m' gs' [-> Q]; [|destruct Q as (_ & _ & Hx); cbn in Hx; lia]. destruct Q as (p & Hn & -> & K & Hh & Fr).
    apply wp_cret; [lia|]. apply wp_cret; [lia|]. split; [done|]. split; [done|]. eexists. split; [by apply (sp_tcreate _ _ p m')|]. split; [done|].
    exists [(p, a_empty)]. split; [done|]. split; [done|]. by split.
  - destruct En as [T K]. apply (wp_bind _ 0); [lia|]. unfold CmdTableOpen, Open. apply (wp_bind _ 0); [lia|]. apply wp_cret; [lia|]. apply wp_cret; [lia|].
    apply wp_cret; [lia|]. split; [done|]. split; [done|]. eexists. split; [by apply (sp_topen _ _ first last T)|]. split; [done|].
    exists T. split; [done|]. split; [|by split]. right. left. exact (first_in _ _ _ K).
Qed.

(** Every command does what [cmd_spec] says. *)
Lemma wp_perform heap s c :
  holds heap s -> cmd_enabled fuel s c ->
  wp cap line_cost (perform fuel heap c) (s_pages s) [] (performed s c (negb (is_quit c))).
Proof.
  intros Hd En. destruct line_cost_op as (C0 & C1 & C2). destruct c as [| |out| | | |id text|id|id|id| |first last| | | | | | | |id]; cbn [negb is_quit];
    try (by apply wp_perform_table); try (by apply wp_perform_open); try (by apply wp_perform_write); cbn [perform].
  - apply wp_cret; [lia|]. split; [done|]. split; [done|]. exists s. split; [constructor|done].
  - apply wp_cret; [lia|]. split; [done|]. split; [done|]. exists s. split; [constructor|done].
  - apply wp_cret; [lia|]. split; [done|]. split; [done|]. exists s. split; [constructor|done].
  - by apply wp_perform_new.
  - eapply (wp_looking 0); [lia|apply wp_stat_lines|done|]. intros out m' gs' (-> & -> & d & r & Hr & Hd' & ->). split_and!; try done. by constructor.
  - eapply (wp_looking 1); [lia|apply wp_flushall_command|done|]. intros out m' gs' (-> & -> & ->). split_and!; try done. constructor.
  - eapply (wp_looking 2); [lia|by apply wp_CmdRead|done|]. intros out m' gs' (-> & -> & [(bs & Hm & ->)|(Hu & e & ->)]); split_and!; try done; by constructor.
  - by apply wp_perform_delete.
  - eapply (wp_looking 1); [lia|apply wp_flush_command|done|]. intros out m' gs' (-> & -> & ->). split_and!; try done. constructor.
  - eapply (wp_looking 2); [lia|by apply wp_CmdTableDump|done|].
    intros out m' gs' (-> & -> & [(bs & Hm & Ty & ->)|(Hu & e & ->)]); split_and!; try done; by constructor.
Qed.

Lemma wp_main_loop lines heap s :
  holds heap s -> session_ok cap fuel lines s ->
  wp cap (line_cost * len lines) (main_loop fuel lines heap) (s_pages s) [] (fun out m' gs' => gs' = [] /\
    exists s' heap', session_spec cap s lines out s' /\ s_pages s' = m' /\ holds heap' s').
Proof.
  destruct line_cost_op as (C0 & C1 & C2). revert heap s. induction lines as [|line lines IH]; intros heap s Hd Ok; cbn [main_loop].
  { apply wp_cret; [cbn; lia|]. split; [done|]. exists s, heap. split; [constructor|done]. }
  destruct Ok as [En Ok]. cbn [length]. apply (wp_bind _ line_cost); [nia|].
  assert (Ed : forall st, Dispatch fuel heap line st = perform fuel heap (parse (has_table s) line) st)
    by (intros st; rewrite Dispatch_parse; by rewrite (holds_has _ _ Hd)).
  set (c := parse (has_table s) line) in *.
  assert (W : wp cap line_cost (Dispatch fuel heap line) (s_pages s) [] (performed s c (negb (is_quit c)))).
  { intros n st Hn R. rewrite Ed. by apply (wp_perform heap s c Hd En n st Hn R). }
  eapply wp_mono; [reflexivity| |exact W]. intros o m1 gs1 (-> & Go & s1 & Sp & <- & Hd1). rewrite Go. destruct (is_quit c) eqn:Eq; cbn [negb].
  - assert (c = Quit) as Ec by (by destruct c). rewrite Ec in Sp. inversion Sp as [|Ep Es| | | | | | | | | | | | | | | | | | | | | | |]. subst s1.
    apply wp_cret; [nia|]. split; [done|]. exists s, (table o). split; [by constructor|done].
  - apply (wp_bind _ (line_cost * len lines)); [nia|].
    eapply wp_mono; [reflexivity| |apply (IH _ _ Hd1 (Ok eq_refl _ _ Sp))]. intros outs m2 gs2 (-> & s2 & heap2 & Sp2 & <- & Hd2). apply wp_cret; [nia|]. split; [done|].
    exists s2, heap2. split; [|done]. by eapply se_line.
Qed.
End session.
