(* ===== verification/ShellTheorems.v ===== *)
(** * What the shell promises

    A session on a database file, from [DiskManager::Open] to the exit code: what is printed,
    what the file holds afterwards, and that the next session finds it. *)

From stdpp Require Import gmap.
From S2P Require Import Prelude Common DiskManager DiskProofs DiskTheorems HeapPage HeapPageProofs HeapPageRefine HeapPageTheorems.
From S2P Require Import BufferPool BufferPoolProofs BufferPoolOps BufferPoolLifecycle PoolSteady PoolRefine PoolRefineProofs BufferPoolTheorems PageStore PageStoreLogic PoolStore.
From S2P Require Import TableHeap TableHeapSpec TableHeapProofs TableScan TableHeapTheorems.
From S2P Require Import ShellText ShellTextProofs Shell ShellSpec ShellCommands ShellTable ShellSession.

(** ** Database files *)




Section files.
Context {errno_text : ErrnoText} {host : Host}.



End files.

(** ** Tables in a set of pages *)




Section claims.
Context {errno_text : ErrnoText} {host : Host}.




Lemma session_cons cap s line lines out s' :
  session_spec cap s (line :: lines) out s' ->
  let c := parse (has_table s) line in
  if is_quit c then out = ["kernsql> "] /\ s' = s
  else exists o1 s1 o2, cmd_spec cap s c o1 s1 /\ session_spec cap s1 lines o2 s' /\ out = "kernsql> " :: o1 ++ o2.
Proof. cbv zeta. intros Sp. inversion Sp as [|? ? ? Q|? ? ? o1 s1 o2 ? Q Sc Ss]; subst; rewrite Q; [done|]. by exists o1, s1, o2. Qed.




(** Every command the shell has can be typed and is read back: the line for a command (page
    ids, slots and counts printed as the shell prints them, text with no blanks at its ends)
    makes [Dispatch] perform exactly that command, whatever the state. *)
Lemma shell_reads_commands fuel heap c s :
  typable c -> (needs_open c = true -> is_Some heap) ->
  Dispatch fuel heap (show c) s = perform fuel heap c s.
Proof.
  intros Ht Hn. rewrite Dispatch_parse, parse_show; [done|done|]. intros Hc. by apply bool_decide_eq_true_2, Hn.
Qed.

Lemma until_nul_app text rest : x00 ∉ text -> until_nul (text ++ x00 :: rest) = text.
Proof.
  induction text as [|b text IH]; intros Hn; [done|]. apply not_elem_of_cons in Hn as [Hb Hn]. cbn [app until_nul].
  rewrite bool_decide_eq_false_2 by congruence. by rewrite IH.
Qed.

Lemma until_nul_body text : x00 ∉ text -> len text + 1 <= kBodySize -> until_nul (body_of text) = text.
Proof.
  intros Hn Hl. unfold body_of. assert (E : patch 0 text (zeros kBodySize) = text ++ zeros (kBodySize - len text)).
  { unfold zeros. replace (Z.to_nat kBodySize) with (length text + Z.to_nat (kBodySize - len text))%nat by lia. rewrite replicate_add. apply patch_0. by rewrite length_replicate. }
  rewrite E. replace (zeros (kBodySize - len text)) with (x00 :: zeros (kBodySize - len text - 1)).
  - by apply until_nul_app.
  - unfold zeros. replace (Z.to_nat (kBodySize - len text)) with (S (Z.to_nat (kBodySize - len text - 1))) by lia. done.
Qed.

(** C23: What [write] stored [read] prints, for every text of at most 4063 bytes without NUL that
    can be typed, on every page that is not the catalog's or the table's, on a disk that
    answers. *)
Theorem shell_write_read cap fuel heap s id text bs n P :
  2 <= cap -> holds heap s -> typable (Write id text) -> x00 ∉ text -> len text + 1 <= kBodySize ->
  id <> CATALOG_ROOT_PAGE_ID -> id ∉ table_pages s -> s_pages s !! id = Some bs -> loadable id bs ->
  0 <= n -> rep cap (n + line_cost fuel * 2) (s_pages s) [] P ->
  exists P', rep cap n (<[id := patch PAGE_HEADER_SIZE (body_of text) bs]> (s_pages s)) [] P' /\
    main_loop fuel [show (Write id text); show (Read id)] heap P = Some
      (["kernsql> "; println ("write: page " +:+ fmt id +:+ " <- " +:+ fmt (len text) +:+ " bytes");
        "kernsql> "; println ("read: page " +:+ fmt id +:+ " -> " +:+ quote +:+ AsText text +:+ quote);
        "kernsql> "; println ""], P').
Proof.
  intros Hcap Hd Ht Nn Hl Np Nt Hm Ld Hn R. destruct (rep_length _ _ _ _ _ _ _ R Hm) as [Lb Rg].
  assert (Fi : fetchable id) by (apply fetchable_page; [unfold_consts; lia|done]).
  set (s1 := mkSession (<[id := patch PAGE_HEADER_SIZE (body_of text) bs]> (s_pages s)) (s_table s)).
  assert (P1 : parse (has_table s) (show (Write id text)) = Write id text) by (by apply parse_show).
  assert (P2 : parse (has_table s1) (show (Read id)) = Read id) by (apply parse_show; [apply Ht|done]).
  assert (S1 : forall out s', cmd_spec cap s (Write id text) out s' -> s' = s1 /\ out = say ("write: page " +:+ fmt id +:+ " <- " +:+ fmt (len text) +:+ " bytes")).
  { intros out s' Sp. inversion Sp as [| | | | | | |? ? Hx|? ? bs' Hx Hb|? ? ? Hx Hu| | | | | | | | | | | | | | |]; subst; [lia| |by destruct (Hu bs Hm)].
    rewrite Hm in Hb. by injection Hb as <-. }
  assert (Eb : page_header (patch PAGE_HEADER_SIZE (body_of text) bs) = page_header bs) by (apply page_header_set; [apply len_body_of; lia|done]).
  assert (S2 : forall out s', cmd_spec cap s1 (Read id) out s' -> s' = s1 /\ out = say ("read: page " +:+ fmt id +:+ " -> " +:+ quote +:+ AsText text +:+ quote)).
  { intros out s' Sp. inversion Sp as [| | | | | | | | | |? bs' Hb|? ? Hu| | | | | | | | | | | | |]; subst; cbn [s_pages s1] in *.
    - rewrite lookup_insert_eq in Hb. injection Hb as <-. rewrite page_body_set by (done || apply len_body_of; lia). by rewrite until_nul_body.
    - destruct (Hu _ (lookup_insert_eq _ _ _)). unfold loadable. by fold (page_header (patch PAGE_HEADER_SIZE (body_of text) bs)); rewrite Eb. }
  assert (Ok : session_ok cap fuel [show (Write id text); show (Read id)] s).
  { cbn [session_ok]. rewrite P1. split; [done|]. intros _ out s' Sp. destruct (S1 _ _ Sp) as [-> _]. rewrite P2. by split. }
  destruct (wp_main_loop cap fuel Hcap [show (Write id text); show (Read id)] heap s Hd Ok n P Hn R) as (out & P' & m & gs & E & R' & -> & s' & heap' & Sp & <- & _).
  exists P'. apply session_cons in Sp. rewrite P1 in Sp. destruct Sp as (o1 & sa & o2 & Sa & Sb & ->). destruct (S1 _ _ Sa) as [-> ->].
  apply session_cons in Sb. rewrite P2 in Sb. destruct Sb as (o3 & sc & o4 & Sc & Sd & ->). destruct (S2 _ _ Sc) as [-> ->]. inversion Sd; subst. done.
Qed.

(** C24: [tpurge] collects, releases its scan and then deletes: it returns, never waiting on its
    own latch; exactly the rows that contain the needle are gone, all the others keep their
    RIDs, it reports as many deleted as matched, and no page outside the table changes.  The
    disk answers. *)
Theorem shell_purge cap fuel H m A needle n P :
  2 <= cap -> models H m A -> fits fuel A 0 -> 0 <= n -> rep cap (n + line_cost fuel) m [] P ->
  exists H' m' P', CmdTablePurge fuel H needle P = Some ((purge_lines (size (purged needle (t_rows A))), H'), P') /\
    rep cap n m' [] P' /\ models H' m' (mkATable (spared needle (t_rows A)) (t_pages A)) /\
    (forall p, p ∉ t_pages A -> m' !! p = m !! p).
Proof.
  intros Hcap Md F Hn R. destruct (wp_CmdTablePurge cap fuel Hcap needle H m A Md F n P Hn R) as ([out H'] & P' & m' & gs & E & R' & -> & Eo & Md' & G).
  cbn [fst snd] in *. subst out. exists H', m', P'. split_and!; try done. apply G.
Qed.
End claims.

(** ** Sessions *)

#[local] Existing Instance debug_host.
#[local] Instance errno_text_shell : ErrnoText := {| errno_message n := pretty n |}.


Lemma fresh_fits p k : fits (S (S k)) (mkATable ∅ [p]) k.
Proof. split; cbn [t_pages t_rows length]; [lia|]. rewrite map_size_empty. lia. Qed.

Lemma fits_less fuel fuel' A k : (fuel <= fuel')%nat -> fits fuel A k -> fits fuel' A k.
Proof. intros ? [? ?]. split; lia. Qed.









#[local] Opaque demo_disk.

Lemma demo_pages n : 0 <= n < 2 ^ 30 -> rep 2 n (pages (store_of demo_disk [])) [] demo_pool.
Proof.
  intros Hn. change (pool_rep 2 n (pages (store_of demo_disk [])) [] demo_pool). destruct demo_disk_ok as (D & Cn & F).
  apply pool_rep_new; [exact D|apply demo_disk_snug|lia|lia|rewrite Cn; lia].
Qed.

#[local] Opaque demo_pool.

Lemma shell_write_read_witness :
  exists P', main_loop 5 [show (Write 2 (txt "two words")); show (Read 2)] None demo_pool = Some
    (["kernsql> "; println ("write: page 2 <- 9 bytes");
      "kernsql> "; println ("read: page 2 -> " +:+ quote +:+ "two words" +:+ quote); "kernsql> "; println ""], P').
Proof.
  destruct (shell_write_read 2 5 None (mkSession (pages (store_of demo_disk [])) None) 2 (txt "two words") (page_bytes 2 (file demo_disk)) 0 demo_pool) as (P' & _ & E).
  - lia.
  - exact I.
  - split; [by vm_compute|]. split; [done|]. split; intros b [= <-]; done.
  - apply (bool_decide_unpack _). vm_compute. exact I.
  - vm_compute. congruence.
  - done.
  - apply not_elem_of_nil.
  - destruct demo_disk_ok as (D & Cn & F). pose proof (store_of_lookup demo_disk [] 2) as Lk. rewrite decide_True in Lk; [exact Lk|]. rewrite Cn. split; [lia|apply not_elem_of_nil].
  - apply demo_loadable.
  - lia.
  - apply demo_pages. split; vm_compute; congruence.
  - exists P'. exact E.
Defined.

(** A new table with the row "hello". *)
Lemma demo_row n :
  0 <= n < 2 ^ 29 ->
  exists H m P r L, rep 2 n m [] P /\ models H m (mkATable {[r := txt "hello"]} L) /\ fits 5 (mkATable {[r := txt "hello"]} L) 0.
Proof.
  intros Hn. assert (Hc : op_cost 5 = 115) by (vm_compute; reflexivity).
  destruct (wp_Create 2 (pages (store_of demo_disk [])) [] (n + op_cost 5) demo_pool) as ([H|e] & P & m & gs & _ & R & -> & Q);
    [lia|apply demo_pages; lia| |destruct Q as (_ & _ & Hx); cbn in Hx; lia].
  destruct Q as (p & _ & -> & K & Hh & _).
  assert (Md : models (new_TableHeap p p) m (mkATable ∅ [p])) by (exists [(p, a_empty)]; split; [exact K|split; [exact Hh|by split]]).
  destruct (wp_insert_row 2 5 ltac:(lia) (txt "hello") _ _ _ Md ltac:(eapply fits_less; [|apply fresh_fits]; lia) n P ltac:(lia) R)
    as ([r H'] & P' & m' & gs' & _ & R' & -> & A' & Sp & Md' & _ & F).
  cbn [fst snd] in *. inversion Sp as [? r' L Ht Hf Hs|? e Ht Hx| | | | | | | |]; subst.
  - exists H', m', P', r', L. split; [exact R'|]. split; [exact Md'|]. apply F. eapply fits_less; [|apply fresh_fits]. lia.
  - destruct Ht. split; vm_compute; congruence.
Qed.

Lemma shell_purge_witness :
  exists H P H' P', CmdTablePurge 5 H (txt "ell") P = Some ((say "tpurge: 1 matched, 1 deleted", H'), P').
Proof.
  destruct (demo_row (line_cost 5)) as (H & m & P & r & L & R & Md & F); [split; vm_compute; congruence|].
  destruct (shell_purge 2 5 H m (mkATable {[r := txt "hello"]} L) (txt "ell") 0 P ltac:(lia) Md F ltac:(lia) R) as (H' & m' & P' & E & _).
  exists H, P, H', P'. rewrite E. cbn [t_rows]. unfold purged. rewrite map_filter_singleton_True by (vm_compute; reflexivity). rewrite map_size_singleton. done.
Defined.
